(* ===== verification/_CoqProject ===== *)
-Q . S2P
Prelude.v
Crt.v
Algorithm.v
Bitfield.v
IntrusiveList.v
NonstdList.v
NonstdListCopy.v
BootProtocol.v
BootMem.v
BootPaging.v
BootFat.v
BootStage2.v
PageFrame.v
MemoryMap.v
Kmalloc.v
MemoryInit.v
NodeHashMap.v
NodeHashMapOps.v
Deque.v
DequeOps.v
Libc.v
Printf.v
StringView.v
Console.v
UniquePtr.v
Bitcast.v
Serial.v
Terminal.v
TestRunner.v
Heap.v
NonstdVector.v
NonstdString.v
NonstdStringOps.v
Lru.v
Scheduler.v
PageTable.v
PageTableDump.v
AddressSpace.v
PageCache.v
Fat32.v
Vfs.v
Elf.v
Process.v
Loader.v
Exec.v
Interrupt.v
ContextSwitch.v
Ahci.v
Pci.v
AhciInit.v
FatVfs.v
Startup.v
Userspace.v
