(* ===== verification/Prelude.v ===== *)
(** * HmmOS: a verification development

    HmmOS is a small 32-bit x86 operating system: a boot loader (src/src/boot)
    that reads the memory map and the kernel from a FAT32 disk and sets up
    paging, and a C++ kernel (src/src/kernel) with its own containers, a page
    frame allocator and heap, page tables, a page cache over an AHCI disk, a
    FAT32 file system under a VFS, processes loaded from ELF files and a
    round-robin scheduler.  This library models that code as executable
    functions and proves what makes it correct.

    ** How code is modelled

    - A function that reads or changes state is a computation [M S A] over a
      record [S] that holds what the code keeps; [Ret] is a return, [Halt f] is
      the end of the execution: [AssertFail] for a failed assertion,
      [BadAccess] for an access through a pointer that designates no object,
      [OutOfFuel] for a loop of the model that ran out of fuel.  [wp m Q s] says
      that [m] returns from [s] and [Q] holds of its result; [wpx E m Q s]
      allows the faults [E], which the theorems use for running out of memory
      and for the assertions that guard against it.
    - Running out of memory is a fact about the state of the heap at that
      point: [serves n s] of PageTable says that the next [n] requests for a
      page are granted from [s], and a theorem that allows a failure for lack
      of memory says of which state, and for how many pages, [serves] is
      false, or that the request was refused in the state it was made in.
    - Integers are in Z with the wrap-around of their width written out
      ([wrap], [u8] to [u64]); bit fields are words with offsets and widths
      ([Bitfield]).
    - Objects on the heap are maps from addresses (IntrusiveList, NonstdList,
      NodeHashMap, Heap, Vfs) where sharing matters; elsewhere a container is
      the mathematical object that the file on that container shows it to be.
    - A loop is a Fixpoint on fuel.  Theorems are total: the fuel is the length
      of the list, the number of pages or clusters, or what the theorem says is
      enough, and the result then is a return.
    - What is outside the repository is a class: the frame allocator seen from
      the heap (FrameAllocator), the page allocator seen from the page tables
      (PageAllocator), the heap seen from the disk driver (BlockAllocator), the
      block device (BlockReader), the page cache seen from file systems
      (PageSource), a file system seen from the VFS (FsDriver), and the
      hardware: AhciDevice, PciHost, Pic8259, Uart.  The first six are
      implemented here by the component below, so the theorems compose; the
      hardware classes state what the device's specification says, and the
      x86 instructions of the context switch are a small machine in
      ContextSwitch.

    ** The files

    Foundations.  Prelude: this file.  Algorithm: src/src/common/memdefs.h and
    kernel/util/algorithm.h.  Bitfield: packed structs and the page table
    entries.  Crt: crt/crti.cc, global constructors and destructors; the
    destructors run once, in reverse order of registration.  Bitcast:
    util/bw.h and util/objutil.h, structs as integers.  UniquePtr:
    nonstd/memory.h, an object lives as long as a pointer holds it.

    Boot loader.  BootProtocol: common/boot_protocol.h.  BootMem: the E820 map
    and its allocator (boot/page_table.c); first fit, blocks disjoint.
    BootPaging: the boot page tables translate as documented.  BootFat: the
    FAT32 reader and the kernel loader (boot/fat.c, boot/copy_kernel.c).
    BootStage2: pmode_entry of boot/stage2.S, the composition of these; the
    kernel is entered with its image, paging and memory map in place.
    Console: common/console.c.

    Memory.  MemoryMap: kernel/mm/page_frame_table.cc, the normalised map is
    exact; kernel/mm/virt.h.  PageFrame: mm/page_frame_allocator.cc, complete
    and undone by free.  Kmalloc: mm/kmalloc.cc, blocks disjoint.  MemoryInit:
    the memory part of kernel/entry.cc, from the memory map to the heap; the
    allocator hands out exactly the free pages of the map.  PageTable:
    arch/x86/page_table.cc and mm/virt.cc; histories of map and unmap refine a
    partial map, TLB included; the cloned directory translates the kernel half
    as the original.  PageTableDump: the listing of the tables names exactly
    the mapped pages.  AddressSpace: the directories of processes, as
    proc/process.cc and sched/kthread.cc use them, are one page map per
    process, isolated from each other and entered by schedule.

    Containers and strings (kernel/nonstd, kernel/util).  IntrusiveList,
    NonstdList, NodeHashMap, Deque, Heap (Mallocator), NonstdVector,
    NonstdString: every history of operations refines the sequence or finite
    map.  NonstdListCopy, NodeHashMapOps, DequeOps, NonstdStringOps: the
    constructors from ranges, copies, splices of a range, concatenation and
    [operator==]; a copy holds what the original holds, and comparison decides
    equality of the sequences or maps (for strings, up to a NUL).
    Lru: the cache evicts unused entries in order of use.  Libc, Printf,
    StringView: memory and string functions, formatted output, views and paths.

    Output.  Serial: drivers/serial.cc, what is written goes on the line and
    what comes in is read in order.  Terminal: the writer of printf over the
    console and the port together; both show the formatted text.

    Kernel services.  Scheduler: sched/kthread.cc refines a queue of threads and
    is fair.  PageCache: fs/page_cache.cc and drivers/device.cc, transparent.
    Fat32: fs/drivers/fat32.cc, lookup, cluster chains, names.  Vfs: fs/vfs.cc,
    path lookup with the dentry cache agrees with the tree on disk, reference
    counts are exact, reads return slices.  Elf: proc/elf.cc.  Process:
    proc/process.cc and the fault and system call handlers of
    arch/x86/isrs.cc, refines descriptors and mappings.  Loader: an ELF segment
    is where the program expects it.  Exec: the process constructor, from the
    path of an executable to a process ready to run.  Interrupt: the stubs, the
    IDT, the GDT and the PIC (arch/x86, drivers/pic.cc).  ContextSwitch:
    arch/x86/stack.S and the entry to user mode; threads are coroutines, and a
    program is interrupted on its kernel stack and resumed.  Ahci: drivers/ahci.cc,
    the port memory and read_blocking.  Pci: drivers/pci.cc, enumeration ends
    and is complete.  AhciInit: the controller is found, enabled, mapped and
    given its memory, over Pci, PageTable, Kmalloc and Ahci.  FatVfs: the mount
    sequence of entry.cc and the composition of all of it: a path read from a
    mounted disk gives the bytes of the file.  Startup: the stages of
    kernel/entry.cc one after the other, up to the first process queued to run
    with its segments in place, and the timer.

    Around the kernel.  Userspace: what the programs under src/src/userspace
    compute.  TestRunner: test/test.cc and test/entry.cc, the tests that a
    selection selects are run once each and counted.

    ** Bounds and what they mean

    Theorems on disks assume clusters of one page, a data region aligned to
    pages and a partition below 4 GB: outside of these the driver fails (the
    examples in Fat32).  What is on the disk is described from the FAT32 format
    and not from the drivers; both drivers misread the high half of a first
    cluster, so the theorems that follow a directory entry are about files and
    directories that start in the first 65536 clusters.  The boot loader reads
    whole sectors, unmasked FAT entries and the first sector of the root
    directory: its theorem is about a kernel of a multiple of 512 bytes found
    there.  PCI enumeration assumes that a bridge leads to a higher bus number,
    which bounds its recursion by 256, and lists what Pci's [listed_fn] says:
    all functions that PCI defines where the functions of a device agree on the
    multi-function bit.  A disk read is at most 16 sectors, one entry of the
    scatter list, to a destination outside the ports' memory (Ahci shows what
    happens otherwise).  The stubs of vectors 7, 8 and 19 disagree with the
    processor about the error code.  Histories of a process leave out file
    mappings whose arguments fail the checks, and histories of the LRU cache
    call evict_one on shared items only: examples in Process and Lru show what
    the code does there.  Reference counts are not bounded: 2^32 references do
    not fit in memory.

    Examples (closed computations) record behaviour that is not what the code
    means to do: they evaluate the model on an input that shows it.

    ** Not modelled

    Assembly other than pmode_entry, copy_bytes, the interrupt stubs and
    stack.S, in particular the real-mode stages of the boot loader; the time-stamp counter,
    whose readings are arguments, and the ACPI shutdown, which is the end of
    the execution; the text of messages (the register dump, thread statistics,
    the boot loader's map listing); the iterator classes of the containers, of
    which the operations take positions; the operations that return
    Unsupported or are empty; the unit tests. *)
From stdpp Require Export base numbers list list_numbers gmap fin_maps sets.
From Stdlib Require Export ZArith Lia.

#[global] Open Scope Z_scope.
#[export] Set Default Goal Selector "!".

Declare Scope hmm_scope.
Delimit Scope hmm_scope with hmm.
#[global] Open Scope hmm_scope.

(** ** Outcomes of a piece of kernel code

    [Halt] is how the model represents the executions after which the
    C/C++ abstract machine does not continue: a failed [ASSERT] (which
    shuts the machine down), an access through a pointer that does not
    designate an object, and a loop whose fuel ran out in the model. *)
Inductive fault :=
| AssertFail
| BadAccess
| OutOfFuel.

Inductive outcome (A : Type) :=
| Ret (a : A)
| Halt (f : fault).
Arguments Ret {A} a.
Arguments Halt {A} f.

#[export] Instance fault_eq_dec : EqDecision fault.
Proof. intros [] []; (by left) || (by right). Defined.

#[export] Instance outcome_ret : MRet outcome := @Ret.
#[export] Instance outcome_bind : MBind outcome := λ A B k m,
  match m with Ret a => k a | Halt f => Halt f end.

(** Whether a run completed. *)
Definition is_ret {A} (o : outcome A) : bool := match o with Ret _ => true | Halt _ => false end.

(** [ASSERT(c)] / [assert(c)]. *)
Definition assert_ (c : bool) : outcome unit :=
  if c then Ret tt else Halt AssertFail.

(** A read through a pointer or an index that may be invalid. *)
Definition deref {A} (o : option A) : outcome A :=
  match o with Some a => Ret a | None => Halt BadAccess end.

(** ** The state monad over outcomes *)
Definition M (S A : Type) : Type := S → outcome (A * S).

#[export] Instance M_ret S : MRet (M S) := λ A a s, Ret (a, s).
#[export] Instance M_bind S : MBind (M S) := λ A B k m s,
  match m s with
  | Ret (a, s') => k a s'
  | Halt f => Halt f
  end.

Definition getS {S} : M S S := λ s, Ret (s, s).
Definition putS {S} (s : S) : M S unit := λ _, Ret (tt, s).
Definition liftO {S A} (o : outcome A) : M S A := λ s,
  match o with Ret a => Ret (a, s) | Halt f => Halt f end.
Definition assertM {S} (c : bool) : M S unit := liftO (assert_ c).
Definition halt {S A} (f : fault) : M S A := λ _, Halt f.

(** Total-correctness weakest precondition: the run returns, and the
    value and the final state satisfy [Q]. *)
Definition wp {S A} (m : M S A) (Q : A → S → Prop) (s : S) : Prop :=
  match m s with
  | Ret (a, s') => Q a s'
  | Halt _ => False
  end.

Section wp.
Context {S : Type}.
Implicit Types s : S.

Lemma wp_ret {A} (a : A) (Q : A → S → Prop) s : Q a s → wp (mret a) Q s.
Proof. done. Qed.

Lemma wp_bind {A B} (m : M S A) (k : A → M S B) Q s :
  wp m (λ a s', wp (k a) Q s') s → wp (x ← m; k x) Q s.
Proof.
  unfold wp, mbind, M_bind. by destruct (m s) as [[a s']|].
Qed.

Lemma wp_mono {A} (m : M S A) (P Q : A → S → Prop) s :
  wp m P s → (∀ a s', P a s' → Q a s') → wp m Q s.
Proof.
  unfold wp. destruct (m s) as [[a s']|]; [|done]. auto.
Qed.

Lemma wp_assert c (Q : unit → S → Prop) s :
  c = true → Q tt s → wp (assertM c) Q s.
Proof. intros ->. done. Qed.

Lemma wp_get (Q : S → S → Prop) s : Q s s → wp getS Q s.
Proof. done. Qed.

Lemma wp_put s' (Q : unit → S → Prop) s : Q tt s' → wp (putS s') Q s.
Proof. done. Qed.

Lemma wp_deref {A} (o : option A) a (Q : A → S → Prop) s :
  o = Some a → Q a s → wp (liftO (deref o)) Q s.
Proof. intros ->. done. Qed.

Lemma wp_lift {A} (o : outcome A) a (Q : A → S → Prop) s :
  o = Ret a → Q a s → wp (liftO o) Q s.
Proof. intros ->. done. Qed.

Lemma wp_run {A} (m : M S A) Q s :
  wp m Q s ↔ ∃ a s', m s = Ret (a, s') ∧ Q a s'.
Proof.
  unfold wp. destruct (m s) as [[a s']|]; split.
  - eauto.
  - intros (?&?&[= -> ->]&?). done.
  - done.
  - intros (?&?&[=]&?).
Qed.
End wp.

(** The same with the faults [E] allowed: what the code guarantees when a
    resource (memory) may run out. *)
Definition wpx {S A} (E : fault → Prop) (m : M S A) (Q : A → S → Prop) (s : S) : Prop :=
  match m s with
  | Ret (a, s') => Q a s'
  | Halt f => E f
  end.

Section wpx.
Context {S : Type} (E : fault → Prop).
Implicit Types s : S.

Lemma wpx_wp {A} (m : M S A) Q s : wp m Q s → wpx E m Q s.
Proof. unfold wp, wpx. by destruct (m s) as [[a s']|]. Qed.

Lemma wpx_bind {A B} (m : M S A) (k : A → M S B) Q s :
  wpx E m (λ a s', wpx E (k a) Q s') s → wpx E (x ← m; k x) Q s.
Proof. unfold wpx, mbind, M_bind. by destruct (m s) as [[a s']|]. Qed.

Lemma wpx_run {A} (m : M S A) Q s : wpx E m Q s → is_ret (m s) = true → ∃ a s', m s = Ret (a, s') ∧ Q a s'.
Proof. unfold wpx. destruct (m s) as [[a s']|]; [eauto|done]. Qed.

Lemma wpx_mono {A} (m : M S A) (P Q : A → S → Prop) s :
  wpx E m P s → (∀ a s', P a s' → Q a s') → wpx E m Q s.
Proof. unfold wpx. destruct (m s) as [[a s']|]; [|done]. auto. Qed.

Lemma wpx_ret {A} (a : A) (Q : A → S → Prop) s : Q a s → wpx E (mret a) Q s.
Proof. done. Qed.

Lemma wpx_get (Q : S → S → Prop) s : Q s s → wpx E getS Q s.
Proof. done. Qed.

Lemma wpx_put s' (Q : unit → S → Prop) s : Q tt s' → wpx E (putS s') Q s.
Proof. done. Qed.

Lemma wpx_assert c (Q : unit → S → Prop) s :
  (c = false → E AssertFail) → (c = true → Q tt s) → wpx E (assertM c) Q s.
Proof. destruct c; [intros _|intros H _]; cbv; auto. Qed.

Lemma wpx_lift {A} (o : outcome A) a (Q : A → S → Prop) s :
  o = Ret a → Q a s → wpx E (liftO o) Q s.
Proof. intros ->. done. Qed.
End wpx.

(** An operation on a component of a larger state. *)
Definition on_part {S T A} (get : S → T) (put : T → S → S) (m : M T A) : M S A := λ s,
  match m (get s) with
  | Ret (a, t) => Ret (a, put t s)
  | Halt f => Halt f
  end.

Lemma wp_on_part {S T A} (get : S → T) (put : T → S → S) (m : M T A) Q s :
  wp m (λ a t, Q a (put t s)) (get s) → wp (on_part get put m) Q s.
Proof. unfold wp, on_part. by destruct (m (get s)) as [[a t]|]. Qed.

Lemma wpx_on_part {S T A} E (get : S → T) (put : T → S → S) (m : M T A) Q s :
  wpx E m (λ a t, Q a (put t s)) (get s) → wpx E (on_part get put m) Q s.
Proof. unfold wpx, on_part. by destruct (m (get s)) as [[a t]|]. Qed.

Lemma M_bind_assoc {S A B C} (m : M S A) (k : A → M S B) (h : B → M S C) s :
  (y ← (x ← m; k x); h y) s = (x ← m; y ← k x; h y) s.
Proof. unfold mbind, M_bind. by destruct (m s) as [[a s']|]. Qed.
Lemma wpx_eq {S A} E (m m' : M S A) Q s : m s = m' s → wpx E m' Q s → wpx E m Q s.
Proof. unfold wpx. by intros ->. Qed.

Lemma wpx_weaken {S A} (E E' : fault → Prop) (m : M S A) (P Q : A → S → Prop) s :
  wpx E m P s → (∀ f, E f → E' f) → (∀ a s', P a s' → Q a s') → wpx E' m Q s.
Proof. unfold wpx. destruct (m s) as [[a s']|]; auto. Qed.

(** Unfold the monad's own plumbing, nothing else. *)
Ltac munfold :=
  unfold wp, mbind, mret, M_bind, M_ret, outcome_bind, outcome_ret, getS, putS,
    assertM, halt, liftO, deref, assert_.

Create HintDb hmm discriminated.
Create Rewrite HintDb hmm_rw.
#[export] Hint Resolve wp_ret wp_get wp_put : hmm.

(** ** Machine integers

    A [w]-bit unsigned value is a [Z] in [[0, 2^w)]; every operation of
    the source that can leave the range is followed by [wrap]. *)
Definition wrap (w z : Z) : Z := z mod 2 ^ w.
Abbreviation u8 := (wrap 8).
Abbreviation u16 := (wrap 16).
Abbreviation u32 := (wrap 32).
Abbreviation u64 := (wrap 64).

Notation "'is_u32' x" := (0 ≤ x < 2 ^ 32) (at level 10) : hmm_scope.
Notation "'is_u64' x" := (0 ≤ x < 2 ^ 64) (at level 10) : hmm_scope.

Lemma wrap_range w z : 0 ≤ w → 0 ≤ wrap w z < 2 ^ w.
Proof. intros. apply Z.mod_pos_bound. lia. Qed.

Lemma wrap_small w z : 0 ≤ z < 2 ^ w → wrap w z = z.
Proof. intros. by apply Z.mod_small. Qed.

Lemma wrap_idemp w z : 0 ≤ w → wrap w (wrap w z) = wrap w z.
Proof. intros. apply wrap_small, wrap_range. done. Qed.

#[export] Hint Resolve wrap_range : hmm.

(** Lengths as machine-sized integers. *)
Abbreviation zlen l := (Z.of_nat (length l)).

(** Signed reading of a [w]-bit pattern (two's complement). *)
Definition signed (w z : Z) : Z :=
  if bool_decide (wrap w z < 2 ^ (w - 1)) then wrap w z else wrap w z - 2 ^ w.

(** ** Arithmetic facts shared by the components *)
Lemma land_mask_mod x n : 0 ≤ n → Z.land x (2 ^ n - 1) = x mod 2 ^ n.
Proof. intros. rewrite <- Z.land_ones by done. by rewrite Z.ones_equiv. Qed.

Lemma land_not_mask x n : 0 ≤ n →
  Z.land x (Z.lnot (2 ^ n - 1)) = 2 ^ n * (x / 2 ^ n).
Proof.
  intros Hn. replace (2 ^ n - 1) with (Z.ones n) by (rewrite Z.ones_equiv; lia).
  rewrite <- Z.ldiff_land, Z.ldiff_ones_r, Z.shiftl_mul_pow2, Z.shiftr_div_pow2
    by done. lia.
Qed.

Lemma mul_div_le_mod x n : 0 < n → n * (x / n) = x - x mod n.
Proof. intros. pose proof (Z.div_mod x n). lia. Qed.

(** ** Quantifiers over the elements of a cons *)
Lemma exists_elem_cons {A} (P : A → Prop) x l :
  (∃ y, y ∈ x :: l ∧ P y) ↔ P x ∨ ∃ y, y ∈ l ∧ P y.
Proof. setoid_rewrite elem_of_cons. naive_solver. Qed.

Lemma forall_elem_cons {A} (P : A → Prop) x l :
  (∀ y, y ∈ x :: l → P y) ↔ P x ∧ ∀ y, y ∈ l → P y.
Proof. setoid_rewrite elem_of_cons. naive_solver. Qed.

(** ** Counted loops: [for (uint64_t i = from; i < to; i += incr) body(i)] *)
Fixpoint for_loop {S} (fuel : nat) (i to incr : Z) (body : Z → M S unit) : M S unit :=
  match fuel with
  | O => halt OutOfFuel
  | Datatypes.S fuel =>
    if i <? to then _ ← body i; for_loop fuel (u64 (i + incr)) to incr body
    else mret tt
  end.

(** Invariant rule: [cnt] iterations reach [to] exactly, and any fuel
    above [cnt] is enough. *)
Lemma wp_for_loop {S} (I : Z → S → Prop) (cnt fuel : nat) i to incr body (s : S) :
  0 < incr → 0 ≤ i → to = i + Z.of_nat cnt * incr → to + incr < 2 ^ 64 → (cnt < fuel)%nat →
  (∀ k s, (k < cnt)%nat → I (i + Z.of_nat k * incr) s →
     wp (body (i + Z.of_nat k * incr)) (λ _ s', I (i + Z.of_nat (Datatypes.S k) * incr) s') s) →
  I i s → wp (for_loop fuel i to incr body) (λ _ s', I to s') s.
Proof.
  intros Hincr. revert i fuel s. induction cnt as [|cnt IH];
    intros i [|fuel] s Hi Hto Hb Hf Hbody HI; try lia; cbn [for_loop].
  - replace (i <? to) with false by lia. apply wp_ret. by replace to with i by lia.
  - replace (i <? to) with true by nia. apply wp_bind.
    eapply wp_mono.
    { pose proof (Hbody O s) as H0. rewrite Z.mul_0_l, Z.add_0_r in H0. apply H0; [lia|done]. }
    intros [] s' HI'. rewrite wrap_small by nia.
    replace (i + Z.of_nat 1 * incr) with (i + incr) in HI' by lia.
    apply IH; [lia|lia|done|lia| |done].
    intros k s'' Hk. pose proof (Hbody (Datatypes.S k) s'') as H0.
    replace (i + incr + Z.of_nat k * incr) with (i + Z.of_nat (Datatypes.S k) * incr) by lia.
    replace (i + incr + Z.of_nat (Datatypes.S k) * incr)
      with (i + Z.of_nat (Datatypes.S (Datatypes.S k)) * incr) by lia.
    apply H0. lia.
Qed.

(** ** C arrays: indexing with the bounds the object has *)
Definition aget {A} (l : list A) (i : Z) : outcome A :=
  if 0 <=? i then deref (l !! Z.to_nat i) else Halt BadAccess.
Definition aset {A} (l : list A) (i : Z) (v : A) : outcome (list A) :=
  if (0 <=? i) && (i <? zlen l) then Ret (<[Z.to_nat i := v]> l) else Halt BadAccess.

Lemma aget_Some {A} (l : list A) i x : l !! i = Some x → aget l (Z.of_nat i) = Ret x.
Proof.
  intros H. unfold aget. rewrite (proj2 (Z.leb_le _ _)) by lia. by rewrite Nat2Z.id, H.
Qed.

Lemma aset_eq {A} (l : list A) i v : (i < length l)%nat → aset l (Z.of_nat i) v = Ret (<[i := v]> l).
Proof.
  intros H. unfold aset.
  rewrite (proj2 (Z.leb_le _ _)), (proj2 (Z.ltb_lt _ _)) by lia. simpl. by rewrite Nat2Z.id.
Qed.

(** [memcpy] / [memset] between ranges of one array. *)
Fixpoint acopy {A} (n : nat) (d s : Z) (l : list A) : outcome (list A) :=
  match n with
  | O => Ret l
  | S n => x ← aget l s; l ← aset l d x; acopy n (d + 1) (s + 1) l
  end.
Fixpoint afill {A} (n : nat) (d : Z) (v : A) (l : list A) : outcome (list A) :=
  match n with
  | O => Ret l
  | S n => l ← aset l d v; afill n (d + 1) v l
  end.

(** A forward copy is right whenever the destination is not above the
    source, overlapping or not. *)
Lemma acopy_spec {A} (n d s : nat) (l : list A) :
  (d ≤ s)%nat → (s + n ≤ length l)%nat →
  ∃ l', acopy n (Z.of_nat d) (Z.of_nat s) l = Ret l' ∧ length l' = length l ∧
    ∀ i, l' !! i = if decide (d ≤ i < d + n)%nat then l !! (i - d + s)%nat else l !! i.
Proof.
  revert d s l. induction n as [|n IH]; intros d s l Hd Hl; cbn [acopy].
  { exists l. split_and!; [done..|]. intros i. by rewrite decide_False by lia. }
  destruct (lookup_lt_is_Some_2 l s) as [x Hx]; [lia|].
  rewrite (aget_Some _ _ _ Hx).
  munfold. rewrite aset_eq by lia.
  replace (Z.of_nat d + 1) with (Z.of_nat (S d)) by lia.
  replace (Z.of_nat s + 1) with (Z.of_nat (S s)) by lia.
  destruct (IH (S d) (S s) (<[d:=x]> l)) as (l' & -> & Hl' & Hi); [lia|rewrite length_insert; lia|].
  rewrite length_insert in Hl'. exists l'. split_and!; [done..|]. intros i. rewrite Hi.
  destruct (decide (i = d)) as [->|Hne].
  - rewrite decide_False, decide_True by lia. rewrite list_lookup_insert_eq by lia.
    by replace (d - d + s)%nat with s by lia.
  - repeat case_decide; try lia; rewrite list_lookup_insert_ne by lia; [|done].
    f_equal. lia.
Qed.

Lemma afill_spec {A} (n d : nat) (v : A) (l : list A) :
  (d + n ≤ length l)%nat →
  ∃ l', afill n (Z.of_nat d) v l = Ret l' ∧ length l' = length l ∧
    ∀ i, l' !! i = if decide (d ≤ i < d + n)%nat then Some v else l !! i.
Proof.
  revert d l. induction n as [|n IH]; intros d l Hl; cbn [afill].
  { exists l. split_and!; [done..|]. intros i. by rewrite decide_False by lia. }
  rewrite aset_eq by lia. munfold. replace (Z.of_nat d + 1) with (Z.of_nat (S d)) by lia.
  destruct (IH (S d) (<[d:=v]> l)) as (l' & -> & Hl' & Hi); [rewrite length_insert; lia|].
  rewrite length_insert in Hl'. exists l'. split_and!; [done..|]. intros i. rewrite Hi.
  destruct (decide (i = d)) as [->|Hne].
  - rewrite decide_False, decide_True by lia. by rewrite list_lookup_insert_eq by lia.
  - repeat case_decide; try lia; [done|]. by rewrite list_lookup_insert_ne by lia.
Qed.
