(* ===== verification/Crt.v ===== *)
(** * Start files ([crt/crti.cc])

    The arrays of constructors and destructors the linker collects, the
    table behind [__cxa_atexit], [__cxa_finalize], and the guards of
    function-local statics.  Functions are known by their addresses and a
    call is an event; 0 is the null pointer. *)
From S2P Require Import Prelude.

Record AtExitFuncEntry := AtExit { dtor : Z; obj_ptr : Z; dso_handle : Z }.
Inductive call := Call (f : Z) | CallObj (f obj : Z).
Record crt := Crt {
  atexit_funcs : list AtExitFuncEntry;
  atexit_func_count : Z;
  calls : list call;
}.
Definition atexit_max_funcs : Z := 128.
Definition crt_init : crt := Crt (replicate (Z.to_nat atexit_max_funcs) (AtExit 0 0 0)) 0 [].

Definition invoke (c : call) : M crt unit :=
  st ← getS; putS (Crt (atexit_funcs st) (atexit_func_count st) (calls st ++ [c])).
Fixpoint run_array (fs : list Z) : M crt unit :=
  match fs with
  | [] => mret tt
  | f :: fs => _ ← invoke (Call f); run_array fs
  end.
Definition run_global_ctors (init_array : list Z) : M crt unit := run_array init_array.

Definition __cxa_atexit (f obj dso : Z) : M crt Z :=
  st ← getS;
  if atexit_max_funcs <=? atexit_func_count st then mret (-1)
  else
    es ← liftO (aset (atexit_funcs st) (atexit_func_count st) (AtExit f obj dso));
    _ ← putS (Crt es (atexit_func_count st + 1) (calls st));
    mret 0.

(** [while (i--)] *)
Fixpoint finalize_loop (i : nat) (f : Z) : M crt unit :=
  match i with
  | O => mret tt
  | S i =>
    st ← getS;
    e ← liftO (aget (atexit_funcs st) (Z.of_nat i));
    _ ← (if ((f =? 0) || (dtor e =? f)) && negb (dtor e =? 0) then
           _ ← invoke (CallObj (dtor e) (obj_ptr e));
           st ← getS;
           es ← liftO (aset (atexit_funcs st) (Z.of_nat i) (AtExit 0 (obj_ptr e) (dso_handle e)));
           putS (Crt es (atexit_func_count st) (calls st))
         else mret tt);
    finalize_loop i f
  end.
Definition __cxa_finalize (f : Z) : M crt unit :=
  st ← getS; finalize_loop (Z.to_nat (atexit_func_count st)) f.
Definition run_global_dtors (fini_array : list Z) : M crt unit :=
  _ ← __cxa_finalize 0; run_array fini_array.

(** A guard is a 64-bit variable of which only the first byte counts. *)
Definition __cxa_guard_acquire (g : Z) : Z := if u8 g =? 0 then 1 else 0.
Definition __cxa_guard_release (g : Z) : Z := Z.shiftl (Z.shiftr g 8) 8 + 1.

(** ** Specification: the destructors still to run, in order of
    registration, and how many registrations there have been. *)
Record pending := Pending { todo : list (Z * Z); used : Z; log : list call }.
Definition selects (f : Z) (d : Z * Z) : bool := (f =? 0) || (d.1 =? f).
Inductive cop := CAtexit (f obj dso : Z) | CFinalize (f : Z).
Definition run_cop (o : cop) : M crt Z :=
  match o with
  | CAtexit f obj dso => __cxa_atexit f obj dso
  | CFinalize f => _ ← __cxa_finalize f; mret 0
  end.
Fixpoint run_cops (os : list cop) : M crt (list Z) :=
  match os with
  | [] => mret []
  | o :: os => r ← run_cop o; rs ← run_cops os; mret (r :: rs)
  end.
Definition spec_cop (o : cop) (p : pending) : Z * pending :=
  match o with
  | CAtexit f obj _ =>
    if atexit_max_funcs <=? used p then (-1, p)
    else (0, Pending (todo p ++ (if f =? 0 then [] else [(f, obj)])) (used p + 1) (log p))
  | CFinalize f =>
    (0, Pending (filter (λ d, selects f d = false) (todo p)) (used p)
          (log p ++ ((λ d, CallObj d.1 d.2) <$> reverse (filter (λ d, selects f d = true) (todo p)))))
  end.
Fixpoint spec_cops (os : list cop) (p : pending) : list Z * pending :=
  match os with
  | [] => ([], p)
  | o :: os => let '(r, p) := spec_cop o p in let '(rs, p) := spec_cops os p in (r :: rs, p)
  end.

(** The entries that still have a destructor. *)
Definition live_entries (es : list AtExitFuncEntry) : list (Z * Z) :=
  (λ e, (dtor e, obj_ptr e)) <$> filter (λ e, dtor e ≠ 0) es.
Definition crt_rep (st : crt) (p : pending) : Prop :=
  zlen (atexit_funcs st) = atexit_max_funcs ∧ atexit_func_count st = used p ∧ 0 ≤ used p ≤ atexit_max_funcs ∧
  live_entries (take (Z.to_nat (used p)) (atexit_funcs st)) = todo p ∧ calls st = log p.
Definition drop_dtor (f : Z) (e : AtExitFuncEntry) : AtExitFuncEntry :=
  if selects f (dtor e, obj_ptr e) && negb (dtor e =? 0) then AtExit 0 (obj_ptr e) (dso_handle e) else e.

Lemma live_app es es' : live_entries (es ++ es') = live_entries es ++ live_entries es'.
Proof. unfold live_entries. by rewrite filter_app, fmap_app. Qed.
Lemma live_one e : live_entries [e] = if dtor e =? 0 then [] else [(dtor e, obj_ptr e)].
Proof.
  unfold live_entries. destruct (Z.eqb_spec (dtor e) 0); [by rewrite filter_cons_False by lia|by rewrite filter_cons_True].
Qed.
Lemma live_dropped f es : live_entries (drop_dtor f <$> es) = filter (λ d, selects f d = false) (live_entries es).
Proof.
  induction es as [|e es IH]; [done|]. rewrite fmap_cons. change (drop_dtor f e :: ?l) with ([drop_dtor f e] ++ l).
  change (e :: es) with ([e] ++ es). rewrite !live_app, filter_app, IH. f_equal. rewrite !live_one. unfold drop_dtor.
  destruct (selects f (dtor e, obj_ptr e)) eqn:Hs, (Z.eqb_spec (dtor e) 0) as [H0|H0]; cbn [andb negb dtor]; try done;
    rewrite ?H0; try done; rewrite ?(proj2 (Z.eqb_neq _ _) H0).
  - by rewrite filter_cons_False by congruence.
  - by rewrite filter_cons_True.
Qed.

Lemma finalize_loop_spec f i : ∀ es n log, (i ≤ length es)%nat →
  finalize_loop i f (Crt es n log) = Ret (tt, Crt ((drop_dtor f <$> take i es) ++ drop i es) n
    (log ++ ((λ d, CallObj d.1 d.2) <$> reverse (filter (λ d, selects f d = true) (live_entries (take i es)))))).
Proof.
  induction i as [|i IH]; intros es n log Hi; cbn [finalize_loop].
  { by rewrite take_0, drop_0, app_nil_r. }
  destruct (lookup_lt_is_Some_2 es i) as [e He]; [lia|]. munfold. cbn [atexit_funcs]. rewrite (aget_Some _ _ _ He).
  rewrite (take_S_r _ _ _ He), fmap_app, live_app, filter_app, reverse_app, fmap_app, live_one.
  change (selects f (dtor e, obj_ptr e)) with ((f =? 0) || (dtor e =? f)).
  change (drop_dtor f <$> [e]) with [drop_dtor f e]. rewrite <- app_assoc. cbn [app].
  assert (Hd : drop_dtor f e = if ((f =? 0) || (dtor e =? f)) && negb (dtor e =? 0) then AtExit 0 (obj_ptr e) (dso_handle e) else e) by done.
  rewrite Hd. destruct (Z.eqb_spec (dtor e) 0) as [H0|H0]; cbn [negb].
  - rewrite andb_false_r. rewrite IH by lia. by rewrite (drop_S _ _ _ He).
  - rewrite andb_true_r. destruct ((f =? 0) || (dtor e =? f)) eqn:Hs.
    + unfold invoke. munfold. cbn [atexit_funcs atexit_func_count calls].
      rewrite aset_eq by lia. cbn [atexit_func_count calls]. rewrite IH by (rewrite length_insert; lia).
      rewrite take_insert_ge, (drop_S (<[i:=_]> es) (AtExit 0 (obj_ptr e) (dso_handle e)) i), drop_insert_lt
        by (try lia; apply list_lookup_insert_eq; lia).
      rewrite filter_cons_True, filter_nil by done. by rewrite <- app_assoc.
    + rewrite IH by lia. by rewrite (drop_S _ _ _ He), filter_cons_False, filter_nil by (unfold selects; simpl; congruence).
Qed.

(** Every history of registrations and finalisations behaves as a list of
    destructors: [__cxa_finalize] calls those it selects in the reverse
    order of their registration and each of them once, and
    [__cxa_atexit] refuses only when the table is full. *)
Lemma cop_sim o st p : crt_rep st p →
  ∃ st', run_cop o st = Ret ((spec_cop o p).1, st') ∧ crt_rep st' (spec_cop o p).2.
Proof.
  destruct st as [es n lg], p as [td u lg']. intros (Hlen & Hn & Hu & Htd & Hl). cbn [atexit_funcs atexit_func_count calls todo used log] in *.
  subst n lg'. destruct o as [f obj dso|f]; cbn [run_cop spec_cop].
  - unfold __cxa_atexit. munfold. cbn [atexit_func_count atexit_funcs calls used].
    destruct (Z.leb_spec atexit_max_funcs u); [by eexists|].
    pose proof (aset_eq es (Z.to_nat u) (AtExit f obj dso) ltac:(lia)) as Hset. rewrite Z2Nat.id in Hset by lia. rewrite Hset. eexists. split; [done|]. unfold crt_rep. cbn [atexit_funcs atexit_func_count calls todo used log fst snd].
    rewrite length_insert. split_and!; [done|done|lia|lia| |done]. rewrite Z2Nat.inj_add, Nat.add_1_r by lia.
    rewrite (take_S_r _ _ (AtExit f obj dso)) by (apply list_lookup_insert_eq; lia).
    rewrite take_insert_ge by lia. rewrite live_app, Htd, live_one. done.
  - unfold __cxa_finalize. munfold. cbn [atexit_func_count]. rewrite finalize_loop_spec by lia. eexists. split; [done|].
    unfold crt_rep. cbn [atexit_funcs atexit_func_count calls todo used log fst snd].
    assert (Ht : length (take (Z.to_nat u) es) = Z.to_nat u) by (rewrite length_take; lia).
    split_and!; [|done|lia|lia| |by rewrite Htd].
    + rewrite length_app, length_fmap, length_drop, Ht. lia.
    + rewrite take_app_length' by (by rewrite length_fmap). by rewrite live_dropped, Htd.
Qed.
Theorem crt_refines os : ∀ st p, crt_rep st p →
  ∃ st', run_cops os st = Ret ((spec_cops os p).1, st') ∧ crt_rep st' (spec_cops os p).2.
Proof.
  induction os as [|o os IH]; intros st p Hrep; cbn [run_cops spec_cops]; [by exists st|].
  destruct (cop_sim o st p Hrep) as (st1 & Hrun & Hrep1). munfold. rewrite Hrun. destruct (spec_cop o p) as [r p1].
  destruct (IH st1 p1 Hrep1) as (st' & -> & Hrep'). cbn [fst snd]. destruct (spec_cops os p1) as [rs p2]. by exists st'.
Qed.

(** At shutdown the registered destructors run, the last first, and then
    the destructor array, in order. *)
Lemma run_array_spec fs : ∀ st,
  run_array fs st = Ret (tt, Crt (atexit_funcs st) (atexit_func_count st) (calls st ++ (Call <$> fs))).
Proof.
  induction fs as [|f fs IH]; intros [es n lg]; cbn [run_array]; [by rewrite app_nil_r|].
  unfold invoke. munfold. rewrite IH. cbn [atexit_funcs atexit_func_count calls]. by rewrite <- app_assoc.
Qed.
Theorem global_dtors_order st p fini : crt_rep st p → ∃ st', run_global_dtors fini st = Ret (tt, st') ∧
  calls st' = log p ++ ((λ d, CallObj d.1 d.2) <$> reverse (todo p)) ++ (Call <$> fini) ∧ crt_rep st' (Pending [] (used p) (calls st')).
Proof.
  intros Hrep. destruct (cop_sim (CFinalize 0) st p Hrep) as (st1 & Hrun & Hlen & Hn & Hu & Htd & Hl). cbn [run_cop spec_cop fst snd] in *.
  unfold run_global_dtors. revert Hrun. munfold. destruct (__cxa_finalize 0 st) as [[[] st0]|]; [|done]. intros [= ->].
  rewrite run_array_spec. eexists. split; [done|]. cbn [calls todo used log] in *.
  assert (Hall : filter (λ d, selects 0 d = true) (todo p) = todo p ∧ filter (λ d, selects 0 d = false) (todo p) = []).
  { generalize (todo p). induction l as [|d l [IH1 IH2]]; [done|]. by rewrite filter_cons_True, filter_cons_False, IH1, IH2. }
  destruct Hall as [Ha1 Ha2]. rewrite Ha1 in Hl. rewrite Ha2 in Htd. split; [by rewrite Hl, <- app_assoc|].
  unfold crt_rep. cbn [atexit_funcs atexit_func_count calls todo used log]. done.
Qed.

Lemma crt_init_rep : crt_rep crt_init (Pending [] 0 []).
Proof. done. Qed.
(** The 129th destructor is refused, and is never called. *)
Example atexit_table_full :
  (λ r, match r with Ret (rs, _) => last rs | Halt _ => None end) (run_cops (replicate 129 (CAtexit 7 1 0)) crt_init) = Some (-1).
Proof. vm_compute. reflexivity. Qed.
(** A static is initialised by the first caller only. *)
Lemma guard_once g : 0 ≤ g → __cxa_guard_acquire (__cxa_guard_release g) = 0.
Proof.
  intros Hg. unfold __cxa_guard_acquire, __cxa_guard_release, wrap. rewrite Z.shiftl_mul_pow2 by done.
  by rewrite Z.add_comm, Z.mod_add by done.
Qed.
