(* ===== verification/Algorithm.v ===== *)
(** * Memory definitions and [util::algorithm]

    Models [src/common/memdefs.h] (page sizes and alignment macros) and
    [src/kernel/util/algorithm.h] (power-of-two rounding and range
    tests on [uint64_t], with its wrap-around written out). *)
From S2P Require Import Prelude.

(** ** memdefs.h

    The macros are [unsigned] (32-bit) constants. *)
Definition KB : Z := 0x400.
Definition MB : Z := u32 (KB * KB).
Definition GB : Z := u32 (KB * MB).
Definition PG_SZ : Z := u32 (4 * KB).
Definition PG_SZ_BITS : Z := 12.
Definition PG_PER_PT : Z := 1024.
Definition HUGE_PG_SZ : Z := u32 (PG_SZ * PG_PER_PT).
Definition HM_START : Z := u32 (3 * GB).

Definition PG_ALIGNED (addr : Z) : bool := Z.land addr (PG_SZ - 1) =? 0.
Definition HUGEPG_ALIGNED (addr : Z) : bool := Z.land addr (HUGE_PG_SZ - 1) =? 0.

(** The file's [_Static_assert]s. *)
Example memdefs_static_asserts :
  Z.shiftl 1 PG_SZ_BITS = PG_SZ ∧
  (PG_ALIGNED PG_SZ && negb (PG_ALIGNED (PG_SZ + 1))) = true ∧
  (HUGEPG_ALIGNED HUGE_PG_SZ && negb (HUGEPG_ALIGNED PG_SZ)) = true.
Proof. vm_compute. done. Qed.

Lemma PG_ALIGNED_mod a : PG_ALIGNED a = (a mod PG_SZ =? 0).
Proof.
  unfold PG_ALIGNED. f_equal. change PG_SZ with (2 ^ 12). by apply land_mask_mod.
Qed.

Lemma PG_ALIGNED_spec a : PG_ALIGNED a = true ↔ a mod PG_SZ = 0.
Proof. rewrite PG_ALIGNED_mod. apply Z.eqb_eq. Qed.

Lemma HUGEPG_ALIGNED_spec a : HUGEPG_ALIGNED a = true ↔ a mod HUGE_PG_SZ = 0.
Proof.
  unfold HUGEPG_ALIGNED. rewrite Z.eqb_eq.
  change HUGE_PG_SZ with (2 ^ 22). by rewrite land_mask_mod.
Qed.

(** ** util/algorithm.h *)
Definition pow2 (n : Z) : bool :=
  negb (n =? 0) && (Z.land n (u64 (n - 1)) =? 0).

Definition ceil_pow2 (divisor n : Z) : Z :=
  Z.land (u64 (u64 (n - 1) + divisor)) (u64 (Z.lnot (divisor - 1))).

Definition floor_pow2 (divisor n : Z) : Z :=
  Z.land n (u64 (Z.lnot (divisor - 1))).

Definition aligned_pow2 (divisor n : Z) : bool :=
  Z.land n (divisor - 1) =? 0.

Definition range_overlaps (base1 end1 base2 end2 : Z) (inclusive : bool) : bool :=
  if inclusive then (base1 <=? end2) && (base2 <=? end1)
  else (base1 <? end2) && (base2 <? end1).

(** The template parameter [T] is the width [w] of the arithmetic. *)
Definition range_overlaps2 (w base1 len1 base2 len2 : Z) (inclusive : bool) : bool :=
  range_overlaps base1 (wrap w (base1 + len1)) base2 (wrap w (base2 + len2)) inclusive.

Definition range_subsumes (base1 end1 base2 end2 : Z) (inclusive : bool) : bool :=
  if inclusive then (base1 <=? base2) && (end2 <=? end1)
  else (base1 <? base2) && (end2 <? end1).

Definition range_subsumes2 (w base1 len1 base2 len2 : Z) (inclusive : bool) : bool :=
  range_subsumes base1 (wrap w (base1 + len1)) base2 (wrap w (base2 + len2)) inclusive.

(** ** Facts *)
Section rounding.
Variables (k : Z).
Hypothesis Hk : 0 ≤ k < 64.
Local Abbreviation d := (2 ^ k).

Lemma d_dvd : 2 ^ 64 = d * 2 ^ (64 - k).
Proof. rewrite <- Z.pow_add_r by lia. f_equal. lia. Qed.

Lemma d_pos : 0 < d.
Proof. lia. Qed.

Lemma lnot_mask_u64 : u64 (Z.lnot (d - 1)) = 2 ^ 64 - d.
Proof.
  pose proof d_pos. assert (d ≤ 2 ^ 63) by (apply Z.pow_le_mono_r; lia).
  unfold wrap. replace (Z.lnot (d - 1)) with (2 ^ 64 - d + (-1) * 2 ^ 64)
    by (pose proof (Z.add_lnot_diag (d - 1)); lia).
  rewrite Z.mod_add by lia. apply Z.mod_small. lia.
Qed.

(** Masking a [uint64_t] with [~(d - 1)] clears the low bits. *)
Lemma land_lnot_u64 n : is_u64 n →
  Z.land n (u64 (Z.lnot (d - 1))) = d * (n / d).
Proof.
  intros Hn. rewrite lnot_mask_u64.
  replace (2 ^ 64 - d) with (Z.land (Z.lnot (d - 1)) (Z.ones 64)).
  - rewrite Z.land_assoc, land_not_mask, Z.land_ones by lia.
    apply Z.mod_small. pose proof d_pos.
    pose proof (Z.mul_div_le n d). pose proof (Z.div_pos n d). nia.
  - rewrite Z.land_ones by lia. apply lnot_mask_u64.
Qed.

Lemma floor_pow2_eq n : is_u64 n → floor_pow2 d n = n - n mod d.
Proof.
  intros. unfold floor_pow2. rewrite land_lnot_u64 by done.
  apply mul_div_le_mod, d_pos.
Qed.

Lemma ceil_pow2_eq n :
  0 ≤ n → n + d - 1 < 2 ^ 64 → ceil_pow2 d n = d * ((n + d - 1) / d).
Proof.
  intros ??. pose proof d_pos. unfold ceil_pow2.
  replace (u64 (u64 (n - 1) + d)) with (n + d - 1).
  - apply land_lnot_u64. lia.
  - unfold wrap. rewrite Z.add_mod_idemp_l by lia. symmetry.
    replace (n - 1 + d) with (n + d - 1) by lia. apply Z.mod_small. lia.
Qed.

Lemma aligned_pow2_spec n : aligned_pow2 d n = true ↔ n mod d = 0.
Proof.
  unfold aligned_pow2. rewrite Z.eqb_eq, land_mask_mod by lia. done.
Qed.
End rounding.

Lemma pow2_true n : is_u64 n → pow2 n = true ↔ ∃ k, 0 ≤ k < 64 ∧ n = 2 ^ k.
Proof.
  intros Hn. unfold pow2. rewrite andb_true_iff, negb_true_iff, Z.eqb_neq, Z.eqb_eq.
  split.
  - intros [Hnz Hland]. pose proof (Z.log2_spec n) as Hlog.
    assert (Z.log2 n < 64) by (apply Z.log2_lt_pow2; lia).
    exists (Z.log2 n). split; [pose proof (Z.log2_nonneg n); lia|].
    destruct (decide (n = 2 ^ Z.log2 n)) as [|Hne]; [done|exfalso].
    assert (n ≠ 1) by (intros ->; done).
    assert (Hb : Z.testbit (Z.land n (n - 1)) (Z.log2 n) = true).
    { rewrite Z.land_spec. apply andb_true_iff; split; [apply Z.bit_log2; lia|].
      replace (Z.log2 n) with (Z.log2 (n - 1)); [apply Z.bit_log2; lia|].
      apply Z.log2_unique; [apply Z.log2_nonneg|]. lia. }
    rewrite wrap_small in Hland by lia. rewrite Hland, Z.bits_0 in Hb. done.
  - intros (k & Hk & ->). split; [lia|].
    rewrite wrap_small by lia. rewrite land_mask_mod by lia. apply Z.mod_same. lia.
Qed.

Lemma floor_pow2_le k n : 0 ≤ k < 64 → is_u64 n →
  floor_pow2 (2 ^ k) n ≤ n < floor_pow2 (2 ^ k) n + 2 ^ k ∧
  floor_pow2 (2 ^ k) n mod 2 ^ k = 0 ∧ 0 ≤ floor_pow2 (2 ^ k) n.
Proof.
  intros Hk Hn. rewrite floor_pow2_eq by done.
  pose proof (Z.mod_pos_bound n (2 ^ k)). split_and!; [lia|lia| |].
  - rewrite <- mul_div_le_mod by lia. rewrite Z.mul_comm. apply Z.mod_mul. lia.
  - pose proof (Z.mod_le n (2 ^ k)). lia.
Qed.

Lemma ceil_pow2_ge k n : 0 ≤ k < 64 → 0 ≤ n → n + 2 ^ k - 1 < 2 ^ 64 →
  n ≤ ceil_pow2 (2 ^ k) n < n + 2 ^ k ∧ ceil_pow2 (2 ^ k) n mod 2 ^ k = 0.
Proof.
  intros. rewrite ceil_pow2_eq by done.
  pose proof (Z.mul_div_le (n + 2 ^ k - 1) (2 ^ k)).
  pose proof (Z.mul_succ_div_gt (n + 2 ^ k - 1) (2 ^ k)).
  split; [lia|]. rewrite Z.mul_comm. apply Z.mod_mul. lia.
Qed.

Lemma mult_squeeze d q q' : 0 < d → q' * d < (q + 1) * d → q' * d ≤ q * d.
Proof.
  intros Hd Hlt. apply Z.mul_le_mono_nonneg_r; [lia|].
  apply Z.mul_lt_mono_pos_r in Hlt; lia.
Qed.

(** Both roundings return the least (greatest) multiple on their side. *)
Lemma ceil_pow2_least k n m :
  0 ≤ k < 64 → 0 ≤ n → n + 2 ^ k - 1 < 2 ^ 64 →
  m mod 2 ^ k = 0 → n ≤ m → ceil_pow2 (2 ^ k) n ≤ m.
Proof.
  intros ??? Hm ?. destruct (ceil_pow2_ge k n) as [? Hc]; [done..|].
  apply Z.mod_divide in Hm as [q ->]; [|lia]. apply Z.mod_divide in Hc as [q' Hq]; [|lia].
  rewrite Hq in *. apply mult_squeeze; lia.
Qed.

Lemma floor_pow2_greatest k n m :
  0 ≤ k < 64 → is_u64 n → m mod 2 ^ k = 0 → m ≤ n → m ≤ floor_pow2 (2 ^ k) n.
Proof.
  intros ?? Hm ?. destruct (floor_pow2_le k n) as (?&Hc&?); [done..|].
  apply Z.mod_divide in Hm as [q ->]; [|lia]. apply Z.mod_divide in Hc as [q' Hq]; [|lia].
  rewrite Hq in *. apply mult_squeeze; lia.
Qed.

Lemma range_overlaps_excl b1 e1 b2 e2 :
  range_overlaps b1 e1 b2 e2 false = true ↔ b1 < e2 ∧ b2 < e1.
Proof. unfold range_overlaps. rewrite andb_true_iff, !Z.ltb_lt. done. Qed.

(** For non-empty half-open ranges the exclusive test is exactly
    "the ranges have a common point". *)
Lemma range_overlaps_common b1 e1 b2 e2 :
  b1 < e1 → b2 < e2 →
  range_overlaps b1 e1 b2 e2 false = true ↔ ∃ x, b1 ≤ x < e1 ∧ b2 ≤ x < e2.
Proof.
  intros. rewrite range_overlaps_excl. split.
  - intros. exists (Z.max b1 b2). lia.
  - intros (x & ? & ?). lia.
Qed.

Lemma range_subsumes_incl b1 e1 b2 e2 :
  range_subsumes b1 e1 b2 e2 true = true ↔ b1 ≤ b2 ∧ e2 ≤ e1.
Proof. unfold range_subsumes. rewrite andb_true_iff, !Z.leb_le. done. Qed.

#[export] Hint Rewrite range_overlaps_excl range_subsumes_incl : hmm_rw.
