(* ===== verification/Bitfield.v ===== *)
(** * Bit-fields of packed structs

    The page-table entries of the bootloader and of the kernel, and the
    FAT attribute byte, are packed bit-field structs over one integer.
    [bf_get off w x] reads the [w]-bit field at bit [off] of [x] and
    [bf_set] assigns it (the assigned value is truncated to the width of
    the field), as the little-endian layout of clang and gcc does. *)
From S2P Require Import Prelude.

Definition bf_get (off w x : Z) : Z := Z.shiftr x off mod 2 ^ w.

Definition bf_set (off w v x : Z) : Z :=
  Z.lor (Z.ldiff x (Z.shiftl (Z.ones w) off)) (Z.shiftl (v mod 2 ^ w) off).

Lemma bf_get_testbit off w x i :
  0 ≤ off → 0 ≤ w → 0 ≤ i →
  Z.testbit (bf_get off w x) i = (i <? w) && Z.testbit x (i + off).
Proof.
  intros. unfold bf_get. destruct (Z.ltb_spec i w).
  - rewrite Z.mod_pow2_bits_low by lia. by rewrite Z.shiftr_spec by lia.
  - by rewrite Z.mod_pow2_bits_high by lia.
Qed.

Lemma bf_set_testbit off w v x i :
  0 ≤ off → 0 ≤ w → 0 ≤ i →
  Z.testbit (bf_set off w v x) i =
    if (off <=? i) && (i <? off + w) then Z.testbit v (i - off) else Z.testbit x i.
Proof.
  intros. unfold bf_set.
  rewrite Z.lor_spec, Z.ldiff_spec, !Z.shiftl_spec by lia.
  destruct (Z.leb_spec off i); simpl.
  - destruct (Z.ltb_spec i (off + w)).
    + rewrite Z.ones_spec_low, Z.mod_pow2_bits_low by lia. by rewrite andb_false_r.
    + rewrite Z.ones_spec_high, Z.mod_pow2_bits_high by lia. by rewrite andb_true_r, orb_false_r.
  - rewrite !(Z.testbit_neg_r _ (i - off)) by lia. by rewrite andb_true_r, orb_false_r.
Qed.

Lemma bf_get_range off w x : 0 ≤ w → 0 ≤ bf_get off w x < 2 ^ w.
Proof. intros. apply Z.mod_pos_bound. lia. Qed.

(** Reading back the field just written. *)
Lemma bf_get_set off w v x :
  0 ≤ off → 0 ≤ w → bf_get off w (bf_set off w v x) = v mod 2 ^ w.
Proof.
  intros. apply Z.bits_inj'. intros i Hi.
  rewrite bf_get_testbit, bf_set_testbit by lia.
  destruct (Z.ltb_spec i w).
  - rewrite Z.mod_pow2_bits_low by lia.
    replace ((off <=? i + off) && (i + off <? off + w)) with true by lia.
    simpl. f_equal. lia.
  - by rewrite Z.mod_pow2_bits_high by lia.
Qed.

(** Writing one field leaves the disjoint fields alone. *)
Lemma bf_get_set_ne off w off' w' v x :
  0 ≤ off → 0 ≤ w → 0 ≤ off' → 0 ≤ w' → off + w ≤ off' ∨ off' + w' ≤ off →
  bf_get off' w' (bf_set off w v x) = bf_get off' w' x.
Proof.
  intros. apply Z.bits_inj'. intros i Hi.
  rewrite !bf_get_testbit, bf_set_testbit by lia.
  destruct (Z.ltb_spec i w'); simpl; [|done].
  by replace ((off <=? i + off') && (i + off' <? off + w)) with false by lia.
Qed.

Lemma bf_set_range off w v x n :
  0 ≤ off → 0 ≤ w → off + w ≤ n → 0 ≤ x < 2 ^ n → 0 ≤ bf_set off w v x < 2 ^ n.
Proof.
  intros ??? Hx. assert (0 ≤ n) by lia.
  replace (bf_set off w v x) with (bf_set off w v x mod 2 ^ n);
    [apply Z.mod_pos_bound; lia|].
  apply Z.bits_inj'. intros i Hi. destruct (Z.ltb_spec i n).
  - by rewrite Z.mod_pow2_bits_low by lia.
  - rewrite Z.mod_pow2_bits_high by lia. rewrite bf_set_testbit by lia.
    replace ((off <=? i) && (i <? off + w)) with false by lia.
    rewrite <- (Z.mod_small x (2 ^ n)) by lia. by rewrite Z.mod_pow2_bits_high by lia.
Qed.

(** Evaluates reads of fields after a chain of writes, for fields with
    literal offsets and widths. *)
Ltac bf_simp :=
  repeat first
    [ rewrite bf_get_set by lia
    | rewrite bf_get_set_ne by lia ].

(** ** Named fields *)
Abbreviation field := (Z * Z)%type (only parsing).

Definition fget (f : field) (x : Z) : Z := bf_get f.1 f.2 x.
Definition fset (f : field) (v x : Z) : Z := bf_set f.1 f.2 v x.

Definition field_ok (f : field) : bool := (0 <=? f.1) && (0 <=? f.2).
Definition field_disj (f g : field) : bool :=
  field_ok f && field_ok g && ((f.1 + f.2 <=? g.1) || (g.1 + g.2 <=? f.1)).

Lemma fget_fset f v x : field_ok f = true → fget f (fset f v x) = v mod 2 ^ f.2.
Proof. unfold field_ok. intros. apply bf_get_set; lia. Qed.

Lemma fget_fset_ne f g v x : field_disj g f = true → fget f (fset g v x) = fget f x.
Proof. unfold field_disj, field_ok. intros. apply bf_get_set_ne; lia. Qed.

(** Reads a field through a chain of writes of named fields. *)
Ltac field_simp :=
  repeat first
    [ rewrite fget_fset by reflexivity
    | rewrite fget_fset_ne by reflexivity ].

Definition b2z (b : bool) : Z := if b then 1 else 0.

(** ** The 32-bit paging structures

    The same three packed structs are declared by the bootloader
    ([boot/page_table.h]) and by the kernel ([arch/x86/page_table.cc]). *)
Module PDE.
Definition p : field := (0, 1).
Definition r_w : field := (1, 1).
Definition u_s : field := (2, 1).
Definition pwt : field := (3, 1).
Definition pcd : field := (4, 1).
Definition a : field := (5, 1).
Definition ps : field := (7, 1).
Definition addr : field := (12, 20).
End PDE.

Module PDE4MB.
Definition p : field := (0, 1).
Definition r_w : field := (1, 1).
Definition u_s : field := (2, 1).
Definition pwt : field := (3, 1).
Definition pcd : field := (4, 1).
Definition a : field := (5, 1).
Definition d : field := (6, 1).
Definition ps : field := (7, 1).
Definition g : field := (8, 1).
Definition pat : field := (12, 1).
Definition addr_ext : field := (13, 8).
Definition rsv0 : field := (21, 1).
Definition addr : field := (22, 10).
End PDE4MB.

Module PTE.
Definition p : field := (0, 1).
Definition r_w : field := (1, 1).
Definition u_s : field := (2, 1).
Definition pwt : field := (3, 1).
Definition pcd : field := (4, 1).
Definition a : field := (5, 1).
Definition d : field := (6, 1).
Definition pat : field := (7, 1).
Definition g : field := (8, 1).
Definition addr : field := (12, 20).
End PTE.

(** ** The two-level walk

    What a page directory maps a virtual address to: the walk of
    [enumerate_page_tables] in [arch/x86/page_table.cc], for one
    address.  [table] gives the page table stored at a physical page. *)
Abbreviation page := (list Z) (only parsing).

Definition translate (pd : page) (table : Z → option page) (va : Z) : option Z :=
  pde ← pd !! Z.to_nat (Z.shiftr va 22);
  if fget PDE.p pde =? 0 then None
  else if fget PDE.ps pde =? 1 then
    Some (Z.shiftl (fget PDE4MB.addr pde) 22 + va mod 2 ^ 22)
  else
    pt ← table (Z.shiftl (fget PDE.addr pde) 12);
    pte ← pt !! Z.to_nat (Z.land (Z.shiftr va 12) 0x3FF);
    if fget PTE.p pte =? 0 then None
    else Some (Z.shiftl (fget PTE.addr pte) 12 + va mod 2 ^ 12).

(** The all-zero page left by [memset(pg, 0, PG_SZ)]. *)
Definition zero_page : page := replicate 1024 0.

Lemma zero_page_lookup i : (i < 1024)%nat → zero_page !! i = Some 0.
Proof. intros. unfold zero_page. by apply lookup_replicate_2. Qed.
