(* ===== verification/IntrusiveList.v ===== *)
(** * util::IntrusiveListHead

    Models [src/kernel/util/intrusive_list.h]: the circular doubly
    linked list that the scheduler, the LRU cache, the page frame table
    and the dentry tree are built on.  A list head is an address; the
    heap maps it to its [_next] and [_prev] fields, and each operation
    is the source's sequence of pointer reads and writes.  [DEBUG_ASSERT]
    is compiled out ([util/assert.h], non-debug build).

    [clist h s l] says that, in heap [h], following [_next] from the
    head [s] visits exactly [l] and comes back, and [_prev] is its
    converse. *)
From S2P Require Import Prelude.

Abbreviation ptr := Z (only parsing).

Record list_head := ListHead { _next : ptr; _prev : ptr }.
Abbreviation heap := (gmap Z list_head).

(** ** Operations *)
Definition next (this : ptr) : M heap ptr :=
  h ← getS; n ← liftO (deref (h !! this)); mret (_next n).
Definition prev (this : ptr) : M heap ptr :=
  h ← getS; n ← liftO (deref (h !! this)); mret (_prev n).

Definition upd_next (p v : ptr) (h : heap) : heap :=
  alter (λ n, ListHead v (_prev n)) p h.
Definition upd_prev (p v : ptr) (h : heap) : heap :=
  alter (λ n, ListHead (_next n) v) p h.

Definition set_next (p v : ptr) : M heap unit :=
  h ← getS; _ ← liftO (deref (h !! p)); putS (upd_next p v h).
Definition set_prev (p v : ptr) : M heap unit :=
  h ← getS; _ ← liftO (deref (h !! p)); putS (upd_prev p v h).

(** The default member initializers: a fresh head points to itself. *)
Definition IntrusiveListHead (this : ptr) : M heap unit :=
  h ← getS; putS (<[this := ListHead this this]> h).

Definition begin (this : ptr) : M heap ptr := next this.
Definition end_ (this : ptr) : M heap ptr := mret this.

Definition empty (this : ptr) : M heap bool :=
  n ← next this; mret (bool_decide (n = this)).

Definition erase (this : ptr) : M heap ptr :=
  e ← empty this;
  if (e : bool) then begin this else
  n ← next this;
  p ← prev this;
  _ ← set_prev n p;
  p ← prev this;
  rval ← next this;
  _ ← set_next p rval;
  _ ← set_next this this;
  _ ← set_prev this this;
  mret rval.

Definition push_front (this p : ptr) : M heap unit :=
  _ ← erase p;
  _ ← set_prev p this;
  n ← next this;
  _ ← set_next p n;
  n ← next this;
  _ ← set_prev n p;
  set_next this p.

Definition push_back (this p : ptr) : M heap unit :=
  _ ← erase p;
  pr ← prev this;
  _ ← set_prev p pr;
  _ ← set_next p this;
  pr ← prev this;
  _ ← set_next pr p;
  set_prev this p.

(** [while ((ptr = &ptr->next()) != start) ++rval;] *)
Fixpoint size_loop (fuel : nat) (start p rval : Z) : M heap Z :=
  match fuel with
  | O => halt OutOfFuel
  | S fuel =>
    p ← next p;
    if bool_decide (p = start) then mret rval
    else size_loop fuel start p (u32 (rval + 1))
  end.

(** One iteration per node: the number of nodes in the heap bounds it. *)
Definition size (this : ptr) : M heap Z :=
  h ← getS; size_loop (S (base.size h)) this this 0.

(** [at(n)]: [n] steps forward, or [-n] steps backward. *)
Fixpoint walk (step : ptr → M heap ptr) (n : nat) (p : ptr) : M heap ptr :=
  match n with
  | O => mret p
  | S n => p ← step p; walk step n p
  end.
Definition at_ (this : ptr) (n : Z) : M heap ptr :=
  p ← walk next (Z.to_nat n) this;
  walk prev (Z.to_nat (- n)) p.

Fixpoint clear_loop (fuel : nat) (it : ptr) : M heap unit :=
  match fuel with
  | O => halt OutOfFuel
  | S fuel =>
    e ← empty it;
    if (e : bool) then mret tt else
    it ← erase it; clear_loop fuel it
  end.
Definition clear (this : ptr) : M heap unit :=
  h ← getS; it ← begin this; clear_loop (S (base.size h)) it.

Fixpoint insert_back (this : ptr) (range : list ptr) : M heap unit :=
  match range with
  | [] => mret tt
  | p :: range => _ ← push_back this p; insert_back this range
  end.

(** ** Representation *)
Definition nx (h : heap) (p : ptr) : option ptr := _next <$> h !! p.
Definition pv (h : heap) (p : ptr) : option ptr := _prev <$> h !! p.
Definition live (h : heap) (p : ptr) : Prop := is_Some (h !! p).

Definition link (h : heap) (a b : ptr) : Prop := nx h a = Some b ∧ pv h b = Some a.

Fixpoint path (h : heap) (a : ptr) (l : list ptr) (b : ptr) : Prop :=
  match l with
  | [] => link h a b
  | x :: l => link h a x ∧ path h x l b
  end.

Definition clist (h : heap) (s : ptr) (l : list ptr) : Prop :=
  NoDup (s :: l) ∧ path h s l s.

(** The ring through the nodes of [l], whichever node one starts from. *)
Definition ring (h : heap) (l : list ptr) : Prop :=
  match l with [] => True | x :: l => clist h x l end.

(** ** Heap lemmas *)
Lemma live_upd_next p v h x : live (upd_next p v h) x ↔ live h x.
Proof. unfold live, upd_next. rewrite lookup_alter_is_Some. done. Qed.
Lemma live_upd_prev p v h x : live (upd_prev p v h) x ↔ live h x.
Proof. unfold live, upd_prev. rewrite lookup_alter_is_Some. done. Qed.

Lemma nx_upd_next p v h x :
  live h p → nx (upd_next p v h) x = if decide (x = p) then Some v else nx h x.
Proof.
  intros [n Hn]. unfold nx, upd_next. destruct (decide (x = p)) as [->|].
  - by rewrite lookup_alter_eq, Hn.
  - by rewrite lookup_alter_ne.
Qed.
Lemma nx_upd_prev p v h x : nx (upd_prev p v h) x = nx h x.
Proof.
  unfold nx, upd_prev. destruct (decide (x = p)) as [->|].
  - rewrite lookup_alter_eq. by destruct (h !! p).
  - by rewrite lookup_alter_ne.
Qed.
Lemma pv_upd_prev p v h x :
  live h p → pv (upd_prev p v h) x = if decide (x = p) then Some v else pv h x.
Proof.
  intros [n Hn]. unfold pv, upd_prev. destruct (decide (x = p)) as [->|].
  - by rewrite lookup_alter_eq, Hn.
  - by rewrite lookup_alter_ne.
Qed.
Lemma pv_upd_next p v h x : pv (upd_next p v h) x = pv h x.
Proof.
  unfold pv, upd_next. destruct (decide (x = p)) as [->|].
  - rewrite lookup_alter_eq. by destruct (h !! p).
  - by rewrite lookup_alter_ne.
Qed.

Lemma nx_live h p v : nx h p = Some v → live h p.
Proof. unfold nx, live. destruct (h !! p); naive_solver. Qed.
Lemma pv_live h p v : pv h p = Some v → live h p.
Proof. unfold pv, live. destruct (h !! p); naive_solver. Qed.

Lemma next_run h p v : nx h p = Some v → next p h = Ret (v, h).
Proof.
  unfold nx. intros (n & Hn & ->)%fmap_Some. unfold next. munfold. by rewrite Hn.
Qed.
Lemma prev_run h p v : pv h p = Some v → prev p h = Ret (v, h).
Proof.
  unfold pv. intros (n & Hn & ->)%fmap_Some. unfold prev. munfold. by rewrite Hn.
Qed.
Lemma wp_next h p v (Q : ptr → heap → Prop) :
  nx h p = Some v → Q v h → wp (next p) Q h.
Proof.
  intros Hn ?. unfold wp. by rewrite (next_run _ _ _ Hn).
Qed.
Lemma wp_prev h p v (Q : ptr → heap → Prop) :
  pv h p = Some v → Q v h → wp (prev p) Q h.
Proof.
  intros Hn ?. unfold wp. by rewrite (prev_run _ _ _ Hn).
Qed.
Lemma wp_set_next h p v (Q : unit → heap → Prop) :
  live h p → Q tt (upd_next p v h) → wp (set_next p v) Q h.
Proof. intros [n Hn] ?. unfold set_next. munfold. by rewrite Hn. Qed.
Lemma wp_set_prev h p v (Q : unit → heap → Prop) :
  live h p → Q tt (upd_prev p v h) → wp (set_prev p v) Q h.
Proof. intros [n Hn] ?. unfold set_prev. munfold. by rewrite Hn. Qed.

(** ** Footprints *)
Definition same_outside (X : list ptr) (h h' : heap) : Prop :=
  dom h' = dom h ∧ ∀ x, x ∉ X → h' !! x = h !! x.

Lemma same_outside_refl X h : same_outside X h h.
Proof. done. Qed.

Lemma same_outside_trans X h1 h2 h3 :
  same_outside X h1 h2 → same_outside X h2 h3 → same_outside X h1 h3.
Proof.
  intros [Hd1 H1] [Hd2 H2]. split; [congruence|]. intros. rewrite H2, H1; done.
Qed.

Lemma same_outside_mono X Y h h' : X ⊆ Y → same_outside X h h' → same_outside Y h h'.
Proof. intros HXY [? H]. split; [done|]. intros x Hx. apply H. set_solver. Qed.

Lemma same_outside_next X p v h : p ∈ X → same_outside X h (upd_next p v h).
Proof.
  intros. split; [apply dom_alter_L|]. intros. apply lookup_alter_ne. set_solver.
Qed.
Lemma same_outside_prev X p v h : p ∈ X → same_outside X h (upd_prev p v h).
Proof.
  intros. split; [apply dom_alter_L|]. intros. apply lookup_alter_ne. set_solver.
Qed.

Lemma same_outside_live X h h' x : same_outside X h h' → live h' x ↔ live h x.
Proof. intros [Hd _]. unfold live. rewrite <- !elem_of_dom, Hd. done. Qed.

(** Chains [same_outside] through the updates of an operation. *)
Ltac outside :=
  repeat first
    [ eassumption
    | eapply same_outside_trans; [|apply same_outside_next]
    | eapply same_outside_trans; [|apply same_outside_prev]
    | apply same_outside_refl ].

(** ** Paths *)
Lemma path_app h a l1 x l2 b :
  path h a (l1 ++ x :: l2) b ↔ path h a l1 x ∧ path h x l2 b.
Proof. revert a. induction l1 as [|y l1 IH]; intros a; simpl; [tauto|]. rewrite IH. tauto. Qed.

Lemma path_frame h h' a l b :
  (∀ x, x ∈ a :: l → nx h' x = nx h x) →
  (∀ x, x ∈ l ++ [b] → pv h' x = pv h x) →
  path h a l b → path h' a l b.
Proof.
  revert a. induction l as [|y l IH]; intros a Hn Hp; simpl.
  - intros [??]. split; [rewrite Hn|rewrite Hp]; set_solver.
  - intros [[??] ?]. split; [split; [rewrite Hn|rewrite Hp]; set_solver|].
    apply IH; [| |done]; intros; [apply Hn|apply Hp]; set_solver.
Qed.

Lemma path_nx h a l b : path h a l b → nx h a = Some (default b (head l)).
Proof. destruct l; simpl; unfold link; tauto. Qed.

Lemma path_pv h a l b : path h a l b → pv h b = Some (default a (last l)).
Proof.
  destruct l as [|z l _] using rev_ind; simpl; [unfold link; tauto|].
  rewrite last_snoc, path_app. simpl. unfold link. tauto.
Qed.

Lemma path_live h a l b x : path h a l b → x ∈ a :: l ++ [b] → live h x.
Proof.
  revert a. induction l as [|y l IH]; intros a; simpl.
  - intros [??]. rewrite !elem_of_cons, elem_of_nil. intros [->|[->|[]]];
      eauto using nx_live, pv_live.
  - intros [[? ?] ?] [->|?]%elem_of_cons; eauto using nx_live.
Qed.

Lemma clist_live h s l x : clist h s l → x ∈ s :: l → live h x.
Proof. intros [_ Hp] ?. eapply path_live; [done|]. set_solver. Qed.

Lemma clist_rotate h a l1 b l2 : clist h a (l1 ++ b :: l2) → clist h b (l2 ++ a :: l1).
Proof.
  intros [Hnd Hp]. split.
  - rewrite app_comm_cons in Hnd. apply NoDup_app in Hnd as (H1&H2&H3).
    rewrite app_comm_cons. apply NoDup_app. set_solver.
  - rewrite path_app in *. tauto.
Qed.

Lemma clist_frame X h h' s l :
  same_outside X h h' → (∀ x, x ∈ s :: l → x ∉ X) → clist h s l → clist h' s l.
Proof.
  intros [_ Ho] Hx [Hnd Hp]. split; [done|].
  apply (path_frame h); [| |done]; intros x ?; unfold nx, pv; rewrite Ho; set_solver.
Qed.

Lemma ring_frame X h h' l :
  same_outside X h h' → (∀ x, x ∈ l → x ∉ X) → ring h l → ring h' l.
Proof. destruct l; [done|]. apply clist_frame. Qed.

Lemma clist_nil h s : clist h s [] ↔ nx h s = Some s ∧ pv h s = Some s.
Proof.
  unfold clist. simpl. unfold link. split; [tauto|]. intros. split; [|done].
  apply NoDup_singleton.
Qed.

(** The [DEBUG_ASSERT] of [empty()] holds on every ring. *)
Lemma clist_empty_assert h s l : clist h s l →
  nx h s = Some s ↔ pv h s = Some s.
Proof.
  intros [Hnd Hp]. rewrite (path_nx _ _ _ _ Hp), (path_pv _ _ _ _ Hp).
  apply NoDup_cons in Hnd as [Hs _]. destruct l as [|x l]; [done|].
  simpl. split; intros [= Heq]; exfalso; apply Hs; rewrite <- Heq; [set_solver|].
  rewrite last_cons. destruct (last l) as [y|] eqn:Hl; simpl; [|set_solver].
  apply last_Some_elem_of in Hl. set_solver.
Qed.

(** ** Symbolic execution *)
Ltac live_tac :=
  repeat first [rewrite live_upd_next | rewrite live_upd_prev];
  eauto using nx_live, pv_live.

Ltac heap_rw :=
  repeat first
    [ rewrite nx_upd_prev | rewrite pv_upd_next
    | rewrite nx_upd_next by live_tac | rewrite pv_upd_prev by live_tac ];
  repeat match goal with
  | |- context [decide ?P] =>
    first [ rewrite (decide_True (P := P)) by congruence
          | rewrite (decide_False (P := P)) by congruence ]
  end.

Ltac list_step :=
  lazymatch goal with
  | |- wp (mbind _ _) _ _ => apply wp_bind
  | |- wp (mret _) _ _ => apply wp_ret
  | |- wp (next _) _ _ => eapply wp_next; [heap_rw; eassumption || reflexivity|]
  | |- wp (prev _) _ _ => eapply wp_prev; [heap_rw; eassumption || reflexivity|]
  | |- wp (set_next _ _) _ _ => apply wp_set_next; [live_tac|]
  | |- wp (set_prev _ _) _ _ => apply wp_set_prev; [live_tac|]
  end.

Lemma wp_empty h s l (Q : bool → heap → Prop) :
  clist h s l → Q (bool_decide (l = [])) h → wp (empty s) Q h.
Proof.
  intros [Hnd Hp] HQ. unfold empty. apply wp_bind.
  eapply wp_next; [by apply (path_nx _ _ _ _ Hp)|]. apply wp_ret.
  replace (bool_decide (default s (head l) = s)) with (bool_decide (l = [])); [done|].
  apply bool_decide_ext. destruct l as [|x l]; [done|]. simpl.
  split; [done|]. intros ->. apply NoDup_cons in Hnd. set_solver.
Qed.

(** The pointer writes of [erase()] on a node that has neighbours. *)
Lemma erase_relink h p a m z :
  clist h p (a :: m) → pv h p = Some z → z = default a (last m) →
  let h' := upd_prev p p (upd_next p p (upd_next z a (upd_prev a z h))) in
  clist h' p [] ∧ clist h' a m ∧ same_outside (p :: a :: m) h h'.
Proof.
  intros [Hnd Hp] Hpv Hz h'. destruct Hp as [[Hpa Hap] Hp].
  apply NoDup_cons in Hnd as [Hp_nin Hnd].
  assert (Hzin : z ∈ a :: m).
  { subst z. destruct (last m) as [y|] eqn:Hl; [|set_solver].
    apply last_Some_elem_of in Hl. set_solver. }
  assert (live h p ∧ live h a ∧ live h z) as (Hlp & Hla & Hlz).
  { split_and!; [by eapply nx_live|by eapply pv_live|].
    eapply path_live; [exact Hp|]. set_solver. }
  assert (p ≠ a ∧ p ≠ z) as [Hpa_ne Hpz_ne] by set_solver.
  split_and!.
  - apply clist_nil. subst h'. split; heap_rw; done.
  - split; [done|]. destruct m as [|y m _] using rev_ind.
    + simpl in Hz. subst z. subst h'. split; heap_rw; done.
    + rewrite last_snoc in Hz. simpl in Hz. subst y.
      apply path_app in Hp as [Hp _]. apply path_app. apply NoDup_cons in Hnd as [Ha Hnd].
      apply NoDup_app in Hnd as (Hm & Hmz & _).
      split; [|subst h'; split; heap_rw; done].
      eapply path_frame; [| |exact Hp]; intros x Hx; subst h'; heap_rw.
      * rewrite !decide_False; [done|set_solver|].
        apply elem_of_cons in Hx as [->|Hx]; set_solver.
      * rewrite !decide_False; [done|set_solver..].
  - subst h'. outside; set_solver.
Qed.

(** [erase()] takes the node out of its ring: the node becomes a ring of
    its own, the other nodes keep their order, and the returned iterator
    is the following element. *)
Lemma wp_erase h p l (Q : ptr → heap → Prop) :
  clist h p l →
  (∀ h', clist h' p [] → ring h' l → same_outside (p :: l) h h' →
         Q (default p (head l)) h') →
  wp (erase p) Q h.
Proof.
  intros Hc HQ. unfold erase. apply wp_bind. eapply wp_empty; [done|].
  destruct l as [|a m]; simpl.
  - eapply wp_next; [apply clist_nil in Hc as [-> _]; done|].
    apply HQ; [done|done|apply same_outside_refl].
  - assert (Hz : pv h p = Some (default a (last m))).
    { destruct Hc as [_ Hp]. rewrite (path_pv _ _ _ _ Hp), last_cons. by destruct (last m). }
    set (z := default a (last m)) in *.
    assert (Hpa : nx h p = Some a) by (destruct Hc as [_ [[? _] _]]; done).
    assert (p ≠ a) by (destruct Hc as [Hnd _]; apply NoDup_cons in Hnd; set_solver).
    assert (live h a) by (eapply clist_live; [done|set_solver]).
    assert (live h z).
    { eapply clist_live; [done|]. subst z. destruct (last m) eqn:Hl; [|set_solver].
      apply last_Some_elem_of in Hl. set_solver. }
    destruct (erase_relink h p a m z Hc Hz eq_refl) as (? & ? & ?).
    repeat list_step. apply HQ; done.
Qed.

(** ** Rings are determined by any of their nodes *)
Lemma path_det h a l l' b :
  b ∉ l → b ∉ l' → path h a l b → path h a l' b → l = l'.
Proof.
  revert a l'. induction l as [|x l IH]; intros a [|y l'] Hb Hb'; simpl; [done|..].
  - intros [? _] [[? _] _]. exfalso. apply Hb'. set_solver.
  - intros [[? _] _] [? _]. exfalso. apply Hb. set_solver.
  - intros [[H1 _] ?] [[H2 _] ?]. assert (x = y) as -> by congruence.
    f_equal. apply (IH y); [set_solver..| done|done].
Qed.

Lemma clist_det h s l l' : clist h s l → clist h s l' → l = l'.
Proof.
  intros [[??]%NoDup_cons ?] [[??]%NoDup_cons ?]. by eapply path_det.
Qed.

Lemma clist_rotate_to h s l x :
  clist h s l → x ∈ s :: l → ∃ l', clist h x l' ∧ (∀ y, y ∈ x :: l' ↔ y ∈ s :: l).
Proof.
  intros Hc [->|Hx]%elem_of_cons; [by exists l|].
  apply list_elem_of_split in Hx as (l1 & l2 & ->).
  exists (l2 ++ s :: l1). split; [by apply clist_rotate|]. intros y. set_solver.
Qed.

(** Two rings of one heap are equal or disjoint. *)
Lemma clist_disjoint h s l p m :
  clist h s l → clist h p m → p ∉ s :: l → ∀ x, x ∈ s :: l → x ∉ p :: m.
Proof.
  intros Hs Hp Hnin x Hx Hx'.
  destruct (clist_rotate_to _ _ _ _ Hs Hx) as (l1 & H1 & E1).
  destruct (clist_rotate_to _ _ _ _ Hp Hx') as (l2 & H2 & E2).
  rewrite (clist_det _ _ _ _ H1 H2) in E1. set_solver.
Qed.

(** ** Insertion *)
Lemma push_front_relink h s l p :
  clist h s l → clist h p [] → p ∉ s :: l →
  let n := default s (head l) in
  let h' := upd_next s p (upd_prev n p (upd_next p n (upd_prev p s h))) in
  clist h' s (p :: l) ∧ same_outside (p :: s :: l) h h'.
Proof.
  intros Hc Hc1 Hp n h'. apply not_elem_of_cons in Hp as [Hps Hpl].
  assert (Hlp : live h p) by (apply (clist_live _ _ _ _ Hc1); set_solver).
  assert (Hn : n ∈ s :: l) by (subst n; destruct l; set_solver).
  assert (live h s ∧ live h n) as [Hls Hln]
    by (split; apply (clist_live _ _ _ _ Hc); set_solver).
  assert (p ≠ n) by (intros ->; set_solver).
  destruct Hc as [Hnd Hpath].
  split; [|subst h'; outside; set_solver]. split.
  { apply NoDup_cons in Hnd as [??]. apply NoDup_cons; split; [set_solver|].
    by apply NoDup_cons. }
  split.
  - subst h'. split; heap_rw; done.
  - destruct l as [|x l]; simpl in *.
    + subst n h'. split; heap_rw; done.
    + subst n. apply NoDup_cons in Hnd as [Hs [Hx Hnd]%NoDup_cons].
      destruct Hpath as [_ Hpath].
      split; [subst h'; split; heap_rw; done|].
      eapply path_frame; [| |exact Hpath]; intros y Hy; subst h'; heap_rw;
        rewrite ?decide_False by set_solver; done.
Qed.

Lemma push_back_relink h s l p :
  clist h s l → clist h p [] → p ∉ s :: l →
  let z := default s (last l) in
  let h' := upd_prev s p (upd_next z p (upd_next p s (upd_prev p z h))) in
  clist h' s (l ++ [p]) ∧ same_outside (p :: s :: l) h h'.
Proof.
  intros Hc Hc1 Hp z h'. apply not_elem_of_cons in Hp as [Hps Hpl].
  assert (Hlp : live h p) by (apply (clist_live _ _ _ _ Hc1); set_solver).
  assert (Hz : z ∈ s :: l).
  { subst z. destruct (last l) eqn:E; [apply last_Some_elem_of in E|]; set_solver. }
  assert (live h s ∧ live h z) as [Hls Hlz]
    by (split; apply (clist_live _ _ _ _ Hc); set_solver).
  assert (p ≠ z) by (intros ->; set_solver).
  destruct Hc as [Hnd Hpath].
  split; [|subst h'; outside; set_solver]. split.
  { rewrite app_comm_cons. apply NoDup_app. split_and!; [done|set_solver|apply NoDup_singleton]. }
  apply path_app. split.
  - destruct l as [|y l _] using rev_ind; simpl in *.
    + subst z h'. split; heap_rw; done.
    + assert (z = y) as Ez by (subst z; by rewrite last_snoc). clearbody z. subst z.
      apply NoDup_cons in Hnd as [Hs Hnd].
      apply NoDup_app in Hnd as (Hl & Hy & _).
      apply path_app in Hpath as [Hpath _]. apply path_app.
      split; [|subst h'; split; heap_rw; done].
      eapply path_frame; [| |exact Hpath]; intros x Hx; subst h'; heap_rw;
        rewrite ?decide_False by set_solver; done.
  - subst h'. split; heap_rw; done.
Qed.

(** What [push_front]/[push_back] do once [p] has left its old ring. *)
Lemma wp_push_front_tail h s l p (Q : unit → heap → Prop) :
  clist h s l → clist h p [] → p ∉ s :: l →
  (∀ h', clist h' s (p :: l) → same_outside (p :: s :: l) h h' → Q tt h') →
  wp (_ ← set_prev p s; n ← next s; _ ← set_next p n;
      n ← next s; _ ← set_prev n p; set_next s p) Q h.
Proof.
  intros Hs Hp Hnin HQ.
  destruct (push_front_relink _ _ _ _ Hs Hp Hnin) as [Hc2 Ho2].
  pose proof (path_nx _ _ _ _ (proj2 Hs)) as Hnx.
  assert (p ≠ s) by set_solver.
  assert (Hl1 : live h p) by (apply (clist_live _ _ _ _ Hp); set_solver).
  assert (live h s ∧ live h (default s (head l))) as [??].
  { split; apply (clist_live _ _ _ _ Hs); destruct l; set_solver. }
  repeat list_step. by apply HQ.
Qed.

Lemma wp_push_back_tail h s l p (Q : unit → heap → Prop) :
  clist h s l → clist h p [] → p ∉ s :: l →
  (∀ h', clist h' s (l ++ [p]) → same_outside (p :: s :: l) h h' → Q tt h') →
  wp (pr ← prev s; _ ← set_prev p pr; _ ← set_next p s;
      pr ← prev s; _ ← set_next pr p; set_prev s p) Q h.
Proof.
  intros Hs Hp Hnin HQ.
  destruct (push_back_relink _ _ _ _ Hs Hp Hnin) as [Hc2 Ho2].
  pose proof (path_pv _ _ _ _ (proj2 Hs)) as Hpv.
  assert (p ≠ s) by set_solver.
  assert (Hl1 : live h p) by (apply (clist_live _ _ _ _ Hp); set_solver).
  assert (live h s ∧ live h (default s (last l))) as [??].
  { split; apply (clist_live _ _ _ _ Hs); [set_solver|].
    destruct (last l) eqn:E; [apply last_Some_elem_of in E|]; set_solver. }
  repeat list_step. by apply HQ.
Qed.

(** [push_front(p)] where [p] is in another ring (possibly alone): [p]
    leaves that ring and becomes the first element of this list. *)
Lemma wp_push_front h s l p m (Q : unit → heap → Prop) :
  clist h s l → clist h p m → p ∉ s :: l →
  (∀ h', clist h' s (p :: l) → ring h' m →
         same_outside (p :: m ++ s :: l) h h' → Q tt h') →
  wp (push_front s p) Q h.
Proof.
  intros Hs Hp Hnin HQ. pose proof (clist_disjoint _ _ _ _ _ Hs Hp Hnin) as Hdisj.
  unfold push_front. apply wp_bind. eapply wp_erase; [done|]. intros h1 Hp1 Hm Ho.
  assert (Hs1 : clist h1 s l) by (by eapply clist_frame).
  apply (wp_push_front_tail _ _ l); [done..|]. intros h2 Hc2 Ho2. apply HQ; [done| |].
  - eapply ring_frame; [exact Ho2| |done]. destruct Hp as [[??]%NoDup_cons _]. set_solver.
  - eapply same_outside_trans; eapply same_outside_mono; [|exact Ho| |exact Ho2]; set_solver.
Qed.

Lemma wp_push_back h s l p m (Q : unit → heap → Prop) :
  clist h s l → clist h p m → p ∉ s :: l →
  (∀ h', clist h' s (l ++ [p]) → ring h' m →
         same_outside (p :: m ++ s :: l) h h' → Q tt h') →
  wp (push_back s p) Q h.
Proof.
  intros Hs Hp Hnin HQ. pose proof (clist_disjoint _ _ _ _ _ Hs Hp Hnin) as Hdisj.
  unfold push_back. apply wp_bind. eapply wp_erase; [done|]. intros h1 Hp1 Hm Ho.
  assert (Hs1 : clist h1 s l) by (by eapply clist_frame).
  apply (wp_push_back_tail _ _ l); [done..|]. intros h2 Hc2 Ho2. apply HQ; [done| |].
  - eapply ring_frame; [exact Ho2| |done]. destruct Hp as [[??]%NoDup_cons _]. set_solver.
  - eapply same_outside_trans; eapply same_outside_mono; [|exact Ho| |exact Ho2]; set_solver.
Qed.

(** Erasing an element of the list, seen from the sentinel. *)
Lemma wp_erase_elem h s l1 p l2 (Q : ptr → heap → Prop) :
  clist h s (l1 ++ p :: l2) →
  (∀ h', clist h' s (l1 ++ l2) → clist h' p [] →
         same_outside (s :: l1 ++ p :: l2) h h' → Q (default s (head l2)) h') →
  wp (erase p) Q h.
Proof.
  intros Hc HQ. pose proof (clist_rotate _ _ _ _ _ Hc) as Hr.
  eapply wp_erase; [done|]. intros h' Hp Hring Ho.
  replace (default p (head (l2 ++ s :: l1))) with (default s (head l2)) by (by destruct l2).
  apply HQ; [|done|eapply same_outside_mono; [|done]; set_solver].
  destruct l2 as [|x l2]; simpl in Hring; [by rewrite app_nil_r|]. by apply clist_rotate in Hring.
Qed.

(** Membership-agnostic forms: [p] is an element of the list or alone. *)
Definition del (p : ptr) (l : list ptr) : list ptr := filter (λ x, x ≠ p) l.

Lemma del_notin p l : p ∉ l → del p l = l.
Proof.
  unfold del. induction l as [|x l IH]; [done|]. intros [??]%not_elem_of_cons.
  rewrite filter_cons_True by done. by rewrite IH.
Qed.
Lemma del_mid p l1 l2 : NoDup (l1 ++ p :: l2) → del p (l1 ++ p :: l2) = l1 ++ l2.
Proof.
  intros (?&?&[??]%NoDup_cons)%NoDup_app. unfold del.
  rewrite filter_app, filter_cons_False by naive_solver.
  f_equal; apply del_notin; set_solver.
Qed.
Lemma elem_of_del p l x : x ∈ del p l ↔ x ≠ p ∧ x ∈ l.
Proof. unfold del. by rewrite list_elem_of_filter. Qed.

Lemma wp_erase_any h s l p (Q : ptr → heap → Prop) :
  clist h s l → p ≠ s → (p ∉ l → clist h p []) →
  (∀ r h', clist h' s (del p l) → clist h' p [] →
           same_outside (p :: s :: l) h h' → Q r h') →
  wp (erase p) Q h.
Proof.
  intros Hs Hne Hp HQ. destruct (decide (p ∈ l)) as [Hin|Hnin].
  - apply list_elem_of_split in Hin as (l1 & l2 & ->).
    eapply wp_erase_elem; [done|]. intros h' ???. apply HQ; [|done|].
    + rewrite del_mid; [done|]. destruct Hs as [[??]%NoDup_cons _]. done.
    + eapply same_outside_mono; [|done]. set_solver.
  - specialize (Hp Hnin). eapply wp_erase; [done|]. intros h' ? _ Ho.
    rewrite del_notin in HQ by done. apply HQ; [|done|eapply same_outside_mono; [|done]; set_solver].
    eapply clist_frame; [done| |done]. set_solver.
Qed.

Lemma wp_push_front_any h s l p (Q : unit → heap → Prop) :
  clist h s l → p ≠ s → (p ∉ l → clist h p []) →
  (∀ h', clist h' s (p :: del p l) → same_outside (p :: s :: l) h h' → Q tt h') →
  wp (push_front s p) Q h.
Proof.
  intros Hs Hne Hp HQ. unfold push_front. apply wp_bind.
  eapply wp_erase_any; [done..|]. intros r h1 Hs1 Hp1 Ho.
  assert (Hsub : ∀ x, x ∈ del p l → x ∈ l ∧ x ≠ p) by (intros ? ?%elem_of_del; tauto).
  apply (wp_push_front_tail _ _ (del p l)); [done..|set_solver|]. intros h2 ? Ho2.
  apply HQ; [done|]. eapply same_outside_trans; [done|]. eapply same_outside_mono; [|done].
  set_solver.
Qed.

Lemma wp_push_back_any h s l p (Q : unit → heap → Prop) :
  clist h s l → p ≠ s → (p ∉ l → clist h p []) →
  (∀ h', clist h' s (del p l ++ [p]) → same_outside (p :: s :: l) h h' → Q tt h') →
  wp (push_back s p) Q h.
Proof.
  intros Hs Hne Hp HQ. unfold push_back. apply wp_bind.
  eapply wp_erase_any; [done..|]. intros r h1 Hs1 Hp1 Ho.
  assert (Hsub : ∀ x, x ∈ del p l → x ∈ l ∧ x ≠ p) by (intros ? ?%elem_of_del; tauto).
  apply (wp_push_back_tail _ _ (del p l)); [done..|set_solver|]. intros h2 ? Ho2.
  apply HQ; [done|]. eapply same_outside_trans; [done|]. eapply same_outside_mono; [|done].
  set_solver.
Qed.

(** ** Traversals *)
Lemma live_length_le h (l : list ptr) :
  NoDup l → (∀ x, x ∈ l → live h x) → (length l ≤ base.size h)%nat.
Proof.
  intros Hnd Hl. rewrite <- size_dom. rewrite <- (size_list_to_set (C := gset Z)) by done.
  apply subseteq_size. intros x. rewrite elem_of_list_to_set, elem_of_dom. apply Hl.
Qed.

Lemma clist_size_le h s l : clist h s l → (S (length l) ≤ base.size h)%nat.
Proof.
  intros Hc. apply (live_length_le h (s :: l)); [apply Hc|]. intros. by eapply clist_live.
Qed.

Lemma size_loop_spec h a l s rval fuel :
  path h a l s → s ∉ l → (length l < fuel)%nat →
  0 ≤ rval → rval + zlen l < 2 ^ 32 →
  size_loop fuel s a rval h = Ret (rval + zlen l, h).
Proof.
  revert a rval fuel. induction l as [|x l IH]; intros a rval [|fuel] Hp Hs Hf Hr Hb;
    try (simpl in *; lia); simpl size_loop.
  all: pose proof (path_nx _ _ _ _ Hp) as Hnx; simpl in Hnx.
  all: munfold; rewrite (next_run _ _ _ Hnx).
  - rewrite bool_decide_true by done. f_equal. f_equal. simpl. lia.
  - rewrite bool_decide_false by set_solver. simpl in *.
    rewrite wrap_small by lia. rewrite IH; [f_equal; f_equal; lia|tauto|set_solver|lia..].
Qed.

Lemma size_spec h s l :
  clist h s l → zlen l < 2 ^ 32 → size s h = Ret (zlen l, h).
Proof.
  intros Hc Hlen. unfold size. munfold.
  pose proof (clist_size_le _ _ _ Hc). destruct Hc as [[??]%NoDup_cons ?].
  rewrite size_loop_spec with (l := l); [done|done|done|lia..].
Qed.

Lemma walk_next_spec h a l b n x :
  path h a l b → (a :: l) !! n = Some x → walk next n a h = Ret (x, h).
Proof.
  revert a l. induction n as [|n IH]; intros a l Hp Hx; [by simplify_eq/=|].
  destruct l as [|y l]; [done|]. destruct Hp as [[Hnx _] Hp].
  simpl walk. munfold. rewrite (next_run _ _ _ Hnx). by apply (IH _ l).
Qed.

Lemma walk_prev_spec h a l b n x :
  path h a l b → (b :: reverse l) !! n = Some x → walk prev n b h = Ret (x, h).
Proof.
  revert b l. induction n as [|n IH]; intros b l Hp Hx; [by simplify_eq/=|].
  destruct l as [|y l _] using rev_ind; [done|].
  apply path_app in Hp as [Hp [_ Hpv]]. rewrite reverse_snoc in Hx.
  simpl walk. munfold. rewrite (prev_run _ _ _ Hpv). by apply (IH _ l).
Qed.

Lemma clear_loop_spec h s l fuel (Q : unit → heap → Prop) :
  clist h s l → (length l < fuel)%nat →
  (∀ h', clist h' s [] → (∀ x, x ∈ l → clist h' x []) →
         same_outside (s :: l) h h' → Q tt h') →
  wp (clear_loop fuel (default s (head l))) Q h.
Proof.
  revert h fuel Q. induction l as [|a l IH]; intros h [|fuel] Q Hc Hf HQ;
    try (simpl in *; lia); simpl default; simpl clear_loop; apply wp_bind.
  - eapply wp_empty; [done|]. apply wp_ret, HQ; [done|set_solver|apply same_outside_refl].
  - pose proof (clist_rotate _ _ [] _ _ Hc) as Hr. simpl in Hr.
    eapply wp_empty; [done|]. rewrite bool_decide_false by (by destruct l).
    apply wp_bind. eapply wp_erase; [done|]. intros h1 Ha Hring Ho.
    replace (default a (head (l ++ [s]))) with (default s (head l)) by (by destruct l).
    assert (Hs1 : clist h1 s l).
    { destruct l as [|b l]; [done|]. simpl in Hring. by apply clist_rotate in Hring. }
    destruct Hc as [[Hnin [Hal _]%NoDup_cons]%NoDup_cons _].
    eapply IH; [done|simpl in *; lia|]. intros h2 Hs2 Hl2 Ho2. apply HQ; [done| |].
    + intros x [->|?]%elem_of_cons; [|auto].
      eapply clist_frame; [exact Ho2| |done]. set_solver.
    + eapply same_outside_trans; eapply same_outside_mono; [|exact Ho| |exact Ho2]; set_solver.
Qed.

Lemma wp_insert_back h s l range (Q : unit → heap → Prop) :
  clist h s l → NoDup range → (∀ p, p ∈ range → clist h p [] ∧ p ∉ s :: l) →
  (∀ h', clist h' s (l ++ range) → same_outside (range ++ s :: l) h h' → Q tt h') →
  wp (insert_back s range) Q h.
Proof.
  revert h l Q. induction range as [|p range IH]; intros h l Q Hs Hnd Hr HQ; simpl.
  - rewrite app_nil_r in HQ. apply wp_ret, HQ; [done|apply same_outside_refl].
  - apply NoDup_cons in Hnd as [Hp Hnd]. apply wp_bind.
    destruct (Hr p) as [Hp1 Hps]; [set_solver|].
    eapply wp_push_back; [done..|]. intros h1 Hs1 _ Ho.
    eapply IH; [done|done| |].
    + intros q Hq. destruct (Hr q) as [Hq1 Hqs]; [set_solver|].
      split; [|set_solver]. eapply clist_frame; [done| |done]. set_solver.
    + intros h2 Hs2 Ho2. rewrite <- app_assoc in Hs2. apply HQ; [done|].
      eapply same_outside_trans; eapply same_outside_mono; [|exact Ho| |exact Ho2]; set_solver.
Qed.

(** ** Refinement: any sequence of list operations

    The abstract list is a Rocq list; the concrete state is the heap.
    [rep h s l U]: sentinel [s] holds [l], and every other node of [U]
    is alone. *)
Inductive op := PushFront (p : ptr) | PushBack (p : ptr) | Erase (p : ptr) | Clear.

Definition run_op (s : ptr) (o : op) : M heap unit :=
  match o with
  | PushFront p => push_front s p
  | PushBack p => push_back s p
  | Erase p => _ ← erase p; mret tt
  | Clear => clear s
  end.

Fixpoint run_ops (s : ptr) (os : list op) : M heap unit :=
  match os with
  | [] => mret tt
  | o :: os => _ ← run_op s o; run_ops s os
  end.

Definition abs_op (l : list ptr) (o : op) : list ptr :=
  match o with
  | PushFront p => p :: del p l
  | PushBack p => del p l ++ [p]
  | Erase p => del p l
  | Clear => []
  end.

Definition op_in (U : list ptr) (o : op) : Prop :=
  match o with
  | PushFront p | PushBack p | Erase p => p ∈ U
  | Clear => True
  end.

Definition rep (h : heap) (s : ptr) (l U : list ptr) : Prop :=
  clist h s l ∧ (s ∉ U) ∧ l ⊆ U ∧ ∀ p, p ∈ U → p ∉ l → clist h p [].

Lemma rep_step h s l U o :
  rep h s l U → op_in U o → wp (run_op s o) (λ _ h', rep h' s (abs_op l o) U) h.
Proof.
  intros (Hc & Hs & Hl & HU) Ho.
  assert (Hout : ∀ p X h', same_outside X h h' → p ∈ U → p ∉ l → p ∉ X → clist h' p []).
  { intros p X h' Hso HpU Hpl HpX. eapply clist_frame; [exact Hso| |by apply HU]. set_solver. }
  assert (Hd : ∀ p x, x ∈ del p l ↔ x ≠ p ∧ x ∈ l) by (intros; apply elem_of_del).
  destruct o as [p|p|p|]; simpl in *.
  - eapply wp_push_front_any; [done|set_solver|auto|]. intros h' Hc' Hso.
    split_and!; [done|done|set_solver|]. intros q ? Hq. eapply (Hout q); [done..| |]; set_solver.
  - eapply wp_push_back_any; [done|set_solver|auto|]. intros h' Hc' Hso.
    split_and!; [done|done|set_solver|]. intros q ? Hq. eapply (Hout q); [done..| |]; set_solver.
  - apply wp_bind. eapply wp_erase_any; [done|set_solver|auto|]. intros r h' Hc' Hp Hso.
    apply wp_ret. split_and!; [done|done|set_solver|]. intros q ? Hq.
    destruct (decide (q = p)) as [->|]; [done|]. eapply (Hout q); [done..| |]; set_solver.
  - unfold clear. apply wp_bind, wp_get, wp_bind.
    eapply wp_next; [by apply (path_nx _ _ _ _ (proj2 Hc))|].
    apply clear_loop_spec; [done|pose proof (clist_size_le _ _ _ Hc); lia|].
    intros h' Hc' Hl' Hso. split_and!; [done|done|set_solver|]. intros q ? _.
    destruct (decide (q ∈ l)); [auto|]. eapply (Hout q); [done..|]. set_solver.
Qed.

(** C28: any sequence of [push_front], [push_back], [erase] and [clear] on
    a sentinel and its nodes runs to completion (no dangling access, no
    endless walk) and leaves the heap representing exactly the list that
    the same sequence of abstract list operations produces, every node
    that is not in the list being a ring of its own. *)
Theorem intrusive_list_refines h s l U os :
  rep h s l U → Forall (op_in U) os →
  ∃ h', run_ops s os h = Ret (tt, h') ∧ rep h' s (foldl abs_op l os) U.
Proof.
  intros Hr Hos. enough (wp (run_ops s os) (λ _ h', rep h' s (foldl abs_op l os) U) h) as Hwp.
  { apply wp_run in Hwp as ([] & h' & ? & ?). eauto. }
  revert h l Hr. induction Hos as [|o os Ho _ IH]; intros h l Hr; simpl; [by apply wp_ret|].
  apply wp_bind. eapply wp_mono; [by apply rep_step|]. intros [] h' Hr'. by apply IH.
Qed.

(** Three nodes and a sentinel, as the constructors leave them. *)
Definition demo_heap : heap :=
  <[100 := ListHead 100 100]> (<[1 := ListHead 1 1]>
    (<[2 := ListHead 2 2]> {[3 := ListHead 3 3]})).

Lemma intrusive_list_refines_witness :
  ∃ h', run_ops 100 [PushBack 1; PushFront 2; PushBack 3; PushBack 1; Erase 3] demo_heap
        = Ret (tt, h') ∧ rep h' 100 [2; 1] [1; 2; 3].
Proof.
  apply (intrusive_list_refines demo_heap 100 [] [1; 2; 3]).
  - split_and!; [|set_solver|set_solver|].
    + apply clist_nil. done.
    + intros p Hp _. repeat (apply elem_of_cons in Hp as [->|Hp]; [by apply clist_nil|]).
      by apply elem_of_nil in Hp.
  - repeat constructor; simpl; set_solver.
Defined.

(** [size()] terminates and returns the number of elements, and
    [at(n)] / [at(-n)] return the [n]-th element counted from the front /
    from the back (index 0 being the node itself). *)
Theorem intrusive_list_traversals h s l :
  clist h s l → zlen l < 2 ^ 31 →
  size s h = Ret (zlen l, h) ∧
  (∀ n x, (s :: l) !! n = Some x → at_ s (Z.of_nat n) h = Ret (x, h)) ∧
  (∀ n x, (s :: reverse l) !! n = Some x → at_ s (- Z.of_nat n) h = Ret (x, h)).
Proof.
  intros Hc Hlen. split; [apply size_spec; [done|lia]|]. destruct Hc as [_ Hp].
  split; intros n x Hx; unfold at_; munfold.
  - rewrite Nat2Z.id, (walk_next_spec _ _ _ _ _ _ Hp Hx).
    by replace (Z.to_nat (- Z.of_nat n)) with O by lia.
  - replace (Z.to_nat (- Z.of_nat n)) with O by lia. simpl walk at 1. munfold.
    rewrite Z.opp_involutive, Nat2Z.id. by apply (walk_prev_spec _ _ _ _ _ _ Hp Hx).
Qed.

Definition demo_heap2 : heap :=
  <[100 := ListHead 1 2]> (<[1 := ListHead 2 100]> {[2 := ListHead 100 1]}).

Lemma intrusive_list_traversals_witness :
  size 100 demo_heap2 = Ret (2, demo_heap2) ∧ at_ 100 (-1) demo_heap2 = Ret (2, demo_heap2).
Proof.
  destruct (intrusive_list_traversals demo_heap2 100 [1; 2]) as (H1 & _ & H3).
  - split; [|done]. repeat constructor; set_solver.
  - done.
  - split; [done|]. by apply (H3 1%nat).
Defined.
