(* ===== verification/NonstdList.v ===== *)
(** * [nonstd::list]

    Models [nonstd/list.h].  The list object is the sentinel node at
    address [&_back], whose [prev] and [next] fields are [_back] and
    [_front], so the rings of [IntrusiveList] describe its links; a node
    also holds a value, and each list its [_size].  An iterator is the
    address of a node, or of the sentinel for [end()].

    The address of a new node is the result of the allocator's
    [allocate(1)], an argument of [emplace]. *)
From S2P Require Import Prelude IntrusiveList.

Record lstate (T : Type) := LState {
  links : heap;
  vals : gmap Z T;
  sizes : gmap Z Z }.
Arguments LState {T} links vals sizes.
Arguments links {T} _.
Arguments vals {T} _.
Arguments sizes {T} _.

Section ops.
Context {T : Type}.
Implicit Types (s pos : ptr).
Local Abbreviation L := (M (lstate T)).

(** The pointer part of an operation. *)
Definition on_links {A} (m : M heap A) : L A := λ st,
  match m (links st) with
  | Ret (a, h) => Ret (a, LState h (vals st) (sizes st))
  | Halt f => Halt f
  end.

Definition get_size s : L Z := st ← getS; liftO (deref (sizes st !! s)).
Definition set_size s (n : Z) : L unit :=
  st ← getS; putS (LState (links st) (vals st) (<[s := u32 n]> (sizes st))).

(** The member initializers: [_back = _front = end()], [_size = 0]. *)
Definition list_ctor s : L unit :=
  st ← getS;
  putS (LState (<[s := ListHead s s]> (links st)) (vals st) (<[s := 0]> (sizes st))).

Definition list_empty s : L bool := n ← get_size s; mret (n =? 0).
Definition list_size s : L Z := get_size s.
Definition list_end s : ptr := s.
Definition list_begin s : L ptr :=
  e ← list_empty s; if (e : bool) then mret (list_end s) else on_links (next s).

Definition front s : L T :=
  p ← on_links (next s); st ← getS; liftO (deref (vals st !! p)).
Definition back s : L T :=
  p ← on_links (prev s); st ← getS; liftO (deref (vals st !! p)).

(** [emplace(pos, v)]; [a] is the address of the new node. *)
Definition list_emplace s pos (v : T) (a : ptr) : L ptr :=
  pr ← on_links (prev pos);
  st ← getS;
  _ ← putS (LState (<[a := ListHead pos pr]> (links st)) (<[a := v]> (vals st)) (sizes st));
  _ ← on_links (set_prev pos a);
  _ ← on_links (set_next pr a);
  n ← get_size s;
  _ ← set_size s (n + 1);
  mret a.

Definition list_erase s pos : L ptr :=
  nx ← on_links (next pos);
  pr ← on_links (prev pos);
  _ ← on_links (set_prev nx pr);
  pr ← on_links (prev pos);
  _ ← on_links (set_next pr nx);
  st ← getS;
  _ ← putS (LState (delete pos (links st)) (delete pos (vals st)) (sizes st));
  n ← get_size s;
  _ ← set_size s (n - 1);
  mret nx.

Definition emplace_back s v a : L ptr := list_emplace s (list_end s) v a.
Definition emplace_front s v a : L ptr := b ← list_begin s; list_emplace s b v a.
Definition pop_back s : L ptr := p ← on_links (prev (list_end s)); list_erase s p.
Definition pop_front s : L ptr := p ← list_begin s; list_erase s p.

(** [std::swap] of two [prev] (two [next]) fields. *)
Definition swap_prev (p q : ptr) : M heap unit :=
  x ← prev p; y ← prev q; _ ← set_prev p y; set_prev q x.
Definition swap_next (p q : ptr) : M heap unit :=
  x ← next p; y ← next q; _ ← set_next p y; set_next q x.
Definition swap_size s s' : L unit :=
  a ← get_size s; b ← get_size s'; _ ← set_size s b; set_size s' a.

(** Move assignment swaps the contents; [s] and [s'] may be empty, when
    [_front->prev] is the sentinel's own [_back]. *)
Definition move_assign s s' : L unit :=
  _ ← swap_size s s';
  on_links (
    b1 ← prev s; b2 ← prev s';
    f1 ← next s; f2 ← next s';
    _ ← swap_prev f1 f2;
    _ ← swap_next b1 b2;
    _ ← swap_next s s';
    swap_prev s s').

(** [splice_impl(pos, other, first, last, n)]. *)
Definition splice_links pos first last : M heap unit :=
  pr ← prev pos;
  first_prev ← prev first;
  last_prev ← prev last;
  _ ← swap_prev first pos;
  _ ← swap_next last_prev pr;
  _ ← swap_next pr first_prev;
  swap_prev pos last.

Definition splice_impl s pos other first last (n : Z) : L unit :=
  _ ← on_links (splice_links pos first last);
  a ← get_size s;
  _ ← set_size s (a + n);
  b ← get_size other;
  set_size other (b - n).

(** [splice(pos, other)] and [splice(pos, other, it)]. *)
Definition splice_all s pos other : L unit :=
  b ← list_begin other; n ← list_size other; splice_impl s pos other b (list_end other) n.
Definition splice_one s pos other it : L unit :=
  nx ← on_links (next it); splice_impl s pos other it nx 1.

(** [clear()]: [for (it = begin(); it != end(); it = erase(it))]. *)
Fixpoint list_clear_loop (fuel : nat) s it : L unit :=
  match fuel with
  | O => halt OutOfFuel
  | S fuel =>
    if bool_decide (it = list_end s) then mret tt
    else it ← list_erase s it; list_clear_loop fuel s it
  end.
Definition list_clear s : L unit :=
  n ← get_size s; b ← list_begin s; list_clear_loop (S (Z.to_nat n)) s b.

(** ** Representation *)
Definition lrep (st : lstate T) s (l : list ptr) (xs : list T) : Prop :=
  clist (links st) s l ∧ sizes st !! s = Some (zlen l) ∧ zlen l < 2 ^ 32 ∧
  Forall2 (λ p x, vals st !! p = Some x) l xs.
End ops.

Lemma wp_on_links {T A} (m : M heap A) (Q : A → lstate T → Prop) st :
  wp m (λ a h, Q a (LState h (vals st) (sizes st))) (links st) → wp (on_links m) Q st.
Proof. unfold wp, on_links. by destruct (m (links st)) as [[a h]|]. Qed.

(** ** Rings seen from an iterator *)
Definition at_iter (s : ptr) (l2 : list ptr) : ptr := default s (head l2).
Definition around (s : ptr) (l1 l2 : list ptr) : list ptr :=
  match l2 with [] => l1 | _ :: t => t ++ s :: l1 end.

Lemma clist_to_iter h s l1 l2 :
  clist h s (l1 ++ l2) → clist h (at_iter s l2) (around s l1 l2).
Proof. destruct l2 as [|x t]; simpl; [by rewrite app_nil_r|]. apply clist_rotate. Qed.

Lemma clist_from_iter h s l1 seg l2 :
  clist h (at_iter s l2) (around s l1 l2 ++ seg) → clist h s (l1 ++ seg ++ l2).
Proof.
  destruct l2 as [|x t]; simpl; [by rewrite app_nil_r|].
  rewrite <- app_assoc. simpl. intros Hc%clist_rotate. by rewrite <- app_assoc in Hc.
Qed.

Lemma elem_of_around s l1 l2 x :
  x ∈ at_iter s l2 :: around s l1 l2 ↔ x ∈ s :: l1 ++ l2.
Proof. destruct l2; simpl; set_solver. Qed.

Lemma upd_comm z a s b h : upd_next z a (upd_prev s b h) = upd_prev s b (upd_next z a h).
Proof.
  unfold upd_next, upd_prev. destruct (decide (z = s)) as [->|].
  - by rewrite !alter_alter_eq.
  - by rewrite alter_alter_ne.
Qed.

(** Linking a freshly allocated node before the head of a ring. *)
Lemma link_fresh h x A a :
  clist h x A → h !! a = None → ∀ z, pv h x = Some z →
  let h1 := <[a := ListHead x z]> h in
  live h1 x ∧ live h1 z ∧ clist (upd_next z a (upd_prev x a h1)) x (A ++ [a]) ∧
  ∀ y, y ∉ a :: x :: A → upd_next z a (upd_prev x a h1) !! y = h !! y.
Proof.
  intros Hc Ha z Hz h1.
  assert (Hza : z = default x (last A)) by (pose proof (path_pv _ _ _ _ (proj2 Hc)); congruence).
  assert (Hzin : z ∈ x :: A).
  { subst z. destruct (last A) eqn:E; [apply last_Some_elem_of in E|]; set_solver. }
  assert (Hnin : a ∉ x :: A).
  { intros Hin. destruct (clist_live _ _ _ _ Hc Hin) as [? ?]. congruence. }
  set (h0 := <[a := ListHead a a]> h).
  assert (Hc0 : clist h0 x A).
  { destruct Hc as [Hnd Hp]. split; [done|].
    eapply path_frame; [| |exact Hp]; intros y Hy; unfold h0, nx, pv; rewrite lookup_insert_ne; set_solver. }
  assert (Ha0 : clist h0 a []).
  { apply clist_nil. unfold nx, pv, h0. by rewrite lookup_insert_eq. }
  destruct (push_back_relink h0 x A a Hc0 Ha0 Hnin) as [Hc2 [_ Ho]]. rewrite <- Hza in Hc2, Ho.
  assert (Heq : upd_next a x (upd_prev a z h0) = h1).
  { unfold upd_next, upd_prev, h0, h1. by rewrite !alter_insert_eq. }
  rewrite Heq in Hc2, Ho. rewrite upd_comm. split_and!.
  - unfold live, h1. rewrite lookup_insert_ne by set_solver. apply (clist_live _ _ _ _ Hc). set_solver.
  - unfold live, h1. rewrite lookup_insert_ne by set_solver. apply (clist_live _ _ _ _ Hc). set_solver.
  - done.
  - intros y Hy. rewrite Ho by set_solver. unfold h0. rewrite lookup_insert_ne; set_solver.
Qed.

(** Unlinking and freeing a node. *)
Lemma unlink_free h s l1 p l2 :
  clist h s (l1 ++ p :: l2) → ∀ z, pv h p = Some z →
  let a := at_iter s l2 in
  let h' := upd_next z a (upd_prev a z h) in
  nx h p = Some a ∧ live h a ∧ live (upd_prev a z h) z ∧ pv (upd_prev a z h) p = Some z ∧
  clist (delete p h') s (l1 ++ l2) ∧ ∀ y, y ∉ s :: l1 ++ p :: l2 → delete p h' !! y = h !! y.
Proof.
  intros Hc z Hz a h'. pose proof (clist_rotate _ _ _ _ _ Hc) as Hr.
  assert (Hform : l2 ++ s :: l1 = a :: around s l1 l2) by (unfold a; destruct l2; done).
  rewrite Hform in Hr.
  assert (Hz' : z = default a (last (around s l1 l2))).
  { pose proof (path_pv _ _ _ _ (proj2 Hr)) as Hpv. rewrite last_cons in Hpv.
    rewrite Hz in Hpv. destruct (last (around s l1 l2)); simpl in *; congruence. }
  destruct (erase_relink h p a (around s l1 l2) z Hr Hz Hz') as (_ & Hc' & [Hd Ho]).
  assert (Hzin : z ∈ a :: around s l1 l2).
  { subst z. destruct (last (around s l1 l2)) eqn:E; [apply last_Some_elem_of in E|]; set_solver. }
  pose proof (proj1 Hr) as [Hpn _]%NoDup_cons.
  assert (Hla : live h a) by (apply (clist_live _ _ _ _ Hr); set_solver).
  assert (Hlz : live h z) by (apply (clist_live _ _ _ _ Hr); set_solver).
  split_and!.
  - by destruct Hr as [_ [[? _] _]].
  - done.
  - by rewrite live_upd_prev.
  - rewrite pv_upd_prev by done. rewrite decide_False; [done|]. set_solver.
  - destruct Hc' as [Hnd Hpath].
    assert (Hp' : ∀ y, y ≠ p → upd_prev p p (upd_next p p h') !! y = h' !! y).
    { intros y Hy. unfold upd_prev, upd_next. by rewrite !lookup_alter_ne. }
    assert (Hc'' : clist (delete p h') a (around s l1 l2 ++ [])).
    { rewrite app_nil_r. split; [done|]. eapply path_frame; [| |exact Hpath]; intros y Hy;
        (assert (y ≠ p) by set_solver); unfold nx, pv; rewrite lookup_delete_ne by done;
        fold h'; by rewrite Hp'. }
    by apply (clist_from_iter _ _ l1 [] l2) in Hc''.
  - intros y Hy. assert (y ≠ p) by set_solver. rewrite lookup_delete_ne by done. unfold h', upd_next, upd_prev.
    assert (y ≠ a) by (intros ->; destruct l2; set_solver).
    assert (y ≠ z).
    { intros ->. apply Hy. apply elem_of_around in Hzin. set_solver. }
    by rewrite !lookup_alter_ne.
Qed.

(** Redirecting the last link of a path. *)
Lemma path_end h h' s A e e' a :
  path h s A e → NoDup (s :: A) → a = default s (last A) →
  (∀ y, y ∈ s :: A → y ≠ a → nx h' y = nx h y) → (∀ y, y ∈ A → pv h' y = pv h y) →
  nx h' a = Some e' → pv h' e' = Some a → path h' s A e'.
Proof.
  intros Hp Hnd Ha Hn Hv H1 H2. destruct A as [|z A _] using rev_ind; simpl in *; [by subst a|].
  rewrite last_snoc in Ha. simpl in Ha. subst z.
  apply path_app in Hp as [Hp _]. apply path_app. split; [|done].
  apply NoDup_cons in Hnd as [Hs Hnd]. apply NoDup_app in Hnd as (_ & Hd & _).
  eapply path_frame; [| |exact Hp]; intros y Hy; [apply Hn|apply Hv]; set_solver.
Qed.

Lemma last_default_in {A} (s : A) l : default s (last l) ∈ s :: l.
Proof. destruct (last l) eqn:E; [apply last_Some_elem_of in E|]; set_solver. Qed.

Lemma splice_ring h x A y B f seg :
  clist h x A → clist h y (B ++ f :: seg) → x ∉ y :: B ++ f :: seg →
  wp (splice_links x f y)
     (λ _ h', clist h' x (A ++ f :: seg) ∧ clist h' y B ∧
              same_outside ((x :: A) ++ y :: B ++ f :: seg) h h') h.
Proof.
  intros Hx Hy Hnin.
  pose proof (clist_disjoint _ _ _ _ _ Hy Hx Hnin) as Hdisj.
  destruct Hx as [Hndx Hpx]. destruct Hy as [Hndy Hpy].
  pose proof (path_pv _ _ _ _ Hpx) as Hxa. set (a := default x (last A)) in *.
  assert (Hain : a ∈ x :: A) by apply last_default_in.
  apply path_app in Hpy as [Hpb Hps]. pose proof (path_pv _ _ _ _ Hpb) as Hfb.
  set (b := default y (last B)) in *. assert (Hbin : b ∈ y :: B) by apply last_default_in.
  pose proof (path_pv _ _ _ _ Hps) as Hyz. set (z := default f (last seg)) in *.
  assert (Hzin : z ∈ f :: seg) by apply last_default_in.
  assert (Hax : nx h a = Some x ∧ nx h b = Some f ∧ nx h z = Some y).
  { split_and!.
    - subst a. destruct A as [|w A _] using rev_ind; simpl in *; [apply Hpx|].
      rewrite last_snoc. apply path_app in Hpx as [_ Hl]. apply Hl.
    - subst b. destruct B as [|w B _] using rev_ind; simpl in *; [apply Hpb|].
      rewrite last_snoc. apply path_app in Hpb as [_ Hl]. apply Hl.
    - subst z. destruct seg as [|w seg _] using rev_ind; simpl in *; [apply Hps|].
      rewrite last_snoc. apply path_app in Hps as [_ Hl]. apply Hl. }
  destruct Hax as (Hax & Hbf & Hzy).
  assert (Hndy' := Hndy). rewrite app_comm_cons in Hndy'. apply NoDup_app in Hndy' as (HndB & HdB & HndS).
  assert (Hxin : x ∈ x :: A) by left. assert (Hyin : y ∈ y :: B) by left.
  assert (Hfin : f ∈ f :: seg) by left.
  assert (HU : ∀ w, w ∈ x :: A ∨ w ∈ y :: B ∨ w ∈ f :: seg → w ∈ (x :: A) ++ y :: B ++ f :: seg).
  { intros w. rewrite (app_comm_cons B), !elem_of_app. done. }
  assert (HAY : ∀ w w', w ∈ x :: A → w' ∈ y :: B ∨ w' ∈ f :: seg → w ≠ w').
  { intros w w' Hw Hw' ->. apply (Hdisj w'); [|done]. by rewrite app_comm_cons, elem_of_app. }
  assert (HBS : ∀ w w', w ∈ y :: B → w' ∈ f :: seg → w ≠ w').
  { intros w w' Hw Hw' ->. by apply (HdB w'). }
  assert (HA : ∀ w, w ∈ x :: A → w ≠ b ∧ w ≠ z ∧ w ≠ y ∧ w ≠ f) by (intros w ?; split_and!; auto).
  assert (HB : ∀ w, w ∈ y :: B → w ≠ a ∧ w ≠ z ∧ w ≠ x ∧ w ≠ f)
    by (intros w ?; split_and!; auto; apply not_eq_sym; auto).
  assert (HS : ∀ w, w ∈ f :: seg → w ≠ a ∧ w ≠ b ∧ w ≠ x ∧ w ≠ y)
    by (intros w ?; split_and!; apply not_eq_sym; auto).
  destruct (HA x Hxin) as (_ & _ & ? & ?). destruct (HA a Hain) as (? & ? & _ & _).
  destruct (HB b Hbin) as (_ & ? & _ & _). destruct (HS f Hfin) as (_ & _ & _ & ?).
  assert (live h x ∧ live h y ∧ live h f ∧ live h a ∧ live h b ∧ live h z) as (?&?&?&?&?&?).
  { split_and!; eauto using nx_live, pv_live. }
  assert (HAS : ∀ w w', w ∈ x :: A → w' ∈ f :: seg → w ≠ w') by auto.
  clear Hdisj Hnin Hndy HAY HBS.
  unfold splice_links, swap_prev, swap_next. repeat list_step.
  split_and!.
  - split.
    { rewrite app_comm_cons. apply NoDup_app. split_and!; [done| |done].
      intros w Hw Hw'. by apply (HAS w w). }
    apply path_app. split.
    + eapply (path_end h _ x A x f a); [done|done|done|..]; [| |heap_rw; done..].
      * intros w Hw Hwa. destruct (HA w Hw) as (? & ? & ? & ?). by heap_rw.
      * intros w Hw. apply NoDup_cons in Hndx as [Hxn _]. assert (w ≠ x) by (by intros ->).
        destruct (HA w) as (? & ? & ? & ?); [by right|]. by heap_rw.
    + eapply (path_end h _ f seg y x z); [done|done|done|..]; [| |heap_rw; done..].
      * intros w Hw Hwa. destruct (HS w Hw) as (? & ? & ? & ?). by heap_rw.
      * intros w Hw. apply NoDup_cons in HndS as [Hfn _]. assert (w ≠ f) by (by intros ->).
        destruct (HS w) as (? & ? & ? & ?); [by right|]. by heap_rw.
  - split; [done|].
    eapply (path_end h _ y B f y b); [done|done|done|..]; [| |heap_rw; done..].
    + intros w Hw Hwa. destruct (HB w Hw) as (? & ? & ? & ?). by heap_rw.
    + intros w Hw. apply NoDup_cons in HndB as [Hyn _]. assert (w ≠ y) by (by intros ->).
      destruct (HB w) as (? & ? & ? & ?); [by right|]. by heap_rw.
  - outside; apply HU; auto.
Qed.

(** A ring changes its sentinel. *)
Lemma adopt_ring h h' s s' f t :
  clist h s (f :: t) → s' ∉ f :: t → let b := default f (last t) in
  link h' s' f → link h' b s' →
  (∀ y, y ∈ f :: t → y ≠ b → nx h' y = nx h y) → (∀ y, y ∈ t → pv h' y = pv h y) →
  clist h' s' (f :: t).
Proof.
  intros [[_ Hnd]%NoDup_cons [_ Hp]] Hs' b Hf [Hb1 Hb2] Hn Hv.
  split; [by apply NoDup_cons|]. split; [done|]. by eapply (path_end h _ f t s s' b).
Qed.

Lemma clist_last h s f t : clist h s (f :: t) →
  pv h s = Some (default f (last t)) ∧ nx h (default f (last t)) = Some s ∧
  nx h s = Some f ∧ pv h f = Some s.
Proof.
  intros [_ [[H1 H2] Hp]]. split; [by apply path_pv in Hp|]. split; [|done].
  destruct t as [|z t _] using rev_ind; simpl in *; [apply Hp|].
  rewrite last_snoc. apply path_app in Hp as [_ Hl]. apply Hl.
Qed.

Lemma move_ring h s1 l1 s2 l2 :
  clist h s1 l1 → clist h s2 l2 → s2 ∉ s1 :: l1 →
  wp (b1 ← prev s1; b2 ← prev s2; f1 ← next s1; f2 ← next s2;
      _ ← swap_prev f1 f2; _ ← swap_next b1 b2; _ ← swap_next s1 s2; swap_prev s1 s2)
     (λ _ h', clist h' s1 l2 ∧ clist h' s2 l1 ∧ same_outside ((s1 :: l1) ++ s2 :: l2) h h') h.
Proof.
  intros Hc1 Hc2 Hnin. pose proof (clist_disjoint _ _ _ _ _ Hc1 Hc2 Hnin) as Hdisj.
  assert (Hs12 : s1 ≠ s2) by (intros ->; apply Hnin; left).
  assert (Hs1n : s1 ∉ l2) by (intros ?; apply (Hdisj s1); [left|by right]).
  assert (Hs2n : s2 ∉ l1) by (intros ?; apply Hnin; by right).
  assert (Hl : ∀ w w', w ∈ l1 → w' ∈ l2 → w ≠ w').
  { intros w w' ?? ->. apply (Hdisj w'); by right. }
  assert (Hs1l : s1 ∉ l1) by (by destruct Hc1 as [[? _]%NoDup_cons _]).
  assert (Hs2l : s2 ∉ l2) by (by destruct Hc2 as [[? _]%NoDup_cons _]).
  assert (HU : ∀ w, w = s1 ∨ w ∈ l1 ∨ w = s2 ∨ w ∈ l2 → w ∈ (s1 :: l1) ++ s2 :: l2).
  { intros w. rewrite elem_of_app, !elem_of_cons. tauto. }
  clear Hnin Hdisj.
  assert (Hmem : ∀ (l : list ptr) w w', w' ∉ l → w ∈ l → w ≠ w') by (by intros ????? ->).
  unfold swap_prev, swap_next. destruct l1 as [|f1 t1], l2 as [|f2 t2].
  - apply clist_nil in Hc1 as [Hn1 Hp1], Hc2 as [Hn2 Hp2].
    assert (live h s1 ∧ live h s2) as [??] by (split; eauto using nx_live).
    repeat list_step. split_and!; [apply clist_nil; split; by heap_rw..|outside; apply HU; auto].
  - apply clist_nil in Hc1 as [Hn1 Hp1]. destruct (clist_last _ _ _ _ Hc2) as (Hp2 & Hb2 & Hn2 & Hf2).
    set (b2 := default f2 (last t2)) in *. assert (Hb2in : b2 ∈ f2 :: t2) by apply last_default_in.
    assert (Hf2in : f2 ∈ f2 :: t2) by left.
    assert (f2 ≠ s1 ∧ f2 ≠ s2 ∧ b2 ≠ s1 ∧ b2 ≠ s2) as (?&?&?&?) by (split_and!; eauto).
    assert (live h s1 ∧ live h s2 ∧ live h f2 ∧ live h b2) as (?&?&?&?)
      by (split_and!; eauto using nx_live, pv_live).
    repeat list_step. split_and!.
    + eapply adopt_ring; [exact Hc2|done|split; by heap_rw|fold b2; split; by heap_rw|..].
      * intros y Hy Hyb. fold b2 in Hyb. assert (y ≠ s1) by eauto. assert (y ≠ s2) by eauto. by heap_rw.
      * intros y Hy. destruct Hc2 as [[_ [Hf _]%NoDup_cons]%NoDup_cons _]. assert (y ≠ f2) by (by intros ->).
        assert (y ∈ f2 :: t2) by (by right). assert (y ≠ s1) by eauto. assert (y ≠ s2) by eauto. by heap_rw.
    + apply clist_nil; split; by heap_rw.
    + outside; apply HU; auto.
  - apply clist_nil in Hc2 as [Hn2 Hp2]. destruct (clist_last _ _ _ _ Hc1) as (Hp1 & Hb1 & Hn1 & Hf1).
    set (b1 := default f1 (last t1)) in *. assert (Hb1in : b1 ∈ f1 :: t1) by apply last_default_in.
    assert (Hf1in : f1 ∈ f1 :: t1) by left.
    assert (f1 ≠ s1 ∧ f1 ≠ s2 ∧ b1 ≠ s1 ∧ b1 ≠ s2) as (?&?&?&?) by (split_and!; eauto).
    assert (live h s1 ∧ live h s2 ∧ live h f1 ∧ live h b1) as (?&?&?&?)
      by (split_and!; eauto using nx_live, pv_live).
    repeat list_step. split_and!.
    + apply clist_nil; split; by heap_rw.
    + eapply adopt_ring; [exact Hc1|done|split; by heap_rw|fold b1; split; by heap_rw|..].
      * intros y Hy Hyb. fold b1 in Hyb. assert (y ≠ s1) by eauto. assert (y ≠ s2) by eauto. by heap_rw.
      * intros y Hy. destruct Hc1 as [[_ [Hf _]%NoDup_cons]%NoDup_cons _]. assert (y ≠ f1) by (by intros ->).
        assert (y ∈ f1 :: t1) by (by right). assert (y ≠ s1) by eauto. assert (y ≠ s2) by eauto. by heap_rw.
    + outside; apply HU; auto.
  - destruct (clist_last _ _ _ _ Hc1) as (Hp1 & Hb1 & Hn1 & Hf1).
    destruct (clist_last _ _ _ _ Hc2) as (Hp2 & Hb2 & Hn2 & Hf2).
    set (b1 := default f1 (last t1)) in *. assert (Hb1in : b1 ∈ f1 :: t1) by apply last_default_in.
    set (b2 := default f2 (last t2)) in *. assert (Hb2in : b2 ∈ f2 :: t2) by apply last_default_in.
    assert (Hf1in : f1 ∈ f1 :: t1) by left. assert (Hf2in : f2 ∈ f2 :: t2) by left.
    assert (f1 ≠ s1 ∧ f1 ≠ s2 ∧ b1 ≠ s1 ∧ b1 ≠ s2 ∧ f2 ≠ s1 ∧ f2 ≠ s2 ∧ b2 ≠ s1 ∧ b2 ≠ s2 ∧ f1 ≠ f2 ∧ b1 ≠ b2)
      as (?&?&?&?&?&?&?&?&?&?) by (split_and!; eauto).
    assert (live h s1 ∧ live h s2 ∧ live h f1 ∧ live h b1 ∧ live h f2 ∧ live h b2) as (?&?&?&?&?&?)
      by (split_and!; eauto using nx_live, pv_live).
    repeat list_step. split_and!.
    + eapply adopt_ring; [exact Hc2|done|split; by heap_rw|fold b2; split; by heap_rw|..].
      * intros y Hy Hyb. fold b2 in Hyb. assert (y ≠ s1) by eauto. assert (y ≠ s2) by eauto.
        assert (y ≠ b1) by (apply not_eq_sym; eauto). by heap_rw.
      * intros y Hy. destruct Hc2 as [[_ [Hf _]%NoDup_cons]%NoDup_cons _]. assert (y ≠ f2) by (by intros ->).
        assert (y ∈ f2 :: t2) by (by right). assert (y ≠ s1) by eauto. assert (y ≠ s2) by eauto.
        assert (y ≠ f1) by (apply not_eq_sym; eauto). by heap_rw.
    + eapply adopt_ring; [exact Hc1|done|split; by heap_rw|fold b1; split; by heap_rw|..].
      * intros y Hy Hyb. fold b1 in Hyb. assert (y ≠ s1) by eauto. assert (y ≠ s2) by eauto.
        assert (y ≠ b2) by eauto. by heap_rw.
      * intros y Hy. destruct Hc1 as [[_ [Hf _]%NoDup_cons]%NoDup_cons _]. assert (y ≠ f1) by (by intros ->).
        assert (y ∈ f1 :: t1) by (by right). assert (y ≠ s1) by eauto. assert (y ≠ s2) by eauto.
        assert (y ≠ f2) by eauto. by heap_rw.
    + outside; apply HU; auto.
Qed.

(** ** The operations on contents *)
Section contents.
Context {T : Type}.
Implicit Types (st : lstate T) (l : list ptr) (xs : list T).

Lemma wp_get_size st s n (Q : Z → lstate T → Prop) :
  sizes st !! s = Some n → Q n st → wp (get_size s) Q st.
Proof. intros Hs HQ. unfold get_size. apply wp_bind, wp_get. by eapply wp_deref. Qed.

Lemma wp_set_size st s n (Q : unit → lstate T → Prop) :
  Q tt (LState (links st) (vals st) (<[s := u32 n]> (sizes st))) → wp (set_size s n) Q st.
Proof. intros HQ. unfold set_size. apply wp_bind, wp_get. by apply wp_put. Qed.

Lemma wp_list_begin st s l xs (Q : ptr → lstate T → Prop) :
  lrep st s l xs → Q (at_iter s l) st → wp (list_begin s) Q st.
Proof.
  intros (Hc & Hs & Hb & _) HQ. unfold list_begin, list_empty. apply wp_bind, wp_bind.
  eapply wp_get_size; [done|]. apply wp_ret. destruct l as [|x l].
  - by apply wp_ret.
  - rewrite (proj2 (Z.eqb_neq (zlen (x :: l)) 0)) by (rewrite length_cons; lia).
    apply wp_on_links. eapply wp_next; [by apply (clist_last _ _ _ _ Hc)|]. by destruct st.
Qed.

Lemma Forall2_insert_val (vs : gmap Z T) a v l xs :
  a ∉ l → Forall2 (λ p x, vs !! p = Some x) l xs → Forall2 (λ p x, <[a := v]> vs !! p = Some x) l xs.
Proof.
  intros Ha Hf. induction Hf as [|p x l xs Hp Hf IH]; constructor.
  - rewrite lookup_insert_ne by set_solver. done.
  - apply IH. set_solver.
Qed.

Lemma Forall2_delete_val (vs : gmap Z T) a l xs :
  a ∉ l → Forall2 (λ p x, vs !! p = Some x) l xs → Forall2 (λ p x, delete a vs !! p = Some x) l xs.
Proof.
  intros Ha Hf. induction Hf as [|p x l xs Hp Hf IH]; constructor.
  - rewrite lookup_delete_ne by set_solver. done.
  - apply IH. set_solver.
Qed.

(** Nothing outside the nodes of [X] changes. *)
Definition untouched (X : list ptr) st st' : Prop := ∀ y, y ∉ X →
  links st' !! y = links st !! y ∧ vals st' !! y = vals st !! y ∧ sizes st' !! y = sizes st !! y.
Lemma untouched_weaken X Y st st' : (∀ y, y ∈ X → y ∈ Y) → untouched X st st' → untouched Y st st'.
Proof. intros Hs Hu y Hy. apply Hu. auto. Qed.
Lemma untouched_trans X st1 st2 st3 : untouched X st1 st2 → untouched X st2 st3 → untouched X st1 st3.
Proof. intros H1 H2 y Hy. destruct (H1 y Hy) as (? & ? & ?), (H2 y Hy) as (? & ? & ?). split_and!; congruence. Qed.
Lemma lrep_frame X st st' s l xs : untouched X st st' → (∀ x, x ∈ s :: l → x ∉ X) → lrep st s l xs → lrep st' s l xs.
Proof.
  intros Hu Hx (Hc & Hs & Hb & Hv). split_and!; [|by rewrite (proj2 (proj2 (Hu s (Hx s ltac:(left)))))|done|].
  - destruct Hc as [Hnd Hp]. split; [done|]. apply (path_frame (links st)); [| |done]; intros x ?; unfold nx, pv;
      rewrite (proj1 (Hu x (Hx x ltac:(set_solver)))); done.
  - clear Hc Hs Hb. induction Hv as [|p x l xs Hp Hv IH]; constructor.
    + by rewrite (proj1 (proj2 (Hu p (Hx p ltac:(set_solver))))).
    + apply IH. intros y Hy. apply Hx. set_solver.
Qed.

Lemma wp_list_emplace st s l1 l2 xs1 xs2 v a (Q : ptr → lstate T → Prop) :
  lrep st s (l1 ++ l2) (xs1 ++ xs2) → length l1 = length xs1 → links st !! a = None →
  zlen (l1 ++ l2) + 1 < 2 ^ 32 →
  (∀ st', lrep st' s (l1 ++ a :: l2) (xs1 ++ v :: xs2) → untouched (a :: s :: l1 ++ l2) st st' → Q a st') →
  wp (list_emplace s (at_iter s l2) v a) Q st.
Proof.
  intros (Hc & Hs & _ & Hv) Hlen Ha Hb HQ.
  pose proof (clist_to_iter _ _ _ _ Hc) as Hr.
  destruct (pv (links st) (at_iter s l2)) as [z|] eqn:Hz.
  2:{ by rewrite (path_pv _ _ _ _ (proj2 Hr)) in Hz. }
  destruct (link_fresh _ _ _ a Hr Ha z Hz) as (Hl1 & Hl2 & Hc' & Hout).
  assert (Hnin : a ∉ l1 ++ l2).
  { intros Hin. destruct (clist_live _ _ _ _ Hc (list_elem_of_further _ _ _ Hin)) as [? ?]. congruence. }
  unfold list_emplace. apply wp_bind, wp_on_links. eapply wp_prev; [exact Hz|].
  apply wp_bind, wp_get, wp_bind, wp_put. cbn [links vals sizes].
  apply wp_bind, wp_on_links, wp_set_prev; [done|]. cbn [links vals sizes].
  apply wp_bind, wp_on_links, wp_set_next; [by apply live_upd_prev|]. cbn [links vals sizes].
  apply wp_bind. eapply wp_get_size; [done|]. apply wp_bind, wp_set_size, wp_ret. apply HQ.
  2:{ intros y Hy. cbn [links vals sizes]. split; [|split].
      - apply Hout. intros [->|Hin%elem_of_around]%elem_of_cons; set_solver.
      - apply lookup_insert_ne. set_solver.
      - apply lookup_insert_ne. set_solver. }
  cbn [links vals sizes]. rewrite length_app in *. split_and!; simpl.
  - apply (clist_from_iter _ _ l1 [a] l2) in Hc'. done.
  - rewrite lookup_insert_eq, wrap_small by lia. rewrite length_app. simpl. f_equal. lia.
  - rewrite length_app. simpl. lia.
  - apply Forall2_app_inv in Hv as [Hv1 Hv2]; [|done]. rewrite elem_of_app in Hnin.
    apply Forall2_app; [apply Forall2_insert_val; tauto|]. constructor; [by rewrite lookup_insert_eq|].
    apply Forall2_insert_val; tauto.
Qed.

Lemma wp_list_erase st s l1 p l2 xs1 x xs2 (Q : ptr → lstate T → Prop) :
  lrep st s (l1 ++ p :: l2) (xs1 ++ x :: xs2) → length l1 = length xs1 →
  (∀ st', lrep st' s (l1 ++ l2) (xs1 ++ xs2) → untouched (s :: l1 ++ p :: l2) st st' → Q (at_iter s l2) st') →
  wp (list_erase s p) Q st.
Proof.
  intros (Hc & Hs & Hb & Hv) Hlen HQ.
  destruct (pv (links st) p) as [z|] eqn:Hz.
  2:{ pose proof (clist_rotate _ _ _ _ _ Hc) as Hr. by rewrite (path_pv _ _ _ _ (proj2 Hr)) in Hz. }
  destruct (unlink_free _ _ _ _ _ Hc z Hz) as (Hn & Hla & Hlz & Hpz & Hc' & Hout).
  pose proof Hc as [[_ (_ & Hd & [Hp2 _]%NoDup_cons)%NoDup_app]%NoDup_cons _].
  assert (Hp1 : p ∉ l1) by (intros Hin; apply (Hd p Hin); left).
  unfold list_erase. apply wp_bind, wp_on_links. eapply wp_next; [exact Hn|].
  apply wp_bind, wp_on_links. eapply wp_prev; [exact Hz|].
  apply wp_bind, wp_on_links, wp_set_prev; [done|]. cbn [links vals sizes].
  apply wp_bind, wp_on_links. eapply wp_prev; [exact Hpz|]. cbn [links vals sizes].
  apply wp_bind, wp_on_links, wp_set_next; [done|]. cbn [links vals sizes].
  apply wp_bind, wp_get, wp_bind, wp_put. cbn [links vals sizes].
  apply wp_bind. eapply wp_get_size; [done|]. apply wp_bind, wp_set_size, wp_ret. apply HQ.
  2:{ intros y Hy. cbn [links vals sizes]. split; [by apply Hout|]. split.
      - apply lookup_delete_ne. set_solver.
      - apply lookup_insert_ne. set_solver. }
  cbn [links vals sizes]. rewrite !length_app in *. simpl in *. split_and!; simpl.
  - done.
  - rewrite lookup_insert_eq, wrap_small by lia. rewrite length_app. f_equal. lia.
  - rewrite length_app. lia.
  - apply Forall2_app_inv in Hv as [Hv1 Hv2]; [|done]. apply Forall2_cons in Hv2 as [_ Hv2].
    by apply Forall2_app; apply Forall2_delete_val.
Qed.

Lemma lrep_length st s l xs : lrep st s l xs → length l = length xs.
Proof. intros (_ & _ & _ & Hv). by eapply Forall2_length. Qed.

Lemma list_clear_loop_spec fuel st s l xs (Q : unit → lstate T → Prop) :
  lrep st s l xs → (length l < fuel)%nat → (∀ st', lrep st' s [] [] → untouched (s :: l) st st' → Q tt st') →
  wp (list_clear_loop fuel s (at_iter s l)) Q st.
Proof.
  revert st l xs. induction fuel as [|fuel IH]; intros st l xs Hr Hf HQ; [lia|]. cbn [list_clear_loop].
  pose proof (lrep_length _ _ _ _ Hr) as Hlen.
  destruct l as [|p l], xs as [|x xs]; try done; simpl in *.
  - rewrite bool_decide_true by done. apply wp_ret. by apply HQ.
  - rewrite bool_decide_false.
    2:{ intros Heq. destruct Hr as ([[Hn _]%NoDup_cons _] & _). apply Hn.
        unfold at_iter, list_end in Heq. simpl in Heq. rewrite Heq. left. }
    apply wp_bind. apply (wp_list_erase st s [] p l [] x xs _ Hr eq_refl).
    intros st' Hr' Hu. apply (IH st' l xs); [done|lia|]. intros st2 Hr2 Hu2. apply HQ; [done|].
    eapply untouched_trans; [exact Hu|]. eapply untouched_weaken; [|exact Hu2]. set_solver.
Qed.

(** A history of modifications of one list; the address of each new node
    is the allocator's. *)
Inductive lop :=
| LPushBack (v : T) (a : ptr)
| LPushFront (v : T) (a : ptr)
| LPopBack
| LPopFront
| LClear.

Definition run_lop s (o : lop) : M (lstate T) unit :=
  match o with
  | LPushBack v a => _ ← emplace_back s v a; mret tt
  | LPushFront v a => _ ← emplace_front s v a; mret tt
  | LPopBack => _ ← pop_back s; mret tt
  | LPopFront => _ ← pop_front s; mret tt
  | LClear => list_clear s
  end.

Definition spec_lop (o : lop) (xs : list T) : list T :=
  match o with
  | LPushBack v _ => xs ++ [v]
  | LPushFront v _ => v :: xs
  | LPopBack => take (length xs - 1) xs
  | LPopFront => drop 1 xs
  | LClear => []
  end.

(** Pops need an element, pushes a fresh address and room in [_size]. *)
Definition lop_ok st (o : lop) xs : Prop :=
  match o with
  | LPushBack _ a | LPushFront _ a => links st !! a = None ∧ zlen xs + 1 < 2 ^ 32
  | LPopBack | LPopFront => xs ≠ []
  | LClear => True
  end.

Lemma run_lop_spec st s xs o :
  (∃ l, lrep st s l xs) → lop_ok st o xs →
  wp (run_lop s o) (λ _ st', ∃ l, lrep st' s l (spec_lop o xs)) st.
Proof.
  intros [l Hr] Ho. pose proof (lrep_length _ _ _ _ Hr) as Hlen.
  destruct o as [v a|v a| | |]; simpl in *; try apply wp_bind.
  - destruct Ho as [Ha Hb].
    apply (wp_list_emplace st s l [] xs [] v a); rewrite ?app_nil_r; [done..|lia|].
    intros st' Hr' _. apply wp_ret. eauto.
  - destruct Ho as [Ha Hb]. unfold emplace_front. apply wp_bind. eapply wp_list_begin; [done|].
    apply (wp_list_emplace st s [] l [] xs v a); [done..|simpl; lia|].
    intros st' Hr' _. apply wp_ret. eauto.
  - destruct xs as [|x xs _] using rev_ind; [done|]. rewrite length_app in Hlen. simpl in Hlen.
    destruct l as [|p l _] using rev_ind; [simpl in Hlen; lia|]. rewrite length_app in Hlen. simpl in Hlen.
    unfold pop_back, list_end. apply wp_bind, wp_on_links. eapply wp_prev.
    { rewrite (path_pv _ _ _ _ (proj2 (proj1 Hr))), last_snoc. done. }
    destruct st as [h vs szs]. cbn [links vals sizes].
    apply (wp_list_erase _ s l p [] xs x []); [done|lia|].
    intros st' Hr' _. apply wp_ret. exists l. rewrite !app_nil_r in Hr'.
    rewrite length_app. simpl. replace (length xs + 1 - 1)%nat with (length xs) by lia.
    by rewrite take_app_length.
  - destruct xs as [|x xs]; [done|]. destruct l as [|p l]; [done|]. unfold pop_front.
    apply wp_bind. eapply wp_list_begin; [done|].
    apply (wp_list_erase st s [] p l [] x xs _ Hr eq_refl). intros st' Hr' _. apply wp_ret. eauto.
  - unfold list_clear. apply wp_bind. eapply wp_get_size; [apply Hr|]. apply wp_bind.
    eapply wp_list_begin; [done|]. eapply list_clear_loop_spec; [done|lia|]. eauto.
Qed.
End contents.

Fixpoint run_lops {T} (s : ptr) (os : list (lop (T := T))) : M (lstate T) unit :=
  match os with
  | [] => mret tt
  | o :: os => _ ← run_lop s o; run_lops s os
  end.

(** The side conditions along a history. *)
Fixpoint lops_ok {T} (s : ptr) (os : list (lop (T := T))) (st : lstate T) (xs : list T) : Prop :=
  match os with
  | [] => True
  | o :: os =>
    lop_ok st o xs ∧ ∀ st', run_lop s o st = Ret (tt, st') → lops_ok s os st' (spec_lop o xs)
  end.

Lemma run_lops_spec {T} s (os : list (lop (T := T))) st xs :
  (∃ l, lrep st s l xs) → lops_ok s os st xs →
  wp (run_lops s os) (λ _ st', ∃ l, lrep st' s l (foldl (λ xs o, spec_lop o xs) xs os)) st.
Proof.
  revert st xs. induction os as [|o os IH]; intros st xs Hr Hok.
  - by apply wp_ret.
  - destruct Hok as [Ho Hok]. cbn [run_lops]. apply wp_bind.
    destruct (proj1 (wp_run _ _ _) (run_lop_spec st s xs o Hr Ho)) as ([] & st' & Heq & Hr').
    apply wp_run. exists tt, st'. split; [done|]. apply IH; auto.
Qed.

Lemma list_ctor_rep {T} s (st : lstate T) :
  wp (list_ctor s) (λ _ st', lrep st' s [] []) st.
Proof.
  unfold list_ctor. apply wp_bind, wp_get, wp_put. split_and!; simpl; [|by rewrite lookup_insert_eq|done|done].
  apply clist_nil. unfold nx, pv. by rewrite lookup_insert_eq.
Qed.

(** C27: [nonstd::list] implements a sequence: from a constructed list,
    every history of [push_back], [push_front], [pop_back], [pop_front]
    and [clear] completes, the ring of nodes then holds the sequence the
    history denotes, in both directions, and [size()] is its length. *)
Theorem nonstd_list_refines {T} s (os : list (lop (T := T))) st0 :
  (∀ st, list_ctor s st0 = Ret (tt, st) → lops_ok s os st []) →
  wp (_ ← list_ctor s; _ ← run_lops s os; list_size s)
     (λ n st', let xs := foldl (λ xs o, spec_lop o xs) [] os in
        n = zlen xs ∧ ∃ l, clist (links st') s l ∧ Forall2 (λ p x, vals st' !! p = Some x) l xs) st0.
Proof.
  intros Hok. apply wp_bind.
  destruct (proj1 (wp_run _ _ _) (list_ctor_rep s st0)) as ([] & st & Heq & Hr).
  apply wp_run. exists tt, st. split; [done|]. apply wp_bind.
  eapply wp_mono; [apply run_lops_spec; [by exists []|by apply Hok]|].
  intros _ st' [l Hr']. unfold list_size. eapply wp_get_size; [apply Hr'|].
  rewrite (lrep_length _ _ _ _ Hr'). cbv zeta. split; [done|]. exists l.
  split; [apply Hr'|]. by destruct Hr' as (_ & _ & _ & ?).
Qed.

Definition demo_lops : list (lop (T := Z)) :=
  [LPushBack 5 10; LPushFront 4 11; LPushBack 6 12; LPopFront; LPushFront 7 13; LPopBack].

Lemma nonstd_list_refines_witness :
  wp (_ ← list_ctor 1; _ ← run_lops 1 demo_lops; list_size 1)
     (λ n st', n = 2 ∧ ∃ l, clist (links st') 1 l ∧ Forall2 (λ p x, vals st' !! p = Some x) l [7; 5])
     (LState ∅ ∅ ∅).
Proof.
  apply (nonstd_list_refines 1 demo_lops (LState ∅ ∅ ∅)).
  intros st Heq. vm_compute in Heq. injection Heq as <-.
  repeat (split; [vm_compute; done|]; intros ? Heq; vm_compute in Heq; injection Heq as <-). done.
Defined.

(** Two lists over disjoint rings. *)
Lemma wp_move_assign {T} (st : lstate T) s1 l1 xs1 s2 l2 xs2 :
  lrep st s1 l1 xs1 → lrep st s2 l2 xs2 → s2 ∉ s1 :: l1 →
  wp (move_assign s1 s2) (λ _ st', lrep st' s1 l2 xs2 ∧ lrep st' s2 l1 xs1 ∧ untouched ((s1 :: l1) ++ s2 :: l2) st st') st.
Proof.
  intros (Hc1 & Hs1 & Hb1 & Hv1) (Hc2 & Hs2 & Hb2 & Hv2) Hnin.
  assert (s1 ≠ s2) by (intros ->; apply Hnin; left).
  unfold move_assign, swap_size. apply wp_bind, wp_bind. eapply wp_get_size; [done|].
  apply wp_bind. eapply wp_get_size; [done|]. apply wp_bind, wp_set_size, wp_set_size.
  cbn [links vals sizes]. apply wp_on_links. cbn [links vals sizes].
  eapply wp_mono; [by apply (move_ring _ s1 l1 s2 l2)|].
  intros _ h' (Hc1' & Hc2' & [_ Hout]). split; [|split]; [split_and!; simpl; [done| |done|done]..|].
  - rewrite lookup_insert_ne, lookup_insert_eq, wrap_small by (done || lia). done.
  - rewrite lookup_insert_eq, wrap_small by lia. done.
  - intros y Hy. split; [by apply Hout|]. split; [done|]. cbn [sizes]. rewrite !lookup_insert_ne by set_solver. done.
Qed.

(** Move assignment exchanges the contents of two lists, whichever
    of them are empty (an empty list's sentinel points to itself and is
    re-linked by the same swaps). *)
Theorem move_assign_swaps {T} (st : lstate T) s1 l1 xs1 s2 l2 xs2 :
  lrep st s1 l1 xs1 → lrep st s2 l2 xs2 → s2 ∉ s1 :: l1 →
  ∃ st', move_assign s1 s2 st = Ret (tt, st') ∧ lrep st' s1 l2 xs2 ∧ lrep st' s2 l1 xs1.
Proof.
  intros H1 H2 Hn. destruct (proj1 (wp_run _ _ _) (wp_move_assign st s1 l1 xs1 s2 l2 xs2 H1 H2 Hn))
    as ([] & st' & ? & ? & ? & _). by exists st'.
Qed.

(** An empty list at 1 and the list [10; 20] at 2. *)
Definition demo_lists : lstate Z :=
  LState {[1 := ListHead 1 1; 2 := ListHead 3 4; 3 := ListHead 4 2; 4 := ListHead 2 3]}
         {[3 := 10; 4 := 20]} {[1 := 0; 2 := 2]}.

Lemma demo_lists_rep : lrep demo_lists 1 [] [] ∧ lrep demo_lists 2 [3; 4] [10; 20].
Proof.
  split; (split_and!; [split; [apply (bool_decide_unpack _); vm_compute; done|]|done|done|]).
  - split; done.
  - constructor.
  - repeat split.
  - repeat constructor.
Qed.

Lemma move_assign_swaps_witness :
  ∃ st', move_assign 1 2 demo_lists = Ret (tt, st') ∧ lrep st' 1 [3; 4] [10; 20] ∧ lrep st' 2 [] [].
Proof.
  apply (move_assign_swaps demo_lists 1 [] [] 2 [3; 4] [10; 20]); [apply demo_lists_rep..|].
  apply (bool_decide_unpack _). vm_compute. done.
Defined.

(** [splice_impl] moves the nodes [f :: seg] of another list in front of
    [pos] without touching their values, and updates both sizes. *)
Lemma wp_splice_impl {T} (st : lstate T) s l1 l2 xs1 xs2 o m1 f seg m2 ys1 zs ys2 :
  lrep st s (l1 ++ l2) (xs1 ++ xs2) → length l1 = length xs1 →
  lrep st o (m1 ++ (f :: seg) ++ m2) (ys1 ++ zs ++ ys2) → length m1 = length ys1 → length (f :: seg) = length zs →
  s ∉ o :: m1 ++ (f :: seg) ++ m2 → zlen (l1 ++ l2) + zlen (f :: seg) < 2 ^ 32 →
  wp (splice_impl s (at_iter s l2) o f (at_iter o m2) (zlen (f :: seg))) (λ _ st',
    lrep st' s (l1 ++ (f :: seg) ++ l2) (xs1 ++ zs ++ xs2) ∧ lrep st' o (m1 ++ m2) (ys1 ++ ys2)) st.
Proof.
  intros (Hc & Hs & Hb & Hv) Hlen (Hd & Ho & Hbo & Hvo) Hleno Hlenz Hnin Hbound.
  pose proof (clist_disjoint _ _ _ _ _ Hd Hc Hnin) as Hdisj.
  assert (o ≠ s) by (intros ->; apply Hnin; left).
  assert (Hx : clist (links st) (at_iter s l2) (around s l1 l2)) by (by apply clist_to_iter).
  assert (Haro : around o (m1 ++ f :: seg) m2 = around o m1 m2 ++ f :: seg)
    by (destruct m2; simpl; [done|by rewrite <- app_assoc]).
  assert (Hy : clist (links st) (at_iter o m2) (around o m1 m2 ++ f :: seg)).
  { rewrite <- Haro. apply clist_to_iter. by rewrite <- app_assoc. }
  apply Forall2_app_inv in Hv as [Hv1 Hv2]; [|done].
  apply Forall2_app_inv in Hvo as [Hvo1 Hvo2]; [|done]. apply Forall2_app_inv in Hvo2 as [Hvz Hvo2]; [|done].
  destruct st as [h vs szs]. cbn [links vals sizes] in *.
  unfold splice_impl. apply wp_bind, wp_on_links. cbn [links vals sizes].
  eapply wp_mono; [apply (splice_ring h _ (around s l1 l2) _ (around o m1 m2) f seg); [done|done|]|].
  { rewrite <- Haro. intros Hin. rewrite elem_of_around, <- app_assoc in Hin.
    apply (Hdisj _ Hin). rewrite <- elem_of_around. left. }
  intros _ h' (Hx' & Hy' & _). apply (clist_from_iter _ _ l1 (f :: seg) l2) in Hx'.
  rewrite <- (app_nil_r (around o m1 m2)) in Hy'. apply (clist_from_iter _ _ m1 [] m2) in Hy'.
  rewrite !length_app in *. cbn [length app] in *.
  apply wp_bind. eapply wp_get_size; [done|]. apply wp_bind, wp_set_size, wp_bind. cbn [links vals sizes].
  eapply wp_get_size; [simpl; rewrite lookup_insert_ne by done; done|]. apply wp_set_size.
  cbn [links vals sizes]. split; (split_and!; simpl; [done| |rewrite !length_app; simpl; rewrite ?length_app; lia|]).
  - rewrite lookup_insert_ne, lookup_insert_eq, wrap_small by (done || lia).
    rewrite !length_app. simpl. rewrite length_app. f_equal. lia.
  - apply Forall2_app; [done|]. change (f :: seg ++ l2) with ((f :: seg) ++ l2). by apply Forall2_app.
  - rewrite lookup_insert_eq, wrap_small by lia. rewrite length_app. f_equal. lia.
  - by apply Forall2_app.
Qed.
Lemma iter_succ h s l1 p l2 : clist h s (l1 ++ p :: l2) → nx h p = Some (at_iter s l2).
Proof.
  intros Hc. destruct (pv h p) as [z|] eqn:Hz; [by apply (unlink_free _ _ _ _ _ Hc z Hz)|].
  pose proof (clist_rotate _ _ _ _ _ Hc) as Hr. by rewrite (path_pv _ _ _ _ (proj2 Hr)) in Hz.
Qed.

(** [splice(pos, other, it)] moves the node [it]. *)
Theorem splice_one_moves {T} (st : lstate T) s l1 l2 xs1 xs2 o m1 p m2 ys1 y ys2 :
  lrep st s (l1 ++ l2) (xs1 ++ xs2) → length l1 = length xs1 →
  lrep st o (m1 ++ p :: m2) (ys1 ++ y :: ys2) → length m1 = length ys1 →
  s ∉ o :: m1 ++ p :: m2 → zlen (l1 ++ l2) + 1 < 2 ^ 32 →
  ∃ st', splice_one s (at_iter s l2) o p st = Ret (tt, st') ∧
    lrep st' s (l1 ++ p :: l2) (xs1 ++ y :: xs2) ∧ lrep st' o (m1 ++ m2) (ys1 ++ ys2).
Proof.
  intros Hr Hlen Ho Hleno Hnin Hb.
  assert (Hw : wp (splice_one s (at_iter s l2) o p) (λ _ st',
    lrep st' s (l1 ++ p :: l2) (xs1 ++ y :: xs2) ∧ lrep st' o (m1 ++ m2) (ys1 ++ ys2)) st).
  { unfold splice_one. apply wp_bind, wp_on_links. eapply wp_next; [apply (iter_succ _ _ _ _ _ (proj1 Ho))|].
    destruct st as [h vs szs]. cbn [links vals sizes].
    apply (wp_splice_impl _ s l1 l2 xs1 xs2 o m1 p [] m2 ys1 [y] ys2); done. }
  apply wp_run in Hw as ([] & st' & ? & ?). by exists st'.
Qed.

Lemma splice_one_moves_witness :
  ∃ st', splice_one 1 1 2 3 demo_lists = Ret (tt, st') ∧
    lrep st' 1 [3] [10] ∧ lrep st' 2 [4] [20].
Proof.
  apply (splice_one_moves demo_lists 1 [] [] [] [] 2 [] 3 [4] [] 10 [20]);
    [apply demo_lists_rep|done|apply demo_lists_rep|done| |done].
  apply (bool_decide_unpack _). vm_compute. done.
Defined.
