(* ===== verification/NonstdListCopy.v ===== *)
(** * Copies and ranges of [nonstd::list]

    The rest of [nonstd/list.h]: the [insert] overloads with a count and a
    range, the constructors and assignments made of them, the splice of a
    range, and comparison.  [addrs] are the addresses [allocate(1)] gives,
    in order. *)
From S2P Require Import Prelude IntrusiveList NonstdList.

Section ops.
Context {T : Type}.
Implicit Types (s pos : ptr).
Local Abbreviation L := (M (lstate T)).

(** Iterators: [*it], [++it], [--it]. *)
Definition iter_deref (it : ptr) : L T := st ← getS; liftO (deref (vals st !! it)).
Definition iter_next (it : ptr) : L ptr := on_links (next it).
Definition iter_prev (it : ptr) : L ptr := on_links (prev it).

(** [insert(pos, count, value)]; the result is the first new element, or
    [pos]. *)
Fixpoint insert_count_loop s pos (v : T) (addrs : list ptr) (rv : ptr) : L ptr :=
  match addrs with
  | [] => mret rv
  | a :: addrs =>
    tmp ← list_emplace s pos v a;
    insert_count_loop s pos v addrs (if bool_decide (rv = pos) then tmp else rv)
  end.
Definition insert_count s pos (v : T) (addrs : list ptr) : L ptr := insert_count_loop s pos v addrs pos.

(** [insert(pos, first, last)] with iterators of another list *)
Fixpoint insert_range_loop s pos (first last : ptr) (addrs : list ptr) (rv : ptr) : L ptr :=
  if bool_decide (first = last) then mret rv
  else
    match addrs with
    | [] => halt OutOfFuel
    | a :: addrs =>
      v ← iter_deref first;
      nx ← iter_next first;
      tmp ← list_emplace s pos v a;
      insert_range_loop s pos nx last addrs (if bool_decide (rv = pos) then tmp else rv)
    end.
Definition insert_range s pos (first last : ptr) (addrs : list ptr) : L ptr := insert_range_loop s pos first last addrs pos.

Definition fill_ctor s (v : T) (addrs : list ptr) : L unit :=
  _ ← list_ctor s; _ ← insert_count s (list_end s) v addrs; mret tt.
Definition copy_ctor s other (addrs : list ptr) : L unit :=
  _ ← list_ctor s;
  b ← list_begin other;
  _ ← insert_range s (list_end s) b (list_end other) addrs;
  mret tt.
Definition move_ctor s other : L unit := _ ← list_ctor s; move_assign s other.
Definition list_dtor s : L unit := list_clear s.
(** [*this = list(other)]: the temporary at [tmp] takes what [s] held, and
    is destroyed. *)
Definition copy_assign s other (tmp : ptr) (addrs : list ptr) : L unit :=
  _ ← copy_ctor tmp other addrs;
  _ ← move_assign s tmp;
  list_dtor tmp.

(** [std::distance], [splice(pos, other, first, last)] *)
Fixpoint list_distance (fuel : nat) (first last : ptr) (n : Z) : L Z :=
  match fuel with
  | O => halt OutOfFuel
  | S fuel =>
    if bool_decide (first = last) then mret n
    else nx ← iter_next first; list_distance fuel nx last (n + 1)
  end.
Definition splice_range (fuel : nat) s pos other (first last : ptr) : L unit :=
  n ← list_distance fuel first last 0; splice_impl s pos other first last n.

(** [std::equal] over two lists, [operator==] *)
Context `{EqDecision T}.
Fixpoint equal_loop (fuel : nat) (f1 l1 f2 l2 : ptr) : L bool :=
  match fuel with
  | O => halt OutOfFuel
  | S fuel =>
    if bool_decide (f1 = l1) || bool_decide (f2 = l2) then mret (bool_decide (f1 = l1) && bool_decide (f2 = l2))
    else
      x ← iter_deref f1; y ← iter_deref f2;
      if negb (bool_decide (x = y)) then mret false
      else n1 ← iter_next f1; n2 ← iter_next f2; equal_loop fuel n1 l1 n2 l2
  end.
Definition list_eq s s' : L bool :=
  n ← list_size s; m ← list_size s';
  if negb (n =? m) then mret false
  else b1 ← list_begin s; b2 ← list_begin s'; equal_loop (S (Z.to_nat n)) b1 (list_end s) b2 (list_end s').
End ops.

Section proofs.
Context {T : Type}.
Implicit Types (st : lstate T) (l m : list ptr) (xs ys : list T).

(** Reading and moving along a list *)
Lemma wp_iter_next st s l1 p l2 xs (Q : ptr → lstate T → Prop) : lrep st s (l1 ++ p :: l2) xs →
  Q (at_iter s l2) st → wp (iter_next p) Q st.
Proof.
  intros (Hc & _) HQ. unfold iter_next. apply wp_on_links. eapply wp_next; [|by destruct st].
  by apply (iter_succ _ _ _ _ _ Hc).
Qed.
Lemma wp_iter_deref st s l1 p l2 xs1 x xs2 (Q : T → lstate T → Prop) : lrep st s (l1 ++ p :: l2) (xs1 ++ x :: xs2) →
  length l1 = length xs1 → Q x st → wp (iter_deref p) Q st.
Proof.
  intros (_ & _ & _ & Hv) Hlen HQ. apply Forall2_app_inv in Hv as [_ Hv]; [|done]. apply Forall2_cons in Hv as [Hp _].
  unfold iter_deref. apply wp_bind, wp_get. by eapply wp_deref.
Qed.
Lemma end_not_in st s l1 p l2 xs : lrep st s (l1 ++ p :: l2) xs → p ≠ s.
Proof. intros ([[Hn _]%NoDup_cons _] & _) ->. apply Hn. set_solver. Qed.

(** The nodes at [addrs] do not exist yet. *)
Definition fresh_nodes st (addrs : list ptr) : Prop := NoDup addrs ∧ Forall (λ a, links st !! a = None) addrs.
Lemma fresh_nodes_next st st' a addrs s l : fresh_nodes st (a :: addrs) → (∀ x, x ∈ s :: l → live (links st) x) →
  untouched (a :: s :: l) st st' → fresh_nodes st' addrs.
Proof.
  intros [[Hn Hnd]%NoDup_cons [Ha Hf]%Forall_cons] Hlive Hu. split; [done|]. apply Forall_forall. intros b Hb.
  eapply Forall_forall in Hf; [|exact Hb]. destruct (Hu b) as [-> _]; [|done].
  intros [->|Hin]%elem_of_cons; [done|]. destruct (Hlive b Hin). congruence.
Qed.
Lemma lrep_live st s l xs x : lrep st s l xs → x ∈ s :: l → live (links st) x.
Proof. intros (Hc & _). by apply clist_live. Qed.

Lemma fresh_not_iter st s l1 l2 xs a : lrep st s (l1 ++ l2) xs → links st !! a = None → a ≠ at_iter s l2.
Proof.
  intros Hr Ha ->. destruct (lrep_live _ _ _ _ (at_iter s l2) Hr) as [? Hy]; [|congruence].
  destruct l2; unfold at_iter; simpl; set_solver.
Qed.
Lemma snoc_assoc {A} (u w : list A) (y : A) : u ++ y :: w = (u ++ [y]) ++ w.
Proof. by rewrite <- app_assoc. Qed.
Lemma next_result a b (rv pos : ptr) : a ≠ pos →
  (if bool_decide ((if bool_decide (rv = pos) then a else rv) = pos) then b else (if bool_decide (rv = pos) then a else rv)) =
  (if bool_decide (rv = pos) then a else rv).
Proof. intros Ha. repeat case_bool_decide; congruence. Qed.

Lemma wp_insert_count st s l1 l2 xs1 xs2 v addrs (Q : ptr → lstate T → Prop) : ∀ rv,
  lrep st s (l1 ++ l2) (xs1 ++ xs2) → length l1 = length xs1 → fresh_nodes st addrs →
  zlen (l1 ++ l2) + zlen addrs < 2 ^ 32 →
  (∀ st', lrep st' s (l1 ++ addrs ++ l2) (xs1 ++ replicate (length addrs) v ++ xs2) →
    Q (if bool_decide (rv = at_iter s l2) then at_iter s (addrs ++ l2) else rv) st') →
  wp (insert_count_loop s (at_iter s l2) v addrs rv) Q st.
Proof.
  revert st l1 xs1. induction addrs as [|a addrs IH]; intros st l1 xs1 rv Hr Hlen Hf Hb HQ; cbn [insert_count_loop].
  { apply wp_ret. simpl in HQ. case_bool_decide as Hd; [rewrite Hd|]; by apply HQ. }
  apply wp_bind. pose proof Hf as [_ [Ha _]%Forall_cons]. cbn [length] in *. rewrite length_app in Hb.
  eapply wp_list_emplace; [exact Hr|done|done|rewrite length_app; lia|]. intros st1 Hr1 Hu.
  rewrite (snoc_assoc l1 l2 a), (snoc_assoc xs1 xs2 v) in Hr1.
  eapply IH; [exact Hr1|rewrite !length_app; simpl; lia| |rewrite !length_app; simpl; lia|].
  { eapply fresh_nodes_next; [exact Hf| |exact Hu]. intros x. by eapply lrep_live. }
  intros st' Hr'. rewrite <- !app_assoc in Hr'. rewrite next_result by (exact (fresh_not_iter st s l1 l2 _ a Hr Ha)). by apply HQ.
Qed.

(** The values of the range [m2] of another list are inserted in order; the
    other list keeps its nodes and values. *)
Lemma wp_insert_range st s l1 l2 xs1 xs2 o m1 m2 m3 ys1 ys2 ys3 addrs (Q : ptr → lstate T → Prop) : ∀ rv,
  lrep st s (l1 ++ l2) (xs1 ++ xs2) → length l1 = length xs1 →
  lrep st o (m1 ++ m2 ++ m3) (ys1 ++ ys2 ++ ys3) → length m1 = length ys1 → length m2 = length ys2 →
  (∀ x, x ∈ o :: m1 ++ m2 ++ m3 → x ∉ s :: l1 ++ l2) → fresh_nodes st addrs → length addrs = length m2 →
  zlen (l1 ++ l2) + zlen addrs < 2 ^ 32 →
  (∀ st', lrep st' s (l1 ++ addrs ++ l2) (xs1 ++ ys2 ++ xs2) → lrep st' o (m1 ++ m2 ++ m3) (ys1 ++ ys2 ++ ys3) →
    untouched (addrs ++ s :: l1 ++ l2) st st' →
    Q (if bool_decide (rv = at_iter s l2) then at_iter s (addrs ++ l2) else rv) st') →
  wp (insert_range_loop s (at_iter s l2) (at_iter o (m2 ++ m3)) (at_iter o m3) addrs rv) Q st.
Proof.
  revert st l1 xs1 m1 m2 ys1 ys2. induction addrs as [|a addrs IH];
    intros st l1 xs1 m1 m2 ys1 ys2 rv Hr Hlen Ho Hm1 Hm2 Hdis Hf Hla Hb HQ.
  { destruct m2, ys2; try done. cbn [insert_range_loop app]. rewrite bool_decide_true by done. apply wp_ret. simpl in HQ.
    case_bool_decide as Hd; [rewrite Hd|]; by apply HQ. }
  destruct m2 as [|p m2]; [done|]. destruct ys2 as [|y ys2]; [done|]. cbn [app] in *.
  assert (Hpn : at_iter o (p :: m2 ++ m3) ≠ at_iter o m3).
  { unfold at_iter. simpl. destruct m3 as [|q m3]; simpl; [by eapply end_not_in|]. intros ->.
    destruct Ho as ([[_ (_ & _ & [Hn _]%NoDup_cons)%NoDup_app]%NoDup_cons _] & _). apply Hn. set_solver. }
  cbn [insert_range_loop]. rewrite bool_decide_false by done. unfold at_iter at 2. cbn [head default].
  apply wp_bind. eapply wp_iter_deref; [exact Ho|done|]. apply wp_bind. eapply wp_iter_next; [exact Ho|]. apply wp_bind.
  pose proof Hf as [_ [Ha _]%Forall_cons]. cbn [length] in *. rewrite length_app in Hb.
  eapply wp_list_emplace; [exact Hr|done|done|rewrite length_app; lia|]. intros st1 Hr1 Hu.
  assert (Hdis1 : ∀ x, x ∈ o :: m1 ++ p :: m2 ++ m3 → x ∉ a :: s :: l1 ++ l2).
  { intros x Hx [->|Hin]%elem_of_cons; [|by apply (Hdis x)]. destruct (lrep_live _ _ _ _ a Ho Hx). congruence. }
  pose proof (lrep_frame _ _ _ _ _ _ Hu Hdis1 Ho) as Ho1.
  rewrite (snoc_assoc l1 l2 a), (snoc_assoc xs1 xs2 y) in Hr1. rewrite (snoc_assoc m1 _ p), (snoc_assoc ys1 _ y) in Ho1.
  eapply IH; [exact Hr1|rewrite !length_app; simpl; lia|exact Ho1|rewrite !length_app; simpl; lia|lia| | |lia|rewrite !length_app; simpl; lia|].
  - intros x Hx. rewrite <- snoc_assoc in Hx. specialize (Hdis1 x Hx). set_solver.
  - eapply fresh_nodes_next; [exact Hf| |exact Hu]. intros x. by eapply lrep_live.
  - intros st' Hr' Ho' Hu'. rewrite <- !app_assoc in Hr', Ho'. rewrite next_result by (exact (fresh_not_iter st s l1 l2 _ a Hr Ha)).
    apply HQ; [done|done|]. eapply untouched_trans; (eapply untouched_weaken; [|eassumption]); set_solver.
Qed.

(** A list object in memory that is not in use *)
Lemma wp_list_ctor st s (Q : unit → lstate T → Prop) : (∀ st', lrep st' s [] [] → untouched [s] st st' → Q tt st') → wp (list_ctor s) Q st.
Proof.
  intros HQ. unfold list_ctor. apply wp_bind, wp_get, wp_put, HQ.
  - split_and!; [|cbn [sizes]; by rewrite lookup_insert_eq|done|constructor]. apply clist_nil. unfold nx, pv. simpl. by rewrite lookup_insert_eq.
  - intros y Hy. simpl. rewrite !lookup_insert_ne by set_solver. done.
Qed.

Lemma fresh_apart st s l xs tmp addrs x : lrep st s l xs → fresh_nodes st addrs → tmp ∉ s :: l → x ∈ s :: l → x ∉ tmp :: addrs.
Proof.
  intros Hr [_ Hf] Ht Hx [->|Hin]%elem_of_cons; [done|]. destruct (lrep_live _ _ _ _ x Hr Hx).
  eapply Forall_forall in Hf; [|exact Hin]. simpl in Hf. congruence.
Qed.

Lemma wp_copy_ctor st s o m ys addrs (Q : unit → lstate T → Prop) : lrep st o m ys → s ∉ o :: m → s ∉ addrs →
  fresh_nodes st addrs → length addrs = length m →
  (∀ st', lrep st' s addrs ys → lrep st' o m ys → untouched (s :: addrs) st st' → Q tt st') → wp (copy_ctor s o addrs) Q st.
Proof.
  intros Ho Hs Hsa Hf Hla HQ. unfold copy_ctor. apply wp_bind, wp_list_ctor. intros st1 Hr1 Hu1.
  assert (Ho1 : lrep st1 o m ys) by (eapply (lrep_frame _ _ _ _ _ _ Hu1); [set_solver|done]).
  apply wp_bind. eapply wp_list_begin; [exact Ho1|]. apply wp_bind. unfold insert_range, list_end.
  pose proof (lrep_length _ _ _ _ Ho) as Hlen. pose proof Ho as (_ & _ & Hb & _).
  change s with (at_iter s []) at 2 3. change o with (at_iter o []) at 2. rewrite <- (app_nil_r m).
  eapply (wp_insert_range st1 s [] [] [] [] o [] m [] [] ys []); rewrite ?app_nil_r; try done; [set_solver| |simpl; lia|].
  - destruct Hf as [Hnd Hf]. split; [done|]. apply Forall_forall. intros b Hb'. rewrite (proj1 (Hu1 b ltac:(set_solver))).
    by eapply Forall_forall in Hf.
  - cbn [app]. rewrite ?app_nil_r. intros st' Hr' Ho' Hu'. rewrite ?app_nil_r in Hr', Ho'. apply wp_ret. apply HQ; [done|done|].
    eapply untouched_trans; (eapply untouched_weaken; [|eassumption]); set_solver.
Qed.

(** Copy assignment: [s] holds the values of [o] in nodes of its own, [o]
    is as before, and the nodes [s] had are freed with the temporary. *)
Theorem list_copy_assign_copies st s l xs o m ys tmp addrs : lrep st s l xs → lrep st o m ys → s ∉ o :: m →
  tmp ∉ s :: l → tmp ∉ o :: m → tmp ∉ addrs → fresh_nodes st addrs → length addrs = length m →
  wp (copy_assign s o tmp addrs) (λ _ st', lrep st' s addrs ys ∧ lrep st' o m ys ∧ lrep st' tmp [] []) st.
Proof.
  intros Hr Ho Hso Hts Hto Hta Hf Hla. pose proof (clist_disjoint _ _ _ _ _ (proj1 Ho) (proj1 Hr) Hso) as Hdis.
  assert (Has : ∀ x, x ∈ s :: l → x ∉ tmp :: addrs) by (intros x; by apply (fresh_apart st s l xs)).
  assert (Hao : ∀ x, x ∈ o :: m → x ∉ tmp :: addrs) by (intros x; by apply (fresh_apart st o m ys)).
  unfold copy_assign. apply wp_bind. eapply wp_copy_ctor; [exact Ho|done|done|done|done|].
  intros st1 Ht1 Ho1 Hu1. pose proof (lrep_frame _ _ _ _ _ _ Hu1 Has Hr) as Hr1.
  apply wp_bind. eapply wp_mono; [by apply (wp_move_assign st1 s l xs tmp addrs ys Hr1 Ht1)|].
  intros [] st2 (Hs2 & Ht2 & Hu2).
  assert (Ho2 : lrep st2 o m ys).
  { eapply (lrep_frame _ _ _ _ _ _ Hu2); [|done]. intros x Hx [Hin|Hin]%elem_of_app; [by apply (Hdis x)|by apply (Hao x)]. }
  unfold list_dtor, list_clear. apply wp_bind. eapply wp_get_size; [apply Ht2|]. apply wp_bind.
  eapply wp_list_begin; [exact Ht2|]. eapply list_clear_loop_spec; [exact Ht2|lia|]. intros st3 Ht3 Hu3.
  split; [|split; [|done]]; (eapply (lrep_frame _ _ _ _ _ _ Hu3); [|eassumption]); intros x Hx [->|Hin]%elem_of_cons.
  - apply elem_of_cons in Hx as [->|Hx]; [|done]. apply Hts. left.
  - apply elem_of_cons in Hx as [->|Hx]; [by destruct (proj1 Hr) as [[? _]%NoDup_cons _]|].
    apply (Has x); [by right|]. by right.
  - done.
  - apply (Hdis x Hx). by right.
Qed.

(** The splice of a range *)
Lemma wp_list_distance st o m1 seg m2 ys fuel n (Q : Z → lstate T → Prop) : lrep st o (m1 ++ seg ++ m2) ys → (length seg < fuel)%nat →
  Q (n + zlen seg) st → wp (list_distance fuel (at_iter o (seg ++ m2)) (at_iter o m2) n) Q st.
Proof.
  revert m1 n fuel. induction seg as [|p seg IH]; intros m1 n [|fuel] Ho Hf HQ; simpl in Hf; try lia; cbn [list_distance app].
  { rewrite bool_decide_true by done. apply wp_ret. by rewrite Z.add_0_r in HQ. }
  rewrite bool_decide_false.
  - unfold at_iter at 1. cbn [head default]. apply wp_bind. eapply wp_iter_next; [exact Ho|].
    apply (IH (m1 ++ [p])); [|lia|]; [rewrite <- snoc_assoc; exact Ho|].
    rewrite length_cons in HQ. by replace (n + 1 + zlen seg) with (n + Z.of_nat (S (length seg))) by lia.
  - unfold at_iter. simpl. destruct m2 as [|q m2]; simpl; [by eapply end_not_in|]. intros ->.
    destruct Ho as ([[_ (_ & _ & [Hn _]%NoDup_cons)%NoDup_app]%NoDup_cons _] & _). apply Hn. set_solver.
Qed.

Theorem splice_range_moves st s l1 l2 xs1 xs2 o m1 f seg m2 ys1 zs ys2 :
  lrep st s (l1 ++ l2) (xs1 ++ xs2) → length l1 = length xs1 →
  lrep st o (m1 ++ (f :: seg) ++ m2) (ys1 ++ zs ++ ys2) → length m1 = length ys1 → length (f :: seg) = length zs →
  s ∉ o :: m1 ++ (f :: seg) ++ m2 → zlen (l1 ++ l2) + zlen (f :: seg) < 2 ^ 32 →
  wp (splice_range (2 + length seg) s (at_iter s l2) o f (at_iter o m2)) (λ _ st',
    lrep st' s (l1 ++ (f :: seg) ++ l2) (xs1 ++ zs ++ xs2) ∧ lrep st' o (m1 ++ m2) (ys1 ++ ys2)) st.
Proof.
  intros Hr Hlen Ho Hleno Hlenz Hnin Hb. unfold splice_range. apply wp_bind.
  apply (wp_list_distance st o m1 (f :: seg) m2 _ _ 0 _ Ho); [simpl; lia|]. by apply wp_splice_impl.
Qed.

(** [operator==] compares the sequences of values. *)
Lemma wp_equal_loop `{EqDecision T} st s l1 l2 xs1 xs2 o m1 m2 ys1 ys2 fuel (Q : bool → lstate T → Prop) :
  lrep st s (l1 ++ l2) (xs1 ++ xs2) → length l1 = length xs1 → lrep st o (m1 ++ m2) (ys1 ++ ys2) → length m1 = length ys1 →
  (length l2 < fuel)%nat → Q (bool_decide (xs2 = ys2)) st → wp (equal_loop fuel (at_iter s l2) s (at_iter o m2) o) Q st.
Proof.
  revert l1 l2 xs1 xs2 m1 m2 ys1 ys2. induction fuel as [|fuel IH]; intros l1 l2 xs1 xs2 m1 m2 ys1 ys2 Hr Hl Ho Hm Hf HQ; [lia|].
  cbn [equal_loop].
  pose proof (lrep_length _ _ _ _ Hr) as Hlx. pose proof (lrep_length _ _ _ _ Ho) as Hly. rewrite !length_app in *.
  destruct l2 as [|p l2], xs2 as [|x xs2]; cbn [length] in *; try lia; destruct m2 as [|q m2], ys2 as [|y ys2]; cbn [length] in *; try lia.
  - unfold at_iter. simpl. rewrite !bool_decide_true by done. apply wp_ret. by rewrite bool_decide_true in HQ by done.
  - unfold at_iter. simpl. rewrite (bool_decide_true (s = s)) by done. simpl.
    rewrite bool_decide_false by (by eapply end_not_in). apply wp_ret. by rewrite bool_decide_false in HQ by done.
  - unfold at_iter. simpl. rewrite (bool_decide_true (o = o)), orb_true_r, andb_true_r by done.
    rewrite bool_decide_false by (by eapply end_not_in). apply wp_ret. by rewrite bool_decide_false in HQ by done.
  - unfold at_iter. cbn [head default]. rewrite !bool_decide_false by (by eapply end_not_in). cbn [orb].
    apply wp_bind. eapply wp_iter_deref; [exact Hr|done|]. apply wp_bind. eapply wp_iter_deref; [exact Ho|done|].
    destruct (decide (x = y)) as [->|Hne].
    + rewrite bool_decide_true by done. cbn [negb]. apply wp_bind. eapply wp_iter_next; [exact Hr|]. apply wp_bind.
      eapply wp_iter_next; [exact Ho|].
      apply (IH (l1 ++ [p]) l2 (xs1 ++ [y]) xs2 (m1 ++ [q]) m2 (ys1 ++ [y]) ys2);
        rewrite <- ?snoc_assoc, ?length_app; simpl; try done; try lia.
      by rewrite (bool_decide_ext (xs2 = ys2) (y :: xs2 = y :: ys2)) by naive_solver.
    + rewrite bool_decide_false by done. cbn [negb]. apply wp_ret. rewrite bool_decide_false in HQ by naive_solver. done.
Qed.
Theorem list_eq_decides `{EqDecision T} st s l xs o m ys : lrep st s l xs → lrep st o m ys →
  wp (list_eq s o) (λ b st', b = bool_decide (xs = ys) ∧ st' = st) st.
Proof.
  intros Hr Ho. pose proof (lrep_length _ _ _ _ Hr). pose proof (lrep_length _ _ _ _ Ho).
  unfold list_eq, list_size. apply wp_bind. eapply wp_get_size; [apply Hr|]. apply wp_bind. eapply wp_get_size; [apply Ho|].
  destruct (Z.eqb_spec (zlen l) (zlen m)) as [Heq|Hne]; cbn [negb].
  - apply wp_bind. eapply wp_list_begin; [exact Hr|]. apply wp_bind. eapply wp_list_begin; [exact Ho|].
    by apply (wp_equal_loop st s [] l [] xs o [] m [] ys); [done|done|done|done|lia|].
  - apply wp_ret. split; [|done]. rewrite bool_decide_false; [done|]. intros ->. lia.
Qed.
End proofs.

(** Copying [10; 20] over an empty list, and comparing the two *)
Example demo_copy : match (_ ← copy_assign 1 2 9 [5; 6]; list_eq 1 2) demo_lists with
  | Ret (b, st) => b = true ∧ vals st !! 5 = Some 10 ∧ vals st !! 3 = Some 10
  | Halt _ => False
  end.
Proof. vm_compute. done. Qed.
