(* ===== verification/BootProtocol.v ===== *)
(** * boot_protocol.h

    The data the bootloader and the kernel share
    ([src/common/boot_protocol.h]): the E820 memory map entries, the
    sizes of the fixed virtual memory regions, and the boot protocol
    request header. *)
From S2P Require Import Prelude Algorithm.

(** [4 * GB] wraps to 0 in 32-bit [unsigned] arithmetic, which the
    macros rely on. *)
Definition KERNEL_LOAD_ADDR : Z := u32 (u32 (4 * GB) - 32 * MB).
Definition KERNEL_MAP_SZ : Z := u32 (u32 (4 * GB) - KERNEL_LOAD_ADDR).
Definition IO_MAP_SZ : Z := 4 * MB.

Example boot_protocol_static_asserts :
  HUGEPG_ALIGNED KERNEL_LOAD_ADDR = true ∧ HUGEPG_ALIGNED IO_MAP_SZ = true ∧
  KERNEL_LOAD_ADDR = 0xFE000000 ∧ KERNEL_MAP_SZ = 0x2000000.
Proof. done. Qed.

(** [enum e820_mm_type] *)
Definition E820_MM_TYPE_USABLE : Z := 1.
Definition E820_MM_TYPE_RESERVED : Z := 2.
Definition E820_MM_TYPE_ACPI_RECLAIMABLE : Z := 3.
Definition E820_MM_TYPE_ACPI_NVS : Z := 4.
Definition E820_MM_TYPE_BAD_MEM : Z := 5.
Definition E820_MM_TYPE_BOOTLOADER : Z := 6.
Definition E820_MM_TYPE_BOOTLOADER_RECLAIMABLE : Z := 7.

Record e820_mm_entry := E820 {
  ent_base : Z;
  ent_len : Z;
  ent_type : Z;
  ent_acpi : Z }.

#[export] Instance e820_mm_entry_eq_dec : EqDecision e820_mm_entry.
Proof. solve_decision. Defined.

Definition e820_null : e820_mm_entry := E820 0 0 0 0.

(** An all-empty entry indicates the end of an array. *)
Definition e820_entry_present (ent : e820_mm_entry) : bool :=
  negb (ent_base ent =? 0) || negb (ent_len ent =? 0) ||
  negb (ent_type ent =? 0) || negb (ent_acpi ent =? 0).

Definition BP_REQ_MAGIC : Z := 0xF7438B7CA1676C21.
Definition BP_REQ_ALIGN : Z := 8.
Definition BP_REQID_MEMORY_MAP : Z := 1.

(** [ent_end] as the code computes it, in 64 bits. *)
Definition ent_end (ent : e820_mm_entry) : Z := u64 (ent_base ent + ent_len ent).

Definition ent_wf (ent : e820_mm_entry) : Prop :=
  0 ≤ ent_base ent ∧ 0 ≤ ent_len ent ∧ ent_base ent + ent_len ent < 2 ^ 64.

Lemma ent_end_eq ent : ent_wf ent → ent_end ent = ent_base ent + ent_len ent.
Proof. intros (?&?&?). apply wrap_small. lia. Qed.
