(* ===== verification/BootMem.v ===== *)
(** * Bootloader memory map and allocator

    Models the E820 part of [src/boot/page_table.c]: [e820_alloc],
    [e820_augment_bootloader] and
    [augment_bootloader_text_stack_sections].  The array [e820_mem_map]
    is the list of its [e820_mm_max_entries] entries; walking past its
    last entry is a [BadAccess]. *)
From S2P Require Import Prelude Algorithm BootProtocol.

Abbreviation e820_map := (list e820_mm_entry).

(** The loop over the map in [e820_alloc], for one candidate [base]:
    returns [(is_usable, overlaps_unusable)]. *)
Fixpoint e820_scan (mm : e820_map) (base len : Z) (is_usable : bool)
    : outcome (bool * bool) :=
  match mm with
  | [] => Halt BadAccess
  | ent :: mm =>
    if negb (e820_entry_present ent) then Ret (is_usable, false)
    else if ent_type ent =? E820_MM_TYPE_USABLE then
      e820_scan mm base len
        (if (ent_base ent <=? base) && (u32 (base + len) <=? ent_end ent)
         then true else is_usable)
    else if (ent_base ent <=? u32 (base + len)) && (base <=? ent_end ent) then
      Ret (is_usable, true)
    else e820_scan mm base len is_usable
  end.

(** [for (size_t base = incr; base < (1 * GB); base += incr)]; the
    result 0 is [NULL]. *)
Fixpoint e820_alloc_loop (fuel : nat) (mm : e820_map) (len incr base : Z) : outcome Z :=
  match fuel with
  | O => Halt OutOfFuel
  | S fuel =>
    if base <? 1 * GB then
      '(is_usable, overlaps_unusable) ← e820_scan mm base len false;
      if is_usable && negb overlaps_unusable then Ret base
      else e820_alloc_loop fuel mm len incr (u32 (base + incr))
    else Ret 0
  end.

Definition e820_incr (hugepg_align : bool) : Z :=
  if hugepg_align then HUGE_PG_SZ else PG_SZ.

Definition e820_alloc (mm : e820_map) (len : Z) (hugepg_align : bool) : outcome Z :=
  let incr := e820_incr hugepg_align in
  e820_alloc_loop (Z.to_nat (GB / incr)) mm len incr incr.

(** The index of the first absent entry ([for (ent = e820_mem_map;
    e820_entry_present(ent); ++ent);]). *)
Fixpoint e820_end (mm : e820_map) : outcome nat :=
  match mm with
  | [] => Halt BadAccess
  | ent :: mm =>
    if e820_entry_present ent then n ← e820_end mm; Ret (S n) else Ret O
  end.

Definition e820_augment_bootloader (mm : e820_map) (base len type : Z)
    : outcome (bool * e820_map) :=
  i ← e820_end mm;
  if (length mm <=? i + 1)%nat then Ret (false, mm)
  else
    ent ← deref (mm !! i);
    Ret (true, <[i := E820 base len type (ent_acpi ent)]> mm).

(** Helper for the bootloader stack and text regions; [mbr_start] is
    the address of the label in [boot.S]. *)
Definition augment_bootloader_text_stack_sections (mbr_start : Z) (mm : e820_map)
    : outcome (bool * e820_map) :=
  '(ok, mm) ← e820_augment_bootloader mm
     (Z.land (u32 (mbr_start - PG_SZ)) (u32 (Z.lnot 0x0FFF))) PG_SZ
     E820_MM_TYPE_BOOTLOADER;
  if (ok : bool) then
    e820_augment_bootloader mm mbr_start (63 * 0x200)
      E820_MM_TYPE_BOOTLOADER_RECLAIMABLE
  else Ret (false, mm).

(** ** Invariant of the map: present entries, then null entries, at
    least one of them. *)
Definition e820_wf (mm : e820_map) : Prop :=
  ∃ ents k, mm = ents ++ replicate (S k) e820_null ∧
            Forall (λ e, e820_entry_present e = true ∧ ent_wf e) ents.

Definition e820_entries (mm : e820_map) : e820_map :=
  filter (λ e, e820_entry_present e = true) mm.

(** The region is inside a usable entry and does not even touch an
    unusable one. *)
Definition region_free (ents : e820_map) (base len : Z) : Prop :=
  (∃ e, e ∈ ents ∧ ent_type e = E820_MM_TYPE_USABLE ∧
        ent_base e ≤ base ∧ base + len ≤ ent_base e + ent_len e) ∧
  (∀ e, e ∈ ents → ent_type e ≠ E820_MM_TYPE_USABLE →
        base + len < ent_base e ∨ ent_base e + ent_len e < base).

Lemma e820_null_absent : e820_entry_present e820_null = false.
Proof. done. Qed.

Lemma e820_entries_app ents k :
  Forall (λ e, e820_entry_present e = true ∧ ent_wf e) ents →
  e820_entries (ents ++ replicate k e820_null) = ents.
Proof.
  intros Hf. unfold e820_entries. rewrite filter_app.
  replace (filter _ (replicate k e820_null)) with (@nil e820_mm_entry).
  - rewrite app_nil_r. induction Hf as [|e ents [??] _ IH]; [done|].
    rewrite filter_cons_True by done. by rewrite IH.
  - induction k; [done|]. simpl. by rewrite filter_cons_False.
Qed.

Lemma e820_end_spec ents k :
  Forall (λ e, e820_entry_present e = true ∧ ent_wf e) ents →
  e820_end (ents ++ replicate (S k) e820_null) = Ret (length ents).
Proof.
  induction 1 as [|e ents [Hp _] _ IH]; [done|]. simpl in *. by rewrite Hp, IH.
Qed.

(** The scan decides [region_free], for a region below 4GB. *)
Lemma e820_scan_spec ents k base len u :
  Forall (λ e, e820_entry_present e = true ∧ ent_wf e) ents →
  0 ≤ base → 0 ≤ len → base + len < 2 ^ 32 →
  ∃ u' o, e820_scan (ents ++ replicate (S k) e820_null) base len u = Ret (u', o) ∧
    (o = false ↔ ∀ e, e ∈ ents → ent_type e ≠ E820_MM_TYPE_USABLE →
        base + len < ent_base e ∨ ent_base e + ent_len e < base) ∧
    (o = false → u' = true ↔ u = true ∨ ∃ e, e ∈ ents ∧ ent_type e = E820_MM_TYPE_USABLE ∧
        ent_base e ≤ base ∧ base + len ≤ ent_base e + ent_len e).
Proof.
  intros Hf Hb Hl Hbl. revert u. induction Hf as [|e ents [Hp Hwf] _ IH]; intros u;
    cbn [app e820_scan].
  - exists u, false. split_and!; [done|set_solver|]. intros _. split; [tauto|]. set_solver.
  - rewrite Hp, (ent_end_eq _ Hwf), (wrap_small 32) by lia. cbn [negb].
    destruct (Z.eqb_spec (ent_type e) E820_MM_TYPE_USABLE) as [Ht|Ht].
    + destruct (IH (if (ent_base e <=? base) && (base + len <=? ent_base e + ent_len e)
                    then true else u)) as (u' & o & -> & Ho & Hu).
      exists u', o. rewrite forall_elem_cons, exists_elem_cons.
      split_and!; [done|rewrite Ho; tauto|]. intros Hof. rewrite (Hu Hof).
      destruct (Z.leb_spec (ent_base e) base), (Z.leb_spec (base + len) (ent_base e + ent_len e));
        cbn [andb]; (split; [intros [?|?]|intros [?|[?|?]]]; auto; lia).
    + destruct (Z.leb_spec (ent_base e) (base + len)), (Z.leb_spec base (ent_base e + ent_len e));
        cbn [andb].
      { exists u, true. rewrite forall_elem_cons. split_and!; [done| |done]. split; [done|]. intros [He _].
        destruct He; [done|lia..]. }
      all: destruct (IH u) as (u' & o & -> & Ho & Hu); exists u', o;
        rewrite forall_elem_cons, exists_elem_cons;
        split_and!; [done|rewrite Ho; split; [auto with lia|tauto]|];
        intros Hof; rewrite (Hu Hof); tauto.
Qed.

Definition first_fit (ents : e820_map) (len incr base r : Z) : Prop :=
  (r = 0 ∧ ∀ c, base ≤ c < GB → c mod incr = 0 → ¬ region_free ents c len) ∨
  (base ≤ r < GB ∧ r mod incr = 0 ∧ region_free ents r len ∧
   ∀ c, base ≤ c < r → c mod incr = 0 → ¬ region_free ents c len).

(** A multiple of [d] that is not below [b] but below [b + d] is [b]. *)
Lemma mult_next b c d : 0 < d → b mod d = 0 → c mod d = 0 → b ≤ c → c = b ∨ b + d ≤ c.
Proof.
  intros Hd [q ->]%Z.mod_divide [q' ->]%Z.mod_divide Hle; [|lia..].
  apply Z.mul_le_mono_pos_r in Hle; [|done].
  destruct (decide (q = q')) as [->|]; [by left|right].
  replace (q * d + d) with ((q + 1) * d) by lia. apply Z.mul_le_mono_nonneg_r; lia.
Qed.

Lemma first_fit_step ents len incr base r :
  0 < incr → base mod incr = 0 → ¬ region_free ents base len →
  first_fit ents len incr (base + incr) r → first_fit ents len incr base r.
Proof.
  intros Hi Hm Hn [[-> Hc]|(?&?&?&Hc)]; [left|right]; split_and!; try (done || lia);
    intros c Hcr Hcm; destruct (mult_next base c incr) as [->|]; auto; try lia; apply Hc; lia.
Qed.

Lemma region_free_dec_scan ents k base len :
  Forall (λ e, e820_entry_present e = true ∧ ent_wf e) ents →
  0 ≤ base → 0 ≤ len → base + len < 2 ^ 32 →
  ∃ u o, e820_scan (ents ++ replicate (S k) e820_null) base len false = Ret (u, o) ∧
         (u && negb o = true ↔ region_free ents base len).
Proof.
  intros. destruct (e820_scan_spec ents k base len false) as (u & o & -> & Ho & Hu); [done..|].
  exists u, o. split; [done|]. unfold region_free. rewrite <- Ho.
  destruct o; simpl; [rewrite andb_false_r; split; [done|intros [_ [=]]]|].
  rewrite andb_true_r, Hu by done. split; [by intros [[=]|?]|]. intros [? _]. by right.
Qed.

Lemma e820_alloc_loop_spec ents k len incr base fuel :
  Forall (λ e, e820_entry_present e = true ∧ ent_wf e) ents →
  0 ≤ len → GB + len < 2 ^ 32 → 0 < incr ≤ GB → base mod incr = 0 →
  0 < base ≤ GB → base + Z.of_nat fuel * incr = GB + incr →
  ∃ r, e820_alloc_loop fuel (ents ++ replicate (S k) e820_null) len incr base = Ret r ∧
       first_fit ents len incr base r.
Proof.
  intros Hf Hl HGl Hi. change GB with (2 ^ 30) in *. revert base.
  induction fuel as [|fuel IH]; intros base Hmod Hpos Hsum; [lia|].
  cbn [e820_alloc_loop]. change (1 * GB) with (2 ^ 30). destruct (Z.ltb_spec base (2 ^ 30)).
  - destruct (region_free_dec_scan ents k base len) as (u & o & -> & Huo); [done|lia..|].
    munfold. destruct (u && negb o).
    + exists base. split; [done|]. right. change GB with (2 ^ 30).
      split_and!; [lia|lia|done|by apply Huo|lia].
    + assert (base + incr ≤ 2 ^ 30).
      { destruct fuel; [lia|]. rewrite !Nat2Z.inj_succ in Hsum. nia. }
      rewrite wrap_small by lia.
      destruct (IH (base + incr)) as (r & -> & Hr); [|lia..|].
      { rewrite Z.add_mod, Hmod, Z.mod_same by lia. apply Z.mod_0_l. lia. }
      exists r. split; [done|]. apply first_fit_step; [lia|done| |done].
      intros Hrf. by apply Huo in Hrf.
  - exists 0. split; [done|]. left. split; [done|]. change GB with (2 ^ 30). lia.
Qed.

Lemma e820_incr_facts b :
  0 < e820_incr b ≤ GB ∧ e820_incr b + Z.of_nat (Z.to_nat (GB / e820_incr b)) * e820_incr b
  = GB + e820_incr b.
Proof. destruct b; split; vm_compute; done. Qed.

Lemma e820_alloc_spec mm len hugepg_align :
  e820_wf mm → 0 ≤ len → GB + len < 2 ^ 32 →
  ∃ r, e820_alloc mm len hugepg_align = Ret r ∧
       first_fit (e820_entries mm) len (e820_incr hugepg_align) (e820_incr hugepg_align) r.
Proof.
  intros (ents & k & -> & Hf) Hl HG. rewrite e820_entries_app by done.
  destruct (e820_incr_facts hugepg_align) as [??].
  apply e820_alloc_loop_spec; [done..|apply Z.mod_same; lia|lia|done].
Qed.

(** C36: [e820_alloc] terminates and is a first-fit allocator: it returns
    the smallest page-aligned (hugepage-aligned) non-zero address below
    1GB whose region lies inside one usable entry and touches no other
    kind of entry, and returns [NULL] exactly when there is none. *)
Theorem e820_alloc_first_fit mm len hugepg_align :
  e820_wf mm → 0 ≤ len → GB + len < 2 ^ 32 →
  ∃ r, e820_alloc mm len hugepg_align = Ret r ∧
    let incr := if hugepg_align then HUGE_PG_SZ else PG_SZ in
    (r ≠ 0 → incr ≤ r < GB ∧ r mod incr = 0 ∧ region_free (e820_entries mm) r len) ∧
    (∀ c, incr ≤ c < GB → c mod incr = 0 → region_free (e820_entries mm) c len →
          r ≠ 0 ∧ r ≤ c).
Proof.
  intros Hwf Hl HG. destruct (e820_alloc_spec mm len hugepg_align) as (r & Hr & Hff); [done..|].
  exists r. split; [done|]. change (if hugepg_align then _ else _) with (e820_incr hugepg_align).
  destruct (e820_incr_facts hugepg_align) as [? _].
  destruct Hff as [[-> Hn]|(?&?&?&Hn)]; (split; [done|]); intros c Hc Hm Hf.
  - by destruct (Hn c).
  - split; [lia|]. destruct (Z.le_gt_cases r c); [done|]. destruct (Hn c); [lia|done..].
Qed.

(** A small map: 1MB..32MB usable, a reserved hole below it. *)
Definition demo_mm : e820_map :=
  [E820 0 0x9fc00 1 0; E820 0x9fc00 0x60400 2 0; E820 0x100000 0x1f00000 1 0]
  ++ replicate 4 e820_null.

Lemma demo_mm_wf : e820_wf demo_mm.
Proof.
  exists [E820 0 0x9fc00 1 0; E820 0x9fc00 0x60400 2 0; E820 0x100000 0x1f00000 1 0], 3%nat.
  split; [done|]. repeat constructor; simpl; lia.
Qed.

Lemma e820_alloc_first_fit_witness :
  ∃ r, e820_alloc demo_mm 0x800000 true = Ret r ∧ r = 0x400000 ∧
       region_free (e820_entries demo_mm) r 0x800000.
Proof.
  destruct (e820_alloc_first_fit demo_mm 0x800000 true demo_mm_wf) as (r & Hr & H1 & _);
    [done..|].
  exists r. split; [done|]. vm_compute in Hr. injection Hr as <-. split; [done|].
  by apply H1.
Defined.

Lemma e820_augment_spec mm base len type :
  e820_wf mm → ent_wf (E820 base len type 0) → e820_entry_present (E820 base len type 0) = true →
  ∃ ok mm', e820_augment_bootloader mm base len type = Ret (ok, mm') ∧
    e820_wf mm' ∧ length mm' = length mm ∧
    (if (ok : bool) then e820_entries mm' = e820_entries mm ++ [E820 base len type 0]
     else mm' = mm ∧ length mm = S (length (e820_entries mm))).
Proof.
  intros (ents & k & -> & Hf) Hwf Hp. unfold e820_augment_bootloader.
  rewrite e820_end_spec by done. munfold.
  rewrite length_app, length_replicate, e820_entries_app by done.
  destruct (Nat.leb_spec (length ents + S k) (length ents + 1)) as [Hle|Hlt].
  - exists false, (ents ++ replicate (S k) e820_null).
    rewrite length_app, length_replicate. split_and!; [done|by exists ents, k|done|done|lia].
  - destruct k as [|k]; [lia|].
    rewrite (lookup_app_r ents), Nat.sub_diag by lia. simpl.
    rewrite insert_app_r_alt, Nat.sub_diag by lia. simpl.
    eexists true, _. split; [done|].
    assert (Hf' : Forall (λ e, e820_entry_present e = true ∧ ent_wf e)
              (ents ++ [E820 base len type 0])) by (apply Forall_app; auto).
    pose proof (e820_entries_app (ents ++ [E820 base len type 0]) (S k) Hf') as He.
    rewrite <- app_assoc in He. simpl in He. split_and!; [|rewrite length_app; simpl; rewrite length_replicate; lia|done].
    exists (ents ++ [E820 base len type 0]), k. by rewrite <- app_assoc.
Qed.

(** [e820_augment_bootloader] keeps the array a sequence of present
    entries closed by a null entry; it appends exactly the requested
    entry, or reports failure and changes nothing when only the
    terminating null entry is left. *)
Theorem e820_augment_appends mm base len type :
  e820_wf mm → ent_wf (E820 base len type 0) → type ≠ 0 →
  ∃ ok mm', e820_augment_bootloader mm base len type = Ret (ok, mm') ∧
    e820_wf mm' ∧ length mm' = length mm ∧
    (if (ok : bool) then e820_entries mm' = e820_entries mm ++ [E820 base len type 0]
     else mm' = mm ∧ length mm = S (length (e820_entries mm))).
Proof.
  intros Hwf He Ht. apply e820_augment_spec; [done..|]. unfold e820_entry_present. simpl. lia.
Qed.

Lemma e820_augment_appends_witness :
  ∃ ok mm', e820_augment_bootloader demo_mm 0x400000 0x1000 6 = Ret (ok, mm') ∧ ok = true ∧
    e820_entries mm' = e820_entries demo_mm ++ [E820 0x400000 0x1000 6 0].
Proof.
  destruct (e820_augment_appends demo_mm 0x400000 0x1000 6 demo_mm_wf)
    as (ok & mm' & Heq & _ & _ & Hif).
  - unfold ent_wf. simpl. lia.
  - done.
  - exists ok, mm'. split; [done|].
    assert (ok = true) as -> by (vm_compute in Heq; congruence). done.
Defined.

(** Two successive boot-time allocations never overlap: once the
    first region has been recorded in the map with a bootloader type, a
    later [e820_alloc] returns a region disjoint from it. *)
Theorem e820_allocs_disjoint mm len1 len2 h1 h2 type r1 mm' r2 :
  e820_wf mm → 0 ≤ len1 → GB + len1 < 2 ^ 32 → 0 ≤ len2 → GB + len2 < 2 ^ 32 →
  type ≠ 0 → type ≠ E820_MM_TYPE_USABLE →
  e820_alloc mm len1 h1 = Ret r1 → r1 ≠ 0 →
  e820_augment_bootloader mm r1 len1 type = Ret (true, mm') →
  e820_alloc mm' len2 h2 = Ret r2 → r2 ≠ 0 →
  r1 + len1 < r2 ∨ r2 + len2 < r1.
Proof.
  intros Hwf ? HG1 ? HG2 Ht0 HtU Ha1 Hr1 Haug Ha2 Hr2.
  destruct (e820_alloc_spec mm len1 h1) as (? & Heq & Hff); [done..|].
  rewrite Ha1 in Heq. injection Heq as <-.
  destruct Hff as [[? _]|(?&_&_&_)]; [done|]. destruct (e820_incr_facts h1) as [? _].
  change GB with (2 ^ 30) in *.
  destruct (e820_augment_spec mm r1 len1 type) as (ok & mm1 & Heq & Hwf' & _ & Hent); [done|..].
  { unfold ent_wf. simpl. lia. }
  { unfold e820_entry_present. simpl. lia. }
  rewrite Haug in Heq. injection Heq as <- <-.
  destruct (e820_alloc_spec mm' len2 h2) as (? & Heq & Hff2); [done..|].
  rewrite Ha2 in Heq. injection Heq as <-.
  destruct Hff2 as [[? _]|(_&_&[_ Hno]&_)]; [done|].
  specialize (Hno (E820 r1 len1 type 0)). simpl in Hno. rewrite Hent in Hno.
  destruct Hno; [set_solver|done|lia..].
Qed.

Lemma e820_allocs_disjoint_witness :
  ∃ r1 r2, r1 = 0x1000 ∧ r2 = 0x4000 ∧ (r1 + 0x2000 < r2 ∨ r2 + 0x1000 < r1).
Proof.
  exists 0x1000, 0x4000. split_and!; [done..|].
  eapply (e820_allocs_disjoint demo_mm 0x2000 0x1000 false false 6 0x1000
            (<[3%nat := E820 0x1000 0x2000 6 0]> demo_mm) 0x4000);
    [apply demo_mm_wf|vm_compute; done..].
Defined.
