(* ===== verification/BootPaging.v ===== *)
(** * Bootloader page tables

    Models the paging half of [src/boot/page_table.c]: [_pt_map_pg],
    [_pt_map_hugepg], [pt_setup] and [check_cpuid_features].  The state
    is the page directory and the page table of the low direct map, as
    1024 packed 32-bit words each; [enable_paging] (assembly) loads the
    directory's address into CR3, which [pt_setup] returns here. *)
From S2P Require Import Prelude Algorithm BootProtocol Bitfield BootMem.

Record boot_pt := BootPT { pd : page; dm_pt : page }.

Definition set_pd (i : nat) (w : Z) (st : boot_pt) : boot_pt :=
  BootPT (<[i := w]> (pd st)) (dm_pt st).
Definition set_pt (i : nat) (w : Z) (st : boot_pt) : boot_pt :=
  BootPT (pd st) (<[i := w]> (dm_pt st)).

(** The field assignments of [_pt_map_pg] for a missing directory entry
    ([pt] is the address of the page table). *)
Definition pde_init (pt w : Z) : Z :=
  fset PDE.addr (Z.shiftr pt PG_SZ_BITS)
   (fset PDE.ps 0 (fset PDE.a 0 (fset PDE.pcd 0 (fset PDE.pwt 0
   (fset PDE.u_s 0 (fset PDE.r_w 1 (fset PDE.p 1 w))))))).

(** ... and for the page table entry. *)
Definition pte_init (pa : Z) (map_global : bool) (w : Z) : Z :=
  fset PTE.addr (Z.shiftr pa PG_SZ_BITS) (fset PTE.g (b2z map_global)
   (fset PTE.pat 0 (fset PTE.d 0 (fset PTE.a 0 (fset PTE.pcd 0 (fset PTE.pwt 0
   (fset PTE.u_s 0 (fset PTE.r_w 1 (fset PTE.p 1 w))))))))).

(** The field assignments of [_pt_map_hugepg]. *)
Definition hugepg_init (pa : Z) (map_global : bool) (w : Z) : Z :=
  fset PDE4MB.addr (Z.shiftr pa 22) (fset PDE4MB.rsv0 0 (fset PDE4MB.addr_ext 0
   (fset PDE4MB.pat 0 (fset PDE4MB.g (b2z map_global) (fset PDE4MB.ps 1
   (fset PDE4MB.d 0 (fset PDE4MB.a 0 (fset PDE4MB.pcd 0 (fset PDE4MB.pwt 0
   (fset PDE4MB.u_s 0 (fset PDE4MB.r_w 1 (fset PDE4MB.p 1 w)))))))))))).

(** [pt] is the address of the page table [dm_pt]. *)
Definition _pt_map_pg (pt va pa : Z) (map_global : bool) : M boot_pt unit :=
  _ ← assertM (PG_ALIGNED va);
  _ ← assertM (PG_ALIGNED pa);
  let pd_idx := Z.to_nat (Z.shiftr va 22) in
  let pt_idx := Z.to_nat (Z.land (Z.shiftr va PG_SZ_BITS) 0x3FF) in
  st ← getS;
  pde ← liftO (deref (pd st !! pd_idx));
  _ ← (if fget PDE.p pde =? 0 then putS (set_pd pd_idx (pde_init pt pde) st)
       else assertM (fget PDE.addr pde =? Z.shiftr pt PG_SZ_BITS));
  st ← getS;
  pte ← liftO (deref (dm_pt st !! pt_idx));
  _ ← assertM (fget PTE.p pte =? 0);
  putS (set_pt pt_idx (pte_init pa map_global pte) st).

Definition _pt_map_hugepg (va pa : Z) (map_global : bool) : M boot_pt unit :=
  _ ← assertM (HUGEPG_ALIGNED va);
  _ ← assertM (HUGEPG_ALIGNED pa);
  let pd_idx := Z.to_nat (Z.shiftr va 22) in
  st ← getS;
  pde ← liftO (deref (pd st !! pd_idx));
  _ ← assertM (fget PDE4MB.p pde =? 0);
  putS (set_pd pd_idx (hugepg_init pa map_global pde) st).

(** The three loops; the [uint64_t] addresses are converted to the
    [uint32_t] parameters at the calls. *)
Definition map_low_memory (dm_pt_addr : Z) : M boot_pt unit :=
  for_loop 256 PG_SZ (1 * MB) PG_SZ
    (λ pg, _pt_map_pg dm_pt_addr (u32 pg) (u32 pg) false).
Definition map_hhdm : M boot_pt unit :=
  for_loop 248 0 (u32 (u32 (1 * GB - KERNEL_MAP_SZ) - IO_MAP_SZ)) HUGE_PG_SZ
    (λ pg, _pt_map_hugepg (u32 (pg + HM_START)) (u32 pg) true).
Definition map_kernel (kernel_paddr : Z) : M boot_pt unit :=
  for_loop 9 0 KERNEL_MAP_SZ HUGE_PG_SZ
    (λ pg, _pt_map_hugepg (u32 (pg + KERNEL_LOAD_ADDR)) (u32 (pg + kernel_paddr)) true).

(** Returns success, the augmented memory map, and the page directory
    address given to [enable_paging] with the tables. *)
Definition pt_setup (mm : e820_map) (kernel_paddr : Z)
    : outcome (bool * e820_map * option (Z * boot_pt)) :=
  let dynamic_alloc_sz := 2 * PG_SZ in
  pt_mem ← e820_alloc mm dynamic_alloc_sz false;
  if pt_mem =? 0 then Ret (false, mm, None)
  else
    let dm_pt_addr := u32 (pt_mem + PG_SZ) in
    '(_, st) ← (_ ← map_low_memory dm_pt_addr; _ ← map_hhdm; map_kernel kernel_paddr : M _ _)
                 (BootPT zero_page zero_page);
    '(ok, mm') ← e820_augment_bootloader mm pt_mem dynamic_alloc_sz E820_MM_TYPE_BOOTLOADER;
    Ret (ok, mm', Some (pt_mem, st)).

(** [feat] is the 64-bit value [%edx:%ecx] of CPUID leaf 1; [pae] and
    [pse] are bits 38 and 35 of [struct cpuid_features]. *)
Definition feat_pse : field := (35, 1).
Definition feat_pae : field := (38, 1).
Definition check_cpuid_features (feat : Z) : bool :=
  negb ((fget feat_pae feat =? 0) || (fget feat_pse feat =? 0)).

(** ** Entries *)
Lemma pde_init_fields pt w :
  fget PDE.p (pde_init pt w) = 1 ∧ fget PDE.ps (pde_init pt w) = 0 ∧
  fget PDE.addr (pde_init pt w) = Z.shiftr pt 12 mod 2 ^ 20.
Proof. unfold pde_init. split_and!; field_simp; done. Qed.

Lemma pte_init_fields pa g w :
  fget PTE.p (pte_init pa g w) = 1 ∧
  fget PTE.addr (pte_init pa g w) = Z.shiftr pa 12 mod 2 ^ 20.
Proof. unfold pte_init. split_and!; field_simp; done. Qed.

Lemma hugepg_init_fields pa g w :
  fget PDE.p (hugepg_init pa g w) = 1 ∧ fget PDE.ps (hugepg_init pa g w) = 1 ∧
  fget PDE4MB.addr (hugepg_init pa g w) = Z.shiftr pa 22 mod 2 ^ 10.
Proof. unfold hugepg_init. split_and!; field_simp; done. Qed.

(** ** Single mappings *)
Lemma wp_map_hugepg st i pa g (Q : unit → boot_pt → Prop) :
  pa mod 2 ^ 22 = 0 → pd st !! i = Some 0 →
  Q tt (set_pd i (hugepg_init pa g 0) st) →
  wp (_pt_map_hugepg (Z.of_nat i * 2 ^ 22) pa g) Q st.
Proof.
  intros Hpa Hi HQ. unfold _pt_map_hugepg. apply wp_bind, wp_assert.
  { apply HUGEPG_ALIGNED_spec. apply Z.mod_mul. done. }
  apply wp_bind, wp_assert; [by apply HUGEPG_ALIGNED_spec|].
  rewrite Z.shiftr_div_pow2, Z.div_mul, Nat2Z.id by done.
  apply wp_bind, wp_get, wp_bind. eapply wp_deref; [done|].
  apply wp_bind, wp_assert; [done|]. by apply wp_put.
Qed.

Lemma wp_map_pg st k pt pa g w (Q : unit → boot_pt → Prop) :
  (k < 1024)%nat → 0 ≤ pt < 2 ^ 32 →
  pa mod 2 ^ 12 = 0 → pd st !! 0%nat = Some w → dm_pt st !! k = Some 0 →
  (w = 0 ∨ w = pde_init pt 0) →
  Q tt (set_pt k (pte_init pa g 0) (set_pd 0 (pde_init pt 0) st)) →
  wp (_pt_map_pg pt (Z.of_nat k * 2 ^ 12) pa g) Q st.
Proof.
  intros Hk Hpt Hpa Hw Hk0 Hcase HQ. unfold _pt_map_pg.
  apply wp_bind, wp_assert; [apply PG_ALIGNED_spec; by apply Z.mod_mul|].
  apply wp_bind, wp_assert; [by apply PG_ALIGNED_spec|]. change PG_SZ_BITS with 12.
  change 0x3FF with (2 ^ 10 - 1). rewrite land_mask_mod, !Z.shiftr_div_pow2 by done.
  rewrite Z.div_mul, Z.mod_small, (Z.div_small _ (2 ^ 22)), Nat2Z.id by lia.
  apply wp_bind, wp_get, wp_bind. eapply wp_deref; [exact Hw|]. apply wp_bind.
  destruct Hcase as [->| ->].
  - simpl (fget _ _ =? _). apply wp_put, wp_bind, wp_get, wp_bind.
    eapply wp_deref; [exact Hk0|]. apply wp_bind, wp_assert; [done|]. apply wp_put, HQ.
  - destruct (pde_init_fields pt 0) as (-> & _ & ->). simpl (1 =? 0).
    apply wp_assert.
    { rewrite Z.shiftr_div_pow2 by done. apply Z.eqb_eq, Z.mod_small.
      split; [apply Z.div_pos; lia|]. apply Z.div_lt_upper_bound; lia. }
    apply wp_bind, wp_get, wp_bind. eapply wp_deref; [exact Hk0|].
    apply wp_bind, wp_assert; [done|]. apply wp_put.
    replace st with (set_pd 0 (pde_init pt 0) st); [done|].
    destruct st as [d t]. unfold set_pd. simpl in *. f_equal. by apply list_insert_id.
Qed.

(** ** The loops *)
Lemma wp_map_huge_loop fuel cnt base PB body st :
  (cnt < fuel)%nat → (base + cnt ≤ 1024)%nat → 0 ≤ PB → PB mod 2 ^ 22 = 0 →
  PB + Z.of_nat cnt * 2 ^ 22 ≤ 2 ^ 32 →
  (∀ pg, body pg = _pt_map_hugepg (u32 (pg + Z.of_nat base * 2 ^ 22)) (u32 (pg + PB)) true) →
  (∀ i, (base ≤ i < base + cnt)%nat → pd st !! i = Some 0) →
  wp (for_loop fuel 0 (Z.of_nat cnt * 2 ^ 22) (2 ^ 22) body)
     (λ _ st', dm_pt st' = dm_pt st ∧
        ∀ i, pd st' !! i = if decide (base ≤ i < base + cnt)%nat
                           then Some (hugepg_init (PB + Z.of_nat (i - base) * 2 ^ 22) true 0)
                           else pd st !! i) st.
Proof.
  intros Hf Hbase HPB HPBm Htop Hbody Hz.
  set (I := λ pg st', dm_pt st' = dm_pt st ∧ ∀ i, pd st' !! i =
    if decide (base ≤ i < base + Z.to_nat (pg / 2 ^ 22))%nat
    then Some (hugepg_init (PB + Z.of_nat (i - base) * 2 ^ 22) true 0) else pd st !! i).
  eapply wp_mono; [apply (wp_for_loop I cnt); [done..|lia|lia|done| |]|].
  - intros k s Hk [Hdm Hpd]. rewrite Hbody, !Z.add_0_l.
    rewrite Z.add_0_l, Z.div_mul, Nat2Z.id in Hpd by done.
    rewrite <- Z.mul_add_distr_r, <- Nat2Z.inj_add, (wrap_small 32) by nia.
    rewrite (wrap_small 32) by nia. apply wp_map_hugepg.
    + rewrite Z.add_comm, Z.mod_add by done. done.
    + rewrite Hpd, decide_False by lia. apply Hz. lia.
    + split; [done|]. intros i. rewrite Z.div_mul, Nat2Z.id by done. simpl.
      destruct (decide (i = k + base)%nat) as [->|Hne].
      * rewrite decide_True by lia. rewrite list_lookup_insert_eq.
        -- replace (k + base - base)%nat with k by lia. by rewrite (Z.add_comm PB).
        -- apply lookup_lt_is_Some_1. rewrite Hpd, decide_False by lia.
           rewrite Hz by lia. done.
      * rewrite list_lookup_insert_ne, Hpd by done.
        destruct (decide _), (decide _); done || lia.
  - split; [done|]. intros i. rewrite decide_False; [done|]. rewrite Z.div_0_l by done. lia.
  - intros _ st' [Hdm Hpd]. split; [done|]. intros i. rewrite Hpd.
    by rewrite Z.div_mul, Nat2Z.id by done.
Qed.

Lemma wp_map_low_memory pt :
  0 ≤ pt < 2 ^ 32 →
  wp (map_low_memory pt)
     (λ _ st', (∀ i, (i < 1024)%nat → pd st' !! i = Some (if decide (i = 0)%nat then pde_init pt 0 else 0)) ∧
        (∀ i, (i < 1024)%nat → dm_pt st' !! i = Some (if decide (1 ≤ i < 256)%nat
              then pte_init (Z.of_nat i * 2 ^ 12) false 0 else 0)))
     (BootPT zero_page zero_page).
Proof.
  intros Hpt. set (I := λ pg st', length (pd st') = 1024%nat ∧ length (dm_pt st') = 1024%nat ∧
    (∀ i, (i < 1024)%nat → pd st' !! i = Some (if decide (i = O ∧ 2 ^ 12 < pg) then pde_init pt 0 else 0)) ∧
    (∀ i, (i < 1024)%nat → dm_pt st' !! i = Some (if decide (1 ≤ i < Z.to_nat (pg / 2 ^ 12))%nat
          then pte_init (Z.of_nat i * 2 ^ 12) false 0 else 0))).
  unfold map_low_memory. change PG_SZ with (2 ^ 12). change (1 * MB) with (2 ^ 20).
  eapply wp_mono; [apply (wp_for_loop I 255%nat); [lia|lia|lia|lia|lia| |]|].
  - intros k [d t] Hk (Hl1 & Hl2 & Hpd & Hdm).
    replace (2 ^ 12 + Z.of_nat k * 2 ^ 12) with (Z.of_nat (S k) * 2 ^ 12) in * by lia.
    replace (2 ^ 12 + Z.of_nat (S k) * 2 ^ 12) with (Z.of_nat (S (S k)) * 2 ^ 12) by lia.
    rewrite !(wrap_small 32) by lia. rewrite Z.div_mul, Nat2Z.id in Hdm by done.
    eapply wp_map_pg with (w := if decide (k = O) then 0 else pde_init pt 0);
      [lia|done|by apply Z.mod_mul|..]; simpl in *.
    + rewrite Hpd by lia. destruct (decide (_ ∧ _)), (decide (k = O)); done || lia.
    + rewrite Hdm, decide_False by lia. done.
    + destruct (decide (k = O)); auto.
    + split_and!; [simpl; by rewrite length_insert..| |].
      * intros i Hi. simpl. destruct (decide (i = O)) as [->|].
        -- rewrite list_lookup_insert_eq by lia. rewrite decide_True by lia. done.
        -- rewrite list_lookup_insert_ne, Hpd by lia. rewrite !decide_False by lia. done.
      * intros i Hi. rewrite Z.div_mul, Nat2Z.id by done. simpl.
        destruct (decide (i = S k)) as [->|].
        -- rewrite list_lookup_insert_eq by lia. rewrite decide_True by lia. done.
        -- rewrite list_lookup_insert_ne, Hdm by lia. destruct (decide _), (decide _); done || lia.
  - split_and!; [done..| |]; intros i Hi; simpl; rewrite zero_page_lookup by done.
    + by rewrite decide_False by lia.
    + change (Z.to_nat (2 ^ 12 / 2 ^ 12)) with 1%nat. by rewrite decide_False by lia.
  - intros _ st' (_ & _ & Hpd & Hdm). split; intros i Hi; [rewrite Hpd by done|rewrite Hdm by done].
    + destruct (decide (i = O ∧ _)), (decide (i = O)); done || lia.
    + done.
Qed.

(** The entries that the three loops leave in the directory. *)
Definition boot_pde (pt kernel_paddr : Z) (i : nat) : Z :=
  if decide (i = O) then pde_init pt 0
  else if decide (768 ≤ i < 1015)%nat then hugepg_init (Z.of_nat (i - 768) * 2 ^ 22) true 0
  else if decide (1016 ≤ i < 1024)%nat
       then hugepg_init (kernel_paddr + Z.of_nat (i - 1016) * 2 ^ 22) true 0
  else 0.

Definition boot_pte (i : nat) : Z :=
  if decide (1 ≤ i < 256)%nat then pte_init (Z.of_nat i * 2 ^ 12) false 0 else 0.

Lemma wp_pt_loops pt kernel_paddr :
  0 ≤ pt < 2 ^ 32 → 0 ≤ kernel_paddr → kernel_paddr mod 2 ^ 22 = 0 →
  kernel_paddr + KERNEL_MAP_SZ ≤ 2 ^ 32 →
  wp (_ ← map_low_memory pt; _ ← map_hhdm; map_kernel kernel_paddr)
     (λ _ st, (∀ i, (i < 1024)%nat → pd st !! i = Some (boot_pde pt kernel_paddr i)) ∧
              (∀ i, (i < 1024)%nat → dm_pt st !! i = Some (boot_pte i)))
     (BootPT zero_page zero_page).
Proof.
  intros Hpt Hk0 Hkm Hkb. change KERNEL_MAP_SZ with (8 * 2 ^ 22) in Hkb.
  apply wp_bind. eapply wp_mono; [by apply wp_map_low_memory|].
  intros _ s1 [Hpd1 Hdm1]. apply wp_bind. eapply wp_mono.
  { apply (wp_map_huge_loop 248 247 768 0); [lia|lia|lia|done|lia| |].
    - intros pg. by rewrite Z.add_0_r.
    - intros i Hi. by rewrite Hpd1, decide_False by lia. }
  intros _ s2 [Hdm2 Hpd2]. eapply wp_mono.
  { apply (wp_map_huge_loop 9 8 1016 kernel_paddr); [lia|lia|lia|done|lia|done|].
    intros i Hi. by rewrite Hpd2, decide_False, Hpd1, decide_False by lia. }
  intros _ s3 [Hdm3 Hpd3]. split; intros i Hi.
  - rewrite Hpd3, Hpd2, Hpd1 by done. unfold boot_pde.
    repeat case_decide; done || lia.
  - rewrite Hdm3, Hdm2. by apply Hdm1.
Qed.

(** ** What the boot page tables map *)
Definition boot_table (pt : Z) (st : boot_pt) (pa : Z) : option page :=
  if pa =? pt then Some (dm_pt st) else None.

Definition boot_expected (kernel_paddr va : Z) : option Z :=
  if (PG_SZ <=? va) && (va <? 1 * MB) then Some va
  else if (HM_START <=? va) && (va <? HM_START + (1 * GB - KERNEL_MAP_SZ - IO_MAP_SZ))
       then Some (va - HM_START)
  else if KERNEL_LOAD_ADDR <=? va then Some (va - KERNEL_LOAD_ADDR + kernel_paddr)
  else None.

Lemma translate_huge d table va w pa g :
  0 ≤ va < 2 ^ 32 → 0 ≤ pa < 2 ^ 32 → pa mod 2 ^ 22 = 0 →
  w = hugepg_init pa g 0 → d !! Z.to_nat (va / 2 ^ 22) = Some w →
  translate d table va = Some (pa + va mod 2 ^ 22).
Proof.
  intros Hva Hpa Hm -> Hd. unfold translate.
  rewrite (Z.shiftr_div_pow2 va 22), Hd by done. cbn [mbind option_bind].
  destruct (hugepg_init_fields pa g 0) as (-> & -> & ->). cbn [Z.eqb].
  change (1 =? 1) with true. cbn match.
  rewrite Z.shiftl_mul_pow2, Z.shiftr_div_pow2 by done.
  rewrite (Z.mod_small (pa / 2 ^ 22))
    by (split; [apply Z.div_pos|apply Z.div_lt_upper_bound]; lia).
  rewrite Z.mul_comm, mul_div_le_mod by done. rewrite Hm. do 2 f_equal. lia.
Qed.

Lemma translate_absent d table va :
  0 ≤ va → d !! Z.to_nat (va / 2 ^ 22) = Some 0 → translate d table va = None.
Proof.
  intros Hva Hd. unfold translate. rewrite (Z.shiftr_div_pow2 va 22), Hd by done. done.
Qed.

Lemma translate_small d pt t va w :
  0 ≤ va < 2 ^ 22 → 0 ≤ pt < 2 ^ 32 → pt mod 2 ^ 12 = 0 →
  d !! 0%nat = Some (pde_init pt 0) → t !! Z.to_nat (va / 2 ^ 12) = Some w →
  translate d (boot_table pt (BootPT d t)) va =
  if fget PTE.p w =? 0 then None else Some (Z.shiftl (fget PTE.addr w) 12 + va mod 2 ^ 12).
Proof.
  intros Hva Hpt Hm Hd Ht. unfold translate.
  rewrite (Z.shiftr_div_pow2 va 22), (Z.shiftr_div_pow2 va 12) by done.
  rewrite (Z.div_small va (2 ^ 22)) by lia.
  change (Z.to_nat 0) with 0%nat. rewrite Hd. cbn [mbind option_bind].
  destruct (pde_init_fields pt 0) as (-> & -> & ->). change (1 =? 0) with false.
  change (0 =? 1) with false. cbn match. unfold boot_table.
  rewrite Z.shiftl_mul_pow2, (Z.shiftr_div_pow2 pt) by done.
  rewrite (Z.mod_small (pt / 2 ^ 12))
    by (split; [apply Z.div_pos|apply Z.div_lt_upper_bound]; lia).
  rewrite (Z.mul_comm _ (2 ^ 12)), mul_div_le_mod, Hm, Z.sub_0_r, Z.eqb_refl by done.
  simpl. change 0x3FF with (2 ^ 10 - 1). rewrite land_mask_mod by done.
  rewrite (Z.mod_small (va / 2 ^ 12))
    by (split; [apply Z.div_pos|apply Z.div_lt_upper_bound]; lia).
  by rewrite Ht.
Qed.

Lemma pd_idx_bounds va : 0 ≤ va < 2 ^ 32 → (Z.to_nat (va / 2 ^ 22) < 1024)%nat.
Proof. intros. assert (va / 2 ^ 22 < 1024) by (apply Z.div_lt_upper_bound; lia). lia. Qed.

Lemma boot_tables_translate pt kernel_paddr st va :
  0 ≤ pt < 2 ^ 32 → pt mod 2 ^ 12 = 0 → 0 ≤ kernel_paddr → kernel_paddr mod 2 ^ 22 = 0 →
  kernel_paddr + KERNEL_MAP_SZ ≤ 2 ^ 32 →
  (∀ i, (i < 1024)%nat → pd st !! i = Some (boot_pde pt kernel_paddr i)) →
  (∀ i, (i < 1024)%nat → dm_pt st !! i = Some (boot_pte i)) →
  0 ≤ va < 2 ^ 32 →
  translate (pd st) (boot_table pt st) va = boot_expected kernel_paddr va.
Proof.
  intros Hpt Hptm Hk0 Hkm Hkb Hpd Hdm Hva. pose proof (pd_idx_bounds va Hva) as Hi.
  unfold boot_expected. change PG_SZ with (2 ^ 12). change (1 * MB) with (2 ^ 20).
  change HM_START with (768 * 2 ^ 22). change KERNEL_LOAD_ADDR with (1016 * 2 ^ 22).
  change (1 * GB - KERNEL_MAP_SZ - IO_MAP_SZ) with (247 * 2 ^ 22).
  change KERNEL_MAP_SZ with (8 * 2 ^ 22) in Hkb.
  pose proof (Z.div_mod va (2 ^ 22)) as Hdiv. pose proof (Z.mod_pos_bound va (2 ^ 22)) as Hmod.
  pose proof (Hpd _ Hi) as Hd. unfold boot_pde in Hd. repeat case_decide.
  - assert (Hlow : va < 2 ^ 22) by lia.
    assert (Hp : (Z.to_nat (va / 2 ^ 12) < 1024)%nat).
    { assert (va / 2 ^ 12 < 1024) by (apply Z.div_lt_upper_bound; lia). lia. }
    pose proof (Hpd O ltac:(lia)) as Hd0. pose proof (Hdm _ Hp) as Ht. destruct st as [d t].
    simpl pd in *. simpl dm_pt in *.
    rewrite (translate_small d pt t va (boot_pte (Z.to_nat (va / 2 ^ 12)))) by (done || lia).
    unfold boot_pte.
    pose proof (Z.div_mod va (2 ^ 12)). pose proof (Z.mod_pos_bound va (2 ^ 12)).
    case_decide.
    + destruct (pte_init_fields (Z.of_nat (Z.to_nat (va / 2 ^ 12)) * 2 ^ 12) false 0) as [-> ->].
      replace ((2 ^ 12 <=? va) && (va <? 2 ^ 20)) with true by lia. change (1 =? 0) with false.
      cbn match. rewrite Z.shiftl_mul_pow2, Z.shiftr_div_pow2, Z.div_mul by done.
      rewrite Z.mod_small by lia. f_equal. lia.
    + replace ((2 ^ 12 <=? va) && (va <? 2 ^ 20)) with false by lia.
      replace ((768 * 2 ^ 22 <=? va) && (va <? 768 * 2 ^ 22 + 247 * 2 ^ 22)) with false by lia.
      by replace (1016 * 2 ^ 22 <=? va) with false by lia.
  - replace ((2 ^ 12 <=? va) && (va <? 2 ^ 20)) with false by lia.
    replace ((768 * 2 ^ 22 <=? va) && (va <? 768 * 2 ^ 22 + 247 * 2 ^ 22)) with true by lia.
    erewrite translate_huge; [|done| | |reflexivity|exact Hd]; [f_equal; lia|lia|by apply Z.mod_mul].
  - replace ((2 ^ 12 <=? va) && (va <? 2 ^ 20)) with false by lia.
    replace ((768 * 2 ^ 22 <=? va) && (va <? 768 * 2 ^ 22 + 247 * 2 ^ 22)) with false by lia.
    replace (1016 * 2 ^ 22 <=? va) with true by lia.
    erewrite translate_huge; [|done| | |reflexivity|exact Hd]; [f_equal; lia|lia|].
    by rewrite Z.mod_add.
  - replace ((2 ^ 12 <=? va) && (va <? 2 ^ 20)) with false by lia.
    replace ((768 * 2 ^ 22 <=? va) && (va <? 768 * 2 ^ 22 + 247 * 2 ^ 22)) with false by lia.
    replace (1016 * 2 ^ 22 <=? va) with false by lia.
    by apply translate_absent; [lia|].
Qed.

(** [pt_setup] on a well-formed memory map and a hugepage-aligned
    kernel image never fails an assertion; when two pages can be
    allocated the tables it installs map, for every 32-bit virtual
    address, exactly: low memory to itself (page 0 excluded), the direct
    map at [HM_START] (1GB less the kernel and IO windows), the kernel
    window at [KERNEL_LOAD_ADDR], and nothing else; and the two pages of
    the tables are recorded in the memory map unless it is full. *)
Theorem pt_setup_maps mm kernel_paddr :
  e820_wf mm → 0 ≤ kernel_paddr → kernel_paddr mod HUGE_PG_SZ = 0 →
  kernel_paddr + KERNEL_MAP_SZ ≤ 2 ^ 32 →
  ∃ ok mm' r, pt_setup mm kernel_paddr = Ret (ok, mm', r) ∧ e820_wf mm' ∧
  match r with
  | None => ok = false ∧ mm' = mm ∧
      ∀ c, PG_SZ ≤ c < GB → c mod PG_SZ = 0 → ¬ region_free (e820_entries mm) c (2 * PG_SZ)
  | Some (pt_mem, st) =>
      region_free (e820_entries mm) pt_mem (2 * PG_SZ) ∧
      (if ok then e820_entries mm' = e820_entries mm ++ [E820 pt_mem (2 * PG_SZ) E820_MM_TYPE_BOOTLOADER 0]
       else length mm = S (length (e820_entries mm))) ∧
      ∀ va, 0 ≤ va < 2 ^ 32 →
        translate (pd st) (boot_table (pt_mem + PG_SZ) st) va = boot_expected kernel_paddr va
  end.
Proof.
  intros Hwf Hk0 Hkm Hkb. unfold pt_setup. cbv zeta.
  destruct (e820_alloc_spec mm (2 * PG_SZ) false) as (r & -> & Hff); [done..|].
  cbn [mbind outcome_bind]. destruct Hff as [[-> Hn]|(Hb & Hm & Hfree & _)].
  { exists false, mm, None. split_and!; [done|done|done|done|]. exact Hn. }
  simpl e820_incr in *. change PG_SZ with (2 ^ 12) in *. change GB with (2 ^ 30) in *.
  rewrite (proj2 (Z.eqb_neq r 0)) by lia. rewrite wrap_small by lia.
  pose proof (wp_pt_loops (r + 2 ^ 12) kernel_paddr ltac:(lia) Hk0 Hkm Hkb) as Hl.
  apply wp_run in Hl as (u & st & -> & Hpd & Hdm).
  destruct (e820_augment_spec mm r (2 * 2 ^ 12) E820_MM_TYPE_BOOTLOADER)
    as (ok & mm' & -> & Hwf' & _ & Hent); [done|unfold ent_wf; simpl; lia| |].
  { unfold e820_entry_present. simpl. lia. }
  exists ok, mm', (Some (r, st)). split_and!; [done|done|done| |].
  - by destruct ok; [|destruct Hent].
  - intros va Hva. apply boot_tables_translate; try (done || lia).
    rewrite <- Z.add_mod_idemp_l, Hm by done. done.
Qed.

Lemma pt_setup_maps_witness :
  ∃ ok mm' pt_mem st, pt_setup demo_mm 0x400000 = Ret (ok, mm', Some (pt_mem, st)) ∧ ok = true ∧
    translate (pd st) (boot_table (pt_mem + PG_SZ) st) 0xFE001234 = Some 0x401234 ∧
    translate (pd st) (boot_table (pt_mem + PG_SZ) st) 0 = None.
Proof.
  destruct (pt_setup_maps demo_mm 0x400000 demo_mm_wf) as (ok & mm' & r & Heq & _ & Hr); [done..|].
  destruct r as [[pt_mem st]|].
  - exists ok, mm', pt_mem, st. destruct Hr as (_ & _ & Htr).
    rewrite !Htr by lia. split_and!; [done| |done|done].
    assert (match pt_setup demo_mm 0x400000 with Ret (b, _, _) => b | _ => false end = true) as Hb
      by (vm_compute; done).
    by rewrite Heq in Hb.
  - exfalso.
    assert (match pt_setup demo_mm 0x400000 with Ret (_, _, Some _) => true | _ => false end = true) as Hb
      by (vm_compute; done).
    by rewrite Heq in Hb.
Defined.
