(* ===== verification/BootFat.v ===== *)
(** * The boot loader's FAT32 reader and kernel loader

    Models [boot/fat.c], [boot/fat.h], [boot/mbr.h] and
    [boot/copy_kernel.c].  RAM and the disk are functions from byte
    addresses to bytes; packed structures are read from RAM at their
    offsets.  [copy_bytes] follows its assembly in [boot/stage2.S]: it
    truncates both the disk address and the length to 512-byte sectors,
    and copies at least one sector. *)
From S2P Require Import Prelude Algorithm BootProtocol BootMem.

Abbreviation ram := (Z → Z).

Definition MBR_SECTOR_SZ : Z := 0x200.

Definition le16 (m : ram) (p : Z) : Z := m p + 2 ^ 8 * m (p + 1).
Definition le32 (m : ram) (p : Z) : Z := le16 m p + 2 ^ 16 * le16 m (p + 2).
Definition le64 (m : ram) (p : Z) : Z := le32 m p + 2 ^ 32 * le32 m (p + 4).
Definition put32 (m : ram) (p v : Z) : ram := λ q,
  if (p <=? q) && (q <? p + 4) then u8 (Z.shiftr v (8 * (q - p))) else m q.

(** [struct mbr_partition_desc] at [p] *)
Definition drive_attrs (m : ram) (p : Z) : Z := m p.
Definition partition_type (m : ram) (p : Z) : Z := m (p + 4).
Definition first_sector_lba (m : ram) (p : Z) : Z := le32 m (p + 8).

(** [struct _fat32_vbr] at [p]: the fields the code reads *)
Definition vbr_bytes_per_sector (m : ram) (p : Z) : Z := le16 m (p + 11).
Definition vbr_sectors_per_cluster (m : ram) (p : Z) : Z := m (p + 13).
Definition vbr_reserved_sectors (m : ram) (p : Z) : Z := le16 m (p + 14).
Definition vbr_fats (m : ram) (p : Z) : Z := m (p + 16).
Definition vbr_total_sectors (m : ram) (p : Z) : Z := le16 m (p + 19).
Definition vbr_sectors_per_fat2 (m : ram) (p : Z) : Z := le32 m (p + 36).
Definition vbr_root_dir_start_cluster (m : ram) (p : Z) : Z := le32 m (p + 44).
Definition vbr_extended_boot_sig (m : ram) (p : Z) : Z := m (p + 66).
Definition vbr_boot_signature (m : ram) (p : Z) : Z := le16 m (p + 510).

(** [struct _fat32_dirent] at [p] *)
Definition sizeof_dirent : Z := 32.
Definition short_name (m : ram) (p : Z) : list Z := (λ i, m (p + Z.of_nat i)) <$> seq 0 11.
Definition cluster_hi (m : ram) (p : Z) : Z := le16 m (p + 20).
Definition cluster_lo (m : ram) (p : Z) : Z := le16 m (p + 26).
Definition dirent_file_sz (m : ram) (p : Z) : Z := le32 m (p + 28).

Record fat32_desc := FatDesc {
  buf : Z;
  buf_sz : Z;
  bytes_per_sector : Z;
  sectors_per_cluster : Z;
  fat_offset_bytes : Z;
  data_region_offset_bytes : Z;
  root_dir_start_cluster : Z;
}.

Record fat32_file_desc := FileDesc {
  fs : fat32_desc;
  start_cluster : Z;
  file_sz_bytes : Z;
}.

(** [fat32_init_desc]: the sector buffer, from the E820 map; [None] is
    the [false] return. *)
Definition fat32_init_desc (mm : e820_map) : outcome (option (Z * Z) * e820_map) :=
  let max_logical_sector_sz := 4096 in
  arena_start ← e820_alloc mm max_logical_sector_sz false;
  if arena_start =? 0 then Ret (None, mm)
  else
    '(ok, mm) ← e820_augment_bootloader mm arena_start max_logical_sector_sz
                  E820_MM_TYPE_BOOTLOADER_RECLAIMABLE;
    if (ok : bool) then
      _ ← assert_ (Z.land arena_start (MBR_SECTOR_SZ - 1) =? 0);
      Ret (Some (arena_start, max_logical_sector_sz), mm)
    else Ret (None, mm).

Section fat.
Variable disk : ram.

(** [copy_bytes(mem_addr, disk_addr, len)] *)
Definition copy_bytes (mem_addr disk_addr len : Z) (m : ram) : ram :=
  let first := Z.shiftr disk_addr 9 in
  let count := Z.max 1 (Z.shiftr len 9) in
  λ p, if (mem_addr <=? p) && (p <? mem_addr + 512 * count)
       then disk (512 * first + (p - mem_addr)) else m p.

Definition fat32_parse_partition (lba : Z) (bufp bufsz : Z) : M ram fat32_desc :=
  m ← getS;
  let partition_start_bytes := u64 (lba * MBR_SECTOR_SZ) in
  let m := copy_bytes bufp (u32 partition_start_bytes) MBR_SECTOR_SZ m in
  _ ← putS m;
  _ ← assertM (vbr_total_sectors m bufp =? 0);
  _ ← assertM ((vbr_extended_boot_sig m bufp =? 0x28) || (vbr_extended_boot_sig m bufp =? 0x29));
  _ ← assertM (vbr_boot_signature m bufp =? 0xAA55);
  _ ← assertM (MBR_SECTOR_SZ <=? vbr_bytes_per_sector m bufp);
  _ ← assertM (vbr_bytes_per_sector m bufp <=? bufsz);
  let bps := vbr_bytes_per_sector m bufp in
  let fat_off := u64 (partition_start_bytes + u64 (vbr_reserved_sectors m bufp * bps)) in
  let data_off := u64 (fat_off + u64 (u64 (vbr_fats m bufp * vbr_sectors_per_fat2 m bufp) * bps)) in
  mret (FatDesc bufp bufsz bps (vbr_sectors_per_cluster m bufp) fat_off data_off
          (vbr_root_dir_start_cluster m bufp)).

Definition _fat32_mask_entry (cluster : Z) : Z := Z.land cluster 0x0FFFFFFF.

Definition _fat32_is_last_cluster_in_file (cluster : Z) : bool :=
  0x0FFFFFF7 <=? _fat32_mask_entry cluster.

Definition _fat32_cluster_data_offset_bytes (d : fat32_desc) (cluster : Z) : Z :=
  u64 (data_region_offset_bytes d +
       u32 (u32 (u32 (_fat32_mask_entry cluster - 2) * sectors_per_cluster d) * bytes_per_sector d)).

(** The scan of the directory entries in the buffer, [n] of them left:
    [None] falls out of the loop, [Some None] is [return false]. *)
Fixpoint scan_dirents (n : nat) (it : Z) (filename : list Z) (m : ram) : option (option (Z * Z)) :=
  match n with
  | O => None
  | S n =>
    if m it =? 0 then Some None
    else if m it =? 0xE5 then scan_dirents n (it + sizeof_dirent) filename m
    else if bool_decide (take 11 filename = short_name m it) then
      Some (Some (Z.lor (u32 (Z.shiftl (cluster_hi m it) 2)) (cluster_lo m it), dirent_file_sz m it))
    else scan_dirents n (it + sizeof_dirent) filename m
  end.

(** [for (uint8_t sector = 0; sector < sectors_per_cluster; ++sector)] *)
Fixpoint scan_sectors (n : nat) (sector : Z) (d : fat32_desc) (filename : list Z) (cluster : Z)
    : M ram (option (option (Z * Z))) :=
  match n with
  | O => mret None
  | S n =>
    m ← getS;
    let m := copy_bytes (buf d)
               (u32 (_fat32_cluster_data_offset_bytes d cluster + sector * bytes_per_sector d))
               (bytes_per_sector d) m in
    _ ← putS m;
    match scan_dirents (Z.to_nat (bytes_per_sector d / 4)) (buf d) filename m with
    | Some r => mret (Some r)
    | None => scan_sectors n (sector + 1) d filename cluster
    end
  end.

(** [_fat32_find_file], the recursion over the clusters of the root
    directory bounded by [fuel] *)
Fixpoint _fat32_find_file (fuel : nat) (d : fat32_desc) (filename : list Z) (cluster : Z)
    : M ram (option fat32_file_desc) :=
  match fuel with
  | O => halt OutOfFuel
  | S fuel =>
    let fat_entries_per_sector := bytes_per_sector d / 4 in
    r ← scan_sectors (Z.to_nat (sectors_per_cluster d)) 0 d filename cluster;
    match r with
    | Some None => mret None
    | Some (Some (c, sz)) => mret (Some (FileDesc d c sz))
    | None =>
      m ← getS;
      let m := copy_bytes (buf d)
                 (u32 (fat_offset_bytes d + u32 ((cluster / fat_entries_per_sector) * bytes_per_sector d)))
                 (bytes_per_sector d) m in
      _ ← putS m;
      let next_cluster := le32 m (buf d + 4 * (cluster mod fat_entries_per_sector)) in
      _ ← assertM (negb (_fat32_is_last_cluster_in_file next_cluster));
      _fat32_find_file fuel d filename (_fat32_mask_entry next_cluster)
    end
  end.

(** A filename is the list of its characters, the NUL included. *)
Definition fat32_find_file (fuel : nat) (d : fat32_desc) (filename : list Z)
    : M ram (option fat32_file_desc) :=
  c ← liftO (aget filename 11);
  _ ← assertM (c =? 0);
  _fat32_find_file fuel d filename (root_dir_start_cluster d).

(** The do-while loop of [fat32_read_file], one iteration per fuel *)
Fixpoint read_loop (fuel : nat) (dst : Z) (file : fat32_file_desc)
    (cluster remaining_bytes last_fat_sector : Z) : M ram Z :=
  match fuel with
  | O => halt OutOfFuel
  | S fuel =>
    let d := fs file in
    let bytes_to_read := u32 (sectors_per_cluster d * bytes_per_sector d) in
    let bytes_to_read := if remaining_bytes <? bytes_to_read then remaining_bytes else bytes_to_read in
    let bytes_read := u32 (file_sz_bytes file - remaining_bytes) in
    m ← getS;
    let m := copy_bytes (dst + bytes_read) (u32 (_fat32_cluster_data_offset_bytes d cluster))
               bytes_to_read m in
    let remaining_bytes := u32 (remaining_bytes - bytes_to_read) in
    let fat_entries_per_sector := bytes_per_sector d / 4 in
    let fat_sector := cluster / fat_entries_per_sector in
    let m := if negb (fat_sector =? last_fat_sector)
             then copy_bytes (buf d) (u32 (u32 (fat_offset_bytes d) + u32 (fat_sector * bytes_per_sector d)))
                    (bytes_per_sector d) m
             else m in
    _ ← putS m;
    let cluster := le32 m (buf d + 4 * (cluster mod fat_entries_per_sector)) in
    if negb (_fat32_is_last_cluster_in_file cluster)
    then read_loop fuel dst file cluster remaining_bytes fat_sector
    else mret remaining_bytes
  end.

Definition fat32_read_file (fuel : nat) (dst : Z) (file : fat32_file_desc) : M ram bool :=
  remaining_bytes ← read_loop fuel dst file (start_cluster file) (file_sz_bytes file) (2 ^ 32 - 1);
  _ ← assertM (remaining_bytes =? 0);
  mret true.

(** ** copy_kernel.c *)
Definition _mbr_partitions : Z := 0x7DBE.

Fixpoint find_partition (n : nat) (it : Z) (m : ram) : option Z :=
  match n with
  | O => None
  | S n =>
    if (partition_type m it =? 0x0C) && (drive_attrs m it =? 0x80) then Some it
    else find_partition n (it + 16) m
  end.

(** The scan for boot protocol requests; [e820_mem_map] is the address
    of the array.  The request's pointer follows the 12-byte header. *)
Fixpoint fulfill_loop (n : nat) (needle e820_mem_map : Z) (m : ram) : ram :=
  match n with
  | O => m
  | S n =>
    let m :=
      if le64 m needle =? BP_REQ_MAGIC then
        if le32 m (needle + 8) =? BP_REQID_MEMORY_MAP then put32 m (needle + 12) e820_mem_map else m
      else m in
    fulfill_loop n (needle + BP_REQ_ALIGN) e820_mem_map m
  end.
Definition _fulfill_boot_protocol_requests (kernel_addr kernel_len e820_mem_map : Z) (m : ram) : ram :=
  fulfill_loop (Z.to_nat ((kernel_len + BP_REQ_ALIGN - 1) / BP_REQ_ALIGN)) kernel_addr e820_mem_map m.

(** ["KERNEL  BIN"] with its NUL *)
Definition kernel_name : list Z := [75; 69; 82; 78; 69; 76; 32; 32; 66; 73; 78; 0].

(** [copy_kernel]: the physical address of the kernel, 0 for [NULL]. *)
Definition copy_kernel (fuel : nat) (e820_mem_map : Z) (mm : e820_map) : M ram (Z * e820_map) :=
  m ← getS;
  match find_partition 4 _mbr_partitions m with
  | None => mret (0, mm)
  | Some part =>
    '(desc, mm) ← liftO (fat32_init_desc mm);
    match desc with
    | None => mret (0, mm)
    | Some (bufp, bufsz) =>
      d ← fat32_parse_partition (first_sector_lba m part) bufp bufsz;
      f ← fat32_find_file fuel d kernel_name;
      match f with
      | None => mret (0, mm)
      | Some file =>
        let kernel_len := file_sz_bytes file in
        _ ← assertM (kernel_len <=? u32 (u32 (4 * GB) - KERNEL_LOAD_ADDR));
        kernel_paddr ← liftO (e820_alloc mm kernel_len true);
        if kernel_paddr =? 0 then mret (0, mm)
        else
          '(_, mm) ← liftO (e820_augment_bootloader mm kernel_paddr kernel_len E820_MM_TYPE_BOOTLOADER);
          ok ← fat32_read_file fuel kernel_paddr file;
          if (ok : bool) then
            m ← getS;
            _ ← putS (_fulfill_boot_protocol_requests kernel_paddr kernel_len e820_mem_map m);
            mret (kernel_paddr, mm)
          else mret (0, mm)
      end
    end
  end.

(** ** Geometry and cluster chains *)
Definition cluster_sz (d : fat32_desc) : Z := sectors_per_cluster d * bytes_per_sector d.

Definition geometry (d : fat32_desc) : Prop :=
  bytes_per_sector d mod 512 = 0 ∧ 512 ≤ bytes_per_sector d ≤ 4096 ∧
  1 ≤ sectors_per_cluster d ≤ 255 ∧
  0 ≤ fat_offset_bytes d ∧ fat_offset_bytes d mod 512 = 0 ∧
  0 ≤ data_region_offset_bytes d ∧ data_region_offset_bytes d mod 512 = 0.

Definition cluster_off (d : fat32_desc) (c : Z) : Z :=
  data_region_offset_bytes d + (c - 2) * cluster_sz d.

(** A data cluster within the 4GB that [copy_bytes] can address. *)
Definition cluster_ok (d : fat32_desc) (c : Z) : Prop :=
  2 ≤ c < 0x0FFFFFF7 ∧ cluster_off d c + cluster_sz d ≤ 2 ^ 32 ∧
  fat_offset_bytes d + 4 * c + bytes_per_sector d ≤ 2 ^ 32.

Definition fat_entry (d : fat32_desc) (c : Z) : Z := le32 disk (fat_offset_bytes d + 4 * c).

(** [c :: cs] is the cluster chain of a file on the disk. *)
Fixpoint chain (d : fat32_desc) (c : Z) (cs : list Z) : Prop :=
  cluster_ok d c ∧
  match cs with
  | [] => _fat32_is_last_cluster_in_file (fat_entry d c) = true
  | c' :: cs => fat_entry d c = c' ∧ chain d c' cs
  end.

(** Byte [i] of the file whose clusters are [c :: cs]. *)
Fixpoint chain_byte (d : fat32_desc) (c : Z) (cs : list Z) (i : Z) : Z :=
  match cs with
  | [] => disk (cluster_off d c + i)
  | c' :: cs' =>
    if i <? cluster_sz d then disk (cluster_off d c + i) else chain_byte d c' cs' (i - cluster_sz d)
  end.

(** The sector buffer holds FAT sector [s] (none for the initial -1). *)
Definition fat_cached (d : fat32_desc) (s : Z) (m : ram) : Prop :=
  s ≠ 2 ^ 32 - 1 →
  ∀ i, 0 ≤ i < bytes_per_sector d → m (buf d + i) = disk (fat_offset_bytes d + s * bytes_per_sector d + i).

Lemma le32_ext (m m' : ram) p q : (∀ i, 0 ≤ i < 4 → m (p + i) = m' (q + i)) → le32 m p = le32 m' q.
Proof.
  intros Hi. unfold le32, le16.
  pose proof (Hi 0 ltac:(lia)) as H0. rewrite !Z.add_0_r in H0.
  replace (p + 2 + 1) with (p + 3) by lia. replace (q + 2 + 1) with (q + 3) by lia.
  rewrite H0, (Hi 1), (Hi 2), (Hi 3) by lia. done.
Qed.

(** On aligned arguments [copy_bytes] copies exactly [len] bytes. *)
Lemma copy_bytes_aligned a off len m p :
  off mod 512 = 0 → len mod 512 = 0 → 0 < len → 0 ≤ off →
  copy_bytes a off len m p = if (a <=? p) && (p <? a + len) then disk (off + (p - a)) else m p.
Proof.
  intros Ho Hl Hlp Hop. unfold copy_bytes. rewrite !Z.shiftr_div_pow2 by lia. change (2 ^ 9) with 512.
  pose proof (Z.div_mod off 512 ltac:(lia)). pose proof (Z.div_mod len 512 ltac:(lia)).
  rewrite Z.max_r by lia. replace (512 * (len / 512)) with len by lia.
  by replace (512 * (off / 512)) with off by lia.
Qed.

Lemma cluster_off_eq d c :
  geometry d → cluster_ok d c →
  u32 (_fat32_cluster_data_offset_bytes d c) = cluster_off d c ∧
  cluster_off d c mod 512 = 0 ∧ 0 ≤ cluster_off d c.
Proof.
  intros (Hb & Hbr & Hs & _ & _ & Hd0 & Hdm) (Hc & Hr & _).
  unfold cluster_off, cluster_sz in *. unfold _fat32_cluster_data_offset_bytes, _fat32_mask_entry.
  change 0x0FFFFFFF with (2 ^ 28 - 1). rewrite land_mask_mod by lia.
  rewrite (Z.mod_small c) by lia.
  assert (0 ≤ (c - 2) * (sectors_per_cluster d * bytes_per_sector d)) by nia.
  assert (0 ≤ (c - 2) * sectors_per_cluster d ≤ (c - 2) * (sectors_per_cluster d * bytes_per_sector d)) by nia.
  rewrite (wrap_small 32 (c - 2)), (wrap_small 32 ((c - 2) * _)) by lia.
  rewrite <- Z.mul_assoc, (wrap_small 32 ((c - 2) * _)) by lia.
  rewrite wrap_small; [|rewrite wrap_small by lia; nia]. rewrite wrap_small by lia.
  split_and!; [done| |lia]. apply Z.mod_divide in Hb as [k ->]; [|lia].
  apply Z.mod_divide in Hdm as [j ->]; [|lia]. apply Z.mod_divide; [lia|].
  exists (j + (c - 2) * (sectors_per_cluster d * k)). lia.
Qed.

(** Loading the FAT sector of [c], or reusing the buffer, reads [c]'s
    entry. *)
Lemma fat_lookup d c last m :
  geometry d → cluster_ok d c → fat_cached d last m →
  let eps := bytes_per_sector d / 4 in
  let m' := if negb (c / eps =? last)
            then copy_bytes (buf d) (u32 (u32 (fat_offset_bytes d) + u32 (c / eps * bytes_per_sector d)))
                   (bytes_per_sector d) m
            else m in
  le32 m' (buf d + 4 * (c mod eps)) = fat_entry d c ∧ fat_cached d (c / eps) m' ∧
  (∀ p, ¬ (buf d ≤ p < buf d + bytes_per_sector d) → m' p = m p).
Proof.
  intros (Hb & Hbr & Hs & Hf0 & Hfm & _) (Hc & _ & Hr) Hcache. cbv zeta. set (eps := bytes_per_sector d / 4).
  assert (Heps : bytes_per_sector d = 4 * eps).
  { unfold eps. apply Z.mod_divide in Hb as [k ->]; [|lia]. replace (k * 512) with (k * 128 * 4) by lia.
    rewrite Z.div_mul by lia. lia. }
  pose proof (Z.div_mod c eps ltac:(lia)) as Hdm. pose proof (Z.mod_pos_bound c eps ltac:(lia)) as Hmb.
  assert (0 ≤ c / eps) by (apply Z.div_pos; lia).
  assert (Hsec : c / eps * bytes_per_sector d ≤ 4 * c) by (rewrite Heps; nia).
  assert (Hsec0 : 0 ≤ c / eps * bytes_per_sector d) by (apply Z.mul_nonneg_nonneg; lia).
  assert (Hoff : u32 (u32 (fat_offset_bytes d) + u32 (c / eps * bytes_per_sector d))
                 = fat_offset_bytes d + c / eps * bytes_per_sector d).
  { rewrite (wrap_small 32 (fat_offset_bytes d)), (wrap_small 32 (c / eps * _)) by lia.
    apply wrap_small. lia. }
  rewrite Hoff. set (m' := if negb _ then _ else _).
  assert (Hoffm : (fat_offset_bytes d + c / eps * bytes_per_sector d) mod 512 = 0).
  { rewrite Z.add_mod, Hfm, Z.mul_mod, Hb, Z.mul_0_r by lia. done. }
  assert (Hbuf : ∀ i, 0 ≤ i < bytes_per_sector d →
    m' (buf d + i) = disk (fat_offset_bytes d + c / eps * bytes_per_sector d + i)).
  { intros i Hi. unfold m'. destruct (Z.eqb_spec (c / eps) last) as [He|]; cbn [negb].
    - rewrite He. apply Hcache; [|done]. rewrite <- He. nia.
    - rewrite copy_bytes_aligned by (done || lia).
      rewrite (proj2 (Z.leb_le _ _)), (proj2 (Z.ltb_lt _ _)) by lia. cbn [andb]. f_equal. lia. }
  split_and!.
  - apply le32_ext. intros i Hi. rewrite <- Z.add_assoc, Hbuf by lia. f_equal. rewrite Heps. nia.
  - intros _. done.
  - intros p Hp. unfold m'. destruct (negb _); [|done]. rewrite copy_bytes_aligned by (done || lia).
    destruct (Z.leb_spec (buf d) p), (Z.ltb_spec p (buf d + bytes_per_sector d)); (done || lia).
Qed.

Lemma is_last_small d c : cluster_ok d c → _fat32_is_last_cluster_in_file c = false.
Proof.
  intros (Hc & _). unfold _fat32_is_last_cluster_in_file, _fat32_mask_entry.
  change 0x0FFFFFFF with (2 ^ 28 - 1). rewrite land_mask_mod, Z.mod_small by lia. apply Z.leb_gt. lia.
Qed.

Definition in_range (p lo hi : Z) : Prop := lo ≤ p < hi.

(** One transfer of [len] bytes to [a]. *)
Lemma copy_cluster d c a len m :
  geometry d → cluster_ok d c → len mod 512 = 0 → 0 < len →
  let m' := copy_bytes a (u32 (_fat32_cluster_data_offset_bytes d c)) len m in
  (∀ i, 0 ≤ i < len → m' (a + i) = disk (cluster_off d c + i)) ∧
  (∀ p, ¬ in_range p a (a + len) → m' p = m p).
Proof.
  intros Hg Hc Hl Hlp. destruct (cluster_off_eq d c Hg Hc) as (-> & Hm & H0). cbv zeta.
  split; intros p Hp; rewrite copy_bytes_aligned by done.
  - rewrite (proj2 (Z.leb_le _ _)), (proj2 (Z.ltb_lt _ _)) by lia. cbn [andb]. f_equal. lia.
  - unfold in_range in Hp. destruct (Z.leb_spec a p), (Z.ltb_spec p (a + len)); (done || lia).
Qed.

Lemma read_loop_spec file dst cs : ∀ c r last m fuel,
  let d := fs file in
  geometry d → chain d c cs →
  zlen cs * cluster_sz d < r ≤ (zlen cs + 1) * cluster_sz d → r mod 512 = 0 →
  r ≤ file_sz_bytes file < 2 ^ 32 →
  (dst + file_sz_bytes file ≤ buf d ∨ buf d + bytes_per_sector d ≤ dst) →
  fat_cached d last m → (length cs < fuel)%nat →
  wp (read_loop fuel dst file c r last) (λ rem m', rem = 0 ∧
    let base := dst + (file_sz_bytes file - r) in
    (∀ i, 0 ≤ i < r → m' (base + i) = chain_byte d c cs i) ∧
    (∀ p, ¬ in_range p base (base + r) → ¬ in_range p (buf d) (buf d + bytes_per_sector d) → m' p = m p)) m.
Proof.
  induction cs as [|c' cs IH]; intros c r last m [|fuel] d Hg Hch Hr Hrm Hsz Hdisj Hcache Hfu;
    try (simpl in Hfu; lia); cbn [read_loop]; fold d;
    pose proof Hg as (Hb & Hbr & Hs & _);
    assert (Hcsz : 0 < cluster_sz d < 2 ^ 32) by (unfold cluster_sz; nia);
    assert (Hcm : cluster_sz d mod 512 = 0) by (unfold cluster_sz; by rewrite Z.mul_mod, Hb, Z.mul_0_r by lia);
    fold (cluster_sz d); rewrite (wrap_small 32 (cluster_sz d)), (wrap_small 32 (file_sz_bytes file - r)) by lia;
    apply wp_bind, wp_get; cbv zeta; destruct Hch as [Hc Hnext].
  - set (btr := if r <? cluster_sz d then r else cluster_sz d).
    assert (btr = r) as -> by (unfold btr; destruct (Z.ltb_spec r (cluster_sz d)); simpl in Hr; lia).
    destruct (copy_cluster d c (dst + (file_sz_bytes file - r)) r m Hg Hc Hrm) as [Hdat Hfr]; [simpl in Hr; lia|].
    set (m1 := copy_bytes (dst + _) _ r m) in *.
    assert (Hcache1 : fat_cached d last m1).
    { intros Hl i Hi. rewrite Hfr; [by apply Hcache|]. unfold in_range. lia. }
    destruct (fat_lookup d c last m1 Hg Hc Hcache1) as (Hent & _ & Hfr2). cbv zeta in *.
    set (m2 := if negb _ then _ else m1) in *. apply wp_bind, wp_put. rewrite Hent, Hnext. cbn [negb].
    apply wp_ret. rewrite Z.sub_diag. split; [done|]. split.
    + intros i Hi. rewrite Hfr2 by lia. by apply Hdat.
    + intros p Hp1 Hp2. rewrite Hfr2 by done. by apply Hfr.
  - destruct Hnext as [Hnext Hch']. cbn [length] in Hr.
    set (btr := if r <? cluster_sz d then r else cluster_sz d).
    assert (btr = cluster_sz d) as -> by (unfold btr; destruct (Z.ltb_spec r (cluster_sz d)); nia).
    destruct (copy_cluster d c (dst + (file_sz_bytes file - r)) (cluster_sz d) m Hg Hc Hcm) as [Hdat Hfr]; [lia|].
    set (m1 := copy_bytes (dst + _) _ _ m) in *.
    assert (Hcache1 : fat_cached d last m1).
    { intros Hl i Hi. rewrite Hfr; [by apply Hcache|]. unfold in_range. nia. }
    destruct (fat_lookup d c last m1 Hg Hc Hcache1) as (Hent & Hcache2 & Hfr2). cbv zeta in *.
    set (m2 := if negb _ then _ else m1) in *. apply wp_bind, wp_put. rewrite Hent, Hnext.
    rewrite (is_last_small d c') by (by destruct cs; destruct Hch'). cbn [negb].
    rewrite wrap_small by nia.
    eapply wp_mono; [apply (IH c' (r - cluster_sz d) _ m2 fuel); fold d; try done|].
    + lia.
    + by rewrite Zminus_mod, Hrm, Hcm.
    + lia.
    + simpl in Hfu. lia.
    + fold d. intros rem m' (-> & Hdat' & Hfr'). split; [done|].
      replace (dst + (file_sz_bytes file - (r - cluster_sz d)))
        with (dst + (file_sz_bytes file - r) + cluster_sz d) in * by lia.
      split.
      * intros i Hi. cbn [chain_byte]. destruct (Z.ltb_spec i (cluster_sz d)).
        -- rewrite Hfr' by (unfold in_range; lia). rewrite Hfr2 by lia. apply Hdat. lia.
        -- rewrite <- Hdat' by lia. f_equal. lia.
      * intros p Hp1 Hp2. unfold in_range in *. rewrite Hfr' by lia. rewrite Hfr2 by lia.
        apply Hfr. lia.
Qed.
End fat.

(** Reading a file whose size is a positive multiple of 512 bytes
    and whose clusters form a chain of the FAT terminates successfully;
    the destination then holds exactly the file's bytes, cluster after
    cluster, and no RAM other than the destination and the sector buffer
    changes. *)
Theorem fat32_read_file_loads disk file dst cs m fuel :
  let d := fs file in
  geometry d → chain disk d (start_cluster file) cs →
  file_sz_bytes file mod 512 = 0 → file_sz_bytes file < 2 ^ 32 →
  zlen cs * cluster_sz d < file_sz_bytes file ≤ (zlen cs + 1) * cluster_sz d →
  (dst + file_sz_bytes file ≤ buf d ∨ buf d + bytes_per_sector d ≤ dst) → (length cs < fuel)%nat →
  ∃ m', fat32_read_file disk fuel dst file m = Ret (true, m') ∧
    (∀ i, 0 ≤ i < file_sz_bytes file → m' (dst + i) = chain_byte disk d (start_cluster file) cs i) ∧
    (∀ p, ¬ (dst ≤ p < dst + file_sz_bytes file) → ¬ (buf d ≤ p < buf d + bytes_per_sector d) → m' p = m p).
Proof.
  intros d Hg Hch Hm Hlt Hsz Hdisj Hfu.
  assert (Hc0 : fat_cached disk d (2 ^ 32 - 1) m) by (intros Hn; by destruct Hn).
  destruct (proj1 (wp_run _ _ _) (read_loop_spec disk file dst cs (start_cluster file) (file_sz_bytes file)
    (2 ^ 32 - 1) m fuel Hg Hch Hsz Hm ltac:(lia) Hdisj Hc0 Hfu))
    as (rem & m' & Hrun & -> & Hdat & Hfr).
  exists m'. unfold fat32_read_file. munfold. rewrite Hrun. fold d in Hdat, Hfr.
  rewrite Z.sub_diag, Z.add_0_r in Hdat, Hfr. done.
Qed.

(** ** Directory search *)
Lemma short_name_ext (m m' : ram) p q :
  (∀ i, 0 ≤ i < 32 → m (p + i) = m' (q + i)) → short_name m p = short_name m' q.
Proof.
  intros Hi. unfold short_name. apply list_fmap_ext. intros i x Hx.
  apply lookup_seq in Hx as [-> ?]. simpl. apply Hi. lia.
Qed.

(** The directory entries at [p], [32] bytes each: entry [k] decides the
    search for [name] when no earlier entry ends it. *)
Definition skipped (m : ram) (name : list Z) (p : Z) : Prop :=
  m p ≠ 0 ∧ (m p = 0xE5 ∨ short_name m p ≠ name).
Definition decided (m : ram) (name : list Z) (p : Z) (r : option (Z * Z)) : Prop :=
  (m p = 0 ∧ r = None) ∨
  (m p ≠ 0 ∧ m p ≠ 0xE5 ∧ short_name m p = name ∧
   r = Some (Z.lor (u32 (Z.shiftl (cluster_hi m p) 2)) (cluster_lo m p), dirent_file_sz m p)).

Lemma scan_dirents_spec m filename r k : ∀ n it,
  (∀ j : nat, (j < k)%nat → skipped m (take 11 filename) (it + 32 * Z.of_nat j)) →
  decided m (take 11 filename) (it + 32 * Z.of_nat k) r → (k < n)%nat →
  scan_dirents n it filename m = Some r.
Proof.
  induction k as [|k IH]; intros [|n] it Hsk Hd Hn; try lia; cbn [scan_dirents].
  - rewrite Z.mul_0_r, Z.add_0_r in Hd. destruct Hd as [[H0 ->]|(H0 & HE & Hnm & ->)].
    + by rewrite (proj2 (Z.eqb_eq _ _)).
    + by rewrite !(proj2 (Z.eqb_neq _ _)), bool_decide_true by done.
  - destruct (Hsk 0%nat) as [H0 Hor]; [lia|]. rewrite Z.mul_0_r, Z.add_0_r in H0, Hor.
    rewrite (proj2 (Z.eqb_neq _ _)) by done.
    assert (Hrec : scan_dirents n (it + sizeof_dirent) filename m = Some r).
    { assert (Hit : ∀ j, it + sizeof_dirent + 32 * Z.of_nat j = it + 32 * Z.of_nat (S j))
        by (intros; unfold sizeof_dirent; lia).
      apply IH; [intros j Hj; rewrite Hit; apply Hsk; lia|by rewrite Hit|lia]. }
    destruct (Z.eqb_spec (m it) 0xE5); [done|]. destruct Hor as [|Hor]; [done|].
    by rewrite bool_decide_false by congruence.
Qed.

(** What an entry says depends on its 32 bytes only. *)
Lemma skipped_ext (m m' : ram) name p q :
  (∀ i, 0 ≤ i < 32 → m (p + i) = m' (q + i)) → skipped m' name q → skipped m name p.
Proof.
  intros Hi. unfold skipped. pose proof (Hi 0 ltac:(lia)) as H0. rewrite !Z.add_0_r in H0.
  by rewrite H0, (short_name_ext m m' p q).
Qed.

Lemma decided_ext (m m' : ram) name p q r :
  (∀ i, 0 ≤ i < 32 → m (p + i) = m' (q + i)) → decided m' name q r → decided m name p r.
Proof.
  intros Hi. unfold decided. pose proof (Hi 0 ltac:(lia)) as H0. rewrite !Z.add_0_r in H0.
  rewrite H0, (short_name_ext m m' p q) by done.
  assert (Hc : cluster_hi m p = cluster_hi m' q ∧ cluster_lo m p = cluster_lo m' q).
  { unfold cluster_hi, cluster_lo, le16. rewrite <- !Z.add_assoc.
    split; f_equal; [|f_equal| |f_equal]; apply Hi; lia. }
  destruct Hc as [-> ->].
  replace (dirent_file_sz m p) with (dirent_file_sz m' q); [done|]. symmetry.
  unfold dirent_file_sz. apply le32_ext. intros i Hi4. rewrite <- !Z.add_assoc. apply Hi. lia.
Qed.

(** The directory search returns the first live entry with the
    requested name, or fails at the end marker, whenever one of the two
    is among the entries of the first directory sector; it changes the
    sector buffer only. *)
Theorem fat32_find_file_finds disk d filename k r m fuel :
  let base := cluster_off d (root_dir_start_cluster d) in
  geometry d → cluster_ok d (root_dir_start_cluster d) →
  filename !! 11%nat = Some 0 → 32 * (Z.of_nat k + 1) ≤ bytes_per_sector d →
  (∀ j : nat, (j < k)%nat → skipped disk (take 11 filename) (base + 32 * Z.of_nat j)) →
  decided disk (take 11 filename) (base + 32 * Z.of_nat k) r →
  ∃ m', fat32_find_file disk (S fuel) d filename m =
    Ret ((λ x, FileDesc d x.1 x.2) <$> r, m') ∧
    ∀ p, ¬ (buf d ≤ p < buf d + bytes_per_sector d) → m' p = m p.
Proof.
  intros base Hg Hroot Hnul Hk Hsk Hd. pose proof Hg as (Hb & Hbr & Hs & _).
  destruct (cluster_off_eq d _ Hg Hroot) as (Hoff & Hoffm & Hoff0). fold base in Hoff, Hoffm, Hoff0.
  unfold fat32_find_file. munfold. change 11 with (Z.of_nat 11). rewrite (aget_Some _ _ _ Hnul).
  cbn [Z.eqb _fat32_find_file].
  destruct (Z.to_nat (sectors_per_cluster d)) as [|n] eqn:Hn; [lia|]. cbn [scan_sectors].
  rewrite Z.mul_0_l, Z.add_0_r, Hoff. munfold.
  set (m1 := copy_bytes disk _ _ _ m).
  assert (Hm1 : ∀ x, 0 ≤ x < bytes_per_sector d → m1 (buf d + x) = disk (base + x)).
  { intros x Hx. unfold m1. rewrite copy_bytes_aligned by (done || lia).
    rewrite (proj2 (Z.leb_le _ _)), (proj2 (Z.ltb_lt _ _)) by lia. cbn [andb]. f_equal. lia. }
  assert (Hent : ∀ (j : nat), (j ≤ k)%nat → ∀ i, 0 ≤ i < 32 →
    m1 (buf d + 32 * Z.of_nat j + i) = disk (base + 32 * Z.of_nat j + i)).
  { intros j Hj i Hi. rewrite <- !Z.add_assoc. apply Hm1. lia. }
  rewrite (scan_dirents_spec m1 filename r k).
  - assert (Hframe : ∀ p, ¬ (buf d ≤ p < buf d + bytes_per_sector d) → m1 p = m p).
    { intros p Hp. unfold m1. rewrite copy_bytes_aligned by (done || lia).
      destruct (Z.leb_spec (buf d) p), (Z.ltb_spec p (buf d + bytes_per_sector d)); (done || lia). }
    destruct r as [[c sz]|]; (eexists; split; [reflexivity|exact Hframe]).
  - intros j Hj. eapply skipped_ext; [|by apply Hsk]. apply Hent. lia.
  - eapply decided_ext; [|exact Hd]. apply Hent. lia.
  - apply Z.mod_divide in Hb as [q Hq]; [|lia]. rewrite Hq in *.
    replace (q * 512) with (q * 128 * 4) by lia. rewrite Z.div_mul by lia. lia.
Qed.

(** A disk with a two-cluster file: FAT sector at byte 512, data region
    at byte 1024, clusters of one 512-byte sector; entry 2 is 3, entry 3
    ends the chain. *)
Definition demo_disk : ram := λ p,
  if p =? 512 + 8 then 3
  else if (512 + 12 <=? p) && (p <? 512 + 16) then 0xFF
  else if p <? 1024 then 0 else p / 512.
Definition demo_desc : fat32_desc := FatDesc 0x10000 4096 512 1 512 1024 2.
Definition demo_file : fat32_file_desc := FileDesc demo_desc 2 1024.

Lemma fat32_read_file_loads_witness :
  ∃ m', fat32_read_file demo_disk 2 0x100000 demo_file (λ _, 0) = Ret (true, m') ∧
    m' 0x100000 = 2 ∧ m' (0x100000 + 1023) = 3 ∧ m' (0x100000 + 1024) = 0.
Proof.
  destruct (fat32_read_file_loads demo_disk demo_file 0x100000 [3] (λ _, 0) 2) as (m' & Hr & Hd & Hf).
  - repeat split; simpl; lia.
  - repeat split; simpl; (lia || done).
  - done.
  - simpl. lia.
  - unfold cluster_sz. simpl. lia.
  - simpl. lia.
  - simpl. lia.
  - exists m'. split; [done|]. split_and!.
    + rewrite <- (Z.add_0_r 0x100000), Hd by (simpl; lia). done.
    + rewrite Hd by (simpl; lia). done.
    + apply Hf; simpl; lia.
Defined.

(** A file of 1000 bytes in one cluster of two sectors: [copy_bytes]
    truncates the length to one sector, and byte 600 is never loaded. *)
Example unaligned_tail_not_loaded :
  match fat32_read_file demo_disk 2 0x100000
          (FileDesc (FatDesc 0x10000 4096 512 2 512 1024 2) 3 1000) (λ _, 77) with
  | Ret (ok, m') => ok = true ∧ m' 0x100000 = 4 ∧ m' (0x100000 + 600) = 77
  | Halt _ => False
  end.
Proof. by vm_compute. Qed.

(** A root directory (cluster 2 at byte 1024): a deleted entry, then
    "KERNEL  BIN" at cluster 5, 2048 bytes. *)
Definition demo_dir : ram := λ p,
  if p =? 1024 then 0xE5
  else if (1056 <=? p) && (p <? 1056 + 11) then nth (Z.to_nat (p - 1056)) kernel_name 0
  else if p =? 1056 + 26 then 5
  else if p =? 1056 + 29 then 8
  else 0.

Lemma fat32_find_file_finds_witness :
  ∃ m', fat32_find_file demo_dir 1 demo_desc kernel_name (λ _, 0)
        = Ret (Some (FileDesc demo_desc 5 2048), m').
Proof.
  destruct (fat32_find_file_finds demo_dir demo_desc kernel_name 1 (Some (5, 2048)) (λ _, 0) 0) as (m' & Hm & _);
    [..|by exists m'].
  - repeat split; simpl; lia.
  - repeat split; by vm_compute.
  - done.
  - simpl. lia.
  - intros j Hj. assert (j = 0%nat) as -> by lia. split; [done|]. by left.
  - right. by vm_compute.
Defined.

(** The scan covers [bytes_per_sector / 4] entries of 32 bytes, eight
    times what one sector holds: it reads stale RAM after the sector. *)
Example stale_entry_found :
  match fat32_find_file (λ p, if p <? 1024 then 0 else 1) 1 demo_desc kernel_name
          (λ p, if (0x10200 <=? p) && (p <? 0x10200 + 11) then nth (Z.to_nat (p - 0x10200)) kernel_name 0 else 7) with
  | Ret (Some f, _) => start_cluster f = Z.lor (Z.shiftl 0x0707 2) 0x0707
  | _ => False
  end.
Proof. by vm_compute. Qed.
