(* ===== verification/BootStage2.v ===== *)
(** * The boot loader from protected mode to the kernel ([boot/stage2.S],
    [boot/page_table.c])

    [pmode_entry] calls the parts of the boot loader one after the other:
    the memory map is completed, the kernel is read from the disk, the page
    tables are built and checked, and the kernel is entered.  RAM is a
    function from physical addresses to bytes; the memory map is kept
    beside it.  An error ends in a loop, here the result [None]. *)
From S2P Require Import Prelude Algorithm BootProtocol Bitfield BootMem BootPaging BootFat.

(** What the processor does with an address before paging is enabled. *)
Definition paging_off (va : Z) : option Z := Some va.

Definition vload (tr : Z → option Z) (m : ram) (va : Z) : outcome Z := pa ← deref (tr va); Ret (m pa).

(** [memcmp] of [common/libc_minimal.h] through a translation *)
Fixpoint memcmp_v (tr : Z → option Z) (m : ram) (s1 s2 : Z) (n : nat) : outcome Z :=
  match n with
  | O => Ret 0
  | S n =>
    a ← vload tr m s1;
    b ← vload tr m s2;
    if a =? b then memcmp_v tr m (s1 + 1) (s2 + 1) n else Ret (if a <? b then -1 else 1)
  end.

Definition check_paging_setup (tr : Z → option Z) (m : ram) : outcome bool :=
  r ← memcmp_v tr m PG_SZ (HM_START + PG_SZ) (Z.to_nat (32 * KB));
  Ret (r =? 0).

(** The two pages of tables, as [pt_setup] leaves them in RAM. *)
Definition word_byte (pg : page) (off : Z) : Z :=
  u8 (Z.shiftr (default 0 (pg !! Z.to_nat (off / 4))) (8 * (off mod 4))).
Definition store_tables (pt_mem : Z) (st : boot_pt) (m : ram) : ram := λ p,
  if (pt_mem <=? p) && (p <? pt_mem + PG_SZ) then word_byte (pd st) (p - pt_mem)
  else if (pt_mem + PG_SZ <=? p) && (p <? pt_mem + 2 * PG_SZ) then word_byte (dm_pt st) (p - pt_mem - PG_SZ)
  else m p.

(** The machine as the kernel is entered. *)
Record booted := Booted {
  b_eip : Z; b_esp : Z; b_kernel : Z; b_pt_mem : Z; b_tables : boot_pt; b_mm : e820_map; b_ram : ram }.
Definition b_translate (b : booted) : Z → option Z :=
  translate (pd (b_tables b)) (boot_table (b_pt_mem b + PG_SZ) (b_tables b)).

(** [add HM_START, %esp; push $0; jmp KERNEL_LOAD_ADDR] *)
Definition jump_to_kernel (esp kernel pt_mem : Z) (st : boot_pt) (mm : e820_map) (m : ram) : outcome booted :=
  let esp := u32 (u32 (esp + HM_START) - 4) in
  pa ← deref (translate (pd st) (boot_table (pt_mem + PG_SZ) st) esp);
  Ret (Booted KERNEL_LOAD_ADDR esp kernel pt_mem st mm (put32 m pa 0)).

Section stage2.
Context (disk : ram).

Definition pmode_entry (fuel : nat) (e820_mem_map mbr_start feat esp : Z) (mm : e820_map) (m : ram)
    : outcome (option booted) :=
  '(ok, mm) ← augment_bootloader_text_stack_sections mbr_start mm;
  if negb ok then Ret None
  else
    '((kernel, mm), m) ← copy_kernel disk fuel e820_mem_map mm m;
    if kernel =? 0 then Ret None
    else if negb (check_cpuid_features feat) then Ret None
    else
      before ← check_paging_setup paging_off m;
      if (before : bool) then Ret None
      else
        '(ok, mm, tables) ← pt_setup mm kernel;
        match tables with
        | None => Ret None
        | Some (pt_mem, st) =>
          let m := store_tables pt_mem st m in
          if negb ok then Ret None
          else
            after ← check_paging_setup (translate (pd st) (boot_table (pt_mem + PG_SZ) st)) m;
            if negb after then Ret None
            else
              b ← jump_to_kernel esp kernel pt_mem st mm m;
              Ret (Some b)
        end.
End stage2.

(** ** Comparing memory *)
Lemma memcmp_v_same tr m n : ∀ s1 s2,
  (∀ i, 0 ≤ i < Z.of_nat n → ∃ pa, tr (s1 + i) = Some pa ∧ tr (s2 + i) = Some pa) →
  memcmp_v tr m s1 s2 n = Ret 0.
Proof.
  induction n as [|n IH]; intros s1 s2 Htr; cbn [memcmp_v]; [done|].
  destruct (Htr 0) as (pa & H1 & H2); [lia|]. rewrite !Z.add_0_r in H1, H2.
  unfold vload. rewrite H1, H2. munfold. rewrite Z.eqb_refl. apply IH. intros i Hi.
  rewrite <- !Z.add_assoc. apply Htr. lia.
Qed.

Lemma memcmp_off_differs m n : ∀ s1 s2 i,
  0 ≤ i < Z.of_nat n → m (s1 + i) ≠ m (s2 + i) →
  ∃ r, memcmp_v paging_off m s1 s2 n = Ret r ∧ r ≠ 0.
Proof.
  induction n as [|n IH]; intros s1 s2 i Hi Hne; [lia|]. cbn [memcmp_v]. unfold vload, paging_off. munfold.
  destruct (Z.eqb_spec (m s1) (m s2)) as [He|He].
  - assert (i ≠ 0) by (intros ->; rewrite !Z.add_0_r in Hne; done).
    apply (IH (s1 + 1) (s2 + 1) (i - 1)); [lia|].
    by replace (s1 + 1 + (i - 1)) with (s1 + i) by lia; replace (s2 + 1 + (i - 1)) with (s2 + i) by lia.
  - exists (if m s1 <? m s2 then -1 else 1). split; [done|]. by destruct (m s1 <? m s2).
Qed.

(** ** The boot protocol requests *)
Definition request_at (m : ram) (needle : Z) : bool :=
  (le64 m needle =? BP_REQ_MAGIC) && (le32 m (needle + 8) =? BP_REQID_MEMORY_MAP).

(** The byte at offset [i] of an image whose requests point to [ptr]: the
    pointer of a request follows its 12-byte header, and requests are at
    multiples of 8. *)
Definition answered (img : ram) (n ptr i : Z) : Z :=
  let o := i - 12 in
  if (0 <=? o) && (o / 8 <? n) && (o mod 8 <? 4) && request_at img (8 * (o / 8))
  then u8 (Z.shiftr ptr (8 * (o mod 8))) else img i.

Lemma le64_ext (m m' : ram) p q : (∀ i, 0 ≤ i < 8 → m (p + i) = m' (q + i)) → le64 m p = le64 m' q.
Proof.
  intros Hi. unfold le64. rewrite (le32_ext m m' p q) by (intros; apply Hi; lia).
  by rewrite (le32_ext m m' (p + 4) (q + 4)) by (intros; rewrite <- !Z.add_assoc; apply Hi; lia).
Qed.
Lemma request_ext (m m' : ram) p q : (∀ i, 0 ≤ i < 12 → m (p + i) = m' (q + i)) → request_at m p = request_at m' q.
Proof.
  intros Hi. unfold request_at. rewrite (le64_ext m m' p q) by (intros; apply Hi; lia).
  by rewrite (le32_ext m m' (p + 8) (q + 8)) by (intros; rewrite <- !Z.add_assoc; apply Hi; lia).
Qed.

(** A word whose low half is a request number is not the magic one. *)
Lemma not_magic m p : le32 m p = BP_REQID_MEMORY_MAP → le64 m p ≠ BP_REQ_MAGIC.
Proof.
  intros Hl Hm. unfold le64 in Hm. rewrite Hl in Hm.
  assert (Hmod : (BP_REQID_MEMORY_MAP + 2 ^ 32 * le32 m (p + 4)) mod 2 ^ 32 = BP_REQ_MAGIC mod 2 ^ 32) by (by rewrite Hm).
  rewrite (Z.mul_comm (2 ^ 32)), Z.mod_add in Hmod by lia. vm_compute in Hmod. done.
Qed.

(** RAM after the requests of the [n] words from [a] have been answered. *)
Definition fulfilled (m : ram) (a n e p : Z) : Z :=
  let o := p - a - 12 in
  if (0 <=? o) && (o / 8 <? n) && (o mod 8 <? 4) && request_at m (a + 8 * (o / 8))
  then u8 (Z.shiftr e (8 * (o mod 8))) else m p.

(** Answering one request leaves the other headers as they are: the only
    one it overlaps starts with a request number, not with the magic. *)
Lemma request_after_put m a e q : request_at m a = true → 1 ≤ q →
  request_at (put32 m (a + 12) e) (a + 8 * q) = request_at m (a + 8 * q).
Proof.
  intros [_ Hid]%andb_true_iff Hq. apply Z.eqb_eq in Hid. destruct (Z.eq_dec q 1) as [->|].
  - assert (Hid' : le32 (put32 m (a + 12) e) (a + 8) = BP_REQID_MEMORY_MAP).
    { rewrite <- Hid. apply le32_ext. intros i Hi. unfold put32. by replace (a + 12 <=? a + 8 + i) with false by lia. }
    unfold request_at. change (8 * 1) with 8.
    by rewrite !(proj2 (Z.eqb_neq _ BP_REQ_MAGIC)) by (by apply not_magic).
  - apply request_ext. intros i Hi. unfold put32. by replace (a + 8 * q + i <? a + 12 + 4) with false by lia; rewrite andb_false_r.
Qed.

Lemma fulfill_loop_spec e n : ∀ a m p, fulfill_loop n a e m p = fulfilled m a (Z.of_nat n) e p.
Proof.
  induction n as [|n IH]; intros a m p; cbn [fulfill_loop].
  { unfold fulfilled. cbv zeta. destruct (Z.leb_spec 0 (p - a - 12)); [|done].
    assert (0 ≤ (p - a - 12) / 8) by (apply Z.div_pos; lia).
    by rewrite (proj2 (Z.ltb_ge _ (Z.of_nat 0))). }
  set (m1 := if le64 m a =? BP_REQ_MAGIC then _ else m).
  assert (Hm1 : m1 = if request_at m a then put32 m (a + 12) e else m).
  { unfold m1, request_at. by destruct (le64 m a =? _). }
  rewrite IH. unfold fulfilled. cbv zeta. change BP_REQ_ALIGN with 8.
  replace (p - (a + 8) - 12) with (p - a - 12 + (-1) * 8) by lia.
  set (o := p - a - 12). rewrite Z.div_add, Z_mod_plus_full by lia.
  replace (a + 8 + 8 * (o / 8 + -1)) with (a + 8 * (o / 8)) by lia.
  pose proof (Z.div_mod o 8 ltac:(lia)). pose proof (Z.mod_pos_bound o 8 ltac:(lia)).
  replace (request_at m1 (a + 8 * (o / 8))) with
    (if decide (1 ≤ o / 8) then request_at m (a + 8 * (o / 8)) else request_at m1 (a + 8 * (o / 8))).
  2:{ case_decide; [|done]. rewrite Hm1. destruct (request_at m a) eqn:Hr; [by rewrite request_after_put|done]. }
  assert (Hp : ¬ (0 ≤ o < 4) → m1 p = m p).
  { intros Ho. rewrite Hm1. destruct (request_at m a); [|done]. unfold put32.
    by replace ((a + 12 <=? p) && (p <? a + 12 + 4)) with false by lia. }
  destruct (Z.le_gt_cases 8 o).
  - rewrite decide_True, Hp by lia.
    rewrite !(proj2 (Z.leb_le 0 _)) by lia. cbn [andb].
    destruct (Z.ltb_spec (o / 8 + -1) (Z.of_nat n)), (Z.ltb_spec (o / 8) (Z.of_nat (S n))); (done || lia).
  - replace (0 <=? o + -1 * 8) with false by lia. cbn [andb].
    destruct (Z.leb_spec 0 o); [|apply Hp; lia]. assert (o / 8 = 0) as -> by lia.
    rewrite Z.mul_0_r, Z.add_0_r. rewrite (proj2 (Z.ltb_lt 0 _)) by lia. cbn [andb].
    destruct (Z.ltb_spec (o mod 8) 4); cbn [andb]; [|apply Hp; lia]. rewrite Hm1.
    destruct (request_at m a); [|done]. unfold put32.
    replace ((a + 12 <=? p) && (p <? a + 12 + 4)) with true by lia. do 3 f_equal. lia.
Qed.

(** On an image in RAM whose last word is not the magic the scan stays
    within the image. *)
Lemma fulfill_image (img m : ram) kernel sz e :
  0 < sz → sz mod 8 = 0 → (∀ i, 0 ≤ i < sz → m (kernel + i) = img i) → le64 img (sz - 8) ≠ BP_REQ_MAGIC →
  let m' := _fulfill_boot_protocol_requests kernel sz e m in
  (∀ i, 0 ≤ i < sz → m' (kernel + i) = answered img (sz / 8) e i) ∧
  (∀ p, ¬ (kernel ≤ p < kernel + sz) → m' p = m p).
Proof.
  intros Hsz [q ->]%Z.mod_divide Himg Hlast; [|lia]. cbv zeta.
  unfold _fulfill_boot_protocol_requests. change BP_REQ_ALIGN with 8.
  replace ((q * 8 + 8 - 1) / 8) with q by (rewrite <- Z.add_sub_assoc, Z.div_add_l by lia; change ((8 - 1) / 8) with 0; lia).
  rewrite Z.div_mul by lia.
  assert (Hreq : ∀ j, 0 ≤ j < q → request_at m (kernel + 8 * j) = request_at img (8 * j) ∧
    (request_at img (8 * j) = true → j < q - 1)).
  { intros j Hj. assert (H64 : le64 m (kernel + 8 * j) = le64 img (8 * j)).
    { apply le64_ext. intros i Hi. rewrite <- Z.add_assoc. apply Himg. lia. }
    destruct (Z.eq_dec j (q - 1)) as [->|].
    - replace (8 * (q - 1)) with (q * 8 - 8) in * by lia. unfold request_at.
      rewrite H64, !(proj2 (Z.eqb_neq _ BP_REQ_MAGIC)) by done. done.
    - split; [|lia]. apply request_ext. intros i Hi. rewrite <- Z.add_assoc. apply Himg. lia. }
  split; intros p Hp; rewrite fulfill_loop_spec; unfold fulfilled, answered; cbv zeta; rewrite Z2Nat.id by lia.
  - replace (kernel + p - kernel - 12) with (p - 12) by lia. rewrite Himg by done.
    destruct (Z.leb_spec 0 (p - 12)), (Z.ltb_spec ((p - 12) / 8) q); cbn [andb]; try done.
    assert (0 ≤ (p - 12) / 8) by (apply Z.div_pos; lia). by rewrite (proj1 (Hreq _ ltac:(split; eassumption))).
  - set (o := p - kernel - 12) in *. pose proof (Z.div_mod o 8 ltac:(lia)). pose proof (Z.mod_pos_bound o 8 ltac:(lia)).
    destruct (Z.leb_spec 0 o), (Z.ltb_spec (o / 8) q), (Z.ltb_spec (o mod 8) 4); cbn [andb]; try done.
    destruct (Hreq (o / 8)) as [-> Hr]; [lia|]. destruct (request_at img _); [|done]. specialize (Hr eq_refl). lia.
Qed.

(** A magic word at the end of the image is taken for a request although
    the rest of the request is outside: the answer goes past the image. *)
Example request_past_image :
  let m : ram := λ p, nth (Z.to_nat p) [0x21; 0x6C; 0x67; 0xA1; 0x7C; 0x8B; 0x43; 0xF7; 1] 0 in
  _fulfill_boot_protocol_requests 0 8 0x9000 m 13 = 0x90.
Proof. by vm_compute. Qed.

(** ** Loading the kernel *)
Definition part_start (lba : Z) : Z := lba * MBR_SECTOR_SZ.

(** The volume boot record on the disk passes the checks. *)
Definition vbr_ok (disk : ram) (lba : Z) : Prop :=
  let p := part_start lba in
  0 ≤ p < 2 ^ 32 ∧ vbr_total_sectors disk p = 0 ∧
  (vbr_extended_boot_sig disk p = 0x28 ∨ vbr_extended_boot_sig disk p = 0x29) ∧
  vbr_boot_signature disk p = 0xAA55 ∧ MBR_SECTOR_SZ ≤ vbr_bytes_per_sector disk p ≤ 4096.

(** The descriptor it gives, with the sector buffer at [bufp]. *)
Definition boot_desc (disk : ram) (lba bufp : Z) : fat32_desc :=
  let p := part_start lba in
  let bps := vbr_bytes_per_sector disk p in
  let fat_off := u64 (p + u64 (vbr_reserved_sectors disk p * bps)) in
  FatDesc bufp 4096 bps (vbr_sectors_per_cluster disk p) fat_off
    (u64 (fat_off + u64 (u64 (vbr_fats disk p * vbr_sectors_per_fat2 disk p) * bps)))
    (vbr_root_dir_start_cluster disk p).

Lemma parse_partition_spec disk lba bufp m :
  vbr_ok disk lba →
  ∃ m', fat32_parse_partition disk lba bufp 4096 m = Ret (boot_desc disk lba bufp, m') ∧
    ∀ p, ¬ (bufp ≤ p < bufp + 4096) → m' p = m p.
Proof.
  intros (Hp & Hts & Hext & Hsig & Hbps). unfold fat32_parse_partition. munfold.
  fold (part_start lba). rewrite (wrap_small 64 (part_start lba)), (wrap_small 32 (part_start lba)) by lia.
  set (m' := copy_bytes disk bufp _ _ m).
  assert (Hcp : ∀ q, m' q = if (bufp <=? q) && (q <? bufp + 512) then disk (part_start lba + (q - bufp)) else m q).
  { intros q. apply copy_bytes_aligned; [|done..|lia]. apply Z.mod_mul. done. }
  assert (Hb : ∀ i, 0 ≤ i < 512 → m' (bufp + i) = disk (part_start lba + i)).
  { intros i Hi. rewrite Hcp. replace ((bufp <=? bufp + i) && (bufp + i <? bufp + 512)) with true by lia. f_equal. lia. }
  assert (H16 : ∀ i, 0 ≤ i < 511 → le16 m' (bufp + i) = le16 disk (part_start lba + i)).
  { intros i Hi. unfold le16. rewrite <- !Z.add_assoc, !Hb by lia. done. }
  assert (H32 : ∀ i, 0 ≤ i < 509 → le32 m' (bufp + i) = le32 disk (part_start lba + i)).
  { intros i Hi. apply le32_ext. intros j Hj. rewrite <- !Z.add_assoc. apply Hb. lia. }
  exists m'. split.
  - unfold boot_desc, vbr_total_sectors, vbr_extended_boot_sig, vbr_boot_signature, vbr_bytes_per_sector,
      vbr_reserved_sectors, vbr_fats, vbr_sectors_per_fat2, vbr_sectors_per_cluster, vbr_root_dir_start_cluster in *.
    rewrite !H16, !H32, !Hb by lia. rewrite Hts, Hsig, (proj2 (Z.leb_le _ _) (proj1 Hbps)), (proj2 (Z.leb_le _ _) (proj2 Hbps)).
    by destruct Hext as [-> | ->].
  - intros p Hp'. rewrite Hcp. by replace ((bufp <=? p) && (p <? bufp + 512)) with false by lia.
Qed.

Lemma chain_buf disk lba b b' cs : ∀ c, chain disk (boot_desc disk lba b) c cs → chain disk (boot_desc disk lba b') c cs.
Proof. induction cs as [|c' cs IH]; intros c [Hc Hn]; split; [done..|]. destruct Hn. auto. Qed.
Lemma chain_byte_buf disk lba b b' cs : ∀ c i,
  chain_byte disk (boot_desc disk lba b) c cs i = chain_byte disk (boot_desc disk lba b') c cs i.
Proof. induction cs as [|c' cs IH]; intros c i; [done|]. cbn [chain_byte]. by rewrite IH. Qed.

(** The directory entry at [p] as FAT32 lays it out: a live entry named
    [name], with its first cluster [c] in the low half-word at 26 (the high
    one, at 20, is 0) and its size [sz] at 28, little endian. *)
Record file_entry (disk : ram) (name : list Z) (p c sz : Z) : Prop := {
  fe_live : disk p ≠ 0 ∧ disk p ≠ 0xE5;
  fe_name : (λ i, disk (p + i)) <$> seqZ 0 11 = name;
  fe_hi : disk (p + 20) = 0 ∧ disk (p + 21) = 0;
  fe_lo : c = disk (p + 26) + 256 * disk (p + 27);
  fe_size : sz = disk (p + 28) + 256 * disk (p + 29) + 65536 * disk (p + 30) + 16777216 * disk (p + 31) }.

Lemma file_entry_decided disk name p c sz : file_entry disk name p c sz → decided disk name p (Some (c, sz)).
Proof.
  intros [[H0 HE] Hn [Hh1 Hh2] -> ->]. right. split; [done|]. split; [done|]. split; [exact Hn|].
  unfold cluster_hi, cluster_lo, dirent_file_sz, le32, le16. rewrite <- !(Z.add_assoc p).
  change (20 + 1) with 21. change (28 + 1) with 29. change (28 + 2) with 30. change (30 + 1) with 31. change (26 + 1) with 27.
  rewrite Hh1, Hh2. change (u32 (Z.shiftl (0 + 2 ^ 8 * 0) 2)) with 0. rewrite Z.lor_0_l. do 2 f_equal; lia.
Qed.

(** The kernel is entry [k] of the root directory, in its first sector,
    [sz] bytes in the clusters [c :: cs].  The sizes that are loaded
    completely are the multiples of a sector; the FAT entries of the chain
    have their four reserved bits clear. *)
Record kernel_on_disk (disk : ram) (lba : Z) (k : nat) (c : Z) (cs : list Z) (sz : Z) : Prop := {
  kd_vbr : vbr_ok disk lba;
  kd_geometry : geometry (boot_desc disk lba 0);
  kd_root : cluster_ok (boot_desc disk lba 0) (root_dir_start_cluster (boot_desc disk lba 0));
  kd_entry : 32 * (Z.of_nat k + 1) ≤ bytes_per_sector (boot_desc disk lba 0);
  kd_before (j : nat) : (j < k)%nat →
    skipped disk (take 11 kernel_name)
      (cluster_off (boot_desc disk lba 0) (root_dir_start_cluster (boot_desc disk lba 0)) + 32 * Z.of_nat j);
  kd_dirent : file_entry disk (take 11 kernel_name)
    (cluster_off (boot_desc disk lba 0) (root_dir_start_cluster (boot_desc disk lba 0)) + 32 * Z.of_nat k) c sz;
  kd_chain : chain disk (boot_desc disk lba 0) c cs;
  kd_size : 0 < sz ≤ KERNEL_MAP_SZ ∧ sz mod 512 = 0;
  kd_clusters : zlen cs * cluster_sz (boot_desc disk lba 0) < sz ≤ (zlen cs + 1) * cluster_sz (boot_desc disk lba 0);
  kd_last : le64 (chain_byte disk (boot_desc disk lba 0) c cs) (sz - 8) ≠ BP_REQ_MAGIC }.

Definition buffer_entry (b : Z) : e820_mm_entry := E820 b 4096 E820_MM_TYPE_BOOTLOADER_RECLAIMABLE 0.
Definition kernel_entry (p sz : Z) : e820_mm_entry := E820 p sz E820_MM_TYPE_BOOTLOADER 0.

(** No region of the size and alignment an allocation asks for. *)
Definition no_region (ents : e820_map) (len incr : Z) : Prop :=
  ∀ c, incr ≤ c < GB → c mod incr = 0 → ¬ region_free ents c len.

(** An allocation that is recorded: a region, appended to the map. *)
Lemma alloc_and_record mm len h ty :
  e820_wf mm → 0 ≤ len → GB + len < 2 ^ 32 → ty ≠ 0 → (S (length (e820_entries mm)) < length mm)%nat →
  ∃ r, e820_alloc mm len h = Ret r ∧
    ((r = 0 ∧ no_region (e820_entries mm) len (e820_incr h)) ∨
     (e820_incr h ≤ r < GB ∧ r mod e820_incr h = 0 ∧ region_free (e820_entries mm) r len ∧
      ∃ mm', e820_augment_bootloader mm r len ty = Ret (true, mm') ∧ e820_wf mm' ∧ length mm' = length mm ∧
        e820_entries mm' = e820_entries mm ++ [E820 r len ty 0])).
Proof.
  intros Hwf Hl HG Hty Hsp. destruct (e820_alloc_spec mm len h) as (r & Hr & Hff); [done..|]. exists r. split; [done|].
  destruct Hff as [[-> Hn]|(Hb & Hm & Hf & _)]; [by left|right]. destruct (e820_incr_facts h) as [? _].
  destruct (e820_augment_spec mm r len ty) as (ok & mm' & Heq & Hwf' & Hlen & Hent); [done|..].
  { unfold ent_wf. simpl. change GB with (2 ^ 30) in *. lia. }
  { unfold e820_entry_present. simpl. lia. }
  destruct ok; [|destruct Hent; lia]. do 3 (split; [done|]). by exists mm'.
Qed.

(** What [copy_kernel] leaves: the kernel at [kernel], its requests
    answered, and the sector buffer at [bufp]. *)
Record kernel_loaded (disk : ram) (lba c : Z) (cs : list Z) (sz e bufp kernel : Z) (mm mm' : e820_map) (m m' : ram) : Prop := {
  kl_buffer : region_free (e820_entries mm) bufp 4096 ∧ PG_SZ ≤ bufp < GB;
  kl_kernel : region_free (e820_entries mm ++ [buffer_entry bufp]) kernel sz;
  kl_addr : HUGE_PG_SZ ≤ kernel < GB ∧ kernel mod HUGE_PG_SZ = 0;
  kl_wf : e820_wf mm' ∧ length mm' = length mm;
  kl_map : e820_entries mm' = e820_entries mm ++ [buffer_entry bufp; kernel_entry kernel sz];
  kl_image i : 0 ≤ i < sz →
    m' (kernel + i) = answered (chain_byte disk (boot_desc disk lba 0) c cs) (sz / 8) e i;
  kl_frame p : ¬ (bufp ≤ p < bufp + 4096) → ¬ (kernel ≤ p < kernel + sz) → m' p = m p }.

(** Reading the kernel to [kernel] and answering its requests, once the
    sector buffer is known to be elsewhere. *)
Lemma load_image disk lba k c cs sz fuel e bufp kernel m :
  kernel_on_disk disk lba k c cs sz → (length cs < fuel)%nat →
  (kernel + sz ≤ bufp ∨ bufp + 4096 ≤ kernel) →
  ∃ m1, fat32_read_file disk fuel kernel (FileDesc (boot_desc disk lba bufp) c sz) m = Ret (true, m1) ∧
    let m' := _fulfill_boot_protocol_requests kernel sz e m1 in
    (∀ i, 0 ≤ i < sz → m' (kernel + i) = answered (chain_byte disk (boot_desc disk lba 0) c cs) (sz / 8) e i) ∧
    (∀ p, ¬ (bufp ≤ p < bufp + 4096) → ¬ (kernel ≤ p < kernel + sz) → m' p = m p).
Proof.
  intros Hk Hfu Hdisj. destruct (kd_size _ _ _ _ _ _ Hk) as [Hsz Hm]. change KERNEL_MAP_SZ with 0x2000000 in Hsz.
  pose proof (kd_geometry _ _ _ _ _ _ Hk) as (_ & Hbps & _). cbn [bytes_per_sector boot_desc] in Hbps.
  destruct (fat32_read_file_loads disk (FileDesc (boot_desc disk lba bufp) c sz) kernel cs m fuel)
    as (m1 & Hr & Himg & Hfr); cbn [fs file_sz_bytes start_cluster].
  - exact (kd_geometry _ _ _ _ _ _ Hk).
  - eapply chain_buf, kd_chain, Hk.
  - done.
  - lia.
  - exact (kd_clusters _ _ _ _ _ _ Hk).
  - cbn [buf bytes_per_sector boot_desc]. lia.
  - done.
  - exists m1. split; [done|]. cbn [fs file_sz_bytes start_cluster buf bytes_per_sector boot_desc] in Himg, Hfr.
    destruct (fulfill_image (chain_byte disk (boot_desc disk lba 0) c cs) m1 kernel sz e) as [Hans Hfr2].
    + lia.
    + apply Z.mod_divide in Hm as [q ->]; [|lia]. replace (q * 512) with (q * 64 * 8) by lia. by apply Z.mod_mul.
    + intros i Hi. rewrite Himg by done. apply chain_byte_buf.
    + exact (kd_last _ _ _ _ _ _ Hk).
    + split; [done|]. intros p Hp1 Hp2. rewrite Hfr2 by done. apply Hfr; lia.
Qed.

Lemma copy_kernel_spec disk fuel e mm m part k c cs sz :
  e820_wf mm → (2 + length (e820_entries mm) < length mm)%nat →
  find_partition 4 _mbr_partitions m = Some part →
  kernel_on_disk disk (first_sector_lba m part) k c cs sz → (length cs < fuel)%nat →
  ∃ kernel mm' m', copy_kernel disk fuel e mm m = Ret ((kernel, mm'), m') ∧
    ((kernel = 0 ∧ (no_region (e820_entries mm) 4096 PG_SZ ∨
        ∃ bufp, region_free (e820_entries mm) bufp 4096 ∧
                no_region (e820_entries mm ++ [buffer_entry bufp]) sz HUGE_PG_SZ)) ∨
     ∃ bufp, kernel_loaded disk (first_sector_lba m part) c cs sz e bufp kernel mm mm' m m').
Proof.
  intros Hwf Hsp Hpart Hk Hfu. set (lba := first_sector_lba m part) in *. destruct (kd_size _ _ _ _ _ _ Hk) as [Hsz _].
  change KERNEL_MAP_SZ with 0x2000000 in Hsz. unfold copy_kernel, fat32_init_desc. munfold. rewrite Hpart.
  destruct (alloc_and_record mm 4096 false E820_MM_TYPE_BOOTLOADER_RECLAIMABLE) as (bufp & -> & Hb); [done..|lia|].
  destruct Hb as [[-> Hn]|(Hb & Hbm & Hbf & mm1 & Haug & Hwf1 & Hlen1 & Hent1)].
  { exists 0, mm, m. split; [done|]. left. eauto. }
  change (e820_incr false) with PG_SZ in *. change PG_SZ with 4096 in *. rewrite (proj2 (Z.eqb_neq bufp 0)), Haug by lia.
  replace (Z.land bufp (MBR_SECTOR_SZ - 1)) with 0.
  2:{ change (MBR_SECTOR_SZ - 1) with (2 ^ 9 - 1). rewrite land_mask_mod by lia.
      apply Z.mod_divide in Hbm as [q ->]; [|lia]. symmetry. replace (q * 4096) with (q * 8 * 2 ^ 9) by lia. by apply Z.mod_mul. }
  cbn [Z.eqb]. fold lba.
  destruct (parse_partition_spec disk lba bufp m (kd_vbr _ _ _ _ _ _ Hk)) as (m1 & -> & Hfr1).
  destruct fuel as [|fuel]; [lia|].
  destruct (fat32_find_file_finds disk (boot_desc disk lba bufp) kernel_name k (Some (c, sz)) m1 fuel)
    as (m2 & -> & Hfr2); [by destruct Hk|by destruct Hk|done|by destruct Hk|by destruct Hk|by apply file_entry_decided, Hk|]. cbn [fmap option_fmap option_map fst snd file_sz_bytes].
  rewrite (proj2 (Z.leb_le sz _)) by (change (u32 _) with 0x2000000; lia).
  destruct (alloc_and_record mm1 sz true E820_MM_TYPE_BOOTLOADER) as (kernel & -> & Hka);
    [done|lia|change GB with (2 ^ 30); lia|done|rewrite Hent1, length_app; simpl; lia|].
  rewrite Hent1 in Hka. destruct Hka as [[-> Hn]|(Hkb & Hkm & Hkf & mm2 & Haug2 & Hwf2 & Hlen2 & Hent2)].
  { exists 0, mm1, m2. split; [done|]. left. split; [done|]. right. by exists bufp. }
  change (e820_incr true) with HUGE_PG_SZ in *. change HUGE_PG_SZ with (2 ^ 22) in *.
  rewrite (proj2 (Z.eqb_neq kernel 0)), Haug2 by lia.
  destruct (load_image disk lba k c cs sz (S fuel) e bufp kernel m2 Hk Hfu) as (m3 & -> & Himg & Hfr3).
  { destruct Hkf as [_ Hno]. specialize (Hno (buffer_entry bufp)). simpl in Hno. destruct Hno; [set_solver|done|lia..]. }
  eexists kernel, mm2, _. split; [done|]. right. exists bufp.
  split; try done; [| |intros p Hp1 Hp2; rewrite Hfr3 by done].
  - split; congruence.
  - by rewrite Hent2, <- app_assoc.
  - pose proof (kd_geometry _ _ _ _ _ _ Hk) as (_ & Hbps & _). cbn [bytes_per_sector boot_desc] in Hbps.
    rewrite Hfr2 by (cbn [buf bytes_per_sector boot_desc]; lia). by apply Hfr1.
Qed.

(** ** The stack and the text of the boot loader *)
Definition stack_base (mbr_start : Z) : Z := PG_SZ * ((mbr_start - PG_SZ) / PG_SZ).
Definition stack_entry (mbr_start : Z) : e820_mm_entry := E820 (stack_base mbr_start) PG_SZ E820_MM_TYPE_BOOTLOADER 0.
Definition text_entry (mbr_start : Z) : e820_mm_entry :=
  E820 mbr_start (63 * 0x200) E820_MM_TYPE_BOOTLOADER_RECLAIMABLE 0.

Lemma stack_base_eq mbr_start :
  2 * PG_SZ ≤ mbr_start ≤ 1 * MB →
  Z.land (u32 (mbr_start - PG_SZ)) (u32 (Z.lnot 0x0FFF)) = stack_base mbr_start ∧ PG_SZ ≤ stack_base mbr_start ≤ mbr_start - PG_SZ.
Proof.
  intros Hm. unfold stack_base. change (1 * MB) with (2 ^ 20) in Hm. change PG_SZ with (2 ^ 12) in *.
  rewrite (wrap_small 32) by lia. set (n := mbr_start - 2 ^ 12) in *.
  change (u32 (Z.lnot 0x0FFF)) with (Z.land (Z.ones 32) (Z.lnot (Z.ones 12))).
  rewrite Z.land_assoc, Z.land_ones, Z.mod_small by lia.
  rewrite <- Z.ldiff_land, Z.ldiff_ones_r, Z.shiftl_mul_pow2, Z.shiftr_div_pow2, Z.mul_comm by lia.
  split; [done|]. pose proof (Z.div_mod n (2 ^ 12) ltac:(lia)). pose proof (Z.mod_pos_bound n (2 ^ 12) ltac:(lia)).
  assert (1 ≤ n / 2 ^ 12) by (apply Z.div_le_lower_bound; lia). lia.
Qed.

Lemma augment_text_stack_spec mbr_start mm :
  e820_wf mm → (2 + length (e820_entries mm) < length mm)%nat → 2 * PG_SZ ≤ mbr_start ≤ 1 * MB →
  ∃ mm', augment_bootloader_text_stack_sections mbr_start mm = Ret (true, mm') ∧ e820_wf mm' ∧ length mm' = length mm ∧
    e820_entries mm' = e820_entries mm ++ [stack_entry mbr_start; text_entry mbr_start].
Proof.
  intros Hwf Hsp Hm. destruct (stack_base_eq mbr_start Hm) as [Hst Hb].
  unfold augment_bootloader_text_stack_sections. rewrite Hst. change (1 * MB) with (2 ^ 20) in Hm. change PG_SZ with 4096 in *.
  destruct (e820_augment_spec mm (stack_base mbr_start) 4096 E820_MM_TYPE_BOOTLOADER) as (ok & mm1 & -> & Hwf1 & Hl1 & He1);
    [done|unfold ent_wf; simpl; lia|unfold e820_entry_present; simpl; lia|].
  destruct ok; [|destruct He1; lia]. munfold.
  destruct (e820_augment_spec mm1 mbr_start (63 * 0x200) E820_MM_TYPE_BOOTLOADER_RECLAIMABLE) as (ok & mm2 & -> & Hwf2 & Hl2 & He2);
    [done|unfold ent_wf; simpl; lia|unfold e820_entry_present; simpl; lia|].
  assert (length (e820_entries mm1) = S (length (e820_entries mm))) by (rewrite He1, length_app; simpl; lia).
  destruct ok; [|destruct He2; lia]. exists mm2. do 2 (split; [done|]). split; [congruence|].
  by rewrite He2, He1, <- app_assoc.
Qed.

(** ** Entering the kernel *)
Definition boot_entries (mbr_start : Z) (mm : e820_map) : e820_map :=
  e820_entries mm ++ [stack_entry mbr_start; text_entry mbr_start].

(** The machine at [pmode_entry]. *)
Record boot_ready (disk : ram) (fuel : nat) (mbr_start feat esp : Z) (mm : e820_map) (m : ram)
    (part : Z) (k : nat) (c : Z) (cs : list Z) (sz : Z) : Prop := {
  br_map : e820_wf mm ∧ (5 + length (e820_entries mm) < length mm)%nat;
  br_text : 2 * PG_SZ ≤ mbr_start ∧ mbr_start + 63 * 0x200 ≤ 1 * MB;
  br_stack : stack_base mbr_start + 4 ≤ esp ≤ stack_base mbr_start + PG_SZ;
  br_cpu : check_cpuid_features feat = true;
  br_part : find_partition 4 _mbr_partitions m = Some part;
  br_kernel : kernel_on_disk disk (first_sector_lba m part) k c cs sz;
  br_fuel : (length cs < fuel)%nat;
  br_differs : ∃ i, 0 ≤ i < 32 * KB ∧ mbr_start ≤ PG_SZ + i < mbr_start + 63 * 0x200 ∧
                    m (PG_SZ + i) ≠ m (HM_START + PG_SZ + i) }.

(** A region of the map, other than a usable one, is apart from a free one. *)
Lemma apart ents base len e p :
  region_free ents base len → e ∈ ents → ent_type e ≠ E820_MM_TYPE_USABLE →
  ent_base e ≤ p < ent_base e + ent_len e → ¬ (base ≤ p < base + len).
Proof. intros [_ Hno] He Ht Hp. destruct (Hno e He Ht); lia. Qed.

Lemma check_before m i :
  0 ≤ i < 32 * KB → m (PG_SZ + i) ≠ m (HM_START + PG_SZ + i) → check_paging_setup paging_off m = Ret false.
Proof.
  intros Hi Hne. unfold check_paging_setup.
  destruct (memcmp_off_differs m (Z.to_nat (32 * KB)) PG_SZ (HM_START + PG_SZ) i) as (r & -> & Hr);
    [rewrite Z2Nat.id by done; done|done|]. munfold. by rewrite (proj2 (Z.eqb_neq r 0)).
Qed.

Lemma check_after tr kernel m :
  (∀ va, 0 ≤ va < 2 ^ 32 → tr va = boot_expected kernel va) → check_paging_setup tr m = Ret true.
Proof.
  intros Htr. unfold check_paging_setup. rewrite memcmp_v_same; [done|]. intros i Hi.
  rewrite Z2Nat.id in Hi by done. change (32 * KB) with 0x8000 in Hi. exists (PG_SZ + i).
  change PG_SZ with 0x1000. change HM_START with 0xC0000000. rewrite !Htr by lia. unfold boot_expected.
  change PG_SZ with 0x1000. change HM_START with 0xC0000000. change (1 * MB) with 0x100000.
  change (1 * GB - KERNEL_MAP_SZ - IO_MAP_SZ) with 0x3DC00000.
  replace ((0x1000 <=? 0x1000 + i) && (0x1000 + i <? 0x100000)) with true by lia.
  replace ((0x1000 <=? 0xC0000000 + 0x1000 + i) && (0xC0000000 + 0x1000 + i <? 0x100000)) with false by lia.
  replace ((0xC0000000 <=? 0xC0000000 + 0x1000 + i) && (0xC0000000 + 0x1000 + i <? 0xC0000000 + 0x3DC00000)) with true by lia.
  split; [done|]. f_equal. lia.
Qed.

(** The tables the processor walks are the ones in RAM. *)
Definition tables_in_ram (b : booted) : Prop :=
  ∀ off, 0 ≤ off < PG_SZ →
    b_ram b (b_pt_mem b + off) = word_byte (pd (b_tables b)) off ∧
    b_ram b (b_pt_mem b + PG_SZ + off) = word_byte (dm_pt (b_tables b)) off.

Lemma expected_stack kernel esp : 4 ≤ esp ≤ 1 * MB → boot_expected kernel (esp + HM_START - 4) = Some (esp - 4).
Proof.
  intros He. unfold boot_expected. change PG_SZ with 0x1000. change HM_START with 0xC0000000. change (1 * MB) with 0x100000 in *.
  change (1 * GB - KERNEL_MAP_SZ - IO_MAP_SZ) with 0x3DC00000.
  replace ((0x1000 <=? esp + 0xC0000000 - 4) && (esp + 0xC0000000 - 4 <? 0x100000)) with false by lia.
  replace ((0xC0000000 <=? esp + 0xC0000000 - 4) && (esp + 0xC0000000 - 4 <? 0xC0000000 + 0x3DC00000)) with true by lia.
  f_equal. lia.
Qed.

Lemma expected_kernel kernel i : 0 ≤ i < KERNEL_MAP_SZ → boot_expected kernel (KERNEL_LOAD_ADDR + i) = Some (kernel + i).
Proof.
  intros Hi. unfold boot_expected. change PG_SZ with 0x1000. change HM_START with 0xC0000000. change (1 * MB) with 0x100000 in *.
  change KERNEL_MAP_SZ with 0x2000000 in *. change (1 * GB - 0x2000000 - IO_MAP_SZ) with 0x3DC00000. change KERNEL_LOAD_ADDR with 0xFE000000.
  replace ((0x1000 <=? 0xFE000000 + i) && (0xFE000000 + i <? 0x100000)) with false by lia.
  replace ((0xC0000000 <=? 0xFE000000 + i) && (0xFE000000 + i <? 0xC0000000 + 0x3DC00000)) with false by lia.
  replace (0xFE000000 <=? 0xFE000000 + i) with true by lia. f_equal. lia.
Qed.

Lemma jump_spec esp kernel pt_mem st mm m :
  4 ≤ esp ≤ 1 * MB →
  (∀ va, 0 ≤ va < 2 ^ 32 → translate (pd st) (boot_table (pt_mem + PG_SZ) st) va = boot_expected kernel va) →
  jump_to_kernel esp kernel pt_mem st mm m =
    Ret (Booted KERNEL_LOAD_ADDR (esp + HM_START - 4) kernel pt_mem st mm (put32 m (esp - 4) 0)).
Proof.
  intros He Htr. unfold jump_to_kernel. pose proof (expected_stack kernel esp He) as Hx.
  change (1 * MB) with 0x100000 in He. change HM_START with 0xC0000000 in *.
  rewrite !(wrap_small 32) by (rewrite ?(wrap_small 32) by lia; lia). rewrite Htr, Hx by lia. done.
Qed.

(** What the kernel finds when it is entered. *)
Record kernel_entered (disk : ram) (lba c : Z) (cs : list Z) (sz e mbr_start esp : Z) (mm : e820_map) (b : booted) : Prop := {
  ke_eip : b_eip b = KERNEL_LOAD_ADDR;
  ke_esp : b_esp b = esp + HM_START - 4;
  ke_return : ∃ pa, b_translate b (b_esp b) = Some pa ∧ le32 (b_ram b) pa = 0;
  ke_paging va : 0 ≤ va < 2 ^ 32 → b_translate b va = boot_expected (b_kernel b) va;
  ke_tables : tables_in_ram b;
  ke_image i : 0 ≤ i < sz → ∃ pa, b_translate b (KERNEL_LOAD_ADDR + i) = Some pa ∧
    b_ram b pa = answered (chain_byte disk (boot_desc disk lba 0) c cs) (sz / 8) e i;
  ke_map : e820_wf (b_mm b) ∧ ∃ bufp, e820_entries (b_mm b) = boot_entries mbr_start mm ++
    [buffer_entry bufp; kernel_entry (b_kernel b) sz; E820 (b_pt_mem b) (2 * PG_SZ) E820_MM_TYPE_BOOTLOADER 0] }.

Lemma entered disk lba c cs sz e mbr_start esp mm mm1 mm2 mm3 m m2 bufp kernel pt_mem st :
  kernel_loaded disk lba c cs sz e bufp kernel mm1 mm2 m m2 → e820_entries mm1 = boot_entries mbr_start mm →
  2 * PG_SZ ≤ mbr_start ≤ 1 * MB → stack_base mbr_start + 4 ≤ esp ≤ stack_base mbr_start + PG_SZ → 0 < sz ≤ KERNEL_MAP_SZ →
  region_free (e820_entries mm2) pt_mem (2 * PG_SZ) → e820_wf mm3 →
  e820_entries mm3 = e820_entries mm2 ++ [E820 pt_mem (2 * PG_SZ) E820_MM_TYPE_BOOTLOADER 0] →
  (∀ va, 0 ≤ va < 2 ^ 32 → translate (pd st) (boot_table (pt_mem + PG_SZ) st) va = boot_expected kernel va) →
  kernel_entered disk lba c cs sz e mbr_start esp mm
    (Booted KERNEL_LOAD_ADDR (esp + HM_START - 4) kernel pt_mem st mm3 (put32 (store_tables pt_mem st m2) (esp - 4) 0)).
Proof.
  intros Hkl He1 Hmbr Hesp Hsz Hpf Hwf3 He3 Htr. destruct (stack_base_eq mbr_start Hmbr) as [_ Hsb].
  pose proof (kl_map _ _ _ _ _ _ _ _ _ _ _ _ Hkl) as He2. pose proof (kl_kernel _ _ _ _ _ _ _ _ _ _ _ _ Hkl) as Hkf.
  rewrite He1 in He2, Hkf.
  assert (Hst : ∀ p, esp - 4 ≤ p < esp → ¬ (kernel ≤ p < kernel + sz) ∧ ¬ (pt_mem ≤ p < pt_mem + 2 * PG_SZ)).
  { intros p Hp. split; (eapply (apart _ _ _ (stack_entry mbr_start)); [eassumption| |done|simpl; lia]).
    - unfold boot_entries. set_solver.
    - rewrite He2. unfold boot_entries. set_solver. }
  assert (Hkt : ∀ p, kernel ≤ p < kernel + sz → ¬ (pt_mem ≤ p < pt_mem + 2 * PG_SZ)).
  { intros p Hp. eapply (apart _ _ _ (kernel_entry kernel sz)); [eassumption| |done|done]. rewrite He2. set_solver. }
  change PG_SZ with 0x1000 in *. change (1 * MB) with 0x100000 in Hmbr. change KERNEL_MAP_SZ with 0x2000000 in Hsz.
  split; cbn [b_eip b_esp b_kernel b_pt_mem b_tables b_mm b_ram]; unfold b_translate; cbn [b_pt_mem b_tables]; try done.
  - exists (esp - 4). split; [|].
    + change HM_START with 0xC0000000. rewrite Htr by lia. apply expected_stack. change (1 * MB) with 0x100000. lia.
    + transitivity (le32 (λ _, 0) 0); [|done]. apply le32_ext. intros i Hi. unfold put32.
      replace ((esp - 4 <=? esp - 4 + i) && (esp - 4 + i <? esp - 4 + 4)) with true by lia. by rewrite Z.shiftr_0_l.
  - intros off Hoff. cbn [b_eip b_esp b_kernel b_pt_mem b_tables b_mm b_ram]. change PG_SZ with 0x1000 in *. unfold put32, store_tables.
    change PG_SZ with 0x1000. split.
    + destruct (_ && _) eqn:Hc; [destruct (Hst (pt_mem + off)); lia|].
      replace ((pt_mem <=? pt_mem + off) && (pt_mem + off <? pt_mem + 0x1000)) with true by lia. f_equal. lia.
    + destruct (_ && _) eqn:Hc; [destruct (Hst (pt_mem + 0x1000 + off)); lia|].
      replace ((pt_mem <=? pt_mem + 0x1000 + off) && (pt_mem + 0x1000 + off <? pt_mem + 0x1000)) with false by lia.
      replace ((pt_mem + 0x1000 <=? pt_mem + 0x1000 + off) && (pt_mem + 0x1000 + off <? pt_mem + 2 * 0x1000)) with true by lia.
      f_equal. lia.
  - intros i Hi. exists (kernel + i). split.
    + change KERNEL_LOAD_ADDR with 0xFE000000. rewrite Htr by lia. apply expected_kernel. change KERNEL_MAP_SZ with 0x2000000. lia.
    + rewrite <- (kl_image _ _ _ _ _ _ _ _ _ _ _ _ Hkl i Hi). specialize (Hkt (kernel + i)). unfold put32, store_tables.
      change PG_SZ with 0x1000. destruct (_ && _) eqn:Hc; [destruct (Hst (kernel + i)); lia|].
      replace ((pt_mem <=? kernel + i) && (kernel + i <? pt_mem + 0x1000)) with false by lia.
      by replace ((pt_mem + 0x1000 <=? kernel + i) && (kernel + i <? pt_mem + 2 * 0x1000)) with false by lia.
  - split; [done|]. exists bufp. rewrite He3, He2. by rewrite <- app_assoc.
Qed.

(** C15: from protected mode, with a well-formed memory map with room for
    five entries, the processor features present and a FAT32 boot partition
    with a kernel that fits its window, the boot loader returns no error
    other than the lack of memory for the sector buffer, the kernel or the
    page tables, and otherwise enters the kernel: at [KERNEL_LOAD_ADDR],
    with paging on and every address translated as documented by the tables
    in RAM, the bytes of the kernel file at that address with its boot
    requests answered, a null return address on the stack in the direct map,
    and every region the boot loader uses recorded in the memory map.  This
    is for a kernel file whose directory entry is in the first sector of the
    root directory, whose size is a multiple of 512 (the loader leaves out a
    last partial sector), whose first cluster has a high half of 0 and whose
    FAT entries have their four reserved bits clear (the loader misreads
    both), and whose last 8 bytes are not the magic of a boot request. *)
Theorem boot_reaches_kernel disk fuel e820_mem_map mbr_start feat esp mm m part k c cs sz :
  boot_ready disk fuel mbr_start feat esp mm m part k c cs sz →
  ∃ r, pmode_entry disk fuel e820_mem_map mbr_start feat esp mm m = Ret r ∧
  let ents := boot_entries mbr_start mm in
  match r with
  | None =>
      no_region ents 4096 PG_SZ ∨
      (∃ bufp, region_free ents bufp 4096 ∧ no_region (ents ++ [buffer_entry bufp]) sz HUGE_PG_SZ) ∨
      (∃ bufp kernel, region_free ents bufp 4096 ∧ region_free (ents ++ [buffer_entry bufp]) kernel sz ∧
         no_region (ents ++ [buffer_entry bufp; kernel_entry kernel sz]) (2 * PG_SZ) PG_SZ)
  | Some b => kernel_entered disk (first_sector_lba m part) c cs sz e820_mem_map mbr_start esp mm b
  end.
Proof.
  intros [[Hwf Hsp] Htext Hesp Hcpu Hpart Hk Hfu (i & Hi & Hit & Hne)]. pose proof Htext as [Ht1 Ht2].
  assert (Hmbr : 2 * PG_SZ ≤ mbr_start ≤ 1 * MB) by lia. destruct (stack_base_eq mbr_start Hmbr) as [_ Hsb].
  destruct (kd_size _ _ _ _ _ _ Hk) as [Hsz _]. unfold pmode_entry. cbv zeta.
  destruct (augment_text_stack_spec mbr_start mm) as (mm1 & -> & Hwf1 & Hl1 & He1); [done|lia|done|].
  fold (boot_entries mbr_start mm) in He1.
  assert (Hn1 : length (e820_entries mm1) = (2 + length (e820_entries mm))%nat).
  { rewrite He1. unfold boot_entries. rewrite length_app. simpl. lia. }
  munfold. cbn [negb].
  destruct (copy_kernel_spec disk fuel e820_mem_map mm1 m part k c cs sz) as (kernel & mm2 & m2 & -> & Hr); [done|lia|done..|].
  rewrite He1 in Hr. destruct Hr as [[-> Hr]|[bufp Hkl]].
  { exists None. split; [done|]. destruct Hr; auto. }
  pose proof (kl_addr _ _ _ _ _ _ _ _ _ _ _ _ Hkl) as [Hka Hkm]. pose proof (kl_map _ _ _ _ _ _ _ _ _ _ _ _ Hkl) as He2.
  pose proof (kl_kernel _ _ _ _ _ _ _ _ _ _ _ _ Hkl) as Hkf. pose proof (kl_buffer _ _ _ _ _ _ _ _ _ _ _ _ Hkl) as [Hbf Hbb].
  destruct (kl_wf _ _ _ _ _ _ _ _ _ _ _ _ Hkl) as [Hwf2 Hl2]. rewrite He1 in He2, Hkf, Hbf.
  rewrite (proj2 (Z.eqb_neq kernel 0)), Hcpu by (change HUGE_PG_SZ with (2 ^ 22) in Hka; lia). cbn [negb].
  rewrite (check_before m2 i); [|done|].
  2:{ assert (Htx : text_entry mbr_start ∈ boot_entries mbr_start mm) by (unfold boot_entries; set_solver).
      rewrite !(kl_frame _ _ _ _ _ _ _ _ _ _ _ _ Hkl); [done|..].
      - change GB with (2 ^ 30) in *. change HM_START with 0xC0000000. change PG_SZ with 0x1000 in *. lia.
      - change GB with (2 ^ 30) in *. change HM_START with 0xC0000000. change KERNEL_MAP_SZ with 0x2000000 in *. change PG_SZ with 0x1000 in *. lia.
      - by apply (apart _ _ _ (text_entry mbr_start) _ Hbf).
      - apply (apart _ _ _ (text_entry mbr_start) _ Hkf); [set_solver|done..]. }
  destruct (pt_setup_maps mm2 kernel) as (ok & mm3 & r & -> & Hwf3 & Hpt); [done|change HUGE_PG_SZ with (2 ^ 22) in *; lia|done|..].
  { change GB with (2 ^ 30) in *. change KERNEL_MAP_SZ with 0x2000000. lia. }
  rewrite He2 in Hpt. destruct r as [[pt_mem st]|].
  2:{ exists None. split; [done|]. right. right. destruct Hpt as (_ & _ & Hno). by exists bufp, kernel. }
  destruct Hpt as (Hpf & He3 & Htr).
  destruct ok; [|rewrite length_app in He3; unfold boot_entries in He3; rewrite length_app in He3; simpl in He3; lia].
  cbn [negb]. rewrite (check_after _ kernel) by done. cbn [negb].
  rewrite (jump_spec esp kernel pt_mem st) by (done || lia).
  eexists. split; [done|]. eapply entered; try done; [by rewrite He2|by rewrite He2].
Qed.

(** A disk of six sectors: the boot record of the partition at sector 1,
    one FAT sector, the root directory (cluster 2) with the kernel, and
    the kernel's only cluster (3), with a request at byte 16. *)
Definition boot_demo_bytes : gmap Z Z := list_to_map
  ([(512 + 12, 2); (512 + 13, 1); (512 + 14, 1); (512 + 16, 1); (512 + 36, 1); (512 + 44, 2); (512 + 66, 0x29);
    (512 + 510, 0x55); (512 + 511, 0xAA);
    (1024 + 12, 0xFF); (1024 + 13, 0xFF); (1024 + 14, 0xFF); (1024 + 15, 0x0F)] ++
   zip (seqZ 1536 11) kernel_name ++ [(1536 + 26, 3); (1536 + 29, 2)] ++
   zip (seqZ (2048 + 16) 9) [0x21; 0x6C; 0x67; 0xA1; 0x7C; 0x8B; 0x43; 0xF7; 1]).
Definition boot_demo_disk : ram := λ p, default 0 (boot_demo_bytes !! p).
(** The partition table, as the firmware loaded it. *)
Definition boot_demo_ram : ram := λ p,
  if p =? 0x7DBE then 0x80 else if p =? 0x7DBE + 4 then 0x0C else if p =? 0x7DBE + 8 then 1 else 0.
Definition boot_demo_mm : e820_map :=
  [E820 0 0x9fc00 1 0; E820 0x9fc00 0x60400 2 0; E820 0x100000 0x1f00000 1 0] ++ replicate 8 e820_null.
Definition boot_demo_feat : Z := 2 ^ 38 + 2 ^ 35.

Lemma boot_demo_kernel : kernel_on_disk boot_demo_disk (first_sector_lba boot_demo_ram 0x7DBE) 0 3 [] 512.
Proof.
  change (first_sector_lba boot_demo_ram 0x7DBE) with 1.
  assert (Hd : boot_desc boot_demo_disk 1 0 = FatDesc 0 4096 512 1 1024 1536 2) by by vm_compute.
  split; rewrite ?Hd; clear Hd.
  - repeat split; try by vm_compute. right. by vm_compute.
  - by vm_compute.
  - by vm_compute.
  - by vm_compute.
  - intros j Hj. lia.
  - split; by vm_compute.
  - by vm_compute.
  - by vm_compute.
  - by vm_compute.
  - by vm_compute.
Qed.

Lemma boot_demo_ready :
  boot_ready boot_demo_disk 1 0x7C00 boot_demo_feat 0x7000 boot_demo_mm boot_demo_ram 0x7DBE 0 3 [] 512.
Proof.
  split.
  - split; [|by vm_compute; lia]. exists (take 3 boot_demo_mm), 7%nat. split; [done|].
    repeat constructor; simpl; lia.
  - by vm_compute.
  - by vm_compute.
  - by vm_compute.
  - by vm_compute.
  - apply boot_demo_kernel.
  - simpl. lia.
  - exists (0x7DBE - PG_SZ). by vm_compute.
Qed.

Lemma boot_demo_entries : boot_entries 0x7C00 boot_demo_mm =
  [E820 0 0x9fc00 1 0; E820 0x9fc00 0x60400 2 0; E820 0x100000 0x1f00000 1 0; E820 0x6000 0x1000 6 0; E820 0x7C00 0x7E00 7 0].
Proof. by vm_compute. Qed.

(** Above 1MB only the later regions can be in the way. *)
Lemma boot_demo_free c len later :
  0x100001 ≤ c → 0 ≤ len → c + len ≤ 0x2000000 →
  Forall (λ e, c + len < ent_base e ∨ ent_base e + ent_len e < c) later →
  region_free (boot_entries 0x7C00 boot_demo_mm ++ later) c len.
Proof.
  intros Hc Hl Hcl Hlater. rewrite boot_demo_entries. split.
  - exists (E820 0x100000 0x1f00000 1 0). split; [set_solver|]. split; [done|]. simpl. lia.
  - intros e [He|He]%elem_of_app Ht; [|by eapply Forall_forall in Hlater].
    repeat (apply elem_of_cons in He as [->|He]; [simpl in *; first [by destruct Ht | lia]|]). by apply elem_of_nil in He.
Qed.

Lemma boot_reaches_kernel_witness :
  ∃ b pa, pmode_entry boot_demo_disk 1 0x9000 0x7C00 boot_demo_feat 0x7000 boot_demo_mm boot_demo_ram = Ret (Some b) ∧
    b_eip b = KERNEL_LOAD_ADDR ∧ b_translate b (KERNEL_LOAD_ADDR + 29) = Some pa ∧ b_ram b pa = 0x90.
Proof.
  destruct (boot_reaches_kernel boot_demo_disk 1 0x9000 0x7C00 boot_demo_feat 0x7000 boot_demo_mm boot_demo_ram 0x7DBE 0 3 [] 512
    boot_demo_ready) as ([b|] & Hrun & Hr); cbv zeta in Hr.
  - destruct (ke_image _ _ _ _ _ _ _ _ _ _ Hr 29) as (pa & Htr & Hb); [lia|].
    exists b, pa. split; [done|]. split; [apply Hr|]. split; [done|]. rewrite Hb. clear. by vm_compute.
  - exfalso. clear Hrun. change PG_SZ with 0x1000 in Hr. change HUGE_PG_SZ with 0x400000 in Hr.
    assert (Hn : ∀ later len incr c, no_region (boot_entries 0x7C00 boot_demo_mm ++ later) len incr →
      0x100001 ≤ c → incr ≤ c → 0 ≤ len → c + len ≤ 0x2000000 → c mod incr = 0 →
      ¬ Forall (λ e, c + len < ent_base e ∨ ent_base e + ent_len e < c) later).
    { intros later len incr c Hno Hc Hi Hl Hcl Hm Hf. apply (Hno c); [change GB with (2 ^ 30); lia|done|]. by apply boot_demo_free. }
    destruct Hr as [Hr|[(bufp & _ & Hr)|(bufp & kernel & _ & _ & Hr)]].
    + rewrite <- (app_nil_r (boot_entries _ _)) in Hr. apply (Hn _ _ _ 0x200000 Hr); [lia..|done|constructor].
    + assert (Hcase : bufp < 0x600000 ∨ 0x600000 ≤ bufp) by lia. destruct Hcase.
      * apply (Hn _ _ _ 0x800000 Hr); [lia..|done|]. apply Forall_singleton. simpl. lia.
      * apply (Hn _ _ _ 0x400000 Hr); [lia..|done|]. apply Forall_singleton. simpl. lia.
    + assert (Hcase : ∃ j, 0 ≤ j < 3 ∧ let c := 0x200000 + j * 0x200000 in
        (c + 0x2000 < bufp ∨ bufp + 4096 < c) ∧ (c + 0x2000 < kernel ∨ kernel + 512 < c)).
      { destruct (Z.lt_ge_cases bufp 0x300000), (Z.lt_ge_cases bufp 0x500000), (Z.lt_ge_cases kernel 0x300000), (Z.lt_ge_cases kernel 0x500000);
          (exists 0; cbv zeta; lia) || (exists 1; cbv zeta; lia) || (exists 2; cbv zeta; lia). }
      destruct Hcase as (j & Hj & H1 & H2). cbv zeta in H1, H2.
      apply (Hn _ _ _ (0x200000 + j * 0x200000) Hr); [lia..| |apply Forall_cons; split; [simpl; lia|apply Forall_singleton; simpl; lia]].
      replace (0x200000 + j * 0x200000) with ((512 + j * 512) * 0x1000) by lia. by apply Z.mod_mul.
Defined.
