(* ===== verification/PageFrame.v ===== *)
(** * Page frame allocator

    Models [mm/page_frame_allocator.{h,cc}] and the descriptor part of
    [mm/page_frame_table.h].  The page frame table is the list of its
    descriptors; a [PageFrameDescriptor *] into it is its index. *)
From S2P Require Import Prelude Algorithm.

Record PageFrameDescriptor := PFD { allocated : bool; unusable : bool }.

Definition usable (d : PageFrameDescriptor) : bool := negb (allocated d) && negb (unusable d).

(** [SimplePFA] with its base class: the shared table, the managed range
    of physical addresses, the round-robin needle and the counter. *)
Record SimplePFA := PFA {
  pft : list PageFrameDescriptor;
  start : Z;
  end_ : Z;
  needle : Z;
  alloced_pgs : Z;
}.

Definition get_pfd (pf_offset : Z) : Z := Z.shiftr pf_offset PG_SZ_BITS.
Definition startp (st : SimplePFA) : Z := get_pfd (start st).
Definition endp (st : SimplePFA) : Z := get_pfd (end_ st).

(** [pft.get_pf_offset( *p)] is the index of the descriptor. *)
Definition get_pf_offset (pfd : Z) : Z := pfd.
Definition get_paddr (pfd : Z) : Z := u64 (get_pf_offset pfd * PG_SZ).

(** Reading the descriptor a pointer designates. *)
Definition pfd_at (ds : list PageFrameDescriptor) (i : Z) : outcome PageFrameDescriptor :=
  if i <? 0 then Halt BadAccess else deref (ds !! Z.to_nat i).

(** The scan of [try_alloc]: the first unusable descriptor among [n]
    from [it], if any. *)
Fixpoint first_unusable (ds : list PageFrameDescriptor) (it : Z) (n : nat) : outcome (option Z) :=
  match n with
  | O => Ret None
  | S n =>
    d ← pfd_at ds it;
    if negb (usable d) then Ret (Some it) else first_unusable ds (it + 1) n
  end.

(** [try_alloc], on the captured [needle] and [steps]. *)
Definition try_alloc (ds : list PageFrameDescriptor) (sp ep num_pg nd steps : Z)
    : outcome (bool * Z * Z) :=
  if ep <? nd + num_pg then Ret (false, sp, u32 (steps + (ep - nd)))
  else
    r ← first_unusable ds nd (Z.to_nat num_pg);
    match r with
    | Some it => Ret (false, it, u32 (steps + (it - nd)))
    | None => Ret (true, nd, steps)
    end.

(** [while (!needle->usable() && ++steps < len)]: returns the needle and
    the steps. *)
Fixpoint skip_unusable (fuel : nat) (ds : list PageFrameDescriptor) (sp ep len nd steps : Z)
    : outcome (Z * Z) :=
  match fuel with
  | O => Halt OutOfFuel
  | S fuel =>
    d ← pfd_at ds nd;
    if usable d then Ret (nd, steps)
    else
      let steps := u32 (steps + 1) in
      if steps <? len then
        let nd := nd + 1 in
        skip_unusable fuel ds sp ep len (if ep <=? nd then sp else nd) steps
      else Ret (nd, steps)
  end.

(** The outer loop. *)
Fixpoint alloc_loop (fuel : nat) (ds : list PageFrameDescriptor) (sp ep len num_pg nd steps : Z)
    : outcome (Z * Z) :=
  match fuel with
  | O => Halt OutOfFuel
  | S fuel =>
    '(ok, nd, steps) ← try_alloc ds sp ep num_pg nd steps;
    if negb ok && (steps <? len) then
      '(nd, steps) ← skip_unusable (S (Z.to_nat len)) ds sp ep len nd steps;
      alloc_loop fuel ds sp ep len num_pg nd steps
    else Ret (nd, steps)
  end.

(** Setting a flag of [n] descriptors from [it] on. *)
Fixpoint mark_allocated (ds : list PageFrameDescriptor) (it : nat) (n : nat)
    : list PageFrameDescriptor :=
  match n with
  | O => ds
  | S n =>
    mark_allocated (alter (λ d, PFD true (unusable d)) it ds) (S it) n
  end.

Definition alloc (num_pg : Z) : M SimplePFA (option Z) :=
  st ← getS;
  let len := (end_ st - start st) / PG_SZ in
  if len <? num_pg then mret None
  else
    '(nd, steps) ← liftO (alloc_loop (2 + Z.to_nat len) (pft st) (startp st) (endp st) len
                            num_pg (needle st) 0);
    if len <=? steps then
      _ ← putS (PFA (pft st) (start st) (end_ st) nd (alloced_pgs st)); mret None
    else
      _ ← putS (PFA (mark_allocated (pft st) (Z.to_nat nd) (Z.to_nat num_pg))
                    (start st) (end_ st) nd (u32 (alloced_pgs st + num_pg)));
      mret (Some (u64 (Z.shiftl (get_pf_offset nd) PG_SZ_BITS))).

(** The loop of [free]. *)
Fixpoint free_loop (ds : list PageFrameDescriptor) (it : Z) (n : nat)
    : outcome (list PageFrameDescriptor) :=
  match n with
  | O => Ret ds
  | S n =>
    d ← pfd_at ds it;
    _ ← assert_ (allocated d);
    free_loop (<[Z.to_nat it := PFD false (unusable d)]> ds) (it + 1) n
  end.

Definition free (base num_pg : Z) : M SimplePFA unit :=
  st ← getS;
  _ ← assertM (aligned_pow2 PG_SZ base);
  _ ← assertM ((start st <=? base) && (u64 (base + num_pg) <=? end_ st));
  ds ← liftO (free_loop (pft st) (get_pfd base) (Z.to_nat num_pg));
  putS (PFA ds (start st) (end_ st) (needle st) (u32 (alloced_pgs st - num_pg))).

(** ** Invariant *)
Definition pfa_wf (st : SimplePFA) : Prop :=
  0 ≤ start st ∧ start st mod PG_SZ = 0 ∧ end_ st mod PG_SZ = 0 ∧
  startp st ≤ needle st < endp st ∧ endp st ≤ zlen (pft st) ∧ end_ st < 2 ^ 43.

(** [n] usable descriptors from [a] on. *)
Definition free_run (ds : list PageFrameDescriptor) (a n : Z) : Prop :=
  ∀ i, a ≤ i < a + n → ∃ d, ds !! Z.to_nat i = Some d ∧ usable d = true.

(** No start in [[lo, hi)] of a run of [n] that fits below [ep]. *)
Definition no_run (ds : list PageFrameDescriptor) (n ep lo hi : Z) : Prop :=
  ∀ a, lo ≤ a < hi → a + n ≤ ep → ¬ free_run ds a n.

Lemma pfd_at_Some ds i : 0 ≤ i < zlen ds → ∃ d, pfd_at ds i = Ret d ∧ ds !! Z.to_nat i = Some d.
Proof.
  intros. destruct (lookup_lt_is_Some_2 ds (Z.to_nat i)) as [d Hd]; [lia|].
  exists d. unfold pfd_at. replace (i <? 0) with false by lia. by rewrite Hd.
Qed.

Lemma first_unusable_spec ds it n :
  0 ≤ it → it + Z.of_nat n ≤ zlen ds →
  ∃ r, first_unusable ds it n = Ret r ∧
    match r with
    | None => free_run ds it (Z.of_nat n)
    | Some j => it ≤ j < it + Z.of_nat n ∧
                ∃ d, ds !! Z.to_nat j = Some d ∧ usable d = false
    end.
Proof.
  revert it. induction n as [|n IH]; intros it Hit Hb; cbn [first_unusable].
  - exists None. split; [done|]. intros i Hi. lia.
  - destruct (pfd_at_Some ds it) as (d & -> & Hd); [lia|]. munfold.
    destruct (usable d) eqn:Hu; simpl.
    + destruct (IH (it + 1)) as (r & -> & Hr); [lia..|]. exists r. split; [done|].
      destruct r as [j|].
      * destruct Hr as [? ?]. split; [lia|done].
      * intros i Hi. destruct (decide (i = it)) as [->|]; [eauto|]. apply Hr. lia.
    + exists (Some it). split; [done|]. split; [lia|eauto].
Qed.

Lemma no_run_unusable ds n ep j lo :
  0 ≤ lo → (∃ d, ds !! Z.to_nat j = Some d ∧ usable d = false) → j < lo + n →
  no_run ds n ep lo (j + 1).
Proof.
  intros Hlo (d & Hd & Hu) Hj a Ha _ Hrun. destruct (Hrun j) as (d' & Hd' & Hu'); [lia|].
  congruence.
Qed.

Lemma no_run_app ds n ep lo mid hi :
  no_run ds n ep lo mid → no_run ds n ep mid hi → no_run ds n ep lo hi.
Proof. intros H1 H2 a Ha. destruct (Z.lt_ge_cases a mid); [apply H1|apply H2]; lia. Qed.

Lemma no_run_sub ds n ep lo hi lo' hi' :
  lo ≤ lo' → hi' ≤ hi → no_run ds n ep lo hi → no_run ds n ep lo' hi'.
Proof. intros ?? H a Ha. apply H. lia. Qed.

(** ** The round-robin search

    [n0] is the needle at the call; [steps] counts the descriptors the
    needle has moved over, so that the needle is [n0 + steps], modulo the
    one wrap-around. *)
Section search.
Context (ds : list PageFrameDescriptor) (sp ep num_pg n0 : Z).
Hypothesis Hsp : 0 ≤ sp.
Hypothesis Hep : ep ≤ zlen ds.
Hypothesis Hn0 : sp ≤ n0 < ep.
Hypothesis Hnum : 0 < num_pg ≤ ep - sp.
Hypothesis Hsmall : ep - sp < 2 ^ 31.

Definition cursor (nd steps : Z) : Prop :=
  sp ≤ nd < ep ∧ 0 ≤ steps < 2 ^ 32 ∧
  ((nd = n0 + steps ∧ no_run ds num_pg ep n0 nd) ∨
   (nd = n0 + steps - (ep - sp) ∧ steps < ep - sp ∧
    no_run ds num_pg ep n0 ep ∧ no_run ds num_pg ep sp nd) ∨
   (ep - sp ≤ steps ∧ no_run ds num_pg ep sp ep)).

Definition dead (nd : Z) : Prop := ∃ d, ds !! Z.to_nat nd = Some d ∧ usable d = false.

(** Moving over [k] descriptors at none of which a run starts. *)
Lemma cursor_advance nd steps k :
  cursor nd steps → steps < ep - sp → 0 ≤ k → nd + k < ep →
  no_run ds num_pg ep nd (nd + k) → cursor (nd + k) (steps + k).
Proof.
  intros (Hnd & Hst & Hc) Hlt Hk Hb Hno. split; [lia|]. split; [lia|].
  destruct Hc as [[-> Hr]|[(-> & _ & Hr1 & Hr2)|[? _]]]; [left|right|lia].
  - split; [lia|]. by eapply no_run_app.
  - destruct (Z.lt_ge_cases (steps + k) (ep - sp)); [left|right].
    + split_and!; [lia|lia|done|]. by eapply no_run_app.
    + split; [lia|]. apply no_run_app with n0; [|done].
      apply no_run_sub with sp (n0 + steps - (ep - sp) + k); [lia|lia|]. by eapply no_run_app.
Qed.

(** Wrapping around, when no run starts between the needle and the end. *)
Lemma cursor_wrap nd steps :
  cursor nd steps → steps < ep - sp → no_run ds num_pg ep nd ep →
  cursor sp (steps + (ep - nd)).
Proof.
  intros (Hnd & Hst & Hc) Hlt Hno. split; [lia|]. split; [lia|].
  destruct Hc as [[-> Hr]|[(-> & _ & Hr1 & Hr2)|[? _]]]; [|right; right|lia].
  - assert (no_run ds num_pg ep n0 ep) by (by eapply no_run_app).
    destruct (decide (n0 = sp)) as [->|]; right; [right|left].
    + split; [lia|done].
    + split_and!; [lia|lia|done|]. intros a Ha. lia.
  - split; [lia|]. eapply no_run_app; [exact Hr2|done].
Qed.

Lemma try_alloc_spec nd steps :
  cursor nd steps → steps < ep - sp →
  ∃ ok nd' steps', try_alloc ds sp ep num_pg nd steps = Ret (ok, nd', steps') ∧
    cursor nd' steps' ∧
    if (ok : bool) then nd' = nd ∧ steps' = steps ∧ nd + num_pg ≤ ep ∧ free_run ds nd num_pg
    else steps < steps' ∨ (dead nd' ∧ steps ≤ steps').
Proof.
  intros Hc Hlt. pose proof Hc as (Hnd & Hst & _). unfold try_alloc.
  destruct (Z.ltb_spec ep (nd + num_pg)).
  - rewrite wrap_small by lia. exists false, sp, (steps + (ep - nd)). split; [done|]. split; [|lia].
    apply cursor_wrap; [done..|]. intros a Ha. lia.
  - destruct (first_unusable_spec ds nd (Z.to_nat num_pg)) as (r & -> & Hr); [lia..|].
    munfold. rewrite Z2Nat.id in Hr by lia. destruct r as [j|].
    + destruct Hr as [Hj Hdead]. rewrite wrap_small by lia.
      exists false, j, (steps + (j - nd)). split; [done|]. split; [|right; split; [done|lia]].
      replace j with (nd + (j - nd)) at 1 by lia. apply cursor_advance; [done|lia..|].
      apply no_run_sub with nd (j + 1); [lia..|]. apply no_run_unusable; [lia|done|lia].
    + exists true, nd, steps. split_and!; [done..|lia|done].
Qed.

Lemma skip_unusable_spec fuel nd steps :
  cursor nd steps → steps < ep - sp → ep - sp - steps < Z.of_nat fuel →
  ∃ nd' steps', skip_unusable fuel ds sp ep (ep - sp) nd steps = Ret (nd', steps') ∧
    sp ≤ nd' < ep ∧ steps' ≤ ep - sp ∧ steps ≤ steps' ∧ (dead nd → steps < steps') ∧
    (steps' < ep - sp → cursor nd' steps') ∧
    (ep - sp ≤ steps' → dead nd' ∧ no_run ds num_pg ep sp ep).
Proof.
  revert nd steps. induction fuel as [|fuel IH]; intros nd steps Hc Hlt Hf; [lia|].
  pose proof Hc as (Hnd & Hst & Hcc). cbn [skip_unusable].
  destruct (pfd_at_Some ds nd) as (d & -> & Hd); [lia|]. munfold.
  destruct (usable d) eqn:Hu.
  { exists nd, steps. split_and!; [done|lia|lia|lia|lia| |done|lia].
    intros (d' & Hd' & ?). congruence. }
  assert (Hdead : dead nd) by (by exists d).
  assert (Hno : no_run ds num_pg ep nd (nd + 1)) by (apply no_run_unusable; [lia|done|lia]).
  rewrite wrap_small by lia. destruct (Z.ltb_spec (steps + 1) (ep - sp)).
  - assert (Hc' : cursor (if ep <=? nd + 1 then sp else nd + 1) (steps + 1)).
    { destruct (Z.leb_spec ep (nd + 1)).
      - replace (steps + 1) with (steps + (ep - nd)) by lia. apply cursor_wrap; [done..|].
        by replace ep with (nd + 1) at 2 by lia.
      - apply cursor_advance; [done|lia|lia|lia|done]. }
    destruct (IH _ _ Hc') as (nd' & st' & -> & ? & ? & ? & _ & ?); [lia..|].
    exists nd', st'. split_and!; tauto || lia.
  - exists nd, (steps + 1). split_and!; [done|lia|lia|lia|lia|lia|lia|]. intros _. split; [done|].
    destruct Hcc as [[Hnd' Hr]|[(Hnd' & _ & Hr1 & Hr2)|[_ ?]]]; [| |done].
    + apply no_run_sub with n0 (nd + 1); [lia|lia|]. by eapply no_run_app.
    + eapply no_run_app with (nd + 1).
      * by eapply no_run_app.
      * apply no_run_sub with n0 ep; [lia|lia|done].
Qed.

(** When the needle is dead and the search is over, one more [try_alloc]
    fails. *)
Lemma try_alloc_dead nd steps :
  sp ≤ nd < ep → 0 ≤ steps < 2 ^ 31 → ep - sp ≤ steps → dead nd →
  ∃ nd' steps', try_alloc ds sp ep num_pg nd steps = Ret (false, nd', steps') ∧
    sp ≤ nd' < ep ∧ ep - sp ≤ steps'.
Proof.
  intros Hnd Hst Hge (d & Hd & Hu). unfold try_alloc. destruct (Z.ltb_spec ep (nd + num_pg)).
  - rewrite wrap_small by lia. eexists _, _. split; [done|]. lia.
  - destruct (Z.to_nat num_pg) as [|n] eqn:Hn; [lia|]. cbn [first_unusable].
    destruct (pfd_at_Some ds nd) as (d' & -> & Hd'); [lia|]. munfold.
    rewrite Hd in Hd'. injection Hd' as <-. rewrite Hu. simpl. rewrite wrap_small by lia.
    eexists _, _. split; [done|]. lia.
Qed.

Lemma alloc_loop_spec fuel nd steps :
  cursor nd steps → steps < ep - sp → ep - sp - steps + 1 < Z.of_nat fuel →
  ∃ nd' steps', alloc_loop fuel ds sp ep (ep - sp) num_pg nd steps = Ret (nd', steps') ∧
    sp ≤ nd' < ep ∧
    if ep - sp <=? steps' then no_run ds num_pg ep sp ep
    else nd' + num_pg ≤ ep ∧ free_run ds nd' num_pg.
Proof.
  revert nd steps. induction fuel as [|fuel IH]; intros nd steps Hc Hlt Hf; [lia|].
  cbn [alloc_loop]. pose proof Hc as (Hnd0 & Hst0 & _).
  destruct (try_alloc_spec nd steps Hc Hlt) as (ok & nd1 & st1 & -> & Hc1 & Hok). munfold.
  pose proof Hc1 as (Hnd1 & Hst1 & _).
  destruct ok; simpl.
  { destruct Hok as (-> & -> & ? & ?). exists nd, steps.
    replace (ep - sp <=? steps) with false by lia. done. }
  destruct (Z.ltb_spec st1 (ep - sp)) as [Hlt1|Hge1].
  - destruct (skip_unusable_spec (S (Z.to_nat (ep - sp))) nd1 st1 Hc1 Hlt1)
      as (nd2 & st2 & Heq & Hnd2 & Hw2 & Hle2 & Hdead2 & Hc2 & Hend2); [lia|].
    cbn [skip_unusable] in Heq. rewrite Heq.
    assert (steps < st2) by (destruct Hok as [?|[Hd ?]]; [lia|specialize (Hdead2 Hd); lia]).
    destruct (Z.lt_ge_cases st2 (ep - sp)) as [Hlt2|Hge2].
    + apply IH; [auto|lia|lia].
    + destruct (Hend2 Hge2) as [Hd Hno]. destruct fuel as [|fuel]; [lia|]. cbn [alloc_loop].
      destruct (try_alloc_dead nd2 st2) as (nd3 & st3 & -> & ? & ?); [lia|lia|lia|done|].
      munfold. simpl. replace (st3 <? ep - sp) with false by lia.
      exists nd3, st3. replace (ep - sp <=? st3) with true by lia. done.
  - exists nd1, st1. split; [done|]. split; [done|].
    replace (ep - sp <=? st1) with true by lia.
    destruct Hc1 as (_ & _ & [[? Hr]|[(? & ? & _)|[_ ?]]]); [|lia|done].
    apply no_run_sub with n0 nd1; [lia| |done]. lia.
Qed.
End search.

(** ** Marking and unmarking a range *)
Definition set_range (v : bool) (a n : nat) (ds : list PageFrameDescriptor) :=
  imap (λ i d, if decide (a ≤ i < a + n)%nat then PFD v (unusable d) else d) ds.

Lemma set_range_lookup v a n ds i :
  set_range v a n ds !! i =
  (λ d, if decide (a ≤ i < a + n)%nat then PFD v (unusable d) else d) <$> ds !! i.
Proof. apply list_lookup_imap. Qed.

Lemma set_range_length v a n ds : length (set_range v a n ds) = length ds.
Proof. apply length_imap. Qed.

Lemma mark_allocated_eq n a ds : mark_allocated ds a n = set_range true a n ds.
Proof.
  revert a ds. induction n as [|n IH]; intros a ds; cbn [mark_allocated]; apply list_eq; intros i.
  - rewrite set_range_lookup. destruct (ds !! i); simpl; [|done]. by rewrite decide_False by lia.
  - rewrite IH, !set_range_lookup. destruct (decide (i = a)) as [->|].
    + rewrite list_lookup_alter_eq. destruct (ds !! a); simpl; [|done].
      rewrite decide_False, decide_True by lia. done.
    + rewrite list_lookup_alter_ne by done. destruct (ds !! i); simpl; [|done].
      repeat case_decide; done || lia.
Qed.

Lemma free_loop_spec n a ds :
  0 ≤ a → a + Z.of_nat n ≤ zlen ds →
  (∀ i d, a ≤ Z.of_nat i < a + Z.of_nat n → ds !! i = Some d → allocated d = true) →
  free_loop ds a n = Ret (set_range false (Z.to_nat a) n ds).
Proof.
  revert a ds. induction n as [|n IH]; intros a ds Ha Hb Hall; cbn [free_loop].
  - f_equal. apply list_eq. intros i. rewrite set_range_lookup.
    destruct (ds !! i); simpl; [|done]. by rewrite decide_False by lia.
  - destruct (pfd_at_Some ds a) as (d & -> & Hd); [lia|]. munfold.
    rewrite (Hall (Z.to_nat a) d ltac:(lia) Hd). rewrite IH; [|lia|rewrite length_insert; lia|].
    + f_equal. apply list_eq. intros i. rewrite !set_range_lookup.
      destruct (decide (i = Z.to_nat a)) as [->|].
      * rewrite list_lookup_insert_eq by lia. rewrite Hd. simpl.
        repeat case_decide; done || lia.
      * rewrite list_lookup_insert_ne by done. destruct (ds !! i); simpl; [|done].
        repeat case_decide; done || lia.
    + intros i d' Hi. rewrite list_lookup_insert_ne by lia. apply Hall. lia.
Qed.

Lemma set_range_restore a n ds :
  free_run ds (Z.of_nat a) (Z.of_nat n) →
  set_range false a n (set_range true a n ds) = ds.
Proof.
  intros Hfree. apply list_eq. intros i. rewrite !set_range_lookup.
  destruct (ds !! i) as [d|] eqn:Hd; simpl; [|done]. case_decide; [|done].
  destruct (Hfree (Z.of_nat i)) as (d' & Hd' & Hu); [lia|]. rewrite Nat2Z.id in Hd'.
  rewrite Hd in Hd'. injection Hd' as <-. unfold usable in Hu.
  destruct d as [[] []]; simpl in *; done.
Qed.

(** ** Geometry of the managed range *)
Lemma pfa_geometry st :
  pfa_wf st → start st = startp st * 2 ^ 12 ∧ end_ st = endp st * 2 ^ 12 ∧
  (end_ st - start st) / PG_SZ = endp st - startp st ∧ 0 ≤ startp st ∧
  endp st < 2 ^ 31.
Proof.
  intros (H0 & Hs & He & Hn & Hl & Hb). unfold startp, endp, get_pfd in *.
  change PG_SZ_BITS with 12 in *. change PG_SZ with (2 ^ 12) in *.
  rewrite !Z.shiftr_div_pow2 in * by done.
  pose proof (Z.div_mod (start st) (2 ^ 12)). pose proof (Z.div_mod (end_ st) (2 ^ 12)).
  assert (end_ st / 2 ^ 12 < 2 ^ 31) by (apply Z.div_lt_upper_bound; lia).
  assert (0 ≤ start st / 2 ^ 12) by (apply Z.div_pos; lia).
  split_and!; try lia.
  replace (end_ st - start st) with ((end_ st / 2 ^ 12 - start st / 2 ^ 12) * 2 ^ 12) by lia.
  by apply Z.div_mul.
Qed.

(** [alloc] in terms of descriptor indices. *)
Lemma wp_alloc st num_pg (Q : option Z → SimplePFA → Prop) :
  pfa_wf st → 0 < num_pg →
  (∀ nd, startp st ≤ nd < endp st → no_run (pft st) num_pg (endp st) (startp st) (endp st) →
     Q None (PFA (pft st) (start st) (end_ st) nd (alloced_pgs st))) →
  (∀ nd, startp st ≤ nd < endp st → nd + num_pg ≤ endp st → free_run (pft st) nd num_pg →
     Q (Some (nd * 2 ^ 12))
       (PFA (set_range true (Z.to_nat nd) (Z.to_nat num_pg) (pft st)) (start st) (end_ st) nd
            (u32 (alloced_pgs st + num_pg)))) →
  wp (alloc num_pg) Q st.
Proof.
  intros Hwf Hn HNone HSome. destruct (pfa_geometry st Hwf) as (Hs & He & Hlen & H0 & Hb).
  destruct Hwf as (_ & _ & _ & Hnd & Hl & _).
  unfold alloc. apply wp_bind, wp_get. rewrite Hlen. cbv zeta.
  destruct (Z.ltb_spec (endp st - startp st) num_pg).
  { apply wp_ret. destruct st; simpl in *. apply HNone; [done|]. intros a Ha. lia. }
  destruct (alloc_loop_spec (pft st) (startp st) (endp st) num_pg (needle st) H0 Hl
              Hnd ltac:(lia) ltac:(lia) (2 + Z.to_nat (endp st - startp st)) (needle st) 0)
    as (nd & steps & Heq & Hnd' & Hres); [|lia|lia|].
  { split; [lia|]. split; [lia|]. left. split; [lia|]. intros a Ha. lia. }
  apply wp_bind. eapply wp_lift; [exact Heq|]. cbn beta match.
  destruct (endp st - startp st <=? steps).
  - apply wp_bind, wp_put, wp_ret. by apply HNone.
  - destruct Hres as [Hfit Hrun]. apply wp_bind, wp_put, wp_ret.
    rewrite mark_allocated_eq. unfold get_pf_offset. change PG_SZ_BITS with 12.
    rewrite Z.shiftl_mul_pow2, wrap_small by lia. by apply HSome.
Qed.

Lemma pfa_wf_update st ds nd c :
  pfa_wf st → length ds = length (pft st) → startp st ≤ nd < endp st →
  pfa_wf (PFA ds (start st) (end_ st) nd c).
Proof.
  intros (?&?&?&?&?&?) Hl Hnd. unfold pfa_wf, startp, endp in *. simpl. rewrite Hl. tauto.
Qed.

(** C4: [SimplePFA::alloc] always terminates.  It succeeds exactly when
    the managed range holds a run of [num_pg] contiguous usable pages;
    it then returns the page-aligned address of such a run, marks
    exactly those descriptors allocated, and otherwise changes no
    descriptor. *)
Theorem alloc_complete st num_pg :
  pfa_wf st → 0 < num_pg →
  ∃ r st', alloc num_pg st = Ret (r, st') ∧ pfa_wf st' ∧
    start st' = start st ∧ end_ st' = end_ st ∧
    match r with
    | Some pa =>
        pa mod PG_SZ = 0 ∧ start st ≤ pa ∧ pa + num_pg * PG_SZ ≤ end_ st ∧
        free_run (pft st) (pa / PG_SZ) num_pg ∧
        pft st' = set_range true (Z.to_nat (pa / PG_SZ)) (Z.to_nat num_pg) (pft st) ∧
        alloced_pgs st' = u32 (alloced_pgs st + num_pg)
    | None =>
        pft st' = pft st ∧ alloced_pgs st' = alloced_pgs st ∧
        ∀ a, startp st ≤ a → a + num_pg ≤ endp st → ¬ free_run (pft st) a num_pg
    end.
Proof.
  intros Hwf Hn. destruct (pfa_geometry st Hwf) as (Hs & He & _ & H0 & _).
  apply wp_run, wp_alloc; [done..| |].
  - intros nd Hnd Hno. split; [by apply pfa_wf_update|]. simpl. split_and!; [done..|].
    intros a Ha Hfit. apply Hno; lia.
  - intros nd Hnd Hfit Hrun. split; [by apply pfa_wf_update; [|apply set_range_length|]|].
    simpl. change PG_SZ with (2 ^ 12). rewrite Z.div_mul by done.
    split_and!; [done..|by apply Z.mod_mul|lia|lia|done|done|done].
Qed.

Definition demo_pfa : SimplePFA :=
  PFA [PFD false false; PFD true false; PFD false false; PFD false false; PFD false true]
      0 0x5000 2 1.

Lemma demo_pfa_wf : pfa_wf demo_pfa.
Proof. unfold pfa_wf. split_and!; vm_compute; done. Qed.

Lemma alloc_complete_witness :
  ∃ st', alloc 2 demo_pfa = Ret (Some 0x2000, st') ∧ pfa_wf st' ∧ alloced_pgs st' = 3.
Proof.
  destruct (alloc_complete demo_pfa 2 demo_pfa_wf ltac:(done)) as (r & st' & Heq & Hwf & _).
  exists st'. vm_compute in Heq. injection Heq as <- <-. split_and!; done.
Defined.

(** A run that starts at the needle is taken at once. *)
Lemma alloc_at_needle st num_pg :
  pfa_wf st → 0 < num_pg → needle st + num_pg ≤ endp st → free_run (pft st) (needle st) num_pg →
  alloc num_pg st = Ret (Some (needle st * 2 ^ 12),
    PFA (set_range true (Z.to_nat (needle st)) (Z.to_nat num_pg) (pft st)) (start st) (end_ st)
        (needle st) (u32 (alloced_pgs st + num_pg))).
Proof.
  intros Hwf Hn Hfit Hrun. destruct (pfa_geometry st Hwf) as (Hs & He & Hlen & H0 & Hb).
  destruct Hwf as (_ & _ & _ & Hnd & Hl & _). unfold alloc. munfold. rewrite Hlen.
  replace (endp st - startp st <? num_pg) with false by lia.
  cbn [Nat.add alloc_loop]. unfold try_alloc.
  replace (endp st <? needle st + num_pg) with false by lia.
  destruct (first_unusable_spec (pft st) (needle st) (Z.to_nat num_pg)) as (r & -> & Hr); [lia..|].
  munfold. destruct r as [j|].
  - destruct Hr as (Hj & d & Hd & Hu). destruct (Hrun j) as (d' & Hd' & Hu'); [lia|]. congruence.
  - cbn [negb andb]. cbn match. replace (endp st - startp st <=? 0) with false by lia.
    rewrite mark_allocated_eq. unfold get_pf_offset. change PG_SZ_BITS with 12.
    by rewrite Z.shiftl_mul_pow2, wrap_small by lia.
Qed.

(** [free] undoes [alloc]: freeing the run just returned passes the
    assertions and restores every descriptor and the page count, and an
    allocation of no greater size that follows returns the same address
    (the needle is not moved past an allocation). *)
Theorem alloc_free_alloc st num_pg num_pg' pa st1 :
  pfa_wf st → 0 < num_pg → 0 < num_pg' ≤ num_pg →
  0 ≤ alloced_pgs st → alloced_pgs st + num_pg < 2 ^ 32 →
  alloc num_pg st = Ret (Some pa, st1) →
  ∃ st2, free pa num_pg st1 = Ret (tt, st2) ∧
    pft st2 = pft st ∧ alloced_pgs st2 = alloced_pgs st ∧ pfa_wf st2 ∧
    ∃ st3, alloc num_pg' st2 = Ret (Some pa, st3).
Proof.
  intros Hwf Hn Hn' Hc0 Hc1 Ha. destruct (pfa_geometry st Hwf) as (Hs & He & Hlen & H0 & Hb).
  pose proof Hwf as (_ & _ & _ & _ & Hl & _).
  assert (Hw : wp (alloc num_pg) (λ r st', ∀ pa, r = Some pa → ∃ nd,
    pa = nd * 2 ^ 12 ∧ startp st ≤ nd ∧ nd + num_pg ≤ endp st ∧ free_run (pft st) nd num_pg ∧
    st' = PFA (set_range true (Z.to_nat nd) (Z.to_nat num_pg) (pft st)) (start st) (end_ st) nd
            (u32 (alloced_pgs st + num_pg))) st).
  { apply wp_alloc; [done..| |]; [done|]. intros nd Hnd Hfit Hrun ? [= <-]. exists nd.
    split_and!; (done || lia). }
  unfold wp in Hw. rewrite Ha in Hw. destruct (Hw pa eq_refl) as (nd & -> & Hnd & Hfit & Hrun & ->).
  rewrite (wrap_small 32) by lia.
  assert (Hfree : free (nd * 2 ^ 12) num_pg
     (PFA (set_range true (Z.to_nat nd) (Z.to_nat num_pg) (pft st)) (start st) (end_ st) nd
        (alloced_pgs st + num_pg)) =
     Ret (tt, PFA (pft st) (start st) (end_ st) nd (alloced_pgs st))).
  { unfold free. munfold. simpl pft. simpl start. simpl end_.
    assert (Hal : aligned_pow2 PG_SZ (nd * 2 ^ 12) = true).
    { unfold aligned_pow2. change (PG_SZ - 1) with (2 ^ 12 - 1).
      rewrite land_mask_mod, Z.mod_mul by done. done. }
    rewrite Hal, wrap_small by lia.
    replace ((start st <=? nd * 2 ^ 12) && (nd * 2 ^ 12 + num_pg <=? end_ st)) with true by lia.
    unfold get_pfd. change PG_SZ_BITS with 12. rewrite Z.shiftr_div_pow2, Z.div_mul by done.
    rewrite free_loop_spec; [|lia|rewrite set_range_length; lia|].
    - rewrite set_range_restore by (by rewrite !Z2Nat.id by lia). simpl.
      rewrite wrap_small by lia. do 3 f_equal. lia.
    - intros i d Hi. rewrite set_range_lookup. destruct (pft st !! i); simpl; [|done].
      rewrite decide_True by lia. by intros [= <-]. }
  eexists. split; [exact Hfree|]. simpl. split_and!; [done..|by apply pfa_wf_update; [..|lia]|].
  eexists. apply alloc_at_needle; simpl; try lia.
  - by apply pfa_wf_update; [..|lia].
  - unfold endp in *. simpl. lia.
  - intros i Hi. apply Hrun. lia.
Qed.

Lemma alloc_free_alloc_witness :
  ∃ st1 st2 st3, alloc 2 demo_pfa = Ret (Some 0x2000, st1) ∧ free 0x2000 2 st1 = Ret (tt, st2) ∧
    pft st2 = pft demo_pfa ∧ alloc 1 st2 = Ret (Some 0x2000, st3).
Proof.
  assert (Ha : ∃ st1, alloc 2 demo_pfa = Ret (Some 0x2000, st1)) by (eexists; vm_compute; done).
  destruct Ha as [st1 Ha].
  destruct (alloc_free_alloc demo_pfa 2 1 0x2000 st1 demo_pfa_wf) as (st2 & H2 & Hp & _ & _ & st3 & H3);
    [done..|].
  by exists st1, st2, st3.
Defined.

(** The range check of [free] compares [base + num_pg], not
    [base + num_pg * PG_SZ], with the end of the range: an allocator that
    manages only the first page of a two-page table releases the page of
    its neighbour. *)
Theorem free_outside_range :
  free 0 2 (PFA [PFD true false; PFD true false] 0 0x1000 0 1) =
  Ret (tt, PFA [PFD false false; PFD false false] 0 0x1000 0 (2 ^ 32 - 1)).
Proof. vm_compute. done. Qed.
