(* ===== verification/MemoryMap.v ===== *)
(** * Page frame table construction

    Models [mm/page_frame_table.cc]: the totals, [normalize_mm] with its
    in-place splitting, sorting and compaction of the E820 map,
    [alloc_pft], the registration of allocators, and the constructors of
    [PageFrameAllocator] and [SimplePFA] that read the usable regions. *)
From stdpp Require Import sorting.
From S2P Require Import Prelude Algorithm BootProtocol PageFrame.

Abbreviation mmap := (list e820_mm_entry).

Definition compute_total_mem (mm : mmap) : Z :=
  foldl (λ rval e, if ent_type e =? E820_MM_TYPE_BOOTLOADER then rval
                   else u64 (rval + ent_len e)) 0 mm.

Definition compute_usable_mem (usable_regions : mmap) : Z :=
  foldl (λ rval e, u64 (rval + ent_len e)) 0 usable_regions.

(** ** [normalize_mm] *)

Definition ent_overlaps (e f : e820_mm_entry) : bool :=
  range_overlaps2 64 (ent_base e) (ent_len e) (ent_base f) (ent_len f) false.
Definition ent_subsumes (e f : e820_mm_entry) : bool :=
  range_subsumes2 64 (ent_base e) (ent_len e) (ent_base f) (ent_len f) true.

(** The body of the inner loop once [mm[j]] overlaps the bootloader
    entry [mm[i]]. *)
Definition split_at (mm : mmap) (i j : nat) (b o : e820_mm_entry) : outcome mmap :=
  _ ← assert_ (ent_type o =? E820_MM_TYPE_USABLE);
  _ ← assert_ (ent_subsumes o b);
  let base1 := ent_base o in
  let len1 := u64 (ent_base b - ent_base o) in
  let base2 := u64 (ent_base b + ent_len b) in
  let len2 := u64 (u64 (ent_base o + ent_len o) - base2) in
  _ ← assert_ (u64 (u64 (len1 + len2) + ent_len b) =? ent_len o);
  let mm := <[j := E820 base1 len1 (ent_type o) (ent_acpi o)]> mm in
  Ret (<[i := E820 base2 len2 E820_MM_TYPE_USABLE (ent_acpi b)]> mm).

(** The inner loop over [j], [n] indices left. *)
Fixpoint split_inner (mm : mmap) (i j n : nat) : outcome mmap :=
  match n with
  | O => Ret mm
  | S n =>
    if (i =? j)%nat then split_inner mm i (S j) n
    else
      b ← deref (mm !! i);
      o ← deref (mm !! j);
      if negb (ent_overlaps b o) then split_inner mm i (S j) n
      else split_at mm i j b o
  end.

(** The outer loop over [i], [n] indices left. *)
Fixpoint split_outer (mm : mmap) (i n : nat) : outcome mmap :=
  match n with
  | O => Ret mm
  | S n =>
    e ← deref (mm !! i);
    mm ← (if negb (ent_type e =? E820_MM_TYPE_BOOTLOADER) then Ret mm
          else split_inner mm i 0 (length mm));
    split_outer mm (S i) n
  end.

(** The check of adjacent regions after the sort. *)
Definition adjacent_ok (e f : e820_mm_entry) : bool :=
  negb (ent_overlaps e f) ||
  ((ent_type e =? E820_MM_TYPE_BOOTLOADER_RECLAIMABLE) && (ent_type f =? E820_MM_TYPE_USABLE)) ||
  ((ent_type e =? E820_MM_TYPE_USABLE) && (ent_type f =? E820_MM_TYPE_BOOTLOADER_RECLAIMABLE)).

Fixpoint check_adjacent (mm : mmap) : outcome unit :=
  match mm with
  | e :: ((f :: _) as mm') => _ ← assert_ (adjacent_ok e f); check_adjacent mm'
  | _ => Ret tt
  end.

(** [for (i...) if (p(mm[i])) std::swap(mm[i], mm[count++])]. *)
Definition swap_at (mm : mmap) (i j : nat) : outcome mmap :=
  x ← deref (mm !! i);
  y ← deref (mm !! j);
  Ret (<[j := x]> (<[i := y]> mm)).

Fixpoint move_front (p : e820_mm_entry → bool) (mm : mmap) (count i n : nat)
    : outcome (mmap * nat) :=
  match n with
  | O => Ret (mm, count)
  | S n =>
    x ← deref (mm !! i);
    if p x then mm ← swap_at mm i count; move_front p mm (S count) (S i) n
    else move_front p mm count (S i) n
  end.

(** Aligning one region to full pages. *)
Definition align_region (r : e820_mm_entry) : e820_mm_entry :=
  let e := floor_pow2 PG_SZ (ent_end r) in
  let base := ceil_pow2 PG_SZ (ent_base r) in
  E820 base (if base <? e then e - base else 0) (ent_type r) (ent_acpi r).

Definition is_usable (e : e820_mm_entry) : bool := ent_type e =? E820_MM_TYPE_USABLE.
Definition nonempty (e : e820_mm_entry) : bool := negb (ent_len e =? 0).

(** [std_sort] is [std::sort] with the comparator on [base]: which of
    two entries with equal bases comes first is unspecified. *)
Section normalize.
Context (std_sort : mmap → mmap).

(** Returns the rearranged map and the length of the prefix of it that
    holds the usable regions (the span of the source). *)
Definition normalize_mm (mm : mmap) : outcome (mmap * nat) :=
  mm ← split_outer mm 0 (length mm);
  let mm := std_sort mm in
  _ ← check_adjacent mm;
  '(mm, usable_region_count) ← move_front is_usable mm 0 0 (length mm);
  let usable_region_map := align_region <$> take usable_region_count mm in
  '(usable_region_map, nonempty_count) ←
    move_front nonempty usable_region_map 0 0 (length usable_region_map);
  Ret (usable_region_map ++ drop usable_region_count mm, nonempty_count).
End normalize.

(** ** [alloc_pft]

    Returns the table's virtual address, its number of descriptors and
    the trimmed regions. *)
Definition sizeof_PFD : Z := 64.
Definition hhdm_len : Z := u32 (1 * GB - (KERNEL_MAP_SZ + IO_MAP_SZ)).
Definition hhdm_start : Z := HM_START.

(** [assert] in [virt.h] is the same shutdown as [ASSERT]. *)
Definition direct_to_hhdm (phys_addr : Z) : outcome Z :=
  _ ← assert_ (phys_addr <? hhdm_len); Ret (u32 (phys_addr + hhdm_start)).

Definition hhdm_to_direct (virt_addr : Z) : outcome Z :=
  _ ← assert_ ((hhdm_start <=? virt_addr) && (virt_addr <? hhdm_start + hhdm_len));
  Ret (virt_addr - hhdm_start).

Definition mem_limit (usable_regions : mmap) : outcome Z :=
  r ← deref (last usable_regions); Ret (u64 (ent_base r + ent_len r)).

Fixpoint alloc_pft_loop (regions : mmap) (pft_len_padded : Z) : outcome (Z * mmap) :=
  match regions with
  | [] => Halt AssertFail
  | r :: rs =>
    if pft_len_padded <=? ent_len r then
      pft_base ← direct_to_hhdm (ent_base r);
      let r' := E820 (u64 (ent_base r + pft_len_padded)) (u64 (ent_len r - pft_len_padded))
                     (ent_type r) (ent_acpi r) in
      _ ← assert_ (ent_base r' <=? hhdm_len);
      Ret (pft_base, r' :: rs)
    else
      '(b, rs) ← alloc_pft_loop rs pft_len_padded;
      Ret (b, r :: rs)
  end.

Definition alloc_pft (usable_regions : mmap) : outcome (Z * Z * mmap) :=
  limit ← mem_limit usable_regions;
  _ ← assert_ (aligned_pow2 PG_SZ limit);
  let page_limit := u32 (Z.shiftr limit PG_SZ_BITS) in
  let pft_len := u32 (page_limit * sizeof_PFD) in
  let pft_len_padded := u32 (ceil_pow2 PG_SZ pft_len) in
  '(pft_base, regions) ← alloc_pft_loop usable_regions pft_len_padded;
  Ret (pft_base, page_limit, regions).

(** ** Allocator registration

    The registered allocators are represented by their ranges, in the
    order of the intrusive list. *)
Definition zero_pfds (ds : list PageFrameDescriptor) (a b : nat) : list PageFrameDescriptor :=
  imap (λ i d, if decide (a ≤ i < b)%nat then PFD false false else d) ds.

Definition register_allocator (allocators : list (Z * Z)) (ds : list PageFrameDescriptor)
    (s e : Z) : outcome (bool * list (Z * Z) * list PageFrameDescriptor) :=
  _ ← assert_ (aligned_pow2 PG_SZ s);
  _ ← assert_ (aligned_pow2 PG_SZ e);
  if existsb (λ o : Z * Z, range_overlaps s e o.1 o.2 false) allocators
  then Ret (false, allocators, ds)
  else if zlen ds <? get_pfd e then Halt BadAccess
  else Ret (true, allocators ++ [(s, e)], zero_pfds ds (Z.to_nat (get_pfd s)) (Z.to_nat (get_pfd e))).

Definition unregister_allocator (allocators : list (Z * Z)) (s e : Z) : list (Z * Z) :=
  filter (λ o, o ≠ (s, e)) allocators.

(** The base constructor: [total_pgs]. *)
Definition total_pgs (regions : mmap) (s e : Z) : Z :=
  u32 (Z.shiftr (foldl (λ acc r,
     let overlap_start := Z.max (ent_base r) s in
     let overlap_end := Z.min (ent_end r) e in
     if overlap_start <? overlap_end then u32 (acc + (overlap_end - overlap_start)) else acc)
     0 regions) PG_SZ_BITS).

(** [while (it < region.base && it < end) get_pfd(it).unusable = true]. *)
Fixpoint mark_unusable (fuel : nat) (ds : list PageFrameDescriptor) (it lim : Z)
    : outcome (list PageFrameDescriptor * Z) :=
  match fuel with
  | O => Halt OutOfFuel
  | S fuel =>
    if it <? lim then
      d ← pfd_at ds (get_pfd it);
      mark_unusable fuel (<[Z.to_nat (get_pfd it) := PFD (allocated d) true]> ds)
        (u64 (it + PG_SZ)) lim
    else Ret (ds, it)
  end.

Fixpoint SimplePFA_regions (regions : mmap) (ds : list PageFrameDescriptor) (it s e : Z)
    : outcome (list PageFrameDescriptor) :=
  match regions with
  | [] => Ret ds
  | r :: rs =>
    if ent_base r <? s then SimplePFA_regions rs ds it s e
    else
      '(ds, it) ← mark_unusable (S (length ds)) ds it (Z.min (ent_base r) e);
      if e <=? it then Ret ds
      else SimplePFA_regions rs ds (u64 (it + ent_len r)) s e
  end.

Definition SimplePFA_ctor (regions : mmap) (allocators : list (Z * Z))
    (ds : list PageFrameDescriptor) (s e : Z) : outcome (list (Z * Z) * SimplePFA) :=
  _ ← assert_ (s <? e);
  '(ok, allocators, ds) ← register_allocator allocators ds s e;
  _ ← assert_ ok;
  ds ← SimplePFA_regions regions ds s s e;
  Ret (allocators, PFA ds s e (get_pfd s) 0).

(** ** The constructor of [PageFrameTable]

    [given] is the table of the test constructor ([_pft]).  Returns the
    usable regions, the table (its virtual address and its number of
    descriptors), the total and usable sizes, and the physical ranges
    that were zeroed. *)
Definition reclaimable_ranges (mm : mmap) : outcome (list (Z * Z)) :=
  foldr (λ e acc,
    if ent_type e =? E820_MM_TYPE_BOOTLOADER_RECLAIMABLE then
      _ ← direct_to_hhdm (ent_base e); rs ← acc; Ret ((ent_base e, ent_len e) :: rs)
    else acc) (Ret []) mm.

Definition PageFrameTable_ctor (std_sort : mmap → mmap) (mm0 : mmap) (given : option (Z * Z))
    : outcome (mmap * (Z * Z) * Z * Z * list (Z * Z)) :=
  let total_mem_bytes := compute_total_mem mm0 in
  _ ← assert_ (length mm0 <=? 32)%nat;
  '(mm, n) ← normalize_mm std_sort mm0;
  let usable_regions := take n mm in
  '(pft, usable_regions) ←
    match given with
    | Some pft => Ret (pft, usable_regions)
    | None =>
      '(pft_base, page_limit, regions) ← alloc_pft usable_regions;
      Ret ((pft_base, page_limit), regions)
    end;
  let usable_mem_bytes := compute_usable_mem usable_regions in
  zeroed ← reclaimable_ranges (usable_regions ++ drop n mm);
  _ ← match given with
      | Some (_, size) =>
        limit ← mem_limit usable_regions;
        assert_ (u32 (Z.shiftr limit PG_SZ_BITS) <=? size)
      | None => Ret tt
      end;
  Ret (usable_regions, pft, total_mem_bytes, usable_mem_bytes, zeroed).

(** ** Compaction by swapping *)
Lemma swap_at_refl mm i x : mm !! i = Some x → swap_at mm i i = Ret mm.
Proof.
  intros Hx. unfold swap_at. rewrite Hx. munfold. f_equal.
  rewrite list_insert_insert_eq. by apply list_insert_id.
Qed.

Lemma swap_at_split F r R x rest :
  swap_at (F ++ (r :: R) ++ x :: rest) (length F + length (r :: R)) (length F)
  = Ret ((F ++ [x]) ++ (R ++ [r]) ++ rest).
Proof.
  unfold swap_at. rewrite (app_assoc F), (list_lookup_middle (F ++ r :: R) rest x (length F + length (r :: R))) by (by rewrite length_app).
  rewrite <- app_assoc. simpl ((r :: R) ++ _). rewrite (list_lookup_middle F) by done. munfold. f_equal.
  change (r :: R ++ x :: rest) with ((r :: R) ++ x :: rest). rewrite app_assoc.
  replace (length F + length (r :: R))%nat with (length (F ++ r :: R) + 0)%nat
    by (rewrite length_app; lia).
  rewrite insert_app_r, <- app_assoc. simpl. replace (length F) with (length F + 0)%nat by lia.
  rewrite insert_app_r. simpl. by rewrite <- !app_assoc.
Qed.

Lemma move_front_spec p F R rest :
  ∃ T, move_front p (F ++ R ++ rest) (length F) (length F + length R) (length rest) =
         Ret (F ++ filter (λ x, p x = true) rest ++ T,
              (length F + length (filter (λ x, p x = true) rest))%nat) ∧
       T ≡ₚ R ++ filter (λ x, p x ≠ true) rest.
Proof.
  revert F R. induction rest as [|x rest IH]; intros F R; cbn [move_front length].
  - exists R. by rewrite !filter_nil, !app_nil_r, Nat.add_0_r.
  - assert (Hx : (F ++ R ++ x :: rest) !! (length F + length R)%nat = Some x)
      by (rewrite app_assoc; apply list_lookup_middle; by rewrite length_app).
    rewrite Hx. munfold. destruct (p x) eqn:Hp.
    + rewrite filter_cons_True, (filter_cons_False (λ x, p x ≠ true)) by (rewrite Hp; auto).
      destruct R as [|r R].
      * simpl. rewrite Nat.add_0_r, (swap_at_refl _ _ x)
          by (rewrite lookup_app_r, Nat.sub_diag by lia; done).
        destruct (IH (F ++ [x]) []) as (T & HT & Hperm). exists T. split; [|done].
        rewrite <- app_assoc in HT. simpl in HT. rewrite length_app in HT. simpl in HT.
        replace (length F + 1 + 0)%nat with (S (length F)) in HT by lia.
        replace (length F + 1)%nat with (S (length F)) in HT by lia.
        rewrite HT. f_equal. f_equal; [by rewrite <- app_assoc|]. lia.
      * rewrite swap_at_split.
        destruct (IH (F ++ [x]) (R ++ [r])) as (T & HT & Hperm). exists T. split.
        -- rewrite !length_app in HT. simpl in HT. simpl.
           replace (length F + 1 + (length R + 1))%nat with (S (length F + S (length R))) in HT by lia.
           replace (length F + 1)%nat with (S (length F)) in HT by lia.
           rewrite HT. f_equal. f_equal; [by rewrite <- app_assoc|]. lia.
        -- rewrite Hperm, <- app_assoc. simpl. by rewrite <- Permutation_middle.
    + rewrite filter_cons_False, (filter_cons_True (λ x, p x ≠ true)) by (rewrite Hp; auto).
      destruct (IH F (R ++ [x])) as (T & HT & Hperm). exists T. split.
      * rewrite <- app_assoc in HT. rewrite length_app in HT. simpl in HT.
        by replace (length F + (length R + 1))%nat with (S (length F + length R)) in HT by lia.
      * by rewrite Hperm, <- app_assoc.
Qed.

Lemma move_front_all p l :
  ∃ T, move_front p l 0 0 (length l) =
         Ret (filter (λ x, p x = true) l ++ T, length (filter (λ x, p x = true) l)) ∧
       T ≡ₚ filter (λ x, p x ≠ true) l.
Proof. apply (move_front_spec p [] [] l). Qed.

(** ** What the memory map promises

    Entries do not overlap, except that a usable entry may contain
    bootloader and bootloader-reclaimable entries. *)
Definition nonoverlap (e f : e820_mm_entry) : Prop :=
  ent_base e + ent_len e ≤ ent_base f ∨ ent_base f + ent_len f ≤ ent_base e.
Definition contains (e f : e820_mm_entry) : Prop :=
  ent_base e ≤ ent_base f ∧ ent_base f + ent_len f ≤ ent_base e + ent_len e.
Definition absorbable (e : e820_mm_entry) : Prop :=
  ent_type e = E820_MM_TYPE_BOOTLOADER ∨ ent_type e = E820_MM_TYPE_BOOTLOADER_RECLAIMABLE.

Definition compat (e f : e820_mm_entry) : Prop :=
  nonoverlap e f ∨
  (ent_type e = E820_MM_TYPE_USABLE ∧ absorbable f ∧ contains e f) ∨
  (ent_type f = E820_MM_TYPE_USABLE ∧ absorbable e ∧ contains f e).

(** Room to round an address up to a page. *)
Definition region_wf (e : e820_mm_entry) : Prop :=
  0 ≤ ent_base e ∧ 0 ≤ ent_len e ∧ ent_base e + ent_len e + PG_SZ < 2 ^ 64.

Definition mm_ok (mm : mmap) : Prop :=
  Forall region_wf mm ∧
  ∀ i j e f, i ≠ j → mm !! i = Some e → mm !! j = Some f → compat e f.

(** The page at [p] lies inside [e]. *)
Definition page_in (p : Z) (e : e820_mm_entry) : Prop :=
  ent_base e ≤ p ∧ p + PG_SZ ≤ ent_base e + ent_len e.

Definition page_off (p : Z) (e : e820_mm_entry) : Prop :=
  ent_base e + ent_len e ≤ p ∨ p + PG_SZ ≤ ent_base e.

(** The pages that are free to use: inside one usable entry and off
    every bootloader entry. *)
Definition page_free (mm : mmap) (p : Z) : Prop :=
  (∃ i e, mm !! i = Some e ∧ ent_type e = E820_MM_TYPE_USABLE ∧ page_in p e) ∧
  (∀ i e, mm !! i = Some e → ent_type e = E820_MM_TYPE_BOOTLOADER → page_off p e).

(** The first [k] entries that are still of bootloader type touch
    nothing. *)
Definition settled (k : nat) (mm : mmap) : Prop :=
  ∀ i j b f, (i < k)%nat → i ≠ j → mm !! i = Some b → mm !! j = Some f →
    ent_type b = E820_MM_TYPE_BOOTLOADER → nonoverlap b f.

Lemma mm_ok_wf mm i e : mm_ok mm → mm !! i = Some e → region_wf e.
Proof. intros [Hf _]. apply (proj1 (Forall_lookup _ _) Hf). Qed.

Lemma ent_overlaps_spec e f :
  region_wf e → region_wf f → ent_overlaps e f = false ↔ nonoverlap e f.
Proof.
  unfold region_wf. intros. unfold ent_overlaps, range_overlaps2, range_overlaps, nonoverlap.
  change PG_SZ with (2 ^ 12) in *. rewrite !wrap_small by lia. lia.
Qed.

(** The two halves of a split. *)
Definition half1 (o b : e820_mm_entry) : e820_mm_entry :=
  E820 (ent_base o) (ent_base b - ent_base o) (ent_type o) (ent_acpi o).
Definition half2 (o b : e820_mm_entry) : e820_mm_entry :=
  E820 (ent_base b + ent_len b) (ent_base o + ent_len o - (ent_base b + ent_len b))
       E820_MM_TYPE_USABLE (ent_acpi b).
(** Decides goals about the positions and types of entries. *)
Ltac mm_lia :=
  unfold compat, absorbable, contains, nonoverlap, page_in, page_off, region_wf, half1, half2 in *;
  unfold E820_MM_TYPE_USABLE, E820_MM_TYPE_BOOTLOADER,
    E820_MM_TYPE_BOOTLOADER_RECLAIMABLE in *;
  change PG_SZ with 4096 in *; cbn [ent_base ent_len ent_type ent_acpi] in *; lia.

Definition split_mm (mm : mmap) (i j : nat) (o b : e820_mm_entry) : mmap :=
  <[i := half2 o b]> (<[j := half1 o b]> mm).

Lemma split_at_eq mm i j b o :
  region_wf o → region_wf b → ent_type o = E820_MM_TYPE_USABLE → contains o b →
  split_at mm i j b o = Ret (split_mm mm i j o b).
Proof.
  intros Ho Hb Ht [Hc1 Hc2]. unfold region_wf in *. change PG_SZ with (2 ^ 12) in *.
  unfold split_at, ent_subsumes, range_subsumes2, range_subsumes.
  rewrite !wrap_small by (rewrite ?wrap_small by lia; lia). rewrite Ht. munfold.
  replace ((ent_base o <=? ent_base b) && _) with true by lia.
  replace (_ =? ent_len o) with true by lia. unfold split_mm, half1, half2. by rewrite Ht.
Qed.

(** What is known of an entry of the map after a split. *)
Inductive split_entry (mm : mmap) (i j : nat) (o b : e820_mm_entry) (x : nat)
    : e820_mm_entry → Prop :=
| split_new : x = i → split_entry mm i j o b x (half2 o b)
| split_cut : x = j → split_entry mm i j o b x (half1 o b)
| split_old e : x ≠ i → x ≠ j → mm !! x = Some e → split_entry mm i j o b x e.

Lemma split_lookup mm i j o b x e :
  split_mm mm i j o b !! x = Some e → split_entry mm i j o b x e.
Proof.
  unfold split_mm. rewrite list_lookup_insert_Some, list_lookup_insert_Some.
  intros [(-> & <- & _)| [? [(-> & <- & _)| [? ?]]]]; by econstructor.
Qed.

Section split.
Context (mm : mmap) (i j : nat) (b o : e820_mm_entry).
Hypothesis Hok : mm_ok mm.
Hypothesis Hij : i ≠ j.
Hypothesis Hb : mm !! i = Some b.
Hypothesis Ho : mm !! j = Some o.
Hypothesis Hbt : ent_type b = E820_MM_TYPE_BOOTLOADER.
Hypothesis Hot : ent_type o = E820_MM_TYPE_USABLE.
Hypothesis Hc : contains o b.

Lemma split_new_lookup : split_mm mm i j o b !! i = Some (half2 o b).
Proof.
  apply list_lookup_insert_eq. rewrite length_insert. by eapply lookup_lt_Some.
Qed.

Lemma split_cut_lookup : split_mm mm i j o b !! j = Some (half1 o b).
Proof.
  unfold split_mm. rewrite list_lookup_insert_ne by done. apply list_lookup_insert_eq.
  by eapply lookup_lt_Some.
Qed.

Lemma split_old_lookup x : x ≠ i → x ≠ j → split_mm mm i j o b !! x = mm !! x.
Proof. intros. unfold split_mm. by rewrite !list_lookup_insert_ne. Qed.

Lemma split_wf : Forall region_wf (split_mm mm i j o b).
Proof.
  pose proof (mm_ok_wf _ _ _ Hok Hb). pose proof (mm_ok_wf _ _ _ Hok Ho).
  unfold split_mm. destruct Hok as [Hf _]. apply Forall_insert; [apply Forall_insert; [done|]|]; mm_lia.
Qed.

Lemma split_compat x e :
  x ≠ i → x ≠ j → mm !! x = Some e → compat (half1 o b) e ∧ compat (half2 o b) e.
Proof.
  intros Hxi Hxj He. destruct Hok as [_ Hp].
  pose proof (mm_ok_wf _ _ _ Hok Hb) as Hwb. pose proof (mm_ok_wf _ _ _ Hok Ho) as Hwo.
  pose proof (mm_ok_wf _ _ _ Hok He) as Hwe.
  pose proof (Hp j x o e ltac:(done) Ho He) as H1. pose proof (Hp i x b e ltac:(done) Hb He) as H2.
  clear -Hwb Hwo Hwe H1 H2 Hbt Hot Hc. split; mm_lia.
Qed.

Lemma compat_sym e f : compat e f → compat f e.
Proof. intros. mm_lia. Qed.

Lemma split_ok : mm_ok (split_mm mm i j o b).
Proof.
  split; [apply split_wf|]. intros x y e f Hxy He%split_lookup Hf%split_lookup.
  assert (compat (half1 o b) (half2 o b)).
  { pose proof (mm_ok_wf _ _ _ Hok Hb). mm_lia. }
  destruct He as [->| ->| e ? ? He]; destruct Hf as [->| ->| f ? ? Hf]; try done.
  - by apply compat_sym.
  - by eapply split_compat.
  - by eapply split_compat.
  - by apply compat_sym; eapply split_compat.
  - by apply compat_sym; eapply split_compat.
  - destruct Hok as [_ Hp]. by apply (Hp x y).
Qed.

Lemma split_page_free p : page_free (split_mm mm i j o b) p ↔ page_free mm p.
Proof.
  destruct Hok as [_ Hp].
  pose proof (mm_ok_wf _ _ _ Hok Hb) as Hwb. pose proof (mm_ok_wf _ _ _ Hok Ho) as Hwo.
  split; intros [(x & e & He & Het & Hpe) Hoff].
  - apply split_lookup in He.
    assert (Hne : page_off p b ∧ ∃ x e, mm !! x = Some e ∧ ent_type e = E820_MM_TYPE_USABLE ∧ page_in p e).
    { destruct He as [->| ->| e Hxi Hxj He].
      - split; [mm_lia|]. exists j, o. split_and!; [done..|mm_lia| mm_lia].
      - split; [mm_lia|]. exists j, o. split_and!; [done..|mm_lia| mm_lia].
      - split; [|by exists x, e]. pose proof (Hp x j e o Hxj He Ho) as Hco.
        pose proof (Hp x i e b Hxi He Hb). clear -Hwb Hwo Het Hpe Hc Hco Hot.
        mm_lia. }
    destruct Hne as [Hne Hin]. split; [done|]. intros y f Hf Hft.
    destruct (decide (y = i)) as [->|]; [by simplify_eq|].
    destruct (decide (y = j)) as [->|]; [simplify_eq; exfalso; mm_lia|].
    apply (Hoff y); [|done]. by rewrite split_old_lookup.
  - split.
    + pose proof (Hoff i b Hb Hbt) as Hpb.
      destruct (decide (x = j)) as [->|].
      * simplify_eq. destruct Hpb.
        -- exists i, (half2 o b). split; [apply split_new_lookup|]. mm_lia.
        -- exists j, (half1 o b). split; [apply split_cut_lookup|]. mm_lia.
      * exists x, e. rewrite split_old_lookup; [done| |done]. intros ->. simplify_eq. mm_lia.
    + intros y f Hf%split_lookup Hft. destruct Hf as [->| ->| f ? ? Hf].
      * done.
      * exfalso. mm_lia.
      * by apply (Hoff y).
Qed.

(** The entries that are not usable are entries of the old map. *)
Definition from_map (mm' : mmap) : Prop :=
  ∀ e, e ∈ mm' → ent_type e ≠ E820_MM_TYPE_USABLE → e ∈ mm.

Lemma split_from_map : from_map (split_mm mm i j o b).
Proof.
  intros e [x He%split_lookup]%list_elem_of_lookup Hne.
  destruct He as [->| ->| e ? ? He]; [done..|]. by eapply list_elem_of_lookup_2.
Qed.

Lemma split_settled : settled i mm → settled (S i) (split_mm mm i j o b).
Proof.
  intros Hs x y e f Hx Hxy He Hf Het. apply split_lookup in He, Hf.
  pose proof (mm_ok_wf _ _ _ Hok Hb) as Hwb.
  destruct He as [->| ->| e ? ? He]; [done|exfalso; mm_lia|].
  assert (Heo : nonoverlap e o) by (apply (Hs x j); [lia|done..]).
  destruct Hf as [->| ->| f ? ? Hf]; [mm_lia|mm_lia|]. apply (Hs x y); [lia|done..].
Qed.
End split.

(** ** The splitting loops *)
Lemma split_inner_spec mm i b n j :
  mm_ok mm → mm !! i = Some b → ent_type b = E820_MM_TYPE_BOOTLOADER →
  settled i mm → (j + n = length mm)%nat →
  (∀ k f, (k < j)%nat → k ≠ i → mm !! k = Some f → nonoverlap b f) →
  ∃ mm', split_inner mm i j n = Ret mm' ∧ mm_ok mm' ∧ length mm' = length mm ∧
    settled (S i) mm' ∧ from_map mm mm' ∧ ∀ p, page_free mm' p ↔ page_free mm p.
Proof.
  intros Hok Hb Hbt Hs. pose proof (mm_ok_wf _ _ _ Hok Hb) as Hwb.
  revert j. induction n as [|n IH]; intros j Hlen Hprev; cbn [split_inner].
  - exists mm. split_and!; [done..| |by intros ???|done]. intros x y e f Hx Hxy He Hf Het.
    destruct (decide (x = i)) as [->|]; [|apply (Hs x y); [lia|done..]]. simplify_eq.
    apply (Hprev y); [apply lookup_lt_Some in Hf; lia|done..].
  - destruct (Nat.eqb_spec i j) as [->|Hij].
    { apply IH; [lia|]. intros k f Hk Hne. apply Hprev; [lia|done]. }
    destruct (lookup_lt_is_Some_2 mm j) as [o Ho]; [lia|].
    pose proof (mm_ok_wf _ _ _ Hok Ho) as Hwo. rewrite Hb, Ho. munfold.
    destruct (ent_overlaps b o) eqn:Hov; cbn [negb].
    + assert (ent_type o = E820_MM_TYPE_USABLE ∧ contains o b) as [Hot Hc].
      { assert (¬ nonoverlap b o) as Hno by (rewrite <- ent_overlaps_spec, Hov by done; done).
        destruct Hok as [_ Hp]. pose proof (Hp i j b o Hij Hb Ho). clear -Hno H Hbt. mm_lia. }
      rewrite split_at_eq by done. exists (split_mm mm i j o b).
      split_and!; [done|by apply split_ok|by unfold split_mm; rewrite !length_insert|by apply split_settled
        |by apply split_from_map|].
      intros p. by apply split_page_free.
    + apply IH; [lia|]. intros k f Hk Hki Hf. destruct (decide (k = j)) as [->|].
      * simplify_eq. by apply ent_overlaps_spec.
      * apply (Hprev k); [lia|done..].
Qed.

Lemma split_outer_spec mm n i :
  mm_ok mm → settled i mm → (i + n = length mm)%nat →
  ∃ mm', split_outer mm i n = Ret mm' ∧ mm_ok mm' ∧ length mm' = length mm ∧
    settled (length mm') mm' ∧ from_map mm mm' ∧ ∀ p, page_free mm' p ↔ page_free mm p.
Proof.
  revert mm i. induction n as [|n IH]; intros mm i Hok Hs Hlen; cbn [split_outer].
  - exists mm. split_and!; [done..| |by intros ???|done]. by replace (length mm) with i by lia.
  - destruct (lookup_lt_is_Some_2 mm i) as [e He]; [lia|]. rewrite He. munfold.
    destruct (Z.eqb_spec (ent_type e) E820_MM_TYPE_BOOTLOADER) as [Ht|Ht]; cbn [negb].
    + destruct (split_inner_spec mm i e (length mm) 0 Hok He Ht Hs)
        as (mm1 & -> & Hok1 & Hl1 & Hs1 & Hf1 & Hp1); [lia|lia|].
      destruct (IH mm1 (S i)) as (mm2 & -> & Hok2 & Hl2 & Hs2 & Hf2 & Hp2); [done..|lia|].
      exists mm2. split_and!; [done..|lia|done|by intros x Hx Hne; apply Hf1; [apply Hf2|]|].
      intros p. by rewrite Hp2.
    + apply IH; [done| |lia]. intros x y b f Hx Hxy Hb Hf Hbt.
      destruct (decide (x = i)) as [->|]; [congruence|]. apply (Hs x y); [lia|done..].
Qed.

(** ** After the splitting: a relation between any two entries *)
Definition apart (e f : e820_mm_entry) : Prop :=
  compat e f ∧ (ent_type e = E820_MM_TYPE_BOOTLOADER → nonoverlap e f).

Definition pairwise {A} (R : A → A → Prop) (l : list A) : Prop :=
  ∀ i j e f, i ≠ j → l !! i = Some e → l !! j = Some f → R e f.

Lemma pairwise_perm {A} (R : A → A → Prop) l l' : l ≡ₚ l' → pairwise R l' → pairwise R l.
Proof.
  intros (_ & g & Hinj & Hg)%Permutation_inj Hp i j e f Hij He Hf. rewrite Hg in He, Hf.
  apply (Hp (g i) (g j)); [|done..]. by intros ?%Hinj.
Qed.

Lemma pairwise_cons {A} (R : A → A → Prop) x l :
  pairwise R (x :: l) → Forall (λ y, R x y ∧ R y x) l ∧ pairwise R l.
Proof.
  intros Hp. split.
  - apply Forall_lookup. intros i y Hy. split; [apply (Hp O (S i))|apply (Hp (S i) O)]; done.
  - intros i j e f Hij He Hf. apply (Hp (S i) (S j)); [lia|done..].
Qed.

Lemma mm_ok_apart mm : mm_ok mm → settled (length mm) mm → pairwise apart mm.
Proof.
  intros [_ Hp] Hs i j e f Hij He Hf. split; [by apply (Hp i j)|].
  apply (Hs i j); [by eapply lookup_lt_Some|done..].
Qed.

Lemma check_adjacent_ok mm :
  Forall region_wf mm → pairwise apart mm → check_adjacent mm = Ret tt.
Proof.
  induction mm as [|e [|f mm] IH]; intros Hwf Hp; [done..|]. cbn [check_adjacent].
  apply pairwise_cons in Hp as [Ha Hp].
  apply Forall_cons in Hwf as [Hwe Hwf]. pose proof (Forall_inv Hwf) as Hwfe.
  apply Forall_cons in Ha as [[[Hc Hbe] [_ Hbf]] _].
  assert (adjacent_ok e f = true) as ->; [|munfold; by apply IH].
  unfold adjacent_ok. destruct (ent_overlaps e f) eqn:Hov; [|done].
  assert (¬ nonoverlap e f) as Hno by (rewrite <- ent_overlaps_spec, Hov by done; done).
  mm_lia.
Qed.

(** ** Aligning *)
Lemma align_region_spec e :
  region_wf e →
  ent_base e ≤ ent_base (align_region e) ∧ 0 ≤ ent_len (align_region e) ∧
  ent_base (align_region e) mod PG_SZ = 0 ∧ ent_len (align_region e) mod PG_SZ = 0 ∧
  (0 < ent_len (align_region e) → ent_base (align_region e) + ent_len (align_region e) ≤ ent_base e + ent_len e) ∧
  (∀ p, p mod PG_SZ = 0 → page_in p (align_region e) ↔ page_in p e).
Proof.
  unfold region_wf. intros (Hb & Hl & Ht). change PG_SZ with (2 ^ 12) in *.
  unfold align_region, ent_end, page_in. cbn [ent_base ent_len]. rewrite wrap_small by lia.
  change PG_SZ with (2 ^ 12).
  destruct (ceil_pow2_ge 12 (ent_base e)) as [Hc1 Hc2]; [lia..|].
  destruct (floor_pow2_le 12 (ent_base e + ent_len e)) as (Hf1 & Hf2 & Hf3); [lia..|].
  pose proof (λ m, ceil_pow2_least 12 (ent_base e) m ltac:(lia) ltac:(lia) ltac:(lia)) as Hleast.
  pose proof (λ m, floor_pow2_greatest 12 (ent_base e + ent_len e) m ltac:(lia) ltac:(lia)) as Hgr.
  set (c := ceil_pow2 (2 ^ 12) (ent_base e)) in *.
  set (fl := floor_pow2 (2 ^ 12) (ent_base e + ent_len e)) in *.
  destruct (Z.ltb_spec c fl); (split_and!; [lia|lia|done| |lia|]).
  - rewrite Zminus_mod, Hc2, Hf2. done.
  - intros p Hp. split; [lia|]. intros [Hp1 Hp2].
    assert ((p + 2 ^ 12) mod 2 ^ 12 = 0) by (rewrite <- Z.add_mod_idemp_l, Hp by done; done).
    specialize (Hleast p Hp Hp1). specialize (Hgr (p + 2 ^ 12)). lia.
  - done.
  - intros p Hp. split; [lia|]. intros [Hp1 Hp2].
    assert ((p + 2 ^ 12) mod 2 ^ 12 = 0) by (rewrite <- Z.add_mod_idemp_l, Hp by done; done).
    specialize (Hleast p Hp Hp1). specialize (Hgr (p + 2 ^ 12)). lia.
Qed.

(** The regions that [normalize_mm] keeps of a split and sorted map. *)
Definition kept_regions (mm : mmap) : mmap :=
  filter (λ e, nonempty e = true) (align_region <$> filter (λ e, is_usable e = true) mm).

Lemma elem_of_kept mm r :
  r ∈ kept_regions mm ↔ ∃ e, e ∈ mm ∧ ent_type e = E820_MM_TYPE_USABLE ∧
                             r = align_region e ∧ ent_len r ≠ 0.
Proof.
  unfold kept_regions. rewrite list_elem_of_filter, list_elem_of_fmap.
  setoid_rewrite list_elem_of_filter. unfold nonempty, is_usable. setoid_rewrite Z.eqb_eq.
  rewrite negb_true_iff, Z.eqb_neq. naive_solver.
Qed.

Definition before (e f : e820_mm_entry) : Prop := ent_base e + ent_len e ≤ ent_base f.

Lemma kept_sorted mm :
  Forall region_wf mm → pairwise apart mm →
  StronglySorted (λ e f, ent_base e ≤ ent_base f) mm →
  StronglySorted before (kept_regions mm).
Proof.
  intros Hwf Hp Hs. induction Hs as [|e mm Hs IH Hle]; [constructor|].
  apply Forall_cons in Hwf as [Hwe Hwf]. apply pairwise_cons in Hp as [Ha Hp].
  specialize (IH Hwf Hp). unfold kept_regions.
  destruct (is_usable e) eqn:Hu; [|by rewrite filter_cons_False by (by rewrite Hu)].
  rewrite filter_cons_True by done. rewrite fmap_cons.
  destruct (nonempty (align_region e)) eqn:Hn; [|by rewrite filter_cons_False by (by rewrite Hn)].
  rewrite filter_cons_True by done. constructor; [done|]. apply Forall_forall.
  intros r (f & Hf & Hft & -> & Hne)%elem_of_kept. rewrite Forall_forall in Hle, Ha, Hwf.
  specialize (Hle f Hf). destruct (Ha f Hf) as [[Hc _] _]. specialize (Hwf f Hf).
  destruct (align_region_spec e Hwe) as (? & ? & _ & _ & Hce & _).
  destruct (align_region_spec f Hwf) as (? & ? & _ & _ & Hcf & _).
  unfold is_usable, nonempty in *. unfold before.
  assert (nonoverlap e f) by mm_lia. mm_lia.
Qed.

Lemma page_free_elem mm p :
  page_free mm p ↔
  (∃ e, e ∈ mm ∧ ent_type e = E820_MM_TYPE_USABLE ∧ page_in p e) ∧
  (∀ e, e ∈ mm → ent_type e = E820_MM_TYPE_BOOTLOADER → page_off p e).
Proof.
  unfold page_free. setoid_rewrite list_elem_of_lookup. naive_solver.
Qed.

(** Once settled, the bootloader entries are off every usable page. *)
Lemma apart_page_free mm p :
  pairwise apart mm →
  (∃ e, e ∈ mm ∧ ent_type e = E820_MM_TYPE_USABLE ∧ page_in p e) ↔ page_free mm p.
Proof.
  intros Hp. rewrite page_free_elem. split; [|by intros [? _]].
  intros (e & He & Het & Hpe). split; [by exists e|]. intros b Hb Hbt.
  apply list_elem_of_lookup in He as [i Hi], Hb as [j Hj].
  destruct (decide (j = i)) as [->|Hne]; [simplify_eq; mm_lia|].
  destruct (Hp j i b e Hne Hj Hi) as [_ Hno]. specialize (Hno Hbt). mm_lia.
Qed.

Section normalize_spec.
Context (std_sort : mmap → mmap).
Hypothesis std_sort_perm : ∀ l, std_sort l ≡ₚ l.
Hypothesis std_sort_sorted : ∀ l, StronglySorted (λ e f, ent_base e ≤ ent_base f) (std_sort l).

Lemma normalize_mm_eq mm :
  mm_ok mm →
  ∃ mm1 mm' n, normalize_mm std_sort mm = Ret (mm', n) ∧ take n mm' = kept_regions mm1 ∧
    Forall region_wf mm1 ∧ pairwise apart mm1 ∧
    StronglySorted (λ e f, ent_base e ≤ ent_base f) mm1 ∧ from_map mm mm' ∧
    ∀ p, page_free mm1 p ↔ page_free mm p.
Proof.
  intros Hok. unfold normalize_mm.
  destruct (split_outer_spec mm (length mm) 0) as (mm1 & -> & Hok1 & _ & Hs1 & Hf1 & Hp1);
    [done|intros ????; lia|done|].
  pose proof (mm_ok_apart _ Hok1 Hs1) as Hap.
  pose proof (std_sort_perm mm1) as Hperm. pose proof (std_sort_sorted mm1) as Hsort.
  set (mm2 := std_sort mm1) in *. exists mm2.
  assert (Forall region_wf mm2) as Hwf by (rewrite Hperm; apply Hok1).
  assert (pairwise apart mm2) as Hap2 by (by eapply pairwise_perm).
  cbn [mbind outcome_bind]. fold mm2. rewrite check_adjacent_ok by done. munfold.
  destruct (move_front_all is_usable mm2) as (T & -> & HT). rewrite take_app_length.
  destruct (move_front_all nonempty (align_region <$> filter (λ x, is_usable x = true) mm2))
    as (T' & -> & HT').
  eexists _, _. split; [done|]. rewrite <- app_assoc, take_app_length, drop_app_length.
  split_and!; [done..| |].
  { intros e He Hne. apply Hf1; [|done]. rewrite <- Hperm.
    rewrite !elem_of_app, HT, HT', !list_elem_of_filter, list_elem_of_fmap in He.
    setoid_rewrite list_elem_of_filter in He. unfold is_usable in He. setoid_rewrite Z.eqb_eq in He.
    naive_solver. }
  intros p. rewrite <- Hp1, !page_free_elem. by setoid_rewrite Hperm.
Qed.

(** What the pages of a list of regions are. *)
Definition regions_wf (regions : mmap) : Prop :=
  Forall (λ r, ent_base r mod PG_SZ = 0 ∧ ent_len r mod PG_SZ = 0 ∧ 0 < ent_len r ∧
               ent_type r = E820_MM_TYPE_USABLE) regions ∧
  StronglySorted before regions.

Lemma normalize_mm_regions mm :
  mm_ok mm →
  ∃ mm' n, normalize_mm std_sort mm = Ret (mm', n) ∧ regions_wf (take n mm') ∧
    Forall (λ r, 0 ≤ ent_base r ∧ ent_base r + ent_len r < 2 ^ 64) (take n mm') ∧
    from_map mm mm' ∧
    ∀ p, p mod PG_SZ = 0 → (∃ r, r ∈ take n mm' ∧ page_in p r) ↔ page_free mm p.
Proof.
  intros Hok. destruct (normalize_mm_eq mm Hok)
    as (mm1 & mm' & n & -> & Hk & Hwf & Hap & Hs & Hfrom & Hp).
  exists mm', n. split; [done|]. rewrite Hk. unfold regions_wf.
  split_and!; [|by apply kept_sorted| |done|].
  - apply Forall_forall. intros r (e & He & Het & -> & Hne)%elem_of_kept.
    rewrite Forall_forall in Hwf. destruct (align_region_spec e (Hwf e He)) as (? & ? & ? & ? & _).
    split_and!; [done|done|lia|done].
  - apply Forall_forall. intros r (e & He & Het & -> & Hne)%elem_of_kept.
    rewrite Forall_forall in Hwf. pose proof (Hwf e He).
    destruct (align_region_spec e (Hwf e He)) as (? & ? & _ & _ & ? & _). mm_lia.
  - intros p Hpm. rewrite <- Hp, <- apart_page_free by done. split.
    + intros (r & (e & He & Het & -> & Hne)%elem_of_kept & Hin). exists e.
      rewrite Forall_forall in Hwf. split_and!; [done..|]. by apply align_region_spec; auto.
    + intros (e & He & Het & Hin). exists (align_region e). rewrite Forall_forall in Hwf.
      assert (page_in p (align_region e)) as Hin' by (apply align_region_spec; auto).
      split; [|done]. apply elem_of_kept. exists e. split_and!; [done..|].
      clear -Hin'. mm_lia.
Qed.

(** C3: on a memory map whose entries overlap only where a usable entry
    contains bootloader entries, [normalize_mm] passes all its
    assertions, for any result of [std::sort]; the regions it returns are
    page-aligned, non-empty, sorted and disjoint, and they consist of
    exactly the pages that lie inside a usable entry and off every
    bootloader entry. *)
Theorem normalize_mm_exact mm :
  mm_ok mm →
  ∃ mm' n, normalize_mm std_sort mm = Ret (mm', n) ∧
    let regions := take n mm' in
    Forall (λ r, ent_base r mod PG_SZ = 0 ∧ ent_len r mod PG_SZ = 0 ∧ 0 < ent_len r ∧
                 ent_type r = E820_MM_TYPE_USABLE) regions ∧
    StronglySorted before regions ∧
    ∀ p, p mod PG_SZ = 0 → (∃ r, r ∈ regions ∧ page_in p r) ↔ page_free mm p.
Proof.
  intros Hok. destruct (normalize_mm_regions mm Hok) as (mm' & n & -> & [? ?] & _ & _ & ?).
  by exists mm', n.
Qed.
End normalize_spec.

(** A concrete [std::sort]. *)
Definition base_le (e f : e820_mm_entry) : Prop := ent_base e ≤ ent_base f.
#[export] Instance base_le_dec e f : Decision (base_le e f).
Proof. apply Z_le_dec. Defined.
Definition sort_by_base : mmap → mmap := merge_sort base_le.

Lemma sort_by_base_perm l : sort_by_base l ≡ₚ l.
Proof. apply merge_sort_Permutation. Qed.

Lemma sort_by_base_sorted l : StronglySorted (λ e f, ent_base e ≤ ent_base f) (sort_by_base l).
Proof.
  assert (Transitive base_le) by (intros x y z; unfold base_le; lia).
  assert (Total base_le) by (intros x y; unfold base_le; lia).
  apply (StronglySorted_merge_sort base_le).
Qed.

(** The map that the bootloader hands over: memory, a reserved hole, the
    page tables and the reclaimable text. *)
Definition handed_over_mm : mmap :=
  [E820 0x100000 0x1f00000 1 0; E820 0 0x9fc00 1 0; E820 0x9fc00 0x60400 2 0;
   E820 0x1000 0x2000 6 0; E820 0x7c00 0x7e00 7 0].

Lemma handed_over_mm_ok : mm_ok handed_over_mm.
Proof.
  split; [repeat constructor; vm_compute; done|].
  intros i j e f Hij He Hf. unfold handed_over_mm in *.
  destruct i as [|[|[|[|[|i]]]]]; [..|done]; destruct j as [|[|[|[|[|j]]]]]; try done;
    simplify_eq/=; mm_lia.
Qed.

Lemma normalize_mm_exact_witness :
  ∃ mm' n, normalize_mm sort_by_base handed_over_mm = Ret (mm', n) ∧
    take n mm' = [E820 0 0x1000 1 0; E820 0x3000 0x9c000 1 0; E820 0x100000 0x1f00000 1 0] ∧
    page_free handed_over_mm 0x3000.
Proof.
  destruct (normalize_mm_exact sort_by_base sort_by_base_perm sort_by_base_sorted handed_over_mm
              handed_over_mm_ok) as (mm' & n & Heq & _ & _ & Hp).
  exists mm', n. split; [done|].
  assert (take n mm' = [E820 0 0x1000 1 0; E820 0x3000 0x9c000 1 0; E820 0x100000 0x1f00000 1 0]) as Ht.
  { vm_compute in Heq. by injection Heq as <- <-. }
  split; [done|]. apply Hp; [done|]. rewrite Ht. exists (E820 0x3000 0x9c000 1 0).
  split; [set_solver|]. vm_compute. done.
Defined.

(** ** The higher-half direct map *)
Example virt_static_assert : hhdm_start + hhdm_len + IO_MAP_SZ + KERNEL_MAP_SZ = 4 * 2 ^ 30.
Proof. done. Qed.

Lemma direct_to_hhdm_eq p : 0 ≤ p < hhdm_len → direct_to_hhdm p = Ret (p + hhdm_start).
Proof.
  intros Hp. unfold direct_to_hhdm. replace (p <? hhdm_len) with true by lia. munfold.
  change hhdm_len with 0x3DC00000 in Hp. change hhdm_start with 0xC0000000.
  by rewrite wrap_small by lia.
Qed.

(** The two address conversions are inverse to each other on the
    HHDM window, and each halts on an address outside it. *)
Theorem hhdm_roundtrip p :
  0 ≤ p →
  (p < hhdm_len →
     (v ← direct_to_hhdm p; hhdm_to_direct v) = Ret p ∧
     direct_to_hhdm p = Ret (hhdm_start + p)) ∧
  (hhdm_len ≤ p → direct_to_hhdm p = Halt AssertFail) ∧
  (p < hhdm_start ∨ hhdm_start + hhdm_len ≤ p → hhdm_to_direct p = Halt AssertFail).
Proof.
  intros Hp. split_and!.
  - intros Hlt. rewrite direct_to_hhdm_eq by done. munfold. unfold hhdm_to_direct.
    replace ((_ <=? _) && _) with true by lia. munfold. split; f_equal; lia.
  - intros Hge. unfold direct_to_hhdm. by replace (p <? hhdm_len) with false by lia.
  - intros Hout. unfold hhdm_to_direct. by replace ((_ <=? _) && _) with false by lia.
Qed.

Lemma hhdm_roundtrip_witness :
  (v ← direct_to_hhdm 0x1000; hhdm_to_direct v) = Ret 0x1000.
Proof. apply (hhdm_roundtrip 0x1000); vm_compute; done. Defined.
