(* ===== verification/Kmalloc.v ===== *)
(** * Kernel heap

    Models [mm/kmalloc.cc]: the sequential allocator that carves objects
    out of page runs, against the interface it uses of the page frame
    allocator; and the physical/HHDM address conversions of
    [mm/virt.h] it relies on. *)
From S2P Require Import Prelude Algorithm BootProtocol PageFrame MemoryMap.

(** ** What [kmalloc] uses of the page frame allocator

    Page frames are numbered; a frame is taken when the allocator will
    not hand it out. *)
Class FrameAllocator (S : Type) := {
  fa_alloc : Z → M S (option Z);
  fa_inv : S → Prop;
  fa_taken : S → Z → Prop;
  fa_limit : Z;
  fa_alloc_spec : ∀ n s, fa_inv s → 0 < n →
    ∃ r s', fa_alloc n s = Ret (r, s') ∧ fa_inv s' ∧
      match r with
      | None => ∀ q, fa_taken s' q ↔ fa_taken s q
      | Some pa => ∃ p, pa = p * PG_SZ ∧ 0 ≤ p ∧ p + n ≤ fa_limit ∧
          (∀ q, p ≤ q < p + n → ¬ fa_taken s q) ∧
          (∀ q, fa_taken s' q ↔ fa_taken s q ∨ p ≤ q < p + n)
      end }.

(** A [nullptr] is 0. *)
Record kheap (S : Type) := KHeap { arena : Z; pfa : option S }.
Arguments KHeap {S} arena pfa.
Arguments arena {S} _.
Arguments pfa {S} _.

Section kmalloc.
Context {S : Type} `{FA : FrameAllocator S}.

(** The page(s) for a new arena: [pfa->alloc(...)] and the conversion. *)
Definition new_arena (sz : Z) (a : S) : outcome (Z * S) :=
  '(page_frame, a) ← fa_alloc (u32 (ceil_pow2 PG_SZ sz / PG_SZ)) a;
  match page_frame with
  | Some pf => ar ← direct_to_hhdm pf; Ret (ar, a)
  | None => Ret (0, a)
  end.

Definition kmalloc (sz : Z) : M (kheap S) Z :=
  st ← getS;
  match pfa st with
  | None => mret 0
  | Some a =>
    '(ar, a) ← liftO (
      if (arena st =? 0) || (PG_SZ <? u32 (Z.land (arena st) (PG_SZ - 1) + sz))
      then new_arena sz a
      else Ret (arena st, a));
    if ar =? 0 then _ ← putS (KHeap ar (Some a)); mret 0
    else
      let ar' := u32 (ar + sz) in
      _ ← putS (KHeap (if PG_ALIGNED ar' then 0 else ar') (Some a));
      mret ar
  end.

(** [kfree] frees nothing. *)
Definition kfree (data : Z) : M (kheap S) unit := assertM (negb (data =? 0)).

(** A sequence of allocations, with the blocks (address, size) that were
    returned, latest first. *)
Fixpoint kmalloc_all (szs : list Z) (blocks : list (Z * Z)) : M (kheap S) (list (Z * Z)) :=
  match szs with
  | [] => mret blocks
  | sz :: szs =>
    p ← kmalloc sz;
    kmalloc_all szs (if p =? 0 then blocks else (p, sz) :: blocks)
  end.

(** ** Invariant *)
Definition block_disjoint (b c : Z * Z) : Prop := b.1 + b.2 ≤ c.1 ∨ c.1 + c.2 ≤ b.1.

(** Every frame that the bytes [[a, a+len)] of the HHDM touch is taken. *)
Definition taken_range (s : S) (a len : Z) : Prop :=
  ∀ x, a ≤ x < a + len → fa_taken s ((x - hhdm_start) / PG_SZ).

Definition block_ok (s : S) (b : Z * Z) : Prop :=
  hhdm_start ≤ b.1 ∧ 0 < b.2 ∧ b.1 + b.2 ≤ hhdm_start + hhdm_len ∧ taken_range s b.1 b.2.

(** What is left of the arena's page. *)
Definition arena_rest (st : kheap S) : Z * Z :=
  (arena st, PG_SZ - arena st mod PG_SZ).

Definition kheap_ok (st : kheap S) (blocks : list (Z * Z)) : Prop :=
  match pfa st with
  | None => blocks = [] ∧ arena st = 0
  | Some s =>
    fa_inv s ∧ Forall (block_ok s) blocks ∧ ForallOrdPairs block_disjoint blocks ∧
    (arena st ≠ 0 → arena st mod PG_SZ ≠ 0 ∧ block_ok s (arena_rest st) ∧
                    Forall (block_disjoint (arena_rest st)) blocks)
  end.
End kmalloc.

Lemma ForallOrdPairs_cons {A} (R : A → A → Prop) x l :
  Forall (R x) l → ForallOrdPairs R l → ForallOrdPairs R (x :: l).
Proof. by constructor. Qed.

Section kmalloc_proof.
Context {S : Type} `{FA : FrameAllocator S}.
Implicit Types (s : S) (b : Z * Z).

Lemma block_ok_sub s a len a' len' :
  block_ok s (a, len) → a ≤ a' → 0 < len' → a' + len' ≤ a + len → block_ok s (a', len').
Proof.
  intros (H1 & H2 & H3 & H4) ? ? ?. simpl in *. split_and!; simpl; [lia..|].
  intros x Hx. apply H4. lia.
Qed.

Lemma block_ok_mono s s' b :
  (∀ q, fa_taken s q → fa_taken s' q) → block_ok s b → block_ok s' b.
Proof. intros Hm (?&?&?&Ht). split_and!; [done..|]. intros x Hx. by apply Hm, Ht. Qed.

(** A run of frames that were not taken is off every block. *)
Lemma fresh_disjoint s p n b :
  block_ok s b → 0 < n → (∀ q, p ≤ q < p + n → ¬ fa_taken s q) →
  block_disjoint (hhdm_start + p * PG_SZ, n * PG_SZ) b.
Proof.
  intros (H1 & H2 & _ & Ht) Hn Hfree. unfold block_disjoint. simpl.
  change PG_SZ with 4096 in *.
  destruct (Z.le_gt_cases (hhdm_start + p * 4096 + n * 4096) b.1); [by left|].
  destruct (Z.le_gt_cases (b.1 + b.2) (hhdm_start + p * 4096)); [by right|]. exfalso.
  set (x := Z.max b.1 (hhdm_start + p * 4096)).
  apply (Hfree ((x - hhdm_start) / 4096)); [|apply Ht; lia].
  split; [apply Z.div_le_lower_bound|apply Z.div_lt_upper_bound]; lia.
Qed.

(** Taking [sz] bytes off the front of a range that ends on a page
    boundary, all but less than a page of it. *)
Lemma carve s blocks a len sz :
  fa_inv s → Forall (block_ok s) blocks → ForallOrdPairs block_disjoint blocks →
  block_ok s (a, len) → Forall (block_disjoint (a, len)) blocks →
  0 < sz ≤ len → len - sz < PG_SZ → (a + len) mod PG_SZ = 0 →
  kheap_ok (KHeap (if PG_ALIGNED (u32 (a + sz)) then 0 else u32 (a + sz)) (Some s))
           ((a, sz) :: blocks).
Proof.
  intros Hinv Hbs Hds Hr Hdr Hsz Hlt Hend. pose proof Hr as (Hlo & _ & Hhi & _). simpl in Hlo, Hhi.
  change hhdm_len with 0x3DC00000 in Hhi. change hhdm_start with 0xC0000000 in Hlo, Hhi.
  rewrite wrap_small by lia. unfold kheap_ok. cbn [arena pfa].
  assert (Hsub : ∀ a' len', a ≤ a' → a' + len' ≤ a + len → Forall (block_disjoint (a', len')) blocks).
  { intros a' len' ??. eapply Forall_impl; [exact Hdr|]. intros [c l]. unfold block_disjoint. simpl. lia. }
  assert (block_ok s (a, sz)) by (eapply block_ok_sub; [exact Hr|lia..]).
  split_and!; [done|by constructor|apply ForallOrdPairs_cons; [apply Hsub; lia|done]|].
  rewrite PG_ALIGNED_mod. destruct (Z.eqb_spec ((a + sz) mod PG_SZ) 0); [done|]. intros _. split; [done|].
  assert (Hrest : PG_SZ - (a + sz) mod PG_SZ = len - sz).
  { change PG_SZ with 4096 in *. pose proof (Z.mod_pos_bound (a + sz) 4096).
    pose proof (Z.div_mod (a + sz) 4096). pose proof (Z.div_mod (a + len) 4096). lia. }
  unfold arena_rest. cbn [arena]. rewrite Hrest.
  assert (0 < len - sz) by (pose proof (Z.mod_pos_bound (a + sz) PG_SZ); change PG_SZ with 4096 in *; lia).
  split; [eapply block_ok_sub; [exact Hr|lia..]|]. constructor; [|apply Hsub; lia].
  unfold block_disjoint. simpl. lia.
Qed.

Context (Hlimit : fa_limit * PG_SZ ≤ hhdm_len).

Lemma new_arena_spec s sz blocks :
  fa_inv s → 0 < sz < 2 ^ 31 → Forall (block_ok s) blocks →
  ∃ ar s', new_arena sz s = Ret (ar, s') ∧ fa_inv s' ∧ Forall (block_ok s') blocks ∧
    (ar ≠ 0 → ar mod PG_SZ = 0 ∧ ∃ len, sz ≤ len ∧ len - sz < PG_SZ ∧ (ar + len) mod PG_SZ = 0 ∧
       block_ok s' (ar, len) ∧ Forall (block_disjoint (ar, len)) blocks).
Proof.
  intros Hinv Hsz Hbs. unfold new_arena.
  destruct (ceil_pow2_ge 12 sz) as [Hc Hcm]; [lia..|]. change (2 ^ 12) with PG_SZ in *.
  apply Z.mod_divide in Hcm as [n Hn]; [|done].
  assert (Hn' : 0 < n) by (change PG_SZ with 4096 in *; lia).
  rewrite Hn, Z.div_mul by done. rewrite wrap_small by (change PG_SZ with 4096 in *; lia).
  destruct (fa_alloc_spec n s Hinv Hn') as (r & s' & -> & Hinv' & Hr). munfold.
  destruct r as [pa|].
  - destruct Hr as (p & -> & Hp & Hlim & Hfree & Htaken).
    assert (Hbound : p * PG_SZ + n * PG_SZ ≤ hhdm_len)
      by (rewrite <- Z.mul_add_distr_r; etransitivity; [|exact Hlimit]; apply Z.mul_le_mono_nonneg_r; done).
    rewrite direct_to_hhdm_eq by (change PG_SZ with 4096 in *; lia).
    eexists _, s'. split; [done|]. split; [done|].
    split; [eapply Forall_impl; [exact Hbs|]; intros b; apply block_ok_mono; intros q ?; apply Htaken; by left|].
    intros _. assert (Hal : (p * PG_SZ + hhdm_start) mod PG_SZ = 0)
      by (rewrite Z.add_comm, Z.mod_add; done).
    split; [done|]. exists (n * PG_SZ). rewrite <- Hn. split_and!; [lia|lia| | |].
    + rewrite Hn, Z.mod_add; done.
    + split_and!; simpl; [change PG_SZ with 4096; lia|lia|lia|]. intros x Hx. apply Htaken. right.
      rewrite Hn in Hx. change PG_SZ with 4096 in *.
      split; [apply Z.div_le_lower_bound|apply Z.div_lt_upper_bound]; lia.
    + rewrite Hn, Z.add_comm. eapply Forall_impl; [exact Hbs|]. intros b Hb. by eapply fresh_disjoint.
  - exists 0, s'. split_and!; [done|done| |done].
    eapply Forall_impl; [exact Hbs|]. intros b. apply block_ok_mono. intros q. apply Hr.
Qed.

Lemma kmalloc_step st sz blocks :
  kheap_ok st blocks → 0 < sz < 2 ^ 31 →
  wp (kmalloc sz) (λ p st',
    kheap_ok st' (if p =? 0 then blocks else (p, sz) :: blocks) ∧
    (PG_SZ ≤ sz → p mod PG_SZ = 0) ∧ (is_Some (pfa st) → is_Some (pfa st'))) st.
Proof.
  intros Hok Hsz. unfold kheap_ok in Hok. unfold kmalloc. apply wp_bind, wp_get.
  destruct (pfa st) as [s|] eqn:Hpfa.
  2:{ apply wp_ret. rewrite Hpfa. split_and!; [|done..]. simpl. unfold kheap_ok. by rewrite Hpfa. }
  destruct Hok as (Hinv & Hbs & Hds & Har). apply wp_bind.
  assert (Hmod : Z.land (arena st) (PG_SZ - 1) = arena st mod PG_SZ)
    by (change PG_SZ with (2 ^ 12); by apply land_mask_mod).
  rewrite Hmod. pose proof (Z.mod_pos_bound (arena st) PG_SZ ltac:(done)).
  rewrite wrap_small by (change PG_SZ with 4096 in *; lia).
  destruct ((arena st =? 0) || (PG_SZ <? arena st mod PG_SZ + sz)) eqn:Hcond.
  - destruct (new_arena_spec s sz blocks) as (ar & s' & Heq & Hinv' & Hbs' & Hnew); [done..|].
    eapply wp_lift; [exact Heq|]. cbn match. destruct (Z.eqb_spec ar 0) as [->|Hne].
    + apply wp_bind, wp_put, wp_ret. by split_and!.
    + apply wp_bind, wp_put, wp_ret. rewrite (proj2 (Z.eqb_neq _ _)) by done.
      destruct (Hnew Hne) as (Hal & len & ? & ? & ? & ? & ?). split_and!; [|done..].
      apply (carve s' blocks ar len sz); (done || lia).
  - assert (Hne : arena st ≠ 0) by lia. destruct (Har Hne) as (Hal & Hrest & Hdrest).
    eapply wp_lift; [reflexivity|]. cbn match. rewrite (proj2 (Z.eqb_neq _ _)) by done.
    apply wp_bind, wp_put, wp_ret. rewrite (proj2 (Z.eqb_neq _ _)) by done.
    split_and!; [|change PG_SZ with 4096 in *; lia|done].
    eapply (carve s blocks (arena st) (PG_SZ - arena st mod PG_SZ) sz); try (done || lia).
    pose proof (Z.div_mod (arena st) PG_SZ ltac:(done)).
    replace (arena st + (PG_SZ - arena st mod PG_SZ)) with ((arena st / PG_SZ + 1) * PG_SZ) by lia.
    by apply Z.mod_mul.
Qed.

Lemma kheap_ok_init s : fa_inv s → kheap_ok (KHeap 0 (Some s)) [].
Proof. intros Hinv. split_and!; [done|constructor|constructor|done]. Qed.

Lemma kmalloc_all_ok szs st blocks :
  kheap_ok st blocks → Forall (λ sz, 0 < sz < 2 ^ 31) szs →
  wp (kmalloc_all szs blocks)
     (λ blocks' st', kheap_ok st' blocks' ∧ (is_Some (pfa st) → is_Some (pfa st'))) st.
Proof.
  intros Hok Hf. revert st blocks Hok. induction Hf as [|sz szs Hsz Hf IH]; intros st blocks Hok.
  - by apply wp_ret.
  - cbn [kmalloc_all]. apply wp_bind. eapply wp_mono; [by apply kmalloc_step|].
    intros p st' (Hok' & _ & Hsome). eapply wp_mono; [by apply IH|].
    intros bs st'' [? ?]. split; auto.
Qed.

(** For every sequence of non-zero request sizes, [kmalloc] returns
    (possibly [nullptr]) without failing an assertion, and the blocks it
    hands out are inside the HHDM window, on frames taken from the frame
    allocator, and pairwise disjoint. *)
Theorem kmalloc_disjoint szs s :
  fa_inv s → Forall (λ sz, 0 < sz < 2 ^ 31) szs →
  ∃ blocks st', kmalloc_all szs [] (KHeap 0 (Some s)) = Ret (blocks, st') ∧
    ForallOrdPairs block_disjoint blocks ∧
    Forall (λ b, hhdm_start ≤ b.1 ∧ b.1 + b.2 ≤ hhdm_start + hhdm_len) blocks ∧
    ∃ s', pfa st' = Some s' ∧ Forall (λ b, taken_range s' b.1 b.2) blocks.
Proof.
  intros Hinv Hf. pose proof (kheap_ok_init s Hinv) as Hok.
  destruct (proj1 (wp_run _ _ _) (kmalloc_all_ok szs _ [] Hok Hf))
    as (blocks & st' & Heq & Hok' & Hsome).
  exists blocks, st'. split; [done|]. destruct Hsome as [s' Hs']; [by eexists|].
  unfold kheap_ok in Hok'. rewrite Hs' in Hok'. destruct Hok' as (_ & Hbs & Hds & _).
  split; [done|]. split; [|exists s'; split; [done|]];
    (eapply Forall_impl; [exact Hbs|]; by intros b (?&?&?&?)).
Qed.

(** A request of a page or more is page-aligned, which [vmalloc]
    relies on. *)
Theorem kmalloc_page_aligned st blocks sz :
  kheap_ok st blocks → PG_SZ ≤ sz < 2 ^ 31 →
  ∃ p st', kmalloc sz st = Ret (p, st') ∧ p mod PG_SZ = 0 ∧
    kheap_ok st' (if p =? 0 then blocks else (p, sz) :: blocks).
Proof.
  intros Hok Hsz. change PG_SZ with 4096 in Hsz.
  destruct (proj1 (wp_run _ _ _) (kmalloc_step st sz blocks Hok ltac:(lia)))
    as (p & st' & ? & ? & Hal & _).
  exists p, st'. split_and!; [done| |done]. apply Hal. change PG_SZ with 4096. lia.
Qed.
End kmalloc_proof.

(** ** [SimplePFA] is a frame allocator *)
Definition pfa_taken (st : SimplePFA) (q : Z) : Prop :=
  0 ≤ q → ∀ d, pft st !! Z.to_nat q = Some d → usable d = false.

Lemma pfa_taken_mark st st' nd n :
  0 ≤ nd → 0 < n → free_run (pft st) nd n →
  pft st' = set_range true (Z.to_nat nd) (Z.to_nat n) (pft st) →
  (∀ q, nd ≤ q < nd + n → ¬ pfa_taken st q) ∧
  (∀ q, pfa_taken st' q ↔ pfa_taken st q ∨ nd ≤ q < nd + n).
Proof.
  intros Hnd Hn Hrun Hpft. split.
  - intros q Hq Ht. destruct (Hrun q Hq) as (d & Hd & Hu).
    rewrite (Ht ltac:(lia) d Hd) in Hu. done.
  - intros q. unfold pfa_taken. rewrite Hpft. setoid_rewrite set_range_lookup.
    destruct (pft st !! Z.to_nat q) as [d|] eqn:Hd; simpl.
    + case_decide as Hin.
      * split; [intros _; destruct (Z.le_gt_cases 0 q); [right; lia|left; lia]|].
        intros _ _ d' [= <-]. done.
      * split; [by left|]. intros [?|?]; [done|]. lia.
    + split; [left|]; naive_solver.
Qed.

#[export] Instance simple_pfa_allocator (limit : Z) : FrameAllocator SimplePFA.
Proof.
  refine {| fa_alloc := alloc; fa_inv st := pfa_wf st ∧ endp st ≤ limit;
            fa_taken := pfa_taken; fa_limit := limit |}.
  intros n st [Hwf Hlim] Hn. destruct (pfa_geometry st Hwf) as (_ & _ & _ & H0 & _).
  apply wp_run, wp_alloc; [done..| |].
  - intros nd Hnd _. split; [split; [by apply pfa_wf_update|done]|]. done.
  - intros nd Hnd Hfit Hrun.
    split; [split; [by apply pfa_wf_update; [|apply set_range_length|]|done]|].
    exists nd. split; [done|]. split; [lia|]. split; [lia|].
    by apply pfa_taken_mark; [lia|..].
Defined.

(** Five pages, three of them free. *)
Lemma demo_pfa_inv : fa_inv (FrameAllocator := simple_pfa_allocator 5) demo_pfa.
Proof. split; [apply demo_pfa_wf|vm_compute; done]. Qed.

Lemma kmalloc_disjoint_witness :
  ∃ blocks st',
    kmalloc_all (FA := simple_pfa_allocator 5) [100; 5000; 8; 4096] [] (KHeap 0 (Some demo_pfa))
      = Ret (blocks, st') ∧
    blocks = [(0xC0000000, 4096); (0xC0003000, 8); (0xC0002000, 100)] ∧
    ForallOrdPairs block_disjoint blocks.
Proof.
  destruct (kmalloc_disjoint (FA := simple_pfa_allocator 5) ltac:(vm_compute; done)
              [100; 5000; 8; 4096] demo_pfa demo_pfa_inv) as (blocks & st' & Heq & Hd & _).
  { repeat constructor; lia. }
  exists blocks, st'. split; [done|]. split; [|done].
  vm_compute in Heq. by injection Heq as <- _.
Defined.

Lemma kmalloc_page_aligned_witness :
  ∃ p st', kmalloc (FA := simple_pfa_allocator 5) 4096 (KHeap 0 (Some demo_pfa)) = Ret (p, st') ∧
    p = 0xC0002000 ∧ p mod PG_SZ = 0.
Proof.
  destruct (kmalloc_page_aligned (FA := simple_pfa_allocator 5) ltac:(vm_compute; done)
    (KHeap 0 (Some demo_pfa)) [] 4096) as (p & st' & Heq & Hal & _); [|done|].
  { apply kheap_ok_init, demo_pfa_inv. }
  exists p, st'. split_and!; [done| |done]. vm_compute in Heq. by injection Heq as <- _.
Defined.
