(* ===== verification/MemoryInit.v ===== *)
(** * Memory bring-up

    Models the part of [entry] ([entry.cc]) that builds the memory
    system: the scan of the memory map of the boot protocol, the page
    frame table carved out of it, the allocator that manages all of it and
    the heap on top.  The pages the allocator may hand out are exactly the
    free pages of the memory map less those of the table itself. *)
From stdpp Require Import sorting.
From S2P Require Import Prelude Algorithm BootProtocol BootMem PageFrame MemoryMap Kmalloc.

(** ** Operations *)

(** The scan of the map up to the first absent entry: the entries before
    it and the usable bytes. *)
Fixpoint scan_mem_map (mem : mmap) (usable_mem : Z) : outcome (mmap * Z) :=
  match mem with
  | [] => Halt BadAccess
  | ent :: mem =>
    if e820_entry_present ent then
      '(rest, usable_mem) ← scan_mem_map mem
        (if ent_type ent =? E820_MM_TYPE_USABLE then u64 (usable_mem + ent_len ent)
         else usable_mem);
      Ret (ent :: rest, usable_mem)
    else Ret ([], usable_mem)
  end.

Section bring_up.
Context (std_sort : mmap → mmap).

(** The table and the allocator; [raw] is what the memory of the table
    holds before it is initialised.  Returns the virtual address of the
    table and the allocator. *)
Definition memory_init (raw : nat → PageFrameDescriptor) (mem_map : mmap)
    : outcome (Z * SimplePFA) :=
  '(regions, (pft_base, pft_size), _, _, _) ← PageFrameTable_ctor std_sort mem_map None;
  limit ← mem_limit regions;
  '(_, simple_allocator) ← SimplePFA_ctor regions [] (raw <$> seq 0 (Z.to_nat pft_size)) 0 limit;
  Ret (pft_base, simple_allocator).

(** From the map of the boot protocol to the heap. *)
Definition boot_heap (raw : nat → PageFrameDescriptor) (mem : mmap)
    : outcome (Z * kheap SimplePFA) :=
  '(mem_map, _) ← scan_mem_map mem 0;
  '(pft_base, simple_allocator) ← memory_init raw mem_map;
  Ret (pft_base, KHeap 0 (Some simple_allocator)).
End bring_up.

(** ** The scan *)
Lemma scan_mem_map_spec ents k u :
  Forall (λ e, e820_entry_present e = true) ents →
  ∃ u', scan_mem_map (ents ++ replicate (S k) e820_null) u = Ret (ents, u').
Proof.
  intros Hf. revert u. induction Hf as [|e ents He _ IH]; intros u; [by exists u|].
  cbn [app scan_mem_map]. rewrite He.
  destruct (IH (if ent_type e =? E820_MM_TYPE_USABLE then u64 (u + ent_len e) else u)) as [u' ->].
  by exists u'.
Qed.

(** ** Marking the gaps *)
Definition mark_gap (it lim : Z) (ds : list PageFrameDescriptor) : list PageFrameDescriptor :=
  imap (λ i d, if decide (it ≤ Z.of_nat i * PG_SZ < lim) then PFD (allocated d) true else d) ds.

Lemma mark_gap_lookup it lim ds i :
  mark_gap it lim ds !! i =
  (λ d, if decide (it ≤ Z.of_nat i * PG_SZ < lim) then PFD (allocated d) true else d) <$> ds !! i.
Proof. apply list_lookup_imap. Qed.

Lemma mark_gap_length it lim ds : length (mark_gap it lim ds) = length ds.
Proof. apply length_imap. Qed.

Lemma mark_gap_empty it lim ds : lim ≤ it → mark_gap it lim ds = ds.
Proof.
  intros. apply list_eq. intros i. rewrite mark_gap_lookup.
  destruct (ds !! i); [|done]. simpl. by rewrite decide_False by lia.
Qed.

Lemma get_pfd_mul q : get_pfd (q * PG_SZ) = q.
Proof.
  unfold get_pfd. change PG_SZ_BITS with 12. change PG_SZ with (2 ^ 12).
  rewrite Z.shiftr_div_pow2 by done. by apply Z.div_mul.
Qed.

Lemma mark_unusable_spec fuel ds a b :
  0 ≤ a ≤ b → b ≤ zlen ds → b * PG_SZ < 2 ^ 63 → b - a < Z.of_nat fuel →
  mark_unusable fuel ds (a * PG_SZ) (b * PG_SZ) =
  Ret (mark_gap (a * PG_SZ) (b * PG_SZ) ds, b * PG_SZ).
Proof.
  revert a ds. change PG_SZ with 4096. induction fuel as [|fuel IH]; intros a ds Ha Hb H63 Hf; [lia|].
  cbn [mark_unusable]. change PG_SZ with 4096.
  destruct (Z.ltb_spec (a * 4096) (b * 4096)) as [Hlt|Hge].
  - rewrite get_pfd_mul. destruct (pfd_at_Some ds a) as (d & -> & Hd); [lia|]. munfold.
    rewrite wrap_small by lia. replace (a * 4096 + 4096) with ((a + 1) * 4096) by lia.
    rewrite IH; [|lia|rewrite length_insert; lia|lia|lia]. f_equal. f_equal.
    apply list_eq. intros i. rewrite !mark_gap_lookup. change PG_SZ with 4096.
    destruct (decide (i = Z.to_nat a)) as [->|].
    + rewrite list_lookup_insert_eq, Hd by lia. simpl.
      rewrite decide_False, decide_True by lia. done.
    + rewrite list_lookup_insert_ne by done. destruct (ds !! i); simpl; [|done].
      repeat case_decide; done || lia.
  - assert (a = b) as -> by lia. by rewrite mark_gap_empty by lia.
Qed.

(** A page lies in one of the regions. *)
Definition in_regions (rs : mmap) (p : Z) : Prop := ∃ r, r ∈ rs ∧ page_in p r.
#[export] Instance in_regions_dec rs p : Decision (in_regions rs p).
Proof.
  refine (cast_if (decide (Exists (λ r, ent_base r ≤ p ∧ p + PG_SZ ≤ ent_base r + ent_len r) rs)));
    unfold in_regions, page_in; by rewrite Exists_exists in *.
Defined.

(** Aligned regions in order, after [it] and up to [e]. *)
Fixpoint tiles (it e : Z) (rs : mmap) : Prop :=
  match rs with
  | [] => it = e
  | r :: rs => it ≤ ent_base r ∧ ent_base r mod PG_SZ = 0 ∧ 0 ≤ ent_len r ∧
               ent_len r mod PG_SZ = 0 ∧ tiles (ent_base r + ent_len r) e rs
  end.

Lemma tiles_le it e rs : tiles it e rs → it ≤ e.
Proof. revert it. induction rs as [|r rs IH]; intros it; simpl; [lia|]. intros (?&_&?&_&?%IH). lia. Qed.

Lemma tiles_after it e rs p : tiles it e rs → in_regions rs p → it ≤ p ∧ p + PG_SZ ≤ e.
Proof.
  revert it. induction rs as [|r rs IH]; intros it; simpl.
  - intros _ (r & []%not_elem_of_nil & _).
  - intros (?&_&?&_&Ht). unfold in_regions. rewrite exists_elem_cons. intros [[? ?]|Hin].
    + apply tiles_le in Ht. lia.
    + destruct (IH _ Ht Hin). lia.
Qed.

Lemma SimplePFA_regions_spec rs ds a e :
  0 ≤ a → tiles (a * PG_SZ) (e * PG_SZ) rs → e ≤ zlen ds → e * PG_SZ < 2 ^ 63 →
  Forall (λ r, 0 ≤ ent_base r) rs →
  ∃ ds', SimplePFA_regions rs ds (a * PG_SZ) 0 (e * PG_SZ) = Ret ds' ∧ length ds' = length ds ∧
    ∀ i, ds' !! i = (λ d, if decide (a * PG_SZ ≤ Z.of_nat i * PG_SZ < e * PG_SZ ∧
                                     ¬ in_regions rs (Z.of_nat i * PG_SZ))
                          then PFD (allocated d) true else d) <$> ds !! i.
Proof.
  intros Ha Ht He H63 Hb. revert ds a Ha Ht He. induction Hb as [|r rs Hr _ IH]; intros ds a Ha Ht He.
  - exists ds. split_and!; [done..|]. simpl in Ht. intros i. destruct (ds !! i); [|done]. simpl.
    by rewrite decide_False by lia.
  - cbn [SimplePFA_regions]. destruct Ht as (Hle & Hbm & Hl & Hlm & Ht).
    replace (ent_base r <? 0) with false by lia.
    apply Z.mod_divide in Hbm as [b Hbr]; [|done]. apply Z.mod_divide in Hlm as [l Hlr]; [|done].
    pose proof (tiles_le _ _ _ Ht) as Hend. rewrite Hbr, Hlr in *. change PG_SZ with 4096 in *.
    rewrite Z.min_l by lia. change 4096 with PG_SZ.
    rewrite mark_unusable_spec by (change PG_SZ with 4096; lia). munfold.
    change PG_SZ with 4096 in *.
    destruct (Z.leb_spec (e * 4096) (b * 4096)) as [Hge|Hlt].
    + eexists. split; [done|]. split; [apply mark_gap_length|]. intros i. rewrite mark_gap_lookup.
      change PG_SZ with 4096. destruct (ds !! i) as [d|]; [|done]. simpl. f_equal.
      apply decide_ext. split; [|lia]. intros Hi. split; [lia|]. intros [r' [Hr' Hp]].
      apply elem_of_cons in Hr' as [->|Hr']; unfold page_in in Hp; change PG_SZ with 4096 in *.
      * lia.
      * assert (in_regions rs (Z.of_nat i * 4096)) as Hin by (by exists r').
        apply (tiles_after _ _ _ _ Ht) in Hin. change PG_SZ with 4096 in *. lia.
    + rewrite wrap_small by lia. replace (b * 4096 + l * 4096) with ((b + l) * 4096) in * by lia.
      destruct (IH (mark_gap (a * 4096) (b * 4096) ds) (b + l)) as (ds' & -> & Hl' & Hds');
        [lia|done|by rewrite mark_gap_length|].
      exists ds'. split; [done|]. split; [by rewrite Hl', mark_gap_length|]. intros i.
      rewrite Hds', mark_gap_lookup. change PG_SZ with 4096. destruct (ds !! i) as [d|]; [|done].
      simpl. f_equal. set (p := Z.of_nat i * 4096) in *.
      assert (Hin : in_regions rs p → (b + l) * 4096 ≤ p) by (intros Hin; apply (tiles_after _ _ _ _ Ht Hin)).
      assert (Hcons : in_regions (r :: rs) p ↔ b * 4096 ≤ p < (b + l) * 4096 ∨ in_regions rs p).
      { unfold in_regions. rewrite exists_elem_cons. unfold page_in. rewrite Hbr, Hlr.
        change PG_SZ with 4096. unfold p. destruct (decide (b ≤ Z.of_nat i < b + l)); naive_solver lia. }
      pose proof (tiles_le _ _ _ Ht) as Hend'. clearbody p. clear -Hin Hcons Hle Hend' Hl.
      destruct (decide (in_regions rs p)) as [HP|HP].
      * specialize (Hin HP). rewrite !(decide_False (P := _ ∧ _)) by (rewrite ?Hcons; tauto || lia).
        done.
      * destruct (decide (b * 4096 ≤ p < (b + l) * 4096)) as [Hp|Hp].
        -- rewrite !(decide_False (P := _ ∧ _)) by (rewrite ?Hcons; tauto || lia). done.
        -- destruct (decide (a * 4096 ≤ p < b * 4096)).
           ++ rewrite (decide_False (P := _ ∧ _)), (decide_True (P := _ ∧ _)); [done| |lia].
              rewrite Hcons. split; [lia|tauto].
           ++ destruct (decide ((b + l) * 4096 ≤ p < e * 4096)).
              ** rewrite !(decide_True (P := _ ∧ _)); [done| |tauto]. rewrite Hcons. split; [lia|tauto].
              ** rewrite !(decide_False (P := _ ∧ _)); [done|lia|tauto].
Qed.

(** ** The regions as tiles *)
Lemma tiles_app it e pre post :
  tiles it e (pre ++ post) ↔ ∃ m, tiles it m pre ∧ tiles m e post.
Proof.
  revert it. induction pre as [|r pre IH]; intros it; simpl; [naive_solver|].
  rewrite IH. naive_solver.
Qed.

Definition bounded (r : e820_mm_entry) : Prop := 0 ≤ ent_base r ∧ ent_base r + ent_len r < 2 ^ 64.

Lemma regions_tile it rs :
  regions_wf rs → rs ≠ [] → Forall (λ r, it ≤ ent_base r) rs →
  ∃ r, last rs = Some r ∧ tiles it (ent_base r + ent_len r) rs.
Proof.
  intros [Hf Hs]. revert it. induction Hs as [|r rs Hs IH Hb]; intros it Hne Hit; [done|].
  apply Forall_cons in Hf as [(? & ? & ? & _) Hf], Hit as [? _]. simpl.
  destruct rs as [|r' rs]; [exists r; split_and!; done || lia|].
  destruct (IH Hf (ent_base r + ent_len r)) as (z & Hz & Ht); [done|done|].
  exists z. rewrite last_cons_cons. split_and!; done || lia.
Qed.

Lemma tiles_last it e rs r : tiles it e rs → last rs = Some r → ent_base r + ent_len r = e.
Proof.
  revert it. induction rs as [|x rs IH]; intros it; simpl; [done|]. intros (_ & _ & _ & _ & Ht).
  destruct rs as [|y rs]; [by intros [= <-]|]. rewrite last_cons_cons. by apply IH with (1 := Ht).
Qed.

Lemma tiles_mem_limit it e rs :
  tiles it e rs → rs ≠ [] → 0 ≤ e < 2 ^ 64 → mem_limit rs = Ret e.
Proof.
  intros Ht Hne He. unfold mem_limit. destruct (last rs) as [r|] eqn:Hr; [|by apply last_None in Hr].
  munfold. by rewrite (tiles_last _ _ _ _ Ht Hr), wrap_small.
Qed.

(** Taking [need] bytes off the front of a region. *)
Definition trim (need : Z) (r : e820_mm_entry) : e820_mm_entry :=
  E820 (ent_base r + need) (ent_len r - need) (ent_type r) (ent_acpi r).

Lemma tiles_trim it e pre r post need :
  tiles it e (pre ++ r :: post) → need mod PG_SZ = 0 → 0 ≤ need ≤ ent_len r →
  tiles it e (pre ++ trim need r :: post).
Proof.
  rewrite !tiles_app. simpl. intros (m & Hm & ? & Hb & ? & Hl & Ht) Hn Hle. exists m.
  split; [done|]. split_and!; [lia| |lia| |].
  - by rewrite Z.add_mod, Hb, Hn by done.
  - by rewrite Zminus_mod, Hl, Hn by done.
  - by replace (ent_base r + need + (ent_len r - need)) with (ent_base r + ent_len r) by lia.
Qed.

Lemma trim_type need pre r post x :
  x ∈ pre ++ trim need r :: post → ∃ y, y ∈ pre ++ r :: post ∧ ent_type x = ent_type y.
Proof.
  rewrite elem_of_app, elem_of_cons.
  intros [?|[->|?]]; [exists x|exists r|exists x]; (split; [set_solver|done]).
Qed.

Lemma in_regions_app rs rs' p : in_regions (rs ++ rs') p ↔ in_regions rs p ∨ in_regions rs' p.
Proof. unfold in_regions. setoid_rewrite elem_of_app. naive_solver. Qed.

Lemma in_regions_cons r rs p : in_regions (r :: rs) p ↔ page_in p r ∨ in_regions rs p.
Proof. unfold in_regions. by rewrite exists_elem_cons. Qed.

Lemma in_regions_trim it e pre r post need p :
  tiles it e (pre ++ r :: post) → need mod PG_SZ = 0 → 0 ≤ need ≤ ent_len r → p mod PG_SZ = 0 →
  in_regions (pre ++ trim need r :: post) p ↔
  in_regions (pre ++ r :: post) p ∧ ¬ (ent_base r ≤ p < ent_base r + need).
Proof.
  rewrite tiles_app. simpl. intros (m & Hm & Hmb & Hb & _ & _ & Ht) Hn Hle Hp.
  pose proof (tiles_after _ _ _ p Hm) as Hpre. pose proof (tiles_after _ _ _ p Ht) as Hpost.
  rewrite !in_regions_app, !in_regions_cons. unfold page_in, trim. cbn [ent_base ent_len].
  apply Z.mod_divide in Hn as [n ->], Hb as [b Hb], Hp as [q ->]; [|done..]. rewrite Hb in *.
  change PG_SZ with 4096 in *. destruct (decide (in_regions pre (q * 4096)));
  destruct (decide (in_regions post (q * 4096))); split; intros H; try (exfalso; tauto); split_and?;
    try tauto; try lia; naive_solver lia.
Qed.

(** ** The page frame table *)
Lemma alloc_pft_loop_spec need rs :
  0 < need → StronglySorted before rs → Forall bounded rs →
  match alloc_pft_loop rs need with
  | Ret (pft_base, rs') =>
      ∃ pre r post, rs = pre ++ r :: post ∧ rs' = pre ++ trim need r :: post ∧
        need ≤ ent_len r ∧ ent_base r + need ≤ hhdm_len ∧ pft_base = ent_base r + hhdm_start
  | Halt f => f = AssertFail ∧ Forall (λ r, need ≤ ent_len r → hhdm_len < ent_base r + need) rs
  end.
Proof.
  intros Hn Hs. induction Hs as [|r rs Hs IH Hb]; intros Hf; cbn [alloc_pft_loop]; [done|].
  apply Forall_cons in Hf as [[Hr0 Hr] Hf]. specialize (IH Hf).
  destruct (Z.leb_spec need (ent_len r)) as [Hfit|Hfit].
  - assert (Hlater : hhdm_len < ent_base r + need →
      Forall (λ r, need ≤ ent_len r → hhdm_len < ent_base r + need) rs).
    { intros Hbig. eapply Forall_impl; [exact Hb|]. unfold before. intros x Hx _. lia. }
    unfold direct_to_hhdm. destruct (Z.ltb_spec (ent_base r) hhdm_len); munfold.
    + rewrite !(wrap_small 64) by lia. cbn [ent_base]. destruct (Z.leb_spec (ent_base r + need) hhdm_len).
      * exists [], r, rs. change hhdm_start with 0xC0000000. change hhdm_len with 0x3DC00000 in *.
        rewrite wrap_small by lia. done.
      * split; [done|]. constructor; [lia|]. apply Hlater. lia.
    + split; [done|]. constructor; [lia|]. apply Hlater. lia.
  - destruct (alloc_pft_loop rs need) as [[b rs']|f]; munfold.
    + destruct IH as (pre & r' & post & -> & -> & ?). by exists (r :: pre), r', post.
    + destruct IH as [-> IH]. split; [done|]. constructor; [lia|done].
Qed.

Lemma reclaimable_ranges_ret mm :
  (∀ e, e ∈ mm → ent_type e = E820_MM_TYPE_BOOTLOADER_RECLAIMABLE → 0 ≤ ent_base e < hhdm_len) →
  ∃ zs, reclaimable_ranges mm = Ret zs.
Proof.
  induction mm as [|e mm IH]; intros Hm; [by eexists|]. apply forall_elem_cons in Hm as [He Hm].
  destruct (IH Hm) as [zs IH']. unfold reclaimable_ranges in *. cbn [foldr]. rewrite IH'.
  destruct (Z.eqb_spec (ent_type e) E820_MM_TYPE_BOOTLOADER_RECLAIMABLE); [|by eexists].
  rewrite direct_to_hhdm_eq by auto. by eexists.
Qed.

(** ** The allocator over all of memory *)
Lemma SimplePFA_ctor_spec rs ds e :
  tiles 0 (e * PG_SZ) rs → Forall (λ r, 0 ≤ ent_base r) rs → 0 < e < 2 ^ 31 → zlen ds = e →
  ∃ al a, SimplePFA_ctor rs [] ds 0 (e * PG_SZ) = Ret (al, a) ∧ pfa_wf a ∧ endp a = e ∧
    alloced_pgs a = 0 ∧ ∀ q, pfa_taken a q ↔ ¬ in_regions rs (q * PG_SZ).
Proof.
  intros Ht Hb He Hl. unfold SimplePFA_ctor, register_allocator.
  assert (Hal : aligned_pow2 PG_SZ (e * PG_SZ) = true)
    by (apply (aligned_pow2_spec 12); [done|by apply Z.mod_mul]).
  rewrite Hal, get_pfd_mul. replace (0 <? e * PG_SZ) with true by (change PG_SZ with 4096; lia).
  rewrite Hl, Z.ltb_irrefl. change (aligned_pow2 PG_SZ 0) with true. change (get_pfd 0) with 0.
  munfold. cbn [existsb app]. set (ds0 := zero_pfds _ _ _).
  assert (Hl0 : length ds0 = length ds) by apply length_imap.
  destruct (SimplePFA_regions_spec rs ds0 0 e) as (ds' & Heq & Hlen & Hds');
    [lia|done|lia|change PG_SZ with 4096; lia|done|].
  change (0 * PG_SZ) with 0 in Heq. rewrite Heq. eexists _, _. split; [done|].
  split.
  { unfold pfa_wf, startp, endp. cbn [start end_ pft needle]. rewrite get_pfd_mul, Z.mod_mul by done.
    change (get_pfd 0) with 0. change PG_SZ with 4096. change (0 mod 4096) with 0.
    rewrite Hlen, Hl0. split_and!; lia. }
  unfold endp, pfa_taken. cbn [end_ pft alloced_pgs]. rewrite get_pfd_mul.
  split_and!; [done..|]. intros q. pose proof (tiles_after _ _ _ (q * PG_SZ) Ht) as Hout.
  change PG_SZ with 4096 in Hout. destruct (decide (0 ≤ q < e)) as [Hq|Hq].
  2:{ split; [intros _ Hin%Hout; lia|]. intros _ ? d Hd%lookup_lt_Some. lia. }
  destruct (lookup_lt_is_Some_2 ds (Z.to_nat q)) as [d Hd]; [lia|].
  assert (Hd0 : ds0 !! Z.to_nat q = Some (PFD false false)).
  { unfold ds0, zero_pfds. rewrite list_lookup_imap, Hd. simpl. by rewrite decide_True by lia. }
  rewrite Hds', Hd0. simpl. rewrite Z2Nat.id by lia. split.
  - intros Htk Hin. specialize (Htk ltac:(lia) _ eq_refl). rewrite decide_False in Htk by tauto. done.
  - intros Hin _ d' [= <-]. rewrite decide_True; [done|].
    split; [change PG_SZ with 4096; lia|done].
Qed.

(** ** Bringing up memory *)

(** What is asked of the map: the promise of [mm_ok], at most 32
    entries, memory below 2^37 (the size of the table is computed at 32
    bits), the reclaimable entries inside the direct map, and a free
    page. *)
Definition bootable (mm : mmap) : Prop :=
  mm_ok mm ∧ (length mm ≤ 32)%nat ∧
  (∀ e, e ∈ mm → ent_base e + ent_len e ≤ 2 ^ 37 ∧
     (ent_type e = E820_MM_TYPE_BOOTLOADER_RECLAIMABLE → ent_base e < hhdm_len)) ∧
  ∃ p, p mod PG_SZ = 0 ∧ page_free mm p.

(** The bytes of a table of [n] descriptors. *)
Definition pft_bytes (n : Z) : Z := ceil_pow2 PG_SZ (n * sizeof_PFD).

Lemma pft_bytes_spec n :
  0 < n ≤ 2 ^ 25 → 0 < pft_bytes n < 2 ^ 32 ∧ pft_bytes n mod PG_SZ = 0 ∧
  u32 (ceil_pow2 PG_SZ (u32 (n * sizeof_PFD))) = pft_bytes n.
Proof.
  intros Hn. unfold pft_bytes, sizeof_PFD. rewrite (wrap_small 32 (n * 64)) by lia.
  destruct (ceil_pow2_ge 12 (n * 64)) as [? ?]; [lia..|]. change (2 ^ 12) with PG_SZ in *.
  change PG_SZ with 4096 in *. rewrite wrap_small by lia. split_and!; [lia..|done|done].
Qed.

Section bring_up_proof.
Context (std_sort : mmap → mmap).
Hypothesis std_sort_perm : ∀ l, std_sort l ≡ₚ l.
Hypothesis std_sort_sorted : ∀ l, StronglySorted (λ e f, ent_base e ≤ ent_base f) (std_sort l).

(** The normalised regions of a bootable map. *)
Lemma bootable_regions mm :
  bootable mm →
  ∃ mm' n e, normalize_mm std_sort mm = Ret (mm', n) ∧ regions_wf (take n mm') ∧
    Forall bounded (take n mm') ∧ mem_limit (take n mm') = Ret (e * PG_SZ) ∧ 0 < e ≤ 2 ^ 25 ∧
    (∃ x, x ∈ mm ∧ ent_type x = E820_MM_TYPE_USABLE ∧ e * PG_SZ ≤ ent_base x + ent_len x) ∧
    tiles 0 (e * PG_SZ) (take n mm') ∧ (∃ zs, ∀ l, (∀ r, r ∈ l → ent_type r = E820_MM_TYPE_USABLE) →
      reclaimable_ranges (l ++ drop n mm') = Ret zs) ∧
    ∀ p, p mod PG_SZ = 0 → in_regions (take n mm') p ↔ page_free mm p.
Proof.
  intros (Hok & Hlen & Hb & p0 & Hp0 & Hfree).
  destruct (normalize_mm_regions std_sort std_sort_perm std_sort_sorted mm Hok)
    as (mm' & n & Heq & Hwf & Hbd & Hfrom & Hp).
  exists mm', n. set (rs := take n mm') in *.
  assert (Hne : rs ≠ []).
  { intros Hnil. destruct (proj2 (Hp p0 Hp0) Hfree) as (r & Hr & _). fold rs in Hr.
    rewrite Hnil in Hr. by apply elem_of_nil in Hr. }
  destruct (regions_tile 0 rs Hwf Hne) as (r & Hlast & Ht).
  { eapply Forall_impl; [exact Hbd|]. by intros x [? ?]. }
  pose proof (last_Some_elem_of _ _ Hlast) as Hin.
  destruct Hwf as [Hwf Hs]. rewrite Forall_forall in Hwf, Hbd.
  destruct (Hwf r Hin) as (Hrb & Hrl & Hpos & Hty). destruct (Hbd r Hin) as [Hr0 Hr64].
  apply Z.mod_divide in Hrb as [b Hrb], Hrl as [l Hrl]; [|done..].
  assert (Hlast_pg : page_free mm ((b + l - 1) * PG_SZ)).
  { apply Hp; [by apply Z.mod_mul|]. exists r. split; [done|]. unfold page_in.
    rewrite Hrb, Hrl in *. change PG_SZ with 4096 in *. lia. }
  destruct Hlast_pg as [(i & x & Hx & Hxt & [_ Hx']) _].
  apply list_elem_of_lookup_2 in Hx. pose proof (Hb x Hx) as [Hx2 _].
  exists (b + l). rewrite Z.mul_add_distr_r, <- Hrb, <- Hrl.
  split_and!; [done|by split; [apply Forall_forall|]|by apply Forall_forall| | | |exists x; split_and!; [done..|]|done| |done].
  - unfold mem_limit. rewrite Hlast. munfold. by rewrite wrap_small by lia.
  - rewrite Hrl in Hpos. rewrite Hrb in Hr0. change PG_SZ with 4096 in *. lia.
  - change PG_SZ with 4096 in *. lia.
  - rewrite Hrb, Hrl. change PG_SZ with 4096 in *. lia.
  - clear -Hfrom Hb Hok.
    destruct (reclaimable_ranges_ret (drop n mm')) as [zs Hzs].
    { intros e He Het. assert (e ∈ mm) as Hem.
      { apply Hfrom; [|by rewrite Het]. by apply (subseteq_drop n). }
      apply list_elem_of_lookup in Hem as [i Hi]. pose proof (mm_ok_wf _ _ _ Hok Hi) as [? _].
      apply list_elem_of_lookup_2, Hb in Hi as [_ Hi]. auto. }
    exists zs. intros l Hl. unfold reclaimable_ranges in *. rewrite foldr_app, Hzs.
    induction l as [|x l IH]; [done|]. apply forall_elem_cons in Hl as [Hx Hl]. cbn [foldr].
    rewrite Hx. by apply IH.
Qed.

(** What the run of [memory_init] comes to. *)
Lemma memory_init_run raw mm :
  bootable mm →
  ∃ mm' n e, normalize_mm std_sort mm = Ret (mm', n) ∧ mem_limit (take n mm') = Ret (e * PG_SZ) ∧
    0 < e ≤ 2 ^ 25 ∧
    (∃ x, x ∈ mm ∧ ent_type x = E820_MM_TYPE_USABLE ∧ e * PG_SZ ≤ ent_base x + ent_len x) ∧
    match memory_init std_sort raw mm with
    | Ret (pft_base, a) =>
        ∃ base, pft_base = base + hhdm_start ∧ pfa_wf a ∧ endp a = e ∧ alloced_pgs a = 0 ∧
          0 ≤ base ∧ base + pft_bytes e ≤ hhdm_len ∧ base mod PG_SZ = 0 ∧
          (∀ p, p mod PG_SZ = 0 → base ≤ p < base + pft_bytes e → page_free mm p) ∧
          ∀ p, p mod PG_SZ = 0 →
            ¬ pfa_taken a (p / PG_SZ) ↔ page_free mm p ∧ ¬ (base ≤ p < base + pft_bytes e)
    | Halt f => f = AssertFail ∧
        Forall (λ r, pft_bytes e ≤ ent_len r → hhdm_len < ent_base r + pft_bytes e) (take n mm')
    end.
Proof.
  intros Hboot. destruct (bootable_regions mm Hboot)
    as (mm' & n & e & Hnorm & [Hwf Hs] & Hbd & Hlim & He & Htop & Ht & (zs & Hzs) & Hp).
  exists mm', n, e. split_and!; [done..|lia|lia|done|]. destruct (pft_bytes_spec e He) as (Hpos & Hmod & Hneed).
  destruct Hboot as (_ & Hlen & _). unfold memory_init, PageFrameTable_ctor.
  replace (length mm <=? 32)%nat with true by (symmetry; by apply Nat.leb_le).
  rewrite Hnorm. munfold. unfold alloc_pft. rewrite Hlim. munfold.
  replace (aligned_pow2 PG_SZ (e * PG_SZ)) with true
    by (symmetry; apply (aligned_pow2_spec 12); [done|by apply Z.mod_mul]).
  change (Z.shiftr (e * PG_SZ) PG_SZ_BITS) with (get_pfd (e * PG_SZ)). rewrite get_pfd_mul.
  rewrite (wrap_small 32 e), Hneed by lia.
  pose proof (alloc_pft_loop_spec (pft_bytes e) (take n mm') ltac:(lia) Hs Hbd) as Hloop.
  destruct (alloc_pft_loop (take n mm') (pft_bytes e)) as [[vb rs']|f]; [|done].
  destruct Hloop as (pre & r & post & Hrs & -> & Hfit & Hhh & ->).
  rewrite Hrs in *. rewrite Hzs.
  2:{ rewrite Forall_forall in Hwf. intros x (y & Hy & ->)%trim_type. by apply Hwf. }
  pose proof (tiles_trim _ _ _ _ _ _ Ht Hmod ltac:(lia)) as Ht'.
  rewrite (tiles_mem_limit _ _ _ Ht'); [|by destruct pre|change PG_SZ with 4096; lia].
  destruct (SimplePFA_ctor_spec (pre ++ trim (pft_bytes e) r :: post) (raw <$> seq 0 (Z.to_nat e)) e)
    as (al & a & -> & Hpfa & Hend & Hal & Htk); [done| |lia|rewrite length_fmap, length_seq; lia|].
  { rewrite Forall_app, Forall_cons in *. destruct Hbd as (Hb1 & [? ?] & Hb2).
    split_and!; [by eapply Forall_impl; [exact Hb1|]; intros ? [? ?]|cbn; lia|
                 by eapply Forall_impl; [exact Hb2|]; intros ? [? ?]]. }
  rewrite Forall_app, Forall_cons in Hwf, Hbd.
  destruct Hwf as (_ & (Hrb & _ & _ & _) & _), Hbd as (_ & [Hr0 _] & _).
  exists (ent_base r). split_and!; [done..| |].
  - intros p Hpm Hin. apply Hp; [done|]. rewrite in_regions_app, in_regions_cons. right. left.
    unfold page_in. apply Z.mod_divide in Hrb as [b Hrb], Hmod as [m Hm], Hpm as [q ->]; [|done..].
    rewrite Hrb, Hm in *. change PG_SZ with 4096 in *. lia.
  - intros p Hpm. rewrite Htk. apply Z.mod_divide in Hpm as [q ->]; [|done]. rewrite Z.div_mul by done.
    assert (Hqm : (q * PG_SZ) mod PG_SZ = 0) by (by apply Z.mod_mul).
    rewrite <- (Hp _ Hqm), <- (in_regions_trim _ _ _ _ _ _ _ Ht Hmod ltac:(lia) Hqm).
    split; [apply dec_stable|tauto].
Qed.
(** C5: on a memory map that keeps its promise, bringing up the page
    frame table and the allocator over all of memory either returns or
    fails an assertion, and it fails only if no usable region has room for
    the table inside the direct map.  When it returns, the table lies on
    free pages of the map inside the direct map, and the pages the
    allocator may hand out are exactly the free pages of the map that are
    not the table's own. *)
Theorem memory_init_exact raw mm :
  bootable mm →
  ∃ mm' n e, normalize_mm std_sort mm = Ret (mm', n) ∧ mem_limit (take n mm') = Ret (e * PG_SZ) ∧
    match memory_init std_sort raw mm with
    | Ret (pft_base, a) =>
        let base := pft_base - hhdm_start in
        pfa_wf a ∧ endp a = e ∧ alloced_pgs a = 0 ∧
        base mod PG_SZ = 0 ∧ 0 ≤ base ∧ base + pft_bytes e ≤ hhdm_len ∧
        (∀ p, p mod PG_SZ = 0 → base ≤ p < base + pft_bytes e → page_free mm p) ∧
        ∀ p, p mod PG_SZ = 0 →
          ¬ pfa_taken a (p / PG_SZ) ↔ page_free mm p ∧ ¬ (base ≤ p < base + pft_bytes e)
    | Halt f => f = AssertFail ∧
        Forall (λ r, pft_bytes e ≤ ent_len r → hhdm_len < ent_base r + pft_bytes e) (take n mm')
    end.
Proof.
  intros (mm' & n & e & Hnorm & Hlim & _ & _ & Hrun)%(memory_init_run raw). exists mm', n, e.
  split_and!; [done..|]. destruct (memory_init std_sort raw mm) as [[vb a]|f]; [|done].
  destruct Hrun as (base & -> & ? & ? & ? & ? & ? & ? & ? & ?). cbv zeta.
  replace (base + hhdm_start - hhdm_start) with base by lia. done.
Qed.
End bring_up_proof.

(** ** The heap over the free pages

    The frames an allocator has handed out since [s0], as a frame
    allocator of its own: its blocks lie on frames that were not taken in
    [s0]. *)
Definition since {S} (FA : FrameAllocator S) (s0 : S) : FrameAllocator S.
Proof.
  refine {| fa_alloc := fa_alloc (FrameAllocator := FA);
            fa_inv s := fa_inv (FrameAllocator := FA) s ∧ ∀ q, fa_taken s0 q → fa_taken s q;
            fa_taken s q := fa_taken s q ∧ ¬ fa_taken s0 q;
            fa_limit := fa_limit (FrameAllocator := FA) |}.
  intros n s [Hinv Hsub] Hn. destruct (fa_alloc_spec n s Hinv Hn) as (r & s' & Heq & Hinv' & Hr).
  exists r, s'. split; [done|]. destruct r as [pa|].
  - destruct Hr as (p & -> & Hp & Hlim & Hfree & Htk). split.
    { split; [done|]. intros q Hq. apply Htk. left. auto. }
    exists p. split_and!; [done..| |].
    + intros q Hq [Ht _]. by apply (Hfree q).
    + intros q. rewrite Htk. split; [tauto|]. intros [[? ?]|Hq]; [tauto|]. split; [by right|].
      intros Ht0. apply (Hfree q Hq). auto.
  - split; [split; [done|]|].
    + intros q Hq. apply Hr. auto.
    + intros q. by rewrite Hr.
Defined.

Definition boot_allocator : FrameAllocator SimplePFA := simple_pfa_allocator (hhdm_len / PG_SZ).

Section boot_heap_proof.
Context (std_sort : mmap → mmap).
Hypothesis std_sort_perm : ∀ l, std_sort l ≡ₚ l.
Hypothesis std_sort_sorted : ∀ l, StronglySorted (λ e f, ent_base e ≤ ent_base f) (std_sort l).

(** C6: on a machine whose memory fits the direct map, once the memory
    map of the boot protocol has been turned into the page frame table,
    the allocator and the heap, every sequence of [kmalloc] requests
    completes and its blocks are pairwise disjoint and lie on pages that
    are free in the memory map: never on the boot loader's page tables,
    the kernel, reserved memory or the page frame table. *)
Theorem boot_heap_serves raw ents k szs :
  bootable ents → Forall (λ e, e820_entry_present e = true) ents →
  (∀ e, e ∈ ents → ent_type e = E820_MM_TYPE_USABLE → ent_base e + ent_len e ≤ hhdm_len) →
  Forall (λ sz, 0 < sz < 2 ^ 31) szs →
  match boot_heap std_sort raw (ents ++ replicate (S k) e820_null) with
  | Ret (pft_base, h) =>
      ∃ a blocks h', pfa h = Some a ∧ kmalloc_all (FA := boot_allocator) szs [] h = Ret (blocks, h') ∧
        ForallOrdPairs block_disjoint blocks ∧
        ∀ b x, b ∈ blocks → b.1 ≤ x < b.1 + b.2 →
          let p := (x - hhdm_start) / PG_SZ * PG_SZ in
          page_free ents p ∧ ¬ (pft_base - hhdm_start ≤ p < pft_base - hhdm_start + pft_bytes (endp a))
  | Halt f => f = AssertFail
  end.
Proof.
  intros Hboot Hpres Hdirect Hszs. unfold boot_heap.
  destruct (scan_mem_map_spec ents k 0 Hpres) as [u ->]. munfold.
  destruct (memory_init_run std_sort std_sort_perm std_sort_sorted raw ents Hboot)
    as (mm' & n & e & _ & _ & He & (x & Hx & Hxt & Hxe) & Hrun).
  destruct (memory_init std_sort raw ents) as [[vb a]|f]; [|by destruct Hrun].
  destruct Hrun as (base & -> & Hwf & Hend & _ & _ & _ & _ & _ & Hfree).
  assert (Hinv : fa_inv (FrameAllocator := since boot_allocator a) a).
  { split; [|done]. split; [done|]. rewrite Hend. specialize (Hdirect x Hx Hxt).
    change hhdm_len with 0x3DC00000 in *. change PG_SZ with 4096 in *.
    change (0x3DC00000 / 4096) with 0x3DC00. lia. }
  pose proof (kheap_ok_init (FA := since boot_allocator a) a Hinv) as Hok.
  assert (Hlim : @fa_limit _ (since boot_allocator a) * PG_SZ ≤ hhdm_len) by (vm_compute; done).
  destruct (proj1 (wp_run _ _ _) (kmalloc_all_ok (FA := since boot_allocator a) Hlim szs _ [] Hok Hszs))
    as (blocks & h' & Heq & Hok' & Hsome).
  exists a, blocks, h'. split; [reflexivity|]. split; [exact Heq|]. destruct Hsome as [s' Hs']; [by eexists|].
  unfold kheap_ok in Hok'. rewrite Hs' in Hok'. destruct Hok' as (_ & Hbs & Hds & _).
  split; [done|]. intros b y Hb Hy. rewrite Forall_forall in Hbs.
  destruct (Hbs b Hb) as (_ & _ & _ & Htk). destruct (Htk y Hy) as [_ Hnt]. cbv zeta.
  rewrite Hend. replace (base + hhdm_start - hhdm_start) with base by lia.
  apply Hfree; [by apply Z.mod_mul|]. by rewrite Z.div_mul.
Qed.
End boot_heap_proof.

(** ** On a machine with 512 KB

    The page tables of the boot loader at 4 KB, its text at 0x7c00, and a
    reserved hole. *)
Definition small_mm : mmap :=
  [E820 0x20000 0x60000 1 0; E820 0 0x1fc00 1 0; E820 0x1fc00 0x400 2 0;
   E820 0x1000 0x2000 6 0; E820 0x7c00 0x7e00 7 0].

Lemma small_mm_ok : mm_ok small_mm.
Proof.
  split; [repeat constructor; vm_compute; done|].
  intros i j e f Hij He Hf. unfold small_mm in *.
  destruct i as [|[|[|[|[|i]]]]]; [..|done]; destruct j as [|[|[|[|[|j]]]]]; try done;
    simplify_eq/=; mm_lia.
Qed.
Lemma small_mm_bootable : bootable small_mm.
Proof.
  split; [apply small_mm_ok|]. split; [vm_compute; lia|]. split.
  - unfold small_mm. intros e. rewrite !elem_of_cons, elem_of_nil.
    intros [->|[->|[->|[->|[->|[]]]]]]; vm_compute; done.
  - exists 0x3000. split; [done|]. split.
    + exists 1%nat. eexists. split; [reflexivity|]. vm_compute. done.
    + intros i e He Het. unfold small_mm in He.
      destruct i as [|[|[|[|[|i]]]]]; simplify_eq/=; try done. vm_compute. by left.
Qed.

Lemma memory_init_exact_witness :
  ∃ pft_base a, memory_init sort_by_base (λ _, PFD true true) small_mm = Ret (pft_base, a) ∧
    pft_base = 0xC0003000 ∧ endp a = 0x80 ∧
    (∀ p, p mod PG_SZ = 0 →
       ¬ pfa_taken a (p / PG_SZ) ↔ page_free small_mm p ∧ ¬ (0x3000 ≤ p < 0x5000)).
Proof.
  destruct (memory_init_exact sort_by_base sort_by_base_perm sort_by_base_sorted (λ _, PFD true true)
              small_mm small_mm_bootable) as (mm' & n & e & _ & _ & H).
  destruct (memory_init sort_by_base (λ _, PFD true true) small_mm) as [[vb a]|f] eqn:Heq.
  2:{ exfalso. assert (is_ret (memory_init sort_by_base (λ _, PFD true true) small_mm) = true)
        as Hr by (vm_compute; done). by rewrite Heq in Hr. }
  destruct H as (_ & Hend & _ & _ & _ & _ & _ & Hp).
  assert ((λ r, match r with Ret (vb, a) => Some (vb, endp a) | Halt _ => None end)
    (memory_init sort_by_base (λ _, PFD true true) small_mm) = Some (0xC0003000, 0x80))
    as Hv by (vm_compute; done).
  rewrite Heq in Hv. injection Hv as -> Hend'. rewrite <- Hend, Hend' in Hp.
  exists 0xC0003000, a. split_and!; [done..|exact Hp].
Defined.

Lemma boot_heap_serves_witness :
  ∃ pft_base h blocks h',
    boot_heap sort_by_base (λ _, PFD true true) (small_mm ++ replicate 2 e820_null)
      = Ret (pft_base, h) ∧
    kmalloc_all (FA := boot_allocator) [100; 5000; 8] [] h = Ret (blocks, h') ∧
    ForallOrdPairs block_disjoint blocks ∧ (length blocks = 3)%nat.
Proof.
  pose proof (boot_heap_serves sort_by_base sort_by_base_perm sort_by_base_sorted
    (λ _, PFD true true) small_mm 1 [100; 5000; 8] small_mm_bootable) as H.
  assert (Hlen : (λ r, match r with
     | Ret (_, h) => match kmalloc_all (FA := boot_allocator) [100; 5000; 8] [] h with
                     | Ret (bs, _) => length bs | Halt _ => O end
     | Halt _ => O end)
    (boot_heap sort_by_base (λ _, PFD true true) (small_mm ++ replicate 2 e820_null)) = 3%nat)
    by (vm_compute; reflexivity).
  destruct (boot_heap sort_by_base _ _) as [[vb h]|f]; [|discriminate Hlen].
  destruct H as (a & blocks & h' & _ & Heq & Hd & _).
  - repeat constructor.
  - unfold small_mm. intros x. rewrite !elem_of_cons, elem_of_nil.
    intros [->|[->|[->|[->|[->|[]]]]]]; vm_compute; done.
  - repeat constructor; lia.
  - rewrite Heq in Hlen. by exists vb, h, blocks, h'.
Defined.

(** The size of the table is computed at 32 bits: with 256 GB of memory
    the table of 2^26 descriptors is given no room at all. *)
Example pft_size_wraps :
  alloc_pft [E820 0 (2 ^ 38) 1 0] = Ret (hhdm_start, 2 ^ 26, [E820 0 (2 ^ 38) 1 0]).
Proof. vm_compute. done. Qed.

(** The allocator manages all of memory but the heap needs frames of the
    direct map: with the frames below its end taken, a request for memory
    that the allocator can satisfy fails an assertion instead of returning
    [nullptr]. *)
Example kmalloc_above_hhdm a a' pf :
  alloc 1 a = Ret (Some pf, a') → hhdm_len ≤ pf →
  kmalloc (FA := boot_allocator) 8 (KHeap 0 (Some a)) = Halt AssertFail.
Proof.
  intros Ha Hpf. unfold kmalloc, new_arena, direct_to_hhdm. munfold. cbn [pfa arena Z.eqb orb].
  change (u32 (ceil_pow2 PG_SZ 8 / PG_SZ)) with 1. cbn [fa_alloc boot_allocator simple_pfa_allocator].
  rewrite Ha. by replace (pf <? hhdm_len) with false by lia.
Qed.
