(* ===== verification/NodeHashMap.v ===== *)
(** * [nonstd::node_hash_map]

    Models [nonstd/node_hash_map.h].  All nodes live in one list; the
    nodes of a bucket are contiguous in it and the bucket array holds an
    iterator to the first of them.  A list node is identified by a number
    that it keeps while it is moved between lists ([nonstd::list]
    guarantees iterator stability), an iterator is such a number or the
    end of the list, and a default-constructed iterator is [None].

    The key type, its equality and its hash are the template's
    parameters. *)
From S2P Require Import Prelude.

Inductive iter := It (id : nat) | End.

#[export] Instance iter_eq_dec : EqDecision iter.
Proof. solve_decision. Defined.

Record node (K V : Type) := Node { nid : nat; nhash : Z; nkey : K; nval : V }.
Arguments Node {K V} nid nhash nkey nval.
Arguments nid {K V} _.
Arguments nhash {K V} _.
Arguments nkey {K V} _.
Arguments nval {K V} _.

Record hmap (K V : Type) := HMap {
  bucket_count : Z;
  buckets : list (option iter);
  data : list (node K V);
  fresh : nat }.
Arguments HMap {K V} bucket_count buckets data fresh.
Arguments bucket_count {K V} _.
Arguments buckets {K V} _.
Arguments data {K V} _.
Arguments fresh {K V} _.

Section node_hash_map.
Context {K V : Type} `{EqDecision K} (hash : K → Z).
Implicit Types (m : hmap K V) (d : list (node K V)).

(** ** The list operations *)
Definition begin d : iter := match d with [] => End | n :: _ => It (nid n) end.

(** The nodes from an iterator on. *)
Fixpoint seek (id : nat) d : outcome (list (node K V)) :=
  match d with
  | [] => Halt BadAccess
  | n :: d' => if (nid n =? id)%nat then Ret d else seek id d'
  end.
Definition from_iter (it : iter) d : outcome (list (node K V)) :=
  match it with End => Ret [] | It id => seek id d end.

(** [emplace(pos, n)] and [splice(pos, other, n)]: [n] goes before
    [pos]. *)
Fixpoint link_before (id : nat) (n : node K V) d : outcome (list (node K V)) :=
  match d with
  | [] => Halt BadAccess
  | x :: d' =>
    if (nid x =? id)%nat then Ret (n :: d) else r ← link_before id n d'; Ret (x :: r)
  end.
Definition list_emplace (pos : iter) (n : node K V) d : outcome (list (node K V)) :=
  match pos with End => Ret (d ++ [n]) | It id => link_before id n d end.

(** [erase(pos)], with the iterator to the next node. *)
Fixpoint list_erase (id : nat) d : outcome (list (node K V) * iter) :=
  match d with
  | [] => Halt BadAccess
  | x :: d' =>
    if (nid x =? id)%nat then Ret (d', begin d')
    else '(r, it) ← list_erase id d'; Ret (x :: r, it)
  end.

(** Assignment of [it->val.second]. *)
Definition set_val (id : nat) (v : V) d : list (node K V) :=
  (λ n, if (nid n =? id)%nat then Node (nid n) (nhash n) (nkey n) v else n) <$> d.

(** ** Buckets *)
Definition get_bucket (count h : Z) : Z := h mod count.

(** [same_bucket(it, bucket)], [l] being the nodes from [it] on. *)
Definition same_bucket (count : Z) (l : list (node K V)) (bucket : Z) : bool :=
  match l with [] => false | n :: _ => get_bucket count (nhash n) =? bucket end.

(** [for (it = bucket; same_bucket(it, idx); ++it)] looking for [key]. *)
Fixpoint scan (count idx : Z) (key : K) (l : list (node K V)) : option (node K V) :=
  match l with
  | [] => None
  | n :: l' =>
    if get_bucket count (nhash n) =? idx
    then if decide (nkey n = key) then Some n else scan count idx key l'
    else None
  end.

Definition candidates : list Z :=
  [17; 37; 79; 163; 331; 673; 1361; 2729; 5471; 10949; 21911; 43853; 87719; 175447;
   350899; 701819; 1403641; 2807303; 5614657; 11229331; 22458671; 44917381; 89834777;
   179669557; 359339171; 718678369; 1437356741; 2874713497].

Definition next_bucket_count (min_buckets : Z) : outcome Z :=
  match List.find (λ c, min_buckets <=? c) candidates with
  | Some c => Ret c
  | None => Halt AssertFail
  end.

(** The constructor. *)
Definition node_hash_map (count : Z) : outcome (hmap K V) :=
  c ← next_bucket_count count; Ret (HMap c (replicate (Z.to_nat c) None) [] 0).

Definition read_bucket m (idx : Z) : outcome (option iter) :=
  deref (buckets m !! Z.to_nat idx).

(** The common tail of [emplace], [try_emplace] and the body of
    [rehash]'s loop: link [n] into its bucket. *)
Definition link_node (count : Z) (bs : list (option iter)) d (n : node K V)
    : outcome (list (option iter) * list (node K V)) :=
  let idx := get_bucket count (nhash n) in
  b ← deref (bs !! Z.to_nat idx);
  let pos := match b with None => begin d | Some it => it end in
  d ← list_emplace pos n d;
  Ret (<[Z.to_nat idx := Some (It (nid n))]> bs, d).

Fixpoint rehash_loop (count : Z) (bs : list (option iter)) d (old : list (node K V))
    : outcome (list (option iter) * list (node K V)) :=
  match old with
  | [] => Ret (bs, d)
  | n :: old => '(bs, d) ← link_node count bs d n; rehash_loop count bs d old
  end.

Definition rehash (count : Z) m : outcome (hmap K V) :=
  if count <=? bucket_count m then Ret m
  else
    tmp ← node_hash_map count;
    '(bs, d) ← rehash_loop (bucket_count tmp) (buckets tmp) [] (data m);
    Ret (HMap (bucket_count tmp) bs d (fresh m)).

(** [bucket = _data.emplace(bucket, node); rehash(size());] *)
Definition insert_node (n : node K V) m : outcome (hmap K V) :=
  '(bs, d) ← link_node (bucket_count m) (buckets m) (data m) n;
  rehash (zlen d) (HMap (bucket_count m) bs d (S (fresh m))).

Definition size m : Z := zlen (data m).
Definition empty m : bool := match data m with [] => true | _ => false end.

(** [find]: the node, or the end iterator. *)
Definition find (key : K) m : outcome (option (node K V)) :=
  let idx := get_bucket (bucket_count m) (hash key) in
  b ← read_bucket m idx;
  match b with
  | None => Ret None
  | Some it => l ← from_iter it (data m); Ret (scan (bucket_count m) idx key l)
  end.

(** [insert]/[emplace] of [(key, val)]: assigns when the key exists. *)
Definition emplace (key : K) (val : V) m : outcome (hmap K V * nat * bool) :=
  let n := Node (fresh m) (hash key) key val in
  let idx := get_bucket (bucket_count m) (hash key) in
  b ← read_bucket m idx;
  l ← match b with None => Ret [] | Some it => from_iter it (data m) end;
  match scan (bucket_count m) idx key l with
  | Some x =>
    Ret (HMap (bucket_count m) (buckets m) (set_val (nid x) val (data m)) (fresh m), nid x, false)
  | None =>
    m ← insert_node n m; Ret (m, nid n, true)
  end.

(** [try_emplace]: leaves an existing key alone. *)
Definition try_emplace (key : K) (val : V) m : outcome (hmap K V * nat * bool) :=
  let n := Node (fresh m) (hash key) key val in
  let idx := get_bucket (bucket_count m) (hash key) in
  b ← read_bucket m idx;
  l ← match b with None => Ret [] | Some it => from_iter it (data m) end;
  match scan (bucket_count m) idx key l with
  | Some x => Ret (m, nid x, false)
  | None =>
    m ← insert_node n m; Ret (m, nid n, true)
  end.

(** [erase(pos)]. *)
Definition erase (pos : nat) m : outcome (hmap K V * iter) :=
  l ← seek pos (data m);
  n ← deref (head l);
  let idx := get_bucket (bucket_count m) (nhash n) in
  b ← read_bucket m idx;
  _ ← assert_ (bool_decide (b ≠ None));
  bs ← (if decide (b = Some (It pos)) then
          let next := tail l in
          if same_bucket (bucket_count m) next idx
          then Ret (<[Z.to_nat idx := Some (begin next)]> (buckets m))
          else Ret (<[Z.to_nat idx := None]> (buckets m))
        else Ret (buckets m));
  '(d, it) ← list_erase pos (data m);
  Ret (HMap (bucket_count m) bs d (fresh m), it).

(** [erase(key)]. *)
Definition erase_key (key : K) m : outcome (hmap K V * iter) :=
  r ← find key m;
  match r with
  | Some n => erase (nid n) m
  | None => Ret (m, End)
  end.

Definition at_ (key : K) m : outcome V :=
  r ← find key m;
  match r with Some n => Ret (nval n) | None => Halt AssertFail end.

Definition contains (key : K) m : outcome bool :=
  r ← find key m; Ret (match r with Some _ => true | None => false end).
Definition count (key : K) m : outcome Z :=
  b ← contains key m; Ret (if (b : bool) then 1 else 0).

(** [clear]: [for (it = begin(); it != end(); it = erase(it))]. *)
Fixpoint clear_loop (fuel : nat) (it : iter) m : outcome (hmap K V) :=
  match fuel with
  | O => Halt OutOfFuel
  | S fuel =>
    match it with
    | End => Ret m
    | It id => '(m, it) ← erase id m; clear_loop fuel it m
    end
  end.
Definition clear m : outcome (hmap K V) :=
  clear_loop (S (length (data m))) (begin (data m)) m.

(** ** Invariant *)
Definition bk (count : Z) (n : node K V) : Z := get_bucket count (nhash n).

(** The nodes of bucket [idx] form one block of [d], which starts at the
    node the bucket designates. *)
Definition bucket_block (count idx : Z) (b : option iter) d : Prop :=
  match b with
  | None => Forall (λ n, bk count n ≠ idx) d
  | Some End => False
  | Some (It id) => ∃ pre n grp post, d = pre ++ (n :: grp) ++ post ∧ nid n = id ∧
      Forall (λ n, bk count n = idx) (n :: grp) ∧
      Forall (λ n, bk count n ≠ idx) pre ∧ Forall (λ n, bk count n ≠ idx) post
  end.

Definition grouped (count : Z) (bs : list (option iter)) d : Prop :=
  zlen bs = count ∧ 0 < count ∧
  ∀ i b, bs !! i = Some b → bucket_block count (Z.of_nat i) b d.

Record hmap_ok m : Prop := HmapOk {
  ok_grouped : grouped (bucket_count m) (buckets m) (data m);
  ok_ids : NoDup (nid <$> data m);
  ok_fresh : Forall (λ n, (nid n < fresh m)%nat) (data m);
  ok_keys : NoDup (nkey <$> data m);
  ok_hash : Forall (λ n, nhash n = hash (nkey n)) (data m) }.
End node_hash_map.

(** ** Positions in the list *)
Section lists.
Context {K V : Type}.
Implicit Types (d : list (node K V)) (n : node K V).

Lemma ids_app_inv p n q :
  NoDup (nid <$> p ++ n :: q) → Forall (λ x, nid x ≠ nid n) p ∧ Forall (λ x, nid x ≠ nid n) q.
Proof.
  rewrite fmap_app, fmap_cons. intros (_ & Hd & [Hn _]%NoDup_cons)%NoDup_app. split.
  - apply Forall_forall. intros x Hx Heq. apply (Hd (nid x)); [by apply list_elem_of_fmap_2|].
    rewrite Heq. set_solver.
  - apply Forall_forall. intros x Hx Heq. apply Hn. rewrite <- Heq. by apply list_elem_of_fmap_2.
Qed.

Lemma seek_app p n q : Forall (λ x, nid x ≠ nid n) p → seek (nid n) (p ++ n :: q) = Ret (n :: q).
Proof.
  induction 1 as [|x p Hx _ IH]; simpl.
  - by rewrite Nat.eqb_refl.
  - by rewrite (proj2 (Nat.eqb_neq _ _)).
Qed.

Lemma link_before_app p x q n :
  Forall (λ y, nid y ≠ nid x) p → link_before (nid x) n (p ++ x :: q) = Ret (p ++ n :: x :: q).
Proof.
  induction 1 as [|y p Hy _ IH]; simpl.
  - by rewrite Nat.eqb_refl.
  - rewrite (proj2 (Nat.eqb_neq _ _)) by done. by rewrite IH.
Qed.

Lemma list_erase_app p n q :
  Forall (λ y, nid y ≠ nid n) p → list_erase (nid n) (p ++ n :: q) = Ret (p ++ q, begin q).
Proof.
  induction 1 as [|y p Hy _ IH]; simpl.
  - by rewrite Nat.eqb_refl.
  - rewrite (proj2 (Nat.eqb_neq _ _)) by done. by rewrite IH.
Qed.

Lemma set_val_app p n q v :
  Forall (λ x, nid x ≠ nid n) p → Forall (λ x, nid x ≠ nid n) q →
  set_val (nid n) v (p ++ n :: q) = p ++ Node (nid n) (nhash n) (nkey n) v :: q.
Proof.
  intros Hp Hq. unfold set_val. rewrite fmap_app, fmap_cons, Nat.eqb_refl.
  assert (Hid : ∀ l, Forall (λ x, nid x ≠ nid n) l →
    (λ x : node K V, if (nid x =? nid n)%nat then Node (nid x) (nhash x) (nkey x) v else x) <$> l = l).
  { induction 1 as [|x l Hx _ IH]; [done|]. rewrite fmap_cons, IH.
    by rewrite (proj2 (Nat.eqb_neq _ _)). }
  by rewrite !Hid.
Qed.

(** Where an element of a three-part list sits. *)
Lemma split3 {A} (p : list A) (x : A) q pre G post :
  p ++ x :: q = pre ++ G ++ post →
  (∃ r, pre = p ++ x :: r ∧ q = r ++ G ++ post) ∨
  (∃ g1 g2, G = g1 ++ x :: g2 ∧ p = pre ++ g1 ∧ q = g2 ++ post) ∨
  (∃ r, p = pre ++ G ++ r ∧ post = r ++ x :: q).
Proof.
  intros [(k & -> & Hk)|(k & -> & Hk)]%app_eq_inv.
  - symmetry in Hk. apply app_eq_inv in Hk as [(k' & -> & Hk')|(k' & -> & Hk')].
    + right. right. exists k'. done.
    + destruct k' as [|y k']; simpl in Hk'.
      * right. right. exists []. subst. by rewrite !app_nil_r.
      * injection Hk' as <- ->. right. left. by exists k, k'.
  - destruct k as [|y k]; simpl in Hk.
    + rewrite app_nil_r. symmetry in Hk. destruct G as [|y G]; simpl in Hk.
      * right. right. exists []. by rewrite !app_nil_r.
      * injection Hk as -> <-. right. left. exists [], G. by rewrite app_nil_r.
    + injection Hk as <- ->. left. by exists k.
Qed.
End lists.

(** ** Linking and unlinking keep the blocks *)
Section blocks.
Context {K V : Type}.
Implicit Types (d : list (node K V)) (n : node K V).

Lemma bk_lookup count (bs : list (option iter)) n :
  zlen bs = count → 0 < count → ∃ b, bs !! Z.to_nat (bk count n) = Some b ∧
  Z.of_nat (Z.to_nat (bk count n)) = bk count n.
Proof.
  intros Hl Hc. pose proof (Z.mod_pos_bound (nhash n) count Hc). unfold bk, get_bucket.
  destruct (lookup_lt_is_Some_2 bs (Z.to_nat (nhash n mod count))) as [b Hb]; [lia|].
  exists b. split; [done|lia].
Qed.

(** Inserting a node of another bucket in front of the list or in front
    of a node of its own bucket does not cut a block. *)
Lemma block_insert_other count idx b p q n :
  bucket_block count idx b (p ++ q) → bk count n ≠ idx →
  p = [] ∨ (∃ x q', q = x :: q' ∧ bk count x ≠ idx) →
  bucket_block count idx b (p ++ n :: q).
Proof.
  intros Hb Hn Hpos. destruct b as [[id|]|]; simpl in *; [|done|].
  - destruct Hb as (pre & x & grp & post & Heq & Hid & Hg & Hpre & Hpost).
    destruct Hpos as [->|(y & q' & -> & Hy)]; simpl in *.
    + exists (n :: pre), x, grp, post. subst. split_and!; [done..|by constructor|done].
    + apply (split3 p y q' pre (x :: grp) post) in Heq as
        [(r & -> & ->)|[(g1 & g2 & HG & -> & ->)|(r & -> & ->)]].
      * exists (p ++ n :: y :: r), x, grp, post. split_and!; [by rewrite <- app_assoc|done..| |done].
        apply Forall_app in Hpre as [? ?]. apply Forall_app. split; [done|by constructor].
      * rewrite HG in Hg. apply Forall_app in Hg as [_ Hg]. by apply Forall_cons in Hg as [? _].
      * exists pre, x, grp, (r ++ n :: y :: q'). split_and!; [by rewrite <- !app_assoc|done..|].
        apply Forall_app in Hpost as [? ?]. apply Forall_app. split; [done|by constructor].
  - apply Forall_app in Hb as [? ?]. apply Forall_app. split; [done|by constructor].
Qed.

Lemma link_node_spec count bs d n :
  grouped count bs d → NoDup (nid <$> d) →
  ∃ p q, link_node count bs d n =
           Ret (<[Z.to_nat (bk count n) := Some (It (nid n))]> bs, p ++ n :: q) ∧
    d = p ++ q ∧ grouped count (<[Z.to_nat (bk count n) := Some (It (nid n))]> bs) (p ++ n :: q).
Proof.
  intros (Hlen & Hc & Hg) Hnd. destruct (bk_lookup count bs n Hlen Hc) as (b & Hb & Hbk).
  assert (Hp : ∃ p q, link_node count bs d n =
    Ret (<[Z.to_nat (bk count n) := Some (It (nid n))]> bs, p ++ n :: q) ∧ d = p ++ q ∧
    bucket_block count (bk count n) (Some (It (nid n))) (p ++ n :: q) ∧
    (p = [] ∨ ∃ x q', q = x :: q' ∧ bk count x = bk count n)).
  { unfold link_node. change (get_bucket count (nhash n)) with (bk count n). rewrite Hb. munfold.
    specialize (Hg _ _ Hb). rewrite Hbk in Hg. destruct b as [[id|]|]; simpl in Hg; [|done|].
    - destruct Hg as (pre & x & grp & post & -> & <- & Hgrp & Hpre & Hpost).
      simpl app in *. destruct (ids_app_inv _ _ _ Hnd) as [Hp _]. cbn [list_emplace].
      rewrite link_before_app by done. exists pre, (x :: grp ++ post). split_and!; [done..| |].
      + exists pre, n, (x :: grp), post. split_and!; [done..|by constructor|done|done].
      + right. exists x, (grp ++ post). split; [done|]. by apply Forall_cons in Hgrp as [? _].
    - exists [], d. split_and!; [destruct d; simpl; rewrite ?Nat.eqb_refl; done|done| |by left].
      exists [], n, [], d. split_and!; [done..|by repeat constructor|constructor|done]. }
  destruct Hp as (p & q & Heq & -> & Hblock & Hpos). exists p, q. split_and!; [done..|].
  split_and!; [by rewrite length_insert|done|]. intros i b' Hi.
  apply list_lookup_insert_Some in Hi as [(<- & <- & _)|[Hne Hi]]; [by rewrite Hbk|].
  apply block_insert_other; [by apply Hg|lia|].
  destruct Hpos as [->|(x & q' & -> & Hx)]; [by left|right]. exists x, q'. split; [done|lia].
Qed.

(** Removing a node of another bucket. *)
Lemma block_remove_other count idx b p n q :
  bucket_block count idx b (p ++ n :: q) → bk count n ≠ idx → bucket_block count idx b (p ++ q).
Proof.
  intros Hb Hn. destruct b as [[id|]|]; simpl in *; [|done|].
  - destruct Hb as (pre & x & grp & post & Heq & Hid & Hg & Hpre & Hpost).
    apply (split3 p n q pre (x :: grp) post) in Heq as
        [(r & -> & ->)|[(g1 & g2 & HG & -> & ->)|(r & -> & ->)]].
    + exists (p ++ r), x, grp, post. split_and!; [by rewrite <- app_assoc|done..| |done].
      apply Forall_app in Hpre as [? [_ ?]%Forall_cons]. by apply Forall_app.
    + rewrite HG in Hg. apply Forall_app in Hg as [_ Hg]. by apply Forall_cons in Hg as [? _].
    + exists pre, x, grp, (r ++ q). split_and!; [by rewrite <- !app_assoc|done..|].
      apply Forall_app in Hpost as [? [_ ?]%Forall_cons]. by apply Forall_app.
  - apply Forall_app in Hb as [? [_ ?]%Forall_cons]. by apply Forall_app.
Qed.

(** The first node of a block goes: the bucket moves to the next node of
    the block or becomes empty. *)
Lemma block_remove_first count idx p n q :
  NoDup (nid <$> p ++ n :: q) → bk count n = idx →
  bucket_block count idx (Some (It (nid n))) (p ++ n :: q) →
  bucket_block count idx (if same_bucket count q idx then Some (begin q) else None) (p ++ q).
Proof.
  intros Hnd Hn (pre & x & grp & post & Heq & Hid & Hg & Hpre & Hpost).
  assert (pre = p ∧ x = n ∧ grp ++ post = q) as (-> & -> & <-).
  { pose proof (seek_app p n q (proj1 (ids_app_inv _ _ _ Hnd))) as H1.
    rewrite Heq in Hnd. simpl app in Hnd.
    pose proof (seek_app pre x (grp ++ post) (proj1 (ids_app_inv _ _ _ Hnd))) as H2.
    rewrite Heq in H1. simpl app in H1. rewrite Hid, H1 in H2. injection H2 as -> ->.
    split_and!; [|done..]. by apply app_inv_tail in Heq. }
  apply Forall_cons in Hg as [_ Hg]. destruct grp as [|y grp]; simpl.
  - assert (same_bucket count post idx = false) as ->.
    { destruct post as [|y post]; [done|]. apply Forall_cons in Hpost as [Hy _].
      simpl. unfold bk in Hy. by apply Z.eqb_neq. }
    by apply Forall_app.
  - pose proof Hg as [Hy _]%Forall_cons. unfold bk in Hy. rewrite Hy, Z.eqb_refl.
    by exists p, y, grp, post.
Qed.

Lemma block_remove_later count idx id p n q :
  id ≠ nid n → bk count n = idx →
  bucket_block count idx (Some (It id)) (p ++ n :: q) →
  bucket_block count idx (Some (It id)) (p ++ q).
Proof.
  intros Hid Hn (pre & x & grp & post & Heq & <- & Hg & Hpre & Hpost).
  apply (split3 p n q pre (x :: grp) post) in Heq as
        [(r & -> & ->)|[(g1 & g2 & HG & -> & ->)|(r & -> & ->)]].
  - apply Forall_app in Hpre as [_ Hpre]. by apply Forall_cons in Hpre as [? _].
  - destruct g1 as [|y g1]; simpl in HG; [by injection HG as -> ->|]. injection HG as <- ->.
    exists pre, x, (g1 ++ g2), post. split_and!; [by simpl; rewrite <- !app_assoc|done| |done|done].
    apply Forall_cons in Hg as [? [? [_ ?]%Forall_cons]%Forall_app]. constructor; [done|].
    by apply Forall_app.
  - apply Forall_app in Hpost as [_ Hpost]. by apply Forall_cons in Hpost as [? _].
Qed.
End blocks.

(** ** The operations implement a finite map *)
Section map.
Context {K V : Type} `{Countable K} (hash : K → Z).
Implicit Types (m : hmap K V) (d : list (node K V)) (n : node K V).

Definition map_of d : gmap K V := list_to_map ((λ n, (nkey n, nval n)) <$> d).

Lemma map_keys d : ((λ n, (nkey n, nval n)) <$> d).*1 = nkey <$> d.
Proof. rewrite <- list_fmap_compose. by apply list_fmap_ext. Qed.

Lemma map_of_middle p n q :
  NoDup (nkey <$> p ++ n :: q) → map_of (p ++ n :: q) = <[nkey n := nval n]> (map_of (p ++ q)).
Proof.
  intros Hnd. unfold map_of. rewrite (list_to_map_proper _ ((λ n, (nkey n, nval n)) <$> n :: p ++ q)).
  - done.
  - by rewrite map_keys.
  - by rewrite Permutation_middle.
Qed.

Lemma map_of_lookup d n : NoDup (nkey <$> d) → n ∈ d → map_of d !! nkey n = Some (nval n).
Proof.
  intros Hnd (p & q & ->)%list_elem_of_split. rewrite map_of_middle by done.
  apply lookup_insert_eq.
Qed.

Lemma map_of_lookup_None d k : map_of d !! k = None ↔ ∀ n, n ∈ d → nkey n ≠ k.
Proof.
  unfold map_of. rewrite <- not_elem_of_list_to_map, map_keys, list_elem_of_fmap. naive_solver.
Qed.

Lemma map_of_remove p n q :
  NoDup (nkey <$> p ++ n :: q) → map_of (p ++ q) = delete (nkey n) (map_of (p ++ n :: q)).
Proof.
  intros Hnd. rewrite map_of_middle, delete_insert_id; [done| |done].
  apply map_of_lookup_None. intros x Hx Heq.
  rewrite <- Permutation_middle, fmap_cons in Hnd. apply NoDup_cons in Hnd as [Hn _].
  apply Hn. rewrite <- Heq. by apply list_elem_of_fmap_2.
Qed.

Lemma scan_spec count idx key (grp post : list (node K V)) :
  Forall (λ n, bk count n = idx) grp → Forall (λ n, bk count n ≠ idx) post →
  match scan count idx key (grp ++ post) with
  | Some n => n ∈ grp ∧ nkey n = key
  | None => ∀ n, n ∈ grp → nkey n ≠ key
  end.
Proof.
  intros Hg Hp. induction Hg as [|n grp Hn Hg IH]; simpl.
  - destruct post as [|n post]; simpl; [set_solver|]. apply Forall_cons in Hp as [Hn _].
    unfold bk in Hn. rewrite (proj2 (Z.eqb_neq _ _)) by done. set_solver.
  - unfold bk in Hn. rewrite Hn, Z.eqb_refl. case_decide; [set_solver|].
    destruct (scan count idx key (grp ++ post)); set_solver.
Qed.

(** The search that [find], [emplace] and [try_emplace] share. *)
Lemma search_spec m key :
  hmap_ok hash m →
  ∃ b l, read_bucket m (get_bucket (bucket_count m) (hash key)) = Ret b ∧
    match b with None => Ret [] | Some it => from_iter it (data m) end = Ret l ∧
    match scan (bucket_count m) (get_bucket (bucket_count m) (hash key)) key l with
    | Some n => n ∈ data m ∧ nkey n = key
    | None => ∀ n, n ∈ data m → nkey n ≠ key
    end.
Proof.
  intros [(Hlen & Hc & Hg) Hids _ Hkeys Hhash].
  set (idx := get_bucket (bucket_count m) (hash key)).
  pose proof (Z.mod_pos_bound (hash key) (bucket_count m) Hc) as Hidx.
  change (hash key mod bucket_count m) with idx in Hidx.
  destruct (lookup_lt_is_Some_2 (buckets m) (Z.to_nat idx)) as [b Hb]; [lia|].
  assert (Hother : ∀ n, n ∈ data m → bk (bucket_count m) n ≠ idx → nkey n ≠ key).
  { intros n Hn Hne Heq. apply Hne. rewrite Forall_forall in Hhash. unfold bk, idx.
    by rewrite (Hhash n Hn), Heq. }
  exists b. unfold read_bucket. rewrite Hb. specialize (Hg _ _ Hb).
  rewrite Z2Nat.id in Hg by lia. destruct b as [[id|]|]; simpl in Hg; [|done|].
  - destruct Hg as (pre & n & grp & post & Heq & <- & Hgrp & Hpre & Hpost).
    exists ((n :: grp) ++ post). split; [done|]. split.
    { rewrite Heq in *. simpl. apply seek_app. apply (ids_app_inv _ _ _ Hids). }
    pose proof (scan_spec (bucket_count m) idx key (n :: grp) post Hgrp Hpost) as Hscan.
    change (n :: grp ++ post) with ((n :: grp) ++ post) in Heq.
    destruct (scan _ _ _ _) as [x|]; rewrite Heq; [set_solver|].
    rewrite Forall_forall in Hpre, Hpost.
    intros x [Hx|[Hx|Hx]%elem_of_app]%elem_of_app; [|by apply Hscan|];
      (apply Hother; [rewrite Heq; set_solver|auto]).
  - exists []. split_and!; [done..|]. simpl. rewrite Forall_forall in Hg. auto.
Qed.

Lemma find_spec m key :
  hmap_ok hash m →
  ∃ r, find hash key m = Ret r ∧
    match r with
    | Some n => n ∈ data m ∧ nkey n = key
    | None => ∀ n, n ∈ data m → nkey n ≠ key
    end.
Proof.
  intros Hok. destruct (search_spec m key Hok) as (b & l & Hb & Hl & Hscan).
  unfold find. rewrite Hb. munfold. destruct b as [it|].
  - rewrite Hl. eauto.
  - injection Hl as <-. eauto.
Qed.

Lemma hmap_ok_link m n p q bs :
  hmap_ok hash m → data m = p ++ q → nid n = fresh m → nhash n = hash (nkey n) →
  (∀ x, x ∈ data m → nkey x ≠ nkey n) → grouped (bucket_count m) bs (p ++ n :: q) →
  hmap_ok hash (HMap (bucket_count m) bs (p ++ n :: q) (S (fresh m))).
Proof.
  intros [_ Hids Hfr Hkeys Hhash] Heq Hid Hh Hnew Hg. rewrite Heq in *.
  constructor; simpl; [done|..].
  - rewrite <- Permutation_middle, fmap_cons. constructor; [|done].
    intros (x & Hx & Hxin)%list_elem_of_fmap. rewrite Forall_forall in Hfr.
    specialize (Hfr x Hxin). lia.
  - rewrite <- Permutation_middle. constructor; [lia|].
    eapply Forall_impl; [exact Hfr|]. simpl. lia.
  - rewrite <- Permutation_middle, fmap_cons. constructor; [|done].
    intros (x & Hx & Hxin)%list_elem_of_fmap. by apply (Hnew x).
  - rewrite <- Permutation_middle. by constructor.
Qed.

(** [rehash] keeps the nodes (and so every iterator) and their groups. *)
Lemma rehash_loop_spec count bs d (old : list (node K V)) :
  grouped count bs d → NoDup (nid <$> d ++ old) →
  ∃ bs' d', rehash_loop count bs d old = Ret (bs', d') ∧ grouped count bs' d' ∧ d' ≡ₚ d ++ old.
Proof.
  revert bs d. induction old as [|n old IH]; intros bs d Hg Hnd; cbn [rehash_loop].
  - exists bs, d. by rewrite app_nil_r.
  - destruct (link_node_spec count bs d n Hg) as (p & q & -> & -> & Hg').
    { rewrite fmap_app in Hnd. by apply NoDup_app in Hnd as (? & _). }
    munfold. destruct (IH _ _ Hg') as (bs' & d' & -> & Hg'' & Hperm).
    { rewrite <- Permutation_middle. by rewrite <- Permutation_middle in Hnd. }
    exists bs', d'. split_and!; [done..|]. rewrite Hperm. by rewrite <- !Permutation_middle.
Qed.

Lemma next_bucket_count_spec min :
  min ≤ 2874713497 → ∃ c, next_bucket_count min = Ret c ∧ min ≤ c ∧ 0 < c.
Proof.
  intros Hn. unfold next_bucket_count.
  destruct (List.find (λ c, min <=? c) candidates) as [c|] eqn:Hf.
  - apply List.find_some in Hf as [Hin Hc]. exists c. split; [done|]. split; [lia|].
    clear -Hin. revert c Hin. apply List.Forall_forall. unfold candidates. repeat constructor.
  - exfalso. assert (Hin : In 2874713497 candidates) by (unfold candidates; simpl; tauto).
    pose proof (List.find_none _ _ Hf _ Hin). simpl in *. lia.
Qed.

Lemma grouped_empty c : 0 < c → grouped (K := K) (V := V) c (replicate (Z.to_nat c) None) [].
Proof.
  intros Hc. split_and!; [rewrite length_replicate; lia|done|].
  intros i b [-> _]%lookup_replicate. constructor.
Qed.

Lemma rehash_spec m cnt :
  hmap_ok hash m → cnt ≤ 2874713497 →
  ∃ m', rehash cnt m = Ret m' ∧ hmap_ok hash m' ∧ data m' ≡ₚ data m ∧ fresh m' = fresh m ∧
        cnt ≤ bucket_count m'.
Proof.
  intros Hok Hn. unfold rehash. destruct (Z.leb_spec cnt (bucket_count m)); [by exists m|].
  unfold node_hash_map. destruct (next_bucket_count_spec cnt Hn) as (c & -> & Hc & Hc0). munfold.
  destruct Hok as [_ Hids Hfr Hkeys Hhash].
  destruct (rehash_loop_spec c (replicate (Z.to_nat c) None) [] (data m))
    as (bs & d & Heq & Hg & Hperm); [by apply grouped_empty|done|].
  simpl in Hperm. cbn [bucket_count buckets]. rewrite Heq. eexists. split; [done|]. split; [|done].
  constructor; simpl; [done|by rewrite Hperm..].
Qed.

(** One insertion of a new key. *)
Lemma insert_new m key val :
  hmap_ok hash m → zlen (data m) < 2874713497 → (∀ n, n ∈ data m → nkey n ≠ key) →
  ∃ m', insert_node (Node (fresh m) (hash key) key val) m = Ret m' ∧
    hmap_ok hash m' ∧ data m' ≡ₚ Node (fresh m) (hash key) key val :: data m ∧
    size m' ≤ bucket_count m'.
Proof.
  intros Hok Hsz Hnew. pose proof Hok as [Hg Hids _ _ _]. unfold insert_node.
  destruct (link_node_spec _ _ _ (Node (fresh m) (hash key) key val) Hg Hids)
    as (p & q & -> & Heq & Hg'). munfold.
  pose proof (hmap_ok_link m (Node (fresh m) (hash key) key val) p q _ Hok Heq eq_refl eq_refl Hnew Hg')
    as Hok'.
  destruct (rehash_spec _ (zlen (p ++ Node (fresh m) (hash key) key val :: q)) Hok')
    as (m' & -> & Hok'' & Hperm & _ & Hle).
  { rewrite Heq in Hsz. rewrite length_app in *. simpl. lia. }
  exists m'. split_and!; [done..| |].
  - rewrite Hperm. simpl. by rewrite <- Permutation_middle, Heq.
  - unfold size. by rewrite Hperm.
Qed.

Lemma map_of_perm d d' : NoDup (nkey <$> d) → d' ≡ₚ d → map_of d' = map_of d.
Proof.
  intros Hnd Hp. symmetry. apply list_to_map_proper; [by rewrite map_keys|by rewrite Hp].
Qed.

Lemma map_of_cons n d : map_of (n :: d) = <[nkey n := nval n]> (map_of d).
Proof. done. Qed.

Lemma try_emplace_spec m key val :
  hmap_ok hash m → zlen (data m) < 2874713497 →
  ∃ m' id, try_emplace hash key val m = Ret (m', id, bool_decide (map_of (data m) !! key = None)) ∧
    hmap_ok hash m' ∧
    map_of (data m') = (if decide (map_of (data m) !! key = None)
                        then <[key := val]> (map_of (data m)) else map_of (data m)).
Proof.
  intros Hok Hsz. destruct (search_spec m key Hok) as (b & l & Hb & Hl & Hscan).
  unfold try_emplace. rewrite Hb. munfold. rewrite Hl. destruct (scan _ _ _ _) as [n|].
  - destruct Hscan as [Hin <-]. pose proof (map_of_lookup _ _ (ok_keys _ _ Hok) Hin) as Hlk.
    rewrite Hlk. exists m, (nid n). split_and!; done.
  - rewrite (proj2 (map_of_lookup_None _ _) Hscan).
    destruct (insert_new m key val Hok Hsz Hscan) as (m' & -> & Hok' & Hperm & _).
    exists m', (fresh m). split_and!; [done..|]. simpl.
    rewrite (map_of_perm (Node (fresh m) (hash key) key val :: data m)); [done| |done].
    rewrite fmap_cons. constructor; [|apply Hok].
    intros (x & Hx & Hxin)%list_elem_of_fmap. by apply (Hscan x).
Qed.

Lemma hmap_ok_set_val m p n q v :
  hmap_ok hash m → data m = p ++ n :: q →
  hmap_ok hash (HMap (bucket_count m) (buckets m)
                     (p ++ Node (nid n) (nhash n) (nkey n) v :: q) (fresh m)).
Proof.
  intros [Hg Hids Hfr Hkeys Hhash] Heq. set (n' := Node (nid n) (nhash n) (nkey n) v).
  set (f := λ x : node K V, if (nid x =? nid n)%nat then Node (nid x) (nhash x) (nkey x) v else x).
  rewrite Heq in *. destruct (ids_app_inv _ _ _ Hids) as [Hp Hq].
  assert (Hset : p ++ n' :: q = f <$> p ++ n :: q) by (symmetry; by apply set_val_app).
  assert (Hf : ∀ x, nid (f x) = nid x ∧ nhash (f x) = nhash x ∧ nkey (f x) = nkey x)
    by (intros x; unfold f; by destruct (_ =? _)%nat).
  constructor; simpl; rewrite Hset.
  - destruct Hg as (? & ? & Hg). split_and!; [done..|]. intros i b Hb. specialize (Hg i b Hb).
    assert (Hbk : ∀ P l, Forall (λ x, P (bk (bucket_count m) x)) l →
              Forall (λ x, P (bk (bucket_count m) x)) (f <$> l)).
    { intros P l Hl. apply Forall_fmap. eapply Forall_impl; [exact Hl|]. intros x. simpl.
      unfold bk. by destruct (Hf x) as (_ & -> & _). }
    destruct b as [[id|]|]; simpl in *; [|done|by apply (Hbk (λ z, z ≠ Z.of_nat i))].
    destruct Hg as (pre & x & grp & post & -> & <- & Hgr & Hpre & Hpost).
    exists (f <$> pre), (f x), (f <$> grp), (f <$> post).
    split_and!; [by rewrite fmap_app, fmap_cons, fmap_app|apply Hf| |by apply (Hbk (λ z, z ≠ Z.of_nat i))..].
    by apply (Hbk (λ z, z = Z.of_nat i) (x :: grp)).
  - rewrite <- list_fmap_compose. erewrite list_fmap_ext; [exact Hids|]. intros i x _. apply Hf.
  - apply Forall_fmap. eapply Forall_impl; [exact Hfr|]. intros x ?. simpl.
    by destruct (Hf x) as (-> & _).
  - rewrite <- list_fmap_compose. erewrite list_fmap_ext; [exact Hkeys|]. intros i x _. apply Hf.
  - apply Forall_fmap. eapply Forall_impl; [exact Hhash|]. intros x ?. simpl.
    by destruct (Hf x) as (_ & -> & ->).
Qed.

Lemma emplace_spec m key val :
  hmap_ok hash m → zlen (data m) < 2874713497 →
  ∃ m' id, emplace hash key val m = Ret (m', id, bool_decide (map_of (data m) !! key = None)) ∧
    hmap_ok hash m' ∧ map_of (data m') = <[key := val]> (map_of (data m)).
Proof.
  intros Hok Hsz. destruct (search_spec m key Hok) as (b & l & Hb & Hl & Hscan).
  unfold emplace. rewrite Hb. munfold. rewrite Hl. destruct (scan _ _ _ _) as [n|].
  - destruct Hscan as [Hin <-]. pose proof (map_of_lookup _ _ (ok_keys _ _ Hok) Hin) as Hlk.
    rewrite Hlk. apply list_elem_of_split in Hin as (p & q & Heq).
    pose proof (hmap_ok_set_val m p n q val Hok Heq) as Hok'.
    pose proof (ok_ids _ _ Hok) as Hids. rewrite Heq in Hids.
    destruct (ids_app_inv _ _ _ Hids) as [Hp Hq].
    eexists _, (nid n). split; [done|]. simpl. rewrite Heq, set_val_app by done. split; [done|].
    rewrite map_of_middle by apply (ok_keys _ _ Hok'). simpl.
    rewrite map_of_middle by (rewrite <- Heq; apply Hok). by rewrite insert_insert_eq.
  - rewrite (proj2 (map_of_lookup_None _ _) Hscan).
    destruct (insert_new m key val Hok Hsz Hscan) as (m' & -> & Hok' & Hperm & _).
    exists m', (fresh m). split_and!; [done..|].
    rewrite (map_of_perm (Node (fresh m) (hash key) key val :: data m)); [done| |done].
    rewrite fmap_cons. constructor; [|apply Hok].
    intros (x & Hx & Hxin)%list_elem_of_fmap. by apply (Hscan x).
Qed.

Lemma NoDup_remove_middle {A} (p : list A) x q : NoDup (p ++ x :: q) → NoDup (p ++ q).
Proof. rewrite <- Permutation_middle. by intros [_ ?]%NoDup_cons. Qed.

Lemma hmap_ok_unlink m p n q bs :
  hmap_ok hash m → data m = p ++ n :: q → grouped (bucket_count m) bs (p ++ q) →
  hmap_ok hash (HMap (bucket_count m) bs (p ++ q) (fresh m)).
Proof.
  intros [_ Hids Hfr Hkeys Hhash] Heq Hg. rewrite Heq in *.
  rewrite fmap_app, fmap_cons in Hids. rewrite fmap_app, fmap_cons in Hkeys.
  constructor; simpl; rewrite ?fmap_app; [done|..].
  - by apply NoDup_remove_middle in Hids.
  - apply Forall_app in Hfr as [? [_ ?]%Forall_cons]. by apply Forall_app.
  - by apply NoDup_remove_middle in Hkeys.
  - apply Forall_app in Hhash as [? [_ ?]%Forall_cons]. by apply Forall_app.
Qed.

Lemma erase_spec m p n q :
  hmap_ok hash m → data m = p ++ n :: q →
  ∃ m', erase (nid n) m = Ret (m', begin q) ∧ hmap_ok hash m' ∧ data m' = p ++ q.
Proof.
  intros Hok Heq. pose proof Hok as [(Hlen & Hc & Hg) Hids _ _ _]. rewrite Heq in Hids.
  destruct (ids_app_inv _ _ _ Hids) as [Hp _].
  destruct (bk_lookup (bucket_count m) (buckets m) n Hlen Hc) as (b & Hb & Hbk).
  pose proof (Hg _ _ Hb) as Hblock. rewrite Hbk, Heq in Hblock.
  assert (Hother : ∀ i b', buckets m !! i = Some b' → i ≠ Z.to_nat (bk (bucket_count m) n) →
            bucket_block (bucket_count m) (Z.of_nat i) b' (p ++ q)).
  { intros i b' Hi Hne. specialize (Hg i b' Hi). rewrite Heq in Hg.
    eapply block_remove_other; [exact Hg|lia]. }
  assert (Hins : ∀ b', bucket_block (bucket_count m) (bk (bucket_count m) n) b' (p ++ q) →
    grouped (bucket_count m) (<[Z.to_nat (bk (bucket_count m) n) := b']> (buckets m)) (p ++ q)).
  { intros b' Hb'. split_and!; [by rewrite length_insert|done|]. intros i b'' Hi.
    apply list_lookup_insert_Some in Hi as [(<- & <- & _)|[? Hi]]; [by rewrite Hbk|auto]. }
  unfold erase. rewrite Heq, seek_app by done. munfold. cbn [head tail].
  change (get_bucket (bucket_count m) (nhash n)) with (bk (bucket_count m) n).
  unfold read_bucket. rewrite Hb. destruct b as [it|].
  2:{ simpl in Hblock. apply Forall_app in Hblock as [_ Hblock].
      by apply Forall_cons in Hblock as [? _]. }
  munfold. rewrite bool_decide_true by done. rewrite list_erase_app by done.
  destruct (decide (Some it = Some (It (nid n)))) as [[= ->]|Hne].
  - pose proof (block_remove_first _ _ _ _ _ Hids eq_refl Hblock) as Hnew. apply Hins in Hnew.
    destruct (same_bucket _ q _); (eexists; split; [done|]; split; [|done]; by eapply hmap_ok_unlink).
  - eexists. split; [done|]. split; [|done]. eapply hmap_ok_unlink; [done..|].
    split_and!; [done..|]. intros i b' Hi.
    destruct (decide (i = Z.to_nat (bk (bucket_count m) n))) as [->|]; [|auto].
    simplify_eq. rewrite Hbk. destruct it as [id|]; [|done].
    eapply block_remove_later; [|done|exact Hblock]. congruence.
Qed.

Lemma erase_key_spec m key :
  hmap_ok hash m →
  ∃ m' it, erase_key hash key m = Ret (m', it) ∧ hmap_ok hash m' ∧
    map_of (data m') = delete key (map_of (data m)) ∧ (length (data m') ≤ length (data m))%nat.
Proof.
  intros Hok. unfold erase_key. destruct (find_spec m key Hok) as (r & -> & Hr). munfold.
  destruct r as [n|].
  - destruct Hr as [(p & q & Heq)%list_elem_of_split <-].
    destruct (erase_spec m p n q Hok Heq) as (m' & -> & Hok' & Hd). exists m', (begin q).
    split_and!; [done..| |rewrite Hd, Heq, !length_app; simpl; lia].
    rewrite Hd, Heq. apply map_of_remove. rewrite <- Heq. apply Hok.
  - exists m, End. split_and!; [done..| |done]. rewrite delete_id; [done|].
    by apply map_of_lookup_None.
Qed.

Lemma hm_clear_loop_spec fuel m :
  hmap_ok hash m → (length (data m) < fuel)%nat →
  ∃ m', clear_loop fuel (begin (data m)) m = Ret m' ∧ hmap_ok hash m' ∧ data m' = [].
Proof.
  revert m. induction fuel as [|fuel IH]; intros m Hok Hf; [lia|]. cbn [clear_loop].
  destruct (data m) as [|n d] eqn:Hd; simpl; [by exists m|].
  destruct (erase_spec m [] n d Hok Hd) as (m' & -> & Hok' & Hd'). munfold.
  simpl in Hd'. rewrite <- Hd'. apply IH; [done|]. rewrite Hd'. simpl in Hf. lia.
Qed.
End map.

(** ** Histories of operations *)
Inductive hop (K V : Type) :=
| HEmplace (k : K) (v : V)
| HTryEmplace (k : K) (v : V)
| HErase (k : K)
| HRehash (n : Z)
| HClear.
Arguments HEmplace {K V} k v.
Arguments HTryEmplace {K V} k v.
Arguments HErase {K V} k.
Arguments HRehash {K V} n.
Arguments HClear {K V}.

Section histories.
Context {K V : Type} `{Countable K} (hash : K → Z).

Definition run_hop (o : hop K V) (m : hmap K V) : outcome (hmap K V) :=
  match o with
  | HEmplace k v => r ← emplace hash k v m; Ret r.1.1
  | HTryEmplace k v => r ← try_emplace hash k v m; Ret r.1.1
  | HErase k => r ← erase_key hash k m; Ret r.1
  | HRehash n => rehash n m
  | HClear => clear m
  end.

Fixpoint run_hops (os : list (hop K V)) (m : hmap K V) : outcome (hmap K V) :=
  match os with
  | [] => Ret m
  | o :: os => m ← run_hop o m; run_hops os m
  end.

(** The same operations on a finite map. *)
Definition spec_hop (o : hop K V) (g : gmap K V) : gmap K V :=
  match o with
  | HEmplace k v => <[k := v]> g
  | HTryEmplace k v => match g !! k with None => <[k := v]> g | Some _ => g end
  | HErase k => delete k g
  | HRehash _ => g
  | HClear => ∅
  end.

Definition hop_ok (o : hop K V) : Prop :=
  match o with HRehash n => n ≤ 2874713497 | _ => True end.

Lemma map_of_size (m : hmap K V) : hmap_ok hash m → zlen (data m) = Z.of_nat (base.size (map_of (data m))).
Proof.
  intros Hok. f_equal. unfold map_of. rewrite map_size_list_to_map.
  - by rewrite length_fmap.
  - rewrite map_keys. apply Hok.
Qed.

Lemma run_hop_spec o (m : hmap K V) :
  hmap_ok hash m → zlen (data m) < 2874713497 → hop_ok o →
  ∃ m', run_hop o m = Ret m' ∧ hmap_ok hash m' ∧ map_of (data m') = spec_hop o (map_of (data m)).
Proof.
  intros Hok Hsz Ho. destruct o as [k v|k v|k|n|]; simpl in *.
  - destruct (emplace_spec hash m k v Hok Hsz) as (m' & id & -> & ? & ?). by exists m'.
  - destruct (try_emplace_spec hash m k v Hok Hsz) as (m' & id & -> & ? & Hm). exists m'.
    split_and!; [done..|]. rewrite Hm. by destruct (map_of (data m) !! k).
  - destruct (erase_key_spec hash m k Hok) as (m' & it & -> & ? & ? & _). by exists m'.
  - destruct (rehash_spec hash m n Hok Ho) as (m' & -> & ? & Hp & _). exists m'. split_and!; [done..|].
    apply map_of_perm; [apply Hok|done].
  - destruct (hm_clear_loop_spec hash (S (length (data m))) m Hok) as (m' & Heq & ? & Hd); [lia|].
    exists m'. unfold clear. rewrite Heq, Hd. done.
Qed.

Lemma spec_hop_size o g : (base.size (spec_hop o g) ≤ S (base.size g))%nat.
Proof.
  destruct o as [k v|k v|k|n|]; simpl; try lia.
  - rewrite map_size_insert. destruct (g !! k); simpl; lia.
  - destruct (g !! k) eqn:Hk; [lia|]. rewrite map_size_insert, Hk. simpl. lia.
  - rewrite map_size_delete. destruct (g !! k); simpl; lia.
  - rewrite map_size_empty. lia.
Qed.

Lemma run_hops_spec os (m : hmap K V) :
  hmap_ok hash m → zlen (data m) + zlen os < 2874713497 → Forall hop_ok os →
  ∃ m', run_hops os m = Ret m' ∧ hmap_ok hash m' ∧
    map_of (data m') = foldl (λ g o, spec_hop o g) (map_of (data m)) os.
Proof.
  intros Hok Hsz Hf. revert m Hok Hsz. induction Hf as [|o os Ho Hf IH]; intros m Hok Hsz; cbn [run_hops].
  - by exists m.
  - simpl in Hsz. destruct (run_hop_spec o m Hok ltac:(lia) Ho) as (m1 & -> & Hok1 & Hm1).
    munfold. destruct (IH m1 Hok1) as (m' & -> & Hok' & Hm').
    { rewrite map_of_size, Hm1 by done. rewrite map_of_size in Hsz by done.
      pose proof (spec_hop_size o (map_of (data m))). lia. }
    exists m'. split_and!; [done..|]. by rewrite Hm', Hm1.
Qed.

Lemma node_hash_map_new :
  ∃ m, node_hash_map (K := K) (V := V) 0 = Ret m ∧ hmap_ok hash m ∧ data m = [].
Proof.
  eexists. split; [reflexivity|]. split; [|done].
  constructor; simpl; [|constructor..]. by apply grouped_empty.
Qed.

Lemma find_lookup (m : hmap K V) k :
  hmap_ok hash m → ∃ r, find hash k m = Ret r ∧ nval <$> r = map_of (data m) !! k.
Proof.
  intros Hok. destruct (find_spec hash m k Hok) as (r & -> & Hr). exists r. split; [done|].
  destruct r as [n|]; simpl.
  - destruct Hr as [Hin <-]. symmetry. apply map_of_lookup; [apply Hok|done].
  - symmetry. by apply map_of_lookup_None.
Qed.
End histories.

(** C25: [node_hash_map] implements a finite map: for every history of
    [emplace], [try_emplace], [erase], [rehash] and [clear] from an empty
    table, every operation completes, [find] of any key then returns the
    value the finite map has for it, and [size] is its size. *)
Theorem node_hash_map_refines {K V} `{Countable K} (hash : K → Z) (os : list (hop K V)) :
  zlen os < 2874713497 → Forall hop_ok os →
  ∃ m0 m, node_hash_map 0 = Ret m0 ∧ run_hops hash os m0 = Ret m ∧
    let g := foldl (λ g o, spec_hop o g) ∅ os in
    (∀ k, ∃ r, find hash k m = Ret r ∧ nval <$> r = g !! k) ∧ size m = Z.of_nat (base.size g).
Proof.
  intros Hsz Hf. destruct (node_hash_map_new (V := V) hash) as (m0 & -> & Hok0 & Hd0).
  destruct (run_hops_spec hash os m0 Hok0) as (m & Heq & Hok & Hm); [rewrite Hd0; simpl; lia|done|].
  exists m0, m. rewrite Hd0 in Hm. change (map_of []) with (∅ : gmap K V) in Hm.
  split; [done|]. split; [done|]. cbv zeta. split.
  - intros k. rewrite <- Hm. by apply find_lookup.
  - unfold size. rewrite (map_of_size hash) by done. by rewrite Hm.
Qed.

(** Collisions on purpose: keys 1, 18 and 35 share a bucket. *)
Lemma node_hash_map_refines_witness :
  ∃ m0 m, node_hash_map (K := Z) (V := Z) 0 = Ret m0 ∧
    run_hops (λ k, k) [HEmplace 1 10; HEmplace 18 20; HTryEmplace 35 30; HErase 18;
                       HTryEmplace 1 99; HRehash 20; HEmplace 35 31] m0 = Ret m ∧
    size m = 2 ∧ ∃ r, find (λ k, k) 35 m = Ret r ∧ nval <$> r = Some 31.
Proof.
  destruct (node_hash_map_refines (λ k : Z, k) [HEmplace 1 10; HEmplace 18 20; HTryEmplace 35 30;
    HErase 18; HTryEmplace 1 99; HRehash 20; HEmplace 35 31]) as (m0 & m & H0 & H1 & Hfind & Hsz);
    [simpl; lia|repeat constructor; simpl; lia|].
  exists m0, m. split_and!; [done..|by rewrite Hsz|].
  destruct (Hfind 35) as (r & Hr & Hv). exists r. split; [done|]. by rewrite Hv.
Defined.

(** rehashing never invalidates an iterator: the nodes of the table
    are the same before and after (identity, key and value), only their
    order changes, and enough buckets are allocated for a load factor of
    at most one. *)
Theorem rehash_stable {K V} `{Countable K} (hash : K → Z) (m : hmap K V) count :
  hmap_ok hash m → count ≤ 2874713497 →
  ∃ m', rehash count m = Ret m' ∧ hmap_ok hash m' ∧ data m' ≡ₚ data m ∧ count ≤ bucket_count m'.
Proof.
  intros Hok Hc. destruct (rehash_spec hash m count Hok Hc) as (m' & ? & ? & ? & _ & ?).
  by exists m'.
Qed.

Lemma rehash_stable_witness :
  ∃ m m', node_hash_map (K := Z) (V := Z) 0 = Ret m ∧ rehash 100 m = Ret m' ∧
    data m' ≡ₚ data m ∧ bucket_count m' = 163.
Proof.
  destruct (node_hash_map_new (V := Z) (λ k : Z, k)) as (m & Hm & Hok & Hd).
  destruct (rehash_stable (λ k : Z, k) m 100 Hok) as (m' & Heq & _ & Hp & _); [lia|].
  exists m, m'. split_and!; [done..|]. vm_compute in Hm. injection Hm as <-.
  vm_compute in Heq. by injection Heq as <-.
Defined.
