(* ===== verification/NodeHashMapOps.v ===== *)
(** * [nonstd::node_hash_map]: ranges, copies and comparison

    The rest of [nonstd/node_hash_map.h]: the constructors from a range,
    copies, moves, [operator[]] and [operator==], over the operations of
    [NodeHashMap.v]. *)
From S2P Require Import Prelude NodeHashMap.

Section ops.
Context {K V : Type} `{EqDecision K} (hash : K → Z).
Implicit Types (m : hmap K V).

(** [insert(val)] for each pair of a range *)
Definition insert (kv : K * V) m : outcome (hmap K V) := r ← emplace hash kv.1 kv.2 m; Ret r.1.1.
Fixpoint insert_all (kvs : list (K * V)) m : outcome (hmap K V) :=
  match kvs with
  | [] => Ret m
  | kv :: kvs => m ← insert kv m; insert_all kvs m
  end.
Definition range_ctor (kvs : list (K * V)) (count : Z) : outcome (hmap K V) :=
  m ← node_hash_map count; insert_all kvs m.
(** The iterators of another map go along its list of nodes. *)
Definition elements m : list (K * V) := (λ n, (nkey n, nval n)) <$> data m.
Definition copy_ctor other : outcome (hmap K V) := range_ctor (elements other) 0.
Definition move_assign m other : hmap K V * hmap K V := (other, m).
Definition move_ctor other : outcome (hmap K V * hmap K V) := m ← node_hash_map 0; Ret (move_assign m other).
(** The destructor clears the map before it frees the buckets. *)
Definition map_dtor m : outcome (hmap K V) := clear m.
Definition copy_assign m other : outcome (hmap K V * hmap K V) :=
  tmp ← copy_ctor other;
  let '(m, tmp) := move_assign m tmp in
  tmp ← map_dtor tmp;
  Ret (m, tmp).
(** [operator[]]: the node of the key, made with [dflt] (a default
    constructed value) when there is none. *)
Definition subscript (key : K) (dflt : V) m : outcome (hmap K V * V) :=
  '(m, id, _) ← try_emplace hash key dflt m;
  l ← seek id (data m);
  n ← deref (head l);
  Ret (m, nval n).

Context `{EqDecision V}.
Fixpoint all_found (kvs : list (K * V)) m : outcome bool :=
  match kvs with
  | [] => Ret true
  | (k, v) :: kvs =>
    r ← find hash k m;
    match r with
    | Some n => if bool_decide (nval n = v) then all_found kvs m else Ret false
    | None => Ret false
    end
  end.
Definition map_eq m other : outcome bool :=
  if size m =? size other then all_found (elements m) other else Ret false.
End ops.

Section proofs.
Context {K V : Type} `{Countable K} (hash : K → Z).
Implicit Types (m : hmap K V) (g : gmap K V).

Definition max_elements : Z := 2874713497.
Lemma insert_all_spec kvs : ∀ m, hmap_ok hash m → zlen (data m) + zlen kvs < max_elements →
  ∃ m', insert_all hash kvs m = Ret m' ∧ hmap_ok hash m' ∧
    map_of (data m') = foldl (λ g kv, <[kv.1 := kv.2]> g) (map_of (data m)) kvs.
Proof.
  unfold max_elements. induction kvs as [|[k v] kvs IH]; intros m Hok Hsz; cbn [insert_all foldl]; [by exists m|].
  rewrite length_cons in Hsz. unfold insert. cbn [fst snd].
  destruct (emplace_spec hash m k v Hok ltac:(lia)) as (m1 & id & -> & Hok1 & Hm1). munfold. simpl.
  destruct (IH m1 Hok1) as (m' & -> & Hok' & Hm').
  { rewrite (map_of_size hash) in Hsz |- * by done. rewrite Hm1, map_size_insert. destruct (map_of (data m) !! k); simpl; lia. }
  exists m'. split; [done|]. split; [done|]. by rewrite Hm', Hm1.
Qed.

(** A map made of a range holds, for each key, the value that comes last
    for it. *)
Theorem map_range_ctor_holds kvs : zlen kvs < max_elements →
  ∃ m, range_ctor hash kvs 0 = Ret m ∧ hmap_ok hash m ∧ map_of (data m) = foldl (λ g kv, <[kv.1 := kv.2]> g) ∅ kvs.
Proof.
  intros Hsz. destruct (node_hash_map_new (V := V) hash) as (m0 & Heq & Hok0 & Hd0). unfold range_ctor. rewrite Heq. munfold.
  destruct (insert_all_spec kvs m0 Hok0) as (m & ? & ? & Hm); [rewrite Hd0; simpl; lia|]. exists m. by rewrite Hd0 in Hm.
Qed.

(** Inserting the elements of a map one by one gives the map. *)
Lemma fold_elements d : NoDup (nkey <$> d) → ∀ g,
  foldl (λ g kv, <[kv.1 := kv.2]> g) g ((λ n : node K V, (nkey n, nval n)) <$> d) = map_of d ∪ g.
Proof.
  induction d as [|n d IH]; intros Hnd g; [simpl; change (map_of []) with (∅ : gmap K V); by rewrite (left_id_L ∅ (∪))|]. rewrite fmap_cons in *. apply NoDup_cons in Hnd as [Hn Hnd].
  cbn [foldl fst snd]. rewrite IH, map_of_cons by done. rewrite <- insert_union_l, <- insert_union_r; [done|].
  apply map_of_lookup_None; [exact hash|]. intros x Hx Heq. apply Hn. rewrite <- Heq. by apply list_elem_of_fmap_2.
Qed.
Theorem map_copy_ctor_copies other : hmap_ok hash other → zlen (data other) < max_elements →
  ∃ m, copy_ctor hash other = Ret m ∧ hmap_ok hash m ∧ map_of (data m) = map_of (data other).
Proof.
  intros Hok Hsz. unfold copy_ctor. destruct (map_range_ctor_holds (elements other)) as (m & Heq & Hokm & Hm).
  { unfold elements. by rewrite length_fmap. }
  exists m. split; [done|]. split; [done|]. rewrite Hm. unfold elements. rewrite fold_elements by apply Hok. by rewrite (right_id_L ∅ (∪)).
Qed.
Theorem map_copy_assign_copies m other : hmap_ok hash m → hmap_ok hash other → zlen (data other) < max_elements →
  ∃ m' tmp, copy_assign hash m other = Ret (m', tmp) ∧ hmap_ok hash m' ∧ map_of (data m') = map_of (data other) ∧ data tmp = [].
Proof.
  intros Hok Hoko Hsz. unfold copy_assign. destruct (map_copy_ctor_copies other Hoko Hsz) as (m' & -> & Hok' & Hm'). munfold. simpl.
  unfold map_dtor, clear. destruct (hm_clear_loop_spec hash (S (length (data m))) m Hok) as (tmp & -> & _ & Hd); [lia|].
  by exists m', tmp.
Qed.

(** [operator==] compares the finite maps, whatever the order of the
    nodes and the number of buckets. *)
Lemma all_found_spec `{EqDecision V} kvs m : hmap_ok hash m →
  all_found hash kvs m = Ret (bool_decide (Forall (λ kv, map_of (data m) !! kv.1 = Some kv.2) kvs)).
Proof.
  intros Hok. induction kvs as [|[k v] kvs IH]; cbn [all_found]; [by rewrite bool_decide_true by constructor|].
  destruct (find_lookup hash m k Hok) as (r & -> & Hr). munfold. rewrite IH. destruct r as [n|]; simpl in Hr.
  - destruct (decide (nval n = v)) as [Hv|Hv]; [rewrite (bool_decide_true (nval n = v)) by done|rewrite (bool_decide_false (nval n = v)) by done].
    + f_equal. apply bool_decide_ext. rewrite Forall_cons. simpl. rewrite <- Hr, Hv. naive_solver.
    + rewrite bool_decide_false; [done|]. rewrite Forall_cons. simpl. rewrite <- Hr. intros [[= ?] _]. done.
  - rewrite bool_decide_false; [done|]. rewrite Forall_cons. simpl. rewrite <- Hr. by intros [? _].
Qed.
Theorem map_eq_decides `{EqDecision V} m other : hmap_ok hash m → hmap_ok hash other →
  map_eq hash m other = Ret (bool_decide (map_of (data m) = map_of (data other))).
Proof.
  intros Hok Hoko. unfold map_eq, size. rewrite all_found_spec by done.
  destruct (Z.eqb_spec (zlen (data m)) (zlen (data other))) as [Hlen|Hne].
  2:{ rewrite bool_decide_false; [done|]. intros Heq. apply Hne. by rewrite !(map_of_size hash), Heq by done. }
  f_equal. apply bool_decide_ext. rewrite !(map_of_size hash) in Hlen by done. rewrite Forall_forall. split.
  - intros Hall. apply map_subseteq_size_eq; [|lia]. apply map_subseteq_spec. intros k v Hk.
    apply elem_of_list_to_map_2 in Hk. exact (Hall _ Hk).
  - intros Heq [k v] Hkv. simpl. rewrite <- Heq. apply elem_of_list_to_map_1; [rewrite map_keys; apply Hok|done].
Qed.
End proofs.
