(* ===== verification/Deque.v ===== *)
(** * [nonstd::deque], [queue] and [stack]

    Models [nonstd/deque.h] (and its adaptors [queue.h], [stack.h]): a
    circular array of block pointers, a start block and a start index.
    A block is [nullptr] ([None]) or its [elems_per_block] cells; a cell
    is [None] while no element lives in it.  [live_blocks] counts block
    allocations minus deallocations.

    Sizes and indices are [nat]: they are bounded by the memory the
    elements occupy, so the [size_t] arithmetic does not wrap, except for
    the subtraction in [shrink_to_fit], where it is written out. *)
From S2P Require Import Prelude.

Abbreviation block T := (list (option T)).

Record deque (T : Type) := Deque {
  blocks : list (option (block T));
  size : nat;
  start_block : nat;
  start_idx : nat;
  live_blocks : Z }.
Arguments Deque {T} blocks size start_block start_idx live_blocks.
Arguments blocks {T} _.
Arguments size {T} _.
Arguments start_block {T} _.
Arguments start_idx {T} _.
Arguments live_blocks {T} _.

Definition min_block_count : nat := 16.
Definition block_size (sizeof_T : Z) : Z := Z.max 512 (16 * sizeof_T).
Definition elems_per_block (sizeof_T : Z) : Z := block_size sizeof_T / sizeof_T.

Section deque.
Context {T : Type} (epb : nat).
Implicit Types (d : deque T).

Definition block_count d : nat := length (blocks d).

(** The constructor: sixteen null block pointers. *)
Definition deque_ctor : deque T := Deque (replicate min_block_count None) 0 0 0 0.

Definition get_block_elem_idx (idx sb bc : nat) : nat * nat :=
  (((sb + idx / epb) mod bc)%nat, (idx mod epb)%nat).

(** [_blocks[b][e]], reading and writing the cell. *)
Definition read_cell d (b e : nat) : outcome (option T) :=
  ob ← deref (blocks d !! b); blk ← deref ob; deref (blk !! e).
Definition write_cell d (b e : nat) (v : option T) : outcome (deque T) :=
  ob ← deref (blocks d !! b);
  blk ← deref ob;
  _ ← deref (blk !! e);
  Ret (Deque (<[b := Some (<[e := v]> blk)]> (blocks d)) (size d) (start_block d) (start_idx d)
             (live_blocks d)).

(** [operator[]] on an element, and [at]. *)
Definition index d (pos : nat) : outcome T :=
  let '(b, e) := get_block_elem_idx (start_idx d + pos) (start_block d) (block_count d) in
  c ← read_cell d b e; deref c.
Definition at_ d (pos : nat) : outcome T :=
  _ ← assert_ (pos <? size d)%nat; index d pos.
Definition front d : outcome T := at_ d 0.
Definition back d : outcome T := at_ d (size d - 1).
Definition empty d : bool := (size d =? 0)%nat.

(** Iterators hold the index with [start_idx] factored in. *)
Definition make_iterator d (idx : nat) : nat := (start_idx d + idx)%nat.
Definition begin d : nat := make_iterator d 0.
Definition end_ d : nat := make_iterator d (size d).

(** [realloc_blocks_array]: the copy loop unwraps the circular array. *)
Fixpoint copy_blocks d (from n : nat) : outcome (list (option (block T))) :=
  match n with
  | O => Ret []
  | S n =>
    ob ← deref (blocks d !! from);
    _ ← assert_ (match ob with Some _ => true | None => false end);
    r ← copy_blocks d ((from + 1) mod block_count d)%nat n;
    Ret (ob :: r)
  end.

Definition realloc_blocks_array d : outcome (deque T) :=
  bs ← copy_blocks d (start_block d) (block_count d);
  Ret (Deque (bs ++ replicate (block_count d) None) (size d) 0 (start_idx d) (live_blocks d)).

Definition new_block d (b : nat) : deque T :=
  Deque (<[b := Some (replicate epb None)]> (blocks d)) (size d) (start_block d) (start_idx d)
        (live_blocks d + 1).

Definition allocate_block (start : bool) d : outcome (deque T) :=
  if start then
    d ← (if (start_idx d =? 0)%nat && (epb * (block_count d - 1) <? size d)%nat
         then realloc_blocks_array d else Ret d);
    if (start_idx d =? 0)%nat then
      let sb := ((start_block d + block_count d - 1) mod block_count d)%nat in
      Ret (new_block (Deque (blocks d) (size d) sb (start_idx d) (live_blocks d)) sb)
    else Ret d
  else
    let end_idx := (start_idx d + size d)%nat in
    d ← (if (epb * block_count d <=? end_idx)%nat then realloc_blocks_array d else Ret d);
    let '(b, e) := get_block_elem_idx end_idx (start_block d) (block_count d) in
    ob ← deref (blocks d !! b);
    match ob with
    | None => if (e =? 0)%nat then Ret (new_block d b) else Ret d
    | Some _ => Ret d
    end.

(** Constructing an element at index [i], then [++_size]. *)
Definition construct d (i : nat) (v : T) : outcome (deque T) :=
  let '(b, e) := get_block_elem_idx (start_idx d + i) (start_block d) (block_count d) in
  d ← write_cell d b e (Some v);
  Ret (Deque (blocks d) (S (size d)) (start_block d) (start_idx d) (live_blocks d)).

Definition set_start_idx d (i : nat) : deque T :=
  Deque (blocks d) (size d) (start_block d) i (live_blocks d).

Definition emplace d (pos : nat) (v : T) : outcome (deque T * nat) :=
  let idx := (pos - start_idx d)%nat in
  d ← (if (pos =? end_ d)%nat then
         d ← (if ((start_idx d + size d) mod epb =? 0)%nat then allocate_block false d else Ret d);
         construct d (size d) v
       else if (pos =? begin d)%nat then
         d ← (if (start_idx d =? 0)%nat
              then d ← allocate_block true d; Ret (set_start_idx d epb) else Ret d);
         construct (set_start_idx d (start_idx d - 1)) 0 v
       else Halt AssertFail);
  Ret (d, make_iterator d idx).

(** [erase(pos)]: destroy the element, then adjust. *)
Definition erase d (pos : nat) : outcome (deque T * nat) :=
  let idx := (pos - start_idx d)%nat in
  let '(b, e) := get_block_elem_idx (start_idx d + idx) (start_block d) (block_count d) in
  d ← write_cell d b e None;
  d ← (if (pos =? begin d)%nat then Ret (set_start_idx d (S (start_idx d)))
       else if (pos =? end_ d - 1)%nat then Ret d
       else Halt AssertFail);
  let d := Deque (blocks d) (size d - 1) (start_block d) (start_idx d) (live_blocks d) in
  Ret (d, make_iterator d idx).

Definition push_back d (v : T) : outcome (deque T) := r ← emplace d (end_ d) v; Ret r.1.
Definition push_front d (v : T) : outcome (deque T) := r ← emplace d (begin d) v; Ret r.1.
Definition pop_back d : outcome (deque T) := r ← erase d (end_ d - 1); Ret r.1.
Definition pop_front d : outcome (deque T) := r ← erase d (begin d); Ret r.1.

(** [erase(first, last)]. *)
Fixpoint erase_loop (fuel : nat) d (it last : nat) : outcome (deque T) :=
  match fuel with
  | O => Halt OutOfFuel
  | S fuel =>
    '(d, it) ← erase d it;
    if (it =? last)%nat then Ret d else erase_loop fuel d it last
  end.
Definition erase_range d (first last : nat) : outcome (deque T) :=
  if (first =? last)%nat then Ret d else erase_loop (size d) d first last.
Definition clear d : outcome (deque T) := erase_range d (begin d) (end_ d).

(** [insert(pos, first, last)]. *)
Fixpoint insert_range d (cur_idx : nat) (vs : list T) : outcome (deque T) :=
  match vs with
  | [] => Ret d
  | v :: vs =>
    '(d, _) ← emplace d (make_iterator d cur_idx) v; insert_range d (S cur_idx) vs
  end.

(** [resize(count, value)]. *)
Fixpoint pop_back_n (n : nat) d : outcome (deque T) :=
  match n with O => Ret d | S n => d ← pop_back d; pop_back_n n d end.
Fixpoint push_back_n (n : nat) (v : T) d : outcome (deque T) :=
  match n with O => Ret d | S n => d ← push_back d v; push_back_n n v d end.
Definition resize d (count : nat) (v : T) : outcome (deque T) :=
  if (count <? size d)%nat then pop_back_n (size d - count) d
  else push_back_n (count - size d) v d.

(** [shrink_to_fit]: the two loops and the empty case. *)
Definition free_block d (b : nat) : deque T :=
  Deque (<[b := None]> (blocks d)) (size d) (start_block d) (start_idx d) (live_blocks d - 1).

Fixpoint shrink_end (fuel : nat) d (i : nat) : outcome (deque T) :=
  match fuel with
  | O => Halt OutOfFuel
  | S fuel =>
    if (i =? start_block d)%nat then Ret d
    else
      ob ← deref (blocks d !! i);
      match ob with
      | None => Ret d
      | Some _ => shrink_end fuel (free_block d i) ((i + 1) mod block_count d)%nat
      end
  end.

Fixpoint shrink_start (fuel : nat) d : outcome (deque T) :=
  match fuel with
  | O => Halt OutOfFuel
  | S fuel =>
    if (epb <=? start_idx d)%nat then
      let d' := free_block d (start_block d) in
      shrink_start fuel (Deque (blocks d') (size d') ((start_block d + 1) mod block_count d)%nat
                               (start_idx d - epb)%nat (live_blocks d'))
    else Ret d
  end.

Definition shrink_to_fit d : outcome (deque T) :=
  let first := Z.to_nat ((Z.of_nat (start_block d) +
                 (u32 (Z.of_nat (start_idx d + size d) - 1) / Z.of_nat epb + 1))
                 mod Z.of_nat (block_count d)) in
  d ← shrink_end (S (block_count d)) d first;
  d ← shrink_start (S (start_idx d)) d;
  ob ← deref (blocks d !! start_block d);
  if empty d && match ob with Some _ => true | None => false end
  then Ret (free_block (set_start_idx d 0) (start_block d)) else Ret d.

(** The destructor's effect on the blocks. *)
Definition deque_dtor d : outcome (deque T) := d ← clear d; shrink_to_fit d.
End deque.

(** ** [queue] and [stack] *)
Definition queue_push {T} (epb : nat) (d : deque T) (v : T) := push_back epb d v.
Definition queue_pop {T} (epb : nat) (d : deque T) := pop_front epb d.
Definition queue_front {T} (epb : nat) (d : deque T) := front epb d.
Definition queue_back {T} (epb : nat) (d : deque T) := back epb d.
Definition stack_push {T} (epb : nat) (d : deque T) (v : T) := push_back epb d v.
Definition stack_pop {T} (epb : nat) (d : deque T) := pop_back epb d.
Definition stack_top {T} (epb : nat) (d : deque T) := back epb d.

(** ** The block array unwrapped *)
Definition rot {A} (sb : nat) (bs : list A) : list A := drop sb bs ++ take sb bs.

Lemma rot_length {A} sb (bs : list A) : (sb < length bs)%nat → length (rot sb bs) = length bs.
Proof. intros. unfold rot. rewrite length_app, length_drop, length_take. lia. Qed.

Lemma slot_eq sb r bc : (sb < bc)%nat → (r < bc)%nat →
  ((sb + r) mod bc = if decide (sb + r < bc) then sb + r else sb + r - bc)%nat.
Proof.
  intros. case_decide; [by apply Nat.mod_small|].
  replace (sb + r)%nat with (sb + r - bc + 1 * bc)%nat at 1 by lia.
  rewrite Nat.Div0.mod_add. apply Nat.mod_small. lia.
Qed.

Lemma rot_lookup {A} sb (bs : list A) r :
  (sb < length bs)%nat → (r < length bs)%nat → rot sb bs !! r = bs !! ((sb + r) mod length bs)%nat.
Proof.
  intros Hs Hr. rewrite slot_eq by done. unfold rot. case_decide.
  - rewrite lookup_app_l by (rewrite length_drop; lia). apply lookup_drop.
  - rewrite lookup_app_r by (rewrite length_drop; lia). rewrite length_drop.
    rewrite lookup_take_lt by lia. f_equal. lia.
Qed.

Lemma rot_insert {A} sb (bs : list A) r v :
  (sb < length bs)%nat → (r < length bs)%nat →
  rot sb (<[((sb + r) mod length bs)%nat := v]> bs) = <[r := v]> (rot sb bs).
Proof.
  intros Hs Hr. apply list_eq. intros j.
  destruct (decide (j < length bs)%nat) as [Hj|Hj].
  - rewrite rot_lookup by (rewrite length_insert; done). rewrite length_insert.
    destruct (decide (j = r)) as [->|Hne].
    + rewrite !list_lookup_insert_eq; [done|by rewrite rot_length|apply Nat.mod_upper_bound; lia].
    + rewrite !list_lookup_insert_ne, rot_lookup by (done || (rewrite !slot_eq by done; repeat case_decide; lia)).
      done.
  - rewrite !lookup_ge_None_2; [done|rewrite length_insert, rot_length by done; lia|].
    rewrite rot_length; rewrite length_insert; lia.
Qed.

(** Moving the start one block back. *)
Lemma rot_back {A} sb (bs : list A) :
  (sb < length bs)%nat → ∃ x, last (rot sb bs) = Some x ∧
  rot ((sb + length bs - 1) mod length bs) bs = x :: take (length bs - 1) (rot sb bs).
Proof.
  intros Hs. set (bc := length bs) in *.
  assert (Hl : length (rot sb bs) = bc) by (by apply rot_length).
  destruct (lookup_lt_is_Some_2 (rot sb bs) (bc - 1)) as [x Hx]; [lia|].
  exists x. split; [rewrite last_lookup, Hl; by replace (pred bc) with (bc - 1)%nat by lia|].
  assert (Hm : ((sb + bc - 1) mod bc = if decide (sb = 0) then bc - 1 else sb - 1)%nat).
  { replace (sb + bc - 1)%nat with (sb + (bc - 1))%nat by lia. rewrite slot_eq by lia.
    repeat case_decide; lia. }
  assert (Hlt : ((sb + bc - 1) mod bc < bc)%nat) by (apply Nat.mod_upper_bound; lia).
  apply list_eq. intros j. destruct (decide (j < bc)%nat).
  - rewrite rot_lookup by lia. fold bc. rewrite Hm in *. destruct j as [|j]; simpl.
    + rewrite <- Hx, rot_lookup by lia. fold bc. f_equal.
      rewrite !slot_eq by lia. repeat case_decide; lia.
    + rewrite lookup_take_lt, rot_lookup by lia. fold bc. f_equal.
      rewrite !slot_eq by lia. repeat case_decide; lia.
  - rewrite !lookup_ge_None_2; [done|simpl; rewrite length_take; lia|rewrite rot_length; lia].
Qed.

(** ** Representation *)
Section refine.
Context {T : Type} (epb : nat) (Hepb : (0 < epb)%nat).
Implicit Types (d : deque T) (xs : list T).

Definition unwrapped d : list (option (block T)) := rot (start_block d) (blocks d).

(** The element at index [k] of the unwrapped blocks. *)
Definition cell (R : list (option (block T))) (k : nat) : option T :=
  ob ← R !! (k / epb)%nat; blk ← ob; mjoin (blk !! (k mod epb)%nat).

Record blocks_ok (R : list (option (block T))) (first len : nat) : Prop := BlocksOk {
  bo_cap : (first + len ≤ epb * length R)%nat;
  bo_len : ∀ r blk, R !! r = Some (Some blk) → length blk = epb;
  bo_used : ∀ r, (r * epb < first + len)%nat → ∃ blk, R !! r = Some (Some blk) }.

Definition dq_rep d xs : Prop :=
  (start_block d < length (blocks d))%nat ∧ size d = length xs ∧
  blocks_ok (unwrapped d) (start_idx d) (size d) ∧
  ∀ i x, xs !! i = Some x → cell (unwrapped d) (start_idx d + i) = Some x.

Lemma div_used R first len k :
  blocks_ok R first len → (k < first + len)%nat →
  ∃ blk, R !! (k / epb)%nat = Some (Some blk) ∧ length blk = epb.
Proof.
  intros Hok Hk. destruct (bo_used _ _ _ Hok (k / epb)) as [blk Hb].
  { pose proof (Nat.Div0.mul_div_le k epb). lia. }
  exists blk. split; [done|]. by apply (bo_len _ _ _ Hok (k / epb)).
Qed.

Definition write_at (R : list (option (block T))) (k : nat) (blk : block T) (v : option T) :=
  <[(k / epb)%nat := Some (<[(k mod epb)%nat := v]> blk)]> R.

Lemma cell_write R k blk v j :
  R !! (k / epb)%nat = Some (Some blk) → length blk = epb →
  cell (write_at R k blk v) j = if decide (j = k) then v else cell R j.
Proof.
  intros Hb Hl. unfold cell, write_at.
  assert (Hm : (k mod epb < epb)%nat) by (apply Nat.mod_upper_bound; lia).
  assert (Hlt : (k / epb < length R)%nat) by (by eapply lookup_lt_Some).
  destruct (decide (j = k)) as [->|Hne].
  - rewrite list_lookup_insert_eq by done. simpl. rewrite list_lookup_insert_eq by lia. done.
  - destruct (decide (j / epb = k / epb)%nat) as [Hq|Hq].
    + rewrite Hq, list_lookup_insert_eq, Hb by done. simpl. rewrite list_lookup_insert_ne; [done|].
      intros Heq. apply Hne. rewrite (Nat.div_mod j epb), (Nat.div_mod k epb) by lia. congruence.
    + by rewrite list_lookup_insert_ne by done.
Qed.

Lemma blocks_ok_write R k blk v first len :
  R !! (k / epb)%nat = Some (Some blk) → length blk = epb →
  blocks_ok R first len → blocks_ok (write_at R k blk v) first len.
Proof.
  intros Hb Hl [Hc Hlen Hu]. unfold write_at. constructor.
  - by rewrite length_insert.
  - intros r blk' [(<- & [= <-] & _)|[_ ?]]%list_lookup_insert_Some; [by rewrite length_insert|eauto].
  - intros r Hr. destruct (decide (r = k / epb)%nat) as [->|].
    + eexists. apply list_lookup_insert_eq. by eapply lookup_lt_Some.
    + rewrite list_lookup_insert_ne by done. auto.
Qed.

Lemma unwrapped_lookup d r :
  (start_block d < length (blocks d))%nat → (r < length (blocks d))%nat →
  unwrapped d !! r = blocks d !! ((start_block d + r) mod block_count d)%nat.
Proof. apply rot_lookup. Qed.

Lemma write_cell_spec d k blk v :
  (start_block d < length (blocks d))%nat → unwrapped d !! (k / epb)%nat = Some (Some blk) →
  length blk = epb →
  let '(b, e) := get_block_elem_idx epb k (start_block d) (block_count d) in
  ∃ d', write_cell d b e v = Ret d' ∧ unwrapped d' = write_at (unwrapped d) k blk v ∧
    length (blocks d') = length (blocks d) ∧ size d' = size d ∧
    start_block d' = start_block d ∧ start_idx d' = start_idx d.
Proof.
  intros Hs Hb Hl. simpl. pose proof (lookup_lt_Some _ _ _ Hb) as Hlt.
  unfold unwrapped in Hlt. rewrite rot_length in Hlt by done.
  unfold write_cell. rewrite unwrapped_lookup in Hb by done. rewrite Hb. munfold.
  assert (Hm : (k mod epb < epb)%nat) by (apply Nat.mod_upper_bound; lia).
  destruct (lookup_lt_is_Some_2 blk (k mod epb)) as [c Hc]; [lia|]. rewrite Hc.
  eexists. split; [done|]. simpl. split; [|by rewrite length_insert].
  unfold unwrapped, write_at. simpl. unfold block_count. by rewrite rot_insert.
Qed.

Lemma index_spec d xs i x : dq_rep d xs → xs !! i = Some x → index epb d i = Ret x.
Proof.
  intros (Hs & Hsz & Hok & Hel) Hi. specialize (Hel i x Hi).
  assert (Hlt : (start_idx d + i < start_idx d + size d)%nat)
    by (apply lookup_lt_Some in Hi; lia).
  destruct (div_used _ _ _ _ Hok Hlt) as (blk & Hb & Hl).
  unfold index, read_cell. simpl. pose proof (lookup_lt_Some _ _ _ Hb) as Hr.
  unfold unwrapped in Hr. rewrite rot_length in Hr by done.
  unfold cell in Hel. rewrite Hb in Hel. simpl in Hel. rewrite unwrapped_lookup in Hb by done.
  rewrite Hb. munfold. destruct (blk !! _) as [c|]; [|done]. simpl in Hel. by subst c.
Qed.

Lemma blocks_ok_le R f l f' l' :
  blocks_ok R f l → (f' + l' ≤ f + l)%nat → blocks_ok R f' l'.
Proof. intros [Hc Hlen Hu] Hle. constructor; [lia|done|]. intros r Hr. apply Hu. lia. Qed.

Lemma blocks_ok_grow R f l blk :
  blocks_ok R f l → R !! ((f + l) / epb)%nat = Some (Some blk) → blocks_ok R f (S l).
Proof.
  intros [Hc Hlen Hu] Hb. pose proof (lookup_lt_Some _ _ _ Hb) as Hlt.
  pose proof (Nat.div_mod (f + l) epb ltac:(lia)) as Hdm.
  pose proof (Nat.mod_upper_bound (f + l) epb ltac:(lia)) as Hub.
  set (q := ((f + l) / epb)%nat) in *. constructor; [nia|done|]. intros r Hr.
  destruct (decide (r = q)) as [->|]; [eauto|]. apply Hu. nia.
Qed.

Lemma copy_blocks_spec d r n :
  (start_block d < length (blocks d))%nat → (r + n ≤ length (blocks d))%nat →
  (∀ j, (j < length (blocks d))%nat → ∃ blk, unwrapped d !! j = Some (Some blk)) →
  copy_blocks d ((start_block d + r) mod block_count d)%nat n = Ret (take n (drop r (unwrapped d))).
Proof.
  intros Hs. revert r. induction n as [|n IH]; intros r Hr Hall; [done|]. cbn [copy_blocks].
  destruct (Hall r) as [blk Hb]; [lia|]. rewrite <- unwrapped_lookup, Hb by (done || lia). munfold.
  unfold block_count. rewrite Nat.Div0.add_mod_idemp_l, <- Nat.add_assoc.
  fold (block_count d). rewrite IH by (done || lia).
  rewrite (drop_S (unwrapped d) (Some blk) r) by done. simpl.
  by replace (r + 1)%nat with (S r) by lia.
Qed.

Lemma realloc_spec d :
  (start_block d < length (blocks d))%nat →
  (∀ j, (j < length (blocks d))%nat → ∃ blk, unwrapped d !! j = Some (Some blk)) →
  ∃ d', realloc_blocks_array d = Ret d' ∧
    unwrapped d' = unwrapped d ++ replicate (length (blocks d)) None ∧
    length (blocks d') = (2 * length (blocks d))%nat ∧
    size d' = size d ∧ start_block d' = 0%nat ∧ start_idx d' = start_idx d.
Proof.
  intros Hs Hall. unfold realloc_blocks_array.
  pose proof (copy_blocks_spec d 0 (block_count d) Hs) as Hcopy. rewrite Nat.add_0_r in Hcopy.
  unfold block_count in *. rewrite Nat.mod_small in Hcopy by done. rewrite Hcopy by (done || lia).
  munfold. eexists. split; [done|]. unfold unwrapped at 1. simpl.
  assert (Hl : length (unwrapped d) = length (blocks d)) by (by apply rot_length).
  rewrite drop_0, take_ge by lia. unfold rot at 1. simpl. rewrite app_nil_r, drop_0. split_and!; [done| |done..].
  rewrite length_app, length_replicate, Hl. lia.
Qed.

Lemma cell_app R R' k : (k < epb * length R)%nat → cell (R ++ R') k = cell R k.
Proof.
  intros Hk. unfold cell. rewrite lookup_app_l; [done|]. apply Nat.Div0.div_lt_upper_bound. lia.
Qed.

Lemma dq_rep_cell d xs i :
  dq_rep d xs → (i < length xs)%nat → (start_idx d + i < epb * length (unwrapped d))%nat.
Proof. intros (_ & Hsz & [Hc _ _] & _) Hi. lia. Qed.

(** After [realloc_blocks_array]. *)
Lemma realloc_rep d xs :
  dq_rep d xs → (epb * (block_count d - 1) < start_idx d + size d)%nat →
  ∃ d', realloc_blocks_array d = Ret d' ∧ dq_rep d' xs ∧
    unwrapped d' = unwrapped d ++ replicate (length (blocks d)) None ∧
    length (blocks d') = (2 * length (blocks d))%nat ∧ start_idx d' = start_idx d ∧ size d' = size d.
Proof.
  intros Hrep Hfull. pose proof Hrep as (Hs & Hsz & [Hc Hlen Hu] & Hel). unfold block_count in Hfull.
  destruct (realloc_spec d Hs) as (d' & Heq & Hun & Hlb & Hsz' & Hsb & Hsi).
  { intros j Hj. apply Hu. nia. }
  exists d'. split_and!; try done. split_and!; [lia|congruence| |].
  - rewrite Hun, Hsz', Hsi. constructor.
    + rewrite length_app. lia.
    + intros r blk [?|[? (? & _)%lookup_replicate]]%lookup_app_Some; [eauto|done].
    + intros r Hr. destruct (Hu r Hr) as [blk Hb]. exists blk.
      rewrite lookup_app_l; [done|by eapply lookup_lt_Some].
  - intros i x Hi. rewrite Hun, Hsi, cell_app; [by apply Hel|].
    eapply dq_rep_cell; [done|by eapply lookup_lt_Some].
Qed.

Lemma new_block_unwrapped d r :
  (start_block d < length (blocks d))%nat → (r < length (blocks d))%nat →
  unwrapped (new_block epb d ((start_block d + r) mod block_count d)) =
  <[r := Some (replicate epb None)]> (unwrapped d).
Proof. intros. unfold unwrapped, new_block, block_count. simpl. by apply rot_insert. Qed.

Lemma grow_end d xs :
  dq_rep d xs →
  ∃ d', (if ((start_idx d + size d) mod epb =? 0)%nat then allocate_block epb false d else Ret d)
        = Ret d' ∧ dq_rep d' xs ∧
        blocks_ok (unwrapped d') (start_idx d') (S (size d')).
Proof.
  intros Hrep. pose proof Hrep as (Hs & Hsz & Hok & Hel).
  destruct (Nat.eqb_spec ((start_idx d + size d) mod epb) 0) as [Hm|Hm].
  2:{ exists d. split_and!; [done..|].
      assert (Hlt : ((start_idx d + size d) / epb * epb < start_idx d + size d)%nat)
        by (pose proof (Nat.div_mod (start_idx d + size d) epb); nia).
      destruct (bo_used _ _ _ Hok _ Hlt) as [blk Hb]. by eapply blocks_ok_grow. }
  unfold allocate_block. cbv zeta.
  assert (Hr : ∃ d1, (if (epb * block_count d <=? start_idx d + size d)%nat
                      then realloc_blocks_array d else Ret d) = Ret d1 ∧ dq_rep d1 xs ∧
      start_idx d1 = start_idx d ∧ size d1 = size d ∧
      (start_idx d + size d < epb * length (blocks d1))%nat).
  { destruct (Nat.leb_spec (epb * block_count d) (start_idx d + size d)).
    - destruct (realloc_rep d xs Hrep) as (d1 & -> & ? & _ & Hl & ? & ?); [unfold block_count in *; nia|].
      exists d1. split_and!; try done. destruct Hok as [Hc _ _]. unfold unwrapped in Hc.
      rewrite rot_length in Hc by done. rewrite Hl. nia.
    - exists d. by split_and!. }
  destruct Hr as (d1 & -> & Hrep1 & Hsi1 & Hsz1 & Hcap). munfold.
  pose proof Hrep1 as (Hs1 & Hszx1 & Hok1 & Hel1). unfold get_block_elem_idx. rewrite Hm.
  set (q := ((start_idx d + size d) / epb)%nat).
  assert (Hq : (q < length (blocks d1))%nat) by (apply Nat.Div0.div_lt_upper_bound; lia).
  rewrite <- unwrapped_lookup by done.
  destruct (lookup_lt_is_Some_2 (unwrapped d1) q) as [ob Hob]; [unfold unwrapped; by rewrite rot_length|].
  rewrite Hob. destruct ob as [blk|]; simpl.
  { exists d1. split_and!; [done..|]. eapply blocks_ok_grow; [done|]. by rewrite Hsi1, Hsz1. }
  assert (Hun := new_block_unwrapped d1 q Hs1 Hq).
  assert (Hqr : ∀ k, (k < start_idx d + size d)%nat → (k / epb ≠ q)%nat).
  { intros k Hk Heq. destruct (div_used _ _ _ k Hok1) as (blk & Hb & _); [lia|]. congruence. }
  exists (new_block epb d1 ((start_block d1 + q) mod block_count d1)). split; [done|].
  assert (Hok2 : blocks_ok (<[q := Some (replicate epb None)]> (unwrapped d1)) (start_idx d1) (size d1)).
  { destruct Hok1 as [Hc1 Hlen1 Hu1]. constructor.
    - by rewrite length_insert.
    - intros r blk [(<- & [= <-] & _)|[_ ?]]%list_lookup_insert_Some; [by rewrite length_replicate|eauto].
    - intros r Hr. rewrite list_lookup_insert_ne; [auto|]. intros <-.
      destruct (Hu1 q Hr) as [? ?]. congruence. }
  split.
  - split_and!; simpl; [by rewrite length_insert|done|by rewrite Hun|].
    intros i x Hi. rewrite Hun. unfold cell. rewrite list_lookup_insert_ne; [by apply Hel1|].
    apply not_eq_sym, Hqr. apply lookup_lt_Some in Hi. lia.
  - rewrite Hun. simpl. eapply blocks_ok_grow; [exact Hok2|]. rewrite Hsi1, Hsz1.
    apply list_lookup_insert_eq. unfold unwrapped. by rewrite rot_length.
Qed.

Lemma construct_spec d (ys : list T) i v :
  (start_block d < length (blocks d))%nat → S (size d) = length ys →
  blocks_ok (unwrapped d) (start_idx d) (S (size d)) → (i ≤ size d)%nat →
  (∀ j x, ys !! j = Some x → j ≠ i → cell (unwrapped d) (start_idx d + j) = Some x) →
  ys !! i = Some v →
  ∃ d', construct epb d i v = Ret d' ∧ dq_rep d' ys.
Proof.
  intros Hs Hsz Hok Hi Hel Hv.
  destruct (div_used _ _ _ (start_idx d + i) Hok) as (blk & Hb & Hl); [lia|].
  unfold construct. pose proof (write_cell_spec d (start_idx d + i) blk (Some v) Hs Hb Hl) as Hw.
  destruct (get_block_elem_idx _ _ _ _) as [b e].
  destruct Hw as (d1 & -> & Hun & Hlb & Hsz1 & Hsb & Hsi). munfold.
  eexists. split; [done|]. split_and!; simpl; [lia|lia| |].
  - unfold unwrapped in *. simpl. rewrite Hun, Hsz1, Hsi. by apply blocks_ok_write.
  - intros j x Hj. unfold unwrapped in *. simpl. rewrite Hun, Hsi, cell_write by done.
    case_decide as Hd; [|apply Hel; [done|]; lia].
    assert (j = i) as -> by lia. congruence.
Qed.

Lemma emplace_end_spec d xs v :
  dq_rep d xs → ∃ d' it, emplace epb d (end_ d) v = Ret (d', it) ∧ dq_rep d' (xs ++ [v]).
Proof.
  intros Hrep. unfold emplace. rewrite Nat.eqb_refl.
  destruct (grow_end d xs Hrep) as (d1 & Heq & (Hs & Hsz & _ & Hel) & Hok). rewrite Heq. munfold.
  destruct (construct_spec d1 (xs ++ [v]) (size d1) v) as (d2 & -> & Hrep2);
    [done|rewrite length_app; simpl; lia|done|done| | |by eauto].
  - intros j x [Hj|[Hle Hj]]%lookup_app_Some Hne; [by apply Hel|].
    apply list_lookup_singleton_Some in Hj as [? _]. lia.
  - rewrite Hsz. by apply list_lookup_middle.
Qed.

Lemma cell_shift R blk k n :
  (k < epb * n)%nat → cell (Some blk :: take n R) (epb + k) = cell R k.
Proof.
  intros Hk. unfold cell.
  replace ((epb + k) / epb)%nat with (S (k / epb)).
  2:{ replace (epb + k)%nat with (k + 1 * epb)%nat by lia. rewrite Nat.div_add by lia. lia. }
  replace ((epb + k) mod epb)%nat with (k mod epb)%nat.
  2:{ replace (epb + k)%nat with (k + 1 * epb)%nat by lia. by rewrite Nat.Div0.mod_add. }
  simpl. rewrite lookup_take_lt; [done|]. apply Nat.Div0.div_lt_upper_bound. lia.
Qed.

Lemma grow_start d xs :
  dq_rep d xs → start_idx d = 0%nat → xs ≠ [] →
  ∃ d', allocate_block epb true d = Ret d' ∧ (start_block d' < length (blocks d'))%nat ∧
    size d' = size d ∧ blocks_ok (unwrapped d') epb (size d) ∧
    ∀ i x, xs !! i = Some x → cell (unwrapped d') (epb + i) = Some x.
Proof.
  intros Hrep Hsi Hne. pose proof Hrep as (Hs & Hsz & Hok & Hel).
  unfold allocate_block. rewrite Hsi. cbn [Nat.eqb andb].
  assert (Hr : ∃ d1, (if (epb * (block_count d - 1) <? size d)%nat
                      then realloc_blocks_array d else Ret d) = Ret d1 ∧ dq_rep d1 xs ∧
      start_idx d1 = 0%nat ∧ size d1 = size d ∧
      (size d ≤ epb * (length (blocks d1) - 1))%nat).
  { destruct (Nat.ltb_spec (epb * (block_count d - 1)) (size d)).
    - destruct (realloc_rep d xs Hrep) as (d1 & -> & ? & _ & Hl & ? & ?); [lia|].
      exists d1. split_and!; [done..|congruence|done|]. destruct Hok as [Hc _ _]. unfold unwrapped in Hc.
      rewrite rot_length in Hc by done. rewrite Hl. nia.
    - exists d. by split_and!. }
  destruct Hr as (d1 & -> & Hrep1 & Hsi1 & Hsz1 & Hcap). munfold. rewrite Hsi1. cbn [Nat.eqb].
  destruct Hrep1 as (Hs1 & _ & Hok1 & Hel1). rewrite Hsi1, Hsz1 in Hok1.
  destruct (rot_back (start_block d1) (blocks d1) Hs1) as (x0 & _ & Hback).
  set (sb := ((start_block d1 + block_count d1 - 1) mod block_count d1)%nat).
  assert (Hsb : (sb < length (blocks d1))%nat) by (apply Nat.mod_upper_bound; unfold block_count; lia).
  set (d2 := Deque (blocks d1) (size d1) sb 0 (live_blocks d1)).
  assert (Hun : unwrapped (new_block epb d2 sb) =
                Some (replicate epb None) :: take (length (blocks d1) - 1) (unwrapped d1)).
  { pose proof (new_block_unwrapped d2 0 Hsb ltac:(simpl; lia)) as H0. rewrite Nat.add_0_r in H0.
    unfold block_count in H0. simpl in H0. rewrite Nat.mod_small in H0 by done. rewrite H0.
    unfold unwrapped at 1, d2, sb, block_count. simpl. rewrite Hback. done. }
  assert (Hlu : length (unwrapped d1) = length (blocks d1)) by (by apply rot_length).
  exists (new_block epb d2 sb). split; [done|]. split; [simpl; by rewrite length_insert|].
  split; [done|]. rewrite Hun. split.
  - destruct Hok1 as [Hc1 Hlen1 Hu1]. constructor.
    + simpl. rewrite length_take, Hlu. nia.
    + intros [|r] blk; simpl; [intros [= <-]; apply length_replicate|].
      intros (? & _)%lookup_take_Some. eauto.
    + intros [|r] Hr; simpl; [eauto|]. rewrite lookup_take_lt by nia. apply Hu1. nia.
  - intros i x Hi. pose proof (lookup_lt_Some _ _ _ Hi). rewrite cell_shift by nia.
    specialize (Hel1 i x Hi). by rewrite Hsi1 in Hel1.
Qed.

Lemma push_front_spec d xs v : dq_rep d xs → ∃ d', push_front epb d v = Ret d' ∧ dq_rep d' (v :: xs).
Proof.
  intros Hrep. pose proof Hrep as (Hs & Hsz & Hok & Hel). unfold push_front.
  destruct xs as [|y ys].
  { assert (begin d = end_ d) as -> by (unfold begin, end_, make_iterator; by rewrite Hsz).
    destruct (emplace_end_spec d [] v Hrep) as (d' & it & -> & ?). by exists d'. }
  unfold emplace. simpl in Hsz.
  assert ((begin d =? end_ d)%nat = false) as -> by (apply Nat.eqb_neq; unfold begin, end_, make_iterator; lia).
  rewrite Nat.eqb_refl. destruct (Nat.eqb_spec (start_idx d) 0) as [H0|H0].
  - destruct (grow_start d (y :: ys) Hrep H0) as (d1 & -> & Hs1 & Hsz1 & Hok1 & Hel1); [done|]. munfold.
    destruct (construct_spec (set_start_idx (set_start_idx d1 epb) (epb - 1)) (v :: y :: ys) 0 v)
      as (d2 & Heq & Hrep2); simpl; [done|lia| |lia| |done|].
    + eapply blocks_ok_le; [exact Hok1|]. lia.
    + intros [|j] x Hj Hne; [done|]. specialize (Hel1 j x Hj). unfold unwrapped in *. simpl.
      by replace (epb - 1 + S j)%nat with (epb + j)%nat by lia.
    + simpl start_idx. rewrite Heq. eauto.
  - munfold.
    destruct (construct_spec (set_start_idx d (start_idx d - 1)) (v :: y :: ys) 0 v)
      as (d2 & Heq & Hrep2); simpl; [done|lia| |lia| |done|].
    + eapply blocks_ok_le; [exact Hok|]. lia.
    + intros [|j] x Hj Hne; [done|]. specialize (Hel j x Hj). unfold unwrapped in *. simpl.
      by replace (start_idx d - 1 + S j)%nat with (start_idx d + j)%nat by lia.
    + rewrite Heq. eauto.
Qed.

Lemma push_back_spec d xs v : dq_rep d xs → ∃ d', push_back epb d v = Ret d' ∧ dq_rep d' (xs ++ [v]).
Proof.
  intros Hrep. unfold push_back. destruct (emplace_end_spec d xs v Hrep) as (d' & it & -> & ?).
  by exists d'.
Qed.

(** Destroying the element at index [i]. *)
Lemma destroy_spec d xs i :
  dq_rep d xs → (i < length xs)%nat →
  let '(b, e) := get_block_elem_idx epb (start_idx d + i) (start_block d) (block_count d) in
  ∃ d', write_cell d b e None = Ret d' ∧ (start_block d' < length (blocks d'))%nat ∧
    size d' = size d ∧ start_idx d' = start_idx d ∧
    blocks_ok (unwrapped d') (start_idx d) (size d) ∧
    ∀ j x, j ≠ i → xs !! j = Some x → cell (unwrapped d') (start_idx d + j) = Some x.
Proof.
  intros (Hs & Hsz & Hok & Hel) Hi.
  destruct (div_used _ _ _ (start_idx d + i) Hok) as (blk & Hb & Hl); [lia|].
  pose proof (write_cell_spec d (start_idx d + i) blk None Hs Hb Hl) as Hw.
  destruct (get_block_elem_idx _ _ _ _) as [b e].
  destruct Hw as (d' & Heq & Hun & Hlb & Hsz' & Hsb & Hsi). exists d'.
  split_and!; [done|lia|done|done|rewrite Hun; by apply blocks_ok_write|].
  intros j x Hne Hj. rewrite Hun, cell_write by done. case_decide; [lia|]. by apply Hel.
Qed.

Lemma pop_front_spec d x xs : dq_rep d (x :: xs) → ∃ d', pop_front epb d = Ret d' ∧ dq_rep d' xs.
Proof.
  intros Hrep. pose proof Hrep as (_ & Hsz & _). simpl in Hsz. unfold pop_front, erase.
  replace (begin d - start_idx d)%nat with 0%nat by (unfold begin, make_iterator; lia).
  pose proof (destroy_spec d (x :: xs) 0 Hrep ltac:(simpl; lia)) as Hd.
  destruct (get_block_elem_idx _ _ _ _) as [b e].
  destruct Hd as (d' & -> & Hs & Hsz' & Hsi & Hok & Hel). munfold.
  replace (begin d =? begin d')%nat with true by (symmetry; apply Nat.eqb_eq; unfold begin, make_iterator; lia).
  eexists. split; [done|]. split_and!; simpl; [done|lia| |].
  - eapply blocks_ok_le; [exact Hok|]. lia.
  - intros i y Hi. specialize (Hel (S i) y ltac:(done) Hi). unfold unwrapped in *. simpl.
    by replace (S (start_idx d' + i))%nat with (start_idx d + S i)%nat by lia.
Qed.

Lemma pop_back_spec d x xs : dq_rep d (xs ++ [x]) → ∃ d', pop_back epb d = Ret d' ∧ dq_rep d' xs.
Proof.
  intros Hrep. pose proof Hrep as (_ & Hsz & _). rewrite length_app in Hsz. simpl in Hsz.
  unfold pop_back, erase.
  replace (end_ d - 1 - start_idx d)%nat with (length xs) by (unfold end_, make_iterator; lia).
  pose proof (destroy_spec d (xs ++ [x]) (length xs) Hrep ltac:(rewrite length_app; simpl; lia)) as Hd.
  destruct (get_block_elem_idx _ _ _ _) as [b e].
  destruct Hd as (d' & -> & Hs & Hsz' & Hsi & Hok & Hel). munfold.
  assert (Hel' : ∀ j y, xs !! j = Some y → cell (unwrapped d') (start_idx d + j) = Some y).
  { intros j y Hj. apply Hel; [apply lookup_lt_Some in Hj; lia|]. by apply lookup_app_l_Some. }
  destruct (Nat.eqb_spec (end_ d - 1) (begin d')) as [Hb|Hb]; unfold end_, begin, make_iterator in *.
  - assert (xs = []) as -> by (apply length_zero_iff_nil; lia).
    eexists. split; [done|]. split_and!; simpl; [done|lia| |done].
    eapply blocks_ok_le; [exact Hok|]. lia.
  - replace (start_idx d + size d - 1 =? start_idx d' + size d' - 1)%nat with true
      by (symmetry; apply Nat.eqb_eq; lia).
    eexists. split; [done|]. split_and!; simpl; [done|lia| |].
    + eapply blocks_ok_le; [exact Hok|]. lia.
    + intros j y Hj. unfold unwrapped in *. simpl. rewrite Hsi. by apply Hel'.
Qed.

Lemma deque_ctor_rep : dq_rep deque_ctor [].
Proof.
  split_and!; [simpl; unfold min_block_count; lia|done| |done]. constructor; simpl; [lia| |lia].
  intros r blk. unfold unwrapped, rot. simpl. intros Hr.
  do 16 (destruct r as [|r]; [done|]). done.
Qed.
End refine.

(** ** Histories *)
Inductive dop (T : Type) :=
| DPushBack (v : T)
| DPushFront (v : T)
| DPopBack
| DPopFront.
Arguments DPushBack {T} v.
Arguments DPushFront {T} v.
Arguments DPopBack {T}.
Arguments DPopFront {T}.

Definition run_dop {T} (epb : nat) (o : dop T) (d : deque T) : outcome (deque T) :=
  match o with
  | DPushBack v => push_back epb d v
  | DPushFront v => push_front epb d v
  | DPopBack => pop_back epb d
  | DPopFront => pop_front epb d
  end.

Fixpoint run_dops {T} (epb : nat) (os : list (dop T)) (d : deque T) : outcome (deque T) :=
  match os with
  | [] => Ret d
  | o :: os => d ← run_dop epb o d; run_dops epb os d
  end.

(** The contents; a pop needs an element. *)
Definition spec_dop {T} (o : dop T) (xs : list T) : option (list T) :=
  match o with
  | DPushBack v => Some (xs ++ [v])
  | DPushFront v => Some (v :: xs)
  | DPopBack => match xs with [] => None | _ => Some (removelast xs) end
  | DPopFront => match xs with [] => None | _ :: xs => Some xs end
  end.

Fixpoint spec_dops {T} (os : list (dop T)) (xs : list T) : option (list T) :=
  match os with
  | [] => Some xs
  | o :: os => xs ← spec_dop o xs; spec_dops os xs
  end.

Lemma run_dop_spec {T} epb (o : dop T) d xs ys :
  (0 < epb)%nat → dq_rep epb d xs → spec_dop o xs = Some ys →
  ∃ d', run_dop epb o d = Ret d' ∧ dq_rep epb d' ys.
Proof.
  intros He Hrep Ho. destruct o as [v|v| |]; simpl in *; simplify_eq.
  - by apply push_back_spec.
  - by apply push_front_spec.
  - destruct xs as [|x xs _] using rev_ind; [done|]. rewrite removelast_last in Ho.
    assert (ys = xs) as -> by (by destruct xs; simplify_eq/=). by eapply pop_back_spec.
  - destruct xs as [|x xs]; simplify_eq. by eapply pop_front_spec.
Qed.

Lemma run_dops_spec {T} epb (os : list (dop T)) d xs ys :
  (0 < epb)%nat → dq_rep epb d xs → spec_dops os xs = Some ys →
  ∃ d', run_dops epb os d = Ret d' ∧ dq_rep epb d' ys.
Proof.
  intros He. revert d xs. induction os as [|o os IH]; intros d xs Hrep Ho; simpl in *; [simplify_eq; eauto|].
  destruct (spec_dop o xs) as [xs1|] eqn:H1; [|done].
  destruct (run_dop_spec epb o d xs xs1 He Hrep H1) as (d1 & -> & Hrep1). by apply (IH d1 xs1).
Qed.

Lemma elems_per_block_pos sizeof_T : 0 < sizeof_T → 16 ≤ elems_per_block sizeof_T.
Proof. intros. unfold elems_per_block, block_size. apply Z.div_le_lower_bound; lia. Qed.

(** C26: [deque] implements a double-ended sequence: for every element
    size and every history of pushes and pops at both ends that never
    pops an empty deque, all operations complete (no assertion fails and
    no null block is touched, across block allocation, wrap-around and
    growth of the block array), and [operator[]] then reads exactly the
    elements of the sequence. *)
Theorem deque_refines {T} sizeof_T (os : list (dop T)) ys :
  0 < sizeof_T → spec_dops os [] = Some ys →
  let epb := Z.to_nat (elems_per_block sizeof_T) in
  ∃ d, run_dops epb os deque_ctor = Ret d ∧ size d = length ys ∧
    ∀ i x, ys !! i = Some x → at_ epb d i = Ret x.
Proof.
  intros Hsz Ho epb. pose proof (elems_per_block_pos sizeof_T Hsz).
  assert (He : (0 < epb)%nat) by (unfold epb; lia).
  destruct (run_dops_spec epb os deque_ctor [] ys He) as (d & Hd & Hrep);
    [by apply deque_ctor_rep|done|].
  exists d. split; [done|]. pose proof Hrep as (_ & Hlen & _). split; [done|].
  intros i x Hi. unfold at_.
  rewrite (proj2 (Nat.ltb_lt _ _)) by (rewrite Hlen; by eapply lookup_lt_Some).
  munfold. by eapply index_spec.
Qed.

Lemma deque_refines_witness :
  ∃ d, run_dops (Z.to_nat (elems_per_block 64))
         (replicate 20 (DPushBack 1) ++ replicate 18 DPopFront ++ [DPushFront 5; DPopBack]) deque_ctor
       = Ret d ∧ size d = 2%nat ∧ at_ (Z.to_nat (elems_per_block 64)) d 0 = Ret 5.
Proof.
  destruct (deque_refines 64 (replicate 20 (DPushBack 1) ++ replicate 18 DPopFront ++
    [DPushFront 5; DPopBack]) [5; 1]) as (d & Hd & Hs & Hat); [done|done|].
  exists d. split_and!; [done..|]. by apply Hat.
Defined.

(** [push_front] over a block that earlier [push_back]s left allocated
    overwrites its pointer: with all sixteen blocks filled and then all
    but one element popped from the back, one block is never released. *)
Theorem push_front_leaks_block :
  (d ← push_back_n 2 32 7 (deque_ctor (T := Z));
   d ← pop_back_n 2 31 d;
   d ← push_front 2 d 8;
   d ← deque_dtor 2 d; Ret (live_blocks d)) = Ret 1.
Proof. vm_compute. done. Qed.

