(* ===== verification/DequeOps.v ===== *)
(** * [nonstd::deque]: ranges, copies and [shrink_to_fit]

    The rest of [nonstd/deque.h]: the constructors from a count and a
    range, copies, [swap] and comparison; and the proofs that inserting a
    range at the end appends it, that a copy holds the same sequence, and
    that [shrink_to_fit] keeps the sequence. *)
From S2P Require Import Prelude Deque.

Section ops.
Context {T : Type} (epb : nat).
Implicit Types (d : deque T).

(** [insert(pos, count, value)] *)
Fixpoint insert_count d (cur_idx : nat) (count : nat) (v : T) : outcome (deque T) :=
  match count with
  | O => Ret d
  | S count => '(d, _) ← emplace epb d (make_iterator d cur_idx) v; insert_count d (S cur_idx) count v
  end.
Definition count_ctor (count : nat) (v : T) : outcome (deque T) := insert_count deque_ctor 0 count v.
Definition range_ctor (vs : list T) : outcome (deque T) := insert_range epb deque_ctor 0 vs.

(** [deque(other.begin(), other.end())]: the iterator reads element [i]
    before it is inserted. *)
Fixpoint copy_loop d other (i n : nat) : outcome (deque T) :=
  match n with
  | O => Ret d
  | S n =>
    v ← index epb other i;
    '(d, _) ← emplace epb d (make_iterator d i) v;
    copy_loop d other (S i) n
  end.
Definition copy_ctor other : outcome (deque T) := copy_loop deque_ctor other 0 (size other).
Definition swap d other : deque T * deque T := (other, d).
Definition move_ctor other : deque T * deque T := swap deque_ctor other.
Definition move_assign d other : deque T * deque T := swap d other.
(** From a list of initialisers: the old contents die with the temporary. *)
Definition init_assign d (init : list T) : outcome (deque T) :=
  tmp ← range_ctor init; Ret (move_assign d tmp).1.
(** [deque(count)] and [resize(count)]: value-initialised elements. *)
Context (T_default : T).
Definition sized_ctor (count : nat) : outcome (deque T) := push_back_n epb count T_default deque_ctor.
Definition resize_default d (count : nat) : outcome (deque T) :=
  if (count <? size d)%nat then pop_back_n epb (size d - count) d
  else push_back_n epb (count - size d) T_default d.
(** [*this = deque(other)]: what [d] held is destroyed with the temporary. *)
Definition copy_assign d other : outcome (deque T * deque T) :=
  tmp ← copy_ctor other;
  let '(d, tmp) := swap d tmp in
  tmp ← deque_dtor epb tmp;
  Ret (d, tmp).

Context `{EqDecision T}.
Fixpoint equal_loop d other (i n : nat) : outcome bool :=
  match n with
  | O => Ret true
  | S n =>
    x ← index epb d i; y ← index epb other i;
    if bool_decide (x = y) then equal_loop d other (S i) n else Ret false
  end.
Definition deque_eq d other : outcome bool :=
  if (size d =? size other)%nat then equal_loop d other 0 (size d) else Ret false.
End ops.

(** Moving the start one block on *)
Lemma rot_step {A} sb (bs : list A) x R : (sb < length bs)%nat → rot sb bs = x :: R →
  rot ((sb + 1) mod length bs) bs = R ++ [x].
Proof.
  intros Hs. unfold rot. destruct (lookup_lt_is_Some_2 bs sb Hs) as [y Hy].
  rewrite (drop_S _ _ _ Hy). intros [= -> <-]. destruct (decide (sb + 1 < length bs)%nat) as [Hlt|Hge].
  - rewrite Nat.mod_small by lia. rewrite Nat.add_1_r, (take_S_r _ _ _ Hy). by rewrite app_assoc.
  - replace (sb + 1)%nat with (length bs) by lia. rewrite Nat.Div0.mod_same. simpl. rewrite (drop_ge bs (S sb)) by lia.
    rewrite app_nil_r. simpl. rewrite <- (take_S_r _ _ _ Hy). by rewrite take_ge by lia.
Qed.

Section proofs.
Context {T : Type} (epb : nat) (Hepb : (0 < epb)%nat).
Implicit Types (d : deque T) (xs : list T).

(** ** Ranges *)
Lemma insert_range_spec vs : ∀ d xs, dq_rep epb d xs → ∃ d', insert_range epb d (length xs) vs = Ret d' ∧ dq_rep epb d' (xs ++ vs).
Proof.
  induction vs as [|v vs IH]; intros d xs Hr; cbn [insert_range].
  { exists d. by rewrite app_nil_r. }
  destruct (emplace_end_spec epb Hepb d xs v Hr) as (d1 & it & Heq & Hr1).
  destruct Hr as (_ & Hsz & _). unfold end_ in Heq. rewrite Hsz in Heq. rewrite Heq. munfold.
  destruct (IH d1 (xs ++ [v]) Hr1) as (d2 & Heq2 & Hr2). rewrite length_app, Nat.add_1_r in Heq2.
  exists d2. split; [exact Heq2|]. by rewrite <- app_assoc in Hr2.
Qed.
Lemma insert_count_range n v : ∀ d i, insert_count epb d i n v = insert_range epb d i (replicate n v).
Proof.
  induction n as [|n IH]; intros d i; cbn [insert_count insert_range replicate]; [done|]. munfold.
  destruct (emplace epb d (make_iterator d i) v) as [[d' it]|]; [apply IH|done].
Qed.
Lemma copy_loop_range other ys : dq_rep epb other ys → ∀ n d i, (i + n)%nat = length ys →
  copy_loop epb d other i n = insert_range epb d i (drop i ys).
Proof.
  intros Hr n. induction n as [|n IH]; intros d i Hi; cbn [copy_loop].
  { by rewrite drop_ge by lia. }
  destruct (lookup_lt_is_Some_2 ys i) as [y Hy]; [lia|]. rewrite (index_spec epb Hepb other ys i y Hr Hy), (drop_S _ _ _ Hy).
  cbn [insert_range]. munfold. destruct (emplace epb d (make_iterator d i) y) as [[d' it]|]; [apply IH; lia|done].
Qed.

(** A deque made of a range, and a copy of one, hold its sequence. *)
Theorem deque_range_ctor_holds vs : ∃ d, range_ctor epb vs = Ret d ∧ dq_rep epb d vs.
Proof. apply (insert_range_spec vs deque_ctor []). by apply deque_ctor_rep. Qed.
Theorem deque_copy_ctor_copies other ys : dq_rep epb other ys → ∃ d, copy_ctor epb other = Ret d ∧ dq_rep epb d ys.
Proof.
  intros Hr. unfold copy_ctor. pose proof Hr as (_ & Hsz & _). rewrite Hsz, (copy_loop_range other ys Hr) by done.
  rewrite drop_0. apply (insert_range_spec ys deque_ctor []). by apply deque_ctor_rep.
Qed.
Theorem deque_eq_decides `{EqDecision T} d xs other ys : dq_rep epb d xs → dq_rep epb other ys →
  deque_eq epb d other = Ret (bool_decide (xs = ys)).
Proof.
  intros Hr Ho. unfold deque_eq. pose proof Hr as (_ & Hsz & _). pose proof Ho as (_ & Hsz' & _). rewrite Hsz, Hsz'.
  destruct (Nat.eqb_spec (length xs) (length ys)) as [Hlen|Hne].
  2:{ rewrite bool_decide_false; [done|]. by intros ->. }
  assert (H : ∀ n i, (i + n)%nat = length xs → equal_loop epb d other i n = Ret (bool_decide (drop i xs = drop i ys))).
  { intros n. induction n as [|n IH]; intros i Hi; cbn [equal_loop].
    { rewrite !drop_ge by lia. by rewrite bool_decide_true. }
    destruct (lookup_lt_is_Some_2 xs i) as [x Hx]; [lia|]. destruct (lookup_lt_is_Some_2 ys i) as [y Hy]; [lia|].
    rewrite (index_spec epb Hepb d xs i x Hr Hx), (index_spec epb Hepb other ys i y Ho Hy). munfold.
    rewrite (drop_S _ _ _ Hx), (drop_S _ _ _ Hy). case_bool_decide as Hxy.
    - rewrite IH by lia. f_equal. apply bool_decide_ext. rewrite Hxy. split; [by intros ->|by intros [= ?]].
    - rewrite bool_decide_false by (by intros [= ?]). done. }
  rewrite H by done. by rewrite !drop_0.
Qed.

(** ** Resizing *)
Lemma push_back_n_spec n v : ∀ d xs, dq_rep epb d xs →
  ∃ d', push_back_n epb n v d = Ret d' ∧ dq_rep epb d' (xs ++ replicate n v).
Proof.
  induction n as [|n IH]; intros d xs Hr; cbn [push_back_n replicate]; [exists d; by rewrite app_nil_r|].
  destruct (push_back_spec epb Hepb d xs v Hr) as (d1 & -> & Hr1). munfold.
  destruct (IH d1 (xs ++ [v]) Hr1) as (d2 & -> & Hr2). exists d2. split; [done|]. by rewrite <- app_assoc in Hr2.
Qed.
Lemma pop_back_n_spec n : ∀ d xs, dq_rep epb d xs → (n ≤ length xs)%nat →
  ∃ d', pop_back_n epb n d = Ret d' ∧ dq_rep epb d' (take (length xs - n) xs).
Proof.
  induction n as [|n IH]; intros d xs Hr Hn; cbn [pop_back_n]; [exists d; by rewrite Nat.sub_0_r, firstn_all|].
  destruct xs as [|x xs _] using rev_ind; [simpl in Hn; lia|]. rewrite length_app in *. simpl in *.
  destruct (pop_back_spec epb Hepb d x xs Hr) as (d1 & -> & Hr1). munfold.
  destruct (IH d1 xs Hr1) as (d2 & -> & Hr2); [lia|]. exists d2. split; [done|].
  replace (length xs + 1 - S n)%nat with (length xs - n)%nat by lia. by rewrite take_app_le by lia.
Qed.

(** Resizing keeps the first elements and fills up with the value. *)
Theorem deque_resize_holds d xs n v : dq_rep epb d xs →
  ∃ d', resize epb d n v = Ret d' ∧ resize_default epb v d n = Ret d' ∧
    dq_rep epb d' (take n xs ++ replicate (n - length xs) v).
Proof.
  intros Hr. pose proof Hr as (_ & Hsz & _). unfold resize, resize_default. rewrite Hsz.
  destruct (Nat.ltb_spec n (length xs)).
  - destruct (pop_back_n_spec (length xs - n) d xs Hr) as (d' & Heq & Hr'); [lia|]. exists d'. split_and!; [done..|].
    replace (n - length xs)%nat with 0%nat by lia. rewrite app_nil_r. by replace (length xs - (length xs - n))%nat with n in Hr' by lia.
  - destruct (push_back_n_spec (n - length xs) v d xs Hr) as (d' & Heq & Hr'). exists d'. split_and!; [done..|].
    by rewrite take_ge by lia.
Qed.
Theorem deque_sized_ctor_holds n v : ∃ d, sized_ctor epb v n = Ret d ∧ dq_rep epb d (replicate n v).
Proof. apply (push_back_n_spec n v deque_ctor []). by apply deque_ctor_rep. Qed.
Theorem deque_init_assign_holds d vs : ∃ d', init_assign epb d vs = Ret d' ∧ dq_rep epb d' vs.
Proof.
  unfold init_assign. destruct (deque_range_ctor_holds vs) as (d' & -> & Hr). munfold. by exists d'.
Qed.

(** ** [shrink_to_fit] *)
Lemma cell_cons (b : option (block T)) R k : cell epb (b :: R) (epb + k) = cell epb R k.
Proof.
  unfold cell. replace (epb + k)%nat with (k + 1 * epb)%nat by lia.
  rewrite Nat.div_add, Nat.Div0.mod_add, Nat.add_1_r by lia. done.
Qed.
Lemma free_block_rep d xs r : dq_rep epb d xs → (r < length (blocks d))%nat → (start_idx d + size d ≤ r * epb)%nat →
  dq_rep epb (free_block d ((start_block d + r) mod block_count d)) xs.
Proof.
  intros (Hs & Hsz & [Hc Hl Hu] & Hel) Hr Hge.
  assert (Hun : unwrapped (free_block d ((start_block d + r) mod block_count d)) = <[r := None]> (unwrapped d)).
  { unfold unwrapped, free_block, block_count. simpl. by apply rot_insert. }
  split_and!; [simpl; by rewrite length_insert|done| |].
  - rewrite Hun. simpl. split; [by rewrite length_insert| |].
    + intros r' blk [(_ & [=] & _)|[_ ?]]%list_lookup_insert_Some. eauto.
    + intros r' Hr'. rewrite list_lookup_insert_ne by (intros ->; lia). auto.
  - intros i x Hi. rewrite Hun. simpl. rewrite <- (Hel i x Hi). unfold cell. rewrite list_lookup_insert_ne; [done|].
    intros ->. apply lookup_lt_Some in Hi. pose proof (Nat.Div0.mul_div_le (start_idx d + i) epb). lia.
Qed.
Lemma shrink_end_rep fuel : ∀ d xs r, dq_rep epb d xs → (start_idx d + size d ≤ r * epb)%nat → (r ≤ length (blocks d) < r + fuel)%nat →
  ∃ d', shrink_end fuel d ((start_block d + r) mod block_count d)%nat = Ret d' ∧ dq_rep epb d' xs ∧
    start_idx d' = start_idx d.
Proof.
  induction fuel as [|fuel IH]; intros d xs r Hr Hge Hf; [lia|]. cbn [shrink_end]. pose proof Hr as (Hs & _).
  destruct (Nat.eqb_spec ((start_block d + r) mod block_count d) (start_block d)) as [|Hne]; [by exists d|].
  assert (Hlt : (r < length (blocks d))%nat).
  { destruct (decide (r = length (blocks d))) as [->|]; [|lia]. exfalso. apply Hne. unfold block_count.
    replace (start_block d + length (blocks d))%nat with (start_block d + 1 * length (blocks d))%nat by lia.
    rewrite Nat.Div0.mod_add. by apply Nat.mod_small. }
  destruct (lookup_lt_is_Some_2 (blocks d) ((start_block d + r) mod block_count d)) as [ob Hob].
  { apply Nat.mod_upper_bound. unfold block_count. lia. }
  rewrite Hob. munfold. destruct ob as [blk|]; [|by exists d].
  pose proof (free_block_rep d xs r Hr Hlt Hge) as Hr1.
  destruct (IH _ xs (S r) Hr1) as (d' & Heq & Hr' & Hsi).
  - simpl. lia.
  - simpl. rewrite length_insert. lia.
  - exists d'. split; [|by split]. rewrite <- Heq. f_equal. unfold block_count. simpl. rewrite length_insert.
    rewrite Nat.Div0.add_mod_idemp_l. f_equal. lia.
Qed.
Lemma shrink_start_rep fuel : ∀ d xs, dq_rep epb d xs → (start_idx d < fuel)%nat →
  ∃ d', shrink_start epb fuel d = Ret d' ∧ dq_rep epb d' xs.
Proof.
  induction fuel as [|fuel IH]; intros d xs Hr Hf; [lia|]. cbn [shrink_start].
  destruct (Nat.leb_spec epb (start_idx d)) as [Hle|]; [|by exists d]. pose proof Hr as (Hs & Hsz & [Hc Hl Hu] & Hel).
  destruct (unwrapped d) as [|b R] eqn:Hun.
  { unfold unwrapped in Hun. apply (f_equal length) in Hun. rewrite rot_length in Hun by done. simpl in Hun. lia. }
  set (d' := Deque _ _ _ _ _). assert (Hun' : unwrapped d' = R ++ [None]).
  { unfold unwrapped, d'. simpl. unfold block_count. pose proof (rot_insert (start_block d) (blocks d) 0 None Hs ltac:(lia)) as Hi.
    rewrite Nat.add_0_r, Nat.mod_small in Hi by done. unfold unwrapped in Hun. rewrite Hun in Hi. simpl in Hi.
    pose proof (rot_step (start_block d) (<[start_block d := None]> (blocks d)) None R) as Hst. rewrite length_insert in Hst. by apply Hst. }
  simpl in Hc. apply IH; [|simpl; lia]. split_and!.
  - simpl. rewrite length_insert. apply Nat.mod_upper_bound. unfold block_count. lia.
  - done.
  - rewrite Hun'. simpl. split; [rewrite length_app; simpl; nia| |].
    + intros r blk [?|[? Hx]]%lookup_app_Some; [by apply (Hl (S r))|]. by apply list_lookup_singleton_Some in Hx as [_ ?].
    + intros r Hlt. destruct (Hu (S r)) as [blk Hb]; [simpl; lia|]. exists blk. simpl in Hb.
      rewrite lookup_app_l; [done|by eapply lookup_lt_Some].
  - intros i x Hi. rewrite Hun'. simpl. specialize (Hel i x Hi). apply lookup_lt_Some in Hi.
    replace (start_idx d + i)%nat with (epb + (start_idx d - epb + i))%nat in Hel by lia. rewrite cell_cons in Hel.
    rewrite cell_app; [done|lia|nia].
Qed.

(** [shrink_to_fit] ends and keeps the sequence of elements. *)
Theorem shrink_to_fit_keeps d xs : dq_rep epb d xs → Z.of_nat (start_idx d + size d) < 2 ^ 32 →
  ∃ d', shrink_to_fit epb d = Ret d' ∧ dq_rep epb d' xs.
Proof.
  intros Hr Hb. pose proof Hr as (Hs & Hsz & [Hc Hl Hu] & Hel). unfold shrink_to_fit.
  set (q := Z.to_nat (u32 (Z.of_nat (start_idx d + size d) - 1) / Z.of_nat epb + 1)).
  assert (Hfirst : Z.to_nat ((Z.of_nat (start_block d) + (u32 (Z.of_nat (start_idx d + size d) - 1) / Z.of_nat epb + 1))
      mod Z.of_nat (block_count d)) = ((start_block d + q) mod block_count d)%nat).
  { pose proof (Z.mod_pos_bound (Z.of_nat (start_idx d + size d) - 1) (2 ^ 32) ltac:(lia)) as Hw.
    pose proof (Z.div_pos (u32 (Z.of_nat (start_idx d + size d) - 1)) (Z.of_nat epb) ltac:(unfold wrap; lia) ltac:(lia)).
    unfold q. rewrite Z2Nat.inj_mod by lia. rewrite Z2Nat.inj_add, !Nat2Z.id by lia. done. }
  rewrite Hfirst. clear Hfirst.
  assert (Hq : ∃ r, ((start_block d + q) mod block_count d = (start_block d + r) mod block_count d)%nat ∧
    (start_idx d + size d ≤ r * epb)%nat ∧ (r ≤ length (blocks d))%nat).
  { unfold unwrapped in Hc. rewrite rot_length in Hc by done. destruct (decide (start_idx d + size d = 0)%nat) as [H0|H0].
    - exists (q mod block_count d)%nat. split; [by rewrite Nat.Div0.add_mod_idemp_r|]. split; [lia|].
      apply Nat.lt_le_incl, Nat.mod_upper_bound. unfold block_count. lia.
    - exists q. split; [done|]. unfold q. rewrite wrap_small by lia. set (n := (start_idx d + size d)%nat) in *.
      replace (Z.to_nat ((Z.of_nat n - 1) / Z.of_nat epb + 1)) with ((n - 1) / epb + 1)%nat.
      2:{ replace (Z.of_nat n - 1) with (Z.of_nat (n - 1)) by lia. rewrite <- Nat2Z.inj_div. lia. }
      pose proof (Nat.div_mod (n - 1) epb ltac:(lia)). pose proof (Nat.mod_upper_bound (n - 1) epb ltac:(lia)). nia. }
  destruct Hq as (r & -> & Hge & Hrl).
  destruct (shrink_end_rep (S (block_count d)) d xs r Hr Hge) as (d1 & Heq1 & Hr1 & Hsi); [unfold block_count; lia|].
  rewrite Heq1. munfold. destruct (shrink_start_rep (S (start_idx d1)) d1 xs Hr1 ltac:(lia)) as (d2 & Heq2 & Hr2). rewrite Heq2.
  pose proof Hr2 as (Hs2 & Hsz2 & [_ Hl2 _] & _). destruct (lookup_lt_is_Some_2 (blocks d2) (start_block d2) Hs2) as [ob Hob]. rewrite Hob.
  destruct (empty d2 && _) eqn:He; [|by exists d2]. eexists. split; [done|]. apply andb_true_iff in He as [He%Nat.eqb_eq _].
  rewrite Hsz2 in He. destruct xs; [|done].
  assert (Hr3 : dq_rep epb (set_start_idx d2 0) []).
  { split_and!; [done|done| |done]. split; [simpl; lia|done|]. simpl. intros r' ?. lia. }
  pose proof (free_block_rep _ [] 0 Hr3) as Hr4. simpl in Hr4. unfold block_count in Hr4. simpl in Hr4.
  rewrite Nat.add_0_r, Nat.mod_small in Hr4 by done. apply Hr4; lia.
Qed.
End proofs.

(** Emptied from the back, a deque keeps two blocks until it is shrunk; a
    copy of another holds the same elements. *)
Example demo_shrink :
  (d ← push_back_n 128 129 7 (deque_ctor (T := Z)); d ← pop_back_n 128 129 d;
   d' ← shrink_to_fit 128 d; Ret (live_blocks d, live_blocks d')) = Ret (2, 0).
Proof. vm_compute. done. Qed.
Example demo_copies :
  (d ← range_ctor 2 [1; 2; 3; 4; 5]; d ← pop_front 2 d; d' ← copy_ctor 2 d; b ← deque_eq 2 d d';
   x ← index 2 d' 0; Ret (b, x, start_idx d, start_idx d')) = Ret (true, 2, 1%nat, 0%nat).
Proof. vm_compute. done. Qed.
