(* ===== verification/Libc.v ===== *)
(** * Memory and string functions

    Models [common/libc_minimal.h] ([memcpy], [memset], [memmove],
    [memcmp]), the string functions of [nonstd/libc.h], [ldiv] and
    [isprint] of [nonstd/libc.cc], and [nonstd/hash_bytes.{h,cc}], over a
    memory that maps addresses to bytes ([0..255]). *)
From S2P Require Import Prelude.

Abbreviation mem := (gmap Z Z).

Definition load (p : Z) : M mem Z := m ← getS; liftO (deref (m !! p)).
Definition store (p v : Z) : M mem unit :=
  m ← getS; _ ← liftO (deref (m !! p)); putS (<[p := u8 v]> m).

(** A [char] is signed. *)
Definition char_of (b : Z) : Z := signed 8 b.

(** ** libc_minimal.h *)

(** [for (i = 0; i < n; i++) pdest[i] = psrc[i];], [k] iterations left. *)
Fixpoint copy_up (dest src : Z) (k : nat) : M mem unit :=
  match k with
  | O => mret tt
  | S k => b ← load src; _ ← store dest b; copy_up (dest + 1) (src + 1) k
  end.

(** [for (i = n; i > 0; i--) pdest[i - 1] = psrc[i - 1];] *)
Fixpoint copy_down (dest src : Z) (i : nat) : M mem unit :=
  match i with
  | O => mret tt
  | S i => b ← load (src + Z.of_nat i); _ ← store (dest + Z.of_nat i) b; copy_down dest src i
  end.

Definition memcpy (dest src : Z) (n : nat) : M mem Z := _ ← copy_up dest src n; mret dest.

Fixpoint set_up (s c : Z) (k : nat) : M mem unit :=
  match k with
  | O => mret tt
  | S k => _ ← store s c; set_up (s + 1) c k
  end.
Definition memset (s c : Z) (n : nat) : M mem Z := _ ← set_up s c n; mret s.

Definition memmove (dest src : Z) (n : nat) : M mem Z :=
  _ ← (if dest <? src then copy_up dest src n
       else if src <? dest then copy_down dest src n
       else mret tt);
  mret dest.

Fixpoint memcmp (s1 s2 : Z) (n : nat) : M mem Z :=
  match n with
  | O => mret 0
  | S n =>
    a ← load s1; b ← load s2;
    if a =? b then memcmp (s1 + 1) (s2 + 1) n else mret (if a <? b then -1 else 1)
  end.

(** ** libc.h *)
Fixpoint strlen_loop (fuel : nat) (it s : Z) : M mem Z :=
  match fuel with
  | O => halt OutOfFuel
  | S fuel => b ← load it; if b =? 0 then mret (it - s) else strlen_loop fuel (it + 1) s
  end.

(** Each iteration reads a distinct address, so the memory's size bounds
    the loops over strings. *)
Definition strlen (s : Z) : M mem Z := m ← getS; strlen_loop (S (base.size m)) s s.

Fixpoint strcmp_loop (fuel : nat) (s1 s2 : Z) : M mem Z :=
  match fuel with
  | O => halt OutOfFuel
  | S fuel =>
    a ← load s1; b ← load s2;
    if negb (a =? 0) && negb (b =? 0) && (a =? b) then strcmp_loop fuel (s1 + 1) (s2 + 1)
    else mret (char_of a - char_of b)
  end.
Definition strcmp (s1 s2 : Z) : M mem Z := m ← getS; strcmp_loop (S (base.size m)) s1 s2.

(** [n] is the loop's counter, positive. *)
Fixpoint strncmp_loop (s1 s2 : Z) (n : nat) : M mem Z :=
  match n with
  | O => mret 0
  | S n =>
    a ← load s1; b ← load s2;
    if negb (a =? 0) && negb (b =? 0) && (a =? b)
    then match n with O => mret 0 | _ => strncmp_loop (s1 + 1) (s2 + 1) n end
    else mret (char_of a - char_of b)
  end.
Definition strncmp (s1 s2 : Z) (n : nat) : M mem Z :=
  match n with O => mret 0 | _ => strncmp_loop s1 s2 n end.

Fixpoint strcpy_loop (fuel : nat) (dst src : Z) : M mem unit :=
  match fuel with
  | O => halt OutOfFuel
  | S fuel =>
    b ← load src;
    if b =? 0 then store dst 0
    else _ ← store dst b; strcpy_loop fuel (dst + 1) (src + 1)
  end.
Definition strcpy (dst src : Z) : M mem Z :=
  m ← getS; _ ← strcpy_loop (S (base.size m)) dst src; mret dst.

(** [strncpy]: the first loop copies while [*src && --n], the second
    writes zeros while [--n].  [n] is a [size_t], so [--n] of 0 wraps. *)
Fixpoint strncpy_copy (fuel : nat) (dst src n : Z) : M mem (Z * Z) :=
  match fuel with
  | O => halt OutOfFuel
  | S fuel =>
    b ← load src;
    if b =? 0 then mret (dst, n)
    else
      let n := u32 (n - 1) in
      if n =? 0 then mret (dst, n)
      else b ← load src; _ ← store dst b; strncpy_copy fuel (dst + 1) (src + 1) n
  end.
Fixpoint strncpy_pad (fuel : nat) (dst n : Z) : M mem unit :=
  match fuel with
  | O => halt OutOfFuel
  | S fuel =>
    let n := u32 (n - 1) in
    if n =? 0 then mret tt else _ ← store dst 0; strncpy_pad fuel (dst + 1) n
  end.
Definition strncpy (dst src n : Z) : M mem Z :=
  m ← getS;
  '(d, k) ← strncpy_copy (S (base.size m)) dst src n;
  _ ← (if k =? 0 then mret tt else strncpy_pad (S (Z.to_nat k)) d k);
  mret dst.

Definition isprint (c : Z) : bool := 32 <=? c.

(** [ldiv]: C's division truncates toward zero. *)
Definition ldiv (numer denom : Z) : outcome (Z * Z) :=
  if denom =? 0 then Halt BadAccess
  else
    let q := Z.quot numer denom in
    let r := numer - denom * q in
    if (q <? 0) && (0 <? r) then Ret (q + 1, r - denom) else Ret (q, r).

(** ** hash_bytes: Murmur for a 32-bit [size_t] *)
Definition murmur_m : Z := 0x5bd1e995.

Definition le32 (a b c d : Z) : Z := a + Z.shiftl b 8 + Z.shiftl c 16 + Z.shiftl d 24.

(** [static_cast<unsigned char>(buf[i])] of the last bytes. *)
Fixpoint hash_loop (bytes : list Z) (hash : Z) : Z :=
  match bytes with
  | a :: b :: c :: d :: bytes =>
    let k := u32 (le32 a b c d * murmur_m) in
    let k := Z.lxor k (Z.shiftr k 24) in
    let k := u32 (k * murmur_m) in
    hash_loop bytes (Z.lxor (u32 (hash * murmur_m)) k)
  | [a; b; c] =>
    let hash := Z.lxor hash (u32 (Z.shiftl c 16)) in
    let hash := Z.lxor hash (u32 (Z.shiftl b 8)) in
    u32 (Z.lxor hash a * murmur_m)
  | [a; b] =>
    let hash := Z.lxor hash (u32 (Z.shiftl b 8)) in
    u32 (Z.lxor hash a * murmur_m)
  | [a] => u32 (Z.lxor hash a * murmur_m)
  | [] => hash
  end.

Definition hash_bytes (bytes : list Z) (seed : Z) : Z :=
  let hash := hash_loop bytes (Z.lxor seed (zlen bytes)) in
  let hash := Z.lxor hash (Z.shiftr hash 13) in
  let hash := u32 (hash * murmur_m) in
  Z.lxor hash (Z.shiftr hash 15).

Definition default_seed : Z := 0xc70f6907.

Definition _hash_combine (seed hash : Z) : Z :=
  Z.lxor seed (u32 (hash + 0x9e3779b9 + u32 (Z.shiftl seed 6) + Z.shiftr seed 2)).
Definition hash_combine (hashes : list Z) : Z := foldl _hash_combine 0xDEADBEEF hashes.

(** ** Ranges of memory *)
Definition mapped (m : mem) (p : Z) (n : nat) : Prop :=
  ∀ i, 0 ≤ i < Z.of_nat n → ∃ b, m !! (p + i) = Some b ∧ 0 ≤ b < 256.

Lemma wp_load m p b (Q : Z → mem → Prop) : m !! p = Some b → Q b m → wp (load p) Q m.
Proof. intros Hb HQ. unfold load. apply wp_bind, wp_get. by eapply wp_deref. Qed.

Lemma wp_store m p v (Q : unit → mem → Prop) :
  is_Some (m !! p) → Q tt (<[p := u8 v]> m) → wp (store p v) Q m.
Proof.
  intros [b Hb] HQ. unfold store. apply wp_bind, wp_get, wp_bind. eapply wp_deref; [done|].
  by apply wp_put.
Qed.

(** [m'] holds the bytes of [m] at [src], at [dest], and is [m]
    elsewhere. *)
Definition copied (m m' : mem) (dest src : Z) (n : nat) : Prop :=
  ∀ p, m' !! p = if decide (dest ≤ p < dest + Z.of_nat n) then m !! (src + (p - dest)) else m !! p.

Lemma copied_mapped m m' dest src n q k :
  copied m m' dest src n → mapped m src n → mapped m q k → mapped m' q k.
Proof.
  intros Hc Hs Hq i Hi. rewrite Hc. case_decide as Hd.
  - apply (Hs (q + i - dest)). lia.
  - by apply Hq.
Qed.

Lemma copy_up_spec m dest src n :
  mapped m dest n → mapped m src n → dest ≤ src ∨ src + Z.of_nat n ≤ dest →
  wp (copy_up dest src n) (λ _ m', copied m m' dest src n) m.
Proof.
  revert m dest src. induction n as [|n IH]; intros m dest src Hd Hs Hov; cbn [copy_up].
  { apply wp_ret. intros p. by rewrite decide_False by lia. }
  destruct (Hs 0) as (b & Hb & Hbr); [lia|]. rewrite Z.add_0_r in Hb.
  destruct (Hd 0) as (b' & Hb' & _); [lia|]. rewrite Z.add_0_r in Hb'.
  apply wp_bind. eapply wp_load; [done|]. apply wp_bind, wp_store; [by eexists|].
  rewrite wrap_small by done. set (m1 := <[dest := b]> m).
  assert (Hm1 : ∀ q k, mapped m q k → mapped m1 q k).
  { intros q k Hq i Hi. unfold m1. destruct (decide (dest = q + i)) as [->|].
    - rewrite lookup_insert_eq. eauto.
    - rewrite lookup_insert_ne by done. by apply Hq. }
  eapply wp_mono; [apply IH|].
  - apply Hm1. intros i Hi. replace (dest + 1 + i) with (dest + (1 + i)) by lia. apply Hd. lia.
  - apply Hm1. intros i Hi. replace (src + 1 + i) with (src + (1 + i)) by lia. apply Hs. lia.
  - lia.
  - intros [] m' Hc p. rewrite Hc. unfold m1. destruct (decide (p = dest)) as [->|].
    + rewrite decide_False, decide_True, lookup_insert_eq by lia.
      replace (src + (dest - dest)) with src by lia. done.
    + case_decide; case_decide; try lia.
      * rewrite lookup_insert_ne by lia. f_equal. lia.
      * by rewrite lookup_insert_ne by lia.
Qed.

Lemma copy_down_spec m dest src n :
  mapped m dest n → mapped m src n → src ≤ dest →
  wp (copy_down dest src n) (λ _ m', copied m m' dest src n) m.
Proof.
  revert m. induction n as [|n IH]; intros m Hd Hs Hov; cbn [copy_down].
  { apply wp_ret. intros p. by rewrite decide_False by lia. }
  destruct (Hs (Z.of_nat n)) as (b & Hb & Hbr); [lia|].
  destruct (Hd (Z.of_nat n)) as (b' & Hb' & _); [lia|].
  apply wp_bind. eapply wp_load; [done|]. apply wp_bind, wp_store; [by eexists|].
  rewrite wrap_small by done. set (m1 := <[dest + Z.of_nat n := b]> m).
  assert (Hm1 : ∀ q, mapped m q (S n) → mapped m1 q n).
  { intros q Hq i Hi. unfold m1. destruct (decide (dest + Z.of_nat n = q + i)) as [->|].
    - rewrite lookup_insert_eq. eauto.
    - rewrite lookup_insert_ne by done. apply Hq. lia. }
  eapply wp_mono; [apply IH; [by apply Hm1..|done]|].
  intros [] m' Hc p. rewrite Hc. unfold m1. destruct (decide (p = dest + Z.of_nat n)) as [->|].
  - rewrite decide_False, decide_True, lookup_insert_eq by lia. rewrite <- Hb. f_equal. lia.
  - case_decide; case_decide; try lia.
    + by rewrite lookup_insert_ne by lia.
    + by rewrite lookup_insert_ne by lia.
Qed.

(** [memmove] copies correctly whether or not the regions overlap,
    and in either direction: the destination receives the bytes the
    source had before the call, nothing else changes, and [dest] is
    returned. *)
Theorem memmove_correct m dest src n :
  mapped m dest n → mapped m src n →
  ∃ m', memmove dest src n m = Ret (dest, m') ∧ copied m m' dest src n.
Proof.
  intros Hd Hs. cut (wp (memmove dest src n) (λ r m', r = dest ∧ copied m m' dest src n) m).
  { intros (r & m' & ? & -> & ?)%wp_run. by exists m'. }
  unfold memmove. apply wp_bind. destruct (Z.ltb_spec dest src); [|destruct (Z.ltb_spec src dest)].
  - eapply wp_mono; [apply copy_up_spec; [done..|lia]|]. intros [] m' Hc. by apply wp_ret.
  - eapply wp_mono; [apply copy_down_spec; [done..|lia]|]. intros [] m' Hc. by apply wp_ret.
  - apply wp_ret, wp_ret. split; [done|]. intros p. case_decide; [|done]. f_equal. lia.
Qed.

(** Overlapping on purpose. *)
Definition demo_mem : mem := {[10 := 1; 11 := 2; 12 := 3; 13 := 4]}.

Lemma demo_mem_mapped p n :
  10 ≤ p → p + Z.of_nat n ≤ 14 → mapped demo_mem p n.
Proof.
  intros ?? i Hi. assert (p + i = 10 ∨ p + i = 11 ∨ p + i = 12 ∨ p + i = 13) as Hp by lia.
  destruct Hp as [-> | [-> | [-> | ->]]]; eexists; (split; [reflexivity|lia]).
Qed.

Lemma memmove_correct_witness :
  ∃ m', memmove 11 10 3 demo_mem = Ret (11, m') ∧ m' !! 13 = Some 3 ∧ m' !! 10 = Some 1.
Proof.
  destruct (memmove_correct demo_mem 11 10 3) as (m' & Heq & Hc);
    [apply demo_mem_mapped; lia..|].
  exists m'. split; [done|]. rewrite !Hc. done.
Defined.

(** ** Strings in memory *)
Definition bytes_at (m : mem) (p : Z) (bs : list Z) : Prop :=
  ∀ i b, bs !! i = Some b → m !! (p + Z.of_nat i) = Some b.

Definition is_byte (b : Z) : Prop := 0 ≤ b < 256.

Lemma bytes_at_cons m p b bs :
  bytes_at m p (b :: bs) ↔ m !! p = Some b ∧ bytes_at m (p + 1) bs.
Proof.
  split.
  - intros H. split; [rewrite <- (Z.add_0_r p); by apply (H O)|]. intros i c Hi.
    replace (p + 1 + Z.of_nat i) with (p + Z.of_nat (S i)) by lia. by apply H.
  - intros [H0 H] [|i] c Hi; simpl in Hi; [simplify_eq; by rewrite Z.add_0_r|].
    replace (p + Z.of_nat (S i)) with (p + 1 + Z.of_nat i) by lia. by apply H.
Qed.

(** A NUL-terminated string. *)
Definition cstr (m : mem) (p : Z) (bs : list Z) : Prop :=
  bytes_at m p (bs ++ [0]) ∧ Forall (λ b, 0 < b < 256) bs.

Lemma bytes_at_size m p bs : bytes_at m p bs → (length bs ≤ base.size m)%nat.
Proof.
  intros H. set (ks := (λ i, p + Z.of_nat i) <$> seq 0 (length bs)).
  assert (Hnd : NoDup ks).
  { apply NoDup_fmap_2; [intros ???; lia|]. apply NoDup_seq. }
  replace (length bs) with (length ks) by (unfold ks; by rewrite length_fmap, length_seq).
  rewrite <- size_dom, <- (size_list_to_set (C := gset Z)) by done.
  apply subseteq_size. intros x. rewrite elem_of_list_to_set. unfold ks.
  intros (i & -> & Hi%elem_of_seq)%list_elem_of_fmap. apply elem_of_dom.
  destruct (lookup_lt_is_Some_2 bs i) as [b Hb]; [lia|]. exists b. by apply H.
Qed.

Lemma strlen_loop_spec m p bs s fuel :
  cstr m p bs → (length bs < fuel)%nat →
  strlen_loop fuel p s m = Ret (p + zlen bs - s, m).
Proof.
  intros [Hb Hf]. revert p Hb fuel. induction Hf as [|b bs Hb0 Hf IH]; intros p Hb [|fuel] Hfu;
    simpl in Hfu; try lia; simpl in Hb; apply bytes_at_cons in Hb as [H0 Hb]; cbn [strlen_loop];
    unfold load; munfold; rewrite H0; munfold.
  - rewrite Z.eqb_refl. do 2 f_equal. simpl. lia.
  - rewrite (proj2 (Z.eqb_neq b 0)) by lia. rewrite IH by (done || lia). do 2 f_equal. simpl. lia.
Qed.

Lemma strlen_spec m p bs : cstr m p bs → strlen p m = Ret (zlen bs, m).
Proof.
  intros Hc. unfold strlen. munfold. erewrite strlen_loop_spec; [|done|].
  - do 2 f_equal. lia.
  - destruct Hc as [Hb _]. apply bytes_at_size in Hb. rewrite length_app in Hb. simpl in Hb. lia.
Qed.

(** [strncmp] of [n] bytes as a function of the bytes. *)
Fixpoint strncmp_bytes (xs ys : list Z) : Z :=
  match xs, ys with
  | a :: xs, b :: ys =>
    if negb (a =? 0) && negb (b =? 0) && (a =? b) then strncmp_bytes xs ys
    else char_of a - char_of b
  | _, _ => 0
  end.

Lemma strncmp_loop_spec m p q xs ys :
  bytes_at m p xs → bytes_at m q ys → length xs = length ys →
  strncmp_loop p q (length xs) m = Ret (strncmp_bytes xs ys, m).
Proof.
  revert p q ys. induction xs as [|a xs IH]; intros p q [|b ys] Hx Hy Hl; try done.
  apply bytes_at_cons in Hx as [Ha Hx], Hy as [Hb Hy]. cbn [length strncmp_loop strncmp_bytes].
  unfold load. munfold. rewrite Ha, Hb.
  destruct (negb (a =? 0) && negb (b =? 0) && (a =? b)); [|done].
  simpl in Hl. destruct xs as [|x xs]; [by destruct ys|].
  cbn [length] in *. apply (IH (p + 1) (q + 1) ys); (done || lia).
Qed.

Lemma strncmp_spec m p q xs ys :
  bytes_at m p xs → bytes_at m q ys → length xs = length ys →
  strncmp p q (length xs) m = Ret (strncmp_bytes xs ys, m).
Proof.
  intros. unfold strncmp. destruct xs as [|x xs]; [by destruct ys|]. cbn [length].
  by apply (strncmp_loop_spec m p q (x :: xs) ys).
Qed.

Lemma char_of_inj a b : is_byte a → is_byte b → char_of a - char_of b = 0 → a = b.
Proof.
  unfold is_byte, char_of, signed. intros ??. rewrite !wrap_small by lia.
  repeat case_bool_decide; simpl in *; lia.
Qed.

Lemma strncmp_bytes_zero xs ys :
  Forall (λ b, 0 < b < 256) xs → Forall is_byte ys → length xs = length ys →
  strncmp_bytes xs ys = 0 ↔ xs = ys.
Proof.
  intros Hx. revert ys. induction Hx as [|a xs Ha Hx IH]; intros [|b ys] Hy Hl; try done; simpl in *.
  apply Forall_cons in Hy as [Hb Hy].
  destruct (Z.eqb_spec a 0); [lia|]. destruct (Z.eqb_spec b 0); simpl.
  - split; [intros Hz; apply char_of_inj in Hz; unfold is_byte in *; lia|]. intros [= -> ->]. lia.
  - destruct (Z.eqb_spec a b) as [->|Hne]; simpl.
    + rewrite IH by (done || lia). split; [by intros ->|by intros [= ->]].
    + split; [intros Hz; apply char_of_inj in Hz; unfold is_byte in *; lia|congruence].
Qed.

(** On NUL-terminated strings of the same length, [strlen] returns
    that length and [strncmp] over it is 0 exactly when the strings are
    equal (no byte past the terminators is read). *)
Theorem strlen_strncmp m p q xs ys :
  cstr m p xs → cstr m q ys → length xs = length ys →
  strlen p m = Ret (zlen xs, m) ∧
  ∃ r, strncmp p q (length xs) m = Ret (r, m) ∧ (r = 0 ↔ xs = ys).
Proof.
  intros [Hx Hfx] [Hy Hfy] Hl. split; [by apply strlen_spec|].
  assert (Hsub : ∀ (p : Z) bs, bytes_at m p (bs ++ [0]) → bytes_at m p bs)
    by (intros p' bs H i b Hi; apply H; by apply lookup_app_l_Some).
  exists (strncmp_bytes xs ys). split; [apply strncmp_spec; auto|].
  apply strncmp_bytes_zero; [done| |done]. eapply Forall_impl; [exact Hfy|]. unfold is_byte. lia.
Qed.

Lemma strlen_strncmp_witness :
  let m : mem := {[1 := 104; 2 := 105; 3 := 0; 7 := 104; 8 := 111; 9 := 0]} in
  strlen 1 m = Ret (2, m) ∧ ∃ r, strncmp 1 7 2 m = Ret (r, m) ∧ r ≠ 0.
Proof.
  intros m.
  assert (H1 : cstr m 1 [104; 105]).
  { split; [|repeat constructor; lia]. intros [|[|[|i]]] b Hb; simplify_eq/=; done. }
  assert (H2 : cstr m 7 [104; 111]).
  { split; [|repeat constructor; lia]. intros [|[|[|i]]] b Hb; simplify_eq/=; done. }
  destruct (strlen_strncmp m 1 7 [104; 105] [104; 111] H1 H2 eq_refl) as [Hl (r & Hr & Hiff)].
  split; [done|]. exists r. split; [done|]. rewrite Hiff. done.
Defined.

(** [strncpy(dst, src, n)] writes at most [n - 1] bytes, where the C
    library's writes exactly [n]: the string of length 2 copied with
    [n = 2] loses its second character. *)
Theorem strncpy_drops_last :
  let m : mem := {[1 := 104; 2 := 105; 3 := 0; 7 := 255; 8 := 255; 9 := 255]} in
  match strncpy 7 1 2 m with
  | Ret (_, m') => m' !! 7 = Some 104 ∧ m' !! 8 = Some 255
  | Halt _ => False
  end.
Proof. vm_compute. done. Qed.
