(* ===== verification/Printf.v ===== *)
(** * Formatted output

    Models the [stdio.h] part of [nonstd/libc.cc]: parsing of format
    specifiers, integer conversion, and [_vsnprintf] with its two
    writers.  A format string and a [%s] argument are the bytes before
    their NUL; the variadic arguments are a list. *)
From S2P Require Import Prelude.

Inductive format_spec_type :=
| FS_SIGNED | FS_UNSIGNED | FS_HEX | FS_BINARY | FS_OCTAL | FS_STR | FS_CHAR | FS_PCT | FS_INVAL.

(** [enum format_spec_length]; the parser depends on its order. *)
Definition FS_NORMAL : Z := 0.
Definition FS_LONG : Z := 1.
Definition FS_LONG_LONG : Z := 2.
Definition FS_SHORT : Z := 3.
Definition FS_SHORT_SHORT : Z := 4.

Record format_spec := FormatSpec { length_ : Z; type_ : format_spec_type }.

(** ASCII *)
Definition ch_pct : Z := 37.
Definition ch_minus : Z := 45.
Definition ch_0 : Z := 48.
Definition ch_a : Z := 97.
Definition ch_b : Z := 98.
Definition ch_c : Z := 99.
Definition ch_d : Z := 100.
Definition ch_h : Z := 104.
Definition ch_l : Z := 108.
Definition ch_o : Z := 111.
Definition ch_s : Z := 115.
Definition ch_u : Z := 117.
Definition ch_x : Z := 120.

(** [*it], where the terminating NUL follows the bytes. *)
Definition hd0 (s : list Z) : Z := default 0 (head s).

(** [while (length < max && *it == c) { ++length; ++it; }]: the length
    field, the rest of the string and the number of bytes consumed. *)
Fixpoint parse_length (len max c : Z) (s : list Z) (k : Z) : Z * list Z * Z :=
  match s with
  | x :: s' =>
    if (len <? max) && (x =? c) then parse_length (len + 1) max c s' (k + 1) else (len, s, k)
  | [] => (len, s, k)
  end.

Definition spec_type (c : Z) : format_spec_type :=
  if c =? ch_pct then FS_PCT
  else if c =? ch_c then FS_CHAR
  else if c =? ch_d then FS_SIGNED
  else if c =? ch_u then FS_UNSIGNED
  else if c =? ch_x then FS_HEX
  else if c =? ch_o then FS_OCTAL
  else if c =? ch_b then FS_BINARY
  else if c =? ch_s then FS_STR
  else FS_INVAL.

Definition _parse_format_spec (s : list Z) : format_spec * Z :=
  match s with
  | x :: (y :: _) as s' =>
    if negb (x =? ch_pct) then (FormatSpec FS_NORMAL FS_INVAL, 1)
    else
      let it := tail s in
      let '(len, it, k) :=
        if hd0 it =? ch_l then parse_length FS_NORMAL FS_LONG_LONG ch_l it 1
        else if hd0 it =? ch_h then parse_length FS_SHORT FS_SHORT_SHORT ch_h it 1
        else (FS_NORMAL, it, 1) in
      match spec_type (hd0 it) with
      | FS_INVAL => (FormatSpec len FS_INVAL, 1)
      | t => (FormatSpec len t, k + 1)
      end
  | _ => (FormatSpec FS_NORMAL FS_INVAL, 1)
  end.

(** [while (val) { digit = val % radix; buf[i++] = ...; val /= radix; }] *)
Definition digit_char (digit : Z) : Z :=
  digit + (if 10 <=? digit then ch_a - 10 else ch_0).

Fixpoint utoa_loop (fuel : nat) (val radix : Z) (buf : list Z) : outcome (list Z) :=
  match fuel with
  | O => Halt OutOfFuel
  | S fuel =>
    if val =? 0 then Ret buf
    else utoa_loop fuel (val / radix) radix (buf ++ [digit_char (val mod radix)])
  end.

(** [for (j = i / 2 - 1; j >= 0; --j) swap(buf[j], buf[i - 1 - j]);],
    [k] is [j + 1]. *)
Fixpoint reverse_loop (k : nat) (buf : list Z) : outcome (list Z) :=
  match k with
  | O => Ret buf
  | S j =>
    a ← deref (buf !! j);
    b ← deref (buf !! (length buf - 1 - j)%nat);
    reverse_loop j (<[(length buf - 1 - j)%nat := a]> (<[j := b]> buf))
  end.

Definition radix_ok (radix : Z) : bool :=
  (radix =? 2) || (radix =? 8) || (radix =? 10) || (radix =? 16).

(** The bytes written to [buf]; [None] is the [return -1] of an
    unsupported radix.  At most 64 digits. *)
Definition _utoa (val radix : Z) : outcome (option (list Z)) :=
  if val =? 0 then Ret (Some [ch_0])
  else if negb (radix_ok radix) then Ret None
  else
    buf ← utoa_loop 65 val radix [];
    buf ← reverse_loop (length buf / 2) buf;
    Ret (Some buf).

(** [val] is an [int64_t]. *)
Definition _itoa (val : Z) : outcome (option (list Z)) :=
  if val <? 0 then
    r ← _utoa (u64 (- u64 val)) 10;
    Ret (match r with Some b => Some (ch_minus :: b) | None => None end)
  else _utoa val 10.

(** ** Variadic arguments: what [va_arg] finds *)
Inductive arg :=
| AInt (z : Z)           (* 32 bits *)
| ALong (z : Z)          (* 64 bits *)
| AStr (s : list Z).

Definition pop_arg (args : list arg) : outcome (arg * list arg) :=
  match args with [] => Halt BadAccess | a :: args => Ret (a, args) end.
Definition va_uint (length : Z) (args : list arg) : outcome (Z * list arg) :=
  '(a, args) ← pop_arg args;
  match a with
  | AInt z => if (length =? FS_LONG) || (length =? FS_LONG_LONG) then Halt BadAccess else Ret (u32 z, args)
  | ALong z => if (length =? FS_LONG) || (length =? FS_LONG_LONG) then Ret (u64 z, args) else Halt BadAccess
  | AStr _ => Halt BadAccess
  end.
Definition va_sint (length : Z) (args : list arg) : outcome (Z * list arg) :=
  '(u, args) ← va_uint length args;
  Ret (signed (if (length =? FS_LONG) || (length =? FS_LONG_LONG) then 64 else 32) u, args).

Definition radix_of (t : format_spec_type) : Z :=
  match t with FS_BINARY => 2 | FS_OCTAL => 8 | FS_UNSIGNED => 10 | _ => 16 end.

Definition digits_of (r : outcome (option (list Z))) : outcome (list Z) := o ← r; deref o.

(** ** [_vsnprintf], for a writer [write c j null_term] on a state [W] *)
Section vsnprintf.
Context {W : Type} (write : Z → Z → bool → W → W).

(** [for (k = 0; k < len; ++k) write(s[k], buf, j++, n, false);] *)
Fixpoint write_all (s : list Z) (j : Z) (w : W) : Z * W :=
  match s with
  | [] => (j, w)
  | c :: s => write_all s (j + 1) (write c j false w)
  end.

Fixpoint vsn_loop (fuel : nat) (fmt : list Z) (args : list arg) (j : Z) (w : W)
    : outcome (Z * W) :=
  match fuel with
  | O => Halt OutOfFuel
  | S fuel =>
    match fmt with
    | [] => Ret (j, w)
    | x :: fmt' =>
      if x =? ch_pct then
        let '(fs, i) := _parse_format_spec fmt in
        let rest := drop (Z.to_nat i) fmt in
        match type_ fs with
        | FS_PCT => vsn_loop fuel rest args (j + 1) (write ch_pct j false w)
        | FS_CHAR =>
          '(c, args) ← va_uint FS_NORMAL args;
          vsn_loop fuel rest args (j + 1) (write (u8 c) j false w)
        | FS_BINARY | FS_OCTAL | FS_UNSIGNED | FS_HEX =>
          '(u, args) ← va_uint (length_ fs) args;
          s ← digits_of (_utoa u (radix_of (type_ fs)));
          let '(j, w) := write_all s j w in vsn_loop fuel rest args j w
        | FS_SIGNED =>
          '(d, args) ← va_sint (length_ fs) args;
          s ← digits_of (_itoa d);
          let '(j, w) := write_all s j w in vsn_loop fuel rest args j w
        | FS_STR =>
          '(a, args) ← pop_arg args;
          match a with
          | AStr s => let '(j, w) := write_all s j w in vsn_loop fuel rest args j w
          | _ => Halt BadAccess
          end
        | FS_INVAL => vsn_loop fuel rest args j w
        end
      else vsn_loop fuel fmt' args (j + 1) (write x j false w)
    end
  end.

Definition _vsnprintf (n : Z) (fmt : list Z) (args : list arg) (w : W) : outcome (Z * W) :=
  '(j, w) ← vsn_loop (S (length fmt)) fmt args 0 w;
  Ret (j, write 0 (if j <? n then j else u32 (n - 1)) true w).
End vsnprintf.

(** ** Writers *)
Definition _buf_writer (buf_sz : Z) (c i : Z) (null_term : bool) (buf : list Z) : list Z :=
  if buf_sz <=? i then buf else <[Z.to_nat i := c]> buf.

(** The console and the serial port, as the bytes sent. *)
Definition _term_writer (c i : Z) (null_term : bool) (out : list Z) : list Z :=
  if null_term then out else out ++ [c].

Definition vsnprintf (buf : list Z) (n : Z) (fmt : list Z) (args : list arg) : outcome (Z * list Z) :=
  _vsnprintf (_buf_writer n) n fmt args buf.
Definition vprintf (out : list Z) (fmt : list Z) (args : list arg) : outcome (Z * list Z) :=
  _vsnprintf _term_writer (2 ^ 32 - 1) fmt args out.

(** The header comment of the parser announces [hh]; [%hhd] is rejected,
    because one [h] already advances to [FS_SHORT_SHORT]. *)
Theorem hh_is_invalid :
  _parse_format_spec [ch_pct; ch_h; ch_h; ch_d] = (FormatSpec FS_SHORT_SHORT FS_INVAL, 1) ∧
  _parse_format_spec [ch_pct; ch_h; ch_d] = (FormatSpec FS_SHORT_SHORT FS_SIGNED, 3).
Proof. done. Qed.

(** ** Integer conversion *)
Definition char_digit (c : Z) : Z := if c <? ch_a then c - ch_0 else c - ch_a + 10.

(** Reading digits back. *)
Definition atoi (radix : Z) (s : list Z) : Z := foldl (λ acc c, acc * radix + char_digit c) 0 s.

(** Little-endian value, as the loop produces the digits. *)
Fixpoint le_value (radix : Z) (s : list Z) : Z :=
  match s with [] => 0 | c :: s => char_digit c + radix * le_value radix s end.

Lemma le_value_app radix s c :
  le_value radix (s ++ [c]) = le_value radix s + radix ^ zlen s * char_digit c.
Proof.
  induction s as [|x s IH]; cbn [le_value app length]; [simpl; lia|].
  rewrite IH, Nat2Z.inj_succ, Z.pow_succ_r by lia. lia.
Qed.

Lemma atoi_rev radix s : atoi radix (reverse s) = le_value radix s.
Proof.
  induction s as [|c s IH]; [done|]. rewrite reverse_cons. unfold atoi in *.
  rewrite foldl_app. simpl. rewrite IH. lia.
Qed.

Lemma digit_roundtrip d : 0 ≤ d < 16 → char_digit (digit_char d) = d ∧ (digit_char d = ch_0 ↔ d = 0).
Proof.
  intros Hd. unfold digit_char, char_digit, ch_0, ch_a.
  destruct (Z.leb_spec 10 d);
    [destruct (Z.ltb_spec (d + (97 - 10)) 97)|destruct (Z.ltb_spec (d + 48) 97)]; lia.
Qed.

Lemma radix_ok_range radix : radix_ok radix = true → 2 ≤ radix ≤ 16.
Proof. unfold radix_ok. lia. Qed.

Lemma utoa_loop_spec fuel val radix buf :
  radix_ok radix = true → 0 ≤ val < 2 ^ (Z.of_nat fuel - 1) →
  ∃ s, utoa_loop fuel val radix buf = Ret (buf ++ s) ∧ le_value radix s = val ∧
       (if decide (val = 0) then s = [] else ∃ c, last s = Some c ∧ c ≠ ch_0) ∧ (length s < fuel)%nat.
Proof.
  intros Hr. pose proof (radix_ok_range radix Hr) as Hrr. revert val buf.
  induction fuel as [|fuel IH]; intros val buf Hv.
  { change (Z.of_nat 0 - 1) with (-1) in Hv. rewrite Z.pow_neg_r in Hv by lia. lia. }
  cbn [utoa_loop]. destruct (Z.eqb_spec val 0) as [->|Hne].
  { exists []. rewrite app_nil_r. split_and!; [done..|simpl; lia]. }
  assert (Hf : 0 < Z.of_nat fuel).
  { destruct fuel; [|lia]. change (Z.of_nat 1 - 1) with 0 in Hv. lia. }
  destruct (IH (val / radix) (buf ++ [digit_char (val mod radix)])) as (s & -> & Hs & Hl & Hlen).
  { split; [apply Z.div_pos; lia|]. apply Z.div_lt_upper_bound; [lia|].
    replace (Z.of_nat (S fuel) - 1) with (Z.succ (Z.of_nat fuel - 1)) in Hv by lia.
    rewrite Z.pow_succ_r in Hv by lia. nia. }
  exists (digit_char (val mod radix) :: s). rewrite <- app_assoc. split; [done|].
  pose proof (Z.mod_pos_bound val radix ltac:(lia)) as Hm. pose proof (Z.div_mod val radix ltac:(lia)).
  destruct (digit_roundtrip (val mod radix)) as [Hd Hd0]; [lia|].
  split_and!.
  - cbn [le_value]. rewrite Hs, Hd. lia.
  - rewrite decide_False by done. rewrite last_cons. destruct (decide (val / radix = 0)) as [Hz|Hz].
    + subst s. simpl. eexists. split; [done|]. intros Hc. apply Hd0 in Hc. lia.
    + destruct Hl as (c & -> & Hc). eauto.
  - simpl. lia.
Qed.

(** The in-place reversal. *)
Lemma reverse_loop_mid l mid r :
  length l = length r → reverse_loop (length l) (l ++ mid ++ r) = Ret (reverse r ++ mid ++ reverse l).
Proof.
  revert mid r. induction l as [|x l IH] using rev_ind; intros mid r Hl.
  - destruct r; [|done]. rewrite reverse_nil. done.
  - rewrite length_app in Hl. simpl in Hl. destruct r as [|y r]; [simpl in Hl; lia|]. simpl in Hl.
    rewrite length_app. simpl. replace (length l + 1)%nat with (S (length l)) by lia. cbn [reverse_loop].
    rewrite <- app_assoc. simpl. rewrite (list_lookup_middle l (mid ++ y :: r) x (length l)) by done.
    rewrite !length_app. cbn [length]. rewrite length_app. cbn [length].
    replace (length l + S (length mid + S (length r)) - 1 - length l)%nat
      with (length (l ++ x :: mid)) by (rewrite length_app; simpl; lia).
    assert (Hsplit : l ++ x :: mid ++ y :: r = (l ++ x :: mid) ++ y :: r) by (by rewrite <- app_assoc).
    assert (Hy : (l ++ x :: mid ++ y :: r) !! length (l ++ x :: mid) = Some y)
      by (rewrite Hsplit; by apply list_lookup_middle).
    rewrite Hy. munfold.
    replace (length l) with (length l + 0)%nat at 2 by lia. rewrite insert_app_r. simpl.
    replace (l ++ y :: mid ++ y :: r) with ((l ++ y :: mid) ++ y :: r) by (by rewrite <- app_assoc).
    replace (length (l ++ x :: mid)) with (length (l ++ y :: mid) + 0)%nat
      by (rewrite !length_app; simpl; lia).
    rewrite insert_app_r. simpl. rewrite <- app_assoc.
    pose proof (IH ([y] ++ mid ++ [x]) r ltac:(lia)) as HIH.
    replace (l ++ (y :: mid) ++ x :: r) with (l ++ ([y] ++ mid ++ [x]) ++ r)
      by (simpl; rewrite <- app_assoc; done).
    rewrite HIH. f_equal. rewrite reverse_cons, reverse_snoc. simpl. rewrite <- !app_assoc. done.
Qed.

Lemma reverse_loop_spec buf : reverse_loop (length buf / 2) buf = Ret (reverse buf).
Proof.
  set (k := (length buf / 2)%nat). pose proof (Nat.div_mod (length buf) 2 ltac:(lia)) as Hdm.
  pose proof (Nat.mod_upper_bound (length buf) 2 ltac:(lia)) as Hub. fold k in Hdm.
  set (l := take k buf). set (mid := take (length buf mod 2) (drop k buf)).
  set (r := drop (length buf mod 2) (drop k buf)).
  assert (Hbuf : buf = l ++ mid ++ r) by (unfold l, mid, r; by rewrite !take_drop).
  assert (Hl : length l = k) by (unfold l; rewrite length_take; lia).
  assert (Hr : length r = k) by (unfold r; rewrite !length_drop; lia).
  assert (Hm : (length mid ≤ 1)%nat) by (unfold mid; rewrite length_take, length_drop; lia).
  rewrite Hbuf at 1. rewrite <- Hl at 1. rewrite reverse_loop_mid by lia.
  rewrite Hbuf, !reverse_app, <- app_assoc. do 3 f_equal.
  destruct mid as [|x [|]]; [done|done|simpl in Hm; lia].
Qed.

(** [_utoa] renders every 64-bit value in the four supported
    radices, in at most 64 digits, without leading zeros, and reading
    the digits back gives the value. *)
Theorem utoa_roundtrip val radix :
  0 ≤ val < 2 ^ 64 → radix_ok radix = true →
  ∃ s, _utoa val radix = Ret (Some s) ∧ atoi radix s = val ∧
    (0 < length s ≤ 64)%nat ∧ (val ≠ 0 → head s ≠ Some ch_0).
Proof.
  intros Hv Hr. unfold _utoa. destruct (Z.eqb_spec val 0) as [->|Hne].
  { exists [ch_0]. split_and!; [done| |simpl; lia..|done]. unfold atoi. simpl. unfold char_digit. done. }
  rewrite Hr. cbn [negb].
  destruct (utoa_loop_spec 65 val radix [] Hr) as (s & -> & Hs & Hl & Hlen);
    [change (Z.of_nat 65 - 1) with 64; lia|].
  rewrite decide_False in Hl by done. destruct Hl as (c & Hc & Hc0).
  munfold. rewrite reverse_loop_spec. simpl. exists (reverse s). split_and!; [done|..].
  - by rewrite atoi_rev.
  - rewrite length_reverse. destruct s; [done|]. simpl. lia.
  - rewrite length_reverse. lia.
  - intros _. rewrite head_reverse, Hc. congruence.
Qed.

Lemma utoa_roundtrip_witness :
  ∃ s, _utoa 48879 16 = Ret (Some s) ∧ s = [98; 101; 101; 102] ∧ atoi 16 s = 48879.
Proof.
  destruct (utoa_roundtrip 48879 16) as (s & Hs & Ha & _); [lia|done|].
  exists s. split_and!; [done| |done]. vm_compute in Hs. by injection Hs as <-.
Defined.

(** ** Both writers receive the same characters *)
Section writers.
Context {W : Type} (write : Z → Z → bool → W → W).

Fixpoint writes (s : list Z) (j : Z) (w : W) : W :=
  match s with [] => w | c :: s => writes s (j + 1) (write c j false w) end.

Lemma write_all_writes s j w : write_all write s j w = (j + zlen s, writes s j w).
Proof.
  revert j w. induction s as [|c s IH]; intros j w; simpl; [by rewrite Z.add_0_r|].
  rewrite IH. f_equal. lia.
Qed.

Lemma writes_app s t j w : writes (s ++ t) j w = writes t (j + zlen s) (writes s j w).
Proof.
  revert j w. induction s as [|c s IH]; intros j w; simpl; [by rewrite Z.add_0_r|].
  rewrite IH. f_equal. lia.
Qed.
End writers.

Lemma writes_term s j out : writes _term_writer s j out = out ++ s.
Proof.
  revert j out. induction s as [|c s IH]; intros j out; simpl; [by rewrite app_nil_r|].
  rewrite IH. unfold _term_writer. by rewrite <- app_assoc.
Qed.

Section simulation.
Context {W : Type} (write : Z → Z → bool → W → W).

(** From equal positions on, what the terminal writer appends is what
    any writer receives. *)
Definition sims (m1 : outcome (Z * list Z)) (m2 : outcome (Z * W)) (k j : Z) (out : list Z) (w : W) : Prop :=
  ∀ k' out', m1 = Ret (k', out') →
  ∃ s, out' = out ++ s ∧ k' = k + zlen s ∧ m2 = Ret (j + zlen s, writes write s j w).

Lemma sims_write m1 m2 s k j out w :
  sims m1 m2 (k + zlen s) (j + zlen s) (out ++ s) (writes write s j w) → sims m1 m2 k j out w.
Proof.
  intros Hs k' out' Heq. destruct (Hs k' out' Heq) as (t & -> & -> & ->). exists (s ++ t).
  rewrite <- app_assoc, writes_app, length_app, Nat2Z.inj_add. split_and!; [done|lia|].
  do 2 f_equal. lia.
Qed.

Lemma vsn_loop_sims fuel fmt args k j out w :
  sims (vsn_loop _term_writer fuel fmt args k out) (vsn_loop write fuel fmt args j w) k j out w.
Proof.
  revert fmt args k j out w. induction fuel as [|fuel IH]; intros fmt args k j out w; [done|].
  cbn [vsn_loop]. destruct fmt as [|x fmt].
  { intros k' out' [= <- <-]. exists []. by rewrite app_nil_r, !Z.add_0_r. }
  assert (Hone : ∀ c fmt args, sims (vsn_loop _term_writer fuel fmt args (k + 1) (_term_writer c k false out))
            (vsn_loop write fuel fmt args (j + 1) (write c j false w)) k j out w)
    by (intros c f a; apply (sims_write _ _ [c]), IH).
  assert (Hmany : ∀ s fmt args,
    sims (let '(j, w) := write_all _term_writer s k out in vsn_loop _term_writer fuel fmt args j w)
         (let '(j, w) := write_all write s j w in vsn_loop write fuel fmt args j w) k j out w).
  { intros s f a. rewrite !write_all_writes, writes_term. apply (sims_write _ _ s), IH. }
  destruct (x =? ch_pct); [|apply Hone].
  destruct (_parse_format_spec (x :: fmt)) as [fs i].
  destruct (type_ fs); munfold; try apply Hone; try apply IH.
  - destruct (va_sint _ _) as [[d a]|]; [|done]. destruct (digits_of _); [apply Hmany|done].
  - destruct (va_uint _ _) as [[d a]|]; [|done]. destruct (digits_of _); [apply Hmany|done].
  - destruct (va_uint _ _) as [[d a]|]; [|done]. destruct (digits_of _); [apply Hmany|done].
  - destruct (va_uint _ _) as [[d a]|]; [|done]. destruct (digits_of _); [apply Hmany|done].
  - destruct (va_uint _ _) as [[d a]|]; [|done]. destruct (digits_of _); [apply Hmany|done].
  - destruct (pop_arg _) as [[[z|z|s] a]|]; [done|done|apply Hmany|done].
  - destruct (va_uint _ _) as [[d a]|]; [|done]. apply Hone.
Qed.
End simulation.

Lemma vprintf_output fmt args k out :
  vprintf [] fmt args = Ret (k, out) →
  vsn_loop _term_writer (S (length fmt)) fmt args 0 [] = Ret (k, out) ∧ k = zlen out.
Proof.
  unfold vprintf, _vsnprintf. pose proof (vsn_loop_sims _term_writer (S (length fmt)) fmt args 0 0 [] []) as Hs.
  destruct (vsn_loop _ _ _ _ _ _) as [[j w]|]; [|done]. munfold. intros [= <- <-].
  destruct (Hs j w eq_refl) as (s & -> & -> & _). done.
Qed.

(** Writing a string into a buffer of [n] bytes. *)
Lemma writes_buf n s j buf i :
  0 ≤ j → n ≤ zlen buf →
  writes (_buf_writer n) s j buf !! i =
  if decide (j ≤ Z.of_nat i < Z.min (j + zlen s) n) then s !! Z.to_nat (Z.of_nat i - j) else buf !! i.
Proof.
  revert j buf. induction s as [|c s IH]; intros j buf Hj Hn; cbn [writes].
  { rewrite decide_False; [done|]. simpl. lia. }
  assert (Hlen : length (_buf_writer n c j false buf) = length buf)
    by (unfold _buf_writer; destruct (n <=? j); [done|apply length_insert]).
  rewrite IH by (rewrite ?Hlen; lia). rewrite length_cons, Nat2Z.inj_succ.
  destruct (decide (Z.of_nat i = j)) as [Hij|Hij].
  - rewrite decide_False by lia. unfold _buf_writer. destruct (Z.leb_spec n j).
    + by rewrite decide_False by lia.
    + rewrite decide_True by lia. replace (Z.to_nat (Z.of_nat i - j)) with O by lia.
      replace (Z.to_nat j) with i by lia. rewrite list_lookup_insert_eq by lia. done.
  - repeat case_decide; try lia.
    + replace (Z.to_nat (Z.of_nat i - j)) with (S (Z.to_nat (Z.of_nat i - (j + 1)))) by lia. done.
    + unfold _buf_writer. destruct (n <=? j); [done|]. by rewrite list_lookup_insert_ne by lia.
Qed.

(** C37: [vsnprintf] into a buffer of [n] bytes returns the length of
    what [vprintf] would print for the same format and arguments, stores
    its first [n - 1] characters (all of them if they fit), terminates
    them with NUL, and writes nothing beyond. *)
Theorem vsnprintf_truncates buf n fmt args k out :
  0 < n ≤ zlen buf → n < 2 ^ 32 → vprintf [] fmt args = Ret (k, out) →
  ∃ buf', vsnprintf buf n fmt args = Ret (k, buf') ∧ k = zlen out ∧ length buf' = length buf ∧
    let e := Z.min (zlen out) (n - 1) in
    (∀ i, Z.of_nat i < e → buf' !! i = out !! i) ∧ buf' !! Z.to_nat e = Some 0 ∧
    (∀ i, n ≤ Z.of_nat i → buf' !! i = buf !! i).
Proof.
  intros Hn Hn32 Hv. apply vprintf_output in Hv as [Hv ->].
  destruct (vsn_loop_sims (_buf_writer n) _ fmt args 0 0 [] buf _ _ Hv) as (s & Hs & _ & Hbuf).
  simpl in Hs. subst s. rewrite Z.add_0_l in Hbuf. unfold vsnprintf, _vsnprintf. rewrite Hbuf. munfold.
  set (w := writes (_buf_writer n) out 0 buf) in *.
  assert (Hw : ∀ i, w !! i = if decide (Z.of_nat i < Z.min (zlen out) n) then out !! i else buf !! i).
  { intros i. unfold w. rewrite writes_buf by lia. rewrite Z.add_0_l, Z.sub_0_r, Nat2Z.id.
    repeat case_decide; done || lia. }
  assert (Hlw : length w = length buf).
  { assert (Hg : ∀ s j b, length (writes (_buf_writer n) s j b) = length b).
    { clear. induction s as [|c s IH]; intros j b; [done|]. cbn [writes]. rewrite IH.
      unfold _buf_writer. destruct (n <=? j); [done|apply length_insert]. }
    apply Hg. }
  set (e := Z.min (zlen out) (n - 1)).
  assert (He : (if zlen out <? n then zlen out else u32 (n - 1)) = e).
  { unfold e. destruct (Z.ltb_spec (zlen out) n); [lia|]. rewrite wrap_small by lia. lia. }
  rewrite He. unfold _buf_writer. replace (n <=? e) with false by lia.
  eexists. split; [done|]. split; [done|]. split; [by rewrite length_insert|]. cbv zeta. split_and!.
  - intros i Hi. rewrite list_lookup_insert_ne by lia. rewrite Hw, decide_True by lia. done.
  - apply list_lookup_insert_eq. lia.
  - intros i Hi. rewrite list_lookup_insert_ne by lia. rewrite Hw, decide_False by lia. done.
Qed.

(** [snprintf(buf, 6, "x=%d", -42)] into [???????]. *)
Lemma vsnprintf_truncates_witness :
  ∃ buf', vsnprintf (replicate 7 63) 6 [ch_x; 61; ch_pct; ch_d] [AInt (-42)] = Ret (5, buf') ∧
    buf' = [ch_x; 61; ch_minus; 52; 50; 0; 63].
Proof.
  destruct (vsnprintf_truncates (replicate 7 63) 6 [ch_x; 61; ch_pct; ch_d] [AInt (-42)]
              5 [ch_x; 61; ch_minus; 52; 50]) as (buf' & Heq & _); [simpl; lia|lia|done|].
  exists buf'. split; [done|]. vm_compute in Heq. by injection Heq as <-.
Defined.
