(* ===== verification/StringView.v ===== *)
(** * [nonstd::string_view] ([kernel/nonstd/string_view.h]) and the path
    splitters of [kernel/util/pathutil.{h,cc}]

    A view is a pointer and a length over the byte memory of [Libc.v];
    comparisons go through the modelled [strncmp].  Positions and lengths
    are 32-bit ([size_t]), [substr]'s start is a signed [int32_t]. *)
From S2P Require Import Prelude Libc.

Record string_view := SV { sv_data : Z; sv_len : Z }.

Definition npos : Z := 2 ^ 32 - 1.

(** [string_view(const char* s)] *)
Definition sv_cstr (s : Z) : M mem string_view := n ← strlen s; mret (SV s n).

Definition sv_index (v : string_view) (pos : Z) : M mem Z := load (sv_data v + pos).
Definition sv_at (v : string_view) (pos : Z) : M mem Z :=
  _ ← assertM (pos <? sv_len v); sv_index v pos.
Definition sv_front (v : string_view) : M mem Z := sv_index v 0.
Definition sv_back (v : string_view) : M mem Z := sv_index v (sv_len v - 1).

(** [operator==] and [operator<=>] *)
Definition sv_eq (lhs rhs : string_view) : M mem bool :=
  if sv_len lhs =? sv_len rhs then
    r ← strncmp (sv_data lhs) (sv_data rhs) (Z.to_nat (sv_len lhs)); mret (r =? 0)
  else mret false.
Definition sv_compare (lhs rhs : string_view) : M mem comparison :=
  let cmplen := Z.min (sv_len lhs) (sv_len rhs) in
  res ← strncmp (sv_data lhs) (sv_data rhs) (Z.to_nat cmplen);
  mret (if negb (res =? 0) then res ?= 0 else sv_len lhs ?= sv_len rhs).

Definition substr (start count : Z) (v : string_view) : string_view :=
  let size := sv_len v in
  let start := if start <? 0 then 0 else start in
  let start := if size <? start then signed 32 size else start in
  let count := if (count =? npos) || (size <? u32 (start + count)) then u32 (size - start) else count in
  SV (sv_data v + start) count.

Definition starts_with (needle v : string_view) : M mem bool :=
  sv_eq (substr 0 (sv_len needle) v) needle.
Definition ends_with (needle v : string_view) : M mem bool :=
  sv_eq (substr (signed 32 (sv_len v - sv_len needle)) npos v) needle.
Definition starts_with_char (c : Z) (v : string_view) : M mem bool :=
  if sv_len v =? 0 then mret false else x ← sv_index v 0; mret (x =? c).
Definition ends_with_char (c : Z) (v : string_view) : M mem bool :=
  if sv_len v =? 0 then mret false else x ← sv_index v (sv_len v - 1); mret (x =? c).

(** [for (size_t i = 0; i <= size() - needle.size(); ++i)], [n] left *)
Fixpoint find_loop (n : nat) (i : Z) (needle v : string_view) : M mem Z :=
  match n with
  | O => mret npos
  | S n =>
    b ← sv_eq needle (SV (sv_data v + i) (sv_len needle));
    if (b : bool) then mret i else find_loop n (i + 1) needle v
  end.
Definition find (needle v : string_view) : M mem Z :=
  if sv_len v <? sv_len needle then mret npos
  else find_loop (Z.to_nat (sv_len v - sv_len needle + 1)) 0 needle v.
Definition contains (needle v : string_view) : M mem bool :=
  i ← find needle v; mret (negb (i =? npos)).

Fixpoint find_char_loop (n : nat) (i c : Z) (v : string_view) : M mem Z :=
  match n with
  | O => mret npos
  | S n => x ← sv_index v i; if x =? c then mret i else find_char_loop n (i + 1) c v
  end.
Definition find_char (c : Z) (v : string_view) : M mem Z := find_char_loop (Z.to_nat (sv_len v)) 0 c v.

(** [for (int i = size() - 1; i >= 0; --i)], [i + 1] iterations left *)
Fixpoint rfind_loop (n : nat) (c : Z) (v : string_view) : M mem Z :=
  match n with
  | O => mret npos
  | S n => x ← sv_index v (Z.of_nat n); if x =? c then mret (Z.of_nat n) else rfind_loop n c v
  end.
Definition rfind (c : Z) (v : string_view) : M mem Z :=
  rfind_loop (Z.to_nat (signed 32 (sv_len v - 1) + 1)) c v.

(** ** pathutil *)
Definition chr_slash : Z := 47.

Section path.
(** The address of the literal [""]. *)
Variable empty_lit : Z.

Definition partition_path (path : string_view) : M mem (string_view * string_view) :=
  sep ← rfind chr_slash path;
  if negb (sep =? npos)
  then mret (substr 0 sep path, substr (signed 32 (sep + 1)) npos path)
  else e ← sv_cstr empty_lit; mret (e, path).
Definition dirname (path : string_view) : M mem string_view := r ← partition_path path; mret r.1.
Definition basename (path : string_view) : M mem string_view := r ← partition_path path; mret r.2.

Definition left_partition_path (path : string_view) : M mem (string_view * string_view) :=
  sep ← find_char chr_slash path;
  if negb (sep =? npos)
  then mret (substr 0 sep path, substr (signed 32 (sep + 1)) npos path)
  else e ← sv_cstr empty_lit; mret (path, e).
End path.

(** ** Views as lists of bytes *)
Definition shows (m : mem) (v : string_view) (xs : list Z) : Prop :=
  bytes_at m (sv_data v) xs ∧ sv_len v = zlen xs ∧ zlen xs < 2 ^ 31.

Abbreviation text := (Forall (λ b, 0 < b < 256)).

Lemma bytes_at_app m p xs ys :
  bytes_at m p (xs ++ ys) → bytes_at m p xs ∧ bytes_at m (p + zlen xs) ys.
Proof.
  intros H. split; intros i b Hi.
  - apply H. by apply lookup_app_l_Some.
  - rewrite <- Z.add_assoc, <- Nat2Z.inj_add. apply H.
    rewrite lookup_app_r by lia. by rewrite Nat.add_comm, Nat.add_sub.
Qed.

Lemma text_byte xs : text xs → Forall is_byte xs.
Proof. intros H. eapply Forall_impl; [exact H|]. unfold is_byte. simpl. lia. Qed.

Lemma sv_eq_spec m a b xs ys :
  shows m a xs → shows m b ys → text xs → text ys →
  sv_eq a b m = Ret (bool_decide (xs = ys), m).
Proof.
  intros (Ha & Hla & _) (Hb & Hlb & _) Hx Hy. unfold sv_eq. rewrite Hla, Hlb.
  destruct (Z.eqb_spec (zlen xs) (zlen ys)).
  - rewrite Nat2Z.id. munfold. rewrite (strncmp_spec m _ _ xs ys) by (done || lia).
    do 2 f_equal. apply eq_true_iff_eq.
    rewrite Z.eqb_eq, bool_decide_eq_true. apply strncmp_bytes_zero; [done|by apply text_byte|lia].
  - munfold. rewrite bool_decide_false; [done|]. by intros ->.
Qed.

Lemma substr_spec m v xs start count :
  shows m v xs → 0 ≤ start → 0 ≤ count → start + count < 2 ^ 32 - 1 →
  shows m (substr start count v) (take (Z.to_nat count) (drop (Z.to_nat start) xs)).
Proof.
  intros (Hb & Hl & Hlt) Hs Hc Hsc. unfold substr. rewrite Hl. rewrite (proj2 (Z.ltb_ge start 0)) by lia.
  cbv zeta. rewrite (proj2 (Z.eqb_neq count npos)) by (unfold npos; lia). cbn [orb].
  assert (Hsg : signed 32 (zlen xs) = zlen xs).
  { unfold signed. rewrite wrap_small by lia. by rewrite bool_decide_true by (simpl; lia). }
  rewrite Hsg. rewrite <- (take_drop (Z.to_nat start) xs) in Hb. apply bytes_at_app in Hb as [_ Hb].
  rewrite length_take in Hb.
  destruct (Z.ltb_spec (zlen xs) start).
  - rewrite wrap_small by lia. rewrite drop_ge, take_nil by lia. split_and!; [by intros ?? ?|simpl|simpl; lia].
    destruct (Z.ltb_spec (zlen xs) (zlen xs + count)); [rewrite wrap_small; lia|lia].
  - rewrite wrap_small by lia. replace (Z.of_nat (_ `min` _)) with start in Hb by lia.
    rewrite <- (take_drop (Z.to_nat count) (drop _ _)) in Hb. apply bytes_at_app in Hb as [Hb _].
    split_and!; [done| |rewrite length_take, length_drop; lia]. cbn [sv_len].
    rewrite length_take, length_drop. destruct (Z.ltb_spec (zlen xs) (start + count)); [rewrite wrap_small; lia|lia].
Qed.

(** [ys] occurs in [xs] at position [j]. *)
Definition occurs (ys xs : list Z) (j : nat) : Prop :=
  (j + length ys ≤ length xs)%nat ∧ take (length ys) (drop j xs) = ys.

Lemma find_loop_spec m v needle xs ys n i :
  shows m v xs → shows m needle ys → text xs → text ys → (i + n + length ys ≤ S (length xs))%nat →
  ∃ r, find_loop n (Z.of_nat i) needle v m = Ret (r, m) ∧
    ((r = npos ∧ ∀ j, (i ≤ j < i + n)%nat → ¬ occurs ys xs j) ∨
     (∃ k, r = Z.of_nat k ∧ (i ≤ k < i + n)%nat ∧ occurs ys xs k ∧
           ∀ j, (i ≤ j < k)%nat → ¬ occurs ys xs j)).
Proof.
  intros Hv Hn Hx Hy. revert i. induction n as [|n IH]; intros i Hi; cbn [find_loop].
  { exists npos. split; [done|]. left. split; [done|]. lia. }
  assert (Hs : shows m (SV (sv_data v + Z.of_nat i) (sv_len needle)) (take (length ys) (drop i xs))).
  { destruct Hv as (Hb & Hl & Hlt), Hn as (_ & Hln & ?). split_and!; simpl.
    - rewrite <- (take_drop i xs) in Hb. apply bytes_at_app in Hb as [_ Hb].
      rewrite length_take, Nat.min_l in Hb by lia.
      rewrite <- (take_drop (length ys) (drop i xs)) in Hb. by apply bytes_at_app in Hb as [Hb _].
    - rewrite length_take, length_drop. lia.
    - rewrite length_take, length_drop. lia. }
  munfold. rewrite (sv_eq_spec m _ _ ys (take (length ys) (drop i xs))); [|done..|by apply Forall_take, Forall_drop].
  case_bool_decide as Heq.
  - exists (Z.of_nat i). split; [done|]. right. exists i. split_and!; [done|lia|lia|split; [lia|done]|lia].
  - replace (Z.of_nat i + 1) with (Z.of_nat (S i)) by lia.
    assert (Hno : ¬ occurs ys xs i) by (intros [_ ?]; congruence).
    destruct (IH (S i)) as (r & -> & Hr); [lia|]. exists r. split; [done|].
    destruct Hr as [[-> Hr]|(k & -> & Hk & Hoc & Hr)]; [left|right].
    + split; [done|]. intros j Hj. destruct (decide (j = i)) as [->|]; [done|]. apply Hr. lia.
    + exists k. split_and!; [done|lia|lia|apply Hoc|].
      intros j Hj. destruct (decide (j = i)) as [->|]; [done|]. apply Hr. lia.
Qed.

(** [find] returns the position of the first occurrence of the
    needle, and [npos] exactly when it does not occur. *)
Theorem find_first m v needle xs ys :
  shows m v xs → shows m needle ys → text xs → text ys →
  ∃ r, find needle v m = Ret (r, m) ∧
    (r = npos → ∀ j, ¬ occurs ys xs j) ∧
    (r ≠ npos → occurs ys xs (Z.to_nat r) ∧ ∀ j, (j < Z.to_nat r)%nat → ¬ occurs ys xs j).
Proof.
  intros Hv Hn Hx Hy. pose proof Hv as (_ & Hl & Hlt). pose proof Hn as (_ & Hln & _).
  unfold find. rewrite Hl, Hln. destruct (Z.ltb_spec (zlen xs) (zlen ys)).
  { exists npos. split; [done|]. split; [|done]. intros _ j [? _]. lia. }
  destruct (find_loop_spec m v needle xs ys (Z.to_nat (zlen xs - zlen ys + 1)) 0)
    as (r & Hr & Hcase); [done..|lia|].
  exists r. split; [exact Hr|]. destruct Hcase as [[-> Hno]|(k & -> & Hk & Hoc & Hno)].
  - split; [|done]. intros _ j Hoc. apply (Hno j); [destruct Hoc; lia|done].
  - split; [unfold npos; lia|]. rewrite Nat2Z.id. intros _. split; [done|]. intros j Hj. apply Hno. lia.
Qed.

(** "a/bc/bc" at 1, "bc" at 20. *)
Definition demo_text : mem :=
  {[1 := 97; 2 := 47; 3 := 98; 4 := 99; 5 := 47; 6 := 98; 7 := 99; 20 := 98; 21 := 99; 30 := 0]}.

Lemma demo_shows : shows demo_text (SV 1 7) [97; 47; 98; 99; 47; 98; 99] ∧ shows demo_text (SV 20 2) [98; 99].
Proof.
  split; (split_and!; [|done|done]); repeat (apply bytes_at_cons; split; [done|]); by intros ???.
Qed.

Lemma find_first_witness :
  ∃ r, find (SV 20 2) (SV 1 7) demo_text = Ret (r, demo_text) ∧ r = 2 ∧
    occurs [98; 99] [97; 47; 98; 99; 47; 98; 99] 2.
Proof.
  destruct demo_shows as [H1 H2].
  destruct (find_first demo_text (SV 1 7) (SV 20 2) _ _ H1 H2) as (r & Hr & _ & Hf);
    [by repeat constructor..|].
  exists r. split; [done|]. vm_compute in Hr. assert (r = 2) as -> by congruence.
  split; [done|]. apply Hf. done.
Defined.

(** ** Tests on views *)
Lemma load_at m v xs i x :
  shows m v xs → xs !! i = Some x → sv_index v (Z.of_nat i) m = Ret (x, m).
Proof.
  intros (Hb & _) Hi. unfold sv_index, load. munfold. by rewrite (Hb _ _ Hi).
Qed.

Lemma sv_cstr_spec m p bs : cstr m p bs → zlen bs < 2 ^ 31 →
  sv_cstr p m = Ret (SV p (zlen bs), m) ∧ shows m (SV p (zlen bs)) bs.
Proof.
  intros Hc Hlt. unfold sv_cstr. munfold. rewrite (strlen_spec _ _ _ Hc). split; [done|].
  split_and!; [|done|done]. destruct Hc as [Hb _]. by apply bytes_at_app in Hb as [Hb _].
Qed.

Lemma signed_small z : - 2 ^ 31 ≤ z < 2 ^ 31 → signed 32 z = z.
Proof.
  intros Hz. unfold signed. destruct (Z.ltb_spec z 0) as [Hn|Hn].
  - replace (wrap 32 z) with (z + 2 ^ 32).
    + rewrite bool_decide_false by (simpl; lia). lia.
    + unfold wrap. apply Z.mod_unique with (-1); lia.
  - rewrite wrap_small by lia. by rewrite bool_decide_true by (simpl; lia).
Qed.

Lemma substr_npos m v xs start : shows m v xs → start ≤ zlen xs →
  shows m (substr start npos v) (drop (Z.to_nat start) xs).
Proof.
  intros (Hb & Hl & Hlt) Hs. unfold substr. rewrite Hl. cbv zeta. rewrite Z.eqb_refl. cbn [orb].
  set (st := if start <? 0 then 0 else start).
  assert (Hst : 0 ≤ st ≤ zlen xs ∧ Z.to_nat st = Z.to_nat start)
    by (unfold st; destruct (Z.ltb_spec start 0); lia).
  rewrite (proj2 (Z.ltb_ge (zlen xs) st)) by lia. rewrite wrap_small by lia. rewrite <- (proj2 Hst).
  rewrite <- (take_drop (Z.to_nat st) xs) in Hb. apply bytes_at_app in Hb as [_ Hb].
  rewrite length_take, Nat.min_l in Hb by lia. split_and!; simpl; rewrite ?length_drop; [|lia|lia].
  by replace (sv_data v + st) with (sv_data v + Z.of_nat (Z.to_nat st)) by lia.
Qed.

Lemma starts_with_spec m needle v ys xs :
  shows m v xs → shows m needle ys → text xs → text ys →
  starts_with needle v m = Ret (bool_decide (ys `prefix_of` xs), m).
Proof.
  intros Hv Hn Hx Hy. unfold starts_with. pose proof Hn as (_ & -> & ?).
  rewrite (sv_eq_spec m _ _ (take (length ys) xs) ys); [|..|done|by apply Forall_take|done].
  - do 2 f_equal. apply bool_decide_ext. split; [intros <-; apply prefix_take|].
    intros [k ->]. by rewrite take_app_length.
  - pose proof (substr_spec m v xs 0 (zlen ys) Hv) as Hs. rewrite Nat2Z.id in Hs. apply Hs; lia.
Qed.

Lemma ends_with_spec m needle v ys xs :
  shows m v xs → shows m needle ys → text xs → text ys →
  ends_with needle v m = Ret (bool_decide (ys `suffix_of` xs), m).
Proof.
  intros Hv Hn Hx Hy. unfold ends_with. pose proof Hn as (_ & -> & ?). pose proof Hv as (_ & -> & ?).
  rewrite signed_small by lia.
  rewrite (sv_eq_spec m _ _ (drop (Z.to_nat (zlen xs - zlen ys)) xs) ys); [|..|done|by apply Forall_drop|done].
  - do 2 f_equal. apply bool_decide_ext. split.
    + intros <-. apply suffix_drop.
    + intros [k ->]. rewrite length_app. replace (Z.to_nat _) with (length k) by lia. apply drop_app_length.
  - apply substr_npos; [done|lia].
Qed.

Lemma contains_spec m needle v ys xs :
  shows m v xs → shows m needle ys → text xs → text ys →
  ∃ b, contains needle v m = Ret (b, m) ∧ (b = true ↔ ∃ j, occurs ys xs j).
Proof.
  intros Hv Hn Hx Hy. unfold contains. destruct (find_first m v needle xs ys) as (r & Hr & Hno & Hyes); [done..|].
  exists (negb (r =? npos)). munfold. rewrite Hr. split; [done|]. destruct (Z.eqb_spec r npos) as [->|Hne]; simpl.
  - split; [done|]. intros [j Hj]. by destruct (Hno eq_refl j).
  - split; [|done]. intros _. exists (Z.to_nat r). by apply Hyes.
Qed.

Lemma starts_with_char_spec m c v xs :
  shows m v xs → starts_with_char c v m = Ret (bool_decide (head xs = Some c), m).
Proof.
  intros Hv. pose proof Hv as (_ & Hl & _). unfold starts_with_char. rewrite Hl. destruct xs as [|x xs].
  - by rewrite bool_decide_false.
  - rewrite (proj2 (Z.eqb_neq _ 0)) by (simpl; lia). pose proof (load_at m v _ 0 x Hv eq_refl) as H0.
    change (Z.of_nat 0) with 0 in H0. munfold. rewrite H0. do 2 f_equal. apply eq_true_iff_eq. rewrite Z.eqb_eq, bool_decide_eq_true. simpl. naive_solver.
Qed.

Lemma ends_with_char_spec m c v xs :
  shows m v xs → ends_with_char c v m = Ret (bool_decide (last xs = Some c), m).
Proof.
  intros Hv. pose proof Hv as (_ & Hl & _). unfold ends_with_char. rewrite Hl.
  destruct (last xs) as [x|] eqn:Hlast.
  - apply last_Some in Hlast as [l ->]. replace (zlen (l ++ [x])) with (zlen l + 1) by (rewrite length_app; simpl; lia).
    rewrite (proj2 (Z.eqb_neq _ 0)) by lia. munfold. replace (zlen l + 1 - 1) with (zlen l) by lia.
    rewrite (load_at m v _ (length l) x Hv) by (by apply list_lookup_middle).
    do 2 f_equal. apply eq_true_iff_eq. rewrite Z.eqb_eq, bool_decide_eq_true. naive_solver.
  - apply last_None in Hlast as ->. by rewrite bool_decide_false.
Qed.

(** ** Splitting paths *)
Lemma find_char_spec m v c pre xs :
  shows m v (pre ++ xs) →
  ∃ r, find_char_loop (length xs) (zlen pre) c v m = Ret (r, m) ∧
    ((r = npos ∧ c ∉ xs) ∨ ∃ l1 l2, xs = (l1 ++ c :: l2) ∧ (c ∉ l1) ∧ r = zlen pre + zlen l1).
Proof.
  revert pre. induction xs as [|x xs IH]; intros pre Hv; cbn [find_char_loop length].
  { exists npos. split; [done|]. left. split; [done|]. apply not_elem_of_nil. }
  munfold. rewrite (load_at m v _ _ x Hv) by (by apply list_lookup_middle).
  destruct (Z.eqb_spec x c) as [->|Hne].
  - exists (zlen pre). split; [done|]. right. exists [], xs. split_and!; [done|apply not_elem_of_nil|simpl; lia].
  - replace (zlen pre + 1) with (zlen (pre ++ [x])) by (rewrite length_app; simpl; lia).
    destruct (IH (pre ++ [x])) as (r & -> & Hr); [by rewrite <- app_assoc|]. exists r. split; [done|].
    destruct Hr as [[-> Hn]|(l1 & l2 & -> & Hn & ->)]; [left|right].
    + split; [done|]. by apply not_elem_of_cons.
    + exists (x :: l1), l2. split_and!; [done|by apply not_elem_of_cons|rewrite length_app; simpl; lia].
Qed.

Lemma rfind_spec m v c xs n :
  shows m v xs → (n ≤ length xs)%nat →
  ∃ r, rfind_loop n c v m = Ret (r, m) ∧
    ((r = npos ∧ c ∉ take n xs) ∨ ∃ l1 l2, take n xs = (l1 ++ c :: l2) ∧ (c ∉ l2) ∧ r = zlen l1).
Proof.
  intros Hv. induction n as [|n IH]; intros Hn; cbn [rfind_loop].
  { exists npos. split; [done|]. left. split; [done|]. apply not_elem_of_nil. }
  destruct (lookup_lt_is_Some_2 xs n) as [x Hx]; [lia|].
  munfold. rewrite (load_at m v _ _ x Hv) by done. rewrite (take_S_r _ _ _ Hx).
  destruct (Z.eqb_spec x c) as [->|Hne].
  - exists (Z.of_nat n). split; [done|]. right. exists (take n xs), [].
    split_and!; [done|apply not_elem_of_nil|rewrite length_take; lia].
  - destruct IH as (r & -> & Hr); [lia|]. exists r. split; [done|].
    destruct Hr as [[-> Hnot]|(l1 & l2 & -> & Hnot & ->)]; [left|right].
    + split; [done|]. rewrite elem_of_app, list_elem_of_singleton. naive_solver.
    + exists l1, (l2 ++ [x]). split_and!; [by rewrite <- app_assoc| |done].
      rewrite elem_of_app, list_elem_of_singleton. naive_solver.
Qed.

(** The two halves that the separator at [zlen l1] delimits. *)
Lemma split_at_sep m path {c} l1 l2 :
  shows m path (l1 ++ c :: l2) →
  shows m (substr 0 (zlen l1) path) l1 ∧ shows m (substr (signed 32 (zlen l1 + 1)) npos path) l2.
Proof.
  intros Hp. pose proof Hp as (Hb & Hl & Hlt). rewrite length_app in Hl, Hlt. simpl in Hl, Hlt.
  assert (Hsg : signed 32 (zlen l1 + 1) = zlen l1 + 1).
  { unfold signed. rewrite wrap_small by lia. by rewrite bool_decide_true by (simpl; lia). }
  split.
  - pose proof (substr_spec m path _ 0 (zlen l1) Hp) as Hs. rewrite Nat2Z.id in Hs.
    change (Z.to_nat 0) with 0%nat in Hs. rewrite drop_0, take_app_length in Hs. apply Hs; lia.
  - rewrite Hsg. unfold substr. rewrite (proj2 (Z.ltb_ge _ 0)) by lia. cbv zeta.
    rewrite (proj2 (Z.ltb_ge (sv_len path) _)) by lia. rewrite Z.eqb_refl. cbn [orb].
    rewrite wrap_small by lia. split_and!; simpl; [|lia|lia].
    change (c :: l2) with ([c] ++ l2) in Hb. rewrite app_assoc in Hb.
    apply bytes_at_app in Hb as [_ Hb]. rewrite length_app in Hb. simpl in Hb.
    by replace (zlen l1 + 1) with (Z.of_nat (length l1 + 1)) by lia.
Qed.

(** [partition_path] splits a path at its last ['/'] and
    [left_partition_path] at its first: the halves are views of the
    text before and after that separator, and a path without ['/'] is
    all base name (all first component). *)
Theorem partition_path_splits m empty_lit path xs :
  shows m path xs → cstr m empty_lit [] →
  ∃ dir base first rest ds bs fs rs,
    partition_path empty_lit path m = Ret ((dir, base), m) ∧
    left_partition_path empty_lit path m = Ret ((first, rest), m) ∧
    shows m dir ds ∧ shows m base bs ∧ shows m first fs ∧ shows m rest rs ∧
    (chr_slash ∉ bs) ∧ (chr_slash ∉ fs) ∧
    (if decide (chr_slash ∈ xs) then xs = ds ++ chr_slash :: bs ∧ xs = fs ++ chr_slash :: rs
     else ds = [] ∧ bs = xs ∧ fs = xs ∧ rs = []).
Proof.
  intros Hp He. pose proof Hp as (Hb & Hl & Hlt).
  assert (Hempty : sv_cstr empty_lit m = Ret (SV empty_lit 0, m)).
  { unfold sv_cstr. munfold. by rewrite (strlen_spec _ _ _ He). }
  assert (Hs0 : shows m (SV empty_lit 0) []) by (split_and!; [by intros ???|done|done]).
  unfold partition_path, left_partition_path, rfind, find_char. rewrite Hl, Nat2Z.id.
  assert (Hn : Z.to_nat (signed 32 (zlen xs - 1) + 1) = length xs).
  { unfold signed, wrap. destruct xs as [|x xs']; [done|]. rewrite Z.mod_small by (simpl length in *; lia).
    rewrite bool_decide_true by (simpl length in *; lia). simpl length. lia. }
  rewrite Hn.
  destruct (rfind_spec m path chr_slash xs (length xs) Hp) as (r & Hr & Hcase); [lia|].
  destruct (find_char_spec m path chr_slash [] xs Hp) as (r' & Hr' & Hcase').
  change (zlen []) with 0 in Hr'. rewrite take_ge in Hcase by lia. munfold. rewrite Hr, Hr'.
  destruct Hcase as [[-> Hno]|(l1 & l2 & Hxs & Hno & ->)].
  - destruct Hcase' as [[-> _]|(? & ? & -> & _)]; [|set_solver].
    rewrite Z.eqb_refl. cbn [negb]. rewrite Hempty.
    exists (SV empty_lit 0), path, path, (SV empty_lit 0), [], xs, xs, []. by rewrite decide_False.
  - destruct Hcase' as [[_ Hnot]|(k1 & k2 & Hxs' & Hno' & ->)]; [subst xs; set_solver|].
    assert (Hlen1 := f_equal length Hxs). assert (Hlen2 := f_equal length Hxs').
    rewrite length_app in Hlen1, Hlen2. simpl in Hlen1, Hlen2.
    rewrite !(proj2 (Z.eqb_neq _ npos)) by (simpl; unfold npos; lia). cbn [negb].
    rewrite Hxs in Hp. destruct (split_at_sep _ _ _ _ Hp) as [Hd Hbs]. rewrite <- Hxs, Hxs' in Hp.
    destruct (split_at_sep _ _ _ _ Hp) as [Hf Hrs]. change (zlen [] + zlen k1) with (zlen k1).
    eexists _, _, _, _, l1, l2, k1, k2. split_and!; [done..|].
    rewrite decide_True by (subst xs; set_solver). done.
Qed.

Lemma partition_path_splits_witness :
  ∃ dir base, partition_path 30 (SV 1 7) demo_text = Ret ((dir, base), demo_text) ∧
    shows demo_text dir [97; 47; 98; 99] ∧ shows demo_text base [98; 99].
Proof.
  destruct demo_shows as [H1 _].
  destruct (partition_path_splits demo_text 30 (SV 1 7) _ H1) as
    (dir & base & first & rest & ds & bs & fs & rs & Hp & _ & Hd & Hb & _ & _ & Hn & _ & Hc).
  { split; [|constructor]. simpl. apply bytes_at_cons. split; [done|by intros ???]. }
  exists dir, base. split; [done|]. rewrite decide_True in Hc by set_solver. destruct Hc as [Hc _].
  assert (dir = SV 1 4 ∧ base = SV 6 2) as [-> ->] by (vm_compute in Hp; split; congruence).
  destruct Hd as (? & Hd & ?), Hb as (? & Hb & ?). simpl in Hd, Hb.
  assert (Hds : ds = [97; 47; 98; 99] ∧ bs = [98; 99]).
  { assert (length ds = 4%nat) by lia. destruct ds as [|? [|? [|? [|? [|]]]]]; simplify_eq/=. done. }
  destruct Hds as [-> ->]. split; split_and!; (done || (simpl; lia)).
Defined.

(** The crop of [substr] compares a sum that can wrap: the view then
    extends past its end although the comment promises a crop. *)
Example substr_wraps : sv_len (substr 5 (2 ^ 32 - 2) (SV 1 7)) = 2 ^ 32 - 2.
Proof. reflexivity. Qed.

(** [==] goes through [strncmp], which stops at a NUL. *)
Example sv_eq_stops_at_nul :
  sv_eq (SV 1 2) (SV 3 2) {[1 := 0; 2 := 65; 3 := 0; 4 := 66]} =
  Ret (true, {[1 := 0; 2 := 65; 3 := 0; 4 := 66]}).
Proof. vm_compute. reflexivity. Qed.
