(* ===== verification/Console.v ===== *)
(** * The text console ([common/console.c])

    A cursor over an 80x25 character buffer, the scrolling, the flush to
    VGA memory (every other byte) and the hexadecimal printers shared by
    the boot loader and the kernel.  The theorems relate the flat buffer
    to a screen of rows and show that printing never leaves it. *)
From S2P Require Import Prelude.

Definition CONSOLE_WIDTH : Z := 80.
Definition CONSOLE_HEIGHT : Z := 25.

(** The file's static variables, and the VGA bytes by address. *)
Record console := Console {
  _console_x : Z;
  _console_y : Z;
  _console_buf : list Z;
  console_vga_buf : Z;
  _console_int_buf : list Z;
  vga : gmap Z Z;
}.

Definition set_cursor (x y : Z) : M console unit :=
  st ← getS; putS (Console x y (_console_buf st) (console_vga_buf st) (_console_int_buf st) (vga st)).
Definition set_buf (b : list Z) : M console unit :=
  st ← getS; putS (Console (_console_x st) (_console_y st) b (console_vga_buf st) (_console_int_buf st) (vga st)).
Definition set_int_buf (b : list Z) : M console unit :=
  st ← getS; putS (Console (_console_x st) (_console_y st) (_console_buf st) (console_vga_buf st) b (vga st)).
Definition set_vga (a : Z) (v : gmap Z Z) : M console unit :=
  st ← getS; putS (Console (_console_x st) (_console_y st) (_console_buf st) a (_console_int_buf st) v).

(** The loop of [_console_cursor_down]: [n] rows from row [y] on. *)
Fixpoint scroll_rows (n : nat) (y : Z) (buf : list Z) : outcome (list Z) :=
  match n with
  | O => Ret buf
  | S n =>
    buf ← acopy (Z.to_nat CONSOLE_WIDTH) (y * CONSOLE_WIDTH) ((y + 1) * CONSOLE_WIDTH) buf;
    scroll_rows n (u8 (y + 1)) buf
  end.

Definition _console_cursor_down : M console unit :=
  st ← getS;
  let y := u8 (_console_y st + 1) in
  if CONSOLE_HEIGHT <=? y then
    _ ← set_cursor (_console_x st) (u8 (y - 1));
    buf ← liftO (scroll_rows (Z.to_nat (CONSOLE_HEIGHT - 1)) 0 (_console_buf st));
    buf ← liftO (afill (Z.to_nat CONSOLE_WIDTH) ((CONSOLE_HEIGHT - 1) * CONSOLE_WIDTH) 0 buf);
    set_buf buf
  else set_cursor (_console_x st) y.

Definition _console_cursor_forward : M console unit :=
  st ← getS;
  let x := u8 (_console_x st + 1) in
  if CONSOLE_WIDTH <=? x then
    _ ← set_cursor x (_console_y st);
    _ ← _console_cursor_down;
    st ← getS; set_cursor 0 (_console_y st)
  else set_cursor x (_console_y st).

Definition chr_nl : Z := 10.
Definition chr_cr : Z := 13.

Definition console_putchar (c : Z) : M console unit :=
  if c =? chr_nl then _console_cursor_down
  else if c =? chr_cr then st ← getS; set_cursor 0 (_console_y st)
  else
    st ← getS;
    buf ← liftO (aset (_console_buf st) (CONSOLE_WIDTH * _console_y st + _console_x st) c);
    _ ← set_buf buf;
    _console_cursor_forward.

(** The loop of [console_flush]: the characters from index [i] on. *)
Fixpoint flush_loop (cs : list Z) (i base : Z) (v : gmap Z Z) : gmap Z Z :=
  match cs with
  | [] => v
  | c :: cs => flush_loop cs (i + 1) base (<[base + Z.shiftl i 1 := c]> v)
  end.

Definition console_flush : M console unit :=
  st ← getS;
  set_vga (console_vga_buf st) (flush_loop (_console_buf st) 0 (console_vga_buf st) (vga st)).

(** A string argument is the list of its characters, NUL excluded. *)
Fixpoint put_all (str : list Z) : M console unit :=
  match str with
  | [] => mret tt
  | c :: str => _ ← console_putchar c; put_all str
  end.

Definition console_puts (str : list Z) : M console unit :=
  _ ← put_all str; console_flush.

Fixpoint puts_args (args : list (list Z)) : M console unit :=
  match args with
  | [] => mret tt
  | a :: args => _ ← console_puts a; puts_args args
  end.
Definition console_puts2 (s : list Z) (args : list (list Z)) : M console unit :=
  _ ← console_puts s; puts_args args.

(** ** Hexadecimal printing *)
Definition _console_nyb2hex (nybble : Z) : Z :=
  if nybble <? 10 then nybble + 48 else nybble + 65 - 10.

Definition _console_format_byte (n : Z) (buf : list Z) (pos : Z) : outcome (list Z) :=
  buf ← aset buf pos (_console_nyb2hex (Z.shiftr n 4));
  aset buf (pos + 1) (_console_nyb2hex (Z.land n 0x0F)).

(** The [k] low bytes of [n], least significant first, and back. *)
Fixpoint le_bytes (k : nat) (n : Z) : list Z :=
  match k with O => [] | S k => u8 n :: le_bytes k (Z.shiftr n 8) end.
Fixpoint le_val (bs : list Z) : Z :=
  match bs with [] => 0 | b :: bs => b + 256 * le_val bs end.

(** [__builtin_bswap64] *)
Definition bswap64 (n : Z) : Z := le_val (reverse (le_bytes 8 n)).

(** [for (; sz--; n >>= 8, buf += 2)]; returns the final [buf] pointer. *)
Fixpoint format_loop (sz : nat) (n : Z) (buf : list Z) (pos : Z) : outcome (list Z * Z) :=
  match sz with
  | O => Ret (buf, pos)
  | S sz =>
    buf ← _console_format_byte (u8 n) buf pos;
    format_loop sz (Z.shiftr n 8) buf (pos + 2)
  end.

(** The characters of an array up to its NUL. *)
Fixpoint cstring (buf : list Z) : outcome (list Z) :=
  match buf with
  | [] => Halt BadAccess
  | c :: buf => if c =? 0 then Ret [] else s ← cstring buf; Ret (c :: s)
  end.

Definition _console_printn (n : Z) (sz : nat) : M console unit :=
  let n := Z.shiftr (bswap64 n) (64 - 8 * Z.of_nat sz) in
  st ← getS;
  r ← liftO (format_loop sz n (_console_int_buf st) 2);
  buf ← liftO (aset r.1 r.2 0);
  _ ← set_int_buf buf;
  s ← liftO (cstring buf);
  console_puts s.

Definition console_printb (n : Z) : M console unit := _console_printn n 1.
Definition console_printw (n : Z) : M console unit := _console_printn n 2.
Definition console_printl (n : Z) : M console unit := _console_printn n 4.
Definition console_printq (n : Z) : M console unit := _console_printn n 8.

Definition console_use_hhdm : M console unit :=
  st ← getS; set_vga (Z.lor 0xC0000000 (console_vga_buf st)) (vga st).

(** ** The screen: rows and a cursor *)
Record screen := Screen { rows : list (list Z); sx : nat; sy : nat }.

Definition blank_row : list Z := replicate 80 0.

Definition screen_down (s : screen) : screen :=
  if decide (S (sy s) < 25)%nat then Screen (rows s) (sx s) (S (sy s))
  else Screen (tail (rows s) ++ [blank_row]) (sx s) 24.

Definition screen_put (s : screen) (c : Z) : screen :=
  if c =? chr_nl then screen_down s
  else if c =? chr_cr then Screen (rows s) 0 (sy s)
  else
    let rs := alter (λ r, <[sx s := c]> r) (sy s) (rows s) in
    if decide (S (sx s) < 80)%nat then Screen rs (S (sx s)) (sy s)
    else let s' := screen_down (Screen rs 0 (sy s)) in Screen (rows s') 0 (sy s').

(** The console's static variables represent the screen; the column is
    apart because a wrap passes through column 80. *)
Definition rows_at (st : console) (s : screen) : Prop :=
  length (rows s) = 25%nat ∧ Forall (λ r, length r = 80%nat) (rows s) ∧
  (sy s < 25)%nat ∧ _console_y st = Z.of_nat (sy s) ∧ _console_buf st = mjoin (rows s).
Definition shows (st : console) (s : screen) : Prop :=
  rows_at st s ∧ (sx s < 80)%nat ∧ _console_x st = Z.of_nat (sx s).

(** What printing leaves alone. *)
Definition same_vga (st st' : console) : Prop :=
  console_vga_buf st' = console_vga_buf st ∧ _console_int_buf st' = _console_int_buf st ∧
  vga st' = vga st.

Ltac cfields :=
  cbn [_console_x _console_y _console_buf console_vga_buf _console_int_buf vga rows sx sy].

(** ** Rows and the flat buffer *)
Lemma rows_length (rs : list (list Z)) :
  Forall (λ r, length r = 80%nat) rs → length (mjoin rs) = (80 * length rs)%nat.
Proof. induction 1 as [|r rs Hr _ IH]; simpl; [done|]. rewrite length_app. lia. Qed.

Lemma rows_insert (rs : list (list Z)) x y c :
  Forall (λ r, length r = 80%nat) rs → (x < 80)%nat → (y < length rs)%nat →
  <[(80 * y + x)%nat := c]> (mjoin rs) = mjoin (alter (λ r, <[x := c]> r) y rs).
Proof.
  intros Hf Hx. revert y. induction Hf as [|r rs Hr _ IH]; intros [|y] Hy; simpl in *; try lia.
  - by rewrite insert_app_l by lia.
  - rewrite insert_app_r_alt by lia. f_equal. etrans; [|apply IH; lia]. f_equal. lia.
Qed.

Lemma scroll_rows_spec n y (buf : list Z) :
  (y + n ≤ 24)%nat → length buf = 2000%nat →
  ∃ buf', scroll_rows n (Z.of_nat y) buf = Ret buf' ∧ length buf' = 2000%nat ∧
    ∀ i, buf' !! i = if decide (80 * y ≤ i < 80 * (y + n))%nat then buf !! (i + 80)%nat else buf !! i.
Proof.
  revert y buf. induction n as [|n IH]; intros y buf Hn Hl; cbn [scroll_rows].
  { exists buf. split_and!; [done..|]. intros i. by rewrite decide_False by lia. }
  change (Z.to_nat CONSOLE_WIDTH) with 80%nat. unfold CONSOLE_WIDTH.
  replace (Z.of_nat y * 80) with (Z.of_nat (80 * y)) by lia.
  replace ((Z.of_nat y + 1) * 80) with (Z.of_nat (80 * S y)) by lia.
  destruct (acopy_spec 80 (80 * y) (80 * S y) buf) as (b1 & -> & Hl1 & Hb1); [lia..|].
  munfold. rewrite wrap_small by lia. replace (Z.of_nat y + 1) with (Z.of_nat (S y)) by lia.
  destruct (IH (S y) b1) as (b2 & -> & Hl2 & Hb2); [lia..|].
  exists b2. split_and!; [done..|]. intros i. rewrite Hb2, !Hb1.
  repeat case_decide; try lia; try done. f_equal. lia.
Qed.

Lemma wp_cursor_down st s :
  rows_at st s → wp _console_cursor_down
    (λ _ st', rows_at st' (screen_down s) ∧ _console_x st' = _console_x st ∧ same_vga st st') st.
Proof.
  intros (Hr & Hf & Hy & Hcy & Hb). unfold _console_cursor_down. apply wp_bind, wp_get.
  rewrite Hcy, wrap_small by lia. unfold CONSOLE_HEIGHT, screen_down.
  destruct (Z.leb_spec 25 (Z.of_nat (sy s) + 1)).
  2:{ rewrite decide_True by lia. apply wp_bind, wp_get, wp_put. repeat split; cfields; (done || lia). }
  rewrite decide_False by lia. apply wp_bind, wp_bind, wp_get, wp_put, wp_bind.
  destruct (rows s) as [|r0 rs] eqn:Hrs; [done|]. inversion Hf as [|?? Hr0 Hf']; subst.
  assert (Hlen : length (_console_buf st) = 2000%nat).
  { rewrite Hb, rows_length by done. lia. }
  destruct (scroll_rows_spec 24 0 (_console_buf st)) as (b1 & Hb1 & Hl1 & Hi1); [lia|done|].
  eapply wp_lift; [exact Hb1|]. apply wp_bind.
  destruct (afill_spec 80 1920 0 b1) as (b2 & Hb2 & Hl2 & Hi2); [lia|].
  eapply wp_lift; [exact Hb2|]. apply wp_bind, wp_get, wp_put.
  split; [|done]. repeat split; cfields; try (done || lia).
  - rewrite length_app. cbn [length tail] in *. lia.
  - apply Forall_app. split; [done|]. by repeat constructor.
  - rewrite wrap_small; lia.
  - rewrite join_app. cbn [tail]. change (mjoin [blank_row]) with blank_row.
    rewrite Hb in Hi1. change (mjoin (r0 :: rs)) with (r0 ++ mjoin rs) in Hi1.
    pose proof (rows_length _ Hf') as Hlj. cbn [length] in Hr.
    apply list_eq. intros i. rewrite Hi2, Hi1. destruct (decide (i < 1920)%nat).
    + rewrite decide_False, decide_True by lia.
      rewrite (lookup_app_r r0), (lookup_app_l (mjoin rs)) by lia. f_equal. lia.
    + rewrite (lookup_app_r (mjoin rs)) by lia. unfold blank_row. destruct (decide (i < 2000)%nat).
      * rewrite decide_True by lia. symmetry. apply lookup_replicate. lia.
      * rewrite !decide_False by lia. rewrite (lookup_app_r r0), lookup_ge_None_2 by lia.
        symmetry. apply lookup_ge_None_2. rewrite length_replicate. lia.
Qed.

Lemma wp_putchar st s c :
  shows st s →
  wp (console_putchar c) (λ _ st', shows st' (screen_put s c) ∧ same_vga st st') st.
Proof.
  intros ((Hr & Hf & Hy & Hcy & Hb) & Hx & Hcx). unfold console_putchar, screen_put.
  destruct (c =? chr_nl).
  { eapply wp_mono; [by apply wp_cursor_down|]. intros [] st' (Hr' & Hx' & ?).
    split; [|done]. split; [done|]. rewrite Hx'. unfold screen_down. by case_decide. }
  destruct (c =? chr_cr).
  { apply wp_bind, wp_get, wp_bind, wp_get, wp_put. repeat split; cfields; (done || lia). }
  apply wp_bind, wp_get, wp_bind. rewrite Hcx, Hcy. unfold CONSOLE_WIDTH.
  replace (80 * Z.of_nat (sy s) + Z.of_nat (sx s)) with (Z.of_nat (80 * sy s + sx s)) by lia.
  eapply wp_lift; [apply aset_eq; rewrite Hb, rows_length by done; lia|].
  rewrite Hb, rows_insert by (done || lia).
  set (rs := alter _ _ _). assert (Hlr : length rs = 25%nat) by (unfold rs; by rewrite length_alter).
  assert (Hfr : Forall (λ r, length r = 80%nat) rs).
  { unfold rs. apply Forall_alter; [done|]. intros r _ Hr'. by rewrite length_insert. }
  apply wp_bind, wp_bind, wp_get, wp_put. unfold _console_cursor_forward. apply wp_bind, wp_get.
  cbn [_console_x _console_y]. rewrite Hcx, Hcy, wrap_small by lia. unfold CONSOLE_WIDTH.
  destruct (Z.leb_spec 80 (Z.of_nat (sx s) + 1)).
  2:{ rewrite decide_True by lia. apply wp_bind, wp_get, wp_put. repeat split; cfields; (done || lia). }
  rewrite decide_False by lia. apply wp_bind, wp_bind, wp_get, wp_put, wp_bind.
  eapply wp_mono; [apply (wp_cursor_down _ (Screen rs 0 (sy s))); by repeat split|].
  intros [] st' ((?&?&?&?&?) & _ & Hv). apply wp_bind, wp_get, wp_bind, wp_get, wp_put.
  repeat split; cfields; (done || lia || apply Hv).
Qed.

Lemma wp_put_all str st s :
  shows st s →
  wp (put_all str) (λ _ st', shows st' (foldl screen_put s str) ∧ same_vga st st') st.
Proof.
  revert st s. induction str as [|c str IH]; intros st s Hs; cbn [put_all foldl]; [done|].
  apply wp_bind. eapply wp_mono; [by apply wp_putchar|]. intros [] st1 (Hs1 & ? & ? & ?).
  eapply wp_mono; [by apply IH|]. intros [] st2 (? & ? & ? & ?).
  split; [done|]. split_and!; congruence.
Qed.

Lemma flush_loop_spec cs i base v a :
  0 ≤ i →
  flush_loop cs i base v !! a =
    if decide (0 ≤ a - base - 2 * i < 2 * zlen cs ∧ (a - base) mod 2 = 0)
    then cs !! Z.to_nat ((a - base) / 2 - i) else v !! a.
Proof.
  revert i v. induction cs as [|c cs IH]; intros i v Hi; cbn [flush_loop].
  { rewrite decide_False by (simpl; lia). done. }
  rewrite IH by lia. rewrite Z.shiftl_mul_pow2 by lia. change (2 ^ 1) with 2.
  destruct (decide (a = base + i * 2)) as [->|Hne].
  - replace (base + i * 2 - base) with (i * 2) by lia. rewrite Z.mod_mul, Z.div_mul by lia.
    rewrite decide_False, decide_True by (simpl; lia). rewrite lookup_insert_eq.
    by replace (i - i) with 0 by lia.
  - rewrite lookup_insert_ne by done.
    destruct (decide (0 ≤ a - base - 2 * (i + 1) < 2 * zlen cs ∧ (a - base) mod 2 = 0)).
    2:{ rewrite decide_False; [done|]. cbn [length]. intros [? Hm].
        pose proof (Z.div_mod (a - base) 2 ltac:(lia)). lia. }
    rewrite decide_True by (cbn [length]; lia).
    pose proof (Z.div_mod (a - base) 2 ltac:(lia)).
    replace (Z.to_nat ((a - base) / 2 - i)) with (S (Z.to_nat ((a - base) / 2 - (i + 1)))) by lia.
    done.
Qed.

(** The characters of a screen at every other byte of the window. *)
Lemma flush_loop_rows rs base v a :
  length rs = 25%nat → Forall (λ r, length r = 80%nat) rs →
  flush_loop (mjoin rs) 0 base v !! a =
    let k := a - base in
    if decide (0 ≤ k < 2 * (CONSOLE_WIDTH * CONSOLE_HEIGHT) ∧ k mod 2 = 0)
    then mjoin rs !! Z.to_nat (k / 2) else v !! a.
Proof.
  intros Hn Hr. rewrite flush_loop_spec by lia. rewrite rows_length by done.
  replace (2 * 0) with 0 by lia. rewrite !Z.sub_0_r. cbv zeta. unfold CONSOLE_WIDTH, CONSOLE_HEIGHT.
  by repeat case_decide; try lia.
Qed.

(** Printing a string never indexes outside the 80x25 buffer or the
    VGA window; the buffer then shows the screen that the characters
    denote (newline, carriage return, wrap at column 80, scroll at row
    25), and the VGA memory holds its characters at every other byte,
    the attribute bytes in between untouched. *)
Theorem console_puts_shows st s str :
  shows st s →
  ∃ st', console_puts str st = Ret (tt, st') ∧ shows st' (foldl screen_put s str) ∧
    ∀ a, vga st' !! a =
      let k := a - console_vga_buf st in
      if decide (0 ≤ k < 2 * (CONSOLE_WIDTH * CONSOLE_HEIGHT) ∧ k mod 2 = 0)
      then mjoin (rows (foldl screen_put s str)) !! Z.to_nat (k / 2) else vga st !! a.
Proof.
  intros Hs. cut (wp (console_puts str) (λ _ st', shows st' (foldl screen_put s str) ∧
    ∀ a, vga st' !! a = flush_loop (mjoin (rows (foldl screen_put s str))) 0 (console_vga_buf st) (vga st) !! a) st).
  { intros ([] & st' & ? & Hs' & Hv)%wp_run. exists st'. split_and!; [done..|]. intros a.
    rewrite Hv. destruct Hs' as ((? & ? & _) & _). by apply flush_loop_rows. }
  unfold console_puts. apply wp_bind. eapply wp_mono; [by apply wp_put_all|].
  intros [] st' (Hs' & Ha & _ & Hv). apply wp_bind, wp_get, wp_bind, wp_get, wp_put. simpl.
  rewrite Ha, Hv. destruct Hs' as ((? & ? & ? & ? & ->) & ? & ?). by repeat split.
Qed.

(** The static initialisers. *)
Definition console_init : console :=
  Console 0 0 (replicate 2000 0) 0xB8000 ([48; 120] ++ replicate 17 0) ∅.

Lemma console_init_shows : shows console_init (Screen (replicate 25 blank_row) 0 0).
Proof. repeat split; cbn [rows sy sx]; (done || lia || (by apply Forall_replicate)). Qed.

Lemma console_puts_shows_witness :
  ∃ st', console_puts [104; 105; 10; 33] console_init = Ret (tt, st') ∧
    vga st' !! 0xB8000 = Some 104 ∧ vga st' !! 0xB8001 = None ∧
    _console_x st' = 3 ∧ _console_y st' = 1.
Proof.
  destruct (console_puts_shows _ _ [104; 105; 10; 33] console_init_shows)
    as (st' & Heq & ((_ & _ & _ & Hy & _) & _ & Hx) & Hv).
  exists st'. split_and!; [done| | |by rewrite Hx|by rewrite Hy].
  - rewrite Hv. vm_compute. done.
  - rewrite Hv. vm_compute. done.
Defined.

(** ** Hexadecimal digits read back *)
Definition hex_digit (c : Z) : Z := if c <? 58 then c - 48 else c - 55.
Definition hexval (cs : list Z) : Z := foldl (λ acc c, 16 * acc + hex_digit c) 0 cs.
Definition hex_bytes (bs : list Z) : list Z :=
  bs ≫= λ b, [_console_nyb2hex (Z.shiftr b 4); _console_nyb2hex (Z.land b 0x0F)].

Lemma nyb2hex_digit d : 0 ≤ d < 16 →
  hex_digit (_console_nyb2hex d) = d ∧ 48 ≤ _console_nyb2hex d.
Proof.
  intros. unfold hex_digit, _console_nyb2hex.
  destruct (Z.ltb_spec d 10); [rewrite (proj2 (Z.ltb_lt _ _)) by lia; lia|].
  rewrite (proj2 (Z.ltb_ge _ _)) by lia. lia.
Qed.

Lemma byte_nybbles b : 0 ≤ b < 256 →
  0 ≤ Z.shiftr b 4 < 16 ∧ 0 ≤ Z.land b 0x0F < 16 ∧ b = 16 * Z.shiftr b 4 + Z.land b 0x0F.
Proof.
  intros. change 0x0F with (2 ^ 4 - 1). rewrite land_mask_mod, Z.shiftr_div_pow2 by lia.
  change (2 ^ 4) with 16. pose proof (Z.div_mod b 16 ltac:(lia)).
  pose proof (Z.mod_pos_bound b 16 ltac:(lia)). lia.
Qed.

Lemma hexval_bytes bs acc :
  Forall (λ b, 0 ≤ b < 256) bs →
  foldl (λ acc c, 16 * acc + hex_digit c) acc (hex_bytes bs) = foldl (λ acc b, 256 * acc + b) acc bs.
Proof.
  intros Hf. revert acc. induction Hf as [|b bs Hb _ IH]; intros acc; [done|].
  destruct (byte_nybbles b Hb) as (Hh & Hl & Heq). simpl. rewrite IH. f_equal.
  rewrite (proj1 (nyb2hex_digit _ Hh)), (proj1 (nyb2hex_digit _ Hl)). lia.
Qed.

Lemma be_le_val bs acc : foldl (λ acc b, 256 * acc + b) acc bs
  = acc * 256 ^ zlen bs + le_val (reverse bs).
Proof.
  revert acc. induction bs as [|b bs IH] using rev_ind; intros acc; [simpl; lia|].
  rewrite foldl_app, reverse_snoc. simpl. rewrite IH, length_app. simpl.
  rewrite Nat2Z.inj_add, Z.pow_add_r by lia. lia.
Qed.

Lemma le_bytes_length k n : length (le_bytes k n) = k.
Proof. revert n. induction k; intros; simpl; auto. Qed.

Lemma le_bytes_range k n : Forall (λ b, 0 ≤ b < 256) (le_bytes k n).
Proof.
  revert n. induction k; intros; simpl; constructor; [|done]. by apply (wrap_range 8).
Qed.

Lemma le_val_bytes k n : 0 ≤ n < 256 ^ Z.of_nat k → le_val (le_bytes k n) = n.
Proof.
  revert n. induction k as [|k IH]; intros n Hn; [simpl in *; lia|].
  rewrite Nat2Z.inj_succ, Z.pow_succ_r in Hn by lia. cbn [le_bytes le_val].
  rewrite (Z.shiftr_div_pow2 n 8) by lia. change (2 ^ 8) with 256.
  rewrite IH by (split; [apply Z.div_pos|apply Z.div_lt_upper_bound]; lia).
  pose proof (Z.div_mod n 256 ltac:(lia)). unfold wrap. change (2 ^ 8) with 256. lia.
Qed.

Lemma le_bytes_app j k n :
  le_bytes (j + k) n = le_bytes j n ++ le_bytes k (n / 256 ^ Z.of_nat j).
Proof.
  revert n. induction j as [|j IH]; intros n; [simpl; by rewrite Z.div_1_r|].
  rewrite Nat2Z.inj_succ, Z.pow_succ_r by lia. cbn [le_bytes Nat.add app]. rewrite IH.
  rewrite (Z.shiftr_div_pow2 n 8) by lia. change (2 ^ 8) with 256.
  by rewrite Z.div_div by lia.
Qed.

Lemma le_bytes_0 k : le_bytes k 0 = replicate k 0.
Proof.
  induction k as [|k IH]; [done|]. cbn [le_bytes replicate].
  change (Z.shiftr 0 8) with 0. by rewrite IH.
Qed.

Lemma le_val_zeros k bs : le_val (replicate k 0 ++ bs) = 256 ^ Z.of_nat k * le_val bs.
Proof.
  induction k as [|k IH]; cbn [replicate app le_val]; [simpl; lia|].
  rewrite Nat2Z.inj_succ, Z.pow_succ_r by lia. lia.
Qed.

(** After the swap and the shift, the low bytes are those of [n], most
    significant first. *)
Lemma bswap_shift n sz :
  (sz ≤ 8)%nat → 0 ≤ n < 256 ^ Z.of_nat sz →
  Z.shiftr (bswap64 n) (64 - 8 * Z.of_nat sz) = le_val (reverse (le_bytes sz n)).
Proof.
  intros Hsz Hn. unfold bswap64. replace 8%nat with (sz + (8 - sz))%nat by lia.
  rewrite le_bytes_app, Z.div_small, le_bytes_0, reverse_app, reverse_replicate, le_val_zeros by lia.
  rewrite Z.shiftr_div_pow2 by lia.
  replace (2 ^ (64 - 8 * Z.of_nat sz)) with (256 ^ Z.of_nat (8 - sz)).
  - rewrite Z.mul_comm, Z.div_mul; [done|]. pose proof (Z.pow_pos_nonneg 256 (Z.of_nat (8 - sz))). lia.
  - change 256 with (2 ^ 8). rewrite <- Z.pow_mul_r by lia. f_equal. lia.
Qed.

Lemma format_loop_spec l pre old post :
  Forall (λ b, 0 ≤ b < 256) l → length old = (2 * length l)%nat →
  format_loop (length l) (le_val l) (pre ++ old ++ post) (zlen pre) =
  Ret (pre ++ hex_bytes l ++ post, zlen pre + 2 * zlen l).
Proof.
  intros Hf. revert pre old. induction Hf as [|b l Hb Hf IH]; intros pre old Hl.
  { destruct old; [|done]. simpl. do 2 f_equal. lia. }
  destruct old as [|o1 [|o2 old]]; simpl in Hl; try lia. cbn [format_loop length le_val].
  assert (Hu : u8 (b + 256 * le_val l) = b).
  { unfold wrap. change (2 ^ 8) with 256. rewrite Z.mul_comm, Z.mod_add by lia. by apply Z.mod_small. }
  assert (Hs : Z.shiftr (b + 256 * le_val l) 8 = le_val l).
  { rewrite Z.shiftr_div_pow2 by lia. change (2 ^ 8) with 256.
    rewrite Z.mul_comm, Z.div_add, Z.div_small by lia. lia. }
  rewrite Hu, Hs. unfold _console_format_byte.
  rewrite aset_eq by (rewrite length_app; simpl; lia). munfold.
  rewrite insert_app_r_alt, Nat.sub_diag by lia. simpl.
  replace (zlen pre + 1) with (Z.of_nat (S (length pre))) by lia.
  rewrite aset_eq by (rewrite length_app; simpl; lia).
  rewrite insert_app_r_alt by lia. replace (S (length pre) - length pre)%nat with 1%nat by lia. simpl.
  pose proof (IH (pre ++ [_console_nyb2hex (Z.shiftr b 4); _console_nyb2hex (Z.land b 15)]) old ltac:(lia)) as Hi.
  rewrite <- app_assoc, length_app in Hi. simpl in Hi.
  replace (Z.of_nat (length pre + 2)) with (zlen pre + 2) in Hi by lia. rewrite Hi.
  rewrite <- app_assoc. simpl. do 2 f_equal. lia.
Qed.

Lemma cstring_app s post : Forall (λ c, c ≠ 0) s → cstring (s ++ 0 :: post) = Ret s.
Proof.
  induction 1 as [|c s Hc _ IH]; [done|]. cbn [cstring app].
  rewrite (proj2 (Z.eqb_neq _ _)) by done. by rewrite IH.
Qed.

Lemma hex_bytes_nonzero l : Forall (λ b, 0 ≤ b < 256) l → Forall (λ c, c ≠ 0) (hex_bytes l).
Proof.
  induction 1 as [|b l Hb _ IH]; [done|]. destruct (byte_nybbles b Hb) as (Hh & Hl & _).
  destruct (nyb2hex_digit _ Hh), (nyb2hex_digit _ Hl). simpl. repeat constructor; [lia..|done].
Qed.

Lemma hex_bytes_length l : length (hex_bytes l) = (2 * length l)%nat.
Proof. induction l as [|b l IH]; [done|]. simpl. rewrite IH. lia. Qed.

(** The hexadecimal printers print [0x] and exactly two digits per
    byte, most significant first, that read back as the number; the
    static digit buffer keeps its prefix and is never overrun. *)
Theorem console_printn_hex st n sz :
  (sz ≤ 8)%nat → 0 ≤ n < 256 ^ Z.of_nat sz →
  length (_console_int_buf st) = 19%nat → take 2 (_console_int_buf st) = [48; 120] →
  ∃ digits ib, length digits = (2 * sz)%nat ∧ hexval digits = n ∧
    length ib = 19%nat ∧ take 2 ib = [48; 120] ∧
    _console_printn n sz st =
      console_puts ([48; 120] ++ digits)
        (Console (_console_x st) (_console_y st) (_console_buf st) (console_vga_buf st) ib (vga st)).
Proof.
  intros Hsz Hn Hlen Hpre. set (l := reverse (le_bytes sz n)).
  assert (Hll : length l = sz) by (unfold l; by rewrite length_reverse, le_bytes_length).
  assert (Hlf : Forall (λ b, 0 ≤ b < 256) l) by (apply Forall_reverse, le_bytes_range).
  set (old := take (2 * sz) (drop 2 (_console_int_buf st))).
  set (rest := drop (2 + 2 * sz) (_console_int_buf st)).
  assert (Hold : length old = (2 * length l)%nat) by (unfold old; rewrite length_take, length_drop; lia).
  assert (Hib : _console_int_buf st = [48; 120] ++ old ++ rest).
  { unfold old, rest. rewrite <- Hpre, <- drop_drop, take_drop. by rewrite take_drop. }
  destruct rest as [|z rest'] eqn:Hrest.
  { assert (length rest = (19 - (2 + 2 * sz))%nat) by (unfold rest; rewrite length_drop; lia).
    rewrite Hrest in *. simpl in *. lia. }
  exists (hex_bytes l), ([48; 120] ++ hex_bytes l ++ 0 :: rest').
  split_and!; [by rewrite hex_bytes_length, Hll| | |done|].
  - unfold hexval. rewrite hexval_bytes, be_le_val by done. unfold l at 2.
    by rewrite reverse_involutive, le_val_bytes by done.
  - rewrite Hib in Hlen. rewrite <- Hlen, !length_app, hex_bytes_length, Hold. done.
  - unfold _console_printn. rewrite bswap_shift by done. fold l. munfold.
    rewrite Hib. pose proof (format_loop_spec l [48; 120] old (z :: rest') Hlf Hold) as Hfl.
    rewrite Hll in Hfl. change (zlen [48; 120]) with 2 in Hfl. rewrite Hfl. cbn [fst snd].
    replace (2 + 2 * Z.of_nat sz) with (Z.of_nat (2 + 2 * length l)) by lia.
    rewrite aset_eq by (rewrite !length_app, hex_bytes_length; simpl; lia).
    rewrite app_assoc, insert_app_r_alt by (rewrite length_app, hex_bytes_length; simpl; lia).
    rewrite length_app, hex_bytes_length, Nat.sub_diag. cbn [insert list_insert].
    rewrite cstring_app; [by rewrite <- app_assoc|].
    apply Forall_app. split; [by repeat constructor|by apply hex_bytes_nonzero].
Qed.

Lemma console_printn_hex_witness :
  ∃ digits ib, hexval digits = 0xBEEF ∧ length digits = 4%nat ∧
    console_printw 0xBEEF console_init =
      console_puts ([48; 120] ++ digits) (Console 0 0 (replicate 2000 0) 0xB8000 ib ∅).
Proof.
  destruct (console_printn_hex console_init 0xBEEF 2) as (digits & ib & ? & ? & _ & _ & Heq);
    [lia|lia|done|done|].
  exists digits, ib. split; [assumption|]. split; [assumption|exact Heq].
Defined.
