(* ===== verification/UniquePtr.v ===== *)
(** * [nonstd::unique_ptr] ([kernel/nonstd/memory.h])

    The objects on the heap are a set of addresses; a [unique_ptr] is a
    cell that holds an address, 0 for null.  The constructors write a cell
    that held nothing of interest before, so the default constructor, which
    writes nothing, leaves what was there. *)
From S2P Require Import Prelude.

Record owners := Owners { live : gset Z; cells : gmap Z Z }.

Definition get_ptr (u : Z) : M owners Z := s ← getS; liftO (deref (cells s !! u)).
Definition set_ptr (u v : Z) : M owners unit := s ← getS; putS (Owners (live s) (<[u := v]> (cells s))).

(** [delete p]: nothing for null; anything but a live object is undefined. *)
Definition delete_ (p : Z) : M owners unit :=
  s ← getS;
  if p =? 0 then mret tt
  else if decide (p ∈ live s) then putS (Owners (live s ∖ {[p]}) (cells s))
  else halt BadAccess.

(** [unique_ptr()], over a cell that holds [raw] *)
Definition ctor_default (u raw : Z) : M owners unit := set_ptr u raw.
Definition ctor (u _ptr : Z) : M owners unit := set_ptr u _ptr.
Definition move_ctor (u src : Z) : M owners unit :=
  p ← get_ptr src;
  _ ← set_ptr u p;
  set_ptr src 0.
Definition move_assign (u src : Z) : M owners unit :=
  p ← get_ptr u;
  _ ← delete_ p;
  q ← get_ptr src;
  _ ← set_ptr u q;
  set_ptr src 0.
(** The destructor, after which the cell is no longer an object. *)
Definition dtor (u : Z) : M owners unit :=
  p ← get_ptr u;
  _ ← delete_ p;
  s ← getS; putS (Owners (live s) (base.delete u (cells s))).
Definition get (u : Z) : M owners Z := get_ptr u.

(** [new T]: an address that is not in use. *)
Definition new_ (p : Z) : M owners unit := s ← getS; putS (Owners ({[p]} ∪ live s) (cells s)).

(** ** Ownership

    Each live object has exactly one owner, and each pointer owns a live
    object or is null. *)
Definition owned (s : owners) : Prop :=
  (∀ u p, cells s !! u = Some p → p = 0 ∨ p ∈ live s) ∧
  (∀ u v p, cells s !! u = Some p → cells s !! v = Some p → p ≠ 0 → u = v) ∧
  (∀ p, p ∈ live s → p ≠ 0 ∧ ∃ u, cells s !! u = Some p).

Inductive op :=
| Make (u p : Z)          (** [unique_ptr u{new T}] *)
| MoveMake (u src : Z)    (** [unique_ptr u{std::move(src)}] *)
| MoveTo (u src : Z)      (** [u = std::move(src)] *)
| Drop (u : Z).           (** the end of [u]'s lifetime *)

Definition run_op (o : op) : M owners unit :=
  match o with
  | Make u p => _ ← new_ p; ctor u p
  | MoveMake u src => move_ctor u src
  | MoveTo u src => move_assign u src
  | Drop u => dtor u
  end.

(** The abstract contents: which object, if any, each pointer owns. *)
Abbreviation contents := (Z → option (option Z)).
Definition holds (s : owners) : contents := λ u, (λ p, if p =? 0 then None else Some p) <$> cells s !! u.

(** What the language asks of a program: new cells and objects are new,
    the others exist; and the two sides of an assignment differ. *)
Definition op_ok (o : op) (f : contents) : Prop :=
  match o with
  | Make u p => f u = None ∧ p ≠ 0 ∧ ∀ x, f x ≠ Some (Some p)
  | MoveMake u src => f u = None ∧ is_Some (f src)
  | MoveTo u src => is_Some (f u) ∧ is_Some (f src) ∧ u ≠ src
  | Drop u => is_Some (f u)
  end.
Definition op_spec (o : op) (f : contents) : contents :=
  match o with
  | Make u p => λ x, if decide (x = u) then Some (Some p) else f x
  | MoveMake u src | MoveTo u src => λ x,
      if decide (x = u) then f src else if decide (x = src) then Some None else f x
  | Drop u => λ x, if decide (x = u) then None else f x
  end.
Fixpoint ops_ok (ops : list op) (f : contents) : Prop :=
  match ops with [] => True | o :: ops => op_ok o f ∧ ops_ok ops (op_spec o f) end.
Fixpoint run_ops (ops : list op) : M owners unit :=
  match ops with [] => mret tt | o :: ops => _ ← run_op o; run_ops ops end.

Ltac own_cells :=
  repeat match goal with
  | |- context [<[?u := _]> _ !! ?v] => destruct (decide (u = v)) as [->|]; [rewrite lookup_insert_eq|rewrite lookup_insert_ne by done]
  | H : context [<[?u := _]> _ !! ?v] |- _ => destruct (decide (u = v)) as [->|]; [rewrite lookup_insert_eq in H|rewrite lookup_insert_ne in H by done]
  end; simplify_eq/=.

(** Freeing what a cell owns: no other cell points there. *)
Lemma wp_delete_owned u p s (Q : unit → owners → Prop) :
  owned s → cells s !! u = Some p →
  Q tt (Owners (live s ∖ (if p =? 0 then ∅ else {[p]})) (cells s)) → wp (delete_ p) Q s.
Proof.
  intros (Hl & _ & _) Hu HQ. unfold delete_. apply wp_bind, wp_get. destruct (Z.eqb_spec p 0) as [->|Hne].
  - apply wp_ret. replace (Owners (live s ∖ ∅) (cells s)) with s in HQ; [done|].
    destruct s as [l c]. simpl. f_equal. set_solver.
  - destruct (Hl u p Hu) as [|Hin]; [done|]. rewrite decide_True by done. by apply wp_put.
Qed.

Lemma holds_None s u : holds s u = None ↔ cells s !! u = None.
Proof. unfold holds. by rewrite fmap_None. Qed.
Lemma holds_is_Some s u : is_Some (holds s u) ↔ is_Some (cells s !! u).
Proof. unfold holds. by rewrite fmap_is_Some. Qed.
Lemma holds_obj s u p : p ≠ 0 → holds s u = Some (Some p) ↔ cells s !! u = Some p.
Proof.
  intros Hp. unfold holds. rewrite fmap_Some. split.
  - intros (q & -> & Hq). destruct (Z.eqb_spec q 0); by simplify_eq.
  - intros ->. exists p. split; [done|]. by rewrite (proj2 (Z.eqb_neq p 0)).
Qed.

(** What is freed when a cell that holds [p] gives it up. *)
Definition freed (p : Z) : gset Z := if p =? 0 then ∅ else {[p]}.

Lemma elem_of_freed p q : q ∈ freed p ↔ q = p ∧ p ≠ 0.
Proof. unfold freed. destruct (Z.eqb_spec p 0); set_solver. Qed.

Lemma owned_new u p s :
  owned s → cells s !! u = None → p ≠ 0 → p ∉ live s → owned (Owners ({[p]} ∪ live s) (<[u := p]> (cells s))).
Proof.
  intros (Hl & Hu & Hx) Hn Hp Hpl. split_and!; cbn [live cells].
  - intros v q Hv. own_cells; [set_solver|]. destruct (Hl v q Hv); set_solver.
  - intros v w q Hv Hw Hq. assert (Hno : ∀ x, cells s !! x ≠ Some p) by (intros x Hxp; by destruct (Hl x p Hxp)).
    rewrite !lookup_insert_Some in Hv, Hw. naive_solver.
  - intros q [->%elem_of_singleton|Hq]%elem_of_union.
    + split; [done|]. exists u. by rewrite lookup_insert_eq.
    + destruct (Hx q Hq) as [? [v Hv]]. split; [done|]. exists v. rewrite lookup_insert_ne; [done|]. congruence.
Qed.

Lemma owned_free u p s :
  owned s → cells s !! u = Some p → owned (Owners (live s ∖ freed p) (<[u := 0]> (cells s))).
Proof.
  intros (Hl & Hu & Hx) Hp. split_and!; cbn [live cells].
  - intros v q Hv. own_cells; [by left|]. destruct (Hl v q Hv); [by left|].
    destruct (decide (q = 0)); [by left|right]. apply elem_of_difference. split; [done|].
    intros [-> ?]%elem_of_freed. assert (u = v) by (by eapply Hu). done.
  - intros v w q Hv Hw Hq. own_cells; try done. by eapply Hu.
  - intros q [Hq Hf]%elem_of_difference. destruct (Hx q Hq) as [Hq0 [v Hv]]. split; [done|]. exists v.
    rewrite lookup_insert_ne; [done|]. intros ->. apply Hf, elem_of_freed. simplify_eq. done.
Qed.

Lemma owned_move u src q s :
  owned s → cells s !! src = Some q → default 0 (cells s !! u) = 0 → u ≠ src →
  owned (Owners (live s) (<[src := 0]> (<[u := q]> (cells s)))).
Proof.
  intros (Hl & Hu & Hx) Hq Hn Hne. split_and!; cbn [live cells].
  - intros v r Hv. own_cells; [by left|by apply (Hl src)|by apply (Hl v)].
  - intros v w r Hv Hw Hr.
    assert (Hother : ∀ x, cells s !! x = Some q → x ≠ src → q = 0).
    { intros x Hxc Hxs. destruct (decide (q = 0)); [done|]. destruct (Hxs (Hu x src q Hxc Hq ltac:(done))). }
    rewrite !lookup_insert_Some in Hv, Hw. naive_solver.
  - intros r Hr. destruct (Hx r Hr) as [Hr0 [v Hv]]. split; [done|]. destruct (decide (v = src)) as [->|].
    + exists u. rewrite lookup_insert_ne, lookup_insert_eq by done. congruence.
    + exists v. rewrite !lookup_insert_ne; [done| |done]. intros ->. by rewrite Hv in Hn.
Qed.

Lemma owned_forget u s : owned s → cells s !! u = Some 0 → owned (Owners (live s) (base.delete u (cells s))).
Proof.
  intros (Hl & Hu & Hx) H0. split_and!; cbn [live cells].
  - intros v q [_ Hv]%lookup_delete_Some. by apply (Hl v).
  - intros v w q [_ Hv]%lookup_delete_Some [_ Hw]%lookup_delete_Some. by apply Hu.
  - intros q Hq. destruct (Hx q Hq) as [? [v Hv]]. split; [done|]. exists v.
    apply lookup_delete_Some. split; [|done]. congruence.
Qed.

Lemma holds_move u src q s l x : cells s !! src = Some q → u ≠ src →
  holds (Owners l (<[src := 0]> (<[u := q]> (cells s)))) x =
    if decide (x = u) then holds s src else if decide (x = src) then Some None else holds s x.
Proof.
  intros Hq Hne. unfold holds. cbn [cells]. destruct (decide (x = u)) as [->|].
  - by rewrite lookup_insert_ne, lookup_insert_eq, Hq by done.
  - destruct (decide (x = src)) as [->|]; [by rewrite lookup_insert_eq|]. by rewrite !lookup_insert_ne by done.
Qed.

(** Each operation keeps the objects owned and does what it says. *)
Lemma run_op_ok o s :
  owned s → op_ok o (holds s) →
  wp (run_op o) (λ _ s', owned s' ∧ ∀ x, holds s' x = op_spec o (holds s) x) s.
Proof.
  intros Ho Hok. destruct o as [u p|u src|u src|u]; cbn [run_op op_ok op_spec] in *.
  - destruct Hok as (Hn%holds_None & Hp & Hfree). unfold new_, ctor, set_ptr. munfold. cbn [live cells]. split.
    + apply owned_new; [done..|]. intros Hin. destruct Ho as (_ & _ & Hx). destruct (Hx p Hin) as [_ [v Hv]].
      apply (Hfree v). by apply holds_obj.
    + intros x. unfold holds. cbn [cells]. case_decide as Hd; [subst x|by rewrite lookup_insert_ne].
      rewrite lookup_insert_eq. simpl. by rewrite (proj2 (Z.eqb_neq p 0)).
  - destruct Hok as [Hn%holds_None [p Hsrc]%holds_is_Some]. assert (u ≠ src) by congruence.
    unfold move_ctor, get_ptr, set_ptr, deref, liftO. munfold. rewrite Hsrc. munfold. cbn [live cells].
    split; [apply owned_move; [done..|by rewrite Hn|done]|].
    intros x. by apply holds_move.
  - destruct Hok as ([p Hp]%holds_is_Some & [q Hsrc]%holds_is_Some & Hne).
    unfold move_assign. apply wp_bind. unfold get_ptr at 1. apply wp_bind, wp_get, (wp_deref _ p); [done|].
    apply wp_bind, (wp_delete_owned u p s); [done..|].
    unfold get_ptr, set_ptr, liftO. munfold. cbn [cells live]. rewrite Hsrc. munfold. cbn [cells live]. split.
    + pose proof (owned_move u src q _ (owned_free u p s Ho Hp)) as Hm. cbn [cells live] in Hm.
      rewrite lookup_insert_eq, lookup_insert_ne, insert_insert_eq in Hm by done. by apply Hm.
    + intros x. by apply holds_move.
  - apply holds_is_Some in Hok as [p Hp]. unfold dtor. apply wp_bind. unfold get_ptr at 1.
    apply wp_bind, wp_get, (wp_deref _ p); [done|]. apply wp_bind, (wp_delete_owned u p s); [done..|].
    munfold. cbn [cells live]. split.
    + pose proof (owned_forget u _ (owned_free u p s Ho Hp)) as Hm. cbn [cells live] in Hm.
      rewrite lookup_insert_eq, delete_insert_eq in Hm. by apply Hm.
    + intros x. unfold holds. cbn [cells]. case_decide as Hd; [subst x; by rewrite lookup_delete_eq|].
      by rewrite lookup_delete_ne.
Qed.

Lemma op_ok_ext o (f g : contents) : (∀ x, f x = g x) → op_ok o f → op_ok o g.
Proof. intros Hfg. destruct o; simpl; by setoid_rewrite Hfg. Qed.
Lemma op_spec_ext o (f g : contents) : (∀ x, f x = g x) → ∀ x, op_spec o f x = op_spec o g x.
Proof. intros Hfg x. destruct o; simpl; by rewrite ?Hfg. Qed.
Lemma ops_ok_ext ops (f g : contents) : (∀ x, f x = g x) → ops_ok ops f → ops_ok ops g.
Proof.
  revert f g. induction ops as [|o ops IH]; intros f g Hfg; [done|]. intros [Ho Hops]. split; [by eapply op_ok_ext|].
  eapply IH; [|exact Hops]. by apply op_spec_ext.
Qed.

(** C40: every history of pointers made over new objects, moved and destroyed
    completes without a second deletion; the pointers hold what the moves
    say, and an object lives exactly as long as a pointer holds it, so
    nothing leaks. *)
Theorem unique_ptr_owns ops s :
  owned s → ops_ok ops (holds s) →
  wp (run_ops ops) (λ _ s', owned s' ∧ (∀ x, holds s' x = foldl (λ f o, op_spec o f) (holds s) ops x) ∧
                            ∀ p, p ∈ live s' ↔ ∃ u, holds s' u = Some (Some p)) s.
Proof.
  intros Ho Hok. cut (wp (run_ops ops) (λ _ s', owned s' ∧ ∀ x, holds s' x = foldl (λ f o, op_spec o f) (holds s) ops x) s).
  { intros Hw. eapply wp_mono; [exact Hw|]. intros [] s' [Ho' Hh]. split_and!; [done|done|]. intros p.
    destruct Ho' as (Hl & _ & Hx). split.
    - intros Hp. destruct (Hx p Hp) as [? [u Hu]]. exists u. by apply holds_obj.
    - intros [u Hu]. unfold holds in Hu. apply fmap_Some in Hu as (q & Hq & Hpq).
      destruct (Z.eqb_spec q 0); [done|]. simplify_eq. by destruct (Hl u q Hq). }
  assert (Hext : ∀ (f : contents), (∀ x, holds s x = f x) → ops_ok ops f →
    wp (run_ops ops) (λ _ s', owned s' ∧ ∀ x, holds s' x = foldl (λ f o, op_spec o f) f ops x) s); [|by apply Hext].
  clear Hok. revert s Ho. induction ops as [|o ops IH]; intros s Ho f Hf Hok; cbn [run_ops foldl]; [by apply wp_ret|].
  destruct Hok as [H1 H2]. apply wp_bind. eapply wp_mono; [apply run_op_ok; [done|eapply op_ok_ext; [|exact H1]; done]|].
  intros [] s1 [Ho1 Hh1]. apply IH; [done| |done]. intros x. rewrite Hh1. by apply op_spec_ext.
Qed.

Lemma unique_ptr_owns_witness :
  ∃ s, run_ops [Make 1 0x100; Make 2 0x200; MoveTo 1 2; MoveMake 3 1; Drop 2] (Owners ∅ ∅) = Ret (tt, s) ∧
    0x100 ∉ live s ∧ 0x200 ∈ live s ∧ holds s 3 = Some (Some 0x200).
Proof.
  set (ops := [Make 1 0x100; Make 2 0x200; MoveTo 1 2; MoveMake 3 1; Drop 2]).
  assert (Ho : owned (Owners ∅ ∅)) by (split_and!; set_solver).
  assert (Hok : ops_ok ops (holds (Owners ∅ ∅))).
  { repeat split; try done; try (by eexists); simpl; intros x; repeat case_decide; done. }
  destruct (proj1 (wp_run _ _ _) (unique_ptr_owns ops (Owners ∅ ∅) Ho Hok)) as ([] & s & Hrun & _ & Hh & Hl).
  exists s. split; [done|]. split_and!; [| |by rewrite Hh].
  - rewrite Hl. intros [u Hu]. rewrite Hh in Hu. simpl in Hu. repeat case_decide; done.
  - apply Hl. exists 3. by rewrite Hh.
Defined.

(** Assigning a pointer to itself deletes the object and leaves null. *)
Example self_move_loses :
  move_assign 1 1 (Owners {[0x100]} {[1 := 0x100]}) = Ret (tt, Owners ∅ {[1 := 0]}).
Proof. vm_compute. done. Qed.

(** A default-constructed pointer owns whatever the memory held. *)
Example default_ctor_deletes_garbage :
  (_ ← ctor_default 1 0xDEAD; dtor 1) (Owners {[0x100]} ∅) = Halt BadAccess ∧
  (_ ← ctor_default 1 0x100; dtor 1) (Owners {[0x100]} ∅) = Ret (tt, Owners ∅ ∅).
Proof. split; vm_compute; done. Qed.
