(* ===== verification/Bitcast.v ===== *)
(** * Structs as integers ([kernel/util/bw.h], [kernel/util/objutil.h])

    A trivially copyable object is the list of its bytes, lowest first.
    [bw::id] reads it as the integer of its size.  Operators on integers
    narrower than [int] are computed at 32 bits, so the temporary that is
    cast back has at least four bytes; casting it to a larger type reads
    past it. *)
From S2P Require Import Prelude Console.

(** [detail::IntType]: the sizes for which there is an integer type. *)
Definition IntType (size : nat) : option Z :=
  match size with 1%nat => Some 8 | 2%nat => Some 16 | 4%nat => Some 32 | 8%nat => Some 64 | _ => None end.

Abbreviation obj := (list Z).
Definition obj_ok (b : obj) : Prop := is_Some (IntType (length b)) ∧ Forall (λ x, 0 ≤ x < 256) b.

Definition id (b : obj) : Z := le_val b.

(** The bytes of the temporary after the usual promotions. *)
Definition tmp_size (size : nat) : nat := Nat.max 4 size.
(** [reinterpret_cast<RetT &>(tmp)], read *)
Definition reinterpret (ret : nat) (tmp : obj) : outcome obj :=
  if (ret <=? length tmp)%nat then Ret (take ret tmp) else Halt BadAccess.

Definition not_ (ret : nat) (b : obj) : outcome obj :=
  reinterpret ret (le_bytes (tmp_size (length b)) (Z.lnot (id b))).

(** [detail::and_] and [detail::or_] *)
Definition and2 (ret : nat) (b1 b2 : obj) : outcome obj :=
  reinterpret ret (le_bytes (tmp_size (length b1)) (Z.land (id b1) (id b2))).
Definition or2 (ret : nat) (b1 b2 : obj) : outcome obj :=
  reinterpret ret (le_bytes (tmp_size (length b1)) (Z.lor (id b1) (id b2))).

(** The variadic forms: [b'] and [bs] are the pack, right to left. *)
Fixpoint and_ (ret : nat) (b b' : obj) (bs : list obj) : outcome obj :=
  match bs with
  | [] => and2 ret b b'
  | b'' :: bs => r ← and_ ret b' b'' bs; and2 ret b r
  end.
Fixpoint or_ (ret : nat) (b b' : obj) (bs : list obj) : outcome obj :=
  match bs with
  | [] => or2 ret b b'
  | b'' :: bs => r ← or_ ret b' b'' bs; or2 ret b r
  end.

(** ** Volatile objects

    A register and the sizes of the accesses made to it. *)
Record vreg := VReg { v_bytes : obj; v_reads : list nat; v_writes : list nat }.
Definition copy_from_volatile : M vreg obj :=
  r ← getS;
  _ ← putS (VReg (v_bytes r) (v_reads r ++ [length (v_bytes r)]) (v_writes r));
  let tmp := id (v_bytes r) in
  mret (le_bytes (length (v_bytes r)) tmp).
Definition copy_to_volatile (src : obj) : M vreg unit :=
  r ← getS;
  let tmp := id src in
  putS (VReg (le_bytes (length src) tmp) (v_reads r) (v_writes r ++ [length src])).

(** ** Proofs *)
Lemma obj_bytes_val b : Forall (λ x, 0 ≤ x < 256) b → le_bytes (length b) (le_val b) = b.
Proof.
  induction 1 as [|x b Hx _ IH]; [done|]. cbn [length le_bytes le_val].
  assert (Hlow : u8 (x + 256 * le_val b) = x).
  { unfold wrap. change (2 ^ 8) with 256. rewrite (Z.mul_comm 256), Z.mod_add by lia. apply Z.mod_small. lia. }
  rewrite Hlow. f_equal. rewrite Z.shiftr_div_pow2 by lia. change (2 ^ 8) with 256.
  replace ((x + 256 * le_val b) / 256) with (le_val b); [done|].
  apply Z.div_unique with x; lia.
Qed.

Lemma le_val_bytes_mod k n : le_val (le_bytes k n) = n mod 256 ^ Z.of_nat k.
Proof.
  revert n. induction k as [|k IH]; intros n; [simpl; by rewrite Z.mod_1_r|].
  rewrite Nat2Z.inj_succ, Z.pow_succ_r by lia. cbn [le_bytes le_val]. rewrite IH, Z.shiftr_div_pow2 by lia.
  unfold wrap. change (2 ^ 8) with 256. rewrite Z.rem_mul_r by lia. lia.
Qed.

Lemma take_le_bytes j k n : (j ≤ k)%nat → take j (le_bytes k n) = le_bytes j n.
Proof.
  intros Hj. replace k with (j + (k - j))%nat by lia. rewrite le_bytes_app.
  rewrite take_app_le by (rewrite le_bytes_length; lia). apply take_ge. by rewrite le_bytes_length.
Qed.

(** Casting the temporary back to a type no larger than it keeps the low
    bits of the value. *)
Lemma reinterpret_bits size ret n : (ret ≤ tmp_size size)%nat →
  ∃ r, reinterpret ret (le_bytes (tmp_size size) n) = Ret r ∧ length r = ret ∧ Forall (λ x, 0 ≤ x < 256) r ∧
    ∀ i, 0 ≤ i < 8 * Z.of_nat ret → Z.testbit (id r) i = Z.testbit n i.
Proof.
  intros Hr. exists (le_bytes ret n). unfold reinterpret. rewrite le_bytes_length.
  rewrite (proj2 (Nat.leb_le _ _)) by done. rewrite take_le_bytes by done.
  split_and!; [done|apply le_bytes_length|apply le_bytes_range|]. intros i Hi. unfold id.
  rewrite le_val_bytes_mod. change 256 with (2 ^ 8). rewrite <- Z.pow_mul_r by lia.
  apply Z.mod_pow2_bits_low. lia.
Qed.

Lemma tmp_size_le n : (n ≤ tmp_size n)%nat.
Proof. unfold tmp_size. lia. Qed.

Lemma not_bits b : ∃ r, not_ (length b) b = Ret r ∧ length r = length b ∧ Forall (λ x, 0 ≤ x < 256) r ∧
  ∀ i, 0 ≤ i < 8 * zlen b → Z.testbit (id r) i = negb (Z.testbit (id b) i).
Proof.
  destruct (reinterpret_bits (length b) (length b) (Z.lnot (id b)) (tmp_size_le _)) as (r & Hr & Hl & Hf & Hb).
  exists r. split_and!; [done..|]. intros i Hi. rewrite Hb by done. apply Z.lnot_spec. lia.
Qed.

(** The conjunction and the disjunction of a pack of objects of one size,
    bit by bit. *)
Lemma and_bits n b b' bs :
  Forall (λ x, length x = n) (b :: b' :: bs) →
  ∃ r, and_ n b b' bs = Ret r ∧ length r = n ∧ Forall (λ x, 0 ≤ x < 256) r ∧
    ∀ i, 0 ≤ i < 8 * Z.of_nat n →
      Z.testbit (id r) i = forallb (λ x, Z.testbit (id x) i) (b :: b' :: bs).
Proof.
  revert b b'. induction bs as [|b'' bs IH]; intros b b' Hall; apply Forall_cons in Hall as [Hb Hall]; cbn [and_].
  - destruct (reinterpret_bits n n (Z.land (id b) (id b')) (tmp_size_le n)) as (r & Hr & Hl & Hf & Hbit).
    exists r. unfold and2. rewrite Hb. split_and!; [done..|]. intros i Hi. rewrite Hbit by done.
    rewrite Z.land_spec. simpl. by rewrite andb_true_r.
  - destruct (IH b' b'' Hall) as (r1 & -> & _ & _ & Hr1). munfold.
    destruct (reinterpret_bits n n (Z.land (id b) (id r1)) (tmp_size_le n)) as (r & Hr & Hl & Hf & Hbit).
    exists r. unfold and2. rewrite Hb. split_and!; [done..|]. intros i Hi. rewrite Hbit by done.
    rewrite Z.land_spec, Hr1 by done. done.
Qed.
Lemma or_bits n b b' bs :
  Forall (λ x, length x = n) (b :: b' :: bs) →
  ∃ r, or_ n b b' bs = Ret r ∧ length r = n ∧ Forall (λ x, 0 ≤ x < 256) r ∧
    ∀ i, 0 ≤ i < 8 * Z.of_nat n →
      Z.testbit (id r) i = existsb (λ x, Z.testbit (id x) i) (b :: b' :: bs).
Proof.
  revert b b'. induction bs as [|b'' bs IH]; intros b b' Hall; apply Forall_cons in Hall as [Hb Hall]; cbn [or_].
  - destruct (reinterpret_bits n n (Z.lor (id b) (id b')) (tmp_size_le n)) as (r & Hr & Hl & Hf & Hbit).
    exists r. unfold or2. rewrite Hb. split_and!; [done..|]. intros i Hi. rewrite Hbit by done.
    rewrite Z.lor_spec. simpl. by rewrite orb_false_r.
  - destruct (IH b' b'' Hall) as (r1 & -> & _ & _ & Hr1). munfold.
    destruct (reinterpret_bits n n (Z.lor (id b) (id r1)) (tmp_size_le n)) as (r & Hr & Hl & Hf & Hbit).
    exists r. unfold or2. rewrite Hb. split_and!; [done..|]. intros i Hi. rewrite Hbit by done.
    rewrite Z.lor_spec, Hr1 by done. done.
Qed.

(** [and_(x, not_(mask))], the way the drivers clear flags: the bits of
    the mask are cleared and the others kept. *)
Theorem clear_flags x mask : length mask = length x →
  ∃ nm r, not_ (length x) mask = Ret nm ∧ and_ (length x) x nm [] = Ret r ∧ length r = length x ∧
    ∀ i, 0 ≤ i < 8 * zlen x → Z.testbit (id r) i = Z.testbit (id x) i && negb (Z.testbit (id mask) i).
Proof.
  intros Hm. destruct (not_bits mask) as (nm & Hn & Hln & _ & Hbn). rewrite Hm in Hn, Hbn, Hln.
  destruct (and_bits (length x) x nm []) as (r & Hr & Hl & _ & Hb); [by repeat constructor|].
  exists nm, r. split_and!; [done..|]. intros i Hi. rewrite Hb by done. simpl. rewrite Hbn by done.
  by rewrite andb_true_r.
Qed.

(** A flag test is not zero exactly when some flag of the mask is set. *)
Theorem test_flags x mask : length mask = length x →
  ∃ r, and_ (length x) x mask [] = Ret r ∧
    (id r ≠ 0 ↔ ∃ i, 0 ≤ i < 8 * zlen x ∧ Z.testbit (id x) i = true ∧ Z.testbit (id mask) i = true).
Proof.
  intros Hm. destruct (and_bits (length x) x mask []) as (r & Hr & Hl & Hf & Hb); [by repeat constructor|].
  exists r. split; [done|]. split.
  - intros Hne. destruct (decide (Exists (λ i, Z.testbit (id r) i = true) (seqZ 0 (8 * zlen x)))) as [He|He].
    + apply Exists_exists in He as (i & Hi%elem_of_seqZ & Hbit). rewrite Hb in Hbit by lia.
      simpl in Hbit. exists i. split; [lia|]. by destruct (Z.testbit (id x) i), (Z.testbit (id mask) i).
    + destruct Hne. rewrite <- (obj_bytes_val r) by done. unfold id. rewrite le_val_bytes_mod.
      apply Z.bits_inj'. intros i Hi. rewrite Z.bits_0. change 256 with (2 ^ 8). rewrite <- Z.pow_mul_r by lia.
      rewrite Hl. destruct (decide (i < 8 * zlen x)).
      * rewrite Z.mod_pow2_bits_low by done. destruct (Z.testbit _ i) eqn:Hbit; [|done].
        destruct He. apply Exists_exists. exists i. split; [apply elem_of_seqZ; lia|done].
      * apply Z.mod_pow2_bits_high. lia.
  - intros (i & Hi & Hx & Hk) H0. specialize (Hb i Hi). rewrite H0, Z.bits_0 in Hb. simpl in Hb. by rewrite Hx, Hk in Hb.
Qed.

(** A volatile object is written and read back in one access each, of its
    own size. *)
Theorem volatile_roundtrip b r : Forall (λ x, 0 ≤ x < 256) b →
  (_ ← copy_to_volatile b; copy_from_volatile) r
    = Ret (b, VReg b (v_reads r ++ [length b]) (v_writes r ++ [length b])).
Proof.
  intros Hb. unfold copy_to_volatile, copy_from_volatile, id. munfold. cbn [v_bytes v_reads v_writes].
  rewrite le_bytes_length, !obj_bytes_val by done. done.
Qed.

(** An [int] cast to a segment of eight bytes reads past the temporary. *)
Example not_too_large : not_ 8 [0xFF; 0xFF; 0xFF; 0xFF] = Halt BadAccess.
Proof. done. Qed.
(** Narrow operands are computed at 32 bits, and the cast takes the low
    byte. *)
Example not_narrow : not_ 1 [0x0F] = Ret [0xF0].
Proof. done. Qed.
