(* ===== verification/Serial.v ===== *)
(** * The serial port ([kernel/drivers/serial.{h,cc}])

    The driver is a set of functions over port I/O.  The UART behind the
    ports is the interface [Uart]: the two port instructions, what a
    documentation of the 16550 says of its registers, and what can be
    observed at its two ends, the bytes put on the line and the bytes the
    line will still bring.  The two polling loops read the line status as
    often as [uart_wait] says the device may ask them to. *)
From S2P Require Import Prelude.

(** [enum class Base] and [enum class Offset] *)
Definition com1 : Z := 0x3F8.
Definition com2 : Z := 0x2F8.
Definition com3 : Z := 0x3E8.
Definition com4 : Z := 0x2E8.
Definition com5 : Z := 0x5F8.
Definition com6 : Z := 0x4F8.
Definition com7 : Z := 0x5E8.
Definition com8 : Z := 0x4E8.
Definition rxtx_buf : Z := 0.
Definition interrupt_enable : Z := 1.
Definition divisor_lsb : Z := 0.
Definition divisor_msb : Z := 1.
Definition interrupt_id_fifo_ctl : Z := 2.
Definition line_ctl : Z := 3.
Definition modem_ctl : Z := 4.
Definition line_status : Z := 5.
Definition modem_status : Z := 6.
Definition scratch : Z := 7.

Definition get_io_port (base offset : Z) : Z := wrap 16 (base + offset).

(** The registers that the driver programs. *)
Record uart_regs := Regs { ier : Z; dll : Z; dlm : Z; fcr : Z; lcr : Z; mcr : Z }.
Definition dlab (r : uart_regs) : bool := Z.testbit (lcr r) 7.
Definition loopback (r : uart_regs) : bool := Z.testbit (mcr r) 4.

(** What writing a byte to a register does to the registers; the divisor
    latches are behind the first two when the latch bit is set. *)
Definition reg_write (offset val : Z) (r : uart_regs) : uart_regs :=
  if offset =? 0 then if dlab r then Regs (ier r) val (dlm r) (fcr r) (lcr r) (mcr r) else r
  else if offset =? 1 then
    if dlab r then Regs (ier r) (dll r) val (fcr r) (lcr r) (mcr r)
    else Regs val (dll r) (dlm r) (fcr r) (lcr r) (mcr r)
  else if offset =? 2 then Regs (ier r) (dll r) (dlm r) val (lcr r) (mcr r)
  else if offset =? 3 then Regs (ier r) (dll r) (dlm r) (fcr r) val (mcr r)
  else if offset =? 4 then Regs (ier r) (dll r) (dlm r) (fcr r) (lcr r) val
  else r.

(** Baud rate, parity and stop bits, and the mode of operation: 38400 baud
    (divisor 3), 8N1, no interrupts, not in loopback. *)
Definition line_ready (r : uart_regs) : Prop :=
  ier r = 0 ∧ dll r = 3 ∧ dlm r = 0 ∧ lcr r = 3 ∧ mcr r = 0x0F.

Lemma line_ready_bits r : line_ready r → dlab r = false ∧ loopback r = false.
Proof. intros (_ & _ & _ & Hc & Hm). unfold dlab, loopback. by rewrite Hc, Hm. Qed.

(** ** The device

    [calm n] says that the line brings no byte during the next [n] port
    accesses. *)
Class Uart (U : Type) (com : Z) := {
  inb : Z → U → Z * U;
  outb : Z → Z → U → U;
  uart_reg : U → uart_regs;
  uart_sent : U → list Z;        (** the bytes put on the line so far *)
  rx_fifo : U → list Z;          (** the bytes received and not read *)
  uart_input : U → list Z;       (** those and the ones the line will bring *)
  tx_empty : U → Prop;           (** the transmitter takes a byte *)
  calm : nat → U → Prop;
  uart_wait : U → nat;           (** a bound on the polls that find nothing *)
  (** a write to a control register sets it; only the FIFO control
      register touches the data, of which it drops what was received *)
  outb_reg u offset val : 0 ≤ offset ≤ 4 → 0 ≤ val < 256 →
    uart_reg (outb (get_io_port com offset) val u) = reg_write offset val (uart_reg u);
  outb_ctl u offset val n : 0 ≤ offset ≤ 4 → offset ≠ 2 → offset ≠ 0 ∨ dlab (uart_reg u) = true → calm (S n) u →
    let u' := outb (get_io_port com offset) val u in
    calm n u' ∧ uart_sent u' = uart_sent u ∧ uart_input u' = uart_input u ∧ rx_fifo u' = rx_fifo u;
  outb_fifo u val n : Z.testbit val 1 = true → calm (S n) u →
    let u' := outb (get_io_port com 2) val u in
    calm n u' ∧ uart_sent u' = uart_sent u ∧ rx_fifo u' = [] ∧
    uart_input u' = drop (length (rx_fifo u)) (uart_input u);
  (** a byte given to an empty transmitter goes on the line *)
  outb_send u c : tx_empty u → dlab (uart_reg u) = false → loopback (uart_reg u) = false →
    uart_sent (outb (get_io_port com 0) c u) = uart_sent u ++ [c] ∧
    uart_input (outb (get_io_port com 0) c u) = uart_input u;
  (** in loopback mode a byte sent is received and does not go on the line *)
  outb_loop u c n : dlab (uart_reg u) = false → loopback (uart_reg u) = true → 0 ≤ c < 256 →
    rx_fifo u = [] → calm (S (S n)) u →
    let r := inb (get_io_port com 0) (outb (get_io_port com 0) c u) in
    r.1 = c ∧ uart_reg r.2 = uart_reg u ∧ calm n r.2 ∧
    uart_sent r.2 = uart_sent u ∧ uart_input r.2 = uart_input u;
  (** a received byte is read once *)
  inb_data u c cs : dlab (uart_reg u) = false → rx_fifo u ≠ [] → uart_input u = c :: cs →
    let r := inb (get_io_port com 0) u in
    r.1 = c ∧ uart_input r.2 = cs ∧ uart_sent r.2 = uart_sent u ∧ uart_reg r.2 = uart_reg u;
  (** the line status: reading it changes nothing, and what it announces holds *)
  inb_status u :
    let r := inb (get_io_port com 5) u in
    uart_reg r.2 = uart_reg u ∧ uart_sent r.2 = uart_sent u ∧ uart_input r.2 = uart_input u ∧
    (if Z.testbit r.1 5 then tx_empty r.2 else (uart_wait r.2 < uart_wait u)%nat) ∧
    (if Z.testbit r.1 0 then rx_fifo r.2 ≠ []
     else uart_input u ≠ [] → (uart_wait r.2 < uart_wait u)%nat) }.

Section serial.
Context {U : Type} (com : Z) `{UA : Uart U com}.

Definition out_ (offset val : Z) : M U unit := λ u, Ret (tt, outb (get_io_port com offset) val u).
Definition in_ (offset : Z) : M U Z := λ u, Ret (inb (get_io_port com offset) u).

Definition magic_byte : Z := 0xAE.

(** ** [Serial<com>] *)
Definition init : M U bool :=
  _ ← out_ interrupt_enable 0x00;
  _ ← out_ line_ctl 0x80;
  _ ← out_ divisor_lsb 0x03;
  _ ← out_ divisor_msb 0x00;
  _ ← out_ line_ctl 0x03;
  _ ← out_ interrupt_id_fifo_ctl 0xC7;
  _ ← out_ modem_ctl 0x0B;
  _ ← out_ modem_ctl 0x1E;
  _ ← out_ rxtx_buf magic_byte;
  b ← in_ rxtx_buf;
  if negb (b =? magic_byte) then mret false
  else _ ← out_ modem_ctl 0x0F; mret true.

Definition is_transmit_empty : M U bool :=
  b ← in_ line_status; mret (negb (Z.land b 0x20 =? 0)).
Definition serial_received : M U bool :=
  b ← in_ line_status; mret (negb (Z.land b 0x01 =? 0)).

(** [while (!ready()) {}] *)
Fixpoint poll (fuel : nat) (ready : M U bool) : M U unit :=
  match fuel with
  | O => halt OutOfFuel
  | S fuel => b ← ready; if (b : bool) then mret tt else poll fuel ready
  end.

Definition write (c : Z) : M U unit :=
  u ← getS;
  _ ← poll (S (uart_wait u)) is_transmit_empty;
  out_ rxtx_buf (u8 c).
Definition read : M U Z :=
  u ← getS;
  _ ← poll (S (uart_wait u)) serial_received;
  in_ rxtx_buf.

(** ** [get]: the port is initialised by its first user

    The state is the static [is_init] and the device. *)
Definition get : M (bool * U) unit :=
  '(is_init, u) ← getS;
  if (is_init : bool) then mret tt
  else
    '(ok, u) ← liftO (init u);
    _ ← assertM ok;
    putS (true, u).
Definition on_uart {A} (m : M U A) : M (bool * U) A := on_part snd (λ u s, (s.1, u)) m.
Definition get_write (c : Z) : M (bool * U) unit := _ ← get; on_uart (write c).
Definition get_read : M (bool * U) Z := _ ← get; on_uart read.
Definition get_write_all (cs : list Z) : M (bool * U) unit := foldr (λ c k, _ ← get_write c; k) (mret tt) cs.

(** ** What the functions do *)
Lemma land_bit b i : 0 ≤ i → negb (Z.land b (2 ^ i) =? 0) = Z.testbit b i.
Proof.
  intros Hi. apply eq_true_iff_eq. rewrite negb_true_iff, Z.eqb_neq. split.
  - intros Hne. destruct (Z.testbit b i) eqn:Hb; [done|]. destruct Hne. apply Z.bits_inj'. intros n Hn.
    rewrite Z.land_spec, Z.pow2_bits_eqb, Z.bits_0 by lia. destruct (Z.eqb_spec i n) as [->|]; [by rewrite Hb|].
    by rewrite andb_false_r.
  - intros Hb Hz. assert (Hx : Z.testbit (Z.land b (2 ^ i)) i = true)
      by (rewrite Z.land_spec, Hb, Z.pow2_bits_true by lia; done).
    by rewrite Hz, Z.bits_0 in Hx.
Qed.

(** The data of [u'] are those of [u], and [n] accesses stay calm. *)
Definition undisturbed (n : nat) (u u' : U) : Prop :=
  calm n u' ∧ uart_sent u' = uart_sent u ∧ uart_input u' = uart_input u ∧ rx_fifo u' = rx_fifo u.

Lemma wp_out_ctl {A} n offset val (u0 u : U) (k : M U A) Q :
  0 ≤ offset ≤ 4 → offset ≠ 2 → 0 ≤ val < 256 → offset ≠ 0 ∨ dlab (uart_reg u) = true →
  undisturbed (S n) u0 u →
  (∀ u', undisturbed n u0 u' → uart_reg u' = reg_write offset val (uart_reg u) → wp k Q u') →
  wp (_ ← out_ offset val; k) Q u.
Proof.
  intros Ho H2 Hv Hc (Hcalm & Hs & Hi & Hf) HQ. apply wp_bind. unfold wp at 1, out_.
  destruct (outb_ctl u offset val n) as (? & ? & ? & ?); [done..|].
  apply HQ; [|by apply outb_reg]. split_and!; [done|congruence..].
Qed.

(** The port is programmed for 38400 baud, 8N1, and the self test passes
    if no byte arrives meanwhile; nothing is sent on the line, and what
    was received before is dropped. *)
Lemma wp_init u : dlab (uart_reg u) = false → calm 12 u →
  wp init (λ ok u', ok = true ∧ line_ready (uart_reg u') ∧ uart_sent u' = uart_sent u ∧
                    uart_input u' = drop (length (rx_fifo u)) (uart_input u)) u.
Proof.
  intros HD Hcalm. unfold init. destruct (uart_reg u) as [i0 l0 m0 f0 c0 o0] eqn:R0.
  apply (wp_out_ctl 11 _ _ u u); [done..|by left|by split_and!|]. intros u1 L1 R1.
  rewrite R0 in R1. unfold reg_write in R1. rewrite HD in R1. cbn in R1.
  apply (wp_out_ctl 10 _ _ u u1); [done..|by left|done|]. intros u2 L2 R2.
  rewrite R1 in R2. cbn in R2.
  apply (wp_out_ctl 9 _ _ u u2); [done..|right; by rewrite R2|done|]. intros u3 L3 R3.
  rewrite R2 in R3. cbn in R3.
  apply (wp_out_ctl 8 _ _ u u3); [done..|by left|done|]. intros u4 L4 R4.
  rewrite R3 in R4. cbn in R4.
  apply (wp_out_ctl 7 _ _ u u4); [done..|by left|done|]. intros u5 (C5 & S5 & I5 & F5) R5.
  rewrite R4 in R5. cbn in R5.
  apply wp_bind. unfold wp at 1, out_ at 1. change interrupt_id_fifo_ctl with 2.
  pose proof (outb_reg u5 2 0xC7 ltac:(lia) ltac:(lia)) as R6.
  destruct (outb_fifo u5 0xC7 6 eq_refl C5) as (C6 & S6 & F6 & I6).
  set (u6 := outb (get_io_port com 2) 0xC7 u5) in *. clearbody u6.
  rewrite R5 in R6. cbn in R6.
  apply (wp_out_ctl 5 _ _ u6 u6); [done..|by left|by split_and!|]. intros u7 L7 R7.
  rewrite R6 in R7. cbn in R7.
  apply (wp_out_ctl 4 _ _ u6 u7); [done..|by left|done|]. intros u8 (C8 & S8 & I8 & F8) R8.
  rewrite R7 in R8. cbn in R8.
  apply wp_bind. unfold wp at 1, out_ at 1. apply wp_bind. unfold wp at 1, in_.
  destruct (outb_loop u8 magic_byte 2) as (Hb & R9 & C9 & S9 & I9);
    [rewrite R8; reflexivity|rewrite R8; reflexivity|done|congruence|done|].
  destruct (inb (get_io_port com rxtx_buf) _) as [b u9] eqn:Heq. 
  change rxtx_buf with 0 in Heq. rewrite Heq in Hb, R9, C9, S9, I9. cbn [fst snd] in *. subst b. cbn [Z.eqb negb magic_byte Pos.eqb].
  apply (wp_out_ctl 1 _ _ u9 u9); [done..|by left| |].
  { by split_and!. }
  intros u10 (_ & S10 & I10 & _) R10. apply wp_ret. split_and!; [done|..].
  - rewrite R10, R9, R8. by split_and!.
  - congruence.
  - congruence.
Qed.

(** Polling ends: the status bit comes on after at most [uart_wait] reads. *)
Lemma wp_poll fuel bit u (P : U → Prop) :
  0 ≤ bit →
  (∀ v, uart_input v = uart_input u → let r := inb (get_io_port com 5) v in
        if Z.testbit r.1 bit then P r.2 else (uart_wait r.2 < uart_wait v)%nat) →
  ∀ v, uart_reg v = uart_reg u → uart_sent v = uart_sent u → uart_input v = uart_input u → (uart_wait v < fuel)%nat →
  wp (poll fuel (b ← in_ line_status; mret (negb (Z.land b (2 ^ bit) =? 0))))
     (λ _ v, P v ∧ uart_reg v = uart_reg u ∧ uart_sent v = uart_sent u ∧ uart_input v = uart_input u) v.
Proof.
  intros Hbit HP. induction fuel as [|fuel IH]; intros v Hr Hs Hi Hf; [lia|]. cbn [poll].
  apply wp_bind, wp_bind. unfold wp at 1, in_. specialize (HP v Hi). pose proof (inb_status v) as (R & S & I & _ & _).
  change line_status with 5. cbv zeta in *. destruct (inb _ v) as [b v']. cbn [fst snd] in *. apply wp_ret. rewrite land_bit by done.
  destruct (Z.testbit b bit).
  - apply wp_ret. split_and!; [done|congruence..].
  - apply IH; [congruence..|lia].
Qed.

Lemma wp_write c u : line_ready (uart_reg u) →
  wp (write c) (λ _ u', uart_sent u' = uart_sent u ++ [u8 c] ∧ uart_input u' = uart_input u ∧
                        line_ready (uart_reg u')) u.
Proof.
  intros Hl. unfold write. apply wp_bind, wp_get, wp_bind.
  eapply wp_mono; [apply (wp_poll (S (uart_wait u)) 5 u tx_empty); [lia| |done..|lia]|].
  { intros v _. apply (inb_status v). }
  intros [] v (Ht & Hr & Hs & Hi). unfold wp, out_. rewrite <- Hr in Hl.
  destruct (line_ready_bits _ Hl) as [Hd Hlb]. destruct (outb_send v (u8 c) Ht Hd Hlb) as [S I].
  change rxtx_buf with 0. split_and!; [congruence|congruence|].
  rewrite outb_reg by (try apply wrap_range; lia). unfold reg_write. by rewrite Hd.
Qed.

Lemma wp_read c cs u : line_ready (uart_reg u) → uart_input u = c :: cs →
  wp read (λ r u', r = c ∧ uart_input u' = cs ∧ uart_sent u' = uart_sent u ∧ line_ready (uart_reg u')) u.
Proof.
  intros Hl Hin. unfold read. apply wp_bind, wp_get, wp_bind.
  eapply wp_mono; [apply (wp_poll (S (uart_wait u)) 0 u (λ v, rx_fifo v ≠ [])); [lia| |done..|lia]|].
  { intros v Hv. pose proof (inb_status v) as (_ & _ & _ & _ & H0). cbv zeta in *.
    destruct (Z.testbit _ _); [done|]. apply H0. by rewrite Hv, Hin. }
  intros [] v (Ht & Hr & Hs & Hi). unfold wp, in_. rewrite <- Hr in Hl.
  destruct (line_ready_bits _ Hl) as [Hd _].
  destruct (inb_data v c cs Hd Ht) as (Hc & I & S & R); [congruence|]. change rxtx_buf with 0.
  destruct (inb _ v) as [b v']. cbn [fst snd] in *. rewrite R. split_and!; [done|done|congruence|done].
Qed.

(** Before its first use the port is as after a reset, and no byte
    arrives during the initialisation. *)
Definition port_ok (p : bool * U) : Prop :=
  if p.1 then line_ready (uart_reg p.2) else dlab (uart_reg p.2) = false ∧ calm 12 p.2.

(** The input that a user of the port will see. *)
Definition port_input (p : bool * U) : list Z :=
  if p.1 then uart_input p.2 else drop (length (rx_fifo p.2)) (uart_input p.2).

Lemma wp_get_port p : port_ok p →
  wp get (λ _ p', p'.1 = true ∧ line_ready (uart_reg p'.2) ∧ uart_sent p'.2 = uart_sent p.2 ∧
                  uart_input p'.2 = port_input p) p.
Proof.
  destruct p as [[] u]; intros Hp; unfold get; apply wp_bind, wp_get.
  { apply wp_ret. by split_and!. }
  destruct Hp as [Hd Hc]. destruct (proj1 (wp_run _ _ _) (wp_init u Hd Hc)) as (ok & u' & Heq & -> & Hl & Hs & Hi).
  rewrite Heq. apply wp_bind. unfold wp at 1, liftO. apply wp_bind, wp_assert; [done|]. apply wp_put. by split_and!.
Qed.

Lemma wp_get_write c p : port_ok p →
  wp (get_write c) (λ _ p', p'.1 = true ∧ port_ok p' ∧ uart_sent p'.2 = uart_sent p.2 ++ [u8 c] ∧
                            port_input p' = port_input p) p.
Proof.
  intros Hp. unfold get_write. apply wp_bind. eapply wp_mono; [by apply wp_get_port|].
  intros [] [i u] (Hi & Hl & Hs & Hin). simpl in *. subst i. apply wp_on_part. simpl.
  eapply wp_mono; [by apply wp_write|]. intros [] u' (Hs' & Hi' & Hl'). simpl.
  unfold port_ok, port_input at 1. simpl. split_and!; [done|done|congruence|congruence].
Qed.

(** Reading returns the bytes of the line in order. *)
Lemma wp_get_read c cs p : port_ok p → port_input p = c :: cs →
  wp get_read (λ r p', r = c ∧ port_ok p' ∧ port_input p' = cs ∧ uart_sent p'.2 = uart_sent p.2) p.
Proof.
  intros Hp Hc. unfold get_read. apply wp_bind. eapply wp_mono; [by apply wp_get_port|].
  intros [] [i u] (Hi & Hl & Hs & Hin). simpl in *. subst i. apply wp_on_part. simpl.
  eapply wp_mono; [apply (wp_read c cs); [done|congruence]|]. intros r u' (-> & Hi' & Hs' & Hl'). simpl.
  unfold port_ok, port_input. simpl. split_and!; [done|done|done|congruence].
Qed.

(** Whatever is written goes on the line, in order and completely, and
    nothing that is received is lost by writing. *)
Lemma wp_get_write_all cs p : port_ok p →
  wp (get_write_all cs) (λ _ p', port_ok p' ∧ uart_sent p'.2 = uart_sent p.2 ++ (u8 <$> cs) ∧
                                 port_input p' = port_input p) p.
Proof.
  revert p. induction cs as [|c cs IH]; intros p Hp; cbn [get_write_all foldr].
  { apply wp_ret. by rewrite app_nil_r. }
  apply wp_bind. eapply wp_mono; [by apply wp_get_write|]. intros [] p1 (_ & Hp1 & Hs1 & Hi1).
  eapply wp_mono; [by apply IH|]. intros [] p2 (Hp2 & Hs2 & Hi2). split_and!; [done| |congruence].
  by rewrite Hs2, Hs1, <- app_assoc.
Qed.
End serial.

(** ** A device

    A UART that answers two polls of the line status with nothing after
    each byte it was given, and that takes a byte off the line when the
    status is read. *)
Record sim := Sim { sim_regs : uart_regs; sim_sent : list Z; sim_fifo : list Z; sim_line : list Z; sim_busy : nat }.

Definition sim_out (port val : Z) (u : sim) : sim :=
  let offset := port - com1 in
  let r := reg_write offset val (sim_regs u) in
  if offset =? 0 then
    if dlab (sim_regs u) then Sim r (sim_sent u) (sim_fifo u) (sim_line u) (sim_busy u)
    else if loopback (sim_regs u) then Sim r (sim_sent u) (sim_fifo u ++ [val]) (sim_line u) (sim_busy u)
    else Sim r (sim_sent u ++ [val]) (sim_fifo u) (sim_line u) 2
  else if (offset =? 2) && Z.testbit val 1 then Sim r (sim_sent u) [] (sim_line u) (sim_busy u)
  else Sim r (sim_sent u) (sim_fifo u) (sim_line u) (sim_busy u).

Definition sim_in (port : Z) (u : sim) : Z * sim :=
  let offset := port - com1 in
  if offset =? 0 then
    match sim_fifo u with
    | b :: bs => (b, Sim (sim_regs u) (sim_sent u) bs (sim_line u) (sim_busy u))
    | [] => (0, u)
    end
  else if offset =? 5 then
    match sim_busy u with
    | S n => (0, Sim (sim_regs u) (sim_sent u) (sim_fifo u) (sim_line u) n)
    | O =>
      match sim_fifo u ++ sim_line u with
      | [] => (0x20, u)
      | b :: bs => (0x21, Sim (sim_regs u) (sim_sent u) [b] bs 0)
      end
    end
  else (0, u).

#[export] Instance sim_uart : Uart sim com1.
Proof.
  refine {| inb := sim_in; outb := sim_out; uart_reg := sim_regs; uart_sent := sim_sent;
            rx_fifo := sim_fifo; uart_input u := sim_fifo u ++ sim_line u; tx_empty u := True;
            calm _ _ := True; uart_wait := sim_busy |}.
  - intros [r sn f l b] off val Ho Hv. unfold sim_out, get_io_port. rewrite wrap_small by (unfold com1; lia).
    replace (com1 + off - com1) with off by lia. simpl. by repeat case_match.
  - intros [r sn f l b] off val n Ho H2 Hd _. unfold sim_out, get_io_port. rewrite wrap_small by (unfold com1; lia).
    replace (com1 + off - com1) with off by lia. simpl in *. rewrite (proj2 (Z.eqb_neq off 2)) by done. simpl.
    destruct (Z.eqb_spec off 0); [|done]. destruct Hd as [|Hd]; [done|]. by rewrite Hd.
  - intros [r sn f l b] val n Hv _. unfold sim_out. rewrite Hv. simpl. by rewrite drop_app_length.
  - intros [r sn f l b] c _ Hd Hl. simpl in *. unfold sim_out. simpl. by rewrite Hd, Hl.
  - intros [r sn f l b] c n Hd Hl Hc Hf _. simpl in *. subst f. unfold sim_out, sim_in. simpl. rewrite Hd, Hl. simpl.
    unfold reg_write. simpl. by rewrite Hd.
  - intros [r sn f l b] c cs Hd Hf Hin. simpl in *. unfold sim_in. simpl. destruct f; by simplify_eq/=.
  - intros [r sn f l b]. unfold sim_in. change (get_io_port com1 5 - com1) with 5. cbn.
    destruct b as [|b]; [|cbn; split_and!; (done || lia)].
    destruct (f ++ l) eqn:Heq; cbn; by rewrite ?Heq.
Defined.

Definition sim_reset (line : list Z) : sim := Sim (Regs 0 0 0 0 0 0) [] [] line 0.

(** A whole exchange: the first use initialises the port. *)
Example serial_exchange :
  (_ ← get_write_all com1 [104; 105]; get_read com1) (false, sim_reset [111; 107])
    = Ret (111, (true, Sim (Regs 0 3 0 0xC7 3 0x0F) [104; 105] [] [107] 0)).
Proof. vm_compute. done. Qed.

(** Interrupts are disabled before the latch bit is cleared: on a port
    that was left with the bit set the write goes to the divisor, and the
    interrupts stay as they were. *)
Example interrupts_stay_enabled :
  let u := Sim (Regs 0x0F 0 0 0 0x80 0) [] [] [] 0 in
  match init com1 u with Ret (ok, u') => ok = true ∧ ier (uart_reg u') = 0x0F | Halt _ => False end.
Proof. vm_compute. done. Qed.
