(* ===== verification/Terminal.v ===== *)
(** * What [printf] shows ([kernel/nonstd/libc.cc])

    The terminal writer of [vprintf] puts every character on the console
    and on the first serial port.  Here the writer runs over the console of
    [Console] and the port of [Serial] together, for any device behind the
    port; [Printf] says which characters a format and its arguments make. *)
From S2P Require Import Prelude Printf Console Serial.

Record terminal (U : Type) := Term { t_con : console; t_port : bool * U }.
Arguments Term {U} t_con t_port.
Arguments t_con {U} _.
Arguments t_port {U} _.

Section terminal.
Context {U : Type} `{UA : Uart U com1}.

Definition term_putchar (c : Z) : M (terminal U) unit :=
  _ ← on_part t_con (λ k t, Term k (t_port t)) (console_putchar c);
  on_part t_port (λ p t, Term (t_con t) p) (get_write com1 c).

(** [_term_writer]; a terminal that stopped takes no more characters. *)
Definition term_writer (c i : Z) (null_term : bool) (t : outcome (terminal U)) : outcome (terminal U) :=
  if null_term then t else t ← t; '(_, t) ← term_putchar c t; Ret t.

Definition term_vprintf (fmt : list Z) (args : list arg) : M (terminal U) Z := λ t,
  '(rv, t) ← _vsnprintf term_writer (2 ^ 32 - 1) fmt args (Ret t);
  t ← t;
  '(_, t) ← on_part t_con (λ k t, Term k (t_port t)) console_flush t;
  Ret (rv, t).

(** The writer keeps the two devices in step: the console is as after
    putting the characters one by one, and the line has carried them. *)
Lemma writes_terminal s j t k' :
  put_all s (t_con t) = Ret (tt, k') → port_ok com1 (t_port t) →
  ∃ p', writes term_writer s j (Ret t) = Ret (Term k' p') ∧ port_ok com1 p' ∧
    uart_sent p'.2 = uart_sent (t_port t).2 ++ (u8 <$> s) ∧ port_input com1 p' = port_input com1 (t_port t).
Proof.
  revert j t. induction s as [|c s IH]; intros j [k p] Hk Hp; cbn [put_all writes] in *.
  { unfold mret, M_ret in Hk. simplify_eq/=. exists p. by rewrite app_nil_r. }
  unfold mbind, M_bind in Hk. cbn [t_con t_port] in *. destruct (console_putchar c k) as [[[] k1]|] eqn:Hc; [|done].
  destruct (proj1 (wp_run _ _ _) (wp_get_write com1 c p Hp)) as ([] & p1 & Hw & _ & Hp1 & Hs1 & Hi1).
  unfold term_writer at 2, term_putchar, on_part. munfold. cbn [t_con t_port]. rewrite Hc. cbn [t_con t_port]. rewrite Hw.
  destruct (IH (j + 1) (Term k1 p1) Hk Hp1) as (p' & Heq & Hp' & Hs' & Hi'). exists p'. split; [exact Heq|].
  split; [done|]. cbn [t_port] in *. split; [|congruence]. by rewrite Hs', Hs1, <- app_assoc.
Qed.

(** C39: [printf] returns the number of characters of its output; the screen
    shows them after what it showed, wrapped and scrolled, in the VGA
    memory too, and the serial line has carried the same characters in the
    same order, nothing that came in having been lost. *)
Theorem printf_shows fmt args n out t s :
  vprintf [] fmt args = Ret (n, out) → shows (t_con t) s → port_ok com1 (t_port t) →
  ∃ t', term_vprintf fmt args t = Ret (n, t') ∧ n = zlen out ∧
    shows (t_con t') (foldl screen_put s out) ∧
    (∀ a, vga (t_con t') !! a =
       let k := a - console_vga_buf (t_con t) in
       if decide (0 ≤ k < 2 * (CONSOLE_WIDTH * CONSOLE_HEIGHT) ∧ k mod 2 = 0)
       then mjoin (rows (foldl screen_put s out)) !! Z.to_nat (k / 2) else vga (t_con t) !! a) ∧
    port_ok com1 (t_port t') ∧ uart_sent (t_port t').2 = uart_sent (t_port t).2 ++ (u8 <$> out) ∧
    port_input com1 (t_port t') = port_input com1 (t_port t).
Proof.
  intros Hv Hs Hp. apply vprintf_output in Hv as [Hv ->].
  destruct (vsn_loop_sims term_writer _ fmt args 0 0 [] (Ret t) _ _ Hv) as (o & Ho & _ & Hrun).
  simpl in Ho. subst o. rewrite Z.add_0_l in Hrun.
  destruct (proj1 (wp_run _ _ _) (wp_put_all out _ _ Hs)) as ([] & k' & Hk & Hs' & Ha & _ & Hvga).
  destruct (writes_terminal out 0 t k' Hk Hp) as (p' & Hw & Hp' & Hsent & Hin).
  unfold term_vprintf, _vsnprintf. rewrite Hrun, Hw. munfold. eexists. split; [reflexivity|].
  cbn [t_con t_port]. split; [done|]. destruct Hs' as ((? & ? & ? & ? & Hb) & ? & ?).
  split; [by repeat split|]. split; [|by split_and!]. intros a. cbn. rewrite Hb, Ha, Hvga. by apply flush_loop_rows.
Qed.
End terminal.

(** "n=%d\n" with 42, on a fresh screen and port. *)
Lemma printf_shows_witness :
  ∃ t', term_vprintf (U := sim) [110; 61; 37; 100; 10] [AInt 42] (Term console_init (false, sim_reset [])) = Ret (5, t') ∧
    uart_sent (t_port t').2 = [110; 61; 52; 50; 10] ∧ vga (t_con t') !! 0xB8004 = Some 52.
Proof.
  destruct (printf_shows (U := sim) [110; 61; 37; 100; 10] [AInt 42] 5 [110; 61; 52; 50; 10]
    (Term console_init (false, sim_reset [])) _ ltac:(vm_compute; reflexivity) console_init_shows)
    as (t' & Heq & _ & _ & Hv & _ & Hs & _).
  - by split.
  - exists t'. split; [exact Heq|]. split; [exact Hs|]. rewrite Hv. vm_compute. done.
Defined.
