(* ===== verification/TestRunner.v ===== *)
(** * The test runner ([test/test.{h,cc}], [test/entry.cc])

    Choosing tests by a selection, running them and counting, and reading
    the selection from the serial port.  A test is a function that may set
    the result and change the rest of the machine, [W]; the names and the
    selection are read-only memory.  A call of [printf] is its format and
    arguments ([Terminal] says what a call shows). *)
From Stdlib Require Import Ascii String.
From S2P Require Import Prelude Libc Printf StringView Serial.

Definition chr_comma : Z := 44.
Definition chr_caret : Z := 94.
Definition chr_tilde : Z := 126.
Definition all_str : list Z := [97; 108; 108].

(** ** [detail::matches]

    [all_lit] is the address of the literal ["all"].  Each comma makes two
    calls on shorter selections. *)
Section matches.
Context (all_lit : Z).

(** From the checks for ^ and ~ on. *)
Definition match_pattern (test_name test_selection : string_view) : M mem bool :=
  starts ← starts_with_char chr_caret test_selection;
  let test_selection := if (starts : bool) then substr 1 npos test_selection else test_selection in
  ends ← ends_with_char chr_tilde test_selection;
  let test_selection :=
    if (ends : bool) then substr 0 (u32 (sv_len test_selection - 1)) test_selection else test_selection in
  bad_start ← (if starts then b ← starts_with test_selection test_name; mret (negb b) else mret false);
  bad ← (if (bad_start : bool) then mret true
         else if ends then b ← ends_with test_selection test_name; mret (negb b) else mret false);
  if (bad : bool) then mret false else contains test_selection test_name.

Fixpoint matches (fuel : nat) (test_name test_selection : string_view) : M mem bool :=
  all ← sv_cstr all_lit;
  is_all ← sv_eq test_selection all;
  if (is_all : bool) then mret true
  else
    comma_pos ← find_char chr_comma test_selection;
    if negb (comma_pos =? npos) then
      match fuel with
      | O => halt OutOfFuel
      | S fuel =>
        b ← matches fuel test_name (substr 0 comma_pos test_selection);
        if (b : bool) then mret true
        else matches fuel test_name (substr (signed 32 (comma_pos + 1)) npos test_selection)
      end
    else match_pattern test_name test_selection.
End matches.

(** ** What a selection means: patterns separated by commas *)
Fixpoint patterns (sel : list Z) : list (list Z) :=
  match sel with
  | [] => [[]]
  | c :: sel =>
    match patterns sel with
    | p :: ps => if c =? chr_comma then [] :: p :: ps else (c :: p) :: ps
    | [] => []
    end
  end.

(** The text between the optional marks. *)
Definition pattern_ok (name pat : list Z) : Prop :=
  let starts := bool_decide (head pat = Some chr_caret) in
  let pat := if starts then tail pat else pat in
  let ends := bool_decide (last pat = Some chr_tilde) in
  let body := if ends then take (length pat - 1) pat else pat in
  (starts → body `prefix_of` name) ∧ (ends → body `suffix_of` name) ∧ ∃ j, occurs body name j.

(** A pattern is ["all"], or a text with an optional caret before it and
    an optional tilde after it. *)
Definition selects (name pat : list Z) : Prop :=
  pat = all_str ∨ pattern_ok name pat.

Lemma patterns_cons sel : ∃ p ps, patterns sel = p :: ps.
Proof.
  induction sel as [|c sel (p & ps & IH)]; cbn [patterns]; [by eexists _, _|]. rewrite IH.
  destruct (c =? chr_comma); by eexists _, _.
Qed.
Lemma patterns_one sel : chr_comma ∉ sel → patterns sel = [sel].
Proof.
  induction sel as [|c sel IH]; [done|]. intros [Hc Hs]%not_elem_of_cons. cbn [patterns]. rewrite IH by done.
  by rewrite (proj2 (Z.eqb_neq c chr_comma)) by done.
Qed.
Lemma patterns_app l1 l2 : chr_comma ∉ l1 → patterns (l1 ++ chr_comma :: l2) = l1 :: patterns l2.
Proof.
  destruct (patterns_cons l2) as (p & ps & Hp). induction l1 as [|c l1 IH].
  - intros _. cbn [app patterns]. by rewrite Hp.
  - intros [Hc Hs]%not_elem_of_cons. cbn [app patterns]. rewrite IH by done.
    by rewrite (proj2 (Z.eqb_neq c chr_comma)) by done.
Qed.

Lemma match_pattern_spec m name sel xs ys :
  shows m name xs → shows m sel ys → text xs → text ys →
  ∃ b, match_pattern name sel m = Ret (b, m) ∧ (b = true ↔ pattern_ok xs ys).
Proof.
  intros Hn Hs Hx Hy. unfold match_pattern, pattern_ok. munfold.
  rewrite (starts_with_char_spec m _ _ ys) by done. set (starts := bool_decide (head ys = _)).
  set (sel1 := if starts then substr 1 npos sel else sel). set (ys1 := if starts then tail ys else ys).
  assert (Hs1 : shows m sel1 ys1 ∧ text ys1).
  { unfold sel1, ys1, starts. case_bool_decide; [|done]. destruct ys as [|y ys']; [done|]. split.
    - apply (substr_npos m sel (y :: ys') 1 Hs). simpl. lia.
    - by inversion Hy. }
  destruct Hs1 as [Hs1 Hy1]. clearbody sel1 ys1 starts.
  rewrite (ends_with_char_spec m _ _ ys1) by done. cbv zeta. set (ends := bool_decide (last ys1 = _)).
  set (sel2 := if ends then substr _ _ sel1 else sel1). set (body := if ends then take _ ys1 else ys1).
  assert (Hs2 : shows m sel2 body ∧ text body).
  { unfold sel2, body, ends. case_bool_decide as Hl; [|done]. split; [|by apply Forall_take].
    apply last_Some in Hl as [l ->]. pose proof Hs1 as (_ & -> & Hlt). rewrite length_app in *. simpl length in *.
    pose proof (substr_spec m sel1 _ 0 (zlen l) Hs1 ltac:(lia) ltac:(lia) ltac:(lia)) as Hsub.
    rewrite wrap_small by lia. replace (length l + 1 - 1)%nat with (length l) by lia.
    replace (Z.of_nat (length l + 1) - 1) with (zlen l) by lia. by rewrite Nat2Z.id in Hsub. }
  destruct Hs2 as [Hs2 Hy2]. clearbody sel2 body ends.
  destruct (contains_spec m sel2 name body xs) as (c & Hc & Hcc); [done..|].
  assert (Hpre := starts_with_spec m sel2 name body xs Hn Hs2 Hx Hy2).
  assert (Hsuf := ends_with_spec m sel2 name body xs Hn Hs2 Hx Hy2).
  assert (Hpb := bool_decide_eq_true (body `prefix_of` xs)). assert (Hsb := bool_decide_eq_true (body `suffix_of` xs)).
  set (pb := bool_decide _) in Hpre, Hpb. set (sb := bool_decide _) in Hsuf, Hsb. clearbody pb sb.
  destruct starts, ends, pb, sb; rewrite ?Hpre, ?Hsuf; cbn [negb]; rewrite ?Hsuf, ?Hc; cbn [negb]; rewrite ?Hc;
    (eexists; split; [reflexivity|]); naive_solver.
Qed.

Section matches_proof.
Context (all_lit : Z) (m : mem) (Hall : cstr m all_lit all_str).

(** [matches] chooses the tests that some pattern of the selection
    selects. *)
Theorem matches_selects fuel name sel xs ys :
  shows m name xs → shows m sel ys → text xs → text ys → (length ys ≤ fuel)%nat →
  ∃ b, matches all_lit fuel name sel m = Ret (b, m) ∧
    (b = true ↔ ∃ pat, pat ∈ patterns ys ∧ selects xs pat).
Proof.
  intros Hn. revert sel ys. induction fuel as [|fuel IH]; intros sel ys Hs Hx Hy Hf.
  all: destruct (sv_cstr_spec m _ _ Hall) as [Ha Hshow]; [done|]; cbn [matches]; munfold; rewrite Ha;
    rewrite (sv_eq_spec m _ _ ys all_str) by (done || by repeat constructor).
  all: case_bool_decide as Hys; [subst ys; exists true; split; [done|];
    split; [|done]; intros _; exists all_str; split; [by apply list_elem_of_singleton|by left]|].
  all: unfold find_char; pose proof Hs as (_ & Hl & Hlt); rewrite Hl, Nat2Z.id.
  all: destruct (find_char_spec m sel chr_comma [] ys Hs) as (r & Hr & Hcase);
    change (zlen []) with 0 in Hr; rewrite Hr.
  all: destruct Hcase as [[-> Hno]|(l1 & l2 & -> & Hno & ->)].
  all: try (rewrite Z.eqb_refl; cbn [negb]; rewrite patterns_one by done;
    destruct (match_pattern_spec m name sel xs ys) as (b & -> & Hb); [done..|]; exists b; split; [done|];
    rewrite Hb; unfold selects; setoid_rewrite list_elem_of_singleton; naive_solver).
  { rewrite length_app in Hf. simpl in Hf. lia. }
  change (zlen [] + zlen l1) with (zlen l1). rewrite length_app in *. simpl length in *.
  rewrite (proj2 (Z.eqb_neq _ npos)) by (unfold npos; lia). cbn [negb].
  destruct (split_at_sep m sel l1 l2 Hs) as [H1 H2]. apply Forall_app in Hy as [Hy1 [_ Hy2]%Forall_cons].
  destruct (IH _ l1 H1) as (b1 & -> & Hb1); [done..|lia|].
  rewrite patterns_one in Hb1 by done. rewrite patterns_app by done. setoid_rewrite elem_of_cons.
  destruct b1.
  - exists true. split; [done|]. split; [|done]. intros _. destruct (proj1 Hb1 eq_refl) as (pat & Hp%list_elem_of_singleton & Hsel).
    exists pat. by split; [left|].
  - destruct (IH _ l2 H2) as (b2 & -> & Hb2); [done..|lia|]. exists b2. split; [done|]. rewrite Hb2. split.
    + intros (pat & Hin & Hsel). exists pat. by split; [right|].
    + intros (pat & [->|Hin] & Hsel); [|by exists pat].
      assert (false = true); [|done]. apply Hb1. exists l1. split; [by apply list_elem_of_singleton|done].
Qed.
End matches_proof.

(** ** [run] and [run_tests] *)
Section runner.
Context {W : Type}.

(** [fn] takes the result by reference: the value before and after. *)
Record TestInfo := TI { ti_name : Z; ti_fn : bool → W → outcome (bool * W) }.

Record runner := Runner { r_mem : mem; r_world : W; r_out : list (list Z * list arg) }.

Definition str (s : String.string) : list Z :=
  (λ a, Z.of_nat (Ascii.nat_of_ascii a)) <$> String.list_ascii_of_string s.

Definition log (fmt : list Z) (args : list arg) : M runner unit :=
  r ← getS; putS (Runner (r_mem r) (r_world r) (r_out r ++ [(fmt, args)])).
Definition on_mem {A} (k : M mem A) : M runner A := on_part r_mem (λ m r, Runner m (r_world r) (r_out r)) k.
Definition on_world {A} (k : W → outcome (A * W)) : M runner A :=
  on_part r_world (λ w r, Runner (r_mem r) w (r_out r)) k.

(** A string argument is passed by its contents. *)
Fixpoint load_cstr (fuel : nat) (p : Z) : M mem (list Z) :=
  match fuel with
  | O => halt OutOfFuel
  | S fuel => b ← load p; if b =? 0 then mret [] else s ← load_cstr fuel (p + 1); mret (b :: s)
  end.
Definition arg_cstr (p : Z) : M mem arg := m ← getS; s ← load_cstr (S (base.size m)) p; mret (AStr s).

Definition fmt_selection : list Z := str "TEST SELECTION=%s"%string ++ [13; 10].
Definition fmt_result : list Z := str "TEST RESULT %s: %d"%string ++ [13; 10].
Definition fmt_summary : list Z := str "SUMMARY: %u/%u tests passed"%string ++ [13; 10].

Definition run (test : TestInfo) : M runner bool :=
  res ← on_world (ti_fn test true);
  name ← on_mem (arg_cstr (ti_name test));
  _ ← log fmt_result [name; AInt (Z.b2z res)];
  mret res.

Section run_tests.
Context (all_lit : Z) (std_sort : list TestInfo → list TestInfo).

Fixpoint run_loop (tests : list TestInfo) (test_selection tests_run tests_passed : Z) : M runner (Z * Z) :=
  match tests with
  | [] => mret (tests_run, tests_passed)
  | test_info :: tests =>
    name ← on_mem (sv_cstr (ti_name test_info));
    sel ← on_mem (sv_cstr test_selection);
    b ← on_mem (matches all_lit (Z.to_nat (sv_len sel)) name sel);
    if (b : bool) then
      res ← run test_info;
      run_loop tests test_selection (u32 (tests_run + 1)) (u32 (tests_passed + Z.b2z res))
    else run_loop tests test_selection tests_run tests_passed
  end.

Definition run_tests (tests : list TestInfo) (test_selection : Z) : M runner unit :=
  sel ← on_mem (arg_cstr test_selection);
  _ ← log fmt_selection [sel];
  '(tests_run, tests_passed) ← run_loop (std_sort tests) test_selection 0 0;
  log fmt_summary [AInt tests_passed; AInt tests_run].
End run_tests.

(** ** What a run reports *)

(** The tests one after the other, each from the machine the last one
    left, with their results. *)
Fixpoint results (tests : list TestInfo) (w : W) : outcome (list bool * W) :=
  match tests with
  | [] => Ret ([], w)
  | t :: tests =>
    '(b, w) ← ti_fn t true w;
    '(bs, w) ← results tests w;
    Ret (b :: bs, w)
  end.

Lemma load_cstr_spec m p bs fuel : cstr m p bs → (length bs < fuel)%nat → load_cstr fuel p m = Ret (bs, m).
Proof.
  intros [Hb Hf]. revert p Hb fuel. induction Hf as [|b bs Hb0 Hf IH]; intros p Hb [|fuel] Hfu;
    simpl in Hfu; try lia; simpl in Hb; apply bytes_at_cons in Hb as [H0 Hb]; cbn [load_cstr];
    unfold load; munfold; rewrite H0; munfold; [done|].
  rewrite (proj2 (Z.eqb_neq b 0)) by lia. by rewrite IH by (done || lia).
Qed.
Lemma arg_cstr_spec m p bs : cstr m p bs → arg_cstr p m = Ret (AStr bs, m).
Proof.
  intros Hc. unfold arg_cstr. munfold. rewrite (load_cstr_spec _ _ bs); [done..|].
  destruct Hc as [Hb _]. apply bytes_at_size in Hb. rewrite length_app in Hb. simpl in Hb. lia.
Qed.

Section report.
Context (all_lit : Z) (m : mem) (Hall : cstr m all_lit all_str).
Context (names : TestInfo → list Z) (sel_at : Z) (sel : list Z).
Context (Hsel : cstr m sel_at sel) (Hsel31 : zlen sel < 2 ^ 31).

(** The tests that some pattern of the selection selects. *)
Definition selected (t : TestInfo) : Prop := ∃ pat, pat ∈ patterns sel ∧ selects (names t) pat.

#[local] Instance selects_dec name pat : Decision (selects name pat).
Proof.
  unfold selects, pattern_ok. cbv zeta. apply or_dec; [apply _|]. apply and_dec; [apply _|]. apply and_dec; [apply _|].
  set (body := if bool_decide (last _ = _) then _ else _).
  destruct (decide (Exists (λ j, occurs body name j) (seq 0 (S (length name))))) as [He|He].
  - left. apply Exists_exists in He as (j & _ & ?). by exists j.
  - right. intros [j Hj]. apply He, Exists_exists. exists j. split; [|done]. apply elem_of_seq. destruct Hj. lia.
Defined.
#[local] Instance selected_dec t : Decision (selected t).
Proof.
  destruct (decide (Exists (selects (names t)) (patterns sel))) as [He|He]; [left|right].
  - apply Exists_exists in He as (p & ? & ?). by exists p.
  - intros (p & ? & ?). apply He, Exists_exists. by exists p.
Defined.

Definition lines (ts : list TestInfo) (bs : list bool) : list (list Z * list arg) :=
  zip_with (λ t b, (fmt_result, [AStr (names t); AInt (Z.b2z b)])) ts bs.
Definition passed (bs : list bool) : Z := zlen (filter (λ b, b = true) bs).

Lemma run_loop_ok tests w w' bs out nrun npass :
  Forall (λ t, cstr m (ti_name t) (names t) ∧ zlen (names t) < 2 ^ 31) tests →
  results (filter selected tests) w = Ret (bs, w') →
  0 ≤ npass ≤ nrun → nrun + zlen tests < 2 ^ 32 →
  run_loop all_lit tests sel_at nrun npass (Runner m w out) =
    Ret ((nrun + zlen bs, npass + passed bs), Runner m w' (out ++ lines (filter selected tests) bs)).
Proof.
  revert w bs out nrun npass. induction tests as [|t tests IH]; intros w bs out nrun npass Hn Hr Hle Hlt.
  { rewrite filter_nil in Hr |- *. simplify_eq/=. cbn [run_loop]. munfold.
    unfold passed. simpl. by rewrite app_nil_r, !Z.add_0_r. }
  apply Forall_cons in Hn as [[Ht Ht31] Hn]. cbn [run_loop]. unfold on_mem, on_part. munfold. cbn [r_mem r_world r_out].
  destruct (sv_cstr_spec m _ _ Ht Ht31) as [-> Hs1]. cbn [r_mem r_world r_out].
  destruct (sv_cstr_spec m _ _ Hsel Hsel31) as [-> Hs2]. cbn [r_mem r_world r_out sv_len]. rewrite Nat2Z.id.
  destruct (matches_selects all_lit m Hall (length sel) _ _ (names t) sel Hs1 Hs2) as (b & -> & Hb);
    [by destruct Ht|by destruct Hsel|lia|]. cbn [r_mem r_world r_out].
  rewrite length_cons in Hlt. destruct b.
  - rewrite filter_cons_True in Hr |- * by (apply Hb; done). cbn [results] in Hr.
    unfold mbind, outcome_bind in Hr. destruct (ti_fn t true w) as [[res w1]|] eqn:Hfn; [|done].
    destruct (results _ w1) as [[bs1 w2]|] eqn:Hres; [|done]. simplify_eq/=.
    unfold run, on_world, on_mem, on_part, log. munfold. cbn [r_mem r_world r_out]. rewrite Hfn. cbn [r_mem r_world r_out].
    rewrite (arg_cstr_spec _ _ _ Ht). cbn [r_mem r_world r_out]. 
    rewrite (wrap_small 32 (nrun + 1)) by lia. rewrite (wrap_small 32 (npass + _)) by (destruct res; simpl; lia).
    rewrite (IH w1 bs1) by (done || (destruct res; simpl; lia) || lia). unfold lines. cbn [zip_with].
    rewrite <- app_assoc. do 3 f_equal; [lia|]. unfold passed. destruct res.
    + rewrite filter_cons_True by done. rewrite length_cons. simpl. lia.
    + rewrite filter_cons_False by done. simpl. lia.
  - rewrite filter_cons_False in Hr |- * by (intros Hs; apply Hb in Hs; done).
    apply IH; [done..|lia].
Qed.

(** [run_tests] runs exactly the tests that the selection selects, in the
    order of the sorted table, each once and from the machine the one
    before left, prints the result of each, and ends with how many passed
    of how many were run. *)
Theorem run_tests_reports std_sort tests w w' bs :
  (∀ l, std_sort l ≡ₚ l) →
  Forall (λ t, cstr m (ti_name t) (names t) ∧ zlen (names t) < 2 ^ 31) tests → zlen tests < 2 ^ 32 →
  results (filter selected (std_sort tests)) w = Ret (bs, w') →
  run_tests all_lit std_sort tests sel_at (Runner m w []) =
    Ret (tt, Runner m w' ([(fmt_selection, [AStr sel])] ++ lines (filter selected (std_sort tests)) bs ++
                          [(fmt_summary, [AInt (passed bs); AInt (zlen bs)])])).
Proof.
  intros Hsort Hn Hlen Hr. unfold run_tests, on_mem, on_part, log. munfold. cbn [r_mem r_world r_out].
  rewrite (arg_cstr_spec _ _ _ Hsel). cbn [r_mem r_world r_out app].
  rewrite (run_loop_ok _ w w' bs); [|by rewrite Hsort|done|lia|rewrite (Permutation_length (Hsort tests)); lia].
  cbn [r_mem r_world r_out]. rewrite !Z.add_0_l. done.
Qed.
End report.
End runner.

(** ** The selection comes over the serial line ([test/entry.cc]) *)
Section selection.
Context {U : Type} `{UA : Uart U com1}.

Definition test_selection_buf_sz : Z := 4096.

(** The loop reads a byte more than the buffer holds before it stops. *)
Fixpoint read_loop (fuel : nat) (buf : list Z) (pos : Z) : M (bool * U) (list Z) :=
  match fuel with
  | O => halt OutOfFuel
  | S fuel =>
    c ← get_read com1;
    if negb (c =? 10) && (pos <? test_selection_buf_sz) then
      buf ← liftO (aset buf pos c);
      read_loop fuel buf (pos + 1)
    else mret buf
  end.
Definition read_selection : M (bool * U) (list Z) :=
  read_loop (S (Z.to_nat test_selection_buf_sz)) (replicate (Z.to_nat test_selection_buf_sz) 0) 0.

Lemma wp_read_loop sel rest fuel pre post p :
  (10 ∉ sel) → (length sel < fuel)%nat → (length sel ≤ length post)%nat →
  zlen pre + zlen post = test_selection_buf_sz →
  port_ok com1 p → port_input com1 p = sel ++ 10 :: rest →
  wp (read_loop fuel (pre ++ post) (zlen pre))
     (λ buf p', buf = pre ++ sel ++ drop (length sel) post ∧ port_ok com1 p' ∧ port_input com1 p' = rest) p.
Proof.
  revert fuel pre post p. induction sel as [|c sel IH]; intros [|fuel] pre post p Hno Hf Hl Hsz Hp Hin;
    simpl length in *; [lia| |lia|]; cbn [read_loop].
  - apply wp_bind. eapply wp_mono; [by apply (wp_get_read com1 10 rest)|]. intros r p' (-> & Hp' & Hi & _).
    apply wp_ret. by rewrite drop_0.
  - apply not_elem_of_cons in Hno as [Hc Hno]. apply wp_bind.
    eapply wp_mono; [by apply (wp_get_read com1 c (sel ++ 10 :: rest))|]. intros r p' (-> & Hp' & Hi & _).
    rewrite (proj2 (Z.eqb_neq c 10)) by done. rewrite (proj2 (Z.ltb_lt _ _)) by lia. cbn [negb andb].
    destruct post as [|x post]; [simpl in Hl; lia|]. simpl length in *. apply wp_bind.
    eapply wp_lift; [apply aset_eq; rewrite length_app; simpl; lia|].
    rewrite insert_app_r_alt, Nat.sub_diag by lia. cbn [insert list_insert].
    replace (pre ++ c :: post) with ((pre ++ [c]) ++ post) by (by rewrite <- app_assoc).
    replace (zlen pre + 1) with (zlen (pre ++ [c])) by (rewrite length_app; simpl; lia).
    eapply wp_mono; [apply (IH fuel (pre ++ [c]) post p')|].
    + done.
    + lia.
    + lia.
    + rewrite length_app. simpl. lia.
    + done.
    + done.
    + intros buf q (-> & ? & ?). split_and!; [|done|done]. by rewrite <- app_assoc.
Qed.

(** A line shorter than the buffer is stored as a terminated string, and
    no more than the line is taken from the port. *)
Theorem read_selection_line sel rest p :
  (10 ∉ sel) → zlen sel < test_selection_buf_sz → port_ok com1 p → port_input com1 p = sel ++ 10 :: rest →
  wp read_selection (λ buf p', (∃ k, buf = sel ++ replicate (S k) 0) ∧ zlen buf = test_selection_buf_sz ∧
                               port_input com1 p' = rest) p.
Proof.
  intros Hno Hlen Hp Hin. unfold read_selection.
  assert (Hsz : Z.to_nat test_selection_buf_sz = 4096%nat) by done.
  assert (Hbuf : test_selection_buf_sz = 4096) by done.
  eapply wp_mono; [apply (wp_read_loop sel rest _ [] (replicate (Z.to_nat test_selection_buf_sz) 0) p)|];
    rewrite ?length_replicate, ?Hsz; [done|lia|lia|simpl length; lia|done|done|].
  intros buf p' (-> & _ & Hi). rewrite drop_replicate. split_and!; [|rewrite !length_app, length_replicate; simpl; lia|done].
  exists (4096 - length sel - 1)%nat. rewrite app_nil_l.
  by replace (S (4096 - length sel - 1)) with (4096 - length sel)%nat by lia.
Qed.

(** One that fills the buffer is stored without a terminator. *)
Theorem read_selection_unterminated sel rest p :
  (10 ∉ sel) → (0 ∉ sel) → zlen sel = test_selection_buf_sz → port_ok com1 p → port_input com1 p = sel ++ 10 :: rest →
  wp read_selection (λ buf _, zlen buf = test_selection_buf_sz ∧ 0 ∉ buf) p.
Proof.
  intros Hno H0 Hlen Hp Hin. unfold read_selection.
  assert (Hsz : Z.to_nat test_selection_buf_sz = 4096%nat) by done.
  assert (Hbuf : test_selection_buf_sz = 4096) by done.
  eapply wp_mono; [apply (wp_read_loop sel rest _ [] (replicate (Z.to_nat test_selection_buf_sz) 0) p)|];
    rewrite ?length_replicate, ?Hsz; [done|lia|lia|simpl length; lia|done|done|].
  intros buf p' (-> & _ & Hi). rewrite drop_replicate. replace (4096 - length sel)%nat with 0%nat by lia.
  rewrite app_nil_r. by split.
Qed.
End selection.

(** ** The runner at work

    The literal, the name ["test::complex"] and a selection in memory. *)
Definition place (p : Z) (bs : list Z) : mem :=
  list_to_map (imap (λ i b, (p + Z.of_nat i, b)) (bs ++ [0])).
Definition demo_mem (sel : list Z) : mem :=
  place 1 all_str ∪ place 100 (str "test::complex"%string) ∪ place 200 sel.
Definition demo_matches (sel : String.string) : option bool :=
  match (n ← sv_cstr 100; s ← sv_cstr 200; matches 1 (String.length sel) n s) (demo_mem (str sel)) with
  | Ret (b, _) => Some b
  | Halt _ => None
  end.

(** The cases of the unit tests. *)
Example matches_cases :
  (demo_matches <$> ["test"; "t::c"; "^test::"; "^test::,^libc"; "^test::complex~"; "a,b"; "a,b,c"; "complex::test"; "all"; ""]%string)
    = Some <$> [true; true; true; true; true; false; true; false; true; true].
Proof. vm_compute. done. Qed.

(** Two tests in the table, one of which counts and fails; the selection
    takes both. *)
Example two_tests_run :
  let pass := TI (W := nat) 100 (λ r w, Ret (r, w)) in
  let fail := TI (W := nat) 100 (λ r w, Ret (false, S w)) in
  match run_tests 1 id [pass; fail] 200 (Runner (demo_mem (str "^te"%string)) O []) with
  | Ret (_, r) => r_world r = 1%nat ∧ (r_out r !! 3%nat) = Some (fmt_summary, [AInt 1; AInt 2])
  | Halt _ => False
  end.
Proof. vm_compute. done. Qed.
