(* ===== verification/Heap.v ===== *)
(** * The kernel's C++ allocator ([kernel/nonstd/allocator.h])

    Containers obtain storage from [Mallocator], which forwards to
    [operator new] and counts calls.  The heap is a finite map from block
    addresses to cells; a cell is empty until an object is constructed in
    it and after it is destroyed, so that reading raw storage, destroying
    twice, and using or freeing a dead block are all [BadAccess].
    [operator new] is taken to succeed: an exhausted kernel heap stops
    the machine in the OOM assertion. *)
From S2P Require Import Prelude.

Record heap (A : Type) := Heap {
  blocks : gmap Z (list (option A));
  brk : Z;
  alloc_count : Z;
  dealloc_count : Z;
}.
Arguments Heap {A} blocks brk alloc_count dealloc_count.
Arguments blocks {A} h.
Arguments brk {A} h.
Arguments alloc_count {A} h.
Arguments dealloc_count {A} h.

Section heap.
Context {A : Type}.
Implicit Types (h : heap A) (l : list (option A)).

(** [Mallocator<T>::allocate(n)] *)
Definition allocate (sizeof_T n : Z) : M (heap A) Z :=
  _ ← assertM (n <=? (2 ^ 32 - 1) / sizeof_T);
  h ← getS;
  let p := brk h in
  _ ← putS (Heap (<[p := replicate (Z.to_nat n) None]> (blocks h)) (p + 1)
                 (u64 (alloc_count h + 1)) (dealloc_count h));
  mret p.

(** [Mallocator<T>::deallocate(p, n)]; [n] is not used. *)
Definition deallocate (p n : Z) : M (heap A) unit :=
  h ← getS;
  _ ← liftO (deref (blocks h !! p));
  putS (Heap (delete p (blocks h)) (brk h) (alloc_count h) (u64 (dealloc_count h + 1))).

Definition set_cells (p : Z) (l : list (option A)) : M (heap A) unit :=
  h ← getS; putS (Heap (<[p := l]> (blocks h)) (brk h) (alloc_count h) (dealloc_count h)).

(** [p[i]] as a value, [::new (&p[i]) T(x)] or an assignment, [p[i].~T()] *)
Definition hread (p i : Z) : M (heap A) A :=
  h ← getS; l ← liftO (deref (blocks h !! p)); o ← liftO (aget l i); liftO (deref o).
Definition hwrite (p i : Z) (x : A) : M (heap A) unit :=
  h ← getS; l ← liftO (deref (blocks h !! p)); l ← liftO (aset l i (Some x)); set_cells p l.
Definition hdestroy (p i : Z) : M (heap A) unit :=
  h ← getS; l ← liftO (deref (blocks h !! p)); o ← liftO (aget l i);
  _ ← liftO (deref o); l ← liftO (aset l i None); set_cells p l.

(** Addresses from [brk] on are unused, and the counters agree with the
    number of live blocks (modulo their width). *)
Definition heap_ok h : Prop :=
  0 < brk h ∧ (∀ p, brk h ≤ p → blocks h !! p = None) ∧
  u64 (alloc_count h - dealloc_count h) = u64 (Z.of_nat (base.size (blocks h))).

(** [upd h b]: the heap [h] with other blocks, same allocation state. *)
Definition upd h (b : gmap Z (list (option A))) : heap A :=
  Heap b (brk h) (alloc_count h) (dealloc_count h).

Lemma u64_sub_cong a b c d : u64 (a - b) = u64 c → u64 (u64 (a + d) - b) = u64 (c + d).
Proof.
  unfold wrap. intros H. rewrite Zminus_mod_idemp_l.
  replace (a + d - b) with (a - b + d) by lia. by rewrite <- Zplus_mod_idemp_l, H, Zplus_mod_idemp_l.
Qed.

Lemma u64_sub_cong' a b c d : u64 (a - b) = u64 c → u64 (a - u64 (b + d)) = u64 (c - d).
Proof.
  unfold wrap. intros H. rewrite Zminus_mod_idemp_r.
  replace (a - (b + d)) with (a - b - d) by lia. by rewrite <- Zminus_mod_idemp_l, H, Zminus_mod_idemp_l.
Qed.

Lemma wp_allocate sizeof_T n (Q : Z → heap A → Prop) h :
  heap_ok h → n ≤ (2 ^ 32 - 1) / sizeof_T →
  (∀ p h', p ≠ 0 → blocks h !! p = None → heap_ok h' →
     blocks h' = <[p := replicate (Z.to_nat n) None]> (blocks h) → Q p h') →
  wp (allocate sizeof_T n) Q h.
Proof.
  intros (Hb & Hfr & Hc) Hn HQ. unfold allocate.
  apply wp_bind, wp_assert; [by apply Z.leb_le|]. apply wp_bind, wp_get, wp_bind, wp_put, wp_ret.
  assert (Hnone : blocks h !! brk h = None) by (apply Hfr; lia).
  apply HQ; [lia|done| |done].
  split_and!; simpl; [lia| |].
  - intros p Hp. rewrite lookup_insert_ne by lia. apply Hfr. lia.
  - rewrite map_size_insert_None by done.
    replace (Z.of_nat (S _)) with (Z.of_nat (base.size (blocks h)) + 1) by lia. by apply u64_sub_cong.
Qed.

Lemma wp_deallocate p n l (Q : unit → heap A → Prop) h :
  heap_ok h → blocks h !! p = Some l →
  (∀ h', heap_ok h' → blocks h' = delete p (blocks h) → Q tt h') →
  wp (deallocate p n) Q h.
Proof.
  intros (Hb & Hfr & Hc) Hl HQ. unfold deallocate. apply wp_bind, wp_get, wp_bind.
  eapply wp_deref; [done|]. apply wp_put. apply HQ; [|done]. split_and!; simpl; [done| |].
  - intros q Hq. rewrite lookup_delete_ne by (intros ->; rewrite Hfr in Hl by done; done). auto.
  - rewrite map_size_delete, Hl.
    assert (base.size (blocks h) ≠ 0%nat).
    { intros Hz. apply map_size_empty_inv in Hz. by rewrite Hz, lookup_empty in Hl. }
    replace (Z.of_nat (pred _)) with (Z.of_nat (base.size (blocks h)) - 1) by lia.
    by apply u64_sub_cong'.
Qed.

Lemma heap_ok_cells h p l l' :
  heap_ok h → blocks h !! p = Some l → heap_ok (upd h (<[p := l']> (blocks h))).
Proof.
  intros (Hb & Hfr & Hc) Hl. split_and!; simpl; [done| |].
  - intros q Hq. rewrite lookup_insert_ne by (intros ->; rewrite Hfr in Hl by done; done). auto.
  - by rewrite map_size_insert, Hl.
Qed.

Lemma wp_hread p i l x (Q : A → heap A → Prop) h :
  blocks h !! p = Some l → l !! i = Some (Some x) → Q x h → wp (hread p (Z.of_nat i)) Q h.
Proof.
  intros Hp Hi HQ. unfold hread. apply wp_bind, wp_get, wp_bind. eapply wp_deref; [done|].
  apply wp_bind. eapply wp_lift; [by apply aget_Some|]. by eapply wp_deref.
Qed.

Lemma wp_hwrite p i l x (Q : unit → heap A → Prop) h :
  blocks h !! p = Some l → (i < length l)%nat →
  Q tt (upd h (<[p := <[i := Some x]> l]> (blocks h))) → wp (hwrite p (Z.of_nat i) x) Q h.
Proof.
  intros Hp Hi HQ. unfold hwrite. apply wp_bind, wp_get, wp_bind. eapply wp_deref; [done|].
  apply wp_bind. eapply wp_lift; [by apply aset_eq|]. by apply wp_bind, wp_get, wp_put.
Qed.

Lemma wp_hdestroy p i l x (Q : unit → heap A → Prop) h :
  blocks h !! p = Some l → l !! i = Some (Some x) →
  Q tt (upd h (<[p := <[i := None]> l]> (blocks h))) → wp (hdestroy p (Z.of_nat i)) Q h.
Proof.
  intros Hp Hi HQ. unfold hdestroy. apply wp_bind, wp_get, wp_bind. eapply wp_deref; [done|].
  apply wp_bind. eapply wp_lift; [by apply aget_Some|]. apply wp_bind.
  eapply wp_deref; [done|]. apply wp_bind.
  eapply wp_lift; [apply aset_eq; by eapply lookup_lt_Some|]. by apply wp_bind, wp_get, wp_put.
Qed.
End heap.
#[export] Hint Resolve heap_ok_cells : hmm.
