(* ===== verification/NonstdVector.v ===== *)
(** * [nonstd::vector] ([kernel/nonstd/vector.h])

    A length, a capacity and a block of cells of the heap of [Heap.v].
    Every operation constructs, moves and destroys the elements one cell
    at a time as the code does.  The representation predicate owns
    exactly one block beside the rest of the heap, so the theorems also
    state that nothing leaks and nothing else is touched. *)
From S2P Require Import Prelude Heap.

Record vector := Vector { len : Z; _capacity : Z; _data : Z }.

(** [vector()] *)
Definition vector_ctor : vector := Vector 0 0 0.

Section vector.
Context {A : Type} (sizeof_T : Z) (T_default : A).
Implicit Types (v w : vector) (h : heap A).

(** The loop of [reserve]: move-construct, then destroy the source. *)
Fixpoint move_loop (n : nat) (i old new : Z) : M (heap A) unit :=
  match n with
  | O => mret tt
  | S n =>
    x ← hread old i; _ ← hwrite new i x; _ ← hdestroy old i;
    move_loop n (i + 1) old new
  end.

(** [for (i..) ::new (&_data[i]) T(x)] and [for (i..) _data[i].~T()] *)
Fixpoint construct_loop (n : nat) (i p : Z) (x : A) : M (heap A) unit :=
  match n with
  | O => mret tt
  | S n => _ ← hwrite p i x; construct_loop n (i + 1) p x
  end.
Fixpoint destroy_loop (n : nat) (i p : Z) : M (heap A) unit :=
  match n with
  | O => mret tt
  | S n => _ ← hdestroy p i; destroy_loop n (i + 1) p
  end.

Definition reserve (new_capacity : Z) v : M (heap A) vector :=
  if new_capacity <=? _capacity v then mret v
  else
    let new_capacity := Z.max new_capacity (u32 (_capacity v * 2)) in
    let old_data := _data v in
    p ← allocate sizeof_T new_capacity;
    _ ← move_loop (Z.to_nat (len v)) 0 old_data p;
    _ ← (if negb (_capacity v =? 0) then deallocate old_data (_capacity v) else mret tt);
    mret (Vector (len v) new_capacity p).

Definition emplace_back (x : A) v : M (heap A) vector :=
  v ← reserve (u32 (len v + 1)) v;
  _ ← hwrite (_data v) (len v) x;
  mret (Vector (u32 (len v + 1)) (_capacity v) (_data v)).

Definition pop_back v : M (heap A) vector :=
  _ ← assertM (0 <? len v);
  let len' := len v - 1 in
  _ ← hdestroy (_data v) len';
  mret (Vector len' (_capacity v) (_data v)).

Definition resize (count : Z) v : M (heap A) vector :=
  v ← reserve count v;
  _ ← (if len v <? count
       then construct_loop (Z.to_nat (count - len v)) (len v) (_data v) T_default
       else destroy_loop (Z.to_nat (len v - count)) count (_data v));
  mret (Vector count (_capacity v) (_data v)).

Definition clear v : M (heap A) vector := resize 0 v.

(** [vector(count, value)]; [vector(count)] is the same with [T{}]. *)
Definition vector_fill (count : Z) (value : A) : M (heap A) vector :=
  p ← allocate sizeof_T count;
  _ ← construct_loop (Z.to_nat count) 0 p value;
  mret (Vector count count p).
Definition vector_count (count : Z) : M (heap A) vector := vector_fill count T_default.

(** [vector(InputIt first, InputIt last)] *)
Fixpoint push_all (xs : list A) v : M (heap A) vector :=
  match xs with
  | [] => mret v
  | x :: xs => v ← emplace_back x v; push_all xs v
  end.
Definition vector_range (xs : list A) : M (heap A) vector := push_all xs vector_ctor.

(** [vector(const vector &)] *)
Fixpoint copy_loop (n : nat) (i src dst : Z) : M (heap A) unit :=
  match n with
  | O => mret tt
  | S n => x ← hread src i; _ ← hwrite dst i x; copy_loop n (i + 1) src dst
  end.
Definition vector_copy v : M (heap A) vector :=
  p ← allocate sizeof_T (_capacity v);
  _ ← copy_loop (Z.to_nat (len v)) 0 (_data v) p;
  mret (Vector (len v) (_capacity v) p).

(** [~vector()] *)
Definition vector_dtor v : M (heap A) unit :=
  if negb (_capacity v =? 0) then
    _ ← destroy_loop (Z.to_nat (len v)) 0 (_data v);
    deallocate (_data v) (_capacity v)
  else mret tt.

(** [swap] (and move assignment, which is [swap]). *)
Definition swap v w : vector * vector :=
  (Vector (len w) (_capacity w) (_data w), Vector (len v) (_capacity v) (_data v)).

(** Copy assignment: [*this = vector(v)]; the temporary then holds the
    old contents and is destroyed. *)
Definition copy_assign this v : M (heap A) vector :=
  tmp ← vector_copy v;
  let '(this', tmp') := swap this tmp in
  _ ← vector_dtor tmp'; mret this'.

Definition index v (pos : Z) : M (heap A) A := hread (_data v) pos.
Definition at_ v (pos : Z) : M (heap A) A :=
  _ ← assertM (pos <? len v); hread (_data v) pos.
Definition front v : M (heap A) A := hread (_data v) 0.
Definition back v : M (heap A) A := hread (_data v) (len v - 1).
Definition empty v : bool := len v =? 0.

(** ** Representation *)
Definition cells (xs : list A) (spare : nat) : list (option A) :=
  (Some <$> xs) ++ replicate spare None.

(** In heap [h], [v] holds [xs] in one block of its own beside the
    blocks [B] of everything else. *)
Definition vrep (B : gmap Z (list (option A))) h v (xs : list A) : Prop :=
  heap_ok h ∧ len v = zlen xs ∧ 0 ≤ _capacity v < 2 ^ 32 ∧ zlen xs ≤ _capacity v ∧
  if decide (_capacity v = 0) then blocks h = B
  else B !! _data v = None ∧
       blocks h = <[_data v := cells xs (Z.to_nat (_capacity v) - length xs)]> B.

Lemma cells_write xs k x : cells (xs ++ [x]) k = <[length xs := Some x]> (cells xs (S k)).
Proof.
  unfold cells. rewrite fmap_app, <- app_assoc, insert_app_r_alt by (rewrite length_fmap; lia).
  rewrite length_fmap, Nat.sub_diag. done.
Qed.

Lemma cells_length xs k : length (cells xs k) = (length xs + k)%nat.
Proof. unfold cells. by rewrite length_app, length_fmap, length_replicate. Qed.

Lemma cells_lookup xs k i x : xs !! i = Some x → cells xs k !! i = Some (Some x).
Proof.
  intros H. unfold cells. apply lookup_app_l_Some. by rewrite list_lookup_fmap, H.
Qed.

Lemma move_loop_spec B xs ds m r old new h :
  heap_ok h → old ≠ new →
  blocks h = <[new := cells ds (m + length xs)]>
               (<[old := replicate (length ds) None ++ (Some <$> xs) ++ r]> B) →
  wp (move_loop (length xs) (zlen ds) old new) (λ _ h', heap_ok h' ∧
    blocks h' = <[new := cells (ds ++ xs) m]>
               (<[old := replicate (length ds + length xs) None ++ r]> B)) h.
Proof.
  intros Hok Hne. revert ds h Hok. induction xs as [|x xs IH]; intros ds h Hok Hb; cbn [move_loop length].
  { rewrite !Nat.add_0_r, app_nil_r in *. done. }
  set (l := replicate (length ds) None ++ (Some <$> x :: xs) ++ r) in *.
  assert (Ho : blocks h !! old = Some l) by (by rewrite Hb, lookup_insert_ne, lookup_insert_eq).
  assert (Hlx : l !! length ds = Some (Some x)).
  { unfold l. rewrite lookup_app_r; rewrite length_replicate; [|lia]. by rewrite Nat.sub_diag. }
  assert (Hlu : <[length ds := None]> l = replicate (length (ds ++ [x])) None ++ (Some <$> xs) ++ r).
  { unfold l. rewrite insert_app_r_alt by (rewrite length_replicate; lia).
    rewrite length_replicate, Nat.sub_diag, length_app, replicate_add, <- app_assoc. done. }
  apply wp_bind. eapply wp_hread; [done|done|]. apply wp_bind.
  eapply wp_hwrite; [by rewrite Hb, lookup_insert_eq|rewrite cells_length; simpl; lia|].
  apply wp_bind. eapply (wp_hdestroy _ _ l x); [simpl; by rewrite lookup_insert_ne|done|].
  replace (zlen ds + 1) with (zlen (ds ++ [x])) by (rewrite length_app; simpl; lia).
  eapply wp_mono; [apply (IH (ds ++ [x]))|].
  - apply (heap_ok_cells (upd h _) _ l); [|simpl; by rewrite lookup_insert_ne].
    eapply heap_ok_cells; [done|by rewrite Hb, lookup_insert_eq].
  - simpl. rewrite Hb, Hlu. rewrite insert_insert_eq, (insert_insert_ne _ old new) by done.
    rewrite insert_insert_eq. f_equal.
    rewrite <- Nat.add_succ_comm. symmetry. apply cells_write.
  - intros [] h' [? Hb']. split; [done|]. rewrite Hb', <- !app_assoc. simpl. do 4 f_equal.
    rewrite length_app. simpl. lia.
Qed.
Lemma construct_loop_spec B xs n k x p h :
  heap_ok h → blocks h = <[p := cells xs (n + k)]> B →
  wp (construct_loop n (zlen xs) p x) (λ _ h', heap_ok h' ∧
    blocks h' = <[p := cells (xs ++ replicate n x) k]> B) h.
Proof.
  revert xs h. induction n as [|n IH]; intros xs h Hok Hb; cbn [construct_loop replicate].
  { by rewrite app_nil_r. }
  apply wp_bind. eapply wp_hwrite; [by rewrite Hb, lookup_insert_eq|rewrite cells_length; simpl; lia|].
  rewrite cons_middle, app_assoc.
  replace (zlen xs + 1) with (zlen (xs ++ [x])) by (rewrite length_app; simpl; lia). apply IH.
  - eapply heap_ok_cells; [done|by rewrite Hb, lookup_insert_eq].
  - simpl. by rewrite Hb, insert_insert_eq, cells_write.
Qed.

Lemma destroy_loop_spec B pre xs k p h :
  heap_ok h → blocks h = <[p := cells pre 0 ++ (Some <$> xs) ++ replicate k None]> B →
  wp (destroy_loop (length xs) (zlen pre) p) (λ _ h', heap_ok h' ∧
    blocks h' = <[p := cells pre (length xs + k)]> B) h.
Proof.
  unfold cells. simpl. rewrite app_nil_r. intros Hok Hb.
  cut (∀ d h, heap_ok h →
    blocks h = <[p := (Some <$> pre) ++ replicate d None ++ (Some <$> xs) ++ replicate k None]> B →
    wp (destroy_loop (length xs) (Z.of_nat (length pre + d)) p) (λ _ h', heap_ok h' ∧
      blocks h' = <[p := (Some <$> pre) ++ replicate (d + (length xs + k)) None]> B) h).
  { intros Hd. specialize (Hd 0%nat h). rewrite Nat.add_0_r in Hd. by apply Hd. }
  clear h Hok Hb. induction xs as [|x xs IH]; intros d h Hok Hb; cbn [destroy_loop length].
  { simpl in *. by rewrite replicate_add. }
  set (l := (Some <$> pre) ++ replicate d None ++ (Some <$> x :: xs) ++ replicate k None) in *.
  assert (Hp : blocks h !! p = Some l) by (by rewrite Hb, lookup_insert_eq).
  assert (Hi : l !! (length pre + d)%nat = Some (Some x)).
  { unfold l. rewrite lookup_app_r, length_fmap by (rewrite length_fmap; lia).
    rewrite lookup_app_r, length_replicate by (rewrite length_replicate; lia).
    by replace (length pre + d - length pre - d)%nat with 0%nat by lia. }
  apply wp_bind. eapply wp_hdestroy; [done|done|].
  replace (Z.of_nat (length pre + d) + 1) with (Z.of_nat (length pre + S d)) by lia.
  eapply wp_mono; [apply (IH (S d)); [by eapply heap_ok_cells|]|].
  - simpl blocks. rewrite Hb, insert_insert_eq. f_equal. unfold l.
    rewrite insert_app_r_alt, length_fmap by (rewrite length_fmap; lia).
    rewrite insert_app_r_alt, length_replicate by (rewrite length_replicate; lia).
    replace (length pre + d - length pre - d)%nat with 0%nat by lia.
    rewrite <- Nat.add_1_r, replicate_add, <- app_assoc. done.
  - intros [] h' [? Hb']. split; [done|]. rewrite Hb'. do 3 f_equal. lia.
Qed.

Lemma vrep_block B h v xs :
  vrep B h v xs → _capacity v ≠ 0 →
  blocks h !! _data v = Some (cells xs (Z.to_nat (_capacity v) - length xs)).
Proof. intros (_ & _ & _ & _ & Hb) Hc. rewrite decide_False in Hb by done. destruct Hb as [_ ->]. apply lookup_insert_eq. Qed.

(** Growth keeps the capacity below twice the largest request, so a
    bound on the requests keeps the allocation sizes in range. *)
Lemma wp_reserve B v xs n N h :
  vrep B h v xs → n ≤ N → 2 * N ≤ (2 ^ 32 - 1) / sizeof_T → 0 < sizeof_T → _capacity v ≤ 2 * N →
  wp (reserve n v) (λ v' h', vrep B h' v' xs ∧ n ≤ _capacity v' ≤ 2 * N) h.
Proof.
  intros Hrep Hn Hmax Hsz HcN. pose proof Hrep as (Hok & Hlen & Hc & Hle & Hb). unfold reserve.
  destruct (Z.leb_spec n (_capacity v)) as [|Hgt]; [apply wp_ret; split; [done|lia]|].
  assert (Hs : (2 ^ 32 - 1) / sizeof_T ≤ 2 ^ 32 - 1).
  { apply Z.div_le_upper_bound; nia. }
  rewrite wrap_small by lia. cbv zeta. set (nc := Z.max n (_capacity v * 2)) in *.
  apply wp_bind, wp_allocate; [done|lia|]. intros p h1 Hp0 Hfresh Hok1 Hb1. apply wp_bind.
  rewrite Hlen, Nat2Z.id. case_decide as Hcap.
  - assert (xs = []) as -> by (destruct xs; simpl in *; [done|lia]). cbn [length move_loop].
    apply wp_ret, wp_bind. rewrite Hcap. apply wp_ret, wp_ret. split; [|simpl; lia].
    split_and!; cbn [len _capacity _data]; try (done || lia). rewrite decide_False by lia.
    rewrite Hb1, Hb. split; [by rewrite <- Hb|]. simpl. unfold cells. simpl. by rewrite Nat.sub_0_r.
  - destruct Hb as [Hnone Hb]. rewrite Hb in Hfresh.
    assert (p ≠ _data v) by (intros ->; by rewrite lookup_insert_eq in Hfresh).
    rewrite lookup_insert_ne in Hfresh by done.
    eapply wp_mono; [apply (move_loop_spec B xs [] (Z.to_nat nc - length xs)
      (replicate (Z.to_nat (_capacity v) - length xs) None)); [done|done|]|].
    { rewrite Hb1, Hb. simpl. f_equal. unfold cells. simpl. f_equal. lia. }
    intros [] h2 [Hok2 Hb2]. simpl in Hb2. apply wp_bind.
    rewrite (proj2 (Z.eqb_neq _ _)) by done. cbn [negb].
    eapply wp_deallocate; [done|by rewrite Hb2, lookup_insert_ne, lookup_insert_eq|].
    intros h3 Hok3 Hb3. apply wp_ret. split; [|simpl; lia].
    split_and!; cbn [len _capacity _data]; try (done || lia). rewrite decide_False by lia.
    split; [done|]. rewrite Hb3, Hb2, delete_insert_ne by done.
    by rewrite delete_insert_id by done.
Qed.

(** Writing other contents of the same block back into [vrep]. *)
Lemma vrep_set B h v xs xs' n h' :
  vrep B h v xs → _capacity v ≠ 0 → n = zlen xs' → zlen xs' ≤ _capacity v → heap_ok h' →
  blocks h' = <[_data v := cells xs' (Z.to_nat (_capacity v) - length xs')]> B →
  vrep B h' (Vector n (_capacity v) (_data v)) xs'.
Proof.
  intros (_ & _ & Hc & _ & Hb) Hc0 -> Hle Hok' Hb'. rewrite decide_False in Hb by done.
  split_and!; cbn [len _capacity _data]; try (done || lia). rewrite decide_False by done. by destruct Hb.
Qed.

Lemma wp_emplace_back B v xs x N h :
  vrep B h v xs → zlen xs + 1 ≤ N → 2 * N ≤ (2 ^ 32 - 1) / sizeof_T → 0 < sizeof_T →
  _capacity v ≤ 2 * N →
  wp (emplace_back x v) (λ v' h', vrep B h' v' (xs ++ [x]) ∧ _capacity v' ≤ 2 * N) h.
Proof.
  intros Hrep Hn Hmax Hsz HcN. unfold emplace_back. apply wp_bind.
  pose proof Hrep as (_ & -> & _).
  assert (Hs : (2 ^ 32 - 1) / sizeof_T ≤ 2 ^ 32 - 1) by (apply Z.div_le_upper_bound; nia).
  rewrite wrap_small by lia.
  eapply wp_mono; [by apply (wp_reserve B v xs _ N)|]. intros v' h' [Hrep' Hc'].
  pose proof Hrep' as (Hok' & -> & Hcr & _ & Hb').
  assert (Hc0 : _capacity v' ≠ 0) by lia. pose proof (vrep_block _ _ _ _ Hrep' Hc0) as Hblk.
  rewrite decide_False in Hb' by done. destruct Hb' as [_ Hb'].
  apply wp_bind. eapply wp_hwrite; [done|rewrite cells_length; lia|]. apply wp_ret.
  split; [|simpl; lia].
  assert (Hl : length (xs ++ [x]) = S (length xs)) by (rewrite length_app; simpl; lia).
  eapply vrep_set; [done|done|rewrite wrap_small, Hl; lia|lia|by eapply heap_ok_cells|].
  simpl. rewrite Hb', insert_insert_eq. f_equal. rewrite cells_write. do 2 f_equal. lia.
Qed.

Lemma wp_pop_back B v xs x h :
  vrep B h v (xs ++ [x]) →
  wp (pop_back v) (λ v' h', vrep B h' v' xs ∧ _capacity v' = _capacity v) h.
Proof.
  intros Hrep. pose proof Hrep as (Hok & Hlen & Hcr & Hle & Hb).
  rewrite length_app in Hlen, Hle. simpl in Hlen, Hle.
  assert (Hc0 : _capacity v ≠ 0) by lia. pose proof (vrep_block _ _ _ _ Hrep Hc0) as Hblk.
  rewrite decide_False in Hb by done. destruct Hb as [_ Hb].
  unfold pop_back. apply wp_bind, wp_assert; [by apply Z.ltb_lt; lia|]. cbv zeta.
  replace (len v - 1) with (zlen xs) by lia. apply wp_bind.
  eapply wp_hdestroy; [done|apply cells_lookup, list_lookup_middle; done|]. apply wp_ret.
  split; [|done]. eapply vrep_set; [done|done|done|lia|by eapply heap_ok_cells|].
  simpl. rewrite Hb, insert_insert_eq, cells_write, list_insert_insert_eq. f_equal.
  unfold cells. rewrite insert_app_r_alt, length_fmap, Nat.sub_diag by (rewrite length_fmap; lia).
  rewrite length_app. simpl. f_equal.
  by replace (Z.to_nat (_capacity v) - length xs)%nat with (S (Z.to_nat (_capacity v) - (length xs + 1))) by lia.
Qed.

Definition resized (n : nat) (xs : list A) : list A := take n xs ++ replicate (n - length xs) T_default.

Lemma wp_resize B v xs n N h :
  vrep B h v xs → Z.of_nat n ≤ N → 2 * N ≤ (2 ^ 32 - 1) / sizeof_T → 0 < sizeof_T →
  _capacity v ≤ 2 * N →
  wp (resize (Z.of_nat n) v) (λ v' h', vrep B h' v' (resized n xs) ∧ _capacity v' ≤ 2 * N) h.
Proof.
  intros Hrep Hn Hmax Hsz HcN. unfold resize, resized. apply wp_bind.
  eapply wp_mono; [by apply (wp_reserve B v xs _ N)|]. intros v' h' [Hrep' Hc'].
  pose proof Hrep' as (Hok' & -> & Hcr & Hle & Hb').
  destruct (decide (_capacity v' = 0)) as [Hz|Hc0].
  { assert (n = 0%nat) as -> by lia. assert (xs = []) as -> by (destruct xs; simpl in *; [done|lia]).
    apply wp_bind, wp_ret, wp_ret. split; [|simpl; lia]. split_and!; simpl; try (done || lia).
    by rewrite decide_True in *. }
  destruct Hb' as [_ Hb']. apply wp_bind. destruct (Z.ltb_spec (zlen xs) (Z.of_nat n)).
  - rewrite take_ge by lia. replace (Z.to_nat (Z.of_nat n - zlen xs)) with (n - length xs)%nat by lia.
    eapply wp_mono; [apply (construct_loop_spec B xs _ (Z.to_nat (_capacity v') - n)); [done|]|].
    { rewrite Hb'. do 2 f_equal. lia. }
    intros [] h2 [? Hb2]. apply wp_ret. split; [|simpl; lia].
    assert (Hl : length (xs ++ replicate (n - length xs) T_default) = n)
      by (rewrite length_app, length_replicate; lia).
    eapply vrep_set; [done|done|rewrite Hl; lia|lia|done|]. by rewrite Hb2, Hl.
  - replace (n - length xs)%nat with 0%nat by lia. rewrite app_nil_r.
    assert (Hl : length (take n xs) = n) by (rewrite length_take; lia).
    replace (Z.to_nat (zlen xs - Z.of_nat n)) with (length (drop n xs)) by (rewrite length_drop; lia).
    rewrite <- Hl at 2. eapply wp_mono; [apply (destroy_loop_spec B (take n xs) (drop n xs)
      (Z.to_nat (_capacity v') - length xs)); [done|]|].
    { rewrite Hb'. f_equal. unfold cells. simpl. rewrite app_nil_r, app_assoc, <- fmap_app, take_drop. done. }
    intros [] h2 [? Hb2]. apply wp_ret. split; [|simpl; lia].
    eapply vrep_set; [done|done|lia|lia|done|]. rewrite Hb2. do 2 f_equal. rewrite length_drop. lia.
Qed.

Lemma wp_vector_dtor B v xs h :
  vrep B h v xs → wp (vector_dtor v) (λ _ h', heap_ok h' ∧ blocks h' = B) h.
Proof.
  intros (Hok & Hlen & Hcr & Hle & Hb). unfold vector_dtor. case_decide as Hc.
  { rewrite Hc. by apply wp_ret. }
  destruct Hb as [Hnone Hb]. rewrite (proj2 (Z.eqb_neq _ _)) by done. cbn [negb]. apply wp_bind.
  rewrite Hlen, Nat2Z.id.
  eapply wp_mono; [by apply (destroy_loop_spec B [] xs (Z.to_nat (_capacity v) - length xs))|].
  intros [] h1 [Hok1 Hb1]. eapply wp_deallocate; [done|by rewrite Hb1, lookup_insert_eq|].
  intros h2 Hok2 Hb2. split; [done|]. by rewrite Hb2, Hb1, delete_insert_id.
Qed.
End vector.

(** ** Histories of operations *)
Inductive vop (A : Type) :=
| VPush (x : A) | VPop | VResize (n : nat) | VReserve (n : nat) | VClear.
Arguments VPush {A} x.
Arguments VPop {A}.
Arguments VResize {A} n.
Arguments VReserve {A} n.
Arguments VClear {A}.

Section histories.
Context {A : Type} (sizeof_T : Z) (T_default : A).

Definition run_vop (o : vop A) (v : vector) : M (heap A) vector :=
  match o with
  | VPush x => emplace_back sizeof_T x v
  | VPop => pop_back v
  | VResize n => resize sizeof_T T_default (Z.of_nat n) v
  | VReserve n => reserve sizeof_T (Z.of_nat n) v
  | VClear => clear sizeof_T T_default v
  end.
Fixpoint run_vops (os : list (vop A)) (v : vector) : M (heap A) vector :=
  match os with
  | [] => mret v
  | o :: os => v ← run_vop o v; run_vops os v
  end.

(** The sequence an operation denotes; [None] when it pops an empty
    vector or asks for more than [N] elements. *)
Definition spec_vop (N : nat) (o : vop A) (xs : list A) : option (list A) :=
  match o with
  | VPush x => if decide (length xs < N)%nat then Some (xs ++ [x]) else None
  | VPop => match last xs with Some _ => Some (take (length xs - 1) xs) | None => None end
  | VResize n => if decide (n ≤ N)%nat then Some (resized T_default n xs) else None
  | VReserve n => if decide (n ≤ N)%nat then Some xs else None
  | VClear => Some []
  end.
Fixpoint spec_vops (N : nat) (os : list (vop A)) (xs : list A) : option (list A) :=
  match os with
  | [] => Some xs
  | o :: os => xs ← spec_vop N o xs; spec_vops N os xs
  end.

Lemma run_vop_spec B N o v xs ys h :
  0 < sizeof_T → 2 * Z.of_nat N ≤ (2 ^ 32 - 1) / sizeof_T →
  vrep B h v xs → _capacity v ≤ 2 * Z.of_nat N → spec_vop N o xs = Some ys →
  wp (run_vop o v) (λ v' h', vrep B h' v' ys ∧ _capacity v' ≤ 2 * Z.of_nat N) h.
Proof.
  intros Hsz HN Hrep Hc Hspec.
  destruct o as [x| |n|n|]; simpl in *; try case_decide; simplify_eq.
  - by apply wp_emplace_back; try lia.
  - destruct (last xs) as [x|] eqn:Hx; simplify_eq. apply last_Some in Hx as [xs' ->].
    rewrite length_app, Nat.add_sub, take_app_length. simpl.
    eapply wp_mono; [by apply (wp_pop_back B v xs' x)|]. intros v' h' [? ->]. done.
  - by apply wp_resize; try lia.
  - eapply wp_mono; [by apply (wp_reserve _ B v ys _ (Z.of_nat N)); try lia|].
    intros v' h' [? ?]. split; [done|lia].
  - unfold clear. change 0 with (Z.of_nat 0). change (@nil A) with (resized T_default 0 xs) at 1.
    by apply wp_resize; try lia.
Qed.

Lemma run_vops_spec B N os v xs ys h :
  0 < sizeof_T → 2 * Z.of_nat N ≤ (2 ^ 32 - 1) / sizeof_T →
  vrep B h v xs → _capacity v ≤ 2 * Z.of_nat N → spec_vops N os xs = Some ys →
  wp (run_vops os v) (λ v' h', vrep B h' v' ys) h.
Proof.
  intros Hsz HN. revert v xs h. induction os as [|o os IH]; intros v xs h Hrep Hc Ho; simpl in *.
  { by simplify_eq. }
  apply bind_Some in Ho as (xs1 & Ho & Hos). apply wp_bind.
  eapply wp_mono; [by eapply run_vop_spec|]. intros v' h' [? ?]. by eapply IH.
Qed.

Lemma vector_ctor_rep (h : heap A) : heap_ok h → vrep (blocks h) h vector_ctor [].
Proof. intros. by split_and!. Qed.
End histories.

(** C29: [nonstd::vector] implements a growable array and manages its
    storage: for every history of [push_back], [pop_back], [resize],
    [reserve] and [clear] that stays within [N] elements and never pops
    an empty vector, every operation completes without touching raw
    storage, [at()] then reads exactly the sequence the history denotes,
    and the destructor gives back all storage, leaving every other block
    of the heap as it was. *)
Theorem vector_refines {A} sizeof_T (T_default : A) N os ys h :
  0 < sizeof_T → 2 * Z.of_nat N ≤ (2 ^ 32 - 1) / sizeof_T → heap_ok h →
  spec_vops T_default N os [] = Some ys →
  ∃ v h', run_vops sizeof_T T_default os vector_ctor h = Ret (v, h') ∧ len v = zlen ys ∧
    (∀ i x, ys !! i = Some x → at_ v (Z.of_nat i) h' = Ret (x, h')) ∧
    ∃ h'', vector_dtor v h' = Ret (tt, h'') ∧ blocks h'' = blocks h.
Proof.
  intros Hsz HN Hok Ho.
  destruct (proj1 (wp_run _ _ _) (run_vops_spec sizeof_T T_default (blocks h) N os vector_ctor [] ys h
    Hsz HN (vector_ctor_rep h Hok) ltac:(simpl; lia) Ho)) as (v & h' & Hrun & Hrep).
  exists v, h'. split; [done|]. pose proof Hrep as (_ & Hlen & _ & Hle & _). split; [done|]. split.
  - intros i x Hi. pose proof (lookup_lt_Some _ _ _ Hi).
    assert (wp (at_ v (Z.of_nat i)) (λ y s, y = x ∧ s = h') h') as (? & ? & ? & -> & ->)%wp_run; [|done].
    unfold at_. apply wp_bind, wp_assert; [apply Z.ltb_lt; lia|].
    eapply wp_hread; [by eapply vrep_block; [|lia]|by apply cells_lookup|done].
  - destruct (proj1 (wp_run _ _ _) (wp_vector_dtor _ _ _ _ Hrep)) as ([] & h'' & ? & _ & ?).
    by exists h''.
Qed.

Lemma vector_refines_witness :
  ∃ v h', run_vops 4 0 [VPush 7; VPush 8; VPop; VResize 5; VReserve 9; VPush 3] vector_ctor (Heap ∅ 1 0 0)
            = Ret (v, h') ∧ len v = 6 ∧ at_ v 5 h' = Ret (3, h') ∧
    ∃ h'', vector_dtor v h' = Ret (tt, h'') ∧ blocks h'' = ∅.
Proof.
  destruct (vector_refines 4 0 16 [VPush 7; VPush 8; VPop; VResize 5; VReserve 9; VPush 3]
    [7; 0; 0; 0; 0; 3] (Heap ∅ 1 0 0)) as (v & h' & Hr & Hl & Hat & Hd);
    [lia|vm_compute; done|by split_and!|reflexivity|].
  exists v, h'. split_and!; [done..| |done]. by apply (Hat 5%nat).
Defined.

(** Copying an empty vector allocates a block of no cells that the
    destructor, which tests the capacity, never gives back. *)
Example copy_of_empty_leaks :
  ∃ v h h', vector_copy 4 vector_ctor (Heap (A := Z) ∅ 1 0 0) = Ret (v, h) ∧
    vector_dtor v h = Ret (tt, h') ∧ blocks h' = {[1 := []]}.
Proof. eexists _, _, _. split_and!; [vm_compute; reflexivity..|]. vm_compute. reflexivity. Qed.
