(* ===== verification/NonstdString.v ===== *)
(** * [nonstd::string] ([kernel/nonstd/string.cc], [string.h])

    A length, a capacity and a block of [capacity + 1] byte cells of the
    heap of [Heap.v], NUL-terminated at [len].  A string view or a
    [const char *] argument is a block, an offset and a length in the
    same heap, so that aliasing between the argument and the string's own
    storage is expressible. *)
From S2P Require Import Prelude Heap.

Record string := Str { len : Z; _capacity : Z; _data : Z }.
Record view := View { v_block : Z; v_off : Z; v_len : Z }.

(** ** [memset], [memcpy] and [memmove] on cells *)
Fixpoint hset_loop (n : nat) (i p c : Z) : M (heap Z) unit :=
  match n with
  | O => mret tt
  | S n => _ ← hwrite p i c; hset_loop n (i + 1) p c
  end.
Fixpoint hcopy_up (n : nat) (di dst si src : Z) : M (heap Z) unit :=
  match n with
  | O => mret tt
  | S n => x ← hread src si; _ ← hwrite dst di x; hcopy_up n (di + 1) dst (si + 1) src
  end.
Fixpoint hcopy_down (n : nat) (di dst si src : Z) : M (heap Z) unit :=
  match n with
  | O => mret tt
  | S n => x ← hread src (si + Z.of_nat n); _ ← hwrite dst (di + Z.of_nat n) x;
           hcopy_down n di dst si src
  end.
Definition hmemmove (n : nat) (di dst si src : Z) : M (heap Z) unit :=
  if (src =? dst) && (si <? di) then hcopy_down n di dst si src
  else if (src =? dst) && (si =? di) then mret tt
  else hcopy_up n di dst si src.

(** ** Operations *)
Definition string_default : string := Str 0 0 0.

(** [string(const char *s, size_t count)] and [string(size_t, char)] *)
Definition string_from (s : view) : M (heap Z) string :=
  p ← allocate 1 (u32 (v_len s + 1));
  _ ← hcopy_up (Z.to_nat (v_len s)) 0 p (v_off s) (v_block s);
  _ ← hwrite p (v_len s) 0;
  mret (Str (v_len s) (v_len s) p).
Definition string_fill (count ch : Z) : M (heap Z) string :=
  p ← allocate 1 (u32 (count + 1));
  _ ← hset_loop (Z.to_nat count) 0 p ch;
  _ ← hwrite p count 0;
  mret (Str count count p).

(** [string(const string &)] *)
Definition string_copy (s : string) : M (heap Z) string := string_from (View (_data s) 0 (len s)).

Definition string_dtor (s : string) : M (heap Z) unit :=
  if negb (_capacity s =? 0) then deallocate (_data s) (_capacity s + 1) else mret tt.

Definition swap (s t : string) : string * string :=
  (Str (len t) (_capacity t) (_data t), Str (len s) (_capacity s) (_data s)).

(** [*this = string(s)] *)
Definition copy_assign (this s : string) : M (heap Z) string :=
  tmp ← string_copy s;
  let '(this', tmp') := swap this tmp in
  _ ← string_dtor tmp'; mret this'.

Definition at_ (s : string) (pos : Z) : M (heap Z) Z :=
  _ ← assertM (pos <? len s); hread (_data s) pos.
Definition c_str (s : string) : view := View (_data s) 0 (len s).

Definition reserve (new_capacity : Z) (s : string) : M (heap Z) string :=
  if new_capacity <=? _capacity s then mret s
  else
    let new_capacity := Z.max new_capacity (u32 (_capacity s * 2)) in
    let old_data := _data s in
    p ← allocate 1 (u32 (new_capacity + 1));
    _ ← hcopy_up (Z.to_nat (len s)) 0 p 0 old_data;
    _ ← hwrite p (len s) 0;
    _ ← (if negb (_capacity s =? 0) then deallocate old_data (_capacity s + 1) else mret tt);
    mret (Str (len s) new_capacity p).

Definition push_back (c : Z) (s : string) : M (heap Z) string :=
  s ← reserve (u32 (len s + 1)) s;
  _ ← hwrite (_data s) (len s) c;
  let len' := u32 (len s + 1) in
  _ ← hwrite (_data s) len' 0;
  mret (Str len' (_capacity s) (_data s)).

Definition resize (count : Z) (s : string) : M (heap Z) string :=
  s ← reserve count s;
  _ ← (if len s <? count then hset_loop (Z.to_nat (count - len s)) (len s) (_data s) 0 else mret tt);
  _ ← hwrite (_data s) count 0;
  mret (Str count (_capacity s) (_data s)).

Definition clear (s : string) : M (heap Z) string := resize 0 s.

Definition append_fill (count c : Z) (s : string) : M (heap Z) string :=
  s ← resize (u32 (len s + count)) s;
  _ ← hset_loop (Z.to_nat count) (len s - count) (_data s) c;
  mret s.
Definition append (sv : view) (s : string) : M (heap Z) string :=
  s ← resize (u32 (len s + v_len sv)) s;
  _ ← hmemmove (Z.to_nat (v_len sv)) (len s - v_len sv) (_data s) (v_off sv) (v_block sv);
  mret s.
Fixpoint append_range (cs : list Z) (s : string) : M (heap Z) string :=
  match cs with
  | [] => mret s
  | c :: cs => s ← push_back c s; append_range cs s
  end.

(** [operator+] *)
Definition string_plus (lhs : string) (rhs : view) : M (heap Z) string :=
  rv ← string_copy lhs; append rhs rv.
Definition string_plus_char (lhs : string) (rhs : Z) : M (heap Z) string :=
  rv ← string_copy lhs; push_back rhs rv.

(** ** Representation: the characters, the NUL, and unconstrained spare
    bytes, in one block beside the rest [B] of the heap *)
Abbreviation chars xs := (Some <$> (xs : list Z)).

Definition srep (B : gmap Z (list (option Z))) (h : heap Z) (s : string) (xs : list Z) : Prop :=
  heap_ok h ∧ len s = zlen xs ∧ 0 < _capacity s < 2 ^ 32 - 1 ∧ B !! _data s = None ∧
  ∃ spare, blocks h = <[_data s := chars (xs ++ [0]) ++ spare]> B ∧
    zlen xs + zlen spare = _capacity s.

Lemma hset_loop_spec B pre old post c p h :
  heap_ok h → blocks h = <[p := pre ++ old ++ post]> B →
  wp (hset_loop (length old) (zlen pre) p c) (λ _ h', heap_ok h' ∧
    blocks h' = <[p := pre ++ chars (replicate (length old) c) ++ post]> B) h.
Proof.
  revert pre h. induction old as [|o old IH]; intros pre h Hok Hb; cbn [hset_loop length]; [done|].
  apply wp_bind. eapply wp_hwrite; [by rewrite Hb, lookup_insert_eq|rewrite length_app; simpl; lia|].
  replace (zlen pre + 1) with (zlen (pre ++ [Some c])) by (rewrite length_app; simpl; lia).
  eapply wp_mono; [apply (IH (pre ++ [Some c])); [by eapply heap_ok_cells; [|rewrite Hb, lookup_insert_eq]|]|].
  - simpl. rewrite Hb, insert_insert_eq, insert_app_r_alt, Nat.sub_diag by lia.
    by rewrite <- app_assoc.
  - intros [] h' [? ->]. by rewrite <- app_assoc.
Qed.

Lemma hcopy_up_spec B src sl spre spost ys pre old post p h :
  heap_ok h → src ≠ p → B !! src = Some sl → sl = spre ++ chars ys ++ spost →
  length old = length ys → blocks h = <[p := pre ++ old ++ post]> B →
  wp (hcopy_up (length ys) (zlen pre) p (zlen spre) src) (λ _ h', heap_ok h' ∧
    blocks h' = <[p := pre ++ chars ys ++ post]> B) h.
Proof.
  intros Hok Hne Hsrc. revert spre pre old h Hok.
  induction ys as [|y ys IH]; intros spre pre [|o old] h Hok Hsl Hl Hb; simpl in Hl;
    try lia; cbn [hcopy_up length]; [done|].
  apply wp_bind. eapply wp_hread; [by rewrite Hb, lookup_insert_ne|subst sl; by apply list_lookup_middle|].
  apply wp_bind. eapply wp_hwrite; [by rewrite Hb, lookup_insert_eq|rewrite length_app; simpl; lia|].
  replace (zlen pre + 1) with (zlen (pre ++ [Some y])) by (rewrite length_app; simpl; lia).
  replace (zlen spre + 1) with (zlen (spre ++ [Some y])) by (rewrite length_app; simpl; lia).
  eapply wp_mono; [apply (IH (spre ++ [Some y]) (pre ++ [Some y]) old)|].
  - by eapply heap_ok_cells; [|rewrite Hb, lookup_insert_eq].
  - by rewrite <- app_assoc.
  - lia.
  - simpl. rewrite Hb, insert_insert_eq, insert_app_r_alt, Nat.sub_diag by lia. by rewrite <- app_assoc.
  - intros [] h' [? ->]. by rewrite <- app_assoc.
Qed.

(** A view of bytes held in the blocks [B]. *)
Definition reads (B : gmap Z (list (option Z))) (v : view) (ys : list Z) : Prop :=
  ∃ pre post, B !! v_block v = Some (pre ++ chars ys ++ post) ∧
    v_off v = zlen pre ∧ v_len v = zlen ys.

(** Writing the NUL after the characters [ys] makes a string of them. *)
Lemma wp_terminate B p cap (l : list (option Z)) ys h :
  heap_ok h → B !! p = None → blocks h = <[p := chars ys ++ l]> B →
  0 < cap < 2 ^ 32 - 1 → zlen ys + zlen l = cap + 1 → l ≠ [] →
  wp (hwrite p (zlen ys) 0) (λ _ h', srep B h' (Str (zlen ys) cap p) ys) h.
Proof.
  intros Hok Hn Hb Hc Hl Hne. destruct l as [|o l]; [done|]. simpl in Hl.
  eapply wp_hwrite; [by rewrite Hb, lookup_insert_eq|rewrite length_app, length_fmap; simpl; lia|].
  split_and!; simpl; [by eapply heap_ok_cells; [|rewrite Hb, lookup_insert_eq]|done|lia|lia|done|].
  exists l. split; [|lia]. rewrite Hb, insert_insert_eq. f_equal.
  rewrite insert_app_r_alt, length_fmap, Nat.sub_diag by (rewrite length_fmap; lia).
  by rewrite fmap_app, <- app_assoc.
Qed.

Lemma wp_str_reserve B s xs n N h :
  srep B h s xs → n ≤ N → 2 * N < 2 ^ 32 - 1 → _capacity s ≤ 2 * N →
  wp (reserve n s) (λ s' h', srep B h' s' xs ∧ n ≤ _capacity s' ≤ 2 * N) h.
Proof.
  intros Hrep Hn HN HcN. pose proof Hrep as (Hok & Hlen & Hc & Hnone & spare & Hb & Hsp). unfold reserve.
  destruct (Z.leb_spec n (_capacity s)) as [|Hgt]; [apply wp_ret; split; [done|lia]|].
  rewrite (wrap_small 32 (_capacity s * 2)) by lia. cbv zeta. set (nc := Z.max n (_capacity s * 2)) in *.
  rewrite wrap_small by lia. apply wp_bind, wp_allocate; [done|rewrite Z.div_1_r; lia|].
  intros p h1 Hp0 Hfresh Hok1 Hb1. apply wp_bind. rewrite Hlen, Nat2Z.id.
  assert (p ≠ _data s) by (intros ->; by rewrite Hb, lookup_insert_eq in Hfresh).
  assert (HBp : B !! p = None) by (by rewrite Hb, lookup_insert_ne in Hfresh).
  eapply wp_mono; [eapply (hcopy_up_spec (blocks h) (_data s) _ [] (Some 0 :: spare) xs []
    (replicate (length xs) None) (replicate (Z.to_nat (nc + 1) - length xs) None) p)|].
  - done.
  - done.
  - by rewrite Hb, lookup_insert_eq.
  - by rewrite fmap_app, <- app_assoc.
  - by rewrite length_replicate.
  - rewrite Hb1. simpl. rewrite <- replicate_add. do 2 f_equal. lia.
  - intros [] h2 [Hok2 Hb2]. simpl in Hb2. apply wp_bind.
    eapply wp_mono; [eapply (wp_terminate (blocks h) p nc); [done|done|exact Hb2|lia|..]|].
    { rewrite length_replicate. lia. }
    { destruct (Z.to_nat (nc + 1) - length xs)%nat eqn:?; [lia|done]. }
    intros [] h3 (Hok3 & _ & _ & _ & sp & Hb3 & Hsp3). apply wp_bind. cbn [_data _capacity] in *.
    rewrite (proj2 (Z.eqb_neq _ _)) by lia. cbn [negb].
    eapply wp_deallocate; [done|by rewrite Hb3, lookup_insert_ne, Hb, lookup_insert_eq|].
    intros h4 Hok4 Hb4. apply wp_ret. split; [|simpl; lia].
    split_and!; cbn [len _capacity _data]; [done|done|lia|lia|done|].
    exists sp. split; [|lia]. rewrite Hb4, Hb3, delete_insert_ne, Hb by done.
    by rewrite delete_insert_id by done.
Qed.

Lemma wp_str_push_back B s xs c N h :
  srep B h s xs → zlen xs + 1 ≤ N → 2 * N < 2 ^ 32 - 1 → _capacity s ≤ 2 * N →
  wp (push_back c s) (λ s' h', srep B h' s' (xs ++ [c]) ∧ _capacity s' ≤ 2 * N) h.
Proof.
  intros Hrep Hn HN HcN. unfold push_back. apply wp_bind. pose proof Hrep as (_ & -> & _).
  rewrite wrap_small by lia. eapply wp_mono; [by apply (wp_str_reserve B s xs _ N)|].
  intros s' h' [(Hok & -> & Hc & Hnone & spare & Hb & Hsp) Hc']. apply wp_bind.
  destruct spare as [|o spare]; simpl in Hsp; [lia|].
  eapply wp_hwrite; [by rewrite Hb, lookup_insert_eq|rewrite length_app, length_fmap, length_app; simpl; lia|].
  rewrite wrap_small by lia. cbv zeta. apply wp_bind.
  replace (zlen xs + 1) with (zlen (xs ++ [c])) by (rewrite length_app; simpl; lia).
  eapply wp_mono; [apply (wp_terminate B (_data s') (_capacity s') (o :: spare))|].
  - by eapply heap_ok_cells; [|rewrite Hb, lookup_insert_eq].
  - done.
  - simpl. rewrite Hb, insert_insert_eq. f_equal. rewrite !fmap_app, <- !app_assoc.
    rewrite insert_app_r_alt, length_fmap, Nat.sub_diag by (rewrite length_fmap; lia). done.
  - lia.
  - rewrite length_app. simpl. lia.
  - done.
  - intros [] h2 Hrep2. apply wp_ret. split; [exact Hrep2|simpl; lia].
Qed.

Definition resized (n : nat) (xs : list Z) : list Z := take n xs ++ replicate (n - length xs) 0.

Lemma wp_str_resize B s xs n N h :
  srep B h s xs → Z.of_nat n ≤ N → 2 * N < 2 ^ 32 - 1 → _capacity s ≤ 2 * N →
  wp (resize (Z.of_nat n) s) (λ s' h', srep B h' s' (resized n xs) ∧ _capacity s' ≤ 2 * N) h.
Proof.
  intros Hrep Hn HN HcN. unfold resize. apply wp_bind.
  eapply wp_mono; [by apply (wp_str_reserve B s xs _ N)|].
  intros s' h' [(Hok & -> & Hc & Hnone & spare & Hb & Hsp) Hc']. apply wp_bind.
  assert (Hfin : ∀ l h2, heap_ok h2 → blocks h2 = <[_data s' := chars (resized n xs) ++ l]> B →
    l ≠ [] → Z.of_nat n + zlen l = _capacity s' + 1 → length (resized n xs) = n →
    wp (_ ← hwrite (_data s') (Z.of_nat n) 0; mret (Str (Z.of_nat n) (_capacity s') (_data s')))
       (λ s' h', srep B h' s' (resized n xs) ∧ _capacity s' ≤ 2 * N) h2).
  { generalize (resized n xs). intros ys l h2 Hok2 Hb2 Hne Hl Hlen. apply wp_bind. rewrite <- Hlen in *.
    eapply wp_mono; [apply (wp_terminate B _ (_capacity s') l); (done || lia)|].
    intros [] h3 Hrep3. apply wp_ret. split; [done|simpl; lia]. }
  unfold resized in *. destruct (Z.ltb_spec (zlen xs) (Z.of_nat n)).
  - rewrite take_ge in * by lia. set (k := (n - length xs)%nat) in *.
    set (tl := Some 0 :: spare). assert (Htl : length tl = S (length spare)) by done.
    replace (Z.to_nat (Z.of_nat n - zlen xs)) with (length (take k tl)) by (rewrite length_take; lia).
    replace (zlen xs) with (zlen (chars xs)) by (by rewrite length_fmap).
    eapply wp_mono; [apply (hset_loop_spec B (chars xs) (take k tl) (drop k tl)); [done|]|].
    { by rewrite take_drop, Hb, fmap_app, <- app_assoc. }
    intros [] h2 [Hok2 Hb2]. apply (Hfin (drop k tl)); [done| | | |].
    + rewrite Hb2, fmap_app, <- app_assoc. rewrite length_take. do 5 f_equal. lia.
    + intros Hd. apply (f_equal length) in Hd. rewrite length_drop in Hd. simpl in Hd. lia.
    + rewrite length_drop. lia.
    + rewrite length_app, length_replicate. lia.
  - apply wp_ret. replace (n - length xs)%nat with 0%nat in * by lia.
    apply (Hfin (chars (drop n xs ++ [0]) ++ spare)); [done| | | |].
    + rewrite Hb. f_equal. rewrite <- (take_drop n xs) at 1. simpl.
      by rewrite app_nil_r, !fmap_app, <- !app_assoc.
    + rewrite fmap_app. by destruct (chars (drop n xs)).
    + rewrite length_app, length_fmap, length_app, length_drop. simpl. lia.
    + rewrite length_app, length_take. simpl. lia.
Qed.

(** Appending resizes and then overwrites the zeros it added. *)
Lemma wp_append_tail B s xs k N h (fill : Z → Z → M (heap Z) unit) ys :
  srep B h s xs → length ys = k → zlen xs + Z.of_nat k ≤ N → 2 * N < 2 ^ 32 - 1 → _capacity s ≤ 2 * N →
  (∀ p h post, heap_ok h → B !! p = None →
     blocks h = <[p := chars xs ++ chars (replicate k 0) ++ post]> B →
     wp (fill (zlen (chars xs)) p) (λ _ h', heap_ok h' ∧ blocks h' = <[p := chars xs ++ chars ys ++ post]> B) h) →
  wp (s ← resize (u32 (len s + Z.of_nat k)) s; _ ← fill (len s - Z.of_nat k) (_data s); mret s)
     (λ s' h', srep B h' s' (xs ++ ys) ∧ _capacity s' ≤ 2 * N) h.
Proof.
  intros Hrep Hk Hn HN HcN Hfill. pose proof Hrep as (_ & -> & _). rewrite wrap_small by lia.
  apply wp_bind. replace (zlen xs + Z.of_nat k) with (Z.of_nat (length xs + k)) by lia.
  eapply wp_mono; [by apply (wp_str_resize B s xs _ N); try lia|].
  unfold resized. rewrite take_ge by lia. replace (length xs + k - length xs)%nat with k by lia.
  intros s' h' [(Hok & Hlen & Hc & Hnone & spare & Hb & Hsp) Hc']. apply wp_bind.
  rewrite length_app, length_replicate in Hlen, Hsp.
  replace (len s' - Z.of_nat k) with (zlen (chars xs)) by (rewrite length_fmap; lia).
  eapply wp_mono; [eapply (Hfill _ _ (Some 0 :: spare)); [done|done|]|].
  - rewrite Hb. f_equal. by rewrite !fmap_app, <- !app_assoc.
  - intros [] h2 [Hok2 Hb2]. apply wp_ret. split; [|lia].
    split_and!; [done|rewrite Hlen, length_app; lia|lia|lia|done|]. exists spare.
    split; [|rewrite length_app; lia]. rewrite Hb2. f_equal. by rewrite !fmap_app, <- !app_assoc.
Qed.

Lemma wp_append_fill B s xs k c N h :
  srep B h s xs → zlen xs + Z.of_nat k ≤ N → 2 * N < 2 ^ 32 - 1 → _capacity s ≤ 2 * N →
  wp (append_fill (Z.of_nat k) c s) (λ s' h', srep B h' s' (xs ++ replicate k c) ∧ _capacity s' ≤ 2 * N) h.
Proof.
  intros. unfold append_fill.
  apply (wp_append_tail B s xs k N h (λ i p, hset_loop (Z.to_nat (Z.of_nat k)) i p c)); [done| |done..|].
  { by rewrite length_replicate. }
  intros p h' post Hok' _ Hb'. pose proof (hset_loop_spec B (chars xs) (chars (replicate k 0)) post c p h' Hok' Hb') as Hw.
  rewrite length_fmap, length_replicate in Hw. by rewrite Nat2Z.id.
Qed.

Lemma wp_append B s xs v ys N h :
  srep B h s xs → reads B v ys → zlen xs + zlen ys ≤ N → 2 * N < 2 ^ 32 - 1 → _capacity s ≤ 2 * N →
  wp (append v s) (λ s' h', srep B h' s' (xs ++ ys) ∧ _capacity s' ≤ 2 * N) h.
Proof.
  intros Hrep (pre & post & Hsrc & Hoff & Hvl) Hn HN HcN. unfold append. rewrite Hvl, Hoff.
  apply (wp_append_tail B s xs (length ys) N h
    (λ i p, hmemmove (Z.to_nat (zlen ys)) i p (zlen pre) (v_block v))); [done..|].
  intros p h' post' Hok' Hnone' Hb'.
  assert (v_block v ≠ p) by (intros Heq; rewrite Heq in Hsrc; congruence).
  unfold hmemmove. rewrite (proj2 (Z.eqb_neq _ _)) by done. cbn [andb]. rewrite Nat2Z.id.
  eapply hcopy_up_spec; [done|done|done|done| |done]. by rewrite length_fmap, length_replicate.
Qed.

Lemma wp_string_from (h : heap Z) v ys :
  heap_ok h → reads (blocks h) v ys → 0 < zlen ys < 2 ^ 32 - 1 →
  wp (string_from v) (λ s h', srep (blocks h) h' s ys ∧ _capacity s = zlen ys) h.
Proof.
  intros Hok (pre & post & Hsrc & Hoff & Hvl) Hl. unfold string_from. rewrite Hvl, wrap_small by lia.
  apply wp_bind, wp_allocate; [done|rewrite Z.div_1_r; lia|]. intros p h1 Hp0 Hfresh Hok1 Hb1.
  apply wp_bind. rewrite Nat2Z.id, Hoff.
  eapply wp_mono; [eapply (hcopy_up_spec (blocks h) (v_block v) _ pre post ys []
    (replicate (length ys) None) [None] p); [done|congruence|done|done|by rewrite length_replicate|]|].
  - rewrite Hb1. simpl. change [None] with (replicate 1 (@None Z)). rewrite <- replicate_add.
    do 2 f_equal. lia.
  - intros [] h2 [Hok2 Hb2]. apply wp_bind.
    eapply wp_mono; [by apply (wp_terminate (blocks h) p (zlen ys) [None]); try (simpl; lia)|].
    intros [] h3 Hrep. apply wp_ret. done.
Qed.

Lemma wp_string_dtor B s xs h :
  srep B h s xs → wp (string_dtor s) (λ _ h', heap_ok h' ∧ blocks h' = B) h.
Proof.
  intros (Hok & _ & Hc & Hnone & spare & Hb & _). unfold string_dtor.
  rewrite (proj2 (Z.eqb_neq _ _)) by lia. cbn [negb].
  eapply wp_deallocate; [done|by rewrite Hb, lookup_insert_eq|].
  intros h' ? Hb'. split; [done|]. by rewrite Hb', Hb, delete_insert_id.
Qed.

(** ** Histories of operations *)
Inductive sop :=
| SPush (c : Z) | SAppendFill (n : nat) (c : Z) | SAppend (v : view) (ys : list Z)
| SResize (n : nat) | SReserve (n : nat) | SClear.

Definition run_sop (o : sop) (s : string) : M (heap Z) string :=
  match o with
  | SPush c => push_back c s
  | SAppendFill n c => append_fill (Z.of_nat n) c s
  | SAppend v _ => append v s
  | SResize n => resize (Z.of_nat n) s
  | SReserve n => reserve (Z.of_nat n) s
  | SClear => clear s
  end.
Fixpoint run_sops (os : list sop) (s : string) : M (heap Z) string :=
  match os with
  | [] => mret s
  | o :: os => s ← run_sop o s; run_sops os s
  end.

Definition spec_sop (o : sop) (xs : list Z) : list Z :=
  match o with
  | SPush c => xs ++ [c]
  | SAppendFill n c => xs ++ replicate n c
  | SAppend _ ys => xs ++ ys
  | SResize n => resized n xs
  | SReserve _ => xs
  | SClear => []
  end.

(** An operation that fits [N] characters and whose view argument, if it
    has one, is outside the string's own storage. *)
Definition sop_ok (B : gmap Z (list (option Z))) (N : Z) (xs : list Z) (o : sop) : Prop :=
  zlen (spec_sop o xs) ≤ N ∧
  match o with
  | SAppend v ys => reads B v ys
  | SResize n | SReserve n => Z.of_nat n ≤ N
  | _ => True
  end.
Fixpoint sops_ok (B : gmap Z (list (option Z))) (N : Z) (xs : list Z) (os : list sop) : Prop :=
  match os with
  | [] => True
  | o :: os => sop_ok B N xs o ∧ sops_ok B N (spec_sop o xs) os
  end.

Lemma run_sop_spec B N o s xs h :
  0 ≤ N → 2 * N < 2 ^ 32 - 1 → srep B h s xs → _capacity s ≤ 2 * N → sop_ok B N xs o →
  wp (run_sop o s) (λ s' h', srep B h' s' (spec_sop o xs) ∧ _capacity s' ≤ 2 * N) h.
Proof.
  intros HN0 HN Hrep Hc [Hl Ho]. destruct o as [c|n c|v ys|n|n|]; simpl in *; rewrite ?length_app in Hl.
  - apply wp_str_push_back; simpl in *; (done || lia).
  - rewrite length_replicate in Hl. apply wp_append_fill; (done || lia).
  - apply wp_append; (done || lia).
  - by apply wp_str_resize.
  - eapply wp_mono; [by apply (wp_str_reserve B s xs _ N)|]. intros s' h' [? ?]. split; [done|lia].
  - apply (wp_str_resize B s xs 0 N); (done || lia).
Qed.

Lemma run_sops_spec B N os s xs h :
  0 ≤ N → 2 * N < 2 ^ 32 - 1 → srep B h s xs → _capacity s ≤ 2 * N → sops_ok B N xs os →
  wp (run_sops os s) (λ s' h', srep B h' s' (foldl (λ xs o, spec_sop o xs) xs os)) h.
Proof.
  intros HN0 HN. revert s xs h. induction os as [|o os IH]; intros s xs h Hrep Hc Ho; simpl in *; [done|].
  destruct Ho as [Ho Hos]. apply wp_bind. eapply wp_mono; [by eapply run_sop_spec|].
  intros s' h' [? ?]. by apply IH.
Qed.

(** C30: a string built from a non-empty literal and modified by any
    history of [push_back], both [append]s, [resize], [reserve] and
    [clear] (within [N] characters, views outside its own storage)
    completes; it then holds exactly the characters the history denotes
    followed by a NUL, and its destructor returns all its storage,
    leaving every other block of the heap as it was. *)
Theorem string_refines N lit ys os h :
  heap_ok h → reads (blocks h) lit ys → 0 < zlen ys ≤ N → 2 * N < 2 ^ 32 - 1 →
  sops_ok (blocks h) N ys os →
  ∃ s h', (s ← string_from lit; run_sops os s) h = Ret (s, h') ∧
    let zs := foldl (λ xs o, spec_sop o xs) ys os in
    len s = zlen zs ∧
    (∀ i c, (zs ++ [0]) !! i = Some c → hread (_data s) (Z.of_nat i) h' = Ret (c, h')) ∧
    ∃ h'', string_dtor s h' = Ret (tt, h'') ∧ blocks h'' = blocks h.
Proof.
  intros Hok Hlit Hl HN Hos.
  assert (wp (s ← string_from lit; run_sops os s)
    (λ s h', srep (blocks h) h' s (foldl (λ xs o, spec_sop o xs) ys os)) h) as (s & h' & Hrun & Hrep)%wp_run.
  { apply wp_bind. eapply wp_mono; [apply wp_string_from; (done || lia)|].
    intros s h' [? Hc]. apply (run_sops_spec _ N); (done || lia). }
  exists s, h'. split; [done|]. cbv zeta. pose proof Hrep as (_ & Hlen & _ & _ & spare & Hb & _).
  split_and!; [done| |].
  - intros i c Hi.
    assert (wp (hread (_data s) (Z.of_nat i)) (λ y t, y = c ∧ t = h') h') as (? & ? & ? & -> & ->)%wp_run; [|done].
    eapply wp_hread; [by rewrite Hb, lookup_insert_eq| |done].
    apply lookup_app_l_Some. by rewrite list_lookup_fmap, Hi.
  - destruct (proj1 (wp_run _ _ _) (wp_string_dtor _ _ _ _ Hrep)) as ([] & h'' & ? & _ & ?). by exists h''.
Qed.

(** A literal "hi" in block 1. *)
Definition demo_heap : heap Z := Heap {[1 := chars [104; 105; 0]]} 2 1 0.

Lemma demo_heap_ok : heap_ok demo_heap ∧ reads (blocks demo_heap) (View 1 0 2) [104; 105].
Proof.
  split; [split_and!; [done| |done]|].
  - intros p Hp. simpl in *. by rewrite lookup_singleton_ne by lia.
  - by exists [], [Some 0].
Qed.

Lemma string_refines_witness :
  ∃ s h', (s ← string_from (View 1 0 2); run_sops [SPush 33; SAppend (View 1 0 2) [104; 105]; SResize 4] s) demo_heap
            = Ret (s, h') ∧ len s = 4 ∧ hread (_data s) 3 h' = Ret (104, h') ∧ hread (_data s) 4 h' = Ret (0, h').
Proof.
  destruct demo_heap_ok as [Hok Hr].
  destruct (string_refines 16 (View 1 0 2) [104; 105]
    [SPush 33; SAppend (View 1 0 2) [104; 105]; SResize 4] demo_heap Hok Hr) as (s & h' & Heq & Hl & Hrd & _);
    [simpl; lia|lia|repeat split; simpl; (done || lia)|].
  exists s, h'. split_and!; [done|done|by apply (Hrd 3%nat)|by apply (Hrd 4%nat)].
Defined.

(** [s.append(s)] reads the characters after [resize] has freed them. *)
Example self_append_use_after_free :
  (s ← string_from (View 1 0 2); append (c_str s) s) demo_heap = Halt BadAccess.
Proof. vm_compute. reflexivity. Qed.

(** [clear()] of a default-constructed string writes through [nullptr]. *)
Example clear_default_null_write : clear string_default demo_heap = Halt BadAccess.
Proof. vm_compute. reflexivity. Qed.

(** A string built from an empty literal owns one byte it never frees. *)
Example empty_literal_leaks :
  ∃ s h h', string_from (View 1 0 0) demo_heap = Ret (s, h) ∧ string_dtor s h = Ret (tt, h') ∧
    blocks h' = <[2 := [Some 0]]> (blocks demo_heap).
Proof. eexists _, _, _. split_and!; [vm_compute; reflexivity..|]. vm_compute. reflexivity. Qed.
