(* ===== verification/NonstdStringOps.v ===== *)
(** * [nonstd::string]: concatenation, assignment and comparison

    The rest of [nonstd/string.cc]: the move constructor, assignment from a
    view, the overloads of [operator+] and [operator==], over the operations
    of [NonstdString.v].  A [const char *] is the view of its characters. *)
From S2P Require Import Prelude Libc Heap NonstdString.

Definition move_ctor (s : string) : string * string := swap string_default s.
(** [*this = string(sv)] *)
Definition assign_view (this : string) (sv : view) : M (heap Z) string :=
  tmp ← string_from sv;
  let '(this', tmp') := swap this tmp in
  _ ← string_dtor tmp'; mret this'.
(** [operator+] with a view or a character on the left *)
Definition view_plus (lhs : view) (rhs : string) : M (heap Z) string := rv ← string_from lhs; append (c_str rhs) rv.
Definition char_plus (lhs : Z) (rhs : string) : M (heap Z) string := rv ← string_fill 1 lhs; append (c_str rhs) rv.

(** [strncmp] on cells, and [operator==] of the two views. *)
Fixpoint hstrncmp_loop (p i q j : Z) (n : nat) : M (heap Z) Z :=
  match n with
  | O => mret 0
  | S n =>
    a ← hread p i; b ← hread q j;
    if negb (a =? 0) && negb (b =? 0) && (a =? b)
    then match n with O => mret 0 | _ => hstrncmp_loop p (i + 1) q (j + 1) n end
    else mret (char_of a - char_of b)
  end.
Definition view_eq (v w : view) : M (heap Z) bool :=
  if v_len v =? v_len w then
    r ← (if v_len v =? 0 then mret 0
         else hstrncmp_loop (v_block v) (v_off v) (v_block w) (v_off w) (Z.to_nat (v_len v)));
    mret (r =? 0)
  else mret false.
Definition string_eq (s t : string) : M (heap Z) bool := view_eq (c_str s) (c_str t).

(** ** Views of strings *)
Lemma srep_reads B h s xs : srep B h s xs → reads (blocks h) (c_str s) xs.
Proof.
  intros (_ & Hl & _ & _ & spare & Hb & _). exists [], (Some 0 :: spare). cbn [c_str v_block v_off v_len].
  split; [|done]. rewrite Hb, lookup_insert_eq. by rewrite fmap_app, <- app_assoc.
Qed.
Lemma reads_insert B p l v ys : B !! p = None → reads B v ys → reads (<[p := l]> B) v ys.
Proof.
  intros Hp (pre & post & Hv & Hrest). exists pre, post. split; [|done]. rewrite lookup_insert_ne; [done|]. congruence.
Qed.

(** ** Concatenation: the result is a string of its own; the operands,
    which may overlap, stay as they are. *)
Lemma wp_plus (mk : M (heap Z) string) h v xs ys N :
  reads (blocks h) v ys → zlen xs + zlen ys ≤ N → 2 * N < 2 ^ 32 - 1 →
  wp mk (λ s h', srep (blocks h) h' s xs ∧ _capacity s ≤ 2 * N) h →
  wp (rv ← mk; append v rv) (λ s h', srep (blocks h) h' s (xs ++ ys)) h.
Proof.
  intros Hv HN H2 Hmk. apply wp_bind. eapply wp_mono; [exact Hmk|]. intros s h' [Hs Hc].
  eapply wp_mono; [by eapply (wp_append _ s xs v ys N)|]. by intros s' h'' [? _].
Qed.
Theorem string_plus_concat h s v xs ys B N : srep B h s xs → reads (blocks h) v ys → 0 < zlen xs →
  zlen xs + zlen ys ≤ N → 2 * N < 2 ^ 32 - 1 →
  wp (string_plus s v) (λ r h', srep (blocks h) h' r (xs ++ ys)) h.
Proof.
  intros Hs Hv Hx HN H2. eapply wp_plus; [done..|]. pose proof Hs as (Hok & _).
  eapply wp_mono; [apply (wp_string_from h (c_str s) xs); [done|by eapply srep_reads|lia]|]. intros r h' [? ->]. split; [done|lia].
Qed.
Theorem view_plus_concat h s v xs ys B N : srep B h s ys → reads (blocks h) v xs → 0 < zlen xs →
  zlen xs + zlen ys ≤ N → 2 * N < 2 ^ 32 - 1 →
  wp (view_plus v s) (λ r h', srep (blocks h) h' r (xs ++ ys)) h.
Proof.
  intros Hs Hv Hx HN H2. eapply wp_plus; [by eapply srep_reads|done..|]. pose proof Hs as (Hok & _).
  eapply wp_mono; [by apply (wp_string_from h v xs); [..|lia]|]. intros r h' [? ->]. split; [done|lia].
Qed.
Lemma wp_string_fill (h : heap Z) n c : heap_ok h → 0 < Z.of_nat n < 2 ^ 32 - 1 →
  wp (string_fill (Z.of_nat n) c) (λ s h', srep (blocks h) h' s (replicate n c) ∧ _capacity s = Z.of_nat n) h.
Proof.
  intros Hok Hn. unfold string_fill. rewrite wrap_small by lia. apply wp_bind, wp_allocate; [done|rewrite Z.div_1_r; lia|].
  intros p h1 Hp0 Hfresh Hok1 Hb1. apply wp_bind. rewrite Nat2Z.id.
  pose proof (hset_loop_spec (blocks h) [] (replicate n None) [None] c p h1 Hok1) as Hset. rewrite length_replicate in Hset.
  eapply wp_mono; [apply Hset|].
  { rewrite Hb1. simpl. change [None] with (replicate 1 (@None Z)). rewrite <- replicate_add. do 2 f_equal. lia. }
  intros [] h2 [Hok2 Hb2]. apply wp_bind. replace (Z.of_nat n) with (zlen (replicate n c)) by (by rewrite length_replicate).
  eapply wp_mono; [apply (wp_terminate (blocks h) p (zlen (replicate n c)) [None]);
    [done|done|exact Hb2|rewrite length_replicate; lia|simpl; lia|done]|].
  intros [] h3 Hrep. by apply wp_ret.
Qed.
Theorem char_plus_concat h s c ys B N : srep B h s ys → 1 + zlen ys ≤ N → 2 * N < 2 ^ 32 - 1 →
  wp (char_plus c s) (λ r h', srep (blocks h) h' r (c :: ys)) h.
Proof.
  intros Hs HN H2. pose proof Hs as (Hok & _). eapply (wp_plus _ h _ [c] ys N); [by eapply srep_reads|change (zlen [c]) with 1; lia|done|].
  eapply wp_mono; [by apply (wp_string_fill h 1 c)|]. intros r h' [? ->]. split; [done|lia].
Qed.

(** Assignment frees what the string held. *)
Theorem assign_view_replaces B h s xs v ys : srep B h s xs → reads B v ys → 0 < zlen ys < 2 ^ 32 - 1 →
  wp (assign_view s v) (λ s' h', srep B h' s' ys) h.
Proof.
  intros Hs Hv Hl. pose proof Hs as (Hok & Hlen & Hc & Hnone & spare & Hb & Hsp). unfold assign_view. apply wp_bind.
  eapply wp_mono; [apply (wp_string_from h v ys); [done|rewrite Hb; by apply reads_insert|done]|].
  intros t h1 [(Hok1 & Hl1 & Hc1 & Hn1 & spare1 & Hb1 & Hsp1) _]. cbn [swap]. apply wp_bind. unfold string_dtor. cbn [_capacity _data].
  rewrite (proj2 (Z.eqb_neq _ _)) by lia. cbn [negb].
  assert (Hne : _data t ≠ _data s) by (intros Heq; rewrite Heq, Hb, lookup_insert_eq in Hn1; done).
  eapply wp_deallocate; [done|by rewrite Hb1, lookup_insert_ne, Hb, lookup_insert_eq|]. intros h2 Hok2 Hb2. apply wp_ret.
  split_and!; cbn [len _capacity _data]; [done|done|lia|lia|by rewrite Hb, lookup_insert_ne in Hn1|].
  exists spare1. split; [|done]. rewrite Hb2, Hb1, delete_insert_ne, Hb by done. by rewrite delete_insert_id.
Qed.

(** ** Comparison *)
Lemma hstrncmp_spec h v w xs ys : reads (blocks h) v xs → reads (blocks h) w ys → length xs = length ys →
  hstrncmp_loop (v_block v) (v_off v) (v_block w) (v_off w) (length xs) h = Ret (strncmp_bytes xs ys, h).
Proof.
  destruct v as [p i lp], w as [q j lq]. revert i j ys lp lq. induction xs as [|a xs IH]; intros i j [|b ys] lp lq Hx Hy Hl; try done.
  destruct Hx as (pre & post & Hp & Hi & Hlp), Hy as (pre' & post' & Hq & Hj & Hlq). cbn [v_block v_off v_len] in *. subst i j.
  assert (Ha : hread p (zlen pre) h = Ret (a, h)).
  { assert (wp (hread p (zlen pre)) (λ y t, y = a ∧ t = h) h) as (? & ? & -> & -> & ->)%wp_run; [|done].
    eapply wp_hread; [done| |done]. by apply list_lookup_middle. }
  assert (Hb : hread q (zlen pre') h = Ret (b, h)).
  { assert (wp (hread q (zlen pre')) (λ y t, y = b ∧ t = h) h) as (? & ? & -> & -> & ->)%wp_run; [|done].
    eapply wp_hread; [done| |done]. by apply list_lookup_middle. }
  cbn [length hstrncmp_loop strncmp_bytes]. munfold. rewrite Ha, Hb.
  destruct (negb (a =? 0) && negb (b =? 0) && (a =? b)); [|done].
  destruct xs as [|x xs]; [by destruct ys|]. cbn [length] in *.
  replace (zlen pre + 1) with (zlen (pre ++ [Some a])) by (rewrite length_app; simpl; lia).
  replace (zlen pre' + 1) with (zlen (pre' ++ [Some b])) by (rewrite length_app; simpl; lia).
  apply (IH _ _ ys (zlen (x :: xs)) (zlen ys)); [..|lia].
  - exists (pre ++ [Some a]), post. cbn [v_block v_off v_len]. by rewrite <- app_assoc.
  - exists (pre' ++ [Some b]), post'. cbn [v_block v_off v_len]. by rewrite <- app_assoc.
Qed.
(** Strings without a NUL are equal exactly when their characters are. *)
Theorem string_eq_decides h B B' s t xs ys : srep B h s xs → srep B' h t ys →
  Forall (λ b, 0 < b < 256) xs → Forall is_byte ys → string_eq s t h = Ret (bool_decide (xs = ys), h).
Proof.
  intros Hs Ht Hx Hy. pose proof (srep_reads _ _ _ _ Hs) as Hv. pose proof (srep_reads _ _ _ _ Ht) as Hw.
  destruct Hs as (_ & Hls & _), Ht as (_ & Hlt & _). unfold string_eq, view_eq. cbn [v_len c_str] in *. rewrite Hls, Hlt.
  destruct (Z.eqb_spec (zlen xs) (zlen ys)) as [Hl|Hl].
  2:{ rewrite bool_decide_false; [done|]. by intros ->. }
  apply Nat2Z.inj in Hl. pose proof (strncmp_bytes_zero xs ys Hx Hy Hl) as Hz.
  destruct (Z.eqb_spec (zlen xs) 0) as [H0|H0].
  { destruct xs; [|done]. destruct ys; [|done]. done. }
  pose proof (hstrncmp_spec h _ _ _ _ Hv Hw Hl) as Hc. cbn [c_str v_block v_off] in *. munfold. rewrite Nat2Z.id, Hc.
  do 2 f_equal. apply eq_true_iff_eq. by rewrite Z.eqb_eq, bool_decide_eq_true.
Qed.
(** After a NUL nothing is compared. *)
Example nul_hides_difference :
  ∃ h s t, (s ← string_from (View 1 0 3); t ← string_from (View 1 3 3); mret (s, t))
    (Heap {[1 := [Some 97; Some 0; Some 98; Some 97; Some 0; Some 99]]} 2 1 0) = Ret ((s, t), h) ∧
    string_eq s t h = Ret (true, h).
Proof. eexists _, _, _. split; vm_compute; reflexivity. Qed.
