(* ===== verification/Lru.v ===== *)
(** * [util::LRUCache] ([kernel/util/lru.h])

    The lookup table is a finite map (what [NodeHashMap.v] shows
    [node_hash_map] to implement; nodes are address-stable, so a node is
    identified by its key) and the evictable list is the list of keys
    from most to least recently released (what [IntrusiveList.v] shows
    the intrusive list to implement).  [populate_cache] is a parameter;
    both callbacks are recorded in a log. *)
From stdpp Require Import gmultiset.
From S2P Require Import Prelude.

Record lnode (V : Type) := LNode { refcount : Z; lval : V }.
Arguments LNode {V} refcount lval.
Arguments refcount {V} l.
Arguments lval {V} l.

Inductive event (K V : Type) :=
| Populated (k : K) (v : V)
| Evicted (k : K) (v : V).
Arguments Populated {K V} k v.
Arguments Evicted {K V} k v.

Record LRUCache (K V : Type) `{Countable K} := LRU {
  lookup_ : gmap K (lnode V);
  lru : list K;
  log : list (event K V);
}.
Arguments LRU {K V _ _} lookup_ lru log.
Arguments lookup_ {K V _ _} l.
Arguments lru {K V _ _} l.
Arguments log {K V _ _} l.

Section lru.
Context {K V : Type} `{Countable K} (populate_cache : K → V).
Implicit Types (st : LRUCache K V) (k : K) (held : gmultiset K).

Definition lru_new : LRUCache K V := LRU ∅ [] [].

(** [node->erase()] on the evictable list; a node that is in no list is
    self-linked and stays so. *)
Definition unlink (k : K) (l : list K) : list K := filter (λ k', k' ≠ k) l.

Definition set_node (k : K) (n : lnode V) : M (LRUCache K V) unit :=
  st ← getS; putS (LRU (<[k := n]> (lookup_ st)) (lru st) (log st)).
Definition set_lru (l : list K) : M (LRUCache K V) unit :=
  st ← getS; putS (LRU (lookup_ st) l (log st)).

(** [Lease::inc_leases] / [dec_leases] on the node of key [k] *)
Definition inc_leases (k : K) : M (LRUCache K V) unit :=
  st ← getS;
  n ← liftO (deref (lookup_ st !! k));
  let r := refcount n + 1 in
  _ ← set_node k (LNode r (lval n));
  if r =? 1 then set_lru (unlink k (lru st)) else mret tt.
Definition dec_leases (k : K) : M (LRUCache K V) unit :=
  st ← getS;
  n ← liftO (deref (lookup_ st !! k));
  let r := refcount n - 1 in
  _ ← set_node k (LNode r (lval n));
  if r =? 0 then set_lru (k :: lru st) else mret tt.

(** A lease is empty or designates a node. *)
Definition lease_dtor (l : option K) : M (LRUCache K V) unit :=
  match l with Some k => dec_leases k | None => mret tt end.
Definition lease_swap (a b : option K) : option K * option K := (b, a).
Definition value (k : K) : M (LRUCache K V) V :=
  st ← getS; n ← liftO (deref (lookup_ st !! k)); mret (lval n).
Definition active_leases (k : K) : M (LRUCache K V) Z :=
  st ← getS; n ← liftO (deref (lookup_ st !! k)); mret (refcount n).

Definition get (k : K) (insert_if_missing : bool) : M (LRUCache K V) (option K) :=
  st ← getS;
  match lookup_ st !! k with
  | Some _ => _ ← inc_leases k; mret (Some k)
  | None =>
    if insert_if_missing then
      let v := populate_cache k in
      _ ← putS (LRU (<[k := LNode 0 v]> (lookup_ st)) (lru st) (log st ++ [Populated k v]));
      _ ← inc_leases k; mret (Some k)
    else mret None
  end.

Definition size st : Z := Z.of_nat (base.size (lookup_ st)).
Definition evictable st : Z := zlen (lru st).

(** The private [evict_one(Node &)] *)
Definition evict_node (k : K) : M (LRUCache K V) unit :=
  st ← getS;
  n ← liftO (deref (lookup_ st !! k));
  _ ← assertM (refcount n =? 0);
  putS (LRU (delete k (lookup_ st)) (unlink k (lru st)) (log st ++ [Evicted k (lval n)])).

Fixpoint evict_loop (fuel : nat) (size_hint evicted : Z) : M (LRUCache K V) Z :=
  st ← getS;
  match last (lru st) with
  | Some k =>
    if size_hint <? size st then
      match fuel with
      | O => halt OutOfFuel
      | S fuel => _ ← evict_node k; evict_loop fuel size_hint (evicted + 1)
      end
    else mret evicted
  | None => mret evicted
  end.
(** Each iteration shortens the evictable list. *)
Definition evict (size_hint : Z) : M (LRUCache K V) Z :=
  st ← getS; evict_loop (length (lru st)) size_hint 0.

(** The public [evict_one(Lease &&)]: [lease.~Lease()], then the node. *)
Definition evict_one (k : K) : M (LRUCache K V) bool :=
  st ← getS;
  n ← liftO (deref (lookup_ st !! k));
  if negb (refcount n =? 1) then mret false
  else _ ← dec_leases k; _ ← evict_node k; mret true.

(** ** Invariant: [held] is the multiset of outstanding leases *)
Definition lru_ok st held : Prop :=
  NoDup (lru st) ∧
  (∀ k, k ∈ lru st ↔ ∃ n, lookup_ st !! k = Some n ∧ refcount n = 0) ∧
  (∀ k n, lookup_ st !! k = Some n →
     refcount n = Z.of_nat (multiplicity k held) ∧ lval n = populate_cache k) ∧
  (∀ k, k ∈ held → is_Some (lookup_ st !! k)).

Lemma elem_of_unlink k k' l : k' ∈ unlink k l ↔ k' ≠ k ∧ k' ∈ l.
Proof. unfold unlink. by rewrite list_elem_of_filter. Qed.

Lemma unlink_notin k l : k ∉ l → unlink k l = l.
Proof.
  intros Hk. unfold unlink. induction l as [|x l IH]; [done|]. apply not_elem_of_cons in Hk as [? ?].
  rewrite filter_cons_True by congruence. by rewrite IH.
Qed.

Lemma unlink_last k l : k ∉ l → unlink k (l ++ [k]) = l.
Proof.
  intros Hk. unfold unlink. rewrite filter_app. fold (unlink k l). rewrite unlink_notin by done.
  rewrite filter_cons_False by (intros Hn; by apply Hn). apply app_nil_r.
Qed.

Lemma lru_ok_new : lru_ok lru_new ∅.
Proof.
  split_and!; simpl.
  - constructor.
  - intros k. split; [by intros ?%elem_of_nil|]. intros (n & Hn & _). by rewrite lookup_empty in Hn.
  - intros k n Hn. by rewrite lookup_empty in Hn.
  - intros k Hk. multiset_solver.
Qed.

(** The count of one node and its membership change together. *)
Lemma lru_ok_update st held held' k n r l' lg :
  lru_ok st held → lookup_ st !! k = Some n →
  r = Z.of_nat (multiplicity k held') →
  (∀ k', k' ≠ k → multiplicity k' held' = multiplicity k' held) →
  NoDup l' → (k ∈ l' ↔ r = 0) → (∀ k', k' ≠ k → k' ∈ l' ↔ k' ∈ lru st) →
  lru_ok (LRU (<[k := LNode r (lval n)]> (lookup_ st)) l' lg) held'.
Proof.
  intros (Hnd & Hl & Hr & Hh) Hk Hcnt Hoth Hnd' Hin Hin'. split_and!; simpl; [done|..].
  - intros k'. destruct (decide (k' = k)) as [->|Hne].
    + rewrite lookup_insert_eq, Hin. split; [by eexists|]. by intros (? & [= <-] & ?).
    + rewrite lookup_insert_ne, Hin', Hl by done. done.
  - intros k' n'. destruct (decide (k' = k)) as [->|Hne].
    + rewrite lookup_insert_eq. intros [= <-]. simpl. split; [done|]. by apply Hr in Hk as [_ ->].
    + rewrite lookup_insert_ne, Hoth by done. apply Hr.
  - intros k' Hk'. destruct (decide (k' = k)) as [->|Hne]; [by rewrite lookup_insert_eq|].
    rewrite lookup_insert_ne by done. apply Hh. rewrite elem_of_multiplicity, Hoth in Hk' by done.
    by rewrite elem_of_multiplicity.
Qed.

Lemma wp_inc_leases st held k n :
  lru_ok st held → lookup_ st !! k = Some n →
  wp (inc_leases k) (λ _ st', lru_ok st' (held ⊎ {[+ k +]}) ∧ log st' = log st ∧
    lookup_ st' = <[k := LNode (refcount n + 1) (lval n)]> (lookup_ st)) st.
Proof.
  intros Hok Hk. pose proof Hok as (Hnd & Hl & Hr & Hh). destruct (Hr k n Hk) as [Hcnt _].
  assert (Hm : refcount n + 1 = Z.of_nat (multiplicity k (held ⊎ {[+ k +]}))) by (rewrite multiplicity_disj_union, multiplicity_singleton_eq; lia).
  assert (Ho : ∀ k', k' ≠ k → multiplicity k' (held ⊎ {[+ k +]}) = multiplicity k' held)
    by (intros; rewrite multiplicity_disj_union, multiplicity_singleton_ne by done; lia).
  unfold inc_leases. apply wp_bind, wp_get, wp_bind. eapply wp_deref; [done|].
  apply wp_bind, wp_bind, wp_get, wp_put. destruct (Z.eqb_spec (refcount n + 1) 1).
  - apply wp_bind, wp_get, wp_put. split; [|done].
    eapply lru_ok_update; [done..|by apply NoDup_filter| |].
    + rewrite elem_of_unlink. split; [by intros [? ?]|lia].
    + intros k' Hne. rewrite elem_of_unlink. naive_solver.
  - apply wp_ret. split; [|done]. eapply lru_ok_update; [done..| |done].
    rewrite Hl. split; [|lia]. intros (? & ? & ?). simplify_eq. lia.
Qed.

Lemma wp_dec_leases st held k :
  lru_ok st held → k ∈ held →
  wp (dec_leases k) (λ _ st', lru_ok st' (held ∖ {[+ k +]}) ∧ log st' = log st ∧
    dom (lookup_ st') = dom (lookup_ st)) st.
Proof.
  intros Hok Hin. pose proof Hok as (Hnd & Hl & Hr & Hh). destruct (Hh k Hin) as [n Hk].
  destruct (Hr k n Hk) as [Hcnt _]. rewrite elem_of_multiplicity in Hin.
  assert (Hm : refcount n - 1 = Z.of_nat (multiplicity k (held ∖ {[+ k +]})))
    by (rewrite multiplicity_difference, multiplicity_singleton_eq; lia).
  assert (Ho : ∀ k', k' ≠ k → multiplicity k' (held ∖ {[+ k +]}) = multiplicity k' held)
    by (intros; rewrite multiplicity_difference, multiplicity_singleton_ne by done; lia).
  assert (Hnot : k ∉ lru st) by (rewrite Hl; intros (? & ? & ?); simplify_eq; lia).
  assert (Hdom : ∀ x, dom (<[k := x]> (lookup_ st)) = dom (lookup_ st))
    by (intros x; apply dom_insert_lookup_L; by rewrite Hk).
  unfold dec_leases. apply wp_bind, wp_get, wp_bind. eapply wp_deref; [done|].
  apply wp_bind, wp_bind, wp_get, wp_put. destruct (Z.eqb_spec (refcount n - 1) 0).
  - apply wp_bind, wp_get, wp_put. split; [|split; [done|apply Hdom]].
    eapply lru_ok_update; [done..|by constructor| |].
    + rewrite elem_of_cons. naive_solver.
    + intros k' Hne. rewrite elem_of_cons. naive_solver.
  - apply wp_ret. split; [|split; [done|apply Hdom]].
    eapply lru_ok_update; [done..| |done]. naive_solver.
Qed.

Lemma wp_get_ st held k ins :
  lru_ok st held →
  wp (get k ins) (λ l st',
    match l with
    | Some k' => k' = k ∧ lru_ok st' (held ⊎ {[+ k +]})
    | None => lookup_ st !! k = None ∧ ins = false ∧ st' = st
    end ∧
    log st' = log st ++ (if decide (lookup_ st !! k = None ∧ ins = true)
                         then [Populated k (populate_cache k)] else []) ∧
    dom (lookup_ st') = (if ins then {[k]} else ∅) ∪ dom (lookup_ st)) st.
Proof.
  intros Hok. unfold get. apply wp_bind, wp_get. destruct (lookup_ st !! k) as [n|] eqn:Hk.
  - apply wp_bind. eapply wp_mono; [by eapply wp_inc_leases|]. intros [] st' (Hok' & Hlg & Hlk).
    apply wp_ret. split; [done|]. rewrite decide_False by (by intros [? _]). rewrite app_nil_r.
    split; [done|]. rewrite Hlk, dom_insert_lookup_L by (by rewrite Hk).
    apply elem_of_dom_2 in Hk. destruct ins; set_solver.
  - destruct ins; [|apply wp_ret; rewrite decide_False by (by intros [_ ?]); rewrite app_nil_r; set_solver].
    pose proof Hok as (Hnd & Hl & Hr & Hh).
    assert (Hz : multiplicity k held = 0%nat).
    { destruct (multiplicity k held) eqn:Hm; [done|]. assert (k ∈ held) as Hin.
      { rewrite elem_of_multiplicity, Hm. lia. } destruct (Hh k Hin). congruence. }
    apply wp_bind, wp_put, wp_bind. rewrite decide_True by done.
    unfold inc_leases. apply wp_bind, wp_get, wp_bind. simpl.
    eapply wp_deref; [apply lookup_insert_eq|]. apply wp_bind, wp_bind, wp_get, wp_put. simpl.
    apply wp_bind, wp_get, wp_put, wp_ret. simpl. rewrite insert_insert_eq.
    split; [|split; [done|apply dom_insert_L]]. split; [done|].
    assert (Hnk : k ∉ lru st) by (rewrite Hl, Hk; by intros (? & ? & _)).
    rewrite unlink_notin by done. split_and!; simpl; [done|..].
    + intros k'. destruct (decide (k' = k)) as [->|Hne]; [rewrite lookup_insert_eq|by rewrite lookup_insert_ne].
      split; [done|]. by intros (? & [= <-] & ?).
    + intros k' n'. destruct (decide (k' = k)) as [->|Hne].
      * rewrite lookup_insert_eq. intros [= <-]. simpl. split; [|done].
        rewrite multiplicity_disj_union, multiplicity_singleton_eq. lia.
      * rewrite lookup_insert_ne by done. rewrite multiplicity_disj_union, multiplicity_singleton_ne by done.
        rewrite Nat.add_0_r. apply Hr.
    + intros k' [Hk'|Hk']%gmultiset_elem_of_disj_union.
      * apply lookup_insert_is_Some'. right. by apply Hh.
      * apply gmultiset_elem_of_singleton in Hk' as ->. by rewrite lookup_insert_eq.
Qed.

Lemma wp_evict_node st held k n :
  lru_ok st held → lookup_ st !! k = Some n → refcount n = 0 →
  wp (evict_node k) (λ _ st', lru_ok st' held ∧
    st' = LRU (delete k (lookup_ st)) (unlink k (lru st)) (log st ++ [Evicted k (populate_cache k)])) st.
Proof.
  intros (Hnd & Hl & Hr & Hh) Hk Hz. unfold evict_node. apply wp_bind, wp_get, wp_bind.
  eapply wp_deref; [done|]. apply wp_bind, wp_assert; [by rewrite Hz|]. apply wp_put.
  destruct (Hr k n Hk) as [Hcnt ->]. split; [|done]. split_and!; simpl.
  - by apply NoDup_filter.
  - intros k'. rewrite elem_of_unlink, Hl. destruct (decide (k' = k)) as [->|Hne].
    + rewrite lookup_delete_eq. naive_solver.
    + rewrite lookup_delete_ne by done. naive_solver.
  - intros k' n'. rewrite lookup_delete_Some. intros [_ ?]. by apply Hr.
  - intros k' Hk'. rewrite lookup_delete_ne; [by apply Hh|]. intros <-.
    rewrite elem_of_multiplicity in Hk'. lia.
Qed.

(** Eviction takes keys off the back of the list. *)
Definition evict_keys (hint : Z) st : list K :=
  take (Z.to_nat (Z.min (size st - hint) (zlen (lru st)))) (reverse (lru st)).

Lemma wp_evict_loop st held hint e :
  lru_ok st held →
  wp (evict_loop (length (lru st)) hint e) (λ r st', lru_ok st' held ∧
    let ks := evict_keys hint st in
    r = e + zlen ks ∧
    st' = LRU (foldl (λ m k, delete k m) (lookup_ st) ks)
              (reverse (drop (length ks) (reverse (lru st))))
              (log st ++ ((λ k, Evicted k (populate_cache k)) <$> ks))) st.
Proof.
  remember (lru st) as l eqn:Hlst. revert st e Hlst.
  induction l as [|k l IH] using rev_ind; intros st e Hlst Hok; unfold evict_keys; rewrite <- Hlst.
  - cbn [evict_loop length]. apply wp_bind, wp_get. rewrite <- Hlst. simpl last. apply wp_ret.
    split; [done|]. cbv zeta. rewrite reverse_nil, take_nil. simpl. rewrite app_nil_r. split; [lia|].
    destruct st; simpl in *; by subst.
  - rewrite length_app, reverse_snoc, Nat.add_comm. cbn [evict_loop length Nat.add].
    apply wp_bind, wp_get. rewrite <- Hlst, last_snoc. destruct (Z.ltb_spec hint (size st)).
    2:{ apply wp_ret. split; [done|]. cbv zeta.
        replace (Z.to_nat (Z.min (size st - hint) (Z.of_nat (S (length l))))) with 0%nat by lia.
        simpl. rewrite app_nil_r, reverse_cons, reverse_involutive. split; [lia|].
        destruct st; simpl in *; by subst. }
    pose proof Hok as (Hnd & Hl & _). rewrite <- Hlst in Hnd, Hl. apply NoDup_app in Hnd as (_ & Hnk & _).
    assert (Hkl : k ∉ l) by (intros Hin; apply (Hnk k Hin); set_solver).
    destruct (proj1 (Hl k)) as (n & Hk & Hz); [set_solver|].
    apply wp_bind. eapply wp_mono; [by eapply wp_evict_node|]. intros [] st1 (Hok1 & Hst1).
    rewrite <- Hlst, unlink_last in Hst1 by done.
    eapply wp_mono; [apply (IH st1 (e + 1)); [by subst st1|done]|].
    intros r st' (Hok' & Hr & Hst'). split; [done|]. cbv zeta.
    assert (Hks : take (Z.to_nat (Z.min (size st - hint) (Z.of_nat (S (length l))))) (k :: reverse l)
                  = k :: evict_keys hint st1).
    { unfold evict_keys. subst st1. unfold size in *. simpl. rewrite map_size_delete, Hk. simpl.
      assert (base.size (lookup_ st) ≠ 0%nat).
      { intros Hz0%map_size_empty_inv. by rewrite Hz0, lookup_empty in Hk. }
      replace (Z.to_nat (Z.min (Z.of_nat (base.size (lookup_ st)) - hint) (Z.of_nat (S (length l)))))
        with (S (Z.to_nat (Z.min (Z.of_nat (pred (base.size (lookup_ st))) - hint) (zlen l)))) by lia. done. }
    rewrite Hks. subst st1. cbn [lookup_ lru log] in *. split; [simpl; lia|]. rewrite Hst'.
    simpl. by rewrite <- app_assoc.
Qed.

Lemma wp_evict_one st held k :
  lru_ok st held → k ∈ held →
  wp (evict_one k) (λ b st', if b : bool
    then lru_ok st' (held ∖ {[+ k +]}) ∧ log st' = log st ++ [Evicted k (populate_cache k)] ∧
         dom (lookup_ st') = dom (lookup_ st) ∖ {[k]} ∧ k ∈ dom (lookup_ st)
    else st' = st) st.
Proof.
  intros Hok Hin. pose proof Hok as (_ & _ & Hr & Hh). destruct (Hh k Hin) as [n Hk].
  unfold evict_one. apply wp_bind, wp_get, wp_bind. eapply wp_deref; [done|].
  destruct (Z.eqb_spec (refcount n) 1) as [H1|]; cbn [negb]; [|by apply wp_ret].
  apply wp_bind. eapply wp_mono; [by apply wp_dec_leases|]. intros [] st1 (Hok1 & Hlg & Hdom).
  assert (k ∈ dom (lookup_ st1)) as [n1 Hk1]%elem_of_dom by (rewrite Hdom; by eapply elem_of_dom_2).
  apply wp_bind. eapply wp_mono; [eapply wp_evict_node; [done|done|]|].
  - destruct Hok1 as (_ & _ & Hr1 & _). destruct (Hr1 _ _ Hk1) as [-> _].
    destruct (Hr _ _ Hk) as [Hc _]. rewrite multiplicity_difference, multiplicity_singleton_eq. lia.
  - intros [] st2 (Hok2 & ->). apply wp_ret. split; [done|]. simpl. rewrite Hlg.
    split; [done|]. rewrite dom_delete_L, Hdom. split; [done|]. by eapply elem_of_dom_2.
Qed.

(** An item with another lease is not evicted. *)
Lemma wp_evict_one_shared st held k :
  lru_ok st held → (1 < multiplicity k held)%nat → wp (evict_one k) (λ b st', b = false ∧ st' = st) st.
Proof.
  intros Hok Hm. pose proof Hok as (_ & _ & Hr & Hh). destruct (Hh k) as [n Hk]; [apply elem_of_multiplicity; lia|].
  unfold evict_one. apply wp_bind, wp_get, wp_bind. eapply wp_deref; [done|]. destruct (Hr _ _ Hk) as [Hc _].
  rewrite (proj2 (Z.eqb_neq (refcount n) 1)) by lia. by apply wp_ret.
Qed.

(** ** Clients: operations on the leases they hold

    [held] counts the leases and the manual increments.  [evict_one] is
    called for an item with another lease only, and then refuses: on the
    last lease it destroys the node while the lease still designates it
    ([evict_one_then_destroy]). *)
Inductive lop := LGet (k : K) (insert_if_missing : bool) | LInc (k : K) | LRelease (k : K) | LEvict (hint : Z) | LEvictOne (k : K).

Definition run_lop (o : lop) (held : gmultiset K) : M (LRUCache K V) (gmultiset K) :=
  match o with
  | LGet k ins =>
    l ← get k ins; mret (match l with Some k => held ⊎ {[+ k +]} | None => held end)
  | LInc k => if decide (k ∈ held) then _ ← inc_leases k; mret (held ⊎ {[+ k +]}) else mret held
  | LRelease k =>
    if decide (k ∈ held) then _ ← lease_dtor (Some k); mret (held ∖ {[+ k +]}) else mret held
  | LEvict hint => _ ← evict hint; mret held
  | LEvictOne k =>
    if decide (1 < multiplicity k held)%nat then _ ← evict_one k; mret held else mret held
  end.
Fixpoint run_lops (os : list lop) (held : gmultiset K) : M (LRUCache K V) (gmultiset K) :=
  match os with
  | [] => mret held
  | o :: os => held ← run_lop o held; run_lops os held
  end.

(** The keys a log of callbacks leaves cached; [None] if a key is
    populated twice or evicted when absent. *)
Fixpoint replay (lg : list (event K V)) (s : gset K) : option (gset K) :=
  match lg with
  | [] => Some s
  | Populated k _ :: lg => if decide (k ∈ s) then None else replay lg ({[k]} ∪ s)
  | Evicted k _ :: lg => if decide (k ∈ s) then replay lg (s ∖ {[k]}) else None
  end.

Lemma replay_app l1 l2 s : replay (l1 ++ l2) s = replay l1 s ≫= replay l2.
Proof.
  revert s. induction l1 as [|[k v|k v] l1 IH]; intros s; simpl; [done|..]; case_decide; done.
Qed.

Definition consistent st held : Prop :=
  lru_ok st held ∧ replay (log st) ∅ = Some (dom (lookup_ st)).

Lemma replay_evicted ks (m : gmap K (lnode V)) :
  NoDup ks → (∀ k, k ∈ ks → is_Some (m !! k)) →
  replay ((λ k, Evicted k (populate_cache k)) <$> ks) (dom m)
  = Some (dom (foldl (λ m k, delete k m) m ks)).
Proof.
  revert m. induction ks as [|k ks IH]; intros m Hnd Hin; [done|]. apply NoDup_cons in Hnd as [Hk Hnd].
  cbn [fmap list_fmap replay foldl]. rewrite decide_True by (apply elem_of_dom, Hin; set_solver).
  rewrite <- dom_delete_L. apply IH; [done|]. intros k' Hk'.
  rewrite lookup_delete_ne by (intros ->; done). apply Hin. set_solver.
Qed.

Lemma run_lop_ok o st held :
  consistent st held → wp (run_lop o held) (λ held' st', consistent st' held') st.
Proof.
  intros [Hok Hlog]. destruct o as [k ins|k|k|hint|k]; cbn [run_lop].
  - apply wp_bind. eapply wp_mono; [by apply wp_get_|]. intros l st' (Hl & Hlg & Hdom).
    apply wp_ret. split; [destruct l; [by destruct Hl as [-> ?]|by destruct Hl as (_ & _ & ->)]|].
    rewrite Hlg, replay_app, Hlog, Hdom. simpl. case_decide as Hd.
    + destruct Hd as [Hk ->]. simpl. by rewrite decide_False by (by apply not_elem_of_dom).
    + simpl. f_equal. destruct ins; [|set_solver]. destruct (lookup_ st !! k) eqn:Hk; [|naive_solver].
      apply elem_of_dom_2 in Hk. set_solver.
  - case_decide as Hk; [|by apply wp_ret]. pose proof Hok as (_ & _ & _ & Hh). destruct (Hh k Hk) as [n Hn].
    apply wp_bind. eapply wp_mono; [by apply wp_inc_leases|]. intros [] st' (? & Hlg & Hlk). apply wp_ret.
    split; [done|]. rewrite Hlg, Hlk, dom_insert_L, Hlog. apply elem_of_dom_2 in Hn. f_equal. set_solver.
  - case_decide; [|by apply wp_ret]. apply wp_bind. eapply wp_mono; [by apply wp_dec_leases|].
    intros [] st' (? & Hlg & Hdom). apply wp_ret. split; [done|]. by rewrite Hlg, Hdom.
  - apply wp_bind. unfold evict. apply wp_bind, wp_get.
    eapply wp_mono; [by eapply wp_evict_loop|]. intros r st' (? & _ & ->). apply wp_ret. split; [done|].
    simpl. rewrite replay_app, Hlog. simpl. destruct Hok as (Hnd & Hl & _).
    apply replay_evicted; unfold evict_keys.
    + eapply sublist_NoDup; [|apply sublist_take]. by rewrite reverse_Permutation.
    + intros k Hk. eapply elem_of_sublist in Hk; [|apply sublist_take]. apply elem_of_reverse, Hl in Hk as (n & ? & _). by exists n.
  - case_decide as Hm; [|by apply wp_ret]. apply wp_bind. eapply wp_mono; [by eapply wp_evict_one_shared|].
    intros b st' [_ ->]. by apply wp_ret.
Qed.

Lemma run_lops_ok os st held :
  consistent st held → wp (run_lops os held) (λ held' st', consistent st' held') st.
Proof.
  revert st held. induction os as [|o os IH]; intros st held Hc; cbn [run_lops]; [done|].
  apply wp_bind. eapply wp_mono; [by apply run_lop_ok|]. intros held' st' ?. by apply IH.
Qed.
End lru.

(** C31: for every history of [get]s, manual [inc_leases]s, lease
    destructions, [evict]s and [evict_one]s of items that have another lease,
    by clients that only give up leases they hold, all operations complete
    (no assertion fails); every leased key is still cached with the value
    [populate_cache] gave, its reference count is the number of its
    leases, the evictable list holds exactly the cached keys without a
    lease, each once, and the populate and evict callbacks alternate per
    key and account for exactly the cached keys. *)
Theorem lru_cache_safe {K V} `{Countable K} (populate_cache : K → V) (os : list (lop (K := K))) :
  ∃ held st, run_lops populate_cache os ∅ lru_new = Ret (held, st) ∧
    NoDup (lru st) ∧
    (∀ k, k ∈ lru st ↔ k ∈ dom (lookup_ st) ∧ k ∉ held) ∧
    (∀ k, k ∈ held → ∃ n, lookup_ st !! k = Some n ∧ lval n = populate_cache k ∧
                          refcount n = Z.of_nat (multiplicity k held)) ∧
    replay (log st) ∅ = Some (dom (lookup_ st)).
Proof.
  assert (Hc : consistent populate_cache lru_new ∅).
  { split; [apply lru_ok_new|]. simpl. by rewrite dom_empty_L. }
  destruct (proj1 (wp_run _ _ _) (run_lops_ok populate_cache os _ _ Hc)) as (held & st & Hrun & Hok & Hlog).
  destruct Hok as (Hnd & Hl & Hr & Hh). exists held, st. split_and!; [done..| | |done].
  - intros k. rewrite Hl, elem_of_dom, elem_of_multiplicity. split.
    + intros (n & Hk & Hz). split; [by eexists|]. destruct (Hr _ _ Hk). lia.
    + intros [[n Hk] Hz]. exists n. split; [done|]. destruct (Hr _ _ Hk). lia.
  - intros k Hk. destruct (Hh k Hk) as [n Hn]. destruct (Hr _ _ Hn). by exists n.
Qed.


(** Keys 1, 2, 3 are fetched and released in the order 2, 1. *)
Definition demo_lops : list (lop (K := Z)) :=
  [LGet 1 true; LGet 2 true; LGet 3 true; LRelease 2; LRelease 1].


(** [evict_one(Lease &&)] runs the destructor of the caller's lease; when
    the caller's own destructor runs at the end of its scope, it
    decrements the count of a node that is no longer there. *)
Example evict_one_then_destroy :
  (l ← get (λ k : Z, k) 1 true; _ ← evict_one 1; lease_dtor l) lru_new = Halt BadAccess.
Proof. vm_compute. reflexivity. Qed.
