(* ===== verification/Scheduler.v ===== *)
(** * Kernel threads and the round-robin scheduler
    ([kernel/sched/kthread.{h,cc}])

    Threads are records in a finite map from their addresses.  The
    runnable list is the list of thread addresses (what [IntrusiveList.v]
    shows the intrusive list to implement) and the TID table a finite map
    ([NodeHashMap.v]).  The stack switch is where the next thread's code
    continues: for the scheduler's state, the statements after it, run by
    the resumed thread (or by [on_thread_start] for a new one), follow
    those before it.  Time stamps and addresses of new objects are
    arguments and a counter; allocation is taken to succeed. *)
From S2P Require Import Prelude.

Definition InvalidTID : Z := u16 (-1).

Record KernelThread := KThread {
  stack : Z;
  th_runnable : bool;
  tid : Z;
  proc : option Z;
}.

Record Scheduler := Sched {
  threads : gmap Z KernelThread;
  brk : Z;
  running : option Z;
  runnable : list Z;
  pending_deletion : option Z;
  tid_counter : Z;
  tid_map : gmap Z (option Z);
  context_switch_count : Z;
  context_switch_cum_cycles : Z;
  context_switch_start : Z;
  curr_proc_override : option Z;
  address_space : option Z;
}.

(** Updates of the members. *)
Definition upd (f : Scheduler → Scheduler) : M Scheduler unit := s ← getS; putS (f s).
Definition with_threads (t : gmap Z KernelThread) (s : Scheduler) : Scheduler :=
  Sched t (brk s) (running s) (runnable s) (pending_deletion s) (tid_counter s) (tid_map s)
    (context_switch_count s) (context_switch_cum_cycles s) (context_switch_start s)
    (curr_proc_override s) (address_space s).
Definition with_queue (r : option Z) (q : list Z) (s : Scheduler) : Scheduler :=
  Sched (threads s) (brk s) r q (pending_deletion s) (tid_counter s) (tid_map s)
    (context_switch_count s) (context_switch_cum_cycles s) (context_switch_start s)
    (curr_proc_override s) (address_space s).
Definition with_pending (p : option Z) (s : Scheduler) : Scheduler :=
  Sched (threads s) (brk s) (running s) (runnable s) p (tid_counter s) (tid_map s)
    (context_switch_count s) (context_switch_cum_cycles s) (context_switch_start s)
    (curr_proc_override s) (address_space s).
Definition with_tids (c : Z) (m : gmap Z (option Z)) (s : Scheduler) : Scheduler :=
  Sched (threads s) (brk s) (running s) (runnable s) (pending_deletion s) c m
    (context_switch_count s) (context_switch_cum_cycles s) (context_switch_start s)
    (curr_proc_override s) (address_space s).
Definition with_times (n c t : Z) (s : Scheduler) : Scheduler :=
  Sched (threads s) (brk s) (running s) (runnable s) (pending_deletion s) (tid_counter s) (tid_map s)
    n c t (curr_proc_override s) (address_space s).
Definition with_space (p : option Z) (s : Scheduler) : Scheduler :=
  Sched (threads s) (brk s) (running s) (runnable s) (pending_deletion s) (tid_counter s) (tid_map s)
    (context_switch_count s) (context_switch_cum_cycles s) (context_switch_start s)
    (curr_proc_override s) p.
Definition with_override (p : option Z) (s : Scheduler) : Scheduler :=
  Sched (threads s) (brk s) (running s) (runnable s) (pending_deletion s) (tid_counter s) (tid_map s)
    (context_switch_count s) (context_switch_cum_cycles s) (context_switch_start s)
    p (address_space s).

(** [Scheduler::Scheduler()] *)
Definition Scheduler_ctor : Scheduler :=
  Sched ∅ 1 None [] None 0 {[InvalidTID := None]} 0 0 0 None None.

Definition get_thread (a : Z) : M Scheduler KernelThread :=
  s ← getS; liftO (deref (threads s !! a)).
Definition set_thread (a : Z) (t : KernelThread) : M Scheduler unit :=
  upd (λ s, with_threads (<[a := t]> (threads s)) s).

(** [new KernelThread(scheduler)] at a fresh address.  The constructor
    leaves [tid] and [proc] uninitialised: [raw] is what memory holds. *)
Definition new_KernelThread (raw : Z * option Z) : M Scheduler Z :=
  s ← getS;
  let a := brk s in
  _ ← putS (Sched (<[a := KThread 0 true raw.1 raw.2]> (threads s)) (a + 1) (running s) (runnable s)
              (pending_deletion s) (tid_counter s) (tid_map s) (context_switch_count s)
              (context_switch_cum_cycles s) (context_switch_start s) (curr_proc_override s)
              (address_space s));
  mret a.

(** [while (!tid_map.try_emplace(tid_counter++, new_thread).second)] *)
Fixpoint tid_loop (fuel : nat) (th : Z) : M Scheduler unit :=
  match fuel with
  | O => halt OutOfFuel
  | S fuel =>
    s ← getS;
    let c := tid_counter s in
    match tid_map s !! c with
    | Some _ => _ ← upd (with_tids (u16 (c + 1)) (tid_map s)); tid_loop fuel th
    | None => upd (with_tids (u16 (c + 1)) (<[c := Some th]> (tid_map s)))
    end
  end.

(** There are [2^16] thread IDs to try. *)
Definition assign_next_tid (th : Z) : M Scheduler unit :=
  s ← getS;
  _ ← assertM (negb (Z.of_nat (size (tid_map s)) =? 2 ^ 16 - 1));
  _ ← tid_loop (Z.to_nat (2 ^ 16)) th;
  s ← getS;
  t ← get_thread th;
  set_thread th (KThread (stack t) (th_runnable t) (u16 (tid_counter s - 1)) (proc t)).

Definition bootstrap (raw : Z * option Z) : M Scheduler Z :=
  s ← getS;
  _ ← assertM (bool_decide (running s = None));
  a ← new_KernelThread raw;
  _ ← upd (λ s, with_queue (Some a) (runnable s) s);
  _ ← assign_next_tid a;
  t ← get_thread a; mret (tid t).

(** [setup_stack] (assembly) leaves the stack pointer [stk] inside the
    new page; it is an argument. *)
Definition new_thread (raw : Z * option Z) (p : option Z) (stk : Z) : M Scheduler Z :=
  a ← new_KernelThread raw;
  _ ← assign_next_tid a;
  t ← get_thread a;
  _ ← set_thread a (KThread stk (th_runnable t) (tid t) p);
  _ ← upd (λ s, with_queue (running s) (runnable s ++ [a]) s);
  mret (tid t).

Definition choose_task : M Scheduler (option Z) :=
  s ← getS;
  r ← liftO (match running s with Some r => Ret r | None => Halt AssertFail end);
  match runnable s with
  | a :: _ => mret (Some a)
  | [] => t ← get_thread r; mret (if th_runnable t then Some r else None)
  end.

(** [thread->erase()] on the runnable list *)
Definition unlink (a : Z) (q : list Z) : list Z := filter (λ b, b ≠ a) q.

(** [delete_task]; the caller's argument is not null *)
Definition delete_task (th : Z) : M Scheduler unit :=
  t ← get_thread th;
  _ ← upd (λ s, with_queue (running s) (unlink th (runnable s)) s);
  _ ← upd (λ s, with_tids (tid_counter s) (delete (tid t) (tid_map s)) s);
  upd (λ s, with_threads (delete th (threads s)) s).

(** [print_stats] only prints, but divides by the switch count. *)
Definition print_stats : M Scheduler unit :=
  s ← getS; if context_switch_count s =? 0 then halt BadAccess else mret tt.

Definition post_context_switch_bookkeeping (now : Z) : M Scheduler unit :=
  s ← getS;
  let n := u32 (context_switch_count s + 1) in
  _ ← upd (with_times n (u64 (context_switch_cum_cycles s + u64 (now - context_switch_start s)))
             (context_switch_start s));
  _ ← (match pending_deletion s with
       | Some th => _ ← delete_task th; upd (with_pending None)
       | None => mret tt
       end);
  if n mod 100 =? 0 then print_stats else mret tt.

(** [schedule(switch_stack)]; [t0], [t1] are the two [rdtsc] readings.
    The lock only disables interrupts. *)
Definition schedule (t0 t1 : Z) : M Scheduler unit :=
  s ← getS;
  current_task ← liftO (match running s with Some r => Ret r | None => Halt AssertFail end);
  c ← choose_task;
  new_task ← liftO (match c with Some a => Ret a | None => Halt AssertFail end);
  if new_task =? current_task then mret tt
  else
    _ ← upd (λ s, with_queue (Some new_task) (unlink new_task (runnable s) ++ [current_task]) s);
    _ ← upd (λ s, with_times (context_switch_count s) (context_switch_cum_cycles s) t0 s);
    t ← get_thread new_task;
    _ ← (match proc t with Some p => upd (with_space (Some p)) | None => mret tt end);
    post_context_switch_bookkeeping t1.

(** [destroy_thread(thread, switch_stack)]; [None] is [nullptr] *)
Definition destroy_thread_ptr (thread : option Z) (t0 t1 : Z) : M Scheduler unit :=
  s ← getS;
  let thread := match thread with Some a => Some a | None => running s end in
  th ← liftO (match thread with Some a => Ret a | None => Halt AssertFail end);
  if bool_decide (running s = Some th) then
    t ← get_thread th;
    _ ← set_thread th (KThread (stack t) false (tid t) (proc t));
    _ ← assertM (bool_decide (pending_deletion s = None));
    _ ← upd (with_pending (Some th));
    schedule t0 t1
  else delete_task th.

(** [destroy_thread(ThreadID)] *)
Definition destroy_thread (id t0 t1 : Z) : M Scheduler unit :=
  s ← getS;
  a ← liftO (match tid_map s !! id with Some (Some a) => Ret a | _ => Halt AssertFail end);
  destroy_thread_ptr (Some a) t0 t1.

Definition curr_proc : M Scheduler (option Z) :=
  s ← getS;
  match curr_proc_override s with
  | Some p => mret (Some p)
  | None => match running s with
            | Some r => t ← get_thread r; mret (proc t)
            | None => mret None
            end
  end.
Definition override_curr_proc (p : option Z) : M Scheduler unit :=
  s ← getS;
  _ ← assertM (bool_decide (p ≠ None → curr_proc_override s = None));
  upd (with_override p).

(** ** Invariant *)

(** The threads in round-robin order, the running one first. *)
Definition queue (s : Scheduler) : list Z :=
  match running s with Some r => r :: runnable s | None => runnable s end.

(** Every thread of [q] is allocated and owns its TID; [ts] and [tm] are
    otherwise empty but for the dummy entry. *)
Definition tids_ok (ts : gmap Z KernelThread) (tm : gmap Z (option Z)) (q : list Z) : Prop :=
  NoDup q ∧ (∀ a, a ∈ q ↔ is_Some (ts !! a)) ∧
  tm !! InvalidTID = Some None ∧
  (∀ a t, ts !! a = Some t → tm !! tid t = Some (Some a)) ∧
  (∀ i a, tm !! i = Some (Some a) → ∃ t, ts !! a = Some t ∧ tid t = i) ∧
  (∀ i, tm !! i = Some None → i = InvalidTID) ∧
  Z.of_nat (size tm) < 2 ^ 16.

Definition sched_ok (s : Scheduler) : Prop :=
  tids_ok (threads s) (tid_map s) (queue s) ∧
  is_Some (running s) ∧ pending_deletion s = None ∧
  (∀ a t, threads s !! a = Some t → th_runnable t = true ∧ a < brk s) ∧
  0 ≤ tid_counter s < 2 ^ 16.

Lemma wp_upd f (Q : unit → Scheduler → Prop) s : Q tt (f s) → wp (upd f) Q s.
Proof. intros H. by apply wp_bind, wp_get, wp_put. Qed.

Lemma wp_get_thread a t (Q : KernelThread → Scheduler → Prop) s :
  threads s !! a = Some t → Q t s → wp (get_thread a) Q s.
Proof. intros Ht HQ. apply wp_bind, wp_get. by eapply wp_deref. Qed.

(** ** TID assignment *)

(** The first free TID from the counter on, [k] steps away. *)
Definition next_free (m : gmap Z (option Z)) (c : Z) (k : nat) : Prop :=
  m !! u16 (c + Z.of_nat k) = None ∧ ∀ j : nat, (j < k)%nat → is_Some (m !! u16 (c + Z.of_nat j)).

Lemma wp_tid_loop k th : ∀ n s,
  0 ≤ tid_counter s < 2 ^ 16 → next_free (tid_map s) (tid_counter s) k → (k < n)%nat →
  let i := u16 (tid_counter s + Z.of_nat k) in
  wp (tid_loop n th) (λ _ s', s' = with_tids (u16 (i + 1)) (<[i := Some th]> (tid_map s)) s) s.
Proof.
  induction k as [|k IH]; intros [|n] s Hc [Hfree Hused] Hn; try lia; cbv zeta; cbn [tid_loop];
    apply wp_bind, wp_get; cbv zeta.
  - rewrite Z.add_0_r, (wrap_small 16 (tid_counter s)) by done.
    rewrite Z.add_0_r, (wrap_small 16 (tid_counter s)) in Hfree by done. rewrite Hfree. by apply wp_upd.
  - destruct (Hused 0%nat) as [o Ho]; [lia|]. rewrite Z.add_0_r, wrap_small in Ho by done. rewrite Ho.
    apply wp_bind, wp_upd. set (s1 := with_tids (u16 (tid_counter s + 1)) (tid_map s) s).
    assert (Hsh : ∀ j : nat, u16 (tid_counter s1 + Z.of_nat j) = u16 (tid_counter s + Z.of_nat (S j))).
    { intros j. change (tid_counter s1) with (u16 (tid_counter s + 1)). unfold wrap.
      rewrite Zplus_mod_idemp_l. f_equal. lia. }
    rewrite <- Hsh. eapply wp_mono; [apply (IH n s1)|].
    + by apply (wrap_range 16).
    + split; [by rewrite Hsh|]. intros j Hj. rewrite Hsh. apply Hused. lia.
    + lia.
    + intros [] s' ->. done.
Qed.

(** With fewer than [2^16] entries, a free TID is less than [2^16] steps
    away. *)
Lemma next_free_exists (m : gmap Z (option Z)) c :
  Z.of_nat (size m) < 2 ^ 16 → ∃ k : nat, Z.of_nat k < 2 ^ 16 ∧ next_free m c k.
Proof.
  intros Hsz. destruct (decide (Exists (λ z, m !! u16 (c + z) = None) (seqZ 0 (2 ^ 16)))) as [Hex|Hno].
  - apply Exists_exists in Hex as (z & Hz%elem_of_seqZ & Hfree).
    cut (∀ n : nat, Z.of_nat n < 2 ^ 16 → m !! u16 (c + Z.of_nat n) = None →
      ∃ k : nat, Z.of_nat k < 2 ^ 16 ∧ next_free m c k).
    { intros Hc. apply (Hc (Z.to_nat z)); [lia|]. by replace (Z.of_nat (Z.to_nat z)) with z by lia. }
    clear. intros n. induction (lt_wf n) as [n _ IH]. intros Hn Hfree.
    destruct (decide (Exists (λ j : nat, m !! u16 (c + Z.of_nat j) = None) (seq 0 n))) as [Hex|Hno].
    + apply Exists_exists in Hex as (j & Hj%elem_of_seq & Hjf). apply (IH j); [lia|lia|done].
    + exists n. split; [done|]. split; [done|]. intros j Hj.
      destruct (m !! u16 (c + Z.of_nat j)) eqn:Hm; [by eexists|]. exfalso. apply Hno, Exists_exists.
      exists j. split; [apply elem_of_seq; lia|done].
  - exfalso. assert (Hall : (list_to_set (seqZ 0 (2 ^ 16)) : gset Z) ⊆ dom m).
    { intros i. rewrite elem_of_list_to_set, elem_of_seqZ, elem_of_dom. intros Hi.
      destruct (m !! i) eqn:Hm; [by eexists|]. exfalso. apply Hno, Exists_exists.
      exists (u16 (i - c)). split; [apply elem_of_seqZ; pose proof (wrap_range 16 (i - c)); lia|].
      unfold wrap. rewrite Zplus_mod_idemp_r. replace (c + (i - c)) with i by lia.
      by rewrite Z.mod_small by lia. }
    apply subseteq_size in Hall. rewrite size_list_to_set in Hall by apply NoDup_seqZ.
    rewrite length_seqZ, size_dom in Hall. lia.
Qed.

Lemma wp_assign_next_tid th t s :
  0 ≤ tid_counter s < 2 ^ 16 → Z.of_nat (size (tid_map s)) < 2 ^ 16 - 1 → threads s !! th = Some t →
  wp (assign_next_tid th) (λ _ s', ∃ k : nat, next_free (tid_map s) (tid_counter s) k ∧
    let i := u16 (tid_counter s + Z.of_nat k) in
    s' = with_threads (<[th := KThread (stack t) (th_runnable t) i (proc t)]> (threads s))
           (with_tids (u16 (i + 1)) (<[i := Some th]> (tid_map s)) s)) s.
Proof.
  intros Hc Hsz Ht. destruct (next_free_exists (tid_map s) (tid_counter s)) as (k & Hk & Hfree); [lia|].
  unfold assign_next_tid. apply wp_bind, wp_get, wp_bind, wp_assert.
  { apply negb_true_iff, Z.eqb_neq. lia. }
  apply wp_bind. eapply wp_mono; [apply (wp_tid_loop k); [done|done|lia]|].
  intros [] s1 ->. apply wp_bind, wp_get, wp_bind. eapply wp_get_thread; [done|]. apply wp_upd.
  exists k. split; [done|]. cbv zeta. set (i := u16 (tid_counter s + Z.of_nat k)).
  assert (Hi : u16 (u16 (i + 1) - 1) = i).
  { unfold wrap. rewrite Zminus_mod_idemp_l. replace (i + 1 - 1) with i by lia.
    apply Z.mod_small, (wrap_range 16). done. }
  simpl. rewrite Hi. done.
Qed.

(** ** How the thread table changes *)
Lemma tids_ok_perm ts tm q q' : tids_ok ts tm q → q' ≡ₚ q → tids_ok ts tm q'.
Proof.
  intros (Hnd & Hq & Hrest) Hp. split; [by rewrite Hp|]. split; [|done]. intros a. by rewrite Hp.
Qed.

Lemma tids_ok_add ts tm q a i t :
  tids_ok ts tm q → ts !! a = None → tm !! i = None → Z.of_nat (size tm) < 2 ^ 16 - 1 → tid t = i →
  tids_ok (<[a := t]> ts) (<[i := Some a]> tm) (a :: q).
Proof.
  intros (Hnd & Hq & Hinv & Ht & Hm & Hdummy & Hsz) Ha Hi Hlt Hti. split_and!.
  - constructor; [|done]. rewrite Hq, Ha. by intros [? ?].
  - intros b. rewrite elem_of_cons, Hq, lookup_insert_is_Some'. split; (intros [->|?]; [by left|by right]).
  - rewrite lookup_insert_ne; [done|]. intros ->. congruence.
  - intros b u. rewrite lookup_insert_Some. intros [[<- <-]|[Hne Hb]].
    + rewrite Hti. apply lookup_insert_eq.
    + apply Ht in Hb. rewrite lookup_insert_ne; [done|]. intros Heq. rewrite <- Heq in Hb. congruence.
  - intros j b. rewrite lookup_insert_Some. intros [[<- [= <-]]|[Hne Hj]].
    + exists t. by rewrite lookup_insert_eq.
    + destruct (Hm _ _ Hj) as (u & Hu & <-). exists u. split; [|done].
      rewrite lookup_insert_ne; [done|]. intros ->. congruence.
  - intros j. rewrite lookup_insert_Some. intros [[_ ?]|[_ Hj]]; [done|]. by apply Hdummy.
  - rewrite map_size_insert_None by done. lia.
Qed.

Lemma tids_ok_remove ts tm q a t :
  tids_ok ts tm (a :: q) → ts !! a = Some t → tids_ok (delete a ts) (delete (tid t) tm) q.
Proof.
  intros (Hnd & Hq & Hinv & Ht & Hm & Hdummy & Hsz) Ha. apply NoDup_cons in Hnd as [Hn Hnd].
  pose proof (Ht _ _ Ha) as Hta. split_and!.
  - done.
  - intros b. specialize (Hq b). rewrite elem_of_cons in Hq. rewrite lookup_delete_is_Some.
    split.
    + intros Hb. split; [by intros ->|]. apply Hq. by right.
    + intros [Hne Hb]. apply Hq in Hb as [->|]; done.
  - rewrite lookup_delete_ne; [done|]. intros Heq. rewrite Heq in Hta. congruence.
  - intros b u. rewrite lookup_delete_Some. intros [Hne Hb]. pose proof (Ht _ _ Hb).
    rewrite lookup_delete_ne; [done|]. intros Heq. rewrite Heq in Hta. congruence.
  - intros j b. rewrite lookup_delete_Some. intros [Hne Hj]. destruct (Hm _ _ Hj) as (u & Hu & <-).
    exists u. split; [|done]. rewrite lookup_delete_ne; [done|]. intros <-. congruence.
  - intros j. rewrite lookup_delete_Some. intros [_ Hj]. by apply Hdummy.
  - rewrite map_size_delete, Hta. lia.
Qed.

Lemma tids_ok_update ts tm q a t t' :
  tids_ok ts tm q → ts !! a = Some t → tid t' = tid t → tids_ok (<[a := t']> ts) tm q.
Proof.
  intros (Hnd & Hq & Hinv & Ht & Hm & Hdummy & Hsz) Ha Htt. split_and!; try done.
  - intros b. rewrite Hq, lookup_insert_is_Some'. split; [by right|]. intros [<-|?]; [by eexists|done].
  - intros b u. rewrite lookup_insert_Some. intros [[<- <-]|[_ Hb]]; [rewrite Htt|]; by apply Ht.
  - intros j b Hj. destruct (Hm _ _ Hj) as (u & Hu & <-). destruct (decide (a = b)) as [<-|Hne].
    + exists t'. rewrite lookup_insert_eq. split; [done|]. congruence.
    + exists u. by rewrite lookup_insert_ne.
Qed.

Lemma queue_unlink_notin a q : a ∉ q → unlink a q = q.
Proof.
  intros Ha. unfold unlink. induction q as [|b q IH]; [done|]. apply not_elem_of_cons in Ha as [? ?].
  rewrite filter_cons_True by congruence. by rewrite IH.
Qed.

Lemma unlink_head a q : a ∉ q → unlink a (a :: q) = q.
Proof.
  intros Ha. unfold unlink. rewrite filter_cons_False by (intros Hn; by apply Hn). by apply queue_unlink_notin.
Qed.

Lemma queue_unlink_last a q : a ∉ q → unlink a (q ++ [a]) = q.
Proof.
  intros Ha. unfold unlink. rewrite filter_app, filter_cons_False by (intros Hn; by apply Hn).
  rewrite app_nil_r. by apply queue_unlink_notin.
Qed.

(** Removing one element of a duplicate-free list. *)
Lemma unlink_perm a q : NoDup q → a ∈ q → a :: unlink a q ≡ₚ q.
Proof.
  intros Hnd (l1 & l2 & ->)%list_elem_of_split. apply NoDup_app in Hnd as (_ & Hd & Hnd).
  apply NoDup_cons in Hnd as [Hn _]. unfold unlink. rewrite filter_app.
  rewrite filter_cons_False by (intros Hc; by apply Hc). fold (unlink a l1) (unlink a l2).
  rewrite !queue_unlink_notin by (done || (intros Hin; apply (Hd a Hin); left)). by rewrite Permutation_middle.
Qed.

(** ** Operations *)
Ltac sfields := cbn [threads brk running runnable pending_deletion tid_counter tid_map
  context_switch_count context_switch_cum_cycles context_switch_start curr_proc_override
  address_space with_threads with_queue with_pending with_tids with_times with_space with_override
  stack th_runnable tid proc].

(** A new thread is registered under the next free TID and runs last. *)
Lemma wp_new_thread raw p stk s :
  sched_ok s → Z.of_nat (size (tid_map s)) < 2 ^ 16 - 1 →
  wp (new_thread raw p stk) (λ i s', sched_ok s' ∧ queue s' = queue s ++ [brk s] ∧
    (∃ k, next_free (tid_map s) (tid_counter s) k ∧ i = u16 (tid_counter s + Z.of_nat k)) ∧
    threads s' = <[brk s := KThread stk true i p]> (threads s) ∧
    tid_counter s' = u16 (i + 1) ∧
    context_switch_count s' = context_switch_count s ∧ size (tid_map s') = S (size (tid_map s))) s.
Proof.
  intros (Hok & Hrun & Hpend & Hth & Hc) Hsz.
  assert (Hfresh : threads s !! brk s = None).
  { destruct (threads s !! brk s) eqn:Hb; [|done]. apply Hth in Hb as [_ ?]. lia. }
  unfold new_thread. apply wp_bind. unfold new_KernelThread. apply wp_bind, wp_get, wp_bind, wp_put, wp_ret.
  apply wp_bind. eapply wp_mono; [eapply wp_assign_next_tid; [done|done|apply lookup_insert_eq]|].
  intros [] s1 (k & Hfree & ->). cbn [threads with_threads stack th_runnable proc tid_map tid_counter] in *.
  set (i := u16 (tid_counter s + Z.of_nat k)). apply wp_bind.
  eapply wp_get_thread; [apply lookup_insert_eq|]. apply wp_bind, wp_upd, wp_bind, wp_upd, wp_ret.
  sfields. rewrite !insert_insert_eq.
  split; [|split_and!; [unfold queue; sfields; by destruct (running s)|by exists k|done|done|done|
    rewrite map_size_insert_None by apply Hfree; done]].
  unfold sched_ok. sfields. split_and!; [|done|done| |by apply (wrap_range 16)..].
  - eapply tids_ok_perm; [apply (tids_ok_add _ _ (queue s) (brk s) i); [done|done|apply Hfree|done|done]|].
    unfold queue. sfields. destruct (running s); simpl; [|by rewrite Permutation_app_comm].
    by rewrite perm_swap, (Permutation_app_comm (runnable s)).
  - intros a t. rewrite lookup_insert_Some. intros [[<- <-]|[_ Ha]]; simpl; [split; [done|lia]|].
    apply Hth in Ha as [? ?]. split; [done|lia].
Qed.

(** Both users of [delete_task] in terms of the tables. *)
Lemma wp_delete_task th t s (Q : unit → Scheduler → Prop) :
  threads s !! th = Some t →
  Q tt (with_threads (delete th (threads s))
         (with_tids (tid_counter s) (delete (tid t) (tid_map s))
           (with_queue (running s) (unlink th (runnable s)) s))) →
  wp (delete_task th) Q s.
Proof.
  intros Ht HQ. unfold delete_task. apply wp_bind. eapply wp_get_thread; [done|].
  apply wp_bind, wp_upd, wp_bind, wp_upd, wp_upd. done.
Qed.

(** The rest of a context switch, once the queue has been rotated. *)
Lemma wp_bookkeeping now s (Q : unit → Scheduler → Prop) :
  0 ≤ context_switch_count s < 2 ^ 32 - 1 →
  (let s1 := with_times (context_switch_count s + 1)
               (u64 (context_switch_cum_cycles s + u64 (now - context_switch_start s)))
               (context_switch_start s) s in
   match pending_deletion s with
   | None => Q tt s1
   | Some th => ∃ t, threads s !! th = Some t ∧
       Q tt (with_pending None (with_threads (delete th (threads s))
              (with_tids (tid_counter s) (delete (tid t) (tid_map s))
                (with_queue (running s) (unlink th (runnable s)) s1))))
   end) →
  wp (post_context_switch_bookkeeping now) Q s.
Proof.
  intros Hn HQ. unfold post_context_switch_bookkeeping. apply wp_bind, wp_get. cbv zeta.
  rewrite wrap_small by lia. apply wp_bind, wp_upd, wp_bind. cbv zeta in HQ.
  assert (Hps : ∀ s', context_switch_count s' = context_switch_count s + 1 → Q tt s' →
    wp (if (context_switch_count s + 1) mod 100 =? 0 then print_stats else mret tt) Q s').
  { intros s' Hs' HQ'. destruct (_ =? 0); [|done]. unfold print_stats. apply wp_bind, wp_get.
    rewrite Hs', (proj2 (Z.eqb_neq _ _)) by lia. done. }
  destruct (pending_deletion s) as [th|]; [|apply wp_ret; by apply Hps].
  destruct HQ as (t & Ht & HQ). apply wp_bind. eapply wp_delete_task; [done|]. apply wp_upd.
  by apply Hps.
Qed.

(** [schedule] with a queue [r :: x :: q], a pending deletion being [r]. *)
Lemma wp_schedule t0 t1 s r x q tx (Q : unit → Scheduler → Prop) :
  running s = Some r → runnable s = x :: q → NoDup (r :: x :: q) → threads s !! x = Some tx →
  0 ≤ context_switch_count s < 2 ^ 32 - 1 →
  (∀ s', brk s' = brk s → tid_counter s' = tid_counter s → running s' = Some x →
     pending_deletion s' = None → context_switch_count s' = context_switch_count s + 1 →
     match pending_deletion s with
     | None => runnable s' = q ++ [r] ∧ threads s' = threads s ∧ tid_map s' = tid_map s
     | Some th => th = r ∧ ∃ tr, threads s !! r = Some tr ∧ runnable s' = q ∧
         threads s' = delete r (threads s) ∧ tid_map s' = delete (tid tr) (tid_map s)
     end → Q tt s') →
  (∀ th, pending_deletion s = Some th → th = r ∧ is_Some (threads s !! r)) →
  wp (schedule t0 t1) Q s.
Proof.
  intros Hr Hq Hnd Hx Hn HQ Hpd. apply NoDup_cons in Hnd as [Hrn Hnd]. apply NoDup_cons in Hnd as [Hxn Hnd].
  apply not_elem_of_cons in Hrn as [Hrx Hrq].
  unfold schedule. apply wp_bind, wp_get, wp_bind. eapply wp_lift; [by rewrite Hr|].
  apply wp_bind. unfold choose_task. apply wp_bind, wp_get, wp_bind.
  eapply wp_lift; [by rewrite Hr|]. rewrite Hq. apply wp_ret, wp_bind. eapply wp_lift; [done|].
  rewrite (proj2 (Z.eqb_neq _ _)) by done. apply wp_bind, wp_upd, wp_bind, wp_upd, wp_bind.
  eapply wp_get_thread; [done|]. rewrite Hq, unlink_head by done. apply wp_bind.
  assert (Hfin : ∀ s1, running s1 = Some x → runnable s1 = q ++ [r] → threads s1 = threads s →
    tid_map s1 = tid_map s → tid_counter s1 = tid_counter s → pending_deletion s1 = pending_deletion s →
    brk s1 = brk s → context_switch_count s1 = context_switch_count s →
    wp (post_context_switch_bookkeeping t1) Q s1).
  { intros s1 H1 H2 H3 H4 H5 H6 H7 H8. apply wp_bookkeeping; [by rewrite H8|]. cbv zeta. rewrite H6.
    destruct (pending_deletion s) as [th|] eqn:Hp.
    - destruct (Hpd th eq_refl) as [-> [tr Htr]]. exists tr. rewrite H3. split; [done|].
      apply HQ; simpl; try congruence. split; [done|]. exists tr. rewrite H2, H4, queue_unlink_last by done. done.
    - apply HQ; simpl; try congruence. done. }
  destruct (proc tx); [apply wp_upd|apply wp_ret]; by apply Hfin.
Qed.

Definition rotate1 {A} (q : list A) : list A :=
  match q with [] => [] | r :: q => q ++ [r] end.

Lemma rotate1_perm {A} (q : list A) : rotate1 q ≡ₚ q.
Proof. destruct q as [|r q]; [done|]. simpl. by rewrite Permutation_app_comm. Qed.

Lemma wp_schedule_ok t0 t1 s :
  sched_ok s → 0 ≤ context_switch_count s < 2 ^ 32 - 1 →
  wp (schedule t0 t1) (λ _ s', sched_ok s' ∧ queue s' = rotate1 (queue s) ∧
    threads s' = threads s ∧ tid_map s' = tid_map s ∧ tid_counter s' = tid_counter s ∧
    0 ≤ context_switch_count s' ≤ context_switch_count s + 1) s.
Proof.
  intros (Hok & [r Hr] & Hpend & Hth & Hc) Hn. unfold queue in *. rewrite Hr in *.
  pose proof Hok as (Hnd & Hq & _). destruct (runnable s) as [|x q] eqn:Hrun.
  - destruct (proj1 (Hq r)) as [t Ht]; [left|]. unfold schedule, choose_task.
    apply wp_bind, wp_get, wp_bind. eapply wp_lift; [by rewrite Hr|].
    apply wp_bind, wp_bind, wp_get, wp_bind. eapply wp_lift; [by rewrite Hr|]. rewrite Hrun.
    apply wp_bind. eapply wp_get_thread; [done|]. rewrite (proj1 (Hth _ _ Ht)). apply wp_ret, wp_bind.
    eapply wp_lift; [done|]. rewrite Z.eqb_refl. apply wp_ret. unfold sched_ok, queue.
    rewrite Hr, Hrun. split; [split_and!; [done|by eexists|done|done|lia|lia]|split_and!; (done || lia)].
  - destruct (proj1 (Hq x)) as [tx Hx]; [right; left|].
    eapply wp_schedule; [done|done|done|exact Hx|done| |congruence].
    rewrite Hpend. intros s' Hb Htc Hr' Hp' Hn' (Hrun' & Hts & Htm). unfold sched_ok, queue.
    rewrite Hr', Hrun', Hts, Htm, Hb, Htc, Hn'. split; [|split_and!; (done || lia)].
    split_and!; [|by eexists|done|done|lia|lia].
    eapply tids_ok_perm; [done|]. apply (rotate1_perm (r :: x :: q)).
Qed.

Lemma wp_destroy_thread i a t0 t1 s :
  sched_ok s → tid_map s !! i = Some (Some a) → queue s ≠ [a] →
  0 ≤ context_switch_count s < 2 ^ 32 - 1 →
  wp (destroy_thread i t0 t1) (λ _ s', sched_ok s' ∧ queue s' = unlink a (queue s) ∧
    threads s' = delete a (threads s) ∧ tid_map s' = delete i (tid_map s) ∧
    tid_counter s' = tid_counter s ∧
    0 ≤ context_switch_count s' ≤ context_switch_count s + 1) s.
Proof.
  intros (Hok & [r Hr] & Hpend & Hth & Hc) Hi Hne Hn.
  pose proof Hok as (Hnd & Hq & _ & _ & Hm & _). destruct (Hm _ _ Hi) as (t & Ht & <-).
  assert (Ha : a ∈ queue s) by (apply Hq; by eexists).
  unfold destroy_thread. apply wp_bind, wp_get, wp_bind. eapply wp_lift; [by rewrite Hi|].
  unfold destroy_thread_ptr. apply wp_bind, wp_get. cbv zeta. apply wp_bind. eapply wp_lift; [done|].
  case_bool_decide as Hcur.
  - rewrite Hr in Hcur. injection Hcur as ->. unfold queue in *. rewrite Hr in *.
    destruct (runnable s) as [|x q] eqn:Hrun; [done|].
    destruct (proj1 (Hq x)) as [tx Hx]; [right; left|].
    pose proof Hnd as [Hax _]%NoDup_cons. apply not_elem_of_cons in Hax as [Hax Haq].
    apply wp_bind. eapply wp_get_thread; [done|]. apply wp_bind, wp_upd, wp_bind, wp_assert; [by apply bool_decide_eq_true|].
    apply wp_bind, wp_upd. eapply (wp_schedule _ _ _ a x q tx); sfields; [done|done|done| |done| |].
    + by rewrite lookup_insert_ne.
    + intros s' Hb Htc Hr' Hp' Hn' (_ & tr & Htr & Hrun' & Hts & Htm). revert Htr Hts Htm. sfields.
      rewrite lookup_insert_eq, delete_insert_eq. intros [= <-] Hts Htm. sfields. revert Htm. sfields. intros Htm.
      unfold sched_ok, queue. rewrite Hr', Hrun', Hts, Htm, unlink_head by (by apply not_elem_of_cons).
      split; [|split_and!; (done || lia)].
      split_and!; [by eapply tids_ok_remove|by eexists|done| |rewrite Htc; lia..].
      intros b tb. rewrite lookup_delete_Some, Hb. intros [_ ?]. by apply (Hth b).
    + intros th [= <-]. split; [done|]. rewrite lookup_insert_eq. by eexists.
  - eapply wp_delete_task; [done|]. unfold sched_ok, queue in *. sfields. rewrite Hr in *.
    assert (a ≠ r) by congruence.
    assert (Hul : unlink a (r :: runnable s) = r :: unlink a (runnable s)).
    { unfold unlink. by rewrite filter_cons_True. }
    rewrite Hul. split; [|split_and!; (done || lia)].
    split_and!; [|by eexists|done| |lia|lia].
    + eapply tids_ok_remove; [|done]. eapply tids_ok_perm; [done|]. rewrite <- Hul. by apply unlink_perm.
    + intros b tb. rewrite lookup_delete_Some. intros [_ ?]. by apply (Hth b).
Qed.

(** ** Abstract specification: a ring of thread IDs *)
Inductive sop :=
| ONew (raw : Z * option Z) (p : option Z) (stk : Z)
| OSchedule (t0 t1 : Z)
| ODestroy (id t0 t1 : Z).

Definition run_sop (o : sop) : M Scheduler unit :=
  match o with
  | ONew raw p stk => _ ← new_thread raw p stk; mret tt
  | OSchedule t0 t1 => schedule t0 t1
  | ODestroy id t0 t1 => destroy_thread id t0 t1
  end.
Fixpoint run_sops (os : list sop) : M Scheduler unit :=
  match os with [] => mret tt | o :: os => _ ← run_sop o; run_sops os end.

(** A state is the ring, the running thread's ID first, and the ID
    counter.  A new thread takes the first ID from the counter on that is
    neither in use nor the invalid ID, and goes to the end of the ring. *)
Abbreviation ring := (list Z * Z)%type.
Definition in_use (ids : list Z) (i : Z) : Prop := i = InvalidTID ∨ i ∈ ids.

Inductive spec_step : ring → sop → ring → Prop :=
| spec_new ids c k raw p stk :
    zlen ids + 1 < 2 ^ 16 - 1 →
    ¬ in_use ids (u16 (c + Z.of_nat k)) →
    (∀ j : nat, (j < k)%nat → in_use ids (u16 (c + Z.of_nat j))) →
    spec_step (ids, c) (ONew raw p stk)
              (ids ++ [u16 (c + Z.of_nat k)], u16 (u16 (c + Z.of_nat k) + 1))
| spec_schedule ids c t0 t1 :
    spec_step (ids, c) (OSchedule t0 t1) (rotate1 ids, c)
| spec_destroy ids c id t0 t1 :
    id ∈ ids → ids ≠ [id] →
    spec_step (ids, c) (ODestroy id t0 t1) (filter (λ j, j ≠ id) ids, c).

Inductive spec_steps : ring → list sop → ring → Prop :=
| spec_nil st : spec_steps st [] st
| spec_cons st o st1 os st2 : spec_step st o st1 → spec_steps st1 os st2 → spec_steps st (o :: os) st2.

(** The IDs of the threads of a queue. *)
Definition ids_of (ts : gmap Z KernelThread) (q : list Z) (ids : list Z) : Prop :=
  Forall2 (λ a i, ∃ t, ts !! a = Some t ∧ tid t = i) q ids.

Definition implements (s : Scheduler) (st : ring) : Prop :=
  sched_ok s ∧ ids_of (threads s) (queue s) st.1 ∧ tid_counter s = st.2.

Lemma ids_of_elem ts tm q ids i :
  tids_ok ts tm q → ids_of ts q ids → is_Some (tm !! i) ↔ in_use ids i.
Proof.
  intros (Hnd & Hq & Hinv & Ht & Hm & Hd & _) Hids. unfold in_use. split.
  - intros [[a|] Hi]; [right|left; by apply Hd]. destruct (Hm _ _ Hi) as (t & Hta & <-).
    assert (a ∈ q) as [n Hn]%list_elem_of_lookup by (apply Hq; by eexists).
    destruct (Forall2_lookup_l _ _ _ _ _ Hids Hn) as (j & Hj & u & Hu & <-). simplify_eq.
    by eapply list_elem_of_lookup_2.
  - intros [->|[n Hn]%list_elem_of_lookup]; [by eexists|].
    destruct (Forall2_lookup_r _ _ _ _ _ Hids Hn) as (a & Ha & t & Hta & <-).
    exists (Some a). by apply Ht.
Qed.

Lemma ids_of_NoDup ts tm q ids : tids_ok ts tm q → ids_of ts q ids → NoDup ids.
Proof.
  intros (Hnd & Hq & _ & Ht & _) Hids. apply NoDup_alt. intros m n i Hm Hn.
  destruct (Forall2_lookup_r _ _ _ _ _ Hids Hm) as (a & Ha & t & Hta & Hti).
  destruct (Forall2_lookup_r _ _ _ _ _ Hids Hn) as (b & Hb & u & Hub & Hui).
  apply Ht in Hta, Hub. rewrite Hti in Hta. rewrite Hui in Hub. simplify_eq.
  by eapply NoDup_lookup.
Qed.

Lemma ids_of_size ts tm q ids : tids_ok ts tm q → ids_of ts q ids → size tm = S (length ids).
Proof.
  intros Hok Hids. pose proof (ids_of_NoDup _ _ _ _ Hok Hids) as Hnd.
  pose proof Hok as (_ & _ & Hinv & Ht & _).
  assert (Hn : InvalidTID ∉ ids).
  { intros [n Hn]%list_elem_of_lookup. destruct (Forall2_lookup_r _ _ _ _ _ Hids Hn) as (a & _ & t & Hta & Hti).
    apply Ht in Hta. congruence. }
  rewrite <- size_dom. transitivity (size (list_to_set (InvalidTID :: ids) : gset Z)).
  - f_equal. apply set_eq. intros i. rewrite elem_of_dom, elem_of_list_to_set, elem_of_cons.
    by apply ids_of_elem with (ts := ts) (q := q).
  - by rewrite size_list_to_set by (by constructor).
Qed.

Lemma ids_of_mono ts ts' q ids :
  ids_of ts q ids → (∀ a, a ∈ q → ts' !! a = ts !! a) → ids_of ts' q ids.
Proof.
  intros Hids Hsame. apply Forall2_same_length_lookup_2; [by eapply Forall2_length|].
  intros n a i Ha Hi. rewrite Hsame by (by eapply list_elem_of_lookup_2).
  by eapply (Forall2_lookup_lr _ _ _ _ _ _ Hids).
Qed.

Lemma ids_of_rotate ts q ids : ids_of ts q ids → ids_of ts (rotate1 q) (rotate1 ids).
Proof. intros H. destruct H; [constructor|]. apply Forall2_app; [done|]. by repeat constructor. Qed.

(** Dropping one thread drops exactly its ID. *)
Lemma ids_of_unlink ts tm q ids a t :
  tids_ok ts tm q → ids_of ts q ids → ts !! a = Some t →
  ids_of (delete a ts) (unlink a q) (filter (λ j, j ≠ tid t) ids).
Proof.
  intros (_ & _ & _ & Ht & _) Hids Ha. unfold unlink. induction Hids as [|b i q ids (u & Hu & Hui) _ IH]; [constructor|].
  destruct (decide (b = a)) as [->|Hne].
  - simplify_eq. rewrite !filter_cons_False by (intros Hn; by apply Hn). done.
  - assert (i ≠ tid t). { intros ->. apply Ht in Hu, Ha. congruence. }
    rewrite !filter_cons_True by done. constructor; [|done]. exists u. by rewrite lookup_delete_ne.
Qed.

Lemma next_free_det m c k k' : next_free m c k → next_free m c k' → k = k'.
Proof.
  intros [Hk Hl] [Hk' Hl']. destruct (Nat.lt_trichotomy k k') as [Hlt|[?|Hlt]]; [|done|].
  - destruct (Hl' k Hlt). congruence.
  - destruct (Hl k' Hlt). congruence.
Qed.

Lemma spec_step_sim s st o st' :
  implements s st → spec_step st o st' → 0 ≤ context_switch_count s < 2 ^ 32 - 1 →
  wp (run_sop o) (λ _ s', implements s' st' ∧
    0 ≤ context_switch_count s' ≤ context_switch_count s + 1) s.
Proof.
  intros (Hok & Hids & Hc) Hstep Hn. pose proof Hok as (Htok & Hrun & Hpend & Hth & Hcr).
  destruct Hstep as [ids c k raw p stk Hlen Hfree Hused|ids c t0 t1|ids c id t0 t1 Hid Hne]; simpl in *.
  - apply wp_bind. pose proof (ids_of_size _ _ _ _ Htok Hids) as Hsz.
    eapply wp_mono; [apply wp_new_thread; [done|lia]|].
    intros i s' (Hok' & Hq' & (k' & Hk' & ->) & Hts' & Hctr & Hcnt & _). apply wp_ret.
    assert (Hkk : next_free (tid_map s) (tid_counter s) k).
    { rewrite Hc. split.
      - apply eq_None_not_Some. rewrite ids_of_elem by done. done.
      - intros j Hj. rewrite ids_of_elem by done. by apply Hused. }
    rewrite (next_free_det _ _ _ _ Hk' Hkk) in *. rewrite Hc in *. clear k' Hk'.
    split; [|rewrite Hcnt; lia]. split_and!; [done| |].
    + rewrite Hq', Hts'. simpl. apply Forall2_app.
      * eapply ids_of_mono; [done|]. intros a Ha. rewrite lookup_insert_ne; [done|].
        apply Htok in Ha as [t Ht]. apply Hth in Ht as [_ ?]. lia.
      * repeat constructor. eexists. by rewrite lookup_insert_eq.
    + done.
  - eapply wp_mono; [by apply wp_schedule_ok|]. intros [] s' (Hok' & Hq' & Hts' & _ & Hc' & Hcnt).
    split; [|done]. split_and!; [done| |by rewrite Hc']. rewrite Hq', Hts'. by apply ids_of_rotate.
  - apply list_elem_of_lookup in Hid as [n Hid].
    destruct (Forall2_lookup_r _ _ _ _ _ Hids Hid) as (a & Ha & t & Hta & Hti).
    pose proof Htok as (_ & _ & _ & Htm & _). pose proof (Htm _ _ Hta) as Hi. rewrite Hti in Hi.
    eapply wp_mono; [eapply wp_destroy_thread; [done|exact Hi| |done]|].
    + intros Hq. rewrite Hq in Hids. inversion Hids as [|? j ? l (u & Hu & Hui) Hl]; subst.
      inversion Hl; subst. simplify_eq.
    + intros [] s' (Hok' & Hq' & Hts' & _ & Hc' & Hcnt). split; [|done].
      split_and!; [done| |by rewrite Hc']. rewrite Hq', Hts'. subst id. by eapply ids_of_unlink.
Qed.

Lemma spec_steps_sim os st st' s :
  implements s st → spec_steps st os st' → 0 ≤ context_switch_count s →
  context_switch_count s + zlen os < 2 ^ 32 →
  wp (run_sops os) (λ _ s', implements s' st' ∧
    0 ≤ context_switch_count s' ≤ context_switch_count s + zlen os) s.
Proof.
  intros Him Hsteps. revert s Him. induction Hsteps as [st|st o st1 os st2 Hstep _ IH];
    intros s Him H0 Hb; cbn [run_sops]; [apply wp_ret; split; [done|simpl; lia]|]. simpl length in *.
  apply wp_bind. eapply wp_mono; [eapply spec_step_sim; [done|done|lia]|].
  intros [] s' [Him' Hc]. eapply wp_mono; [apply IH; [done|lia|lia]|].
  intros [] s'' [? ?]. split; [done|lia].
Qed.

Lemma wp_bootstrap raw :
  wp (bootstrap raw) (λ i s, i = 0 ∧ implements s ([0], 1) ∧ context_switch_count s = 0) Scheduler_ctor.
Proof.
  unfold bootstrap. apply wp_bind, wp_get, wp_bind, wp_assert; [done|]. apply wp_bind.
  unfold new_KernelThread. apply wp_bind, wp_get, wp_bind, wp_put, wp_ret, wp_bind, wp_upd, wp_bind. sfields.
  change (brk Scheduler_ctor) with 1. change (threads Scheduler_ctor) with (∅ : gmap Z KernelThread).
  eapply wp_mono; [eapply wp_assign_next_tid; sfields; [done|done|apply lookup_insert_eq]|].
  sfields. intros [] s (k & Hfree & ->).
  assert (k = 0%nat) as ->.
  { eapply next_free_det; [exact Hfree|]. split; [done|lia]. }
  apply wp_bind. eapply wp_get_thread; [apply lookup_insert_eq|]. apply wp_ret. split; [done|].
  split; [|done]. sfields. rewrite insert_insert_eq.
  split_and!; [split_and!|by repeat econstructor|done].
  - unfold queue. sfields. change (runnable Scheduler_ctor) with (@nil Z). split_and!.
    + apply NoDup_singleton.
    + intros a. rewrite list_elem_of_singleton, lookup_insert_is_Some', lookup_empty.
      split; [by intros ->; left|]. intros [<-|[? ?]]; done.
    + done.
    + intros a t. rewrite lookup_insert_Some. intros [[<- <-]|[_ ?]]; done.
    + intros i a. change (tid_map Scheduler_ctor) with ({[InvalidTID := None]} : gmap Z (option Z)).
      rewrite lookup_insert_Some, lookup_singleton_Some. intros [[<- [= <-]]|[_ [_ ?]]]; [|done].
      eexists. split; [apply lookup_insert_eq|done].
    + intros i. change (tid_map Scheduler_ctor) with ({[InvalidTID := None]} : gmap Z (option Z)).
      rewrite lookup_insert_Some, lookup_singleton_Some. intros [[_ ?]|[_ [<- _]]]; done.
    + done.
  - by eexists.
  - done.
  - intros a t. sfields. rewrite lookup_insert_Some. intros [[<- <-]|[_ ?]]; [|done]. split; [done|]. simpl. lia.
  - done.
  - done.
Qed.

(** A history from [bootstrap] completes in a state that implements the ring. *)
Lemma run_from_bootstrap raw os st :
  spec_steps ([0], 1) os st → zlen os < 2 ^ 32 →
  ∃ s, (_ ← bootstrap raw; run_sops os) Scheduler_ctor = Ret (tt, s) ∧ implements s st ∧
    0 ≤ context_switch_count s ≤ zlen os.
Proof.
  intros Hsteps Hn.
  assert (wp (_ ← bootstrap raw; run_sops os)
    (λ _ s, implements s st ∧ 0 ≤ context_switch_count s ≤ zlen os) Scheduler_ctor)
    as ([] & s & Hrun & Him)%wp_run.
  { apply wp_bind. eapply wp_mono; [apply wp_bootstrap|]. intros i s (_ & Him & Hc).
    eapply wp_mono; [eapply spec_steps_sim; [done|done|lia|lia]|].
    intros [] s' [? ?]. split; [done|lia]. }
  by exists s.
Qed.

(** C10: the scheduler implements a ring of threads: after [bootstrap],
    every history of thread creations, yields and destructions that the
    ring specification allows completes without failing an assertion,
    and the queue (running thread first) then holds exactly the threads
    of the ring in its order; every live thread is found under its own
    ID, the IDs are pairwise distinct and none is the invalid ID. *)
Theorem scheduler_refines raw os ids c :
  spec_steps ([0], 1) os (ids, c) → zlen os < 2 ^ 32 →
  ∃ s, (_ ← bootstrap raw; run_sops os) Scheduler_ctor = Ret (tt, s) ∧
    ids_of (threads s) (queue s) ids ∧ NoDup ids ∧ (InvalidTID ∉ ids) ∧
    (∀ a t, threads s !! a = Some t → tid_map s !! tid t = Some (Some a)) ∧
    size (threads s) = length ids ∧ pending_deletion s = None.
Proof.
  intros Hsteps Hn.
  destruct (run_from_bootstrap raw _ _ Hsteps Hn) as (s & Hrun & ((Htok & _ & Hpend & _) & Hids & _) & _).
  simpl in Hids. exists s. pose proof Htok as (Hnd & Hq & Hinv & Ht & _).
  split_and!; [done|done|by eapply ids_of_NoDup| |done| |done].
  - intros [n Hn']%list_elem_of_lookup.
    destruct (Forall2_lookup_r _ _ _ _ _ Hids Hn') as (a & _ & t & Hta & Hti). apply Ht in Hta. congruence.
  - rewrite <- (Forall2_length _ _ _ Hids), <- size_dom, <- (size_list_to_set (C := gset Z) (queue s)) by done.
    f_equal. apply set_eq. intros a. by rewrite elem_of_dom, elem_of_list_to_set, Hq.
Qed.

Lemma scheduler_refines_witness :
  ∃ s, (_ ← bootstrap (7, Some 9);
        run_sops [ONew (0, None) None 100; ONew (0, None) (Some 5) 200; OSchedule 0 3; ODestroy 1 4 5])
         Scheduler_ctor = Ret (tt, s) ∧
    ids_of (threads s) (queue s) [2; 0] ∧ size (threads s) = 2%nat.
Proof.
  destruct (scheduler_refines (7, Some 9)
    [ONew (0, None) None 100; ONew (0, None) (Some 5) 200; OSchedule 0 3; ODestroy 1 4 5] [2; 0] 3)
    as (s & Hrun & Hids & _ & _ & _ & Hsz & _).
  - eapply spec_cons; [apply (spec_new [0] 1 0); [done| |lia]|].
    { intros [?|Hin]; [done|]. apply list_elem_of_singleton in Hin. done. }
    eapply spec_cons; [apply (spec_new [0; 1] 2 0); [done| |lia]|].
    { intros [?|Hin]; [done|]. apply elem_of_cons in Hin as [?|Hin]; [done|].
      apply list_elem_of_singleton in Hin. done. }
    eapply spec_cons; [apply spec_schedule|].
    eapply spec_cons; [apply spec_destroy; [left|done]|]. apply spec_nil.
  - simpl; lia.
  - exists s. split; [exact Hrun|]. split; [exact Hids|exact Hsz].
Defined.

(** ** Fairness *)
Fixpoint schedule_n (n : nat) (t0 t1 : Z) : M Scheduler unit :=
  match n with O => mret tt | S n => _ ← schedule t0 t1; schedule_n n t0 t1 end.

Lemma rotate1_lookup {A} (q : list A) i :
  (i < length q)%nat → rotate1 q !! i = q !! (S i mod length q)%nat.
Proof.
  destruct q as [|r q]; cbn [length rotate1]; [lia|]. intros Hi. destruct (decide (i < length q)%nat).
  - rewrite lookup_app_l, Nat.mod_small by lia. done.
  - replace i with (length q) by lia. rewrite list_lookup_middle, Nat.Div0.mod_same by done. done.
Qed.

(** C23: scheduling is round-robin: after [k] context switches among [n]
    threads, the thread running is the one that was [k mod n] places
    behind in the ring, so every thread runs once in any [n] consecutive
    switches and no thread is starved. *)
Theorem round_robin s k t0 t1 :
  sched_ok s → 0 ≤ context_switch_count s → context_switch_count s + Z.of_nat k < 2 ^ 32 →
  ∃ s', schedule_n k t0 t1 s = Ret (tt, s') ∧ sched_ok s' ∧ threads s' = threads s ∧
    ∀ i, (i < length (queue s))%nat → queue s' !! i = queue s !! ((k + i) mod length (queue s))%nat.
Proof.
  revert s. induction k as [|k IH]; intros s Hok H0 Hb; cbn [schedule_n].
  { exists s. split_and!; [done..|]. intros i Hi. simpl. by rewrite Nat.mod_small. }
  destruct (proj1 (wp_run _ _ _) (wp_schedule_ok t0 t1 s Hok ltac:(lia)))
    as ([] & s1 & Hrun & Hok1 & Hq1 & Hts1 & _ & _ & Hc1).
  destruct (IH s1) as (s' & Hrun' & Hok' & Hts' & Hq'); [done|lia|lia|].
  exists s'. split; [munfold; by rewrite Hrun|]. split_and!; [done|congruence|]. intros i Hi.
  assert (Hl : length (queue s1) = length (queue s)) by (rewrite Hq1; by apply Permutation_length, rotate1_perm).
  rewrite Hq' by lia. rewrite Hl, Hq1, rotate1_lookup by (apply Nat.mod_upper_bound; lia).
  by rewrite <- Nat.add_1_l, Nat.Div0.add_mod_idemp_r.
Qed.

Lemma round_robin_witness :
  ∃ s s', (_ ← bootstrap (0, None); run_sops [ONew (0, None) None 100; ONew (0, None) None 200])
            Scheduler_ctor = Ret (tt, s) ∧
    schedule_n 5 1 2 s = Ret (tt, s') ∧ queue s' !! 0%nat = queue s !! 2%nat.
Proof.
  destruct (run_from_bootstrap (0, None) [ONew (0, None) None 100; ONew (0, None) None 200] ([0; 1; 2], 3))
    as (s & Hrun & Him & Hc).
  - eapply spec_cons; [apply (spec_new [0] 1 0); [done| |lia]|].
    { intros [?|Hin]; [done|]. apply list_elem_of_singleton in Hin. done. }
    eapply spec_cons; [apply (spec_new [0; 1] 2 0); [done| |lia]|apply spec_nil].
    intros [?|Hin]; [done|]. apply elem_of_cons in Hin as [?|Hin]; [done|].
    apply list_elem_of_singleton in Hin. done.
  - simpl; lia.
  - simpl length in Hc.
    destruct Him as (Hok & Hids & _). pose proof (Forall2_length _ _ _ Hids) as Hl. simpl in Hl.
    destruct (round_robin s 5 1 2 Hok) as (s' & Hr & _ & _ & Hq); [lia|lia|].
    exists s, s'. split; [exact Hrun|]. split; [exact Hr|]. rewrite Hq by lia. rewrite Hl. reflexivity.
Defined.

(** After [2^32] switches the counter wraps to 0, which is a multiple of
    100: [print_stats] then divides by zero. *)
Example switch_count_wraps s :
  context_switch_count s = 2 ^ 32 - 1 → pending_deletion s = None →
  post_context_switch_bookkeeping 0 s = Halt BadAccess.
Proof.
  intros Hc Hp. unfold post_context_switch_bookkeeping. munfold. rewrite Hc, Hp. reflexivity.
Qed.
