(* ===== verification/PageTable.v ===== *)
(** * Kernel page tables

    Models [arch/x86/page_table.cc] ([get_page_directory], [fetch_pte],
    [map], [unmap], [mark_uncacheable], [clone_kernel_page_directory],
    [set_page_directory]) and [mm/virt.cc] ([ioremap], [io_alloc],
    [vmalloc]); the listing of the tables is in [PageTableDump].

    The state holds the pages used as paging structures, by the HHDM
    address the code accesses them at, CR3, the state behind
    [operator new], the static offset of [io_alloc], and a translation
    lookaside buffer: [invlpg] drops one entry of it, a write of CR3
    drops all of them (the bootloader sets CR4.PSE but not CR4.PGE, so
    no entry is global), and [cpu_access] is the processor caching a
    present translation.  The accessed and dirty bits, which the
    processor sets on its own, are not modelled. *)
From S2P Require Import Prelude Algorithm BootProtocol Bitfield MemoryMap Kmalloc.

Definition directory_table_entries : Z := PG_SZ / 4.
Definition directory_entry_bits : Z := 10.
Definition page_table_entries : Z := PG_SZ / 4.
Definition page_table_bits : Z := 10.

Definition kernel_map_sz : Z := KERNEL_MAP_SZ.
Definition kernel_map_start : Z := 4 * GB - kernel_map_sz.
Definition io_map_sz : Z := IO_MAP_SZ.
Definition io_map_start : Z := kernel_map_start - io_map_sz.

(** ** What the page tables use of the heap: [::operator new(PG_SZ)]

    [live] are page-sized blocks the allocator will not hand out again. *)
Class PageAllocator (S : Type) := {
  pga_new : M S Z;
  pga_inv : S → list Z → Prop;
  pga_new_spec : ∀ s live, pga_inv s live →
    ∃ p s', pga_new s = Ret (p, s') ∧
      ((p = 0 ∧ pga_inv s' live) ∨
       (p mod PG_SZ = 0 ∧ hhdm_start ≤ p ∧ p + PG_SZ ≤ hhdm_start + hhdm_len ∧
        (p ∉ live) ∧ pga_inv s' (p :: live))) }.

(** ** What is left in the heap

    [serves n s]: from [s], the next [n] requests for a page are granted.
    Going from [s] to [s'] [spends k] when it takes [k] requests at most. *)
Section supply.
Context {S : Type} `{PA : PageAllocator S}.
Implicit Types s : S.

Fixpoint serves (n : nat) s : Prop :=
  match n with
  | O => True
  | Datatypes.S n => match pga_new s with Ret (p, s') => p ≠ 0 ∧ serves n s' | Halt _ => False end
  end.
Definition spends (k : nat) s s' : Prop := ∀ n, serves (k + n) s → serves n s'.
(** [s'] is reached from [s] by [k] requests at most. *)
Fixpoint takes (k : nat) s s' : Prop :=
  s' = s ∨ match k with O => False | Datatypes.S k => ∃ p s1, pga_new s = Ret (p, s1) ∧ takes k s1 s' end.
(** One request at most, and granted *)
Definition may_take s s' : Prop := s' = s ∨ ∃ p, p ≠ 0 ∧ pga_new s = Ret (p, s').

Lemma serves_le n m s : (m ≤ n)%nat → serves n s → serves m s.
Proof.
  revert m s. induction n as [|n IH]; intros [|m] s Hle Hs; try done; [lia|]. cbn [serves] in *.
  destruct (pga_new s) as [[p s']|]; [|done]. destruct Hs as [? Hs]. split; [done|]. by apply IH; [lia|].
Qed.
Lemma refused n s h : pga_new s = Ret (0, h) → ¬ serves (Datatypes.S n) s.
Proof. intros Hn. cbn [serves]. rewrite Hn. by intros [? _]. Qed.
Lemma spends_refl k s : spends k s s.
Proof. intros n. apply serves_le. lia. Qed.
Lemma spends_le k k' s s' : (k ≤ k')%nat → spends k s s' → spends k' s s'.
Proof. intros Hle Hs n Hn. apply Hs. eapply serves_le; [|exact Hn]. lia. Qed.
Lemma spends_trans j k s s1 s2 : spends j s s1 → spends k s1 s2 → spends (j + k) s s2.
Proof. intros H1 H2 n Hn. apply H2, H1. by rewrite Nat.add_assoc. Qed.
Lemma spends_new p s s' : pga_new s = Ret (p, s') → spends 1 s s'.
Proof. intros Hn n. cbn [serves Nat.add]. rewrite Hn. by intros [_ ?]. Qed.
Lemma spends_may_take s s' : may_take s s' → spends 1 s s'.
Proof. intros [->|(p & _ & Hp)]; [apply spends_refl|by eapply spends_new]. Qed.
Lemma takes_refl k s : takes k s s.
Proof. destruct k; by left. Qed.
Lemma takes_new k p s s1 s' : pga_new s = Ret (p, s1) → takes k s1 s' → takes (Datatypes.S k) s s'.
Proof. intros Hn Ht. right. by exists p, s1. Qed.
Lemma takes_S k s s' : takes k s s' → takes (Datatypes.S k) s s'.
Proof.
  revert s. induction k as [|k IH]; intros s [->|Ht]; [by left|done|by left|].
  destruct Ht as (p & s1 & Hn & Ht). eapply takes_new; [exact Hn|by apply IH].
Qed.
Lemma takes_may_take k s s1 s' : may_take s s1 → takes k s1 s' → takes (Datatypes.S k) s s'.
Proof. intros [->|(p & _ & Hp)]; [apply takes_S|by eapply takes_new]. Qed.
Lemma takes_spends k s s' : takes k s s' → spends k s s'.
Proof.
  revert s. induction k as [|k IH]; intros s [->|Ht]; [apply spends_refl|done|apply spends_refl|].
  destruct Ht as (p & s1 & Hn & Ht%IH). eapply (spends_trans 1 k); [by eapply spends_new|done].
Qed.
Lemma refused_later k n j s s' : spends k s s' → ¬ serves n s' → (k + n ≤ j)%nat → ¬ serves j s.
Proof. intros Hs Hn Hj Hc. apply Hn, Hs. by eapply serves_le. Qed.
End supply.

(** A leaf of the page tables: whether it is a 4MB page, and its word. *)
Abbreviation leaf := (bool * Z)%type.

Record vmem (S : Type) := VMem {
  heap_st : S;
  cr3 : Z;
  mem : gmap Z page;
  tlb : gmap Z leaf;            (** by virtual page number *)
  io_region_offset : Z }.
Arguments VMem {S} heap_st cr3 mem tlb io_region_offset.
Arguments heap_st {S} _.
Arguments cr3 {S} _.
Arguments mem {S} _.
Arguments tlb {S} _.
Arguments io_region_offset {S} _.

Section ops.
Context {S : Type} `{PA : PageAllocator S}.

Definition with_mem (m : gmap Z page) (st : vmem S) : vmem S :=
  VMem (heap_st st) (cr3 st) m (tlb st) (io_region_offset st).
Definition with_heap (h : S) (st : vmem S) : vmem S :=
  VMem h (cr3 st) (mem st) (tlb st) (io_region_offset st).
Definition with_tlb (t : gmap Z leaf) (st : vmem S) : vmem S :=
  VMem (heap_st st) (cr3 st) (mem st) t (io_region_offset st).

Definition operator_new_page : M (vmem S) Z :=
  st ← getS; '(p, h) ← liftO (pga_new (heap_st st)); _ ← putS (with_heap h st); mret p.

(** [table[idx]], with [table] the HHDM address of a page of entries. *)
Definition read_entry (table idx : Z) : M (vmem S) Z :=
  st ← getS; pg ← liftO (deref (mem st !! table)); liftO (aget pg idx).
Definition write_entry (table idx w : Z) : M (vmem S) unit :=
  st ← getS; pg ← liftO (deref (mem st !! table)); pg ← liftO (aset pg idx w);
  putS (with_mem (<[table := pg]> (mem st)) st).

(** [memset(pg, 0, PG_SZ)] and [memcpy(dst, src, PG_SZ)] on pages just
    allocated; a null page is a bad access. *)
Definition clear_page (pg : Z) : M (vmem S) unit :=
  if pg =? 0 then halt BadAccess
  else st ← getS; putS (with_mem (<[pg := zero_page]> (mem st)) st).
Definition copy_page (dst src : Z) : M (vmem S) unit :=
  if dst =? 0 then halt BadAccess
  else st ← getS; pg ← liftO (deref (mem st !! src));
       putS (with_mem (<[dst := pg]> (mem st)) st).

Definition get_page_directory : M (vmem S) Z :=
  st ← getS; liftO (direct_to_hhdm (cr3 st)).

Definition invlpg (virt : Z) : M (vmem S) unit :=
  st ← getS; putS (with_tlb (delete (virt / PG_SZ) (tlb st)) st).

(** The page table a directory entry refers to.  [pde.addr << PG_SZ_BITS]
    is an [int] that turns negative, and huge as a [uint64_t], from bit
    31 on; [direct_to_hhdm] asserts in both readings. *)
Definition pt_of (pde : Z) : outcome Z := direct_to_hhdm (Z.shiftl (fget PDE.addr pde) PG_SZ_BITS).

Definition pd_index (virt : Z) : Z := Z.shiftr (Z.shiftr virt PG_SZ_BITS) directory_entry_bits.
Definition pt_index (virt : Z) : Z := Z.land (Z.shiftr virt PG_SZ_BITS) 0x03FF.

(** The address of an entry is the page and the index in it; [None] is
    [nullptr]. *)
Definition fetch_pte (virt : Z) : M (vmem S) (option (Z * Z)) :=
  _ ← assertM (PG_ALIGNED virt);
  pd ← get_page_directory;
  pde ← read_entry pd (pd_index virt);
  if fget PDE.p pde =? 0 then mret None
  else
    _ ← assertM (fget PDE.ps pde =? 0);
    pt ← liftO (pt_of pde);
    mret (Some (pt, pt_index virt)).

(** The field assignments of [map] on an entry cleared by [memset]. *)
Definition pde_user (table_phys : Z) : Z :=
  fset PDE.addr (Z.shiftr table_phys PG_SZ_BITS)
   (fset PDE.ps 0 (fset PDE.a 0 (fset PDE.pcd 0 (fset PDE.pwt 0
   (fset PDE.u_s 1 (fset PDE.r_w 1 (fset PDE.p 1 0))))))).
Definition pte_user (phys : Z) (u_s r_w uncacheable : bool) : Z :=
  fset PTE.addr (Z.shiftr phys PG_SZ_BITS) (fset PTE.g 1
   (fset PTE.pat 0 (fset PTE.d 0 (fset PTE.a 0 (fset PTE.pcd (b2z uncacheable)
   (fset PTE.pwt 0 (fset PTE.u_s (b2z u_s) (fset PTE.r_w (b2z r_w) (fset PTE.p 1 0))))))))).

(** The first half of [map]: the directory entry of [virt], made when it
    is missing; [false] when there is no memory for the page table. *)
Definition ensure_page_table (pd pd_idx : Z) : M (vmem S) bool :=
  pde ← read_entry pd pd_idx;
  if negb (fget PDE.p pde =? 0) then _ ← assertM (fget PDE.ps pde =? 0); mret true
  else
    page_table ← operator_new_page;
    if page_table =? 0 then mret false
    else
      _ ← clear_page page_table;
      table_phys ← liftO (hhdm_to_direct page_table);
      _ ← write_entry pd pd_idx (pde_user table_phys);
      mret true.

Definition map (phys virt : Z) (u_s r_w uncacheable : bool) : M (vmem S) bool :=
  _ ← assertM (PG_ALIGNED phys);
  _ ← assertM (PG_ALIGNED virt);
  pd ← get_page_directory;
  ok ← ensure_page_table pd (pd_index virt);
  if negb ok then mret false
  else
    pde ← read_entry pd (pd_index virt);
    pt ← liftO (pt_of pde);
    pte ← read_entry pt (pt_index virt);
    if negb (fget PTE.p pte =? 0) then mret false
    else
      _ ← write_entry pt (pt_index virt) (pte_user phys u_s r_w uncacheable);
      mret true.

(** [unmap] and [mark_uncacheable] change one field of a present entry. *)
Definition update_pte (virt : Z) (f : Z → Z) : M (vmem S) bool :=
  pte ← fetch_pte virt;
  match pte with
  | None => mret false
  | Some (pt, i) =>
    w ← read_entry pt i;
    if fget PTE.p w =? 0 then mret false
    else _ ← write_entry pt i (f w); _ ← invlpg virt; mret true
  end.
Definition unmap (virt : Z) : M (vmem S) bool := update_pte virt (fset PTE.p 0).
Definition mark_uncacheable (virt : Z) : M (vmem S) bool := update_pte virt (fset PTE.pcd 1).

(** The loop of [clone_kernel_page_directory], from index [i] on. *)
Fixpoint clone_loop (fuel : nat) (pd new_pd i : Z) : M (vmem S) unit :=
  match fuel with
  | O => mret tt
  | Datatypes.S fuel =>
    pde ← read_entry pd i;
    _ ← (if fget PDE.p pde =? 0 then mret tt
         else if negb (fget PDE.ps pde =? 0) then write_entry new_pd i pde
         else
           page_table ← operator_new_page;
           src ← liftO (pt_of pde);
           _ ← copy_page page_table src;
           d ← liftO (hhdm_to_direct page_table);
           write_entry new_pd i (fset PDE.addr (Z.shiftr d PG_SZ_BITS) pde));
    clone_loop fuel pd new_pd (i + 1)
  end.

Definition first_kernel_pde : Z := hhdm_start / HUGE_PG_SZ.
Definition clone_kernel_page_directory : M (vmem S) Z :=
  pd ← get_page_directory;
  new_pd ← operator_new_page;
  _ ← clear_page new_pd;
  _ ← clone_loop (Z.to_nat (directory_table_entries - first_kernel_pde)) pd new_pd first_kernel_pde;
  mret new_pd.

Definition set_page_directory (pd : Z) : M (vmem S) unit :=
  table_phys ← liftO (hhdm_to_direct pd);
  st ← getS; putS (VMem (heap_st st) table_phys (mem st) ∅ (io_region_offset st)).

(** ** mm/virt.cc *)
Fixpoint ioremap_loop (fuel : nat) (phys virt i : Z) : M (vmem S) bool :=
  match fuel with
  | O => mret true
  | Datatypes.S fuel =>
    ok ← map (u64 (phys + Z.shiftl i PG_SZ_BITS)) (u32 (virt + Z.shiftl i PG_SZ_BITS)) false true true;
    if negb ok then mret false else ioremap_loop fuel phys virt (i + 1)
  end.
Definition ioremap (phys virt pg : Z) : M (vmem S) bool := ioremap_loop (Z.to_nat pg) phys virt 0.

(** A null result is 0. *)
Definition io_alloc (pg : Z) : M (vmem S) Z :=
  st ← getS;
  if io_map_sz <? u32 (io_region_offset st + u32 (Z.shiftl pg PG_SZ_BITS)) then mret 0
  else
    _ ← putS (VMem (heap_st st) (cr3 st) (mem st) (tlb st)
                (u32 (io_region_offset st + u32 (Z.shiftl pg PG_SZ_BITS))));
    mret (u32 (io_map_start + io_region_offset st)).

Fixpoint vmalloc_loop (fuel : nat) (virt i : Z) (writable : bool) : M (vmem S) bool :=
  match fuel with
  | O => mret true
  | Datatypes.S fuel =>
    pg ← operator_new_page;
    if pg =? 0 then mret false
    else
      d ← liftO (hhdm_to_direct pg);
      ok ← map d (u32 (virt + u32 (Z.shiftl i PG_SZ_BITS))) true writable false;
      if negb ok then mret false else vmalloc_loop fuel virt (i + 1) writable
  end.
Definition vmalloc (virt pg : Z) (writable : bool) : M (vmem S) bool :=
  vmalloc_loop (Z.to_nat pg) virt 0 writable.
End ops.

(** ** The translation the tables define *)
Definition tbl_addr (pde : Z) : Z := Z.shiftl (fget PDE.addr pde) 12 + hhdm_start.
Definition small (pde : Z) : Prop := fget PDE.p pde ≠ 0 ∧ fget PDE.ps pde = 0.

Definition leaf_of_pt (m : gmap Z page) (t j : Z) : option leaf :=
  pg ← m !! t; pte ← pg !! Z.to_nat j;
  if fget PTE.p pte =? 0 then None else Some (false, pte).

(** The present leaf for an address, in the tables rooted at [d]. *)
Definition walk (m : gmap Z page) (d va : Z) : option leaf :=
  pd ← m !! d;
  pde ← pd !! Z.to_nat (va / 2 ^ 22);
  if fget PDE.p pde =? 0 then None
  else if negb (fget PDE.ps pde =? 0) then Some (true, pde)
  else leaf_of_pt m (tbl_addr pde) (va / 2 ^ 12 mod 2 ^ 10).

(** The physical address a leaf gives. *)
Definition leaf_phys (l : leaf) (va : Z) : Z :=
  if l.1 then Z.shiftl (fget PDE4MB.addr l.2) 22 + va mod 2 ^ 22
  else Z.shiftl (fget PTE.addr l.2) 12 + va mod 2 ^ 12.

(** A directory whose present entries refer to distinct tables. *)
Definition dir_wf (m : gmap Z page) (d : Z) : Prop :=
  ∃ pd, m !! d = Some pd ∧ length pd = 1024%nat ∧
    (∀ i pde, pd !! i = Some pde → small pde →
       Z.shiftl (fget PDE.addr pde) 12 < hhdm_len ∧ tbl_addr pde ≠ d ∧
       ∃ t, m !! tbl_addr pde = Some t ∧ length t = 1024%nat) ∧
    (∀ i j p q, pd !! i = Some p → pd !! j = Some q → small p → small q →
       tbl_addr p = tbl_addr q → i = j).

(** The pages that make up the tables rooted at [d]. *)
Definition tables (m : gmap Z page) (d a : Z) : Prop :=
  a = d ∨ ∃ pd i pde, m !! d = Some pd ∧ pd !! i = Some pde ∧ small pde ∧ a = tbl_addr pde.

(** [walk] agrees with the translation of the boot page tables. *)
Lemma translate_walk m d pd va :
  0 ≤ va → m !! d = Some pd →
  translate pd (λ pa, m !! (pa + hhdm_start)) va = l ← walk m d va; Some (leaf_phys l va).
Proof.
  intros Hva Hd. unfold translate, walk, leaf_of_pt. rewrite Hd. cbn [mbind option_bind].
  rewrite !Z.shiftr_div_pow2 by done. change 0x3FF with (2 ^ 10 - 1). rewrite land_mask_mod by done.
  destruct (pd !! _) as [pde|]; [|done]. cbn [mbind option_bind].
  destruct (fget PDE.p pde =? 0); [done|].
  assert (fget PDE.ps pde = 0 ∨ fget PDE.ps pde = 1) as [Hps|Hps].
  { pose proof (bf_get_range 7 1 pde ltac:(done)). unfold fget. simpl. lia. }
  - rewrite Hps. change (0 =? 1) with false. change (0 =? 0) with true. cbn [negb].
    fold (tbl_addr pde). destruct (m !! tbl_addr pde) as [t|]; [|done]. cbn [mbind option_bind].
    destruct (t !! _) as [pte|]; [|done]. cbn [mbind option_bind].
    destruct (fget PTE.p pte =? 0); done.
  - rewrite Hps. change (1 =? 1) with true. change (1 =? 0) with false. done.
Qed.

Lemma walk_present m d va w : walk m d va = Some (false, w) → (fget PTE.p w =? 0) = false.
Proof.
  unfold walk, leaf_of_pt. destruct (m !! d) as [pd|]; [|done]. cbn [mbind option_bind].
  destruct (pd !! _) as [pde|]; [|done]. cbn [mbind option_bind].
  destruct (fget PDE.p pde =? 0), (fget PDE.ps pde =? 0); try done. cbn [negb].
  destruct (m !! _) as [t|]; [|done]. cbn [mbind option_bind].
  destruct (t !! _) as [pte|]; [|done]. cbn [mbind option_bind].
  destruct (fget PTE.p pte =? 0) eqn:?; [done|]. by intros [= <-].
Qed.

Lemma page_split va i j :
  0 ≤ va → (j < 1024)%nat →
  (Z.to_nat (va / 2 ^ 22) = i ∧ Z.to_nat (va / 2 ^ 12 mod 2 ^ 10) = j) ↔
  va / 2 ^ 12 = Z.of_nat i * 1024 + Z.of_nat j.
Proof.
  intros Hva Hj. assert (0 ≤ va / 2 ^ 12) by (apply Z.div_pos; lia).
  assert (va / 2 ^ 22 = va / 2 ^ 12 / 2 ^ 10) as ->
    by (change (2 ^ 22) with (2 ^ 12 * 2 ^ 10); by rewrite Z.div_div).
  set (v := va / 2 ^ 12) in *. change (2 ^ 10) with 1024.
  pose proof (Z.div_mod v 1024). pose proof (Z.mod_pos_bound v 1024).
  assert (0 ≤ v / 1024) by (apply Z.div_pos; lia). lia.
Qed.

Lemma pt_idx_bound va : (Z.to_nat (va / 2 ^ 12 mod 2 ^ 10) < 1024)%nat.
Proof. pose proof (Z.mod_pos_bound (va / 2 ^ 12) (2 ^ 10)). lia. Qed.

(** Writing an entry of a page table changes the translation of that
    page only. *)
Lemma walk_set_pte m d pd i pde t j w va :
  dir_wf m d → m !! d = Some pd → pd !! i = Some pde → small pde →
  m !! tbl_addr pde = Some t → (j < length t)%nat → length t = 1024%nat → 0 ≤ va →
  walk (<[tbl_addr pde := <[j := w]> t]> m) d va =
    if decide (va / 2 ^ 12 = Z.of_nat i * 1024 + Z.of_nat j)
    then (if fget PTE.p w =? 0 then None else Some (false, w)) else walk m d va.
Proof.
  intros (pd' & Hd' & _ & Hsm & Hinj) Hd Hi Hpde Ht Hj Hlen Hva. assert (pd' = pd) as -> by congruence.
  destruct (Hsm _ _ Hi Hpde) as (_ & Hne & _). unfold walk.
  rewrite lookup_insert_ne, Hd by done. cbn [mbind option_bind].
  pose proof (page_split va i j Hva ltac:(lia)) as Hsplit.
  destruct (decide (Z.to_nat (va / 2 ^ 22) = i)) as [Hi'|Hi'].
  - rewrite Hi', Hi. cbn [mbind option_bind]. destruct Hpde as [Hp Hps].
    rewrite (proj2 (Z.eqb_neq _ _) Hp), Hps. change (0 =? 0) with true. cbn [negb].
    unfold leaf_of_pt. rewrite lookup_insert_eq, Ht. cbn [mbind option_bind].
    case_decide as Hc.
    + destruct (proj2 Hsplit Hc) as [_ Hj']. by rewrite Hj', list_lookup_insert_eq by done.
    + rewrite list_lookup_insert_ne; [done|]. intros Hjj. apply Hc, Hsplit. by split.
  - rewrite decide_False by (intros ?; apply Hi', Hsplit; done).
    destruct (pd !! Z.to_nat (va / 2 ^ 22)) as [q|] eqn:Hq; [|done]. cbn [mbind option_bind].
    destruct (Z.eqb_spec (fget PDE.p q) 0); [done|].
    destruct (Z.eqb_spec (fget PDE.ps q) 0); [|done]. cbn [negb]. unfold leaf_of_pt.
    rewrite lookup_insert_ne; [done|]. intros Heq. apply Hi'. symmetry. by eapply Hinj.
Qed.

Lemma dir_wf_set_pte m d pd i pde t j w :
  dir_wf m d → m !! d = Some pd → pd !! i = Some pde → small pde →
  m !! tbl_addr pde = Some t → dir_wf (<[tbl_addr pde := <[j := w]> t]> m) d.
Proof.
  intros (pd' & Hd' & Hlen & Hsm & Hinj) Hd Hi Hpde Ht. assert (pd' = pd) as -> by congruence.
  destruct (Hsm _ _ Hi Hpde) as (_ & Hne & t' & Ht' & Hlt). simplify_eq.
  exists pd. split_and!; [by rewrite lookup_insert_ne|done| |done].
  intros k q Hq Hsmq. destruct (Hsm _ _ Hq Hsmq) as (? & ? & u & Hu & Hlu). split_and!; [done..|].
  destruct (decide (tbl_addr pde = tbl_addr q)) as [Heq|Heq].
  - rewrite <- Heq, lookup_insert_eq. eexists. split; [done|]. by rewrite length_insert.
  - rewrite lookup_insert_ne by done. by exists u.
Qed.

(** Entering an empty page table changes no translation. *)
Lemma leaf_of_zero_page m t j : 0 ≤ j < 1024 → m !! t = Some zero_page → leaf_of_pt m t j = None.
Proof.
  intros Hj Ht. unfold leaf_of_pt. rewrite Ht. cbn [mbind option_bind].
  rewrite zero_page_lookup by lia. done.
Qed.

Lemma walk_set_pde m d pd i pde t w va :
  dir_wf m d → m !! d = Some pd → pd !! i = Some pde → fget PDE.p pde = 0 →
  m !! t = None → small w → tbl_addr w = t →
  walk (<[d := <[i := w]> pd]> (<[t := zero_page]> m)) d va = walk m d va.
Proof.
  intros (pd' & Hd' & _ & Hsm & _) Hd Hi Hp Hfresh [Hwp Hwps] Hw. assert (pd' = pd) as -> by congruence. subst t.
  unfold walk. rewrite lookup_insert_eq, Hd. cbn [mbind option_bind].
  destruct (decide (Z.to_nat (va / 2 ^ 22) = i)) as [Hi'|Hi'].
  - rewrite Hi', list_lookup_insert_eq, Hi by (by eapply lookup_lt_Some). cbn [mbind option_bind].
    rewrite (proj2 (Z.eqb_neq _ _) Hwp), Hwps, Hp. change (0 =? 0) with true. cbn [negb].
    apply leaf_of_zero_page; [apply Z.mod_pos_bound; lia|].
    by rewrite lookup_insert_ne, lookup_insert_eq by congruence.
  - rewrite list_lookup_insert_ne by done. destruct (pd !! Z.to_nat (va / 2 ^ 22)) as [q|] eqn:Hq; [|done].
    cbn [mbind option_bind]. destruct (Z.eqb_spec (fget PDE.p q) 0); [done|].
    destruct (Z.eqb_spec (fget PDE.ps q) 0); [|done]. cbn [negb].
    destruct (Hsm _ _ Hq) as (_ & ? & u & Hu & _); [done|]. unfold leaf_of_pt.
    by rewrite lookup_insert_ne, lookup_insert_ne by congruence.
Qed.

Lemma dir_wf_set_pde m d pd i w t :
  dir_wf m d → m !! d = Some pd → m !! t = None → small w → tbl_addr w = t →
  Z.shiftl (fget PDE.addr w) 12 < hhdm_len →
  dir_wf (<[d := <[i := w]> pd]> (<[t := zero_page]> m)) d.
Proof.
  intros (pd' & Hd' & Hlen & Hsm & Hinj) Hd Hfresh Hsw Hw Hlim. assert (pd' = pd) as -> by congruence. subst t.
  assert (Hold : ∀ k q, pd !! k = Some q → small q → tbl_addr q ≠ tbl_addr w).
  { intros k q Hq Hsq Heq. destruct (Hsm _ _ Hq Hsq) as (_ & _ & u & Hu & _). congruence. }
  exists (<[i := w]> pd). split_and!; [by rewrite lookup_insert_eq|by rewrite length_insert|..].
  - intros k q [(<- & <- & _)|[Hk Hq]]%list_lookup_insert_Some Hsq.
    + split_and!; [done|congruence|]. exists zero_page. split; [|done].
      by rewrite lookup_insert_ne, lookup_insert_eq by congruence.
    + destruct (Hsm _ _ Hq Hsq) as (? & ? & u & Hu & ?). split_and!; [done..|]. exists u.
      split; [|done]. rewrite !lookup_insert_ne; [done|by intros Heq; eapply Hold|done].
  - intros k l p q [(<- & <- & _)|[Hk Hp]]%list_lookup_insert_Some
      [(<- & <- & _)|[Hl Hq]]%list_lookup_insert_Some Hsp Hsq Heq; [done|..].
    + by destruct (Hold _ _ Hq Hsq).
    + by destruct (Hold _ _ Hp Hsp).
    + by eapply Hinj.
Qed.

Lemma pde_user_fields t :
  0 ≤ t < 2 ^ 32 → t mod 2 ^ 12 = 0 →
  small (pde_user t) ∧ Z.shiftl (fget PDE.addr (pde_user t)) 12 = t.
Proof.
  intros Ht Hm. split; [split; unfold pde_user; by field_simp|].
  assert (fget PDE.addr (pde_user t) = t / 2 ^ 12) as ->.
  { unfold pde_user. field_simp. change PG_SZ_BITS with 12. rewrite Z.shiftr_div_pow2 by done.
    apply Z.mod_small. split; [apply Z.div_pos|apply Z.div_lt_upper_bound]; simpl; lia. }
  rewrite Z.shiftl_mul_pow2, Z.mul_comm, mul_div_le_mod by done. lia.
Qed.

Lemma pte_user_fields phys u r c :
  fget PTE.p (pte_user phys u r c) = 1 ∧ fget PTE.r_w (pte_user phys u r c) = b2z r ∧
  fget PTE.u_s (pte_user phys u r c) = b2z u ∧ fget PTE.pcd (pte_user phys u r c) = b2z c ∧
  fget PTE.addr (pte_user phys u r c) = phys / 2 ^ 12 mod 2 ^ 20.
Proof.
  unfold pte_user. change PG_SZ_BITS with 12.
  split_and!; field_simp; [done|by destruct r|by destruct u|by destruct c|].
  by rewrite Z.shiftr_div_pow2.
Qed.

Lemma pd_index_eq va : 0 ≤ va → pd_index va = Z.of_nat (Z.to_nat (va / 2 ^ 22)).
Proof.
  intros. unfold pd_index. rewrite Z.shiftr_shiftr, Z.shiftr_div_pow2 by done.
  rewrite Z2Nat.id; [done|]. apply Z.div_pos; simpl; lia.
Qed.

Lemma pt_index_eq va : 0 ≤ va → pt_index va = Z.of_nat (Z.to_nat (va / 2 ^ 12 mod 2 ^ 10)).
Proof.
  intros. unfold pt_index. change 0x03FF with (2 ^ 10 - 1).
  rewrite land_mask_mod, Z.shiftr_div_pow2 by done.
  rewrite Z2Nat.id; [done|]. apply Z.mod_pos_bound. done.
Qed.

Section proof.
Context {S : Type} `{PA : PageAllocator S}.
Implicit Types (st : vmem S) (live : list Z).

(** The tables in use, of the directory in CR3, are well formed, and the
    heap will not hand out a page in use as a table. *)
Definition cur_dir st : Z := cr3 st + hhdm_start.
Definition vwalk st (va : Z) : option leaf := walk (mem st) (cur_dir st) va.
Definition vm_wf st live : Prop :=
  pga_inv (heap_st st) live ∧ (∀ a, is_Some (mem st !! a) → a ∈ live) ∧
  0 ≤ cr3 st < hhdm_len ∧ dir_wf (mem st) (cur_dir st).

(** No 4MB page covers [va]. *)
Definition not_huge st (va : Z) : Prop := ∀ w, vwalk st va ≠ Some (true, w).

Lemma wp_read_entry t i pg w (Q : Z → vmem S → Prop) st :
  mem st !! t = Some pg → pg !! i = Some w → Q w st → wp (read_entry t (Z.of_nat i)) Q st.
Proof.
  intros Ht Hi HQ. unfold read_entry. apply wp_bind, wp_get, wp_bind. eapply wp_deref; [done|].
  eapply wp_lift; [by apply aget_Some|done].
Qed.

Lemma wp_write_entry t i pg w (Q : unit → vmem S → Prop) st :
  mem st !! t = Some pg → (i < length pg)%nat →
  Q tt (with_mem (<[t := <[i := w]> pg]> (mem st)) st) → wp (write_entry t (Z.of_nat i) w) Q st.
Proof.
  intros Ht Hi HQ. unfold write_entry. apply wp_bind, wp_get, wp_bind. eapply wp_deref; [done|].
  apply wp_bind. eapply wp_lift; [by apply aset_eq|]. by apply wp_put.
Qed.

Lemma wp_get_page_directory (Q : Z → vmem S → Prop) st :
  0 ≤ cr3 st < hhdm_len → Q (cur_dir st) st → wp get_page_directory Q st.
Proof.
  intros Hc HQ. unfold get_page_directory. apply wp_bind, wp_get.
  eapply wp_lift; [by apply direct_to_hhdm_eq|done].
Qed.

(** A page from the heap: null, or fresh for every table. *)
Lemma wp_operator_new_page (Q : Z → vmem S → Prop) st live :
  pga_inv (heap_st st) live →
  (∀ h, pga_new (heap_st st) = Ret (0, h) → pga_inv h live → Q 0 (with_heap h st)) →
  (∀ d h, 0 ≤ d → d mod 2 ^ 12 = 0 → d + 2 ^ 12 ≤ hhdm_len → (d + hhdm_start ∉ live) →
     pga_inv h (d + hhdm_start :: live) → pga_new (heap_st st) = Ret (d + hhdm_start, h) → Q (d + hhdm_start) (with_heap h st)) →
  wp operator_new_page Q st.
Proof.
  intros Hinv H0 H1. unfold operator_new_page. apply wp_bind, wp_get, wp_bind.
  destruct (pga_new_spec _ _ Hinv) as (p & h & Heq & Hp).
  eapply wp_lift; [exact Heq|]. cbn match. apply wp_bind, wp_put, wp_ret.
  destruct Hp as [[-> Hh]|(Hal & Hlo & Hhi & Hfresh & Hh)]; [by apply H0|].
  replace p with ((p - hhdm_start) + hhdm_start) in Hfresh, Hh, Heq |- * by lia.
  apply H1; try done; [lia| |change PG_SZ with (2 ^ 12) in *; lia].
  change hhdm_start with (0xC0000 * 2 ^ 12). by rewrite Zminus_mod, Z.mod_mul, Z.sub_0_r, Zmod_mod.
Qed.

Lemma hhdm_to_direct_eq d :
  0 ≤ d < hhdm_len → hhdm_to_direct (d + hhdm_start) = Ret d.
Proof.
  intros Hd. unfold hhdm_to_direct. change hhdm_len with 0x3DC00000 in *.
  change hhdm_start with 0xC0000000. replace ((_ <=? _) && _) with true by lia.
  munfold. f_equal. lia.
Qed.

Lemma pt_of_eq pde : Z.shiftl (fget PDE.addr pde) 12 < hhdm_len → pt_of pde = Ret (tbl_addr pde).
Proof.
  intros Hd. unfold pt_of. change PG_SZ_BITS with 12. apply direct_to_hhdm_eq. split; [|done].
  apply Z.shiftl_nonneg. unfold fget. apply bf_get_range. done.
Qed.

(** The rest of the state is kept. *)
Definition same_regs st st' : Prop :=
  cr3 st' = cr3 st ∧ tlb st' = tlb st ∧ io_region_offset st' = io_region_offset st.

(** From [st] to [st'] the pages in use ([live]) outside the tables of the
    current directory keep their contents, and its tables grow by fresh
    pages only. *)
Definition framed st st' live : Prop :=
  (∀ a, a ∈ live → ¬ tables (mem st) (cur_dir st) a → mem st' !! a = mem st !! a) ∧
  (∀ a, tables (mem st') (cur_dir st) a → tables (mem st) (cur_dir st) a ∨ (a ∉ live)).

Lemma framed_same st st' live : mem st' = mem st → framed st st' live.
Proof. intros Hm. unfold framed. rewrite Hm. split; [done|]. by left. Qed.

Lemma framed_trans st st1 st2 live live1 :
  framed st st1 live → framed st1 st2 live1 → live ⊆ live1 → cr3 st1 = cr3 st → framed st st2 live.
Proof.
  intros [Hk Hn] [Hk' Hn'] Hsub Hc. unfold cur_dir in *. rewrite Hc in *. split.
  - intros a Ha Hna. rewrite Hk' by (by apply Hsub || intros [?|?]%Hn). by apply Hk.
  - intros a [Ha|Ha]%Hn'; [by apply Hn|]. right. intros ?. by apply Ha, Hsub.
Qed.

(** Writing a table, or adding one. *)
Lemma framed_set_pte st live m pd i pde t :
  mem st !! cur_dir st = Some pd → pd !! i = Some pde → small pde → tbl_addr pde ≠ cur_dir st →
  m = <[tbl_addr pde := t]> (mem st) → framed st (with_mem m st) live.
Proof.
  intros Hpd Hi Hs Hne ->. split; cbn [mem with_mem].
  - intros a _ Hna. apply lookup_insert_ne. intros <-. apply Hna. right. by exists pd, i, pde.
  - intros a [->|(pd' & j & q & Hd & Hj & Hq & ->)]; left; [by left|]. rewrite lookup_insert_ne in Hd by done.
    right. by exists pd', j, q.
Qed.

Lemma framed_set_pde st live pd i w t h :
  mem st !! cur_dir st = Some pd → (tbl_addr w ∉ live) → tbl_addr w ≠ cur_dir st →
  framed st (with_mem (<[cur_dir st := <[i := w]> pd]> (<[tbl_addr w := t]> (mem st))) (with_heap h st)) live.
Proof.
  intros Hpd Hfresh Hne. split; cbn [mem with_mem].
  - intros a Ha Hna. rewrite !lookup_insert_ne; [done|congruence|]. intros <-. apply Hna. by left.
  - intros a [->|(pd' & j & q & Hd & Hj & Hq & ->)]; [by left; left|]. rewrite lookup_insert_eq in Hd. injection Hd as <-.
    apply list_lookup_insert_Some in Hj as [(_ & <- & _)|[_ Hj]]; [by right|]. left. right. by exists pd, j, q.
Qed.

Lemma vwalk_pde st live va :
  vm_wf st live → 0 ≤ va < 2 ^ 32 → ∃ pd pde, mem st !! cur_dir st = Some pd ∧
    pd !! Z.to_nat (va / 2 ^ 22) = Some pde ∧ length pd = 1024%nat.
Proof.
  intros (_ & _ & _ & pd & Hpd & Hlen & _) Hva.
  destruct (lookup_lt_is_Some_2 pd (Z.to_nat (va / 2 ^ 22))) as [pde Hpde].
  { assert (va / 2 ^ 22 < 1024) by (apply Z.div_lt_upper_bound; lia). lia. }
  by exists pd, pde.
Qed.

(** A present entry that is not a 4MB page refers to a table. *)
Lemma not_huge_small st live va pd pde :
  vm_wf st live → not_huge st va → mem st !! cur_dir st = Some pd →
  pd !! Z.to_nat (va / 2 ^ 22) = Some pde → fget PDE.p pde ≠ 0 → small pde.
Proof.
  intros Hwf Hnh Hpd Hpde Hp. split; [done|]. destruct (Z.eqb_spec (fget PDE.ps pde) 0) as [?|Hps]; [done|].
  exfalso. apply (Hnh pde). unfold vwalk, walk. rewrite Hpd. cbn [mbind option_bind].
  rewrite Hpde. cbn [mbind option_bind].
  by rewrite (proj2 (Z.eqb_neq _ _) Hp), (proj2 (Z.eqb_neq _ _) Hps).
Qed.

Lemma small_table st live pd i pde :
  vm_wf st live → mem st !! cur_dir st = Some pd → pd !! i = Some pde → small pde →
  pt_of pde = Ret (tbl_addr pde) ∧ ∃ t, mem st !! tbl_addr pde = Some t ∧ length t = 1024%nat.
Proof.
  intros (_ & _ & _ & pd' & Hpd' & _ & Hsm & _) Hpd Hpde Hs.
  assert (pd' = pd) as -> by congruence. destruct (Hsm _ _ Hpde Hs) as (? & _ & ?).
  split; [by apply pt_of_eq|done].
Qed.

Lemma vm_wf_heap st live live' h :
  vm_wf st live → pga_inv h live' → live ⊆ live' → vm_wf (with_heap h st) live'.
Proof.
  intros (_ & Hdom & Hcr3 & Hdir) Hh Hsub. split; [exact Hh|].
  split; [|by split]. intros a Ha. by apply Hsub, Hdom.
Qed.

(** There is a page table for [va]. *)
Definition has_table st (va : Z) : Prop :=
  ∃ pd pde, mem st !! cur_dir st = Some pd ∧ pd !! Z.to_nat (va / 2 ^ 22) = Some pde ∧ small pde.
(** A table for [va] is made when there is none. *)
Definition table_made st st' (va : Z) : Prop :=
  may_take (heap_st st) (heap_st st') ∧ (has_table st va → heap_st st' = heap_st st) ∧ has_table st' va.

Lemma walk_has_table st live va : vm_wf st live → 0 ≤ va < 2 ^ 32 → not_huge st va → is_Some (vwalk st va) → has_table st va.
Proof.
  intros Hwf Hva Hnh [l Hl]. destruct (vwalk_pde st live va Hwf Hva) as (pd & pde & Hpd & Hpde & _).
  exists pd, pde. split_and!; [done..|]. eapply not_huge_small; [done..|]. intros Hp. unfold vwalk, walk in Hl.
  rewrite Hpd in Hl. cbn [mbind option_bind] in Hl. rewrite Hpde in Hl. cbn [mbind option_bind] in Hl. by rewrite Hp in Hl.
Qed.

Lemma wp_ensure_page_table st live va (Q : bool → vmem S → Prop) :
  vm_wf st live → 0 ≤ va < 2 ^ 32 → not_huge st va →
  (∀ h, vwalk st va = None → ¬ has_table st va → pga_new (heap_st st) = Ret (0, h) →
     vm_wf (with_heap h st) live → Q false (with_heap h st)) →
  (∀ st' live' pd pde, live ⊆ live' → vm_wf st' live' → same_regs st st' →
     (∀ x, vwalk st' x = vwalk st x) → mem st' !! cur_dir st = Some pd →
     pd !! Z.to_nat (va / 2 ^ 22) = Some pde → small pde → framed st st' live → table_made st st' va → Q true st') →
  wp (ensure_page_table (cur_dir st) (pd_index va)) Q st.
Proof.
  intros Hwf Hva Hnh Hoom Hok. pose proof Hwf as (Hinv & Hdom & Hcr3 & Hdir).
  destruct (vwalk_pde st live va Hwf Hva) as (pd & pde & Hpd & Hpde & Hlen).
  unfold ensure_page_table. rewrite pd_index_eq by lia.
  apply wp_bind. eapply wp_read_entry; [done..|]. destruct (Z.eqb_spec (fget PDE.p pde) 0) as [Hp|Hp]; cbn [negb].
  2:{ pose proof (not_huge_small _ _ _ _ _ Hwf Hnh Hpd Hpde Hp) as Hs.
      apply wp_bind, wp_assert; [destruct Hs as [_ ->]; done|]. apply wp_ret. eapply Hok; try done; [by apply framed_same|].
      split; [by left|]. split; [done|]. by exists pd, pde. }
  assert (vwalk st va = None) as Hnone.
  { unfold vwalk, walk. rewrite Hpd. cbn [mbind option_bind]. rewrite Hpde. cbn [mbind option_bind]. by rewrite Hp. }
  assert (Hnt : ¬ has_table st va).
  { intros (pd' & pde' & Hpd' & Hpde' & [Hp' _]). congruence. }
  apply wp_bind. eapply wp_operator_new_page; [done| |].
  { intros h Hnew Hh. apply wp_ret, Hoom; [done..|]. by eapply vm_wf_heap. }
  intros d h Hd0 Hdm Hdlim Hfresh Hh Hgot.
  assert (mem st !! (d + hhdm_start) = None) as Hnew.
  { apply eq_None_not_Some. by intros ?%Hdom. }
  assert (d < 2 ^ 30) by (change hhdm_len with 0x3DC00000 in Hdlim; lia).
  rewrite (proj2 (Z.eqb_neq _ _)) by (change hhdm_start with 0xC0000000; lia).
  apply wp_bind. unfold clear_page. rewrite (proj2 (Z.eqb_neq _ _)) by (change hhdm_start with 0xC0000000; lia).
  apply wp_bind, wp_get, wp_put, wp_bind. eapply wp_lift; [apply hhdm_to_direct_eq; lia|].
  destruct (pde_user_fields d) as [Hs Haddr]; [lia|done|].
  assert (Htbl : tbl_addr (pde_user d) = d + hhdm_start) by (unfold tbl_addr; by rewrite Haddr).
  apply wp_bind. eapply (wp_write_entry _ _ pd).
  { simpl. rewrite lookup_insert_ne; [done|]. intros Heq. congruence. }
  { rewrite Hlen. apply lookup_lt_Some in Hpde. lia. }
  apply wp_ret. eapply (Hok _ (d + hhdm_start :: live) (<[Z.to_nat (va / 2 ^ 22) := pde_user d]> pd) (pde_user d)); try done.
  - set_solver.
  - split; [done|]. split; [|split; [done|]].
    + intros a. simpl. rewrite !lookup_insert_is_Some'. intros [<-|[<-|?]]; [|set_solver|].
      * apply elem_of_cons. right. apply Hdom. by exists pd.
      * apply elem_of_cons. right. by apply Hdom.
    + apply dir_wf_set_pde; [done..|]. rewrite Haddr. lia.
  - intros x. by eapply walk_set_pde.
  - simpl. by rewrite lookup_insert_eq.
  - apply list_lookup_insert_eq. by eapply lookup_lt_Some.
  - simpl. rewrite <- Htbl in Hfresh |- *. apply framed_set_pde; [done..|]. rewrite Htbl. intros Heq. congruence.
  - split; [right; exists (d + hhdm_start); split; [change hhdm_start with 0xC0000000; lia|exact Hgot]|]. split; [done|].
    exists (<[Z.to_nat (va / 2 ^ 22) := pde_user d]> pd), (pde_user d). split; [apply lookup_insert_eq|].
    split; [|done]. apply list_lookup_insert_eq. by eapply lookup_lt_Some.
Qed.

(** [st'] differs from [st] in the leaf of the page of [va], now [l]. *)
Definition remapped st st' (va : Z) (l : option leaf) : Prop :=
  ∀ x, 0 ≤ x → vwalk st' x = if decide (x / PG_SZ = va / PG_SZ) then l else vwalk st x.

Lemma vwalk_small st pd va pde t pte :
  mem st !! cur_dir st = Some pd → pd !! Z.to_nat (va / 2 ^ 22) = Some pde → small pde →
  mem st !! tbl_addr pde = Some t → t !! Z.to_nat (va / 2 ^ 12 mod 2 ^ 10) = Some pte →
  vwalk st va = if fget PTE.p pte =? 0 then None else Some (false, pte).
Proof.
  intros Hpd Hpde [Hp Hps] Ht Hpte. unfold vwalk, walk, leaf_of_pt.
  rewrite Hpd. cbn [mbind option_bind]. rewrite Hpde. cbn [mbind option_bind].
  rewrite (proj2 (Z.eqb_neq _ _) Hp), Hps. cbn [negb]. rewrite Ht. cbn [mbind option_bind].
  by rewrite Hpte.
Qed.

Lemma wp_set_pte st live va pd pde t w (Q : unit → vmem S → Prop) :
  vm_wf st live → 0 ≤ va → mem st !! cur_dir st = Some pd →
  pd !! Z.to_nat (va / 2 ^ 22) = Some pde → small pde →
  mem st !! tbl_addr pde = Some t → length t = 1024%nat →
  (∀ st', vm_wf st' live → same_regs st st' →
     remapped st st' va (if fget PTE.p w =? 0 then None else Some (false, w)) → framed st st' live →
     heap_st st' = heap_st st → has_table st' va → Q tt st') →
  wp (write_entry (tbl_addr pde) (pt_index va) w) Q st.
Proof.
  intros (Hinv & Hdom & Hcr3 & Hdir) Hva Hpd Hpde Hs Ht Hlen HQ. rewrite pt_index_eq by done.
  pose proof (pt_idx_bound va) as Hj. eapply wp_write_entry; [done|lia|].
  assert (Hne : tbl_addr pde ≠ cur_dir st).
  { destruct Hdir as (pd' & Hpd' & _ & Hsm & _). assert (pd' = pd) as -> by congruence. by destruct (Hsm _ _ Hpde Hs) as (_ & ? & _). }
  apply HQ; [|done| |by eapply framed_set_pte|done|].
  - split; [done|]. split; [|split; [done|by eapply dir_wf_set_pte]].
    intros a. simpl. rewrite lookup_insert_is_Some'. intros [<-|?]; apply Hdom; [by exists t|done].
  - intros x Hx. unfold vwalk, cur_dir. simpl. erewrite walk_set_pte; [|done..|lia|done|done].
    change PG_SZ with (2 ^ 12).
    by rewrite <- (proj1 (page_split va _ _ Hva Hj) (conj eq_refl eq_refl)).
  - exists pd, pde. split; [|done]. cbn [mem with_mem cur_dir cr3]. rewrite lookup_insert_ne by done. exact Hpd.
Qed.

(** [map] on a page no 4MB mapping covers. *)
Lemma wp_map st live phys va u r c (Q : bool → vmem S → Prop) :
  vm_wf st live → 0 ≤ va < 2 ^ 32 → va mod PG_SZ = 0 → phys mod PG_SZ = 0 → not_huge st va →
  (∀ st' live', live ⊆ live' → vm_wf st' live' → same_regs st st' → vwalk st va = None →
     remapped st st' va (Some (false, pte_user phys u r c)) → framed st st' live → table_made st st' va → Q true st') →
  (∀ st' live', live ⊆ live' → vm_wf st' live' → same_regs st st' →
     (∀ x, vwalk st' x = vwalk st x) →
     (is_Some (vwalk st va) ∧ heap_st st' = heap_st st ∨
      vwalk st va = None ∧ ¬ has_table st va ∧ pga_new (heap_st st) = Ret (0, heap_st st')) →
     framed st st' live → Q false st') →
  wp (map phys va u r c) Q st.
Proof.
  intros Hwf Hva Hal Hpal Hnh Hok Hno. unfold map.
  apply wp_bind, wp_assert; [by apply PG_ALIGNED_spec|].
  apply wp_bind, wp_assert; [by apply PG_ALIGNED_spec|].
  apply wp_bind, wp_get_page_directory; [by destruct Hwf as (_ & _ & ? & _)|].
  apply wp_bind. eapply wp_ensure_page_table; [done..| |].
  { intros h Hnone Hnt Hnew Hwf'. apply wp_ret. eapply Hno; [done|exact Hwf'|done|done| |by apply framed_same]. by right. }
  intros st1 live1 pd pde Hsub Hwf1 Hregs Hwalk Hpd Hpde Hs Hfr Hmade. cbn [negb].
  assert (Hdir : cur_dir st1 = cur_dir st) by (unfold cur_dir; by destruct Hregs as (-> & _)).
  rewrite <- Hdir in Hpd |- *. rewrite pd_index_eq by lia.
  apply wp_bind. eapply wp_read_entry; [done..|].
  destruct (small_table _ _ _ _ _ Hwf1 Hpd Hpde Hs) as (Hpt & t & Ht & Hlen).
  apply wp_bind. eapply wp_lift; [exact Hpt|].
  destruct (lookup_lt_is_Some_2 t (Z.to_nat (va / 2 ^ 12 mod 2 ^ 10))) as [pte Hpte];
    [rewrite Hlen; apply pt_idx_bound|].
  apply wp_bind. rewrite pt_index_eq at 1 by lia. eapply wp_read_entry; [done..|].
  pose proof (vwalk_small _ _ _ _ _ _ Hpd Hpde Hs Ht Hpte) as Hva1. rewrite Hwalk in Hva1.
  destruct (Z.eqb_spec (fget PTE.p pte) 0) as [Hp|Hp]; cbn [negb].
  - apply wp_bind. eapply wp_set_pte; [done|lia|done..|]. intros st2 Hwf2 Hregs2 Hre Hfr2 Hh2 Ht2. apply wp_ret.
    eapply Hok; [done|exact Hwf2| |done| |by eapply framed_trans; [..|apply Hregs]|
      by destruct Hmade as (? & ? & _); split; [|split]; rewrite ?Hh2].
    + destruct Hregs as (? & ? & ?), Hregs2 as (? & ? & ?). split_and!; congruence.
    + intros x Hx. rewrite (Hre x Hx), Hwalk. destruct (pte_user_fields phys u r c) as (-> & _). done.
  - apply wp_ret. assert (Hsome : is_Some (vwalk st va)) by (by rewrite Hva1). eapply Hno; [done|done|done|done| |done].
    left. split; [done|]. by eapply Hmade, walk_has_table.
Qed.

(** [unmap] and [mark_uncacheable]. *)
Lemma wp_update_pte st live va f (Q : bool → vmem S → Prop) :
  vm_wf st live → 0 ≤ va < 2 ^ 32 → va mod PG_SZ = 0 → not_huge st va →
  (∀ st' w, vwalk st va = Some (false, w) → vm_wf st' live → cr3 st' = cr3 st →
     tlb st' = delete (va / PG_SZ) (tlb st) → io_region_offset st' = io_region_offset st →
     remapped st st' va (if fget PTE.p (f w) =? 0 then None else Some (false, f w)) → framed st st' live →
     heap_st st' = heap_st st → has_table st' va → Q true st') →
  (vwalk st va = None → Q false st) →
  wp (update_pte va f) Q st.
Proof.
  intros Hwf Hva Hal Hnh Hok Hno. unfold update_pte, fetch_pte.
  apply wp_bind, wp_bind, wp_assert; [by apply PG_ALIGNED_spec|].
  apply wp_bind, wp_get_page_directory; [by destruct Hwf as (_ & _ & ? & _)|].
  destruct (vwalk_pde _ _ _ Hwf Hva) as (pd & pde & Hpd & Hpde & _).
  apply wp_bind. rewrite pd_index_eq by lia. eapply wp_read_entry; [done..|].
  destruct (Z.eqb_spec (fget PDE.p pde) 0) as [Hp|Hp].
  { apply wp_ret, wp_ret, Hno. unfold vwalk, walk. rewrite Hpd. cbn [mbind option_bind].
    rewrite Hpde. cbn [mbind option_bind]. by rewrite Hp. }
  pose proof (not_huge_small _ _ _ _ _ Hwf Hnh Hpd Hpde Hp) as Hs.
  apply wp_bind, wp_assert; [by destruct Hs as [_ ->]|].
  destruct (small_table _ _ _ _ _ Hwf Hpd Hpde Hs) as (Hpt & t & Ht & Hlen).
  apply wp_bind. eapply wp_lift; [exact Hpt|]. apply wp_ret.
  destruct (lookup_lt_is_Some_2 t (Z.to_nat (va / 2 ^ 12 mod 2 ^ 10))) as [pte Hpte];
    [rewrite Hlen; apply pt_idx_bound|].
  apply wp_bind. rewrite pt_index_eq at 1 by lia. eapply wp_read_entry; [done..|].
  pose proof (vwalk_small _ _ _ _ _ _ Hpd Hpde Hs Ht Hpte) as Hva1.
  destruct (Z.eqb_spec (fget PTE.p pte) 0) as [Hp0|Hp0].
  { apply wp_ret, Hno, Hva1. }
  apply wp_bind. eapply wp_set_pte; [done|lia|done..|]. intros st2 Hwf2 (Hr1 & Hr2 & Hr3) Hre Hfr Hh2 Ht2.
  apply wp_bind. unfold invlpg. apply wp_bind, wp_get, wp_put, wp_ret. eapply Hok; [exact Hva1| |done..| |done|done|exact Hfr|exact Hh2|exact Ht2].
  - exact Hwf2.
  - simpl. by rewrite Hr2.
Qed.
End proof.

(** ** The processor's view, and the abstract page map *)
Section refinement.
Context {S : Type} `{PA : PageAllocator S}.
Implicit Types (st : vmem S) (live : list Z).

(** An access to [va]: the cached translation if there is one, else the
    tables', which is then cached. *)
Definition cpu_access (va : Z) : M (vmem S) (option leaf) :=
  st ← getS;
  match tlb st !! (va / PG_SZ) with
  | Some l => mret (Some l)
  | None =>
    match vwalk st va with
    | Some l => _ ← putS (with_tlb (<[va / PG_SZ := l]> (tlb st)) st); mret (Some l)
    | None => mret None
    end
  end.

Inductive vop :=
| VMap (phys virt : Z) (u_s r_w uncacheable : bool)
| VUnmap (virt : Z)
| VUncacheable (virt : Z)
| VAccess (va : Z).
Inductive vres := RBool (b : bool) | RLeaf (l : option leaf).

Definition run_vop (o : vop) : M (vmem S) vres :=
  match o with
  | VMap phys virt u r c => b ← map phys virt u r c; mret (RBool b)
  | VUnmap virt => b ← unmap virt; mret (RBool b)
  | VUncacheable virt => b ← mark_uncacheable virt; mret (RBool b)
  | VAccess va => l ← cpu_access va; mret (RLeaf l)
  end.
Fixpoint run_vops (os : list vop) : M (vmem S) (list vres) :=
  match os with
  | [] => mret []
  | o :: os => r ← run_vop o; rs ← run_vops os; mret (r :: rs)
  end.

(** The specification: a partial map from virtual pages to leaves. *)
Abbreviation pagemap := (Z → option leaf).
Definition pm_set (A : pagemap) (va : Z) (l : option leaf) : pagemap :=
  λ v, if decide (v = va / PG_SZ) then l else A v.

(** A step of the specification, with the states of the heap before and
    after: [map] refuses a mapped page, takes at most one page from the
    heap, and otherwise fails only when this very request is refused. *)
Inductive pm_step : pagemap → S → vop → vres → pagemap → S → Prop :=
| pm_map A h phys virt u r c h' :
    A (virt / PG_SZ) = None → may_take h h' →
    pm_step A h (VMap phys virt u r c) (RBool true) (pm_set A virt (Some (false, pte_user phys u r c))) h'
| pm_map_mapped A h phys virt u r c :
    is_Some (A (virt / PG_SZ)) → pm_step A h (VMap phys virt u r c) (RBool false) A h
| pm_map_refused A h phys virt u r c h' :
    A (virt / PG_SZ) = None → pga_new h = Ret (0, h') → pm_step A h (VMap phys virt u r c) (RBool false) A h'
| pm_unmap A h virt w :
    A (virt / PG_SZ) = Some (false, w) → pm_step A h (VUnmap virt) (RBool true) (pm_set A virt None) h
| pm_unmap_none A h virt : A (virt / PG_SZ) = None → pm_step A h (VUnmap virt) (RBool false) A h
| pm_uncacheable A h virt w :
    A (virt / PG_SZ) = Some (false, w) →
    pm_step A h (VUncacheable virt) (RBool true) (pm_set A virt (Some (false, fset PTE.pcd 1 w))) h
| pm_uncacheable_none A h virt :
    A (virt / PG_SZ) = None → pm_step A h (VUncacheable virt) (RBool false) A h
| pm_access A h va : pm_step A h (VAccess va) (RLeaf (A (va / PG_SZ))) A h.

Inductive pm_steps : pagemap → S → list vop → list vres → pagemap → S → Prop :=
| pm_nil A h : pm_steps A h [] [] A h
| pm_cons A h o r A1 h1 os rs A2 h2 :
    pm_step A h o r A1 h1 → pm_steps A1 h1 os rs A2 h2 → pm_steps A h (o :: os) (r :: rs) A2 h2.

Lemma pm_step_spends A h o r A' h' : pm_step A h o r A' h' → spends 1 h h'.
Proof. destruct 1; try apply spends_refl; [by apply spends_may_take|by eapply spends_new]. Qed.

(** The callers' obligations: aligned pages that no 4MB mapping covers. *)
Definition page_ok (A : pagemap) (virt : Z) : Prop :=
  0 ≤ virt < 2 ^ 32 ∧ virt mod PG_SZ = 0 ∧ ∀ w, A (virt / PG_SZ) ≠ Some (true, w).
Definition vop_ok (A : pagemap) (o : vop) : Prop :=
  match o with
  | VMap phys virt _ _ _ => phys mod PG_SZ = 0 ∧ page_ok A virt
  | VUnmap virt | VUncacheable virt => page_ok A virt
  | VAccess va => 0 ≤ va < 2 ^ 32
  end.

(** The tables and the cache agree with the page map. *)
Definition agrees st (A : pagemap) : Prop :=
  (∀ x, 0 ≤ x < 2 ^ 32 → vwalk st x = A (x / PG_SZ)) ∧
  (∀ v l, tlb st !! v = Some l → A v = Some l).

Lemma agrees_remapped st st' A va l :
  agrees st A → remapped st st' va l → tlb st' ⊆ delete (va / PG_SZ) (tlb st) →
  agrees st' (pm_set A va l).
Proof.
  intros [Hw Ht] Hre Htlb. split.
  - intros x Hx. rewrite Hre by lia. unfold pm_set. case_decide; [done|]. by apply Hw.
  - intros v l' Hv. eapply lookup_weaken in Hv; [|exact Htlb].
    apply lookup_delete_Some in Hv as [Hne Hv]. unfold pm_set. rewrite decide_False by done. by apply Ht.
Qed.

Lemma pm_step_huge A h o r A' h' v w :
  pm_step A h o r A' h' → A' v = Some (true, w) → A v = Some (true, w).
Proof. destruct 1; unfold pm_set; try case_decide; (done || congruence). Qed.

Lemma page_ok_not_huge st A virt : agrees st A → page_ok A virt → not_huge st virt.
Proof. intros [Hw _] (Hv & _ & Hn) w. rewrite Hw by done. apply Hn. Qed.

Lemma vop_sim st live A o :
  vm_wf st live → agrees st A → vop_ok A o →
  wp (run_vop o) (λ r st', ∃ A' live', vm_wf st' live' ∧ pm_step A (heap_st st) o r A' (heap_st st') ∧ agrees st' A' ∧
    live ⊆ live' ∧ cr3 st' = cr3 st ∧ framed st st' live) st.
Proof.
  intros Hwf Hag Hok. pose proof Hag as [Hw Ht]. destruct o as [phys virt u r c|virt|virt|va]; cbn [run_vop vop_ok] in *.
  - destruct Hok as [Hphys Hpg]. pose proof (page_ok_not_huge _ _ _ Hag Hpg) as Hnh.
    destruct Hpg as (Hv & Hal & _). apply wp_bind. eapply wp_map; [done..| |].
    + intros st' live' Hsub Hwf' (Hcr & Htlb & _) Hnone Hre Hfr (Hmay & _). apply wp_ret. eexists _, live'.
      rewrite Hw in Hnone by done. split; [done|]. split; [by apply pm_map|]. split; [|done].
      eapply agrees_remapped; [done..|]. rewrite Htlb, delete_id; [done|].
      apply eq_None_not_Some. intros [l Hl]. apply Ht in Hl. congruence.
    + intros st' live' Hsub Hwf' (Hcr & Htlb & _) Hsame Hwhy Hfr. apply wp_ret. exists A, live'. split; [done|].
      split; [|split; [by split; [intros x Hx; rewrite Hsame; auto|rewrite Htlb]|done]].
      rewrite Hw in Hwhy by done. destruct Hwhy as [[? ->]|(? & _ & ?)]; [by apply pm_map_mapped|by apply pm_map_refused].
  - pose proof (page_ok_not_huge _ _ _ Hag Hok) as Hnh. destruct Hok as (Hv & Hal & _).
    apply wp_bind. unfold unmap. eapply wp_update_pte; [done..| |].
    + intros st' w Hsome Hwf' Hcr Htlb _ Hre Hfr Hheap _. apply wp_ret. eexists _, live. rewrite Hw in Hsome by done.
      split; [done|]. rewrite Hheap. split; [by eapply pm_unmap|]. split; [|done]. eapply agrees_remapped; [done| |by rewrite Htlb].
      revert Hre. rewrite fget_fset by done. done.
    + intros Hnone. apply wp_ret. exists A, live. rewrite Hw in Hnone by done.
      split; [done|]. split; [by apply pm_unmap_none|]. split_and!; [apply Hag..|done|done|by apply framed_same].
  - pose proof (page_ok_not_huge _ _ _ Hag Hok) as Hnh. destruct Hok as (Hv & Hal & _).
    apply wp_bind. unfold mark_uncacheable.
    eapply wp_update_pte; [done..| |].
    + intros st' w Hsome Hwf' Hcr Htlb _ Hre Hfr Hheap _. apply wp_ret. eexists _, live.
      split; [done|]. rewrite Hheap. split; [eapply pm_uncacheable; by rewrite <- Hw|]. split; [|done].
      eapply agrees_remapped; [done| |by rewrite Htlb].
      revert Hre. rewrite fget_fset_ne by done. by rewrite (walk_present _ _ _ _ Hsome).
    + intros Hnone. apply wp_ret. exists A, live. rewrite Hw in Hnone by done.
      split; [done|]. split; [by apply pm_uncacheable_none|]. split_and!; [apply Hag..|done|done|by apply framed_same].
  - apply wp_bind. unfold cpu_access. apply wp_bind, wp_get.
    destruct (tlb st !! (va / PG_SZ)) as [l|] eqn:Hl.
    + apply wp_ret, wp_ret. exists A, live. split; [done|]. rewrite <- (Ht _ _ Hl). split; [apply pm_access|]. split_and!; [apply Hag..|done|done|by apply framed_same].
    + destruct (vwalk st va) as [l|] eqn:Hva; rewrite Hw in Hva by done.
      * apply wp_bind, wp_put, wp_ret, wp_ret. exists A, live. split; [exact Hwf|]. rewrite <- Hva.
        split; [apply pm_access|]. split; [|split_and!; [done|done|by apply framed_same]].
        split; [exact Hw|]. intros v l'. simpl.
        rewrite lookup_insert_Some. intros [[<- <-]|[_ ?]]; [done|by apply Ht].
      * apply wp_ret, wp_ret. exists A, live. split; [done|]. rewrite <- Hva. split; [apply pm_access|]. split_and!; [apply Hag..|done|done|by apply framed_same].
Qed.

(** C7: the kernel's page-table operations implement a map from virtual
    pages to frames with permissions: every history of [map], [unmap],
    [mark_uncacheable] (on aligned pages outside the 4MB mappings) and
    memory accesses completes without failing an assertion, each call
    returns what the map specification gives ([map] refuses a mapped page
    and otherwise fails only when the heap, in the state that the history
    has brought it to, refuses the request for a page), and every access
    of the processor, through its cache of translations, sees exactly the
    current mapping, although [map] does not invalidate the cache. *)
Theorem page_table_refines st live A os :
  vm_wf st live → agrees st A → Forall (vop_ok A) os →
  ∃ rs st' A' live', run_vops os st = Ret (rs, st') ∧ pm_steps A (heap_st st) os rs A' (heap_st st') ∧
    agrees st' A' ∧ vm_wf st' live'.
Proof.
  revert st live A. induction os as [|o os IH]; intros st live A Hwf Hag Hok.
  { exists [], st, A, live. split_and!; [done|constructor|done..]. }
  apply Forall_cons in Hok as [Ho Hos].
  destruct (proj1 (wp_run _ _ _) (vop_sim st live A o Hwf Hag Ho))
    as (r & st1 & Hrun & A1 & live1 & Hwf1 & Hstep & Hag1 & _).
  destruct (IH st1 live1 A1) as (rs & st' & A' & live' & Hrun' & Hsteps & Hag' & Hwf'); [done..| |].
  { eapply Forall_impl; [exact Hos|]. intros [] Hv; cbn [vop_ok] in *; unfold page_ok in *; try done;
      destruct_and?; split_and?; try done; intros w Hw; by eapply pm_step_huge in Hw; naive_solver. }
  exists (r :: rs), st', A', live'. split; [|split_and!; [by econstructor|done..]].
  cbn [run_vops]. munfold. by rewrite Hrun, Hrun'.
Qed.
End refinement.

(** ** Ranges of pages *)
Section ranges.
Context {S : Type} `{PA : PageAllocator S}.
Implicit Types (st : vmem S) (live : list Z).

(** The pages from [virt] on are mapped to the frames [ws] (as leaf
    words), and nothing else changes. *)
Definition range_mapped st st' (virt : Z) (ws : list Z) : Prop :=
  ∀ x, 0 ≤ x < 2 ^ 32 →
    vwalk st' x = let k := x / PG_SZ - virt / PG_SZ in
      if decide (0 ≤ k < zlen ws) then w ← ws !! Z.to_nat k; Some (false, w) else vwalk st x.

Lemma page_of_sum virt i : virt mod PG_SZ = 0 → (virt + i * PG_SZ) / PG_SZ = virt / PG_SZ + i.
Proof. intros _. by rewrite Z.div_add. Qed.

Lemma range_mapped_snoc st st1 st2 virt ws w :
  0 ≤ virt → virt mod PG_SZ = 0 → range_mapped st st1 virt ws →
  remapped st1 st2 (virt + zlen ws * PG_SZ) (Some (false, w)) →
  range_mapped st st2 virt (ws ++ [w]).
Proof.
  intros Hv Hal Hr Hre x Hx. rewrite Hre by lia. rewrite page_of_sum by done.
  cbv zeta. rewrite length_app. simpl length. case_decide as Hc.
  - rewrite decide_True by lia. replace (Z.to_nat (x / PG_SZ - virt / PG_SZ)) with (length ws) by lia.
    by rewrite list_lookup_middle.
  - rewrite Hr by done. cbv zeta. case_decide as Hk.
    + rewrite decide_True by lia. by rewrite lookup_app_l by lia.
    + by rewrite decide_False by lia.
Qed.

(** One more page: [remaining] pages after [ws] are still to be mapped
    and none is under a 4MB page. *)
Lemma range_mapped_not_huge st st1 virt ws :
  0 ≤ virt → virt mod PG_SZ = 0 → virt + zlen ws * PG_SZ < 2 ^ 32 →
  range_mapped st st1 virt ws → not_huge st (virt + zlen ws * PG_SZ) →
  not_huge st1 (virt + zlen ws * PG_SZ) ∧
  vwalk st1 (virt + zlen ws * PG_SZ) = vwalk st (virt + zlen ws * PG_SZ).
Proof.
  intros Hv Hal Hb Hr Hnh. assert (vwalk st1 (virt + zlen ws * PG_SZ) = vwalk st (virt + zlen ws * PG_SZ)) as Heq.
  { rewrite Hr by (change PG_SZ with 4096 in *; lia). cbv zeta. rewrite page_of_sum by done.
    by rewrite decide_False by lia. }
  split; [|done]. intros w. rewrite Heq. apply Hnh.
Qed.

Definition ioremap_words (phys : Z) (n : nat) : list Z :=
  (λ i, pte_user (phys + Z.of_nat i * PG_SZ) false true true) <$> seq 0 n.

Lemma ioremap_words_S phys k :
  ioremap_words phys (Datatypes.S k) =
  ioremap_words phys k ++ [pte_user (phys + Z.of_nat k * PG_SZ) false true true].
Proof. unfold ioremap_words. by rewrite seq_S, fmap_app. Qed.

(** Why a loop over pages stopped: a mapped page, or the heap [h] does not
    have the [k] pages that the loop may ask for. *)
Definition mapped_or_refused st (virt : Z) (k : nat) (h : S) : Prop :=
  is_Some (vwalk st virt) ∨ ¬ serves k h.

Lemma shiftl_pg i : Z.shiftl i PG_SZ_BITS = i * PG_SZ.
Proof. by rewrite Z.shiftl_mul_pow2. Qed.

Lemma aligned_offset virt i : virt mod PG_SZ = 0 → (virt + i * PG_SZ) mod PG_SZ = 0.
Proof. intros. by rewrite Z.mod_add. Qed.

Lemma ioremap_loop_spec fuel k st st0 live phys virt :
  vm_wf st live → 0 ≤ virt → virt mod PG_SZ = 0 → 0 ≤ phys → phys mod PG_SZ = 0 →
  virt + Z.of_nat (k + fuel) * PG_SZ ≤ 2 ^ 32 → phys + Z.of_nat (k + fuel) * PG_SZ ≤ 2 ^ 64 →
  (∀ i, 0 ≤ i < Z.of_nat (k + fuel) → not_huge st0 (virt + i * PG_SZ)) →
  range_mapped st0 st virt (ioremap_words phys k) →
  wp (ioremap_loop fuel phys virt (Z.of_nat k)) (λ b st', ∃ n live', vm_wf st' live' ∧ live ⊆ live' ∧ same_regs st st' ∧
    range_mapped st0 st' virt (ioremap_words phys n) ∧ takes fuel (heap_st st) (heap_st st') ∧
    if b then n = (k + fuel)%nat
    else (n < k + fuel)%nat ∧ mapped_or_refused st0 (virt + Z.of_nat n * PG_SZ) fuel (heap_st st)) st.
Proof.
  revert k st live. induction fuel as [|fuel IH]; intros k st live Hwf Hv Hal Hp Hpal Hb Hpb Hnh Hr;
    cbn [ioremap_loop].
  { apply wp_ret. exists k, live. split_and!; [done..|apply takes_refl|lia]. }
  assert (Hlen : zlen (ioremap_words phys k) = Z.of_nat k) by (unfold ioremap_words; by rewrite length_fmap, length_seq).
  assert (H4 : PG_SZ = 4096) by done.
  rewrite shiftl_pg, !wrap_small by lia.
  destruct (range_mapped_not_huge st0 st virt (ioremap_words phys k)) as [Hnh1 Heq]; [done|done|rewrite Hlen; lia|done| |].
  { rewrite Hlen. apply Hnh. lia. }
  rewrite Hlen in Hnh1, Heq. apply wp_bind.
  eapply wp_map; [done|lia|by apply aligned_offset|by apply aligned_offset|done| |].
  - intros st' live' Hsub Hwf' Hregs _ Hre _ (Hmay & _). cbn [negb]. replace (Z.of_nat k + 1) with (Z.of_nat (Datatypes.S k)) by lia.
    eapply wp_mono; [apply (IH (Datatypes.S k) st' live'); try done|].
    + by replace (Datatypes.S k + fuel)%nat with (k + Datatypes.S fuel)%nat by lia.
    + by replace (Datatypes.S k + fuel)%nat with (k + Datatypes.S fuel)%nat by lia.
    + by replace (Datatypes.S k + fuel)%nat with (k + Datatypes.S fuel)%nat by lia.
    + rewrite ioremap_words_S. eapply range_mapped_snoc; [done|done|exact Hr|]. by rewrite Hlen.
    + replace (Datatypes.S k + fuel)%nat with (k + Datatypes.S fuel)%nat by lia.
      intros b st'' (n & live'' & ? & ? & Hregs' & ? & Hsp & Hb'). exists n, live''. split; [done|]. split; [by etransitivity|].
      split; [|split; [done|split; [by eapply takes_may_take|]]].
      * destruct Hregs as (? & ? & ?), Hregs' as (? & ? & ?). split_and!; congruence.
      * destruct b; [done|]. destruct Hb' as [? [?|Hno]]; (split; [done|]); [by left|right]. eapply (refused_later 1); [by apply spends_may_take|exact Hno|lia].
  - intros st' live' Hsub Hwf' Hregs Hsame Hwhy _. cbn [negb]. apply wp_ret. exists k, live'.
    split; [done|]. split; [done|]. split; [done|]. split; [|split; [|split; [lia|]]].
    + intros x Hx. rewrite Hsame. by apply Hr.
    + destruct Hwhy as [[_ ->]|(_ & _ & Hh)]; [apply takes_refl|]. eapply takes_new; [exact Hh|apply takes_refl].
    + destruct Hwhy as [[Hs _]|(_ & _ & Hh)]; [left; by rewrite <- Heq|right; by eapply refused].
Qed.

(** [ioremap] maps the pages of a range to consecutive frames,
    supervisor-only, writable and uncacheable, and changes no other
    mapping; it succeeds unless a page of the range is already mapped or
    the heap cannot serve a page for each, and then it has mapped exactly
    the pages before the offending one. *)
Theorem ioremap_maps st live phys virt pg :
  vm_wf st live → 0 ≤ pg → 0 ≤ virt → virt mod PG_SZ = 0 → 0 ≤ phys → phys mod PG_SZ = 0 →
  virt + pg * PG_SZ ≤ 2 ^ 32 → phys + pg * PG_SZ ≤ 2 ^ 64 →
  (∀ i, 0 ≤ i < pg → not_huge st (virt + i * PG_SZ)) →
  ∃ b st' n live', ioremap phys virt pg st = Ret (b, st') ∧ vm_wf st' live' ∧ live ⊆ live' ∧ same_regs st st' ∧
    range_mapped st st' virt (ioremap_words phys n) ∧ takes (Z.to_nat pg) (heap_st st) (heap_st st') ∧
    if b then Z.of_nat n = pg
    else Z.of_nat n < pg ∧ mapped_or_refused st (virt + Z.of_nat n * PG_SZ) (Z.to_nat pg) (heap_st st).
Proof.
  intros Hwf Hpg Hv Hal Hp Hpal Hb Hpb Hnh.
  assert (range_mapped st st virt (ioremap_words phys 0)) as Hr0.
  { intros x _. cbv zeta. simpl. by rewrite decide_False by lia. }
  assert (Hn : Z.of_nat (0 + Z.to_nat pg) = pg) by lia. rewrite <- Hn in Hb, Hpb, Hnh.
  destruct (proj1 (wp_run _ _ _) (ioremap_loop_spec (Z.to_nat pg) 0 st st live phys virt
    Hwf Hv Hal Hp Hpal Hb Hpb Hnh Hr0))
    as (b & st' & Hrun & n & live' & Hwf' & Hsub & Hregs & Hr & Hsp & Hres).
  exists b, st', n, live'. split; [exact Hrun|]. do 5 (split; [done|]). destruct b; [lia|].
  destruct Hres. split; [lia|done].
Qed.

(** The frames [vmalloc] takes from the heap. *)
Definition fresh_frames (fs live0 live : list Z) : Prop :=
  NoDup fs ∧ live0 ⊆ live ∧
  Forall (λ d, 0 ≤ d ∧ d mod PG_SZ = 0 ∧ d + PG_SZ ≤ hhdm_len ∧
               (d + hhdm_start ∉ live0) ∧ d + hhdm_start ∈ live) fs.

Definition vmalloc_words (writable : bool) (fs : list Z) : list Z :=
  (λ d, pte_user d true writable false) <$> fs.

Lemma fresh_frames_weaken fs live0 live live' :
  fresh_frames fs live0 live → live ⊆ live' → fresh_frames fs live0 live'.
Proof.
  intros (Hnd & Hsub & Hf) Hl. split; [done|]. split; [by etransitivity|].
  eapply Forall_impl; [exact Hf|]. intros d (? & ? & ? & ? & Hd). split_and!; [done..|]. by apply Hl.
Qed.

Lemma fresh_frames_snoc fs live0 live d :
  fresh_frames fs live0 live → 0 ≤ d → d mod PG_SZ = 0 → d + PG_SZ ≤ hhdm_len →
  (d + hhdm_start ∉ live) → fresh_frames (fs ++ [d]) live0 (d + hhdm_start :: live).
Proof.
  intros Hfs Hd Hal Hlim Hfresh. pose proof Hfs as (Hnd & Hsub & Hf). split.
  - apply NoDup_app. split; [done|]. split; [|apply NoDup_singleton].
    intros e He Hed. apply list_elem_of_singleton in Hed as ->. rewrite Forall_forall in Hf. by apply Hf in He as (_ & _ & _ & _ & ?).
  - split; [intros a Ha; right; by apply Hsub|]. apply Forall_app. split.
    + apply (fresh_frames_weaken _ _ live); [done|]. intros a Ha. by right.
    + apply Forall_singleton. split_and!; [done..| |left]. intros Hin. by apply Hfresh, Hsub.
Qed.

Lemma vmalloc_loop_spec fuel fs st st0 live0 live virt wr :
  vm_wf st live → fresh_frames fs live0 live → 0 ≤ virt → virt mod PG_SZ = 0 →
  virt + Z.of_nat (length fs + fuel) * PG_SZ ≤ 2 ^ 32 →
  (∀ i, 0 ≤ i < Z.of_nat (length fs + fuel) → not_huge st0 (virt + i * PG_SZ)) →
  range_mapped st0 st virt (vmalloc_words wr fs) →
  wp (vmalloc_loop fuel virt (zlen fs) wr) (λ b st', ∃ fs' live', vm_wf st' live' ∧
    fresh_frames fs' live0 live' ∧ range_mapped st0 st' virt (vmalloc_words wr fs') ∧
    spends (2 * fuel) (heap_st st) (heap_st st') ∧
    if b then length fs' = (length fs + fuel)%nat
    else (length fs' < length fs + fuel)%nat ∧ mapped_or_refused st0 (virt + zlen fs' * PG_SZ) (2 * fuel) (heap_st st)) st.
Proof.
  revert fs st live. induction fuel as [|fuel IH]; intros fs st live Hwf Hfs Hv Hal Hb Hnh Hr; cbn [vmalloc_loop].
  { apply wp_ret. exists fs, live. split_and!; [done..|apply spends_refl|lia]. }
  assert (Hlen : zlen (vmalloc_words wr fs) = zlen fs) by (unfold vmalloc_words; by rewrite length_fmap).
  assert (H4 : PG_SZ = 4096) by done. assert (Hl4 : hhdm_len = 0x3DC00000) by done.
  apply wp_bind. eapply wp_operator_new_page; [by destruct Hwf|..].
  { intros h Hoom Hh. apply wp_ret. exists fs, live. split; [by eapply vm_wf_heap|].
    split_and!; [done|done| |lia|]; [eapply (spends_le 1); [lia|by eapply spends_new]|right; by eapply refused]. }
  intros d h Hd0 Hdm Hdlim Hfresh Hh Hgot%spends_new.
  rewrite (proj2 (Z.eqb_neq _ _)) by (change hhdm_start with 0xC0000000; lia).
  apply wp_bind. eapply wp_lift; [apply hhdm_to_direct_eq; lia|].
  rewrite shiftl_pg, (wrap_small 32 (_ * _)), wrap_small by lia.
  destruct (range_mapped_not_huge st0 st virt (vmalloc_words wr fs)) as [Hnh1 Heq]; [done|done|rewrite Hlen; lia|done| |].
  { rewrite Hlen. apply Hnh. lia. }
  rewrite Hlen in Hnh1, Heq. apply wp_bind.
  pose proof (fresh_frames_snoc fs live0 live d Hfs Hd0 Hdm Hdlim Hfresh) as Hfs1.
  eapply (wp_map (with_heap h st)); [by eapply vm_wf_heap; [exact Hwf|exact Hh|intros a Ha; by right]|lia|
    by apply aligned_offset|done|exact Hnh1|..].
  - intros st' live' Hsub Hwf' _ _ Hre _ (Hmay%spends_may_take & _). cbn [negb]. cbn [heap_st with_heap] in Hmay.
    pose proof (spends_trans _ _ _ _ _ Hgot Hmay) as Htwo.
    replace (zlen fs + 1) with (zlen (fs ++ [d])) by (rewrite length_app; simpl; lia).
    assert (Hsum : (length (fs ++ [d]) + fuel)%nat = (length fs + Datatypes.S fuel)%nat) by (rewrite length_app; simpl; lia).
    eapply wp_mono; [apply (IH (fs ++ [d]) st' live'); [done| |done|done|by rewrite Hsum|by rewrite Hsum|]|].
    + by eapply fresh_frames_weaken.
    + unfold vmalloc_words. rewrite fmap_app. eapply range_mapped_snoc; [done|done|exact Hr|].
      fold (vmalloc_words wr fs). by rewrite Hlen.
    + rewrite Hsum. intros b st'' (fs' & live'' & ? & ? & ? & Hsp & Hb'). exists fs', live''.
      replace (2 * Datatypes.S fuel)%nat with ((1 + 1) + 2 * fuel)%nat by lia.
      do 3 (split; [done|]). split; [by eapply spends_trans|]. destruct b; [done|].
      destruct Hb' as [? [?|Hno]]; (split; [done|]); [by left|right]. by eapply refused_later.
  - intros st' live' Hsub Hwf' Hregs Hsame Hwhy _. cbn [negb]. apply wp_ret. exists fs, live'.
    replace (2 * Datatypes.S fuel)%nat with (1 + (1 + 2 * fuel))%nat by lia.
    split_and!; [done| | | |lia|].
    + eapply fresh_frames_weaken; [exact Hfs|]. intros a Ha. apply Hsub. by right.
    + intros x Hx. rewrite Hsame. by apply Hr.
    + eapply spends_trans; [exact Hgot|]. destruct Hwhy as [[_ ->]|(_ & _ & Hh')]; [apply spends_refl|].
      eapply (spends_le 1); [lia|by eapply spends_new].
    + destruct Hwhy as [[Hs _]|(_ & _ & Hh')]; [left; by rewrite <- Heq|right].
      eapply refused_later; [exact Hgot|by eapply (refused 0)|lia].
Qed.

(** [vmalloc] backs the pages of a range with frames that are
    pairwise distinct and distinct from every page in use (so no mapping
    aliases kernel data or a page table), user-accessible and with the
    requested write permission, and changes no other mapping; it succeeds
    unless a page of the range is already mapped or the heap cannot serve
    two pages for each, the page and its table. *)
Theorem vmalloc_maps st live virt pg wr :
  vm_wf st live → 0 ≤ pg → 0 ≤ virt → virt mod PG_SZ = 0 → virt + pg * PG_SZ ≤ 2 ^ 32 →
  (∀ i, 0 ≤ i < pg → not_huge st (virt + i * PG_SZ)) →
  ∃ b st' fs live', vmalloc virt pg wr st = Ret (b, st') ∧ vm_wf st' live' ∧
    fresh_frames fs live live' ∧ range_mapped st st' virt (vmalloc_words wr fs) ∧
    if b then zlen fs = pg
    else zlen fs < pg ∧ mapped_or_refused st (virt + zlen fs * PG_SZ) (2 * Z.to_nat pg) (heap_st st).
Proof.
  intros Hwf Hpg Hv Hal Hb Hnh.
  assert (range_mapped st st virt (vmalloc_words wr [])) as Hr0.
  { intros x _. cbv zeta. simpl. by rewrite decide_False by lia. }
  assert (fresh_frames [] live live) as Hf0 by (split; [constructor|by split]).
  assert (Hn : Z.of_nat (length (@nil Z) + Z.to_nat pg) = pg) by (simpl; lia). rewrite <- Hn in Hb, Hnh.
  destruct (proj1 (wp_run _ _ _) (vmalloc_loop_spec (Z.to_nat pg) [] st st live live virt wr
    Hwf Hf0 Hv Hal Hb Hnh Hr0)) as (b & st' & Hrun & fs & live' & Hwf' & Hfs & Hr & _ & Hres).
  exists b, st', fs, live'. split; [exact Hrun|]. split; [done|]. split; [done|]. split; [done|].
  cbn [length] in Hres. destruct b; [lia|]. destruct Hres. split; [lia|done].
Qed.

(** [io_alloc] hands out consecutive ranges of the IO window until it is
    full. *)
Lemma io_alloc_spec st pg :
  0 ≤ io_region_offset st ≤ io_map_sz → 0 ≤ pg < 2 ^ 19 →
  ∃ a st', io_alloc pg st = Ret (a, st') ∧ mem st' = mem st ∧
    if decide (io_region_offset st + pg * PG_SZ ≤ io_map_sz)
    then a = io_map_start + io_region_offset st ∧ io_map_start ≤ a ∧
         a + pg * PG_SZ ≤ io_map_start + io_map_sz ∧
         io_region_offset st' = io_region_offset st + pg * PG_SZ
    else a = 0 ∧ st' = st.
Proof.
  intros Hoff Hpg. assert (Hsz : io_map_sz = 0x400000) by done. assert (H4 : PG_SZ = 4096) by done.
  assert (Hst : io_map_start = 0xFDC00000) by done.
  unfold io_alloc. munfold. rewrite shiftl_pg, !(wrap_small 32 (pg * PG_SZ)), !(wrap_small 32 (_ + pg * _)) by lia.
  case_decide as Hc.
  - rewrite (proj2 (Z.ltb_ge _ _)) by lia. eexists _, _. split; [done|]. split; [done|]. simpl.
    rewrite wrap_small by lia. lia.
  - rewrite (proj2 (Z.ltb_lt _ _)) by lia. by eexists _, _.
Qed.

(** The size test is computed at 32 bits: a request of 2^20 - 1 pages
    passes it once a page has been allocated. *)
Example io_alloc_wraps st :
  io_region_offset st = PG_SZ →
  ∃ st', io_alloc (2 ^ 20 - 1) st = Ret (io_map_start + PG_SZ, st') ∧ io_region_offset st' = 0.
Proof. intros Ho. unfold io_alloc. munfold. rewrite Ho. eexists. split; vm_compute; done. Qed.
End ranges.

(** ** Cloning the kernel half of the address space *)
Section clone.
Context {S : Type} `{PA : PageAllocator S}.
Implicit Types (st : vmem S) (live : list Z) (m : gmap Z page).

(** The run takes [n] pages at most and returns with [Q], or it stops at
    an access through the null pointer of a request that was refused. *)
Definition wp_oom (n : nat) {A} (c : M (vmem S) A) (Q : A → vmem S → Prop) st : Prop :=
  wp c (λ a st', spends n (heap_st st) (heap_st st') ∧ Q a st') st ∨ (c st = Halt BadAccess ∧ ¬ serves n (heap_st st)).

Lemma wp_oom_bind j n {A B} (c : M (vmem S) A) (k : A → M (vmem S) B) Q st :
  wp_oom j c (λ a st', wp_oom n (k a) Q st') st → wp_oom (j + n) (x ← c; k x) Q st.
Proof.
  unfold wp_oom, wp. munfold. intros [Hc|[-> Hno]].
  2:{ right. split; [done|]. intros Hs. apply Hno. eapply serves_le; [|exact Hs]. lia. }
  destruct (c st) as [[a st1]|]; [|done]. destruct Hc as [Hsp [Hk|[-> Hno]]].
  - left. destruct (k a st1) as [[b st2]|]; [|done]. destruct Hk as [Hsp2 HQ]. split; [by eapply spends_trans|done].
  - right. split; [done|]. by eapply refused_later.
Qed.

Lemma wp_oom_bind0 n {A B} (c : M (vmem S) A) (k : A → M (vmem S) B) Q st :
  wp c (λ a st', heap_st st' = heap_st st ∧ wp_oom n (k a) Q st') st → wp_oom n (x ← c; k x) Q st.
Proof.
  intros Hc. apply (wp_oom_bind 0). left. eapply wp_mono; [exact Hc|]. intros a st' [-> ?]. split; [apply spends_refl|done].
Qed.

(** A page that the rest needs *)
Lemma wp_oom_new n {B} (k : Z → M (vmem S) B) Q st live :
  pga_inv (heap_st st) live → (∀ h, k 0 (with_heap h st) = Halt BadAccess) →
  (∀ d h, 0 ≤ d → d mod 2 ^ 12 = 0 → d + 2 ^ 12 ≤ hhdm_len → (d + hhdm_start ∉ live) →
     pga_inv h (d + hhdm_start :: live) → wp_oom n (k (d + hhdm_start)) Q (with_heap h st)) →
  wp_oom (Datatypes.S n) (p ← operator_new_page; k p) Q st.
Proof.
  intros Hinv H0 H1.
  assert (Hw : wp operator_new_page (λ p st', (p = 0 ∧ (∃ h, st' = with_heap h st) ∧ ∃ h, pga_new (heap_st st) = Ret (0, h)) ∨
    spends 1 (heap_st st) (heap_st st') ∧ wp_oom n (k p) Q st') st).
  { eapply wp_operator_new_page; [done|intros h Hh _; left; eauto|].
    intros d h ????? Hgot%spends_new. right. split; [done|]. by apply H1. }
  apply wp_run in Hw as (p & st' & Hrun & [(-> & [h ->] & h' & Hh')|[Hsp Hk]]).
  - right. split; [|by eapply refused]. munfold. by rewrite Hrun, H0.
  - apply (wp_oom_bind 1). left. unfold wp. by rewrite Hrun.
Qed.

(** What entry [k] of the new directory holds for the original's. *)
Definition cloned m0 m live0 (pde npde : Z) : Prop :=
  if fget PDE.p pde =? 0 then npde = 0
  else if fget PDE.ps pde =? 0 then
    small npde ∧ Z.shiftl (fget PDE.addr npde) 12 < hhdm_len ∧
    (tbl_addr npde ∉ live0) ∧ m !! tbl_addr npde = m0 !! tbl_addr pde
  else npde = pde.

(** The loop has reached index [i] of the directory [pd], of the memory
    [m0] in which the pages [live0] were in use. *)
Definition clone_inv m0 live0 (pd : page) (new : Z) (i : nat) st : Prop :=
  ∃ live npd, pga_inv (heap_st st) live ∧ live0 ⊆ live ∧
    (∀ a, is_Some (mem st !! a) → a ∈ live) ∧ m0 ⊆ mem st ∧ (new ∉ live0) ∧
    mem st !! new = Some npd ∧ length npd = 1024%nat ∧
    (∀ k, (k < 768 ∨ i ≤ k < 1024)%nat → npd !! k = Some 0) ∧
    (∀ k pde, (768 ≤ k < i)%nat → pd !! k = Some pde →
       ∃ npde, npd !! k = Some npde ∧ cloned m0 (mem st) live0 pde npde) ∧
    (∀ k npde, npd !! k = Some npde → small npde → tbl_addr npde ≠ new ∧ is_Some (mem st !! tbl_addr npde)) ∧
    (∀ j k p q, npd !! j = Some p → npd !! k = Some q → small p → small q →
       tbl_addr p = tbl_addr q → j = k).

Lemma not_small_0 : ¬ small 0.
Proof. intros [H _]. by apply H. Qed.

Lemma clone_copy_fields d pde :
  0 ≤ d < 2 ^ 32 → d mod 2 ^ 12 = 0 →
  fget PDE.p (fset PDE.addr (Z.shiftr d PG_SZ_BITS) pde) = fget PDE.p pde ∧
  fget PDE.ps (fset PDE.addr (Z.shiftr d PG_SZ_BITS) pde) = fget PDE.ps pde ∧
  Z.shiftl (fget PDE.addr (fset PDE.addr (Z.shiftr d PG_SZ_BITS) pde)) 12 = d.
Proof.
  intros Hd Hm. split; [by field_simp|]. split; [by field_simp|]. field_simp.
  change PG_SZ_BITS with 12. rewrite Z.shiftr_div_pow2 by done.
  rewrite Z.mod_small by (split; [apply Z.div_pos|apply Z.div_lt_upper_bound]; simpl; lia).
  rewrite Z.shiftl_mul_pow2, Z.mul_comm, mul_div_le_mod by done. lia.
Qed.

Lemma cloned_ext m0 m m' live0 pde npde :
  (small npde → m' !! tbl_addr npde = m !! tbl_addr npde) →
  cloned m0 m live0 pde npde → cloned m0 m' live0 pde npde.
Proof.
  intros Hm. unfold cloned. destruct (_ =? _); [done|]. destruct (_ =? _); [|done].
  intros (Hs & ? & ? & <-). split_and!; [done..|]. by apply Hm.
Qed.

(** Leaving an absent entry alone. *)
Lemma clone_inv_skip m0 live0 pd new i pde st :
  (768 ≤ i < 1024)%nat → pd !! i = Some pde → fget PDE.p pde = 0 →
  clone_inv m0 live0 pd new i st → clone_inv m0 live0 pd new (Datatypes.S i) st.
Proof.
  intros Hi Hpde Hp (live & npd & H1 & H2 & H3 & H4 & H5 & H6 & H7 & Hz & Hc & H8 & H9).
  exists live, npd. split_and!; try done.
  - intros k Hk. apply Hz. lia.
  - intros k q Hk Hq. destruct (decide (k = i)) as [->|Hne]; [|apply Hc; [lia|done]].
    exists 0. split; [apply Hz; lia|]. unfold cloned. simplify_eq. by rewrite Hp.
Qed.

(** Writing an entry, with its table if it has one. *)
Lemma clone_inv_write m0 live0 live pd new i pde npd npde st h m :
  (768 ≤ i < 1024)%nat → pd !! i = Some pde → (∀ a, is_Some (m0 !! a) → a ∈ live0) →
  clone_inv m0 live0 pd new i st → mem st !! new = Some npd →
  pga_inv h live → live0 ⊆ live → (∀ a, is_Some (m !! a) → a ∈ live) →
  mem st ⊆ m → m !! new = Some npd → cloned m0 m live0 pde npde →
  (small npde → tbl_addr npde ≠ new ∧ mem st !! tbl_addr npde = None ∧ is_Some (m !! tbl_addr npde)) →
  clone_inv m0 live0 pd new (Datatypes.S i)
    (with_mem (<[new := <[i := npde]> npd]> m) (with_heap h st)).
Proof.
  intros Hi Hpde Hdom0 (live1 & npd1 & _ & _ & _ & Hm0 & Hnew & Hnpd1 & Hlen & Hz & Hc & Hsm & Hinj) Hnpd
    Hh Hlive Hdom Hext Hmn Hcl Hfresh.
  assert (npd1 = npd) as -> by congruence.
  assert (Hold : ∀ k q, npd !! k = Some q → small q → is_Some (mem st !! tbl_addr q) ∧
    tbl_addr q ≠ new ∧ <[new := <[i := npde]> npd]> m !! tbl_addr q = mem st !! tbl_addr q).
  { intros k q Hq Hs. destruct (Hsm _ _ Hq Hs) as [? [t Ht]]. rewrite lookup_insert_ne by done.
    rewrite Ht. split_and!; [done..|by eapply lookup_weaken]. }
  exists live, (<[i := npde]> npd). cbn [heap_st with_mem with_heap mem]. split_and!; try done.
  - intros a. rewrite lookup_insert_is_Some'. intros [<-|?]; apply Hdom; [by exists npd|done].
  - apply map_subseteq_spec. intros a t Ha. rewrite lookup_insert_ne.
    + do 2 (eapply lookup_weaken; [|eassumption]). done.
    + intros <-. apply Hnew, Hdom0. by exists t.
  - by rewrite lookup_insert_eq.
  - by rewrite length_insert.
  - intros k Hk. rewrite list_lookup_insert_ne by lia. apply Hz. lia.
  - intros k q Hk Hq. destruct (decide (k = i)) as [->|Hne].
    + exists npde. split; [apply list_lookup_insert_eq; lia|]. assert (q = pde) as -> by congruence.
      eapply cloned_ext; [|exact Hcl]. intros Hs. rewrite lookup_insert_ne; [done|]. symmetry. by apply Hfresh.
    + destruct (Hc k q) as (n & Hn & Hcn); [lia|done|]. exists n.
      split; [by rewrite list_lookup_insert_ne|]. eapply cloned_ext; [|exact Hcn]. intros Hs. by eapply Hold.
  - intros k q [(<- & <- & _)|[Hk Hq]]%list_lookup_insert_Some Hs.
    + destruct (Hfresh Hs) as (? & _ & ?). by rewrite lookup_insert_ne.
    + destruct (Hold _ _ Hq Hs) as (? & ? & ->). done.
  - intros j k p q [(<- & <- & _)|[Hj Hp]]%list_lookup_insert_Some
      [(<- & <- & _)|[Hk Hq]]%list_lookup_insert_Some Hsp Hsq Heq; [done| | |by eapply Hinj].
    + destruct (Hfresh Hsp) as (_ & Hnone & _). destruct (Hold _ _ Hq Hsq) as ([t Ht] & _). congruence.
    + destruct (Hfresh Hsq) as (_ & Hnone & _). destruct (Hold _ _ Hp Hsp) as ([t Ht] & _). congruence.
Qed.

Lemma clone_loop_spec fuel i st m0 live0 pd d new :
  (fuel + i = 1024)%nat → (768 ≤ i)%nat → (∀ a, is_Some (m0 !! a) → a ∈ live0) →
  m0 !! d = Some pd → dir_wf m0 d → clone_inv m0 live0 pd new i st →
  wp_oom fuel (clone_loop fuel d new (Z.of_nat i)) (λ _ st',
    clone_inv m0 live0 pd new 1024 st' ∧ same_regs st st') st.
Proof.
  intros Hf Hi Hdom0 Hpd Hdir. revert i st Hf Hi.
  induction fuel as [|fuel IH]; intros i st Hf Hi Hinv; cbn [clone_loop].
  { left. apply wp_ret. replace 1024%nat with i by lia. split; [apply spends_refl|done]. }
  pose proof Hinv as (live & npd & Hh & Hlive & Hdom & Hm0 & Hnew & Hnpd & Hlen & _ & _ & Hsm & _).
  destruct Hdir as (pd' & Hpd' & Hpdlen & Hpsm & _). assert (pd' = pd) as -> by congruence.
  destruct (lookup_lt_is_Some_2 pd i) as [pde Hpde]; [lia|].
  apply wp_oom_bind0. eapply wp_read_entry; [by eapply lookup_weaken|done|]. split; [done|].
  replace (Z.of_nat i + 1) with (Z.of_nat (Datatypes.S i)) by lia.
  assert (Hnext : ∀ st', clone_inv m0 live0 pd new (Datatypes.S i) st' → same_regs st st' →
    wp_oom fuel (clone_loop fuel d new (Z.of_nat (Datatypes.S i)))
      (λ _ st'', clone_inv m0 live0 pd new 1024 st'' ∧ same_regs st st'') st').
  { intros st' Hinv' (? & ? & ?). destruct (IH (Datatypes.S i) st') as [Hw|?]; [lia|lia|done| |by right].
    left. eapply wp_mono; [exact Hw|]. intros [] st'' [? [? (? & ? & ?)]]. split; [done|]. split; [done|]. split_and!; congruence. }
  apply (wp_oom_bind 1). destruct (Z.eqb_spec (fget PDE.p pde) 0) as [Hp|Hp].
  { left. apply wp_ret. split; [apply spends_refl|]. apply Hnext; [|done]. eapply clone_inv_skip; [lia|done..]. }
  destruct (Z.eqb_spec (fget PDE.ps pde) 0) as [Hps|Hps]; cbn [negb].
  2:{ left. eapply wp_write_entry; [done|lia|]. split; [apply spends_refl|]. apply Hnext; [|done].
      replace (with_mem _ st) with (with_mem (<[new := <[i := pde]> npd]> (mem st)) (with_heap (heap_st st) st)) by done.
      eapply (clone_inv_write _ _ live); try done; [lia| |].
      - unfold cloned. by rewrite (proj2 (Z.eqb_neq _ _) Hp), (proj2 (Z.eqb_neq _ _) Hps).
      - by intros [_ ?]. }
  destruct (Hpsm _ _ Hpde (conj Hp Hps)) as (Hlim & Htd & t & Ht & Htlen).
  eapply (wp_oom_new 0); [done|intros h; munfold; by rewrite (pt_of_eq _ Hlim)|].
  intros f h Hf0 Hfm Hflim Hfresh Hh'. assert (Hl4 : hhdm_len = 0x3DC00000) by done.
  apply wp_oom_bind0. eapply wp_lift; [by apply pt_of_eq|]. split; [done|].
  apply wp_oom_bind0. unfold copy_page.
  rewrite (proj2 (Z.eqb_neq _ _)) by (change hhdm_start with 0xC0000000; lia).
  apply wp_bind, wp_get, wp_bind. eapply wp_deref; [by eapply lookup_weaken|]. apply wp_put. split; [done|].
  apply wp_oom_bind0. eapply wp_lift; [apply hhdm_to_direct_eq; lia|]. split; [done|].
  destruct (clone_copy_fields f pde) as (Hq1 & Hq2 & Hq3); [lia|done|].
  assert (Htbl : tbl_addr (fset PDE.addr (Z.shiftr f PG_SZ_BITS) pde) = f + hhdm_start)
    by (unfold tbl_addr; by rewrite Hq3).
  assert (Hnone : mem st !! (f + hhdm_start) = None) by (apply eq_None_not_Some; by intros ?%Hdom).
  assert (Hne : f + hhdm_start ≠ new) by congruence.
  left. eapply (wp_write_entry _ _ npd).
  { simpl. by rewrite lookup_insert_ne. }
  { lia. }
  split; [apply spends_refl|]. apply Hnext; [|done]. simpl.
  eapply (clone_inv_write m0 live0 (f + hhdm_start :: live) pd new i pde npd _ st h); try done; [lia|..].
  - intros a Ha. right. by apply Hlive.
  - intros a. rewrite lookup_insert_is_Some'. intros [<-|?]; [left|right; by apply Hdom].
  - by apply insert_subseteq.
  - by rewrite lookup_insert_ne.
  - unfold cloned. rewrite (proj2 (Z.eqb_neq _ _) Hp), Hps. change (0 =? 0) with true.
    split; [by split; [rewrite Hq1|rewrite Hq2]|]. rewrite Hq3, Htbl, lookup_insert_eq, Ht.
    split_and!; [lia| |done]. intros Hin. by apply Hfresh, Hlive.
  - intros _. rewrite Htbl, lookup_insert_eq. split_and!; [done..|by eexists].
Qed.

Lemma clone_inv_init st live pd f h :
  vm_wf st live → mem st !! cur_dir st = Some pd →
  (f + hhdm_start ∉ live) → pga_inv h (f + hhdm_start :: live) →
  clone_inv (mem st) live pd (f + hhdm_start) 768
    (with_mem (<[f + hhdm_start := zero_page]> (mem st)) (with_heap h st)).
Proof.
  intros (_ & Hdom & _ & _) Hpd Hfresh Hh. exists (f + hhdm_start :: live), zero_page. simpl.
  assert (Hz : ∀ k q, zero_page !! k = Some q → ¬ small q).
  { intros k q Hq. apply lookup_replicate_1 in Hq as [-> _]. apply not_small_0. }
  split_and!; [done|by intros a; right| | |done|by rewrite lookup_insert_eq|done| | | |].
  - intros a. rewrite lookup_insert_is_Some'. intros [<-|?]; [left|right; by apply Hdom].
  - apply insert_subseteq, eq_None_not_Some. by intros ?%Hdom.
  - intros k Hk. apply zero_page_lookup. lia.
  - lia.
  - intros k q Hq Hs. by destruct (Hz _ _ Hq).
  - intros j k p q Hp _ Hs. by destruct (Hz _ _ Hp).
Qed.

Lemma walk_mono m m' d va :
  m ⊆ m' → dir_wf m d → walk m' d va = walk m d va.
Proof.
  intros Hsub (pd & Hpd & _ & Hsm & _). unfold walk. rewrite (lookup_weaken _ _ _ _ Hpd Hsub), Hpd.
  cbn [mbind option_bind]. destruct (pd !! _) as [pde|] eqn:Hpde; [|done]. cbn [mbind option_bind].
  destruct (Z.eqb_spec (fget PDE.p pde) 0); [done|].
  destruct (Z.eqb_spec (fget PDE.ps pde) 0); [|done]. cbn [negb].
  destruct (Hsm _ _ Hpde) as (_ & _ & t & Ht & _); [by split|]. unfold leaf_of_pt.
  by rewrite (lookup_weaken _ _ _ _ Ht Hsub), Ht.
Qed.

Lemma dir_wf_mono m m' d : m ⊆ m' → dir_wf m d → dir_wf m' d.
Proof.
  intros Hsub (pd & Hpd & Hlen & Hsm & Hinj). exists pd. split_and!; [by eapply lookup_weaken|done| |done].
  intros i pde Hi Hs. destruct (Hsm _ _ Hi Hs) as (? & ? & t & Ht & ?). split_and!; [done..|].
  exists t. split; [by eapply lookup_weaken|done].
Qed.

Lemma cloned_small m0 m live0 pde npde :
  cloned m0 m live0 pde npde → small npde →
  small pde ∧ Z.shiftl (fget PDE.addr npde) 12 < hhdm_len ∧ (tbl_addr npde ∉ live0) ∧
  m !! tbl_addr npde = m0 !! tbl_addr pde.
Proof.
  unfold cloned. intros Hc Hs. destruct (Z.eqb_spec (fget PDE.p pde) 0) as [?|Hp].
  - subst npde. by destruct not_small_0.
  - destruct (Z.eqb_spec (fget PDE.ps pde) 0) as [Hps|Hps].
    + destruct Hc as (_ & ? & ? & ?). done.
    + subst npde. by destruct Hs.
Qed.

(** Every small entry of a finished clone comes from one of the original. *)
Lemma clone_done_entry m0 live0 pd d new st npd k npde :
  dir_wf m0 d → m0 !! d = Some pd → clone_inv m0 live0 pd new 1024 st →
  mem st !! new = Some npd → npd !! k = Some npde → small npde →
  ∃ pde, pd !! k = Some pde ∧ small pde ∧ Z.shiftl (fget PDE.addr npde) 12 < hhdm_len ∧
    (tbl_addr npde ∉ live0) ∧ mem st !! tbl_addr npde = m0 !! tbl_addr pde.
Proof.
  intros (pd' & Hpd' & Hpdlen & _ & _) Hpd (live & npd' & _ & _ & _ & _ & _ & Hnpd' & Hlen & Hz & Hc & _) Hnpd Hk Hs.
  assert (pd' = pd) as -> by congruence. assert (npd' = npd) as -> by congruence.
  pose proof (lookup_lt_Some _ _ _ Hk) as Hkl. destruct (decide (k < 768)%nat) as [Hlt|Hge].
  { rewrite Hz in Hk by lia. injection Hk as <-. by destruct not_small_0. }
  destruct (lookup_lt_is_Some_2 pd k) as [pde Hpde]; [lia|].
  destruct (Hc k pde) as (n & Hn & Hcl); [lia|done|]. assert (n = npde) as -> by congruence.
  exists pde. split; [done|]. by apply cloned_small.
Qed.

Lemma clone_done_wf m0 live0 pd d new st :
  dir_wf m0 d → m0 !! d = Some pd → clone_inv m0 live0 pd new 1024 st → dir_wf (mem st) new.
Proof.
  intros Hdir Hpd Hinv. pose proof Hinv as (live & npd & _ & _ & _ & _ & _ & Hnpd & Hlen & _ & _ & Hsm & Hinj).
  exists npd. split_and!; [done|done| |done]. intros k npde Hk Hs.
  destruct (clone_done_entry _ _ _ _ _ _ _ _ _ Hdir Hpd Hinv Hnpd Hk Hs) as (pde & Hpde & Hsp & Hl & _ & Heq).
  destruct Hdir as (pd' & Hpd' & _ & Hpsm & _). assert (pd' = pd) as -> by congruence.
  destruct (Hpsm _ _ Hpde Hsp) as (_ & _ & t & Ht & Htl).
  split_and!; [done|by eapply Hsm|]. exists t. by rewrite Heq.
Qed.

Lemma clone_done_walk m0 live0 pd d new st va :
  dir_wf m0 d → m0 !! d = Some pd → clone_inv m0 live0 pd new 1024 st → 0 ≤ va < 2 ^ 32 →
  walk (mem st) new va = if decide (hhdm_start ≤ va) then walk m0 d va else None.
Proof.
  intros (pd' & Hpd' & Hpdlen & Hpsm & _) Hpd (live & npd & _ & _ & _ & _ & _ & Hnpd & Hlen & Hz & Hc & _) Hva.
  assert (pd' = pd) as -> by congruence. unfold walk. rewrite Hnpd, Hpd. cbn [mbind option_bind].
  assert (Hb : va / 2 ^ 22 < 1024) by (apply Z.div_lt_upper_bound; lia).
  assert (H0 : 0 ≤ va / 2 ^ 22) by (apply Z.div_pos; lia).
  change hhdm_start with (768 * 2 ^ 22). case_decide as Hh.
  2:{ assert (va / 2 ^ 22 < 768) by (apply Z.div_lt_upper_bound; lia). by rewrite Hz by lia. }
  assert (768 ≤ va / 2 ^ 22) by (apply Z.div_le_lower_bound; lia).
  destruct (lookup_lt_is_Some_2 pd (Z.to_nat (va / 2 ^ 22))) as [pde Hpde]; [lia|].
  destruct (Hc (Z.to_nat (va / 2 ^ 22)) pde) as (npde & Hn & Hcl); [lia|done|]. rewrite Hn, Hpde. cbn [mbind option_bind].
  unfold cloned in Hcl. destruct (Z.eqb_spec (fget PDE.p pde) 0); [by subst npde|].
  destruct (Z.eqb_spec (fget PDE.ps pde) 0) as [|Hps].
  - destruct Hcl as ([Hnp Hnps] & _ & _ & Heq). rewrite (proj2 (Z.eqb_neq _ _) Hnp), Hnps. cbn [negb].
    change (0 =? 0) with true. cbn [negb]. unfold leaf_of_pt. by rewrite Heq.
  - subst npde. by rewrite (proj2 (Z.eqb_neq _ _) n), (proj2 (Z.eqb_neq _ _) Hps).
Qed.
End clone.

Section clone_theorem.
Context {S : Type} `{PA : PageAllocator S}.
Implicit Types (st : vmem S) (live : list Z).

(** A directory and the tables of the kernel's half, at most *)
Definition clone_cost : nat := 257.

Lemma clone_spec st live :
  vm_wf st live →
  wp_oom clone_cost clone_kernel_page_directory (λ new st', ∃ pd f,
    mem st !! cur_dir st = Some pd ∧ new = f + hhdm_start ∧ 0 ≤ f < hhdm_len ∧
    clone_inv (mem st) live pd new 1024 st' ∧ same_regs st st') st.
Proof.
  intros Hwf. pose proof Hwf as (Hinv & Hdom & Hcr3 & Hdir). pose proof Hdir as (pd & Hpd & _).
  unfold clone_kernel_page_directory.
  apply wp_oom_bind0, wp_get_page_directory; [done|]. split; [done|].
  eapply (wp_oom_new 256); [done|done|].
  intros f h Hf0 Hfm Hflim Hfresh Hh. assert (Hl4 : hhdm_len = 0x3DC00000) by done.
  apply wp_oom_bind0. unfold clear_page.
  rewrite (proj2 (Z.eqb_neq _ _)) by (change hhdm_start with 0xC0000000; lia).
  apply wp_bind, wp_get, wp_put. split; [done|]. apply (wp_oom_bind 256 0).
  change (Z.to_nat (directory_table_entries - first_kernel_pde)) with 256%nat.
  change first_kernel_pde with (Z.of_nat 768).
  destruct (clone_loop_spec 256 768 _ (mem st) live pd (cur_dir st) (f + hhdm_start) eq_refl
    ltac:(lia) Hdom Hpd Hdir (clone_inv_init st live pd f h Hwf Hpd Hfresh Hh)) as [Hw|[Hw Hoom]].
  - left. eapply wp_mono; [exact Hw|]. intros [] st' [Hsp [Hc Hr]]. split; [done|]. left. apply wp_ret.
    split; [apply spends_refl|]. exists pd, f. split_and!; (done || lia).
  - right. by split.
Qed.

(** [clone_kernel_page_directory] makes an address space with the
    kernel's half of the current one and an empty user half, in page tables
    of its own: after switching to it every address from the HHDM base on
    translates as before, every lower one is unmapped, the current space is
    left as it was, and no page table of the clone is shared with a page
    that was in use.  It stops, at an access through a null pointer, only
    when the heap does not have a page for the directory and each table. *)
Theorem clone_kernel_space st live :
  vm_wf st live →
  match clone_kernel_page_directory st with
  | Ret (new, st') => ∃ live' st'', live ⊆ live' ∧ vm_wf st' live' ∧ same_regs st st' ∧
      (∀ va, 0 ≤ va < 2 ^ 32 → vwalk st' va = vwalk st va) ∧
      set_page_directory new st' = Ret (tt, st'') ∧ vm_wf st'' live' ∧ tlb st'' = ∅ ∧
      (∀ va, 0 ≤ va < 2 ^ 32 →
         vwalk st'' va = if decide (hhdm_start ≤ va) then vwalk st va else None) ∧
      (∀ pd k pde, mem st'' !! cur_dir st'' = Some pd → pd !! k = Some pde → small pde →
         tbl_addr pde ∉ live)
  | Halt f => f = BadAccess ∧ ¬ serves clone_cost (heap_st st)
  end.
Proof.
  intros Hwf. pose proof Hwf as (_ & _ & Hcr3 & Hdir). destruct (clone_spec st live Hwf) as [Hw|[-> Hoom]]; [|done].
  apply wp_run in Hw as (new & st' & -> & _ & pd & f & Hpd & -> & Hf & Hc & Hr).
  pose proof Hc as (live' & npd & Hh & Hlive & Hdom & Hm0 & _ & Hnpd & _).
  pose proof Hr as (Hr1 & Hr2 & Hr3). assert (Hcd : cur_dir st' = cur_dir st) by (unfold cur_dir; by rewrite Hr1).
  eexists live', _. split; [done|]. split.
  { split; [done|]. split; [done|]. rewrite Hr1, Hcd. split; [done|by eapply dir_wf_mono]. }
  split; [done|]. split.
  { intros va Hva. unfold vwalk. rewrite Hcd. by apply walk_mono. }
  split; [unfold set_page_directory; munfold; by rewrite hhdm_to_direct_eq|].
  split; [split; [done|]; split; [done|]; split; [done|by eapply clone_done_wf]|].
  split; [done|]. split.
  - intros va Hva. by eapply clone_done_walk.
  - intros npd' k pde Hn Hk Hs.
    destruct (clone_done_entry _ _ _ _ _ _ _ _ _ Hdir Hpd Hc Hn Hk Hs) as (_ & _ & _ & _ & ? & _). done.
Qed.
End clone_theorem.

(** ** The kernel heap provides the pages *)
Section kheap_pages.
Context {S : Type} `{FA : FrameAllocator S} (Hlimit : fa_limit * PG_SZ ≤ hhdm_len).

(** A page of [live] lies in a block the heap has handed out. *)
Definition in_blocks (blocks : list (Z * Z)) (p : Z) : Prop := ∃ b, b ∈ blocks ∧ b.1 ≤ p ∧ p + PG_SZ ≤ b.1 + b.2.
Definition kheap_live (st : kheap S) (live : list Z) : Prop :=
  ∃ blocks, kheap_ok st blocks ∧ ∀ p, p ∈ live → in_blocks blocks p.
Definition block_pages (p n : Z) : list Z := (λ i, p + i * PG_SZ) <$> seqZ 0 n.

(** A block of whole pages *)
Lemma kmalloc_pages st live n : 0 < n < 2 ^ 19 → kheap_live st live →
  ∃ p st', kmalloc (n * PG_SZ) st = Ret (p, st') ∧
    ((p = 0 ∧ kheap_live st' live) ∨
     (p mod PG_SZ = 0 ∧ hhdm_start ≤ p ∧ p + n * PG_SZ ≤ hhdm_start + hhdm_len ∧
      (∀ q, q ∈ block_pages p n → q ∉ live) ∧ kheap_live st' (block_pages p n ++ live))).
Proof.
  intros Hn (blocks & Hok & Hin). assert (H4 : PG_SZ = 4096) by done.
  destruct (proj1 (wp_run _ _ _) (kmalloc_step Hlimit st (n * PG_SZ) blocks Hok ltac:(lia)))
    as (p & st' & Heq & Hok' & Hal & _).
  exists p, st'. split; [done|]. destruct (Z.eqb_spec p 0) as [->|Hp].
  { left. split; [done|]. by exists blocks. }
  right. pose proof Hok' as Hk. unfold kheap_ok in Hk. destruct (pfa st') as [s|]; [|by destruct Hk].
  destruct Hk as (_ & Hbs & Hds & _). apply Forall_cons in Hbs as [(Hlo & _ & Hhi & _) _]. simpl in Hlo, Hhi.
  split_and!; [apply Hal; lia|done|done| |].
  - intros q (i & -> & Hi%elem_of_seqZ)%list_elem_of_fmap Hl. apply Hin in Hl as (b & Hb & Hb1 & Hb2).
    inversion Hds as [|? ? Hd _]; subst. rewrite Forall_forall in Hd.
    destruct (Hd _ Hb) as [H|H]; simpl in H; lia.
  - exists ((p, n * PG_SZ) :: blocks). split; [done|]. intros q [(i & -> & Hi%elem_of_seqZ)%list_elem_of_fmap|Hq]%elem_of_app.
    + exists (p, n * PG_SZ). split; [left|]. simpl. lia.
    + destruct (Hin _ Hq) as (b & Hb & ?). exists b. split; [by right|done].
Qed.
Lemma kmalloc_page st live : kheap_live st live →
  ∃ p st', kmalloc PG_SZ st = Ret (p, st') ∧
    ((p = 0 ∧ kheap_live st' live) ∨
     (p mod PG_SZ = 0 ∧ hhdm_start ≤ p ∧ p + PG_SZ ≤ hhdm_start + hhdm_len ∧ (p ∉ live) ∧ kheap_live st' (p :: live))).
Proof.
  intros Hl. destruct (kmalloc_pages st live 1 ltac:(lia) Hl) as (p & st' & Heq & Hr).
  assert (Hb : block_pages p 1 = [p]) by (unfold block_pages; simpl; f_equal; lia). rewrite Hb, Z.mul_1_l in *.
  exists p, st'. split; [done|]. destruct Hr as [?|(? & ? & ? & Hf & ?)]; [by left|right].
  split_and!; try done. apply Hf. left.
Qed.

#[export] Instance kheap_page_allocator : PageAllocator (kheap S) :=
  {| pga_new := kmalloc PG_SZ; pga_inv := kheap_live; pga_new_spec := kmalloc_page |}.
End kheap_pages.

(** ** A machine with five page frames, an empty directory in frame 1 *)
Lemma demo_limit : fa_limit (FrameAllocator := simple_pfa_allocator 5) * PG_SZ ≤ hhdm_len.
Proof. vm_compute. done. Qed.

#[local] Instance demo_pages : PageAllocator (kheap PageFrame.SimplePFA) :=
  kheap_page_allocator (FA := simple_pfa_allocator 5) demo_limit.

Definition demo_vm : vmem (kheap PageFrame.SimplePFA) :=
  VMem (KHeap 0 (Some PageFrame.demo_pfa)) 0x1000 {[0xC0001000 := zero_page]} ∅ 0.

Lemma demo_dir_wf : dir_wf {[0xC0001000 := zero_page]} 0xC0001000.
Proof.
  assert (Hz : ∀ k q, zero_page !! k = Some q → ¬ small q).
  { intros k q Hq. apply lookup_replicate_1 in Hq as [-> _]. apply not_small_0. }
  exists zero_page. split_and!; [apply lookup_singleton_eq|apply length_replicate|..].
  - intros i pde Hi Hs. by destruct (Hz _ _ Hi).
  - intros i j p q Hi _ Hs. by destruct (Hz _ _ Hi).
Qed.

Lemma demo_vm_wf : vm_wf demo_vm [0xC0001000].
Proof.
  split; [|split; [|split; [vm_compute; done|exact demo_dir_wf]]].
  - exists [(0xC0001000, PG_SZ)]. split; [|intros p [->|[]%not_elem_of_nil]%elem_of_cons; eexists; split; [left|simpl; lia]].
    split; [apply demo_pfa_inv|]. split; [|split; [repeat constructor|done]].
    apply Forall_singleton. split_and!; [vm_compute; done..|]. intros x Hx.
    assert (x - hhdm_start = 1 * PG_SZ + (x - 0xC0001000)) as -> by (change hhdm_start with 0xC0000000; change PG_SZ with 4096; lia).
    rewrite Z.add_comm, Z.div_add by done. rewrite Z.div_small by (simpl in Hx; lia).
    intros _ d [= <-]. done.
  - intros a [t Ha]. change (mem demo_vm) with ({[0xC0001000 := zero_page]} : gmap Z page) in Ha.
    apply lookup_singleton_Some in Ha as [<- _]. left.
Qed.

Lemma demo_vwalk x : 0 ≤ x < 2 ^ 32 → vwalk demo_vm x = None.
Proof.
  intros Hx. unfold vwalk, walk. change (mem demo_vm) with ({[0xC0001000 := zero_page]} : gmap Z page).
  change (cur_dir demo_vm) with 0xC0001000. rewrite lookup_singleton_eq.
  cbn [mbind option_bind]. assert (x / 2 ^ 22 < 1024) by (apply Z.div_lt_upper_bound; lia).
  by rewrite zero_page_lookup by lia.
Qed.

(** Three of the five frames are free. *)
Example demo_serves : serves 3 (heap_st demo_vm) ∧ ¬ serves 4 (heap_st demo_vm).
Proof. vm_compute. split; [repeat split; intros H; discriminate H|]. intros (_ & _ & _ & H & _). by apply H. Qed.

Lemma page_table_refines_witness :
  ∃ rs st', run_vops [VMap 0x5000 0x400000 true true false; VAccess 0x400010; VMap 0x6000 0x400000 true true false;
                      VUnmap 0x400000; VAccess 0x400010] demo_vm = Ret (rs, st') ∧
    rs = [RBool true; RLeaf (Some (false, pte_user 0x5000 true true false)); RBool false;
          RBool true; RLeaf None].
Proof.
  destruct (page_table_refines demo_vm [0xC0001000] (λ _, None)
    [VMap 0x5000 0x400000 true true false; VAccess 0x400010; VMap 0x6000 0x400000 true true false;
     VUnmap 0x400000; VAccess 0x400010] demo_vm_wf) as (rs & st' & _ & _ & Hrun & _).
  - split; [exact demo_vwalk|]. intros v l Hl. exfalso.
    change (tlb demo_vm) with (∅ : gmap Z leaf) in Hl. by rewrite lookup_empty in Hl.
  - repeat constructor; done.
  - exists rs, st'. split; [exact Hrun|]. vm_compute in Hrun. by injection Hrun as <- _.
Defined.

Lemma ioremap_maps_witness :
  ∃ st', ioremap 0xFEB00000 io_map_start 2 demo_vm = Ret (true, st') ∧
    vwalk st' (io_map_start + 0x1234) = Some (false, pte_user 0xFEB01000 false true true).
Proof.
  assert (Hx : 0 ≤ io_map_start + 0x1234 < 2 ^ 32) by (vm_compute; done).
  destruct (ioremap_maps demo_vm [0xC0001000] 0xFEB00000 io_map_start 2 demo_vm_wf)
    as (b & st' & n & live' & Hrun & _ & _ & _ & Hr & _ & Hn); [vm_compute; done..| |].
  { intros i Hi w. rewrite demo_vwalk; [done|]. change io_map_start with 0xFDC00000. change PG_SZ with 4096. lia. }
  assert (b = true) as -> by (vm_compute in Hrun; by injection Hrun as <- _).
  exists st'. split; [exact Hrun|]. assert (n = 2%nat) as -> by lia.
  unfold range_mapped in Hr. rewrite (Hr _ Hx). clear. vm_compute. done.
Defined.

Lemma vmalloc_maps_witness :
  ∃ st' f, vmalloc 0xBFFFF000 1 true demo_vm = Ret (true, st') ∧
    vwalk st' 0xBFFFFFFC = Some (false, pte_user f true true false).
Proof.
  assert (Hx : 0 ≤ 0xBFFFFFFC < 2 ^ 32) by (vm_compute; done).
  destruct (vmalloc_maps demo_vm [0xC0001000] 0xBFFFF000 1 true demo_vm_wf)
    as (b & st' & fs & live' & Hrun & _ & _ & Hr & Hn); [vm_compute; done..| |].
  { intros i Hi w. rewrite demo_vwalk; [done|]. change PG_SZ with 4096. lia. }
  assert (b = true) as -> by (vm_compute in Hrun; by injection Hrun as <- _).
  destruct fs as [|f [|]]; simpl in Hn; [lia| |lia].
  exists st', f. split; [exact Hrun|]. 
  unfold range_mapped in Hr. rewrite (Hr _ Hx).
  change (0xBFFFFFFC / PG_SZ - 0xBFFFF000 / PG_SZ) with 0. cbv zeta.
  rewrite decide_True by (simpl; lia). reflexivity.
Defined.

Lemma clone_kernel_space_witness :
  ∃ st', clone_kernel_page_directory demo_vm = Ret (0xC0002000, st') ∧
    ∃ live', vm_wf st' live'.
Proof.
  pose proof (clone_kernel_space demo_vm [0xC0001000] demo_vm_wf) as H.
  destruct (clone_kernel_page_directory demo_vm) as [[new st']|f] eqn:Hrun;
    [|exfalso; vm_compute in Hrun; congruence].
  destruct H as (live' & st'' & _ & Hwf' & _). exists st'.
  assert (new = 0xC0002000) as -> by (vm_compute in Hrun; by injection Hrun as <- _).
  split; [reflexivity|]. by exists live'.
Defined.
