(* ===== verification/PageTableDump.v ===== *)
(** * Listing the page tables ([enumerate_page_tables] of
    [arch/x86/page_table.cc])

    A line of the listing is the two addresses and whether the line is
    marked as a huge page.  The listing is compared with the translation of
    [PageTable]. *)
From S2P Require Import Prelude Algorithm BootProtocol Bitfield MemoryMap Kmalloc PageTable.

Record line := Line { l_virt : Z; l_phys : Z; l_huge : bool }.

Section dump.
Context {S : Type} `{PA : PageAllocator S}.

(** [n] entries left, from [i] on *)
Fixpoint enumerate_page_table (n : nat) (table page_table_idx i : Z) : M (vmem S) (list line) :=
  match n with
  | O => mret []
  | Datatypes.S n =>
    pte ← read_entry table i;
    rest ← enumerate_page_table n table page_table_idx (i + 1);
    let virt_addr_base := u32 (page_table_idx * HUGE_PG_SZ) in
    mret (if fget PTE.p pte =? 0 then rest
          else Line (u32 (virt_addr_base + Z.shiftl i PG_SZ_BITS)) (u64 (Z.shiftl (fget PTE.addr pte) PG_SZ_BITS)) false :: rest)
  end.

Fixpoint enumerate_directory (n : nat) (table i : Z) : M (vmem S) (list line) :=
  match n with
  | O => mret []
  | Datatypes.S n =>
    pde ← read_entry table i;
    lines ← (if fget PDE.p pde =? 0 then mret []
             else if negb (fget PDE.ps pde =? 0)
             then mret [Line (u32 (i * HUGE_PG_SZ)) (u64 (fget PDE4MB.addr pde * HUGE_PG_SZ)) true]
             else pt ← liftO (pt_of pde); enumerate_page_table (Z.to_nat page_table_entries) pt i 0);
    rest ← enumerate_directory n table (i + 1);
    mret (lines ++ rest)
  end.
Definition enumerate_page_tables : M (vmem S) (list line) :=
  table ← get_page_directory;
  enumerate_directory (Z.to_nat directory_table_entries) table 0.

Implicit Types (st : vmem S).

Lemma addr_bound (f : field) w : field_ok f = true → 0 ≤ fget f w < 2 ^ f.2.
Proof. intros Hf. unfold field_ok in Hf. apply bf_get_range. lia. Qed.

(** The line of entry [j] of the table of directory entry [k]. *)
Definition pte_line (k j : nat) (pte : Z) : line :=
  Line ((Z.of_nat k * 1024 + Z.of_nat j) * 2 ^ 12) (fget PTE.addr pte * 2 ^ 12) false.

Lemma wp_page_table st t pg k n i :
  mem st !! t = Some pg → length pg = 1024%nat → (i + n = 1024)%nat → (k < 1024)%nat →
  wp (enumerate_page_table n t (Z.of_nat k) (Z.of_nat i)) (λ ls st', st' = st ∧
    ∀ l, l ∈ ls ↔ ∃ j pte, (i ≤ j)%nat ∧ pg !! j = Some pte ∧ fget PTE.p pte ≠ 0 ∧ l = pte_line k j pte) st.
Proof.
  intros Ht Hlen. revert i. induction n as [|n IH]; intros i Hi Hk; cbn [enumerate_page_table].
  { apply wp_ret. split; [done|]. intros l. split; [by intros ?%elem_of_nil|].
    intros (j & pte & ? & Hj%lookup_lt_Some & _). lia. }
  destruct (lookup_lt_is_Some_2 pg i) as [pte Hpte]; [lia|].
  apply wp_bind. eapply wp_read_entry; [done..|]. apply wp_bind.
  replace (Z.of_nat i + 1) with (Z.of_nat (Datatypes.S i)) by lia.
  eapply wp_mono; [apply IH; lia|]. intros ls st' [-> Hls]. apply wp_ret. split; [done|].
  assert (Hline : Line (u32 (u32 (Z.of_nat k * HUGE_PG_SZ) + Z.shiftl (Z.of_nat i) PG_SZ_BITS))
                       (u64 (Z.shiftl (fget PTE.addr pte) PG_SZ_BITS)) false = pte_line k i pte).
  { pose proof (addr_bound PTE.addr pte eq_refl) as Hb. change (2 ^ PTE.addr.2) with (2 ^ 20) in Hb.
    unfold pte_line. change HUGE_PG_SZ with (2 ^ 22). change PG_SZ_BITS with 12.
    rewrite !Z.shiftl_mul_pow2 by lia. rewrite (wrap_small 32 (Z.of_nat k * 2 ^ 22)) by lia.
    rewrite !wrap_small by lia. f_equal. lia. }
  rewrite Hline. intros l. destruct (Z.eqb_spec (fget PTE.p pte) 0) as [H0|H0].
  - rewrite Hls. split.
    + intros (j & w & ? & ?). exists j, w. by split; [lia|].
    + intros (j & w & Hj & Hw & Hp & ->). exists j, w. split_and!; [|done..].
      destruct (decide (j = i)) as [->|]; [congruence|lia].
  - rewrite elem_of_cons, Hls. split.
    + intros [->|(j & w & ? & ?)]; [by exists i, pte|]. exists j, w. by split; [lia|].
    + intros (j & w & Hj & Hw & Hp & ->). destruct (decide (j = i)) as [->|]; [left; congruence|].
      right. exists j, w. split_and!; [lia|done..].
Qed.

(** The lines of directory entry [k]. *)
Definition pde_line (m : gmap Z page) (k : nat) (pde : Z) (l : line) : Prop :=
  fget PDE.p pde ≠ 0 ∧
  if fget PDE.ps pde =? 0
  then ∃ pg j pte, m !! tbl_addr pde = Some pg ∧ pg !! j = Some pte ∧ fget PTE.p pte ≠ 0 ∧ l = pte_line k j pte
  else l = Line (Z.of_nat k * 2 ^ 22) (fget PDE4MB.addr pde * 2 ^ 22) true.

Lemma wp_directory st d pd n i :
  dir_wf (mem st) d → mem st !! d = Some pd → length pd = 1024%nat → (i + n = 1024)%nat →
  wp (enumerate_directory n d (Z.of_nat i)) (λ ls st', st' = st ∧
    ∀ l, l ∈ ls ↔ ∃ k pde, (i ≤ k)%nat ∧ pd !! k = Some pde ∧ pde_line (mem st) k pde l) st.
Proof.
  intros (pd' & Hd' & _ & Hsm & _) Hd Hlen. rewrite Hd in Hd'. injection Hd' as <-.
  revert i. induction n as [|n IH]; intros i Hi; cbn [enumerate_directory].
  { apply wp_ret. split; [done|]. intros l. split; [by intros ?%elem_of_nil|].
    intros (k & pde & ? & Hk%lookup_lt_Some & _). lia. }
  destruct (lookup_lt_is_Some_2 pd i) as [pde Hpde]; [lia|].
  apply wp_bind. eapply wp_read_entry; [done..|]. apply wp_bind.
  eapply (wp_mono _ (λ ls st', st' = st ∧ ∀ l, l ∈ ls ↔ pde_line (mem st) i pde l)).
  - unfold pde_line. destruct (Z.eqb_spec (fget PDE.p pde) 0) as [H0|H0].
    { apply wp_ret. split; [done|]. intros l. rewrite elem_of_nil. tauto. }
    destruct (Z.eqb_spec (fget PDE.ps pde) 0) as [Hps|Hps]; cbn [negb].
    + destruct (Hsm i pde Hpde) as (Hb & _ & t & Ht & Htl); [done|].
      apply wp_bind. eapply wp_lift; [by apply pt_of_eq|]. change (Z.to_nat page_table_entries) with 1024%nat.
      eapply wp_mono; [apply (wp_page_table st _ t i 1024 0); [done..|lia]|].
      intros ls st' [-> Hls]. split; [done|]. intros l. rewrite Hls. split.
      * intros (j & pte & _ & ? & ? & ?). split; [done|]. by exists t, j, pte.
      * intros (_ & pg & j & pte & Hpg & ? & ? & ?). rewrite Ht in Hpg. simplify_eq. exists j, pte. by split_and!; [lia|..].
    + apply wp_ret. split; [done|]. intros l. rewrite list_elem_of_singleton.
      pose proof (addr_bound PDE4MB.addr pde eq_refl) as Hb. change (2 ^ PDE4MB.addr.2) with (2 ^ 10) in Hb.
      change HUGE_PG_SZ with (2 ^ 22). rewrite !wrap_small by lia. tauto.
  - intros ls1 st1 [-> H1]. apply wp_bind. replace (Z.of_nat i + 1) with (Z.of_nat (Datatypes.S i)) by lia.
    eapply wp_mono; [apply IH; lia|]. intros ls2 st2 [-> H2]. apply wp_ret. split; [done|].
    intros l. rewrite elem_of_app, H1, H2. split.
    + intros [Hl|(k & w & ? & ?)]; [by exists i, pde|]. exists k, w. by split; [lia|].
    + intros (k & w & Hk & Hw & Hl). destruct (decide (k = i)) as [->|]; [left; congruence|].
      right. exists k, w. split_and!; [lia|done..].
Qed.
(** What a line says of the page it stands for. *)
Definition line_of (l : line) (lf : leaf) : Prop :=
  l_virt l mod (if lf.1 then 2 ^ 22 else 2 ^ 12) = 0 ∧ l_phys l = leaf_phys lf (l_virt l) ∧ l_huge l = lf.1.

Lemma pde_line_walks m d pd k pde v p h :
  dir_wf m d → m !! d = Some pd → pd !! k = Some pde → (k < 1024)%nat → pde_line m k pde (Line v p h) →
  ∃ lf, 0 ≤ v < 2 ^ 32 ∧ walk m d v = Some lf ∧ line_of (Line v p h) lf.
Proof.
  intros (pd' & Hd' & _ & Hsm & _) Hd Hk ? [Hp Hl]. rewrite Hd in Hd'. injection Hd' as <-.
  unfold walk, line_of. cbn [l_virt l_phys l_huge]. rewrite Hd. cbn [mbind option_bind].
  destruct (Z.eqb_spec (fget PDE.ps pde) 0) as [Hps|Hps].
  - destruct Hl as (pg & j & pte & Hpg & Hj & Hpp & [= -> -> ->]).
    destruct (Hsm k pde Hk) as (_ & _ & t & Ht & Htl); [done|]. rewrite Ht in Hpg. injection Hpg as ->.
    assert (j < 1024)%nat by (apply lookup_lt_Some in Hj; lia).
    set (va := (Z.of_nat k * 1024 + Z.of_nat j) * 2 ^ 12).
    destruct (proj2 (page_split va k j ltac:(lia) ltac:(lia))) as [-> Hi]; [unfold va; by rewrite Z.div_mul|].
    exists (false, pte). split; [lia|]. rewrite Hk. cbn [mbind option_bind].
    rewrite (proj2 (Z.eqb_neq _ 0) Hp), Hps. change (0 =? 0) with true. cbn [negb].
    unfold leaf_of_pt. rewrite Ht. cbn [mbind option_bind]. rewrite Hi, Hj. cbn [mbind option_bind].
    rewrite (proj2 (Z.eqb_neq _ 0) Hpp). unfold leaf_phys. cbn [fst snd].
    assert (Hm : va mod 2 ^ 12 = 0) by (by apply Z.mod_mul). rewrite Hm, Z.shiftl_mul_pow2, Z.add_0_r by lia. done.
  - injection Hl as -> -> ->. exists (true, pde). split; [lia|]. rewrite Z.div_mul, Nat2Z.id, Hk by done.
    cbn [mbind option_bind]. rewrite (proj2 (Z.eqb_neq _ 0) Hp), (proj2 (Z.eqb_neq _ 0) Hps). cbn [negb].
    unfold leaf_phys. cbn [fst snd]. rewrite Z.mod_mul, Z.shiftl_mul_pow2, Z.add_0_r by lia. done.
Qed.

Lemma walk_pde_line m d pd v lf :
  m !! d = Some pd → 0 ≤ v → walk m d v = Some lf → v mod (if lf.1 then 2 ^ 22 else 2 ^ 12) = 0 →
  ∃ pde, pd !! Z.to_nat (v / 2 ^ 22) = Some pde ∧
    pde_line m (Z.to_nat (v / 2 ^ 22)) pde (Line v (leaf_phys lf v) lf.1).
Proof.
  intros Hd Hv Hwalk Hal. unfold walk in Hwalk. rewrite Hd in Hwalk. cbn [mbind option_bind] in Hwalk.
  destruct (pd !! Z.to_nat (v / 2 ^ 22)) as [pde|] eqn:Hk; [|done]. cbn [mbind option_bind] in Hwalk.
  exists pde. split; [done|]. unfold pde_line.
  assert (0 ≤ v / 2 ^ 22) by (apply Z.div_pos; lia).
  destruct (Z.eqb_spec (fget PDE.p pde) 0) as [|Hp]; [done|]. split; [done|].
  destruct (Z.eqb_spec (fget PDE.ps pde) 0) as [Hps|Hps]; cbn [negb] in Hwalk.
  - unfold leaf_of_pt in Hwalk. destruct (m !! tbl_addr pde) as [pg|] eqn:Hpg; [|done]. cbn [mbind option_bind] in Hwalk.
    destruct (pg !! _) as [pte|] eqn:Hj; [|done]. cbn [mbind option_bind] in Hwalk.
    destruct (Z.eqb_spec (fget PTE.p pte) 0) as [|Hpp]; [done|]. injection Hwalk as <-. cbn [fst] in Hal.
    exists pg, (Z.to_nat (v / 2 ^ 12 mod 2 ^ 10)), pte. split_and!; [done..|]. unfold pte_line, leaf_phys. cbn [fst snd].
    pose proof (proj1 (page_split v _ _ ltac:(lia) (pt_idx_bound v)) (conj eq_refl eq_refl)) as Hs.
    rewrite <- Hs, Hal, Z.shiftl_mul_pow2 by lia. f_equal; [|lia].
    pose proof (Z.div_mod v (2 ^ 12) ltac:(lia)). lia.
  - injection Hwalk as <-. cbn [fst] in Hal. unfold leaf_phys. cbn [fst snd].
    rewrite Hal, Z.shiftl_mul_pow2, Z2Nat.id by lia. f_equal; [|lia].
    pose proof (Z.div_mod v (2 ^ 22) ltac:(lia)). lia.
Qed.

(** The listing has a line for each page that is mapped and no other: its
    first address, the physical address it translates to and its size; and
    listing changes nothing. *)
Theorem enumerate_page_tables_lists st live :
  vm_wf st live →
  wp enumerate_page_tables (λ ls st', st' = st ∧ ∀ l, l ∈ ls ↔
    ∃ lf, 0 ≤ l_virt l < 2 ^ 32 ∧ vwalk st (l_virt l) = Some lf ∧ line_of l lf) st.
Proof.
  intros (_ & _ & Hc & Hwf). unfold enumerate_page_tables. apply wp_bind, wp_get_page_directory; [done|].
  pose proof Hwf as (pd & Hd & Hlen & _). change (Z.to_nat directory_table_entries) with 1024%nat.
  eapply wp_mono; [by apply (wp_directory st (cur_dir st) pd 1024 0)|]. intros ls st' [-> Hls]. split; [done|].
  intros [v p h]. rewrite Hls. split.
  - intros (k & pde & _ & Hk & Hl). eapply pde_line_walks; [done..| |done]. apply lookup_lt_Some in Hk. lia.
  - intros (lf & Hv & Hwalk & Hal & Hph & Hh). simpl in *. subst p h.
    destruct (walk_pde_line _ _ pd v lf Hd ltac:(lia) Hwalk Hal) as (pde & Hk & Hl).
    exists (Z.to_nat (v / 2 ^ 22)), pde. split_and!; [lia|done..].
Qed.
End dump.
