(* ===== verification/AddressSpace.v ===== *)
(** * Address spaces of processes

    How [proc/process.cc] and [sched/kthread.cc] use the page directories:
    a process gets a clone of the kernel's directory, its pages are mapped
    while the kernel is temporarily in its context
    ([ScopedEnterProcContext]), and [schedule] enters the directory of the
    thread it switches to ([enter_virtual_address_space]).

    The state is the scheduler of [Scheduler.v], the memory of
    [PageTable.v] and the member [page_directory] of each process.  The
    specification has one map of pages per process: an operation changes
    the map of the space it runs in and no other. *)
From S2P Require Import Prelude Algorithm Bitfield MemoryMap Kmalloc Scheduler PageTable.

Section ops.
Context {S : Type} `{PA : PageAllocator S}.

Record kernel := Kernel {
  ks : Scheduler;
  kv : vmem S;
  page_directory : gmap Z Z;    (** by the address of the process *)
}.
Definition on_sched {A} : M Scheduler A → M kernel A := on_part ks (λ s k, Kernel s (kv k) (page_directory k)).
Definition on_vmem {A} : M (vmem S) A → M kernel A := on_part kv (λ v k, Kernel (ks k) v (page_directory k)).

(** [Process::enter_virtual_address_space] *)
Definition enter_virtual_address_space (p : Z) : M kernel unit :=
  k ← getS;
  pd ← liftO (deref (page_directory k !! p));
  _ ← assertM (negb (pd =? 0));
  on_vmem (set_page_directory pd).

(** [ScopedEnterProcContext]: the constructor, which remembers the
    previous directory, and the destructor. *)
Definition enter_proc_context (p pd : Z) : M kernel Z :=
  prev_pd ← on_vmem get_page_directory;
  _ ← on_sched (override_curr_proc (Some p));
  _ ← on_vmem (set_page_directory pd);
  mret prev_pd.
Definition leave_proc_context (prev_pd : Z) : M kernel unit :=
  _ ← on_vmem (set_page_directory prev_pd);
  on_sched (override_curr_proc None).
Definition scoped {A} (p : Z) (body : M (vmem S) A) : M kernel A :=
  k ← getS;
  pd ← liftO (deref (page_directory k !! p));
  prev_pd ← enter_proc_context p pd;
  r ← on_vmem body;
  _ ← leave_proc_context prev_pd;
  mret r.

(** The start of the constructor of [Process]. *)
Definition new_space (p : Z) : M kernel unit :=
  pd ← on_vmem clone_kernel_page_directory;
  k ← getS; putS (Kernel (ks k) (kv k) (<[p := pd]> (page_directory k))).

(** [Scheduler::schedule] with the change of address space in its place. *)
Definition schedule_space (t0 t1 : Z) : M kernel unit :=
  k ← getS;
  current_task ← liftO (match running (ks k) with Some r => Ret r | None => Halt AssertFail end);
  c ← on_sched choose_task;
  new_task ← liftO (match c with Some a => Ret a | None => Halt AssertFail end);
  if new_task =? current_task then mret tt
  else
    _ ← on_sched (upd (λ s, with_queue (Some new_task) (unlink new_task (runnable s) ++ [current_task]) s));
    _ ← on_sched (upd (λ s, with_times (context_switch_count s) (context_switch_cum_cycles s) t0 s));
    t ← on_sched (get_thread new_task);
    _ ← (match proc t with
         | Some p => _ ← on_sched (upd (with_space (Some p))); enter_virtual_address_space p
         | None => mret tt
         end);
    on_sched (post_context_switch_bookkeeping t1).

(** What runs in a space: page-table operations and accesses, and the
    allocation of a page by the page-fault handler. *)
Inductive uop :=
| UOp (o : vop)
| UVmalloc (virt : Z) (writable : bool).
Definition run_uop (o : uop) : M (vmem S) vres :=
  match o with
  | UOp o => run_vop o
  | UVmalloc virt w => b ← vmalloc virt 1 w; mret (RBool b)
  end.
Fixpoint run_uops (os : list uop) : M (vmem S) (list vres) :=
  match os with
  | [] => mret []
  | o :: os => r ← run_uop o; rs ← run_uops os; mret (r :: rs)
  end.

Inductive aop :=
| ARun (os : list uop)
| ANew (p : Z)
| AEnter (p : Z)
| AScoped (p : Z) (os : list uop).
Definition run_aop (o : aop) : M kernel (list vres) :=
  match o with
  | ARun os => on_vmem (run_uops os)
  | ANew p => _ ← new_space p; mret []
  | AEnter p => _ ← enter_virtual_address_space p; mret []
  | AScoped p os => scoped p (run_uops os)
  end.
Fixpoint run_aops (os : list aop) : M kernel (list (list vres)) :=
  match os with
  | [] => mret []
  | o :: os => r ← run_aop o; rs ← run_aops os; mret (r :: rs)
  end.
End ops.
Arguments kernel : clear implicits.

(** ** Specification *)
(** The spaces by process ([None] is the kernel's own), the current one,
    and the pages in use. *)
Abbreviation pmap := (Z → option leaf).
Record spaces := Spaces { cur : option Z; maps : gmap (option Z) pmap; in_use : list Z }.

(** What a new process sees. *)
Definition kernel_half (A : pmap) : pmap := λ v, if decide (hhdm_start / PG_SZ ≤ v) then A v else None.

Section spec.
Context {S : Type} `{PA : PageAllocator S}.

(** Steps in one space, with the states of the heap before and after.  A
    new page is one that nothing used before; the allocation of a page takes
    one for the page and at most one for its table, and fails only when the
    page is mapped or one of these requests is refused. *)
Inductive u_step : pmap → list Z → S → uop → vres → pmap → list Z → S → Prop :=
| u_op A l h o r A' l' h' : pm_step A h o r A' h' → l ⊆ l' → u_step A l h (UOp o) r A' l' h'
| u_vmalloc A l h virt w f l' h1 h' :
    A (virt / PG_SZ) = None → 0 ≤ f < hhdm_len → f mod PG_SZ = 0 → (f + hhdm_start ∉ l) → f + hhdm_start ∈ l' → l ⊆ l' →
    pga_new h = Ret (f + hhdm_start, h1) → may_take h1 h' →
    u_step A l h (UVmalloc virt w) (RBool true) (pm_set A virt (Some (false, pte_user f true w false))) l' h'
| u_vmalloc_mapped A l h virt w l' p h' :
    is_Some (A (virt / PG_SZ)) → l ⊆ l' → pga_new h = Ret (p, h') → u_step A l h (UVmalloc virt w) (RBool false) A l' h'
| u_vmalloc_refused A l h virt w l' h' :
    ¬ serves 2 h → spends 2 h h' → l ⊆ l' → u_step A l h (UVmalloc virt w) (RBool false) A l' h'.
Inductive u_steps : pmap → list Z → S → list uop → list vres → pmap → list Z → S → Prop :=
| u_nil A l h : u_steps A l h [] [] A l h
| u_cons A l h o r A1 l1 h1 os rs A2 l2 h2 :
    u_step A l h o r A1 l1 h1 → u_steps A1 l1 h1 os rs A2 l2 h2 → u_steps A l h (o :: os) (r :: rs) A2 l2 h2.

Inductive a_step : spaces → S → aop → list vres → spaces → S → Prop :=
| a_run c m l h os A rs A' l' h' :
    m !! c = Some A → u_steps A l h os rs A' l' h' →
    a_step (Spaces c m l) h (ARun os) rs (Spaces c (<[c := A']> m) l') h'
| a_new c m l h p A l' h' :
    m !! c = Some A → l ⊆ l' → spends clone_cost h h' →
    a_step (Spaces c m l) h (ANew p) [] (Spaces c (<[Some p := kernel_half A]> m) l') h'
| a_enter c m l h p : is_Some (m !! Some p) → a_step (Spaces c m l) h (AEnter p) [] (Spaces (Some p) m l) h
| a_scoped c m l h p os A rs A' l' h' :
    m !! Some p = Some A → u_steps A l h os rs A' l' h' →
    a_step (Spaces c m l) h (AScoped p os) rs (Spaces c (<[Some p := A']> m) l') h'.
Inductive a_steps : spaces → S → list aop → list (list vres) → spaces → S → Prop :=
| a_nil σ h : a_steps σ h [] [] σ h
| a_cons σ h o r σ1 h1 os rs σ2 h2 :
    a_step σ h o r σ1 h1 → a_steps σ1 h1 os rs σ2 h2 → a_steps σ h (o :: os) (r :: rs) σ2 h2.

(** The pages an operation may ask for *)
Definition uop_cost (o : uop) : nat := match o with UOp _ => 1 | UVmalloc _ _ => 2 end.
Fixpoint uops_cost (os : list uop) : nat := match os with [] => 0 | o :: os => uop_cost o + uops_cost os end.
Definition aop_cost (o : aop) : nat :=
  match o with ARun os | AScoped _ os => uops_cost os | ANew _ => clone_cost | AEnter _ => 0 end.
Fixpoint aops_cost (os : list aop) : nat := match os with [] => 0 | o :: os => aop_cost o + aops_cost os end.

Lemma u_step_spends A l h o r A' l' h' : u_step A l h o r A' l' h' → spends (uop_cost o) h h'.
Proof.
  destruct 1 as [? ? ? ? ? ? ? ? Hs| ? ? ? ? ? ? ? ? ? ? ? ? ? ? ? Hn Hm|? ? ? ? ? ? ? ? ? ? Hn|]; cbn [uop_cost]; [by eapply pm_step_spends| | |done].
  - eapply (spends_trans 1 1); [by eapply spends_new|by apply spends_may_take].
  - eapply (spends_le 1); [lia|by eapply spends_new].
Qed.
Lemma u_steps_spends A l h os rs A' l' h' : u_steps A l h os rs A' l' h' → spends (uops_cost os) h h'.
Proof. induction 1; [apply spends_refl|]. cbn [uops_cost]. eapply spends_trans; [by eapply u_step_spends|done]. Qed.
Lemma a_step_spends σ h o r σ' h' : a_step σ h o r σ' h' → spends (aop_cost o) h h'.
Proof. destruct 1; cbn [aop_cost]; [by eapply u_steps_spends|done|apply spends_refl|by eapply u_steps_spends]. Qed.
End spec.

(** The callers' obligations: pages outside [H], which the 4MB mappings
    cover; a process is created once, and before it is entered. *)
Definition vop_safe (H : Z → Prop) (o : vop) : Prop :=
  let page v := is_u32 v ∧ v mod PG_SZ = 0 ∧ ¬ H (v / PG_SZ) in
  match o with
  | VMap phys virt _ _ _ => phys mod PG_SZ = 0 ∧ page virt
  | VUnmap virt | VUncacheable virt => page virt
  | VAccess va => is_u32 va
  end.
Definition uop_safe (H : Z → Prop) (o : uop) : Prop :=
  match o with
  | UOp o => vop_safe H o
  | UVmalloc virt _ => is_u32 virt ∧ virt mod PG_SZ = 0 ∧ ¬ H (virt / PG_SZ)
  end.
Fixpoint aops_ok (H : Z → Prop) (known : list Z) (os : list aop) : Prop :=
  match os with
  | [] => True
  | ARun us :: os => Forall (uop_safe H) us ∧ aops_ok H known os
  | ANew p :: os => (p ∉ known) ∧ aops_ok H (p :: known) os
  | AEnter p :: os => p ∈ known ∧ aops_ok H known os
  | AScoped p us :: os => p ∈ known ∧ Forall (uop_safe H) us ∧ aops_ok H known os
  end.
Definition huge_in (H : Z → Prop) (A : pmap) : Prop := ∀ v w, A v = Some (true, w) → H v.

(** ** Tables of one directory *)
Lemma tables_agree m m' d : (∀ a, tables m d a → m' !! a = m !! a) → dir_wf m d →
  dir_wf m' d ∧ (∀ x, walk m' d x = walk m d x) ∧ (∀ a, tables m' d a → tables m d a).
Proof.
  intros Hag (pd & Hpd & Hlen & Hsm & Hinj). assert (Hpd' : m' !! d = Some pd) by (rewrite Hag; [done|by left]).
  assert (Ht : ∀ i pde, pd !! i = Some pde → small pde → m' !! tbl_addr pde = m !! tbl_addr pde).
  { intros i pde Hi Hs. apply Hag. right. by exists pd, i, pde. }
  split; [|split].
  - exists pd. split_and!; [done|done| |done]. intros i pde Hi Hs. rewrite (Ht i) by done. by apply (Hsm i).
  - intros x. unfold walk. rewrite Hpd', Hpd. cbn [mbind option_bind].
    destruct (pd !! _) as [pde|] eqn:Hi; [|done]. cbn [mbind option_bind].
    destruct (Z.eqb_spec (fget PDE.p pde) 0); [done|]. destruct (Z.eqb_spec (fget PDE.ps pde) 0); [|done].
    cbn [negb]. unfold leaf_of_pt. by rewrite (Ht _ _ Hi).
  - intros a [->|(pd1 & i & pde & Hd & Hi & Hs & ->)]; [by left|]. assert (pd1 = pd) as -> by congruence.
    right. by exists pd, i, pde.
Qed.
Lemma tables_present m d a : dir_wf m d → tables m d a → is_Some (m !! a).
Proof.
  intros (pd & Hpd & _ & Hsm & _) [->|(pd' & i & pde & Hd & Hi & Hs & ->)]; [by exists pd|].
  assert (pd' = pd) as -> by congruence. destruct (Hsm _ _ Hi Hs) as (_ & _ & t & Ht & _). by exists t.
Qed.

Section proofs.
Context {S : Type} `{PA : PageAllocator S}.
Implicit Types (v : vmem S) (k : kernel S) (l : list Z) (A : pmap).

(** ** Running in one space *)
Lemma wp_vmalloc_page v l virt w (Q : bool → vmem S → Prop) :
  vm_wf v l → is_u32 virt → virt mod PG_SZ = 0 → not_huge v virt →
  (∀ f v' l', l ⊆ l' → vm_wf v' l' → same_regs v v' → vwalk v virt = None → 0 ≤ f < hhdm_len → f mod PG_SZ = 0 →
     (f + hhdm_start ∉ l) → f + hhdm_start ∈ l' →
     remapped v v' virt (Some (false, pte_user f true w false)) → framed v v' l →
     (∃ h1, pga_new (heap_st v) = Ret (f + hhdm_start, h1) ∧ may_take h1 (heap_st v')) → Q true v') →
  (∀ v' l', l ⊆ l' → vm_wf v' l' → same_regs v v' → (∀ x, vwalk v' x = vwalk v x) →
     (is_Some (vwalk v virt) ∧ (∃ p, pga_new (heap_st v) = Ret (p, heap_st v')) ∨
      ¬ serves 2 (heap_st v) ∧ spends 2 (heap_st v) (heap_st v')) → framed v v' l → Q false v') →
  wp (vmalloc virt 1 w) Q v.
Proof.
  intros Hwf Hv Hal Hnh Hok Hno. assert (H4 : PG_SZ = 4096) by done. assert (Hl4 : hhdm_len = 0x3DC00000) by done.
  unfold vmalloc. change (Z.to_nat 1) with 1%nat. cbn [vmalloc_loop].
  apply wp_bind. eapply wp_operator_new_page; [by destruct Hwf|..].
  { intros h Hoom Hh. apply wp_ret. eapply Hno; [done|by eapply vm_wf_heap|done|done| |by apply framed_same].
    right. split; [by eapply (refused 1)|]. eapply (spends_le 1); [lia|by eapply spends_new]. }
  intros f h Hf0 Hfm Hflim Hfresh Hh Hgot.
  rewrite (proj2 (Z.eqb_neq _ _)) by (change hhdm_start with 0xC0000000; lia).
  apply wp_bind. eapply wp_lift; [apply hhdm_to_direct_eq; lia|].
  rewrite shiftl_pg, (wrap_small 32 (0 * _)), Z.add_0_r, wrap_small by lia.
  assert (Hsub0 : l ⊆ f + hhdm_start :: l) by (intros a Ha; by right).
  assert (Hfr0 : ∀ v', framed (with_heap h v) v' (f + hhdm_start :: l) → framed v v' l).
  { intros v' Hfr. by eapply (framed_trans v (with_heap h v)); [apply framed_same|exact Hfr|..]. }
  apply wp_bind. eapply (wp_map (with_heap h v)); [by eapply vm_wf_heap|done|done|done|exact Hnh|..].
  - intros v' l' Hsub Hwf' Hregs Hnone Hre Hfr (Hmay & _). cbn [negb]. apply wp_ret.
    eapply (Hok f); [by etransitivity|exact Hwf'|done|done|lia|done|done| |done|by apply Hfr0|by exists h]. apply Hsub. by left.
  - intros v' l' Hsub Hwf' Hregs Hsame Hwhy Hfr. cbn [negb]. apply wp_ret.
    eapply Hno; [by etransitivity|exact Hwf'|done|done| |by apply Hfr0].
    cbn [heap_st with_heap] in Hwhy. destruct Hwhy as [[? ->]|(_ & _ & Href)]; [by left; eauto|right].
    apply spends_new in Hgot. split; [eapply refused_later; [exact Hgot|by eapply (refused 0)|lia]|].
    eapply (spends_trans 1 1); [exact Hgot|by eapply spends_new].
Qed.

Lemma uop_sim v l A H o : vm_wf v l → agrees v A → huge_in H A → uop_safe H o →
  wp (run_uop o) (λ r v', ∃ A' l', vm_wf v' l' ∧ u_step A l (heap_st v) o r A' l' (heap_st v') ∧ agrees v' A' ∧ huge_in H A' ∧
    l ⊆ l' ∧ cr3 v' = cr3 v ∧ framed v v' l) v.
Proof.
  intros Hwf Hag Hh Hok. destruct o as [o|virt w]; cbn [run_uop uop_safe] in *.
  - eapply wp_mono; [apply (vop_sim v l A o Hwf Hag)|].
    + destruct o; cbn [vop_ok vop_safe] in *; unfold page_ok; naive_solver.
    + intros r v' (A' & l' & Hwf' & Hst & Hag' & Hsub & Hc & Hfr). exists A', l'.
      split; [done|]. split; [by apply u_op|]. split; [done|]. split; [|done].
      intros x w Hx. eapply Hh. by eapply pm_step_huge.
  - destruct Hok as (Hv & Hal & HnH). pose proof Hag as [Hw Ht].
    assert (Hnh : not_huge v virt) by (intros x; rewrite Hw by done; by intros ?%Hh).
    apply wp_bind. eapply wp_vmalloc_page; [done..| |].
    + intros f v' l' Hsub Hwf' (Hc & Htlb & _) Hnone Hf Hfm Hfresh Hin Hre Hfr (h1 & Hn1 & Hm1). apply wp_ret. rewrite Hw in Hnone by done.
      eexists _, l'. split; [done|]. split; [by eapply u_vmalloc|]. split; [|split; [|done]].
      * eapply agrees_remapped; [done..|]. rewrite Htlb, delete_id; [done|].
        apply eq_None_not_Some. intros [x Hx]. apply Ht in Hx. congruence.
      * intros x y. unfold pm_set. case_decide; [done|]. apply Hh.
    + intros v' l' Hsub Hwf' (Hc & Htlb & _) Hsame Hwhy Hfr. apply wp_ret. exists A, l'. split; [done|].
      rewrite Hw in Hwhy by done. split.
      { destruct Hwhy as [[? [p ?]]|[? ?]]; [by eapply u_vmalloc_mapped|by apply u_vmalloc_refused]. }
      split; [|done].
      split; [intros x Hx; rewrite Hsame; by apply Hw|by rewrite Htlb].
Qed.

Lemma uops_sim H os : ∀ v l A, vm_wf v l → agrees v A → huge_in H A → Forall (uop_safe H) os →
  wp (run_uops os) (λ rs v', ∃ A' l', vm_wf v' l' ∧ u_steps A l (heap_st v) os rs A' l' (heap_st v') ∧ agrees v' A' ∧ huge_in H A' ∧
    l ⊆ l' ∧ cr3 v' = cr3 v ∧ framed v v' l) v.
Proof.
  induction os as [|o os IH]; intros v l A Hwf Hag Hh Hok; cbn [run_uops].
  { apply wp_ret. exists A, l. split_and!; try done; [constructor|apply Hag..|by apply framed_same]. }
  apply Forall_cons in Hok as [Ho Hos]. apply wp_bind. eapply wp_mono; [by eapply uop_sim|].
  intros r v1 (A1 & l1 & Hwf1 & Hst & Hag1 & Hh1 & Hsub1 & Hc1 & Hfr1). apply wp_bind.
  eapply wp_mono; [by eapply IH|]. intros rs v2 (A2 & l2 & Hwf2 & Hsts & Hag2 & Hh2 & Hsub2 & Hc2 & Hfr2).
  apply wp_ret. exists A2, l2. split; [done|]. split; [by econstructor|]. split; [done|]. split; [done|].
  split; [by etransitivity|]. split; [congruence|]. by eapply framed_trans.
Qed.
End proofs.

(** ** Several spaces *)
Section spaces_rep.
Context {S : Type} `{PA : PageAllocator S}.
Implicit Types (v : vmem S) (k : kernel S) (l : list Z) (A : pmap) (σ : spaces) (ds : option Z → option Z).

Definition space_ok (m : gmap Z page) A (d : Z) : Prop :=
  hhdm_start ≤ d < hhdm_start + hhdm_len ∧ dir_wf m d ∧ ∀ x, is_u32 x → walk m d x = A (x / PG_SZ).
(** Each space has tables of its own. *)
Definition mem_rep v ds σ : Prop :=
  pga_inv (heap_st v) (in_use σ) ∧ (∀ a, is_Some (mem v !! a) → a ∈ in_use σ) ∧
  (∀ q, is_Some (maps σ !! q) ↔ is_Some (ds q)) ∧
  (∀ q d A, ds q = Some d → maps σ !! q = Some A → space_ok (mem v) A d) ∧
  (∀ q q' d d' a, q ≠ q' → ds q = Some d → ds q' = Some d' → tables (mem v) d a → ¬ tables (mem v) d' a).
Definition cur_rep v ds σ : Prop :=
  ds (cur σ) = Some (cur_dir v) ∧ ∀ A x w, maps σ !! cur σ = Some A → tlb v !! x = Some w → A x = Some w.

Lemma rep_vm v ds σ : mem_rep v ds σ → cur_rep v ds σ →
  ∃ A, maps σ !! cur σ = Some A ∧ vm_wf v (in_use σ) ∧ agrees v A.
Proof.
  intros (Hinv & Hdom & Hkeys & Hsp & _) [Hc Ht]. destruct (proj2 (Hkeys (cur σ))) as [A HA]; [by rewrite Hc|].
  destruct (Hsp _ _ _ Hc HA) as (Hr & Hdir & Hw). exists A. split; [done|]. split.
  - split; [done|]. split; [done|]. split; [unfold cur_dir in Hr; lia|done].
  - split; [exact Hw|]. intros x w. by apply Ht.
Qed.

(** An operation in the current space *)
Lemma rep_update v v' ds c m l A A' l' :
  mem_rep v ds (Spaces c m l) → cur_rep v ds (Spaces c m l) → m !! c = Some A → vm_wf v' l' → agrees v' A' → l ⊆ l' →
  cr3 v' = cr3 v → framed v v' l →
  mem_rep v' ds (Spaces c (<[c := A']> m) l') ∧ cur_rep v' ds (Spaces c (<[c := A']> m) l').
Proof.
  intros (Hinv & Hdom & Hkeys & Hsp & Hdisj) [Hc Ht] HA (Hinv' & Hdom' & Hcr & Hdir') [Hw' Ht'] Hsub Hcr3 [Hkeep Hnew].
  cbn [cur maps in_use] in *. assert (Hcd : cur_dir v' = cur_dir v) by (unfold cur_dir; by rewrite Hcr3).
  assert (Hold : ∀ q d, q ≠ c → ds q = Some d → dir_wf (mem v) d ∧ ∀ a, tables (mem v) d a → mem v' !! a = mem v !! a).
  { intros q d Hq Hd. destruct (proj2 (Hkeys q)) as [B HB]; [by rewrite Hd|]. destruct (Hsp _ _ _ Hd HB) as (_ & Hdir & _).
    split; [done|]. intros a Ha. apply Hkeep; [by eapply Hdom, tables_present|]. by apply (Hdisj q c d). }
  split; [split; [done|]; split; [done|]; split; [|split]|]; cbn [cur maps in_use].
  - intros q. rewrite <- Hkeys, lookup_insert_is_Some'. split; [intros [<-|?]; [by rewrite HA|done]|by right].
  - intros q d B Hd HB. destruct (decide (q = c)) as [->|Hq].
    + rewrite lookup_insert_eq in HB. injection HB as <-. assert (d = cur_dir v') as -> by congruence.
      split; [unfold cur_dir; lia|]. by split.
    + rewrite lookup_insert_ne in HB by done. destruct (Hold _ _ Hq Hd) as [Hdir Hag].
      destruct (tables_agree _ _ _ Hag Hdir) as (? & Hwalk & _). destruct (Hsp _ _ _ Hd HB) as (? & _ & Hw).
      split; [done|]. split; [done|]. intros x Hx. rewrite Hwalk. by apply Hw.
  - assert (Hback : ∀ q d a, ds q = Some d → tables (mem v') d a → q ≠ c ∧ a ∈ l ∧ tables (mem v) d a ∨ q = c ∧ d = cur_dir v).
    { intros q d a Hd Ha. destruct (decide (q = c)) as [->|Hq]; [right; split; [done|congruence]|]. left.
      destruct (Hold _ _ Hq Hd) as [Hdir Hag]. destruct (tables_agree _ _ _ Hag Hdir) as (_ & _ & Hta). apply Hta in Ha.
      split; [done|]. split; [by eapply Hdom, tables_present|done]. }
    intros q q' d d' a Hne Hd Hd' Ha Ha'. pose proof (Hback _ _ _ Hd Ha) as H1. pose proof (Hback _ _ _ Hd' Ha') as H2.
    destruct H1 as [(Hq & Hal & H1)|(-> & ->)], H2 as [(Hq' & Hal' & H2)|(-> & ->)]; [by eapply (Hdisj q q')| | |done].
    + apply Hnew in Ha' as [Ha'|?]; [|done]. by eapply (Hdisj q c).
    + apply Hnew in Ha as [Ha|?]; [|done]. by eapply (Hdisj q' c).
  - split; cbn [cur maps]; [by rewrite Hcd|]. intros B x w. rewrite lookup_insert_eq. intros [= <-]. apply Ht'.
Qed.

(** Changing the current space *)
Lemma wp_set_page_directory v ds c m l q d (Q : unit → vmem S → Prop) :
  mem_rep v ds (Spaces c m l) → ds q = Some d →
  (∀ v', mem_rep v' ds (Spaces q m l) → cur_rep v' ds (Spaces q m l) → heap_st v' = heap_st v → Q tt v') →
  wp (set_page_directory d) Q v.
Proof.
  intros Hrep Hd HQ. pose proof Hrep as (_ & _ & Hkeys & Hsp & _). cbn [maps] in *.
  destruct (proj2 (Hkeys q)) as [A HA]; [by rewrite Hd|]. destruct (Hsp _ _ _ Hd HA) as (Hr & _).
  unfold set_page_directory. apply wp_bind. eapply (wp_lift _ (d - hhdm_start)).
  { rewrite <- (hhdm_to_direct_eq (d - hhdm_start)) by lia. f_equal. lia. }
  apply wp_bind, wp_get, wp_put, HQ; [exact Hrep| |done].
  split; cbn [cur maps tlb]; [|by intros ? ? ? _ ?%lookup_empty_Some].
  rewrite Hd. f_equal. unfold cur_dir. cbn [cr3]. lia.
Qed.

Lemma kernel_half_walk A x : is_u32 x → kernel_half A (x / PG_SZ) = if decide (hhdm_start ≤ x) then A (x / PG_SZ) else None.
Proof.
  intros Hx. unfold kernel_half. change hhdm_start with (0xC0000 * PG_SZ). rewrite Z.div_mul by done.
  assert (H : 0xC0000 ≤ x / PG_SZ ↔ 0xC0000 * PG_SZ ≤ x).
  { change PG_SZ with 4096. Z.div_mod_to_equations. lia. }
  do 2 case_decide; tauto.
Qed.

(** A new space *)
Lemma wp_clone_space v ds c m l A p :
  mem_rep v ds (Spaces c m l) → cur_rep v ds (Spaces c m l) → m !! c = Some A → ds (Some p) = None →
  wp_oom clone_cost clone_kernel_page_directory (λ d v', ∃ l', l ⊆ l' ∧
    let ds' q := if decide (q = Some p) then Some d else ds q in
    let σ' := Spaces c (<[Some p := kernel_half A]> m) l' in
    mem_rep v' ds' σ' ∧ cur_rep v' ds' σ') v.
Proof.
  intros Hrep Hcur HA Hp. destruct (rep_vm _ _ _ Hrep Hcur) as (A0 & HA0 & Hwf & Hag).
  cbn [cur maps in_use] in *. assert (A0 = A) as -> by congruence.
  destruct (clone_spec v l Hwf) as [Hw|?]; [left|by right]. eapply wp_mono; [exact Hw|].
  intros new v' (Hsp0 & pd & f & Hpd & -> & Hf & Hc & Hr1 & Hr2 & _). split; [done|]. pose proof Hc as (l' & npd & Hh & Hsub & Hdom' & Hm & Hnf & Hnpd & _).
  pose proof Hwf as (_ & _ & _ & Hdir). destruct Hrep as (Hinv & Hdom & Hkeys & Hsp & Hdisj). destruct Hcur as [Hcd Ht].
  cbn [cur maps in_use] in *. exists l'. split; [done|]. cbv zeta.
  assert (Hcp : c ≠ Some p) by congruence.
  assert (Hold : ∀ q d, ds q = Some d → ∀ a, tables (mem v) d a → a ∈ l ∧ mem v' !! a = mem v !! a).
  { intros q d Hd a Ha. destruct (proj2 (Hkeys q)) as [B HB]; [by rewrite Hd|]. destruct (Hsp _ _ _ Hd HB) as (_ & Hdd & _).
    destruct (tables_present _ _ _ Hdd Ha) as [t Hta]. split; [by apply Hdom; exists t|]. rewrite Hta. by eapply lookup_weaken. }
  assert (Hfwd : ∀ q d B, ds q = Some d → m !! q = Some B →
    dir_wf (mem v') d ∧ (∀ x, walk (mem v') d x = walk (mem v) d x) ∧ ∀ a, tables (mem v') d a → tables (mem v) d a).
  { intros q d B Hd HB. apply tables_agree; [intros a Ha; by eapply Hold|]. by destruct (Hsp _ _ _ Hd HB) as (_ & ? & _). }
  assert (Hfresh : ∀ a, tables (mem v') (f + hhdm_start) a → a ∉ l).
  { intros a [->|(pd' & i & pde & Hd & Hi & Hs & ->)]; [done|].
    by destruct (clone_done_entry _ _ _ _ _ _ _ _ _ Hdir Hpd Hc Hd Hi Hs) as (_ & _ & _ & _ & ? & _). }
  split; [split; [done|]; split; [done|]; split; [|split]|]; cbn [cur maps in_use].
  - intros q. case_decide as Hq; [subst q; by rewrite lookup_insert_eq|]. by rewrite lookup_insert_ne.
  - intros q d B. case_decide as Hq; intros Hd.
    + subst q. injection Hd as <-. rewrite lookup_insert_eq. intros [= <-]. split; [lia|].
      split; [by eapply clone_done_wf|]. intros x Hx. rewrite kernel_half_walk by done.
      rewrite (clone_done_walk _ _ _ _ _ _ x Hdir Hpd Hc Hx). case_decide; [|done]. destruct Hag as [Hag _]. exact (Hag x Hx).
    + rewrite lookup_insert_ne by done. intros HB. destruct (Hfwd _ _ _ Hd HB) as (? & Hwk & _).
      destruct (Hsp _ _ _ Hd HB) as (? & _ & Hwx). split; [done|]. split; [done|]. intros x Hx. rewrite Hwk. by apply Hwx.
  - intros q q' d d' a Hne. assert (Hb : ∀ q d, ds q = Some d → tables (mem v') d a → a ∈ l ∧ tables (mem v) d a).
    { intros q0 d0 Hd Ha. destruct (proj2 (Hkeys q0)) as [B HB]; [by rewrite Hd|].
      destruct (Hfwd _ _ _ Hd HB) as (_ & _ & Hta). apply Hta in Ha. split; [by eapply Hold|done]. }
    case_decide as Hq; case_decide as Hq'; intros Hd Hd' Ha Ha'; [congruence|..].
    + injection Hd as <-. apply (Hfresh a Ha). by eapply Hb.
    + injection Hd' as <-. apply (Hfresh a Ha'). by eapply Hb.
    + eapply (Hdisj q q'); [done|done|done|by eapply Hb|by eapply Hb].
  - split; cbn [cur maps]; [rewrite decide_False by done; rewrite Hcd; unfold cur_dir; by rewrite Hr1|].
    intros B x w. rewrite lookup_insert_ne by done. rewrite Hr2. apply Ht.
Qed.
End spaces_rep.

Section refinement.
Context {S : Type} `{PA : PageAllocator S}.
Implicit Types (k : kernel S) (σ : spaces).
(** A stop that [n] more pages would have avoided *)
Definition stops_without (n : nat) k (f : fault) : Prop := f = BadAccess ∧ ¬ serves n (heap_st (kv k)).

(** The directory of a space: [boot] is the kernel's own. *)
Definition dir_of (boot : Z) k (q : option Z) : option Z :=
  match q with None => Some boot | Some p => page_directory k !! p end.
Definition spaces_rep (boot : Z) k σ : Prop :=
  mem_rep (kv k) (dir_of boot k) σ ∧ cur_rep (kv k) (dir_of boot k) σ ∧ curr_proc_override (ks k) = None.
Definition spaces_ok (H : Z → Prop) (known : list Z) σ : Prop :=
  (∀ q A, maps σ !! q = Some A → huge_in H A) ∧ (∀ p, p ∈ known ↔ is_Some (maps σ !! Some p)).

Lemma spaces_ok_insert H known c m l q A A' l' : spaces_ok H known (Spaces c m l) → m !! q = Some A → huge_in H A' →
  ∀ c', spaces_ok H known (Spaces c' (<[q := A']> m) l').
Proof.
  intros [Hh Hk] HA HA' c'. cbn [maps] in *. split; cbn [maps].
  - intros q' B. rewrite lookup_insert_Some. intros [[_ <-]|[_ ?]]; [done|by eapply Hh].
  - intros p. rewrite Hk, lookup_insert_is_Some'. split; [by right|]. intros [->|?]; [by exists A|done].
Qed.

Lemma wp_enter boot k c m l p : spaces_rep boot k (Spaces c m l) → is_Some (m !! Some p) →
  wp (enter_virtual_address_space p) (λ _ k', spaces_rep boot k' (Spaces (Some p) m l) ∧
    ks k' = ks k ∧ page_directory k' = page_directory k ∧ heap_st (kv k') = heap_st (kv k)) k.
Proof.
  intros (Hrep & Hcur & Hov) [A HA]. pose proof Hrep as (_ & _ & Hkeys & Hsp & _). cbn [maps] in *.
  destruct (proj1 (Hkeys (Some p))) as [d Hd]; [by exists A|]. destruct (Hsp _ _ _ Hd HA) as (Hr & _).
  unfold enter_virtual_address_space. apply wp_bind, wp_get, wp_bind. eapply wp_deref; [exact Hd|].
  apply wp_bind, wp_assert; [change hhdm_start with 0xC0000000 in Hr; apply negb_true_iff, Z.eqb_neq; lia|].
  apply wp_on_part. eapply (wp_set_page_directory _ (dir_of boot k) c m l (Some p)); [done..|]. intros v' Hrep' Hcur'. done.
Qed.

Lemma wp_run_in boot k c m l H known os : spaces_rep boot k (Spaces c m l) → spaces_ok H known (Spaces c m l) →
  Forall (uop_safe H) os →
  wp (on_vmem (run_uops os)) (λ rs k', ∃ A A' l', m !! c = Some A ∧
    u_steps A l (heap_st (kv k)) os rs A' l' (heap_st (kv k')) ∧ huge_in H A' ∧
    spaces_rep boot k' (Spaces c (<[c := A']> m) l') ∧ ks k' = ks k ∧ page_directory k' = page_directory k) k.
Proof.
  intros (Hrep & Hcur & Hov) [Hh Hk] Hos. destruct (rep_vm _ _ _ Hrep Hcur) as (A & HA & Hwf & Hag). cbn [cur maps in_use] in *.
  apply wp_on_part. eapply wp_mono; [by eapply uops_sim; [..|eapply Hh|]|].
  intros rs v' (A' & l' & Hwf' & Hst & Hag' & Hh' & Hsub & Hc & Hfr). exists A, A', l'. split; [done|]. split; [done|]. split; [done|].
  split; [|done]. destruct (rep_update _ v' _ c m l A A' l' Hrep Hcur) as [? ?]; try done.
Qed.

Lemma wp_override p s (Q : unit → Scheduler → Prop) :
  (p ≠ None → curr_proc_override s = None) → Q tt (with_override p s) → wp (override_curr_proc p) Q s.
Proof.
  intros Ho HQ. unfold override_curr_proc. apply wp_bind, wp_get, wp_bind, wp_assert; [by apply bool_decide_eq_true|]. by apply wp_upd.
Qed.

(** In the context of [p], and back *)
Lemma wp_scoped boot k c m l H known p os : spaces_rep boot k (Spaces c m l) → spaces_ok H known (Spaces c m l) →
  is_Some (m !! Some p) → Forall (uop_safe H) os →
  wp (scoped p (run_uops os)) (λ rs k', ∃ A A' l', m !! Some p = Some A ∧
    u_steps A l (heap_st (kv k)) os rs A' l' (heap_st (kv k')) ∧ huge_in H A' ∧
    spaces_rep boot k' (Spaces c (<[Some p := A']> m) l') ∧ page_directory k' = page_directory k) k.
Proof.
  intros (Hrep & Hcur & Hov) Hok [A HA] Hos. pose proof Hrep as (_ & _ & Hkeys & Hsp & _). cbn [maps] in *.
  destruct (proj1 (Hkeys (Some p))) as [d Hd]; [by exists A|]. pose proof Hcur as [Hcd _]. cbn [cur] in Hcd.
  destruct (rep_vm _ _ _ Hrep Hcur) as (_ & _ & (_ & _ & Hcr & _) & _).
  unfold scoped. apply wp_bind, wp_get, wp_bind. eapply wp_deref; [exact Hd|].
  apply wp_bind. unfold enter_proc_context. apply wp_bind, wp_on_part. apply wp_get_page_directory; [done|].
  apply wp_bind, wp_on_part, wp_override; [done|]. apply wp_bind, wp_on_part. cbn [kv].
  eapply (wp_set_page_directory _ (dir_of boot k) c m l (Some p)); [done..|]. intros v1 Hrep1 Hcur1 Hh1. apply wp_ret. cbn [ks page_directory].
  destruct (rep_vm _ _ _ Hrep1 Hcur1) as (A1 & HA1 & Hwf1 & Hag1). cbn [cur maps in_use] in *. assert (A1 = A) as -> by congruence.
  apply wp_bind, wp_on_part. cbn [kv]. eapply wp_mono; [by eapply (uops_sim H); [..|eapply (proj1 Hok)|]|].
  intros rs v2 (A' & l' & Hwf2 & Hst & Hag2 & Hh2 & Hsub & Hc2 & Hfr). cbn [ks page_directory].
  destruct (rep_update _ v2 _ (Some p) m l A A' l' Hrep1 Hcur1) as [Hrep2 Hcur2]; [done..|].
  apply wp_bind. unfold leave_proc_context. apply wp_bind, wp_on_part. cbn [kv].
  eapply (wp_set_page_directory _ (dir_of boot k) (Some p) _ l' c); [exact Hrep2|exact Hcd|]. intros v3 Hrep3 Hcur3 Hh3. rewrite Hh1, <- Hh3 in Hst.
  apply wp_on_part. cbn [ks kv page_directory]. apply wp_override; [done|]. apply wp_ret. cbn [ks kv page_directory].
  exists A, A', l'. split_and!; [done..| |done]. split; [exact Hrep3|]. split; [exact Hcur3|done].
Qed.

Lemma wp_new_space boot k c m l p : spaces_rep boot k (Spaces c m l) → m !! Some p = None →
  wpx (stops_without clone_cost k) (new_space p) (λ _ k', ∃ A l', m !! c = Some A ∧ l ⊆ l' ∧
    spends clone_cost (heap_st (kv k)) (heap_st (kv k')) ∧
    spaces_rep boot k' (Spaces c (<[Some p := kernel_half A]> m) l')) k.
Proof.
  intros (Hrep & Hcur & Hov) Hp. destruct (rep_vm _ _ _ Hrep Hcur) as (A & HA & _). cbn [cur maps] in HA.
  assert (Hdp : dir_of boot k (Some p) = None).
  { apply eq_None_not_Some. pose proof Hrep as (_ & _ & Hkeys & _). intros [? ?]%Hkeys. cbn [maps] in *. congruence. }
  unfold new_space. apply wpx_bind, wpx_on_part.
  destruct (wp_clone_space _ _ c m l A p Hrep Hcur HA Hdp) as [Hw|[Hw ?]].
  2:{ unfold wpx. by rewrite Hw. }
  apply wpx_wp. eapply wp_mono; [exact Hw|]. intros d v' (Hsp & l' & Hsub & Hrep' & Hcur'). apply wpx_bind, wpx_get, wpx_put.
  cbn [ks kv page_directory]. exists A, l'. split; [done|]. split; [done|]. split; [done|].
  assert (Heq : ∀ q, dir_of boot (Kernel (ks k) v' (<[p := d]> (page_directory k))) q =
    if decide (q = Some p) then Some d else dir_of boot k q).
  { intros [p'|]; cbn [dir_of page_directory]; [|by rewrite decide_False by done].
    case_decide as Hq; [injection Hq as ->; by rewrite lookup_insert_eq|]. rewrite lookup_insert_ne; [done|congruence]. }
  split; [|split; [|done]]; cbn [kv].
  - destruct Hrep' as (? & ? & Hk1 & Hk2 & Hk3). split; [done|]. split; [done|]. split; [intros q; by rewrite Heq|].
    split; [intros q e B; rewrite Heq; apply Hk2|]. intros q q' e e' a. rewrite !Heq. apply Hk3.
  - destruct Hcur' as [Hc1 Hc2]. split; [by rewrite Heq|done].
Qed.
End refinement.

Section histories.
Context {S : Type} `{PA : PageAllocator S}.
Implicit Types (k : kernel S) (σ : spaces).

Lemma aop_sim boot H known k σ o os : spaces_rep boot k σ → spaces_ok H known σ → aops_ok H known (o :: os) →
  wpx (stops_without (aop_cost o) k) (run_aop o) (λ r k', ∃ σ' known', a_step σ (heap_st (kv k)) o r σ' (heap_st (kv k')) ∧
    spaces_rep boot k' σ' ∧ spaces_ok H known' σ' ∧ aops_ok H known' os) k.
Proof.
  intros Hrep Hok Hos. destruct σ as [c m l]. destruct o as [us|p|p|p us]; cbn [run_aop aops_ok] in *.
  - destruct Hos as [Hus Hos]. apply wpx_wp. eapply wp_mono; [by eapply wp_run_in|].
    intros rs k' (A & A' & l' & HA & Hst & Hh & Hrep' & _). eexists _, known. split; [by econstructor|].
    split; [done|]. split; [by eapply spaces_ok_insert|done].
  - destruct Hos as [Hp Hos]. assert (Hnone : m !! Some p = None).
    { apply eq_None_not_Some. intros Hs. by apply Hp, (proj2 Hok). }
    apply wpx_bind. eapply wpx_mono; [by eapply wp_new_space|]. intros [] k' (A & l' & HA & Hsub & Hsp & Hrep').
    apply wpx_ret. eexists _, (p :: known). split; [by econstructor|]. split; [done|]. split; [|done].
    destruct Hok as [Hh Hk]. cbn [maps] in *. split; cbn [maps].
    + intros q B. rewrite lookup_insert_Some. intros [[_ <-]|[_ ?]]; [|by eapply Hh].
      intros x w. unfold kernel_half. case_decide; [|done]. by eapply Hh.
    + intros p'. rewrite elem_of_cons, Hk, lookup_insert_is_Some'. split.
      * intros [->|?]; [by left|by right].
      * intros [[= ->]|?]; [by left|by right].
  - destruct Hos as [Hp Hos]. apply wpx_bind, wpx_wp. eapply wp_mono; [eapply wp_enter; [done|by apply (proj2 Hok)]|].
    intros [] k' (Hrep' & _ & _ & Hh). apply wpx_ret. eexists _, known. rewrite Hh. split; [constructor; by apply (proj2 Hok)|]. by split.
  - destruct Hos as (Hp & Hus & Hos). apply wpx_wp. eapply wp_mono; [eapply wp_scoped; [done|done|by apply (proj2 Hok)|done]|].
    intros rs k' (A & A' & l' & HA & Hst & Hh & Hrep' & _). eexists _, known. split; [by econstructor|].
    split; [done|]. split; [by eapply spaces_ok_insert|done].
Qed.

(** C8: the page directories implement one address space per process.
    Every history of creating processes' spaces, entering one, running in
    the current one, and running in a process's context for a while (as the
    constructor of [Process] does to load the program) returns, if the heap
    can serve the pages that it may need ([aops_cost]: two for each page
    allocated, one for each page mapped, and 257 for each new space), with
    what the specification gives, in which each failed allocation is one
    that the heap refused at that point: a new space sees
    the kernel's half and nothing else; an operation changes the mappings of
    the space it runs in and of no other, although all directories are pages
    of the same heap; the scoped context comes back to the space it left;
    every page the fault handler allocates is one that nothing used; and the
    processor's cached translations are never those of another space. *)
Theorem address_spaces_refine boot H known k σ os : spaces_rep boot k σ → spaces_ok H known σ → aops_ok H known os →
  match run_aops os k with
  | Ret (rs, k') => ∃ σ', a_steps σ (heap_st (kv k)) os rs σ' (heap_st (kv k')) ∧ spaces_rep boot k' σ'
  | Halt f => f = BadAccess ∧ ¬ serves (aops_cost os) (heap_st (kv k))
  end.
Proof.
  revert known k σ. induction os as [|o os IH]; intros known k σ Hrep Hok Hos.
  { exists σ. by split; [constructor|]. }
  pose proof (aop_sim boot H known k σ o os Hrep Hok Hos) as Hsim. unfold wpx in Hsim.
  cbn [run_aops aops_cost]. munfold. destruct (run_aop o k) as [[r k1]|f].
  2:{ destruct Hsim as [-> Hno]. split; [done|]. intros Hs. apply Hno. eapply serves_le; [|exact Hs]. lia. }
  destruct Hsim as (σ1 & known1 & Hst & Hrep1 & Hok1 & Hos1). specialize (IH known1 k1 σ1 Hrep1 Hok1 Hos1).
  destruct (run_aops os k1) as [[rs k2]|f].
  - destruct IH as (σ2 & Hsts & Hrep2). exists σ2. by split; [econstructor|].
  - destruct IH as [-> Hno]. split; [done|]. by eapply refused_later; [eapply a_step_spends| |].
Qed.

(** ** The scheduler and the address space *)
Lemma choose_task_spec s c s1 : choose_task s = Ret (c, s1) →
  s1 = s ∧ ∀ x, c = Some x → head (runnable s) = Some x ∨ running s = Some x.
Proof.
  unfold choose_task, get_thread. munfold. destruct (running s) as [r|]; [|done]. cbn. destruct (runnable s).
  - cbn. destruct (threads s !! r) as [t|]; [|done]. intros [= <- <-]. split; [done|]. destruct (th_runnable t); naive_solver.
  - intros [= <- <-]. split; [done|]. intros x [= <-]. by left.
Qed.
Lemma bookkeeping_override now s s' : post_context_switch_bookkeeping now s = Ret (tt, s') → curr_proc_override s' = curr_proc_override s.
Proof.
  unfold post_context_switch_bookkeeping, delete_task, get_thread, print_stats, upd. munfold. cbn.
  destruct (pending_deletion s) as [th|]; cbn; [destruct (threads s !! th); cbn; [|done]|];
    (destruct (_ mod 100 =? 0); cbn; [destruct (_ =? 0); [done|]|]); by intros [= <-].
Qed.

Lemma schedule_space_spec boot k σ t0 t1 s' : spaces_rep boot k σ →
  (∀ a t p, threads (ks k) !! a = Some t → proc t = Some p → is_Some (maps σ !! Some p)) →
  schedule t0 t1 (ks k) = Ret (tt, s') →
  ∃ k' c', schedule_space t0 t1 k = Ret (tt, k') ∧ ks k' = s' ∧ spaces_rep boot k' (Spaces c' (maps σ) (in_use σ)) ∧
    (s' = ks k ∧ c' = cur σ ∨ ∃ x t, threads (ks k) !! x = Some t ∧ head (runnable (ks k)) = Some x ∧
       c' = match proc t with Some p => Some p | None => cur σ end).
Proof.
  intros Hrep Hpr. pose proof Hrep as (Hmem & Hcur & Hov). destruct σ as [c m l], k as [s v pd]. cbn [ks kv cur maps in_use] in *.
  unfold schedule, schedule_space, on_sched, on_part, upd, get_thread. munfold. cbn [ks kv page_directory].
  destruct (running s) as [r|] eqn:Hr; [|done]. cbn [ks kv page_directory].
  destruct (choose_task s) as [[o s1]|] eqn:Hch; [|done]. apply choose_task_spec in Hch as [-> Hx]. cbn [ks kv page_directory].
  destruct o as [x|]; [|done]. cbn [ks kv page_directory]. destruct (Z.eqb_spec x r) as [->|Hxr].
  { intros [= <-]. eexists _, c. split; [done|]. split; [done|]. split; [done|]. by left. }
  assert (Hhd : head (runnable s) = Some x) by (destruct (Hx x eq_refl); [done|congruence]).
  cbn [with_queue with_times threads ks kv page_directory].
  destruct (threads s !! x) as [t|] eqn:Ht; [|done]. cbn [ks kv page_directory]. destruct (proc t) as [p|] eqn:Hp.
  - cbn [ks kv page_directory]. match goal with |- context [with_space (Some p) ?s2] => set (s3 := with_space (Some p) s2) end.
    destruct (proj1 (wp_run _ _ _) (wp_enter boot (Kernel s3 v pd) c m l p
      (conj Hmem (conj Hcur Hov)) (Hpr _ _ _ Ht Hp))) as ([] & k3 & Hrun & Hrep3 & Hk3 & _).
    cbn [ks kv page_directory]. cbn [ks kv page_directory]. rewrite Hrun. cbn [ks] in Hk3. rewrite Hk3.
    destruct (post_context_switch_bookkeeping t1 s3) as [[[] s4]|] eqn:Hb; [|done]. intros [= <-].
    eexists _, (Some p). split; [done|]. split; [done|]. split.
    + destruct Hrep3 as (? & ? & ?). split; [done|]. split; [done|]. cbn [ks]. by rewrite (bookkeeping_override _ _ _ Hb).
    + right. exists x, t. by rewrite Hp.
  - cbn [ks kv page_directory]. cbn [ks kv page_directory]. match goal with |- context [post_context_switch_bookkeeping t1 ?s2] => set (s3 := s2) end.
    destruct (post_context_switch_bookkeeping t1 s3) as [[[] s4]|] eqn:Hb; [|done]. intros [= <-].
    eexists _, c. split; [done|]. split; [done|]. split.
    + split; [done|]. split; [done|]. cbn [ks]. by rewrite (bookkeeping_override _ _ _ Hb).
    + right. exists x, t. by rewrite Hp.
Qed.

(** A thread of a process runs in the space of its process. *)
Definition in_own_space k σ : Prop :=
  ∀ r t p, running (ks k) = Some r → threads (ks k) !! r = Some t → proc t = Some p → cur σ = Some p.

(** C24: [schedule] changes to the address space of the thread it chooses:
    the queue goes round as in the scheduler alone, a thread of a process
    comes to run with the mappings of that process, which are those it had
    when it last ran, a kernel thread keeps the current ones, no mapping of
    any space changes, and nothing of the previous space stays in the
    processor's cache. *)
Theorem schedule_enters_space boot k σ t0 t1 : spaces_rep boot k σ → sched_ok (ks k) → in_own_space k σ →
  0 ≤ context_switch_count (ks k) < 2 ^ 32 - 1 →
  (∀ a t p, threads (ks k) !! a = Some t → proc t = Some p → is_Some (maps σ !! Some p)) →
  ∃ k' r t, schedule_space t0 t1 k = Ret (tt, k') ∧ sched_ok (ks k') ∧ queue (ks k') = rotate1 (queue (ks k)) ∧
    threads (ks k') = threads (ks k) ∧ running (ks k') = Some r ∧ threads (ks k') !! r = Some t ∧
    let σ' := Spaces (match proc t with Some p => Some p | None => cur σ end) (maps σ) (in_use σ) in
    spaces_rep boot k' σ' ∧ in_own_space k' σ'.
Proof.
  intros Hrep Hok Hown Hcnt Hpr.
  destruct (proj1 (wp_run _ _ _) (wp_schedule_ok t0 t1 (ks k) Hok Hcnt)) as ([] & s' & Hrun & Hok' & Hq & Hts & _).
  destruct (schedule_space_spec boot k σ t0 t1 s' Hrep Hpr Hrun) as (k' & c' & Hrun' & <- & Hrep' & Hc).
  pose proof Hok' as (Htids & [r Hr] & _). destruct (proj1 (proj1 (proj2 Htids) r)) as [t Ht]; [unfold queue; rewrite Hr; left|].
  exists k', r, t. split; [done|]. split; [done|]. split; [done|]. split; [done|]. split; [done|]. split; [done|]. cbv zeta.
  assert (Hc' : c' = match proc t with Some p => Some p | None => cur σ end).
  { destruct Hc as [[Hs ->]|(x & tx & Hx & Hhd & ->)].
    - rewrite Hs in Hr, Ht. destruct (proc t) as [p|] eqn:Hp; [|done]. by apply (Hown r t).
    - assert (r = x) as ->.
      { pose proof Hok as (_ & [r0 Hr0] & _). unfold queue in Hq. rewrite Hr, Hr0 in Hq. destruct (runnable (ks k)); [done|].
        simpl in Hq, Hhd. congruence. }
      rewrite Hts in Ht. by replace tx with t by congruence. }
  rewrite <- Hc'. split; [done|]. intros r1 t1' p Hr1 Ht1 Hp. assert (r1 = r) as -> by congruence.
  assert (t1' = t) as -> by congruence. cbn [cur]. by rewrite Hc', Hp.
Qed.
End histories.

(** ** Two processes on the machine of [PageTable.v] *)
#[local] Instance demo_page_allocator : PageAllocator (kheap PageFrame.SimplePFA) :=
  kheap_page_allocator (FA := simple_pfa_allocator 5) demo_limit.
Definition demo_sched : Scheduler :=
  match (_ ← bootstrap (0, None); run_sops [ONew (0, None) (Some 2) 0x2000]) Scheduler_ctor with
  | Ret (_, s) => s
  | Halt _ => Scheduler_ctor
  end.
Definition demo_kernel : kernel (kheap PageFrame.SimplePFA) := Kernel demo_sched demo_vm ∅.
Definition demo_spaces : spaces := Spaces None {[None := λ _, None]} [0xC0001000].

Lemma demo_spaces_rep : spaces_rep 0xC0001000 demo_kernel demo_spaces.
Proof.
  pose proof demo_vm_wf as (Hinv & Hdom & _ & _). split; [|split; [|by vm_compute]]; cbn [kv demo_kernel].
  - split; [exact Hinv|]. split; [exact Hdom|]. split; [|split].
    + intros [p|]; cbn [dir_of page_directory demo_kernel maps demo_spaces].
      * rewrite lookup_empty, lookup_singleton_ne by done. done.
      * rewrite lookup_singleton_eq. split; intros _; by eexists.
    + intros [p|] d A; cbn [dir_of page_directory demo_kernel maps demo_spaces]; [by rewrite lookup_empty|].
      rewrite lookup_singleton_eq. intros [= <-] [= <-]. split; [by vm_compute|]. split; [exact demo_dir_wf|].
      intros x Hx. exact (demo_vwalk x Hx).
    + intros [p|] [p'|] d d' a Hne; cbn [dir_of page_directory demo_kernel]; rewrite ?lookup_empty; done.
  - split; [by vm_compute|]. intros A x w _ Hx. exfalso. change (tlb demo_vm) with (∅ : gmap Z leaf) in Hx. by rewrite lookup_empty in Hx.
Qed.
Lemma demo_spaces_ok : spaces_ok (λ _, False) [] demo_spaces.
Proof.
  split.
  - intros q A HA. cbn [maps demo_spaces] in HA. apply lookup_singleton_Some in HA as [_ <-]. done.
  - intros p. cbn [maps demo_spaces]. rewrite lookup_singleton_ne by done. split; [by intros ?%not_elem_of_nil|by intros []].
Qed.

(** Process 1 maps a page in its own context; process 2 does not see it. *)
Definition demo_aops : list aop :=
  [ANew 1; AScoped 1 [UOp (VMap 0x5000 0x400000 true true false)]; ANew 2;
   AEnter 2; ARun [UOp (VAccess 0x400000)]; AEnter 1; ARun [UOp (VAccess 0x400000)]].
Lemma demo_aops_ok : aops_ok (λ _, False) [] demo_aops.
Proof.
  cbn [aops_ok demo_aops]. assert (Hp : is_u32 0x400000 ∧ 0x400000 mod PG_SZ = 0 ∧ ¬ False) by (split_and!; (done || by vm_compute)).
  split; [by apply not_elem_of_nil|]. split; [left|]. split; [apply Forall_singleton; by split|].
  split; [by intros [? | ?%not_elem_of_nil]%elem_of_cons|]. split; [left|]. split; [apply Forall_singleton; apply Hp|].
  split; [right; left|]. split; [apply Forall_singleton; apply Hp|done].
Qed.
Lemma address_spaces_refine_witness :
  ∃ rs k' σ', run_aops demo_aops demo_kernel = Ret (rs, k') ∧
    a_steps demo_spaces (heap_st (kv demo_kernel)) demo_aops rs σ' (heap_st (kv k')) ∧
    rs = [[]; [RBool true]; []; []; [RLeaf None]; []; [RLeaf (Some (false, pte_user 0x5000 true true false))]].
Proof.
  pose proof (address_spaces_refine 0xC0001000 (λ _, False) [] demo_kernel demo_spaces demo_aops
    demo_spaces_rep demo_spaces_ok) as H.
  specialize (H demo_aops_ok). destruct (run_aops demo_aops demo_kernel) as [[rs k']|f] eqn:Hrun;
    [|exfalso; vm_compute in Hrun; congruence].
  destruct H as (σ' & Hst & _). exists rs, k', σ'. split; [reflexivity|]. split; [exact Hst|].
  vm_compute in Hrun. by injection Hrun as <- _.
Defined.

Lemma demo_sched_ok : sched_ok demo_sched ∧ 0 ≤ context_switch_count demo_sched ≤ 1.
Proof.
  destruct (run_from_bootstrap (0, None) [ONew (0, None) (Some 2) 0x2000] ([0; 1], 2)) as (s & Hrun & (Hok & _) & Hc).
  - eapply spec_cons; [apply (spec_new [0] 1 0); [done| |lia]|apply spec_nil].
    intros [?|Hin]; [done|]. apply list_elem_of_singleton in Hin. done.
  - simpl; lia.
  - unfold demo_sched. rewrite Hrun. by split.
Qed.
(** The boot thread makes way for the thread of process 2, whose directory
    is in the first free frame. *)
Lemma schedule_enters_space_witness :
  ∃ k1 k2, new_space 2 demo_kernel = Ret (tt, k1) ∧ schedule_space 1 2 k1 = Ret (tt, k2) ∧ cur_dir (kv k2) = 0xC0002000.
Proof.
  pose proof (wp_new_space 0xC0001000 demo_kernel None _ _ 2 demo_spaces_rep ltac:(apply lookup_singleton_ne; congruence)) as H.
  destruct (new_space 2 demo_kernel) as [[[] k1]|f] eqn:Hrun; [|exfalso; vm_compute in Hrun; congruence].
  unfold wpx in H. rewrite Hrun in H. destruct H as (A & l' & HA & _ & _ & Hrep).
  assert (Hks : ks k1 = demo_sched) by (vm_compute in Hrun; injection Hrun as <-; vm_compute; reflexivity).
  assert (Hth : ∀ a t p, threads demo_sched !! a = Some t → proc t = Some p → p = 2 ∧ a = 2).
  { intros a t p Ha Hp. assert (Hth : map_Forall (λ a t, proc t = None ∨ proc t = Some 2 ∧ a = 2) (threads demo_sched)).
    { apply (bool_decide_unpack _). vm_compute. exact I. }
    destruct (Hth a t Ha) as [?|[? ->]]; [congruence|]. split; [congruence|done]. }
  destruct (schedule_enters_space 0xC0001000 k1 _ 1 2 Hrep) as (k2 & r & t & Hrun2 & _).
  - rewrite Hks. apply demo_sched_ok.
  - intros r t p Hr Ht Hp. exfalso. rewrite Hks in Hr, Ht. destruct (Hth _ _ _ Ht Hp) as [_ ->]. vm_compute in Hr. congruence.
  - rewrite Hks. destruct demo_sched_ok as [_ ?]. lia.
  - intros a t p Ha Hp. rewrite Hks in Ha. destruct (Hth _ _ _ Ha Hp) as [-> _]. cbn [maps]. rewrite lookup_insert_eq. by eexists.
  - exists k1, k2. split; [reflexivity|]. split; [exact Hrun2|]. vm_compute in Hrun. injection Hrun as <-.
    vm_compute in Hrun2. injection Hrun2 as <-. vm_compute. reflexivity.
Defined.

(** [ScopedEnterProcContext] does not keep the timer out: when the boot
    thread, in the context of process 1, is preempted by the thread of
    process 2 and comes back, it goes on in the space of process 2 (a
    kernel thread has no space to come back to), and while process 2 runs
    [curr_proc] is process 1. *)
Example preempted_scope :
  match (_ ← new_space 1; _ ← new_space 2; k ← getS;
         _ ← enter_proc_context 1 (default 0 (page_directory k !! 1));
         _ ← schedule_space 1 2; p ← on_sched curr_proc; _ ← schedule_space 3 4; mret (k, p)) demo_kernel with
  | Ret ((k, p), k') => p = Some 1 ∧ running (ks k') = running (ks k) ∧ page_directory k !! 2 = Some (cur_dir (kv k'))
  | Halt _ => False
  end.
Proof. vm_compute. split_and!; reflexivity. Qed.
