(* ===== verification/PageCache.v ===== *)
(** * Page cache

    Models [fs/page_cache.{h,cc}] and [drivers/device.cc]: the LRU cache
    of disk pages ([Lru.v]), filled by [fetch_page] with a page of the
    heap and a read of the block device, and [VirtLease], which maps the
    cached page at the one virtual page [buf] ([PageTable.v]) for the time
    of the lease.  [drivers::ahci::read_blocking] is behind the interface
    [BlockReader]; physical memory is a function from addresses to bytes
    (the pages in use as page tables are kept by [PageTable.v]). *)
From stdpp Require Import gmultiset.
From S2P Require Import Prelude Algorithm Bitfield PageFrame MemoryMap Kmalloc Lru PageTable.

(** What the page cache uses of the AHCI driver: [read_blocking(port,
    startl, starth, count, dest_paddr)] on a page's worth of sectors;
    [None] is the return of [false].  The page read into must not hold
    memory the driver shares with the controller ([reserved]). *)
Abbreviation bytes := (Z → Z).
Definition overwrite (m : bytes) (p len : Z) (src : bytes) : bytes :=
  λ a, if (p <=? a) && (a <? p + len) then src (a - p) else m a.

Class BlockReader := {
  disk : bytes;
  read_blocking : Z → Z → Z → Z → Z → bytes → option bytes;
  reserved : Z → Prop;
  read_blocking_page : ∀ startl starth p m,
    0 ≤ startl < 2 ^ 32 → 0 ≤ starth < 2 ^ 16 → p mod PG_SZ = 0 → 0 ≤ p < 2 ^ 32 → ¬ reserved p →
    ∃ m', read_blocking 0 startl starth 8 p m = Some m' ∧
      ∀ a, m' a = overwrite m p PG_SZ (λ i, disk ((starth * 2 ^ 32 + startl) * 512 + i)) a }.

(** [get_paddr] of [mm/page_frame_allocator.h] *)
Definition get_paddr (pfd : Z) : Z := pfd * PG_SZ.

(** A cached page is identified by its device and offset; the entry is
    the index of its page frame descriptor. *)
Record pcache (S : Type) := PCache {
  cache : LRUCache (Z * Z) Z;
  vm : vmem S;
  phys : bytes;
  buf : Z }.
Arguments PCache {S} cache vm phys buf.
Arguments cache {S} _.
Arguments vm {S} _.
Arguments phys {S} _.
Arguments buf {S} _.

Section ops.
Context {S : Type} `{PA : PageAllocator S} `{BR : BlockReader}.

Definition on_vm {A} : M (vmem S) A → M (pcache S) A :=
  on_part vm (λ v st, PCache (cache st) v (phys st) (buf st)).
Definition on_cache {A} : M (LRUCache (Z * Z) Z) A → M (pcache S) A :=
  on_part cache (λ c st, PCache c (vm st) (phys st) (buf st)).

(** [BlockDevice::read_page_direct] *)
Definition read_page_direct (paddr off : Z) : M (pcache S) bool :=
  _ ← assertM (PG_ALIGNED paddr && PG_ALIGNED off);
  let sector := off / 512 in
  let startl := u32 sector in
  let starth := u32 (Z.shiftr sector 32) in
  st ← getS;
  match read_blocking 0 startl starth (PG_SZ / 512) paddr (phys st) with
  | Some m => _ ← putS (PCache (cache st) (vm st) m (buf st)); mret true
  | None => mret false
  end.

Definition fetch_page (off : Z) : M (pcache S) Z :=
  pg ← on_vm operator_new_page;
  _ ← assertM (negb (pg =? 0));
  paddr ← liftO (hhdm_to_direct pg);
  ok ← read_page_direct paddr off;
  _ ← assertM ok;
  mret (get_pfd paddr).

(** [get(BlockDevice &, offset)]: [LRUCache::get] calls [populate_cache],
    here [fetch_page], on a miss. *)
Definition cache_get (dev off : Z) : M (pcache S) (option (Z * Z)) :=
  st ← getS;
  match lookup_ (cache st) !! (dev, off) with
  | Some n => on_cache (get (λ _, lval n) (dev, off) true)
  | None => v ← fetch_page off; on_cache (get (λ _, v) (dev, off) true)
  end.

(** The constructor of [VirtLease], which returns the lease and the bytes
    seen through [buf], and its destructor. *)
Definition virt_lease (dev off : Z) : M (pcache S) (option (Z * Z) * bytes) :=
  lease ← cache_get dev off;
  key ← liftO (deref lease);
  pfd ← on_cache (value key);
  st ← getS;
  ok ← on_vm (map (get_paddr pfd) (buf st) false true false);
  _ ← assertM ok;
  st ← getS;
  l ← liftO (deref (vwalk (vm st) (buf st)));
  mret (lease, λ i, phys st (leaf_phys l (buf st + i))).
Definition virt_release (lease : option (Z * Z)) : M (pcache S) unit :=
  st ← getS;
  _ ← on_vm (unmap (buf st));
  on_cache (lease_dtor lease).

(** [init]: an empty cache and a page of the IO window for [buf]. *)
Definition cache_init (v : vmem S) (m : bytes) : outcome (pcache S) :=
  '(b, v) ← io_alloc 1 v;
  _ ← assert_ (negb (b =? 0));
  Ret (PCache lru_new v m b).
End ops.

(** ** What file systems use of the page cache

    [ps_reads dev off]: the page is one that the source is set up for;
    [ps_oom]: why a lease may fail. *)
Class PageSource (S : Type) := {
  ps_lease_t : Type;
  ps_disk : bytes;
  ps_lease : Z → Z → M S (ps_lease_t * bytes);
  ps_release : ps_lease_t → M S unit;
  ps_inv : S → Prop;
  ps_reads : Z → Z → Prop;
  ps_oom : Prop;
  ps_lease_spec : ∀ dev off s, ps_inv s → ps_reads dev off → off mod PG_SZ = 0 → 0 ≤ off < 2 ^ 57 →
    wpx (λ f, f = AssertFail ∧ ps_oom) (ps_lease dev off)
      (λ r s', (∀ i, 0 ≤ i < PG_SZ → r.2 i = ps_disk (off + i)) ∧
               wp (ps_release r.1) (λ _, ps_inv) s') s }.

Lemma get_ext {K V} `{Countable K} (p1 p2 : K → V) k b :
  p1 k = p2 k → get p1 k b = get p2 k b.
Proof. intros Hp. unfold get. by rewrite Hp. Qed.

(** A cached page frame holds the device's bytes. *)
Definition frame_holds {BR : BlockReader} (live : list Z) (m : bytes) (off pfd : Z) : Prop :=
  0 ≤ pfd * PG_SZ < hhdm_len ∧ pfd * PG_SZ + hhdm_start ∈ live ∧
  ∀ i, 0 ≤ i < PG_SZ → m (pfd * PG_SZ + i) = disk (off + i).

Section proof.
Context {S : Type} `{PA : PageAllocator S} `{BR : BlockReader}.
Implicit Types (st : pcache S) (live : list Z) (held : gmultiset (Z * Z)) (dev off v : Z).

(** The pages of [pages] that are not cached yet, and the table that maps
    the buffer page, are what the cache may still ask the heap for. *)
Definition room (pages : gset (Z * Z)) st (n : nat) : Prop :=
  ∃ b, n = (base.size (pages ∖ dom (lookup_ (cache st))) + b)%nat ∧ (b = 0%nat → has_table (vm st) (buf st)).
(** [h0] had [N] pages: those taken since and those that may still be. *)
Definition funded (pages : gset (Z * Z)) (h0 : S) (N : nat) st : Prop :=
  ∃ k n, room pages st n ∧ spends k h0 (heap_st (vm st)) ∧ (k + n ≤ N)%nat.
Definition cache_oom (h0 : S) (N : nat) (f : fault) : Prop := f = AssertFail ∧ ¬ serves N h0.

Lemma funded_init pages st : funded pages (heap_st (vm st)) (Datatypes.S (base.size pages)) st.
Proof.
  exists 0%nat, (base.size (pages ∖ dom (lookup_ (cache st))) + 1)%nat. split; [by eexists|]. split; [apply spends_refl|].
  assert (base.size (pages ∖ dom (lookup_ (cache st))) ≤ base.size pages)%nat by (apply subseteq_size; set_solver). lia.
Qed.
Lemma funded_refused pages h0 N st h key :
  funded pages h0 N st → (key ∈ pages ∧ lookup_ (cache st) !! key = None ∨ ¬ has_table (vm st) (buf st)) →
  pga_new (heap_st (vm st)) = Ret (0, h) → ¬ serves N h0.
Proof.
  intros (k & n & (b & -> & Hb) & Hsp & Hle) Hwhy Hno. eapply refused_later; [exact Hsp|by eapply (refused 0)|].
  destruct Hwhy as [[Hin Hk]|Hnt]; [|destruct b; [by destruct Hnt; apply Hb|lia]].
  assert (base.size (pages ∖ dom (lookup_ (cache st))) ≠ 0%nat); [|lia]. apply size_non_empty_iff.
  apply not_elem_of_dom in Hk. set_solver.
Qed.
(** A page of [pages] comes into the cache. *)
Lemma funded_cached pages h0 N st st' key :
  funded pages h0 N st → key ∈ pages → lookup_ (cache st) !! key = None → buf st' = buf st →
  (has_table (vm st) (buf st) → has_table (vm st') (buf st')) → spends 1 (heap_st (vm st)) (heap_st (vm st')) →
  dom (lookup_ (cache st')) = {[key]} ∪ dom (lookup_ (cache st)) → funded pages h0 N st'.
Proof.
  intros (k & n & (b & -> & Hb) & Hsp & Hle) Hin Hk Hbuf Ht Hsp1 Hdom. apply not_elem_of_dom in Hk.
  assert (Hsz : base.size (pages ∖ dom (lookup_ (cache st))) = Datatypes.S (base.size (pages ∖ dom (lookup_ (cache st'))))).
  { assert (Hu : pages ∖ dom (lookup_ (cache st)) = {[key]} ∪ pages ∖ dom (lookup_ (cache st'))).
    { rewrite Hdom. apply set_eq. intros x. destruct (decide (x = key)); set_solver. }
    rewrite Hu, size_union by (rewrite Hdom; set_solver). by rewrite size_singleton. }
  exists (k + 1)%nat, (base.size (pages ∖ dom (lookup_ (cache st'))) + b)%nat. split; [exists b; auto|].
  split; [by eapply spends_trans|lia].
Qed.
(** The heap and the directory stay as they are. *)
Lemma funded_same pages h0 N st st' :
  funded pages h0 N st → (has_table (vm st) (buf st) → has_table (vm st') (buf st')) →
  heap_st (vm st') = heap_st (vm st) → dom (lookup_ (cache st)) ⊆ dom (lookup_ (cache st')) → funded pages h0 N st'.
Proof.
  intros (k & n & (b & -> & Hb) & Hsp & Hle) Ht Hh Hdom.
  exists k, (base.size (pages ∖ dom (lookup_ (cache st'))) + b)%nat. split; [exists b; auto|]. rewrite Hh. split; [done|].
  assert (base.size (pages ∖ dom (lookup_ (cache st'))) ≤ base.size (pages ∖ dom (lookup_ (cache st))))%nat
    by (apply subseteq_size; set_solver). lia.
Qed.
(** The buffer page is mapped. *)
Lemma funded_table pages h0 N st st' :
  funded pages h0 N st → buf st' = buf st → table_made (vm st) (vm st') (buf st) →
  cache st' = cache st → funded pages h0 N st'.
Proof.
  intros (k & n & (b & -> & Hb) & Hsp & Hle) Hbuf (Hmay & Hsame & Ht) Hc. unfold funded, room. rewrite Hc, Hbuf.
  destruct b as [|b].
  - exists k, (base.size (pages ∖ dom (lookup_ (cache st))) + 0)%nat. rewrite Hsame by auto. eauto.
  - exists (k + 1)%nat, (base.size (pages ∖ dom (lookup_ (cache st))) + 0)%nat. split; [by exists 0%nat|].
    split; [eapply spends_trans; [exact Hsp|by apply spends_may_take]|lia].
Qed.

(** [held]: the outstanding leases. *)
Definition cache_holds st (live : list Z) (held : gmultiset (Z * Z)) : Prop :=
  (∃ pop : Z * Z → Z, lru_ok pop (cache st) held) ∧
  ∀ k n, lookup_ (cache st) !! k = Some n → frame_holds live (phys st) k.2 (lval n).

(** The pages shared with the device's controller are not free. *)
Definition reserved_live (live : list Z) : Prop := ∀ p, reserved p → p + hhdm_start ∈ live.

Definition pc_ok st (live : list Z) held (mapped : bool) : Prop :=
  vm_wf (vm st) live ∧ 0 ≤ buf st < 2 ^ 32 ∧ buf st mod PG_SZ = 0 ∧ not_huge (vm st) (buf st) ∧
  (is_Some (vwalk (vm st) (buf st)) ↔ mapped = true) ∧ reserved_live live ∧
  cache_holds st live held.

Lemma frame_holds_live live live' m off pfd :
  live ⊆ live' → frame_holds live m off pfd → frame_holds live' m off pfd.
Proof. intros Hl (? & ? & ?). split; [done|]. split; [by apply Hl|done]. Qed.

Lemma cache_holds_live st (v : vmem S) live live' held :
  live ⊆ live' → cache_holds st live held →
  cache_holds (PCache (cache st) v (phys st) (buf st)) live' held.
Proof.
  intros Hl [Hp Hf]. split; [done|]. intros k n Hk. eapply frame_holds_live; [done|]. by apply Hf.
Qed.

(** Distinct pages do not overlap. *)
Lemma overwrite_other m p q src i :
  p mod PG_SZ = 0 → q mod PG_SZ = 0 → p ≠ q → 0 ≤ i < PG_SZ → overwrite m p PG_SZ src (q + i) = m (q + i).
Proof.
  intros Hp Hq Hne Hi. unfold overwrite. change PG_SZ with 4096 in *.
  pose proof (Z.div_mod p 4096). pose proof (Z.div_mod q 4096).
  replace ((p <=? q + i) && (q + i <? p + 4096)) with false; [done|]. symmetry. apply andb_false_iff. lia.
Qed.

Lemma mod_512 x : x mod PG_SZ = 0 → x mod 512 = 0.
Proof.
  intros Hx. apply Z.mod_divide in Hx as [q ->]; [|done]. apply Z.mod_divide; [done|].
  exists (q * 8). change PG_SZ with 4096. lia.
Qed.

Lemma wpx_fetch_page E st live held mapped off (Q : Z → pcache S → Prop) :
  pc_ok st live held mapped → off mod PG_SZ = 0 → 0 ≤ off < 2 ^ 57 →
  (∀ h, pga_new (heap_st (vm st)) = Ret (0, h) → E AssertFail) →
  (∀ v live' st', pc_ok st' live' held mapped → cache st' = cache st → buf st' = buf st →
     frame_holds live' (phys st') off v →
     (∃ h, vm st' = with_heap h (vm st)) → spends 1 (heap_st (vm st)) (heap_st (vm st')) → Q v st') →
  wpx E (fetch_page off) Q st.
Proof.
  intros (Hwf & Hbuf & Hbal & Hnh & Hmap & Hrs & Hch) Hal Hoff HE HQ. unfold fetch_page.
  apply wpx_bind, wpx_wp, wp_on_part. eapply wp_operator_new_page; [by destruct Hwf|..].
  { intros h Hoom _. apply wpx_bind, wpx_assert; [|done]. intros _. by eapply HE. }
  intros d h Hd0 Hdm Hdlim Hfresh Hh Hgot%spends_new. assert (Hl4 : hhdm_len = 0x3DC00000) by done.
  apply wpx_bind, wpx_assert; [change hhdm_start with 0xC0000000; lia|]. intros _.
  apply wpx_bind. eapply wpx_lift; [apply hhdm_to_direct_eq; lia|].
  apply wpx_bind. unfold read_page_direct. apply wpx_bind, wpx_wp, wp_assert.
  { apply andb_true_iff. split; by apply PG_ALIGNED_spec. }
  apply wpx_bind, wpx_get. change (PG_SZ / 512) with 8.
  assert (Hsec : 0 ≤ off / 512 < 2 ^ 48) by (split; [apply Z.div_pos|apply Z.div_lt_upper_bound]; lia).
  rewrite Z.shiftr_div_pow2 by done.
  assert (Hsh : 0 ≤ off / 512 / 2 ^ 32 < 2 ^ 16) by (split; [apply Z.div_pos|apply Z.div_lt_upper_bound]; lia).
  rewrite (wrap_small 32 (_ / 2 ^ 32)) by lia.
  destruct (read_blocking_page (u32 (off / 512)) (off / 512 / 2 ^ 32) d (phys st)) as (m' & Hrd & Hm');
    [by apply wrap_range|done|done|lia|by intros ?%Hrs|].
  cbn [phys cache vm buf]. rewrite Hrd. apply wpx_bind, wpx_put, wpx_ret, wpx_bind, wpx_wp, wp_assert; [done|].
  apply wpx_ret. unfold get_pfd. change PG_SZ_BITS with 12. rewrite Z.shiftr_div_pow2 by done.
  assert (Hd : d / 2 ^ 12 * PG_SZ = d)
    by (change PG_SZ with (2 ^ 12); rewrite Z.mul_comm, mul_div_le_mod, Hdm by done; lia).
  assert (Hsrc : ((off / 512) / 2 ^ 32 * 2 ^ 32 + u32 (off / 512)) * 512 = off).
  { unfold wrap. pose proof (Z.div_mod (off / 512) (2 ^ 32)). pose proof (Z.div_mod off 512).
    pose proof (mod_512 off Hal). lia. }
  eapply (HQ _ (d + hhdm_start :: live)); [|done|done| |by exists h|done].
  - split; [by eapply vm_wf_heap; [exact Hwf|exact Hh|intros a Ha; by right]|].
    split; [done|]. split; [done|]. split; [done|]. split; [done|]. split; [intros p Hp; right; by apply Hrs|].
    destruct Hch as [Hp Hf]. split; [done|].
    intros k n Hk. destruct (Hf k n Hk) as (Hr & Hin & Hb). split; [done|]. split; [by right|].
    intros i Hi. simpl. rewrite Hm', overwrite_other; [by apply Hb|done|by apply Z.mod_mul| |done].
    intros Heq. apply Hfresh. by rewrite Heq.
  - split; [lia|]. rewrite Hd. split; [left|]. intros i Hi. simpl. rewrite Hm'. unfold overwrite.
    replace ((d <=? d + i) && (d + i <? d + PG_SZ)) with true by lia. rewrite Hsrc. do 2 f_equal. lia.
Qed.

(** Adding a key that is not cached to the values of the invariant. *)
Lemma lru_ok_extend (pop : Z * Z → Z) (c : LRUCache (Z * Z) Z) (held : gmultiset (Z * Z)) k v :
  lru_ok pop c held → lookup_ c !! k = None →
  lru_ok (λ k', if decide (k' = k) then v else pop k') c held.
Proof.
  intros (Hnd & Hl & Hr & Hh) Hk. split_and!; [done..| |done]. intros k' n Hn.
  rewrite decide_False by congruence. by apply Hr.
Qed.

Lemma wp_cached_get (pop : Z * Z → Z) st live (held : gmultiset (Z * Z)) dev off v :
  lru_ok pop (cache st) held → pop (dev, off) = v →
  (∀ k n, lookup_ (cache st) !! k = Some n → frame_holds live (phys st) k.2 (lval n)) →
  frame_holds live (phys st) off v →
  wp (on_cache (get (λ _, v) (dev, off) true)) (λ l st', ∃ c, l = Some (dev, off) ∧
    st' = PCache c (vm st) (phys st) (buf st) ∧ cache_holds st' live (held ⊎ {[+ (dev, off) +]}) ∧
    dom (lookup_ c) = {[(dev, off)]} ∪ dom (lookup_ (cache st))) st.
Proof.
  intros Hok Hv Hf Hfv. apply wp_on_part. rewrite (get_ext _ pop) by done.
  eapply wp_mono; [by apply wp_get_|]. intros l c (Hl & _ & Hdom). exists c. pose proof Hok as (_ & _ & Hr & _).
  destruct l as [k'|]; [|by destruct Hl as (_ & ? & _)]. destruct Hl as [-> Hok']. split; [done|]. split; [done|].
  split; [|done]. split; [by exists pop|]. cbn [cache phys]. intros k n Hk. pose proof Hok' as (_ & _ & Hr' & _).
  destruct (Hr' k n Hk) as [_ ->]. apply elem_of_dom_2 in Hk. rewrite Hdom in Hk.
  apply elem_of_union in Hk as [->%elem_of_singleton|Hk]; [by rewrite Hv|].
  apply elem_of_dom in Hk as [n0 Hn0]. destruct (Hr _ _ Hn0) as [_ <-]. by apply Hf.
Qed.

Lemma pc_ok_cache st live held held' mapped c :
  pc_ok st live held mapped → cache_holds (PCache c (vm st) (phys st) (buf st)) live held' →
  pc_ok (PCache c (vm st) (phys st) (buf st)) live held' mapped.
Proof.
  intros (Hwf & Hb1 & Hb2 & Hnh & Hmap & Hrs & _) Hch. split; [exact Hwf|]. split; [exact Hb1|].
  split; [exact Hb2|]. split; [exact Hnh|]. split; [exact Hmap|]. split; [exact Hrs|exact Hch].
Qed.

Lemma wpx_cache_get pages h0 N st live held mapped dev off :
  pc_ok st live held mapped → funded pages h0 N st → (dev, off) ∈ pages → off mod PG_SZ = 0 → 0 ≤ off < 2 ^ 57 →
  wpx (cache_oom h0 N) (cache_get dev off) (λ l st', l = Some (dev, off) ∧ buf st' = buf st ∧ funded pages h0 N st' ∧
    ∃ live', pc_ok st' live' (held ⊎ {[+ (dev, off) +]}) mapped) st.
Proof.
  intros Hok Hfd Hin Hal Hoff. unfold cache_get. apply wpx_bind, wpx_get.
  destruct (lookup_ (cache st) !! (dev, off)) as [n|] eqn:Hk.
  - pose proof Hok as (Hwf & Hb1 & Hb2 & Hnh & Hmap & Hrs & [pop Hpop] & Hf).
    pose proof Hpop as (_ & _ & Hr & _). destruct (Hr _ _ Hk) as [_ Hv].
    apply wpx_wp. eapply wp_mono; [eapply (wp_cached_get pop); [done|done|done|by apply (Hf _ _ Hk)]|].
    intros l st' (c & -> & -> & Hch & Hdom). split; [done|]. split; [done|].
    split; [eapply funded_same; [exact Hfd|done|done|cbn [cache]; rewrite Hdom; set_solver]|]. exists live. by eapply pc_ok_cache.
  - apply wpx_bind. eapply wpx_fetch_page; [done..| |].
    { intros h Hno. split; [done|]. eapply funded_refused; [exact Hfd|by left|exact Hno]. }
    intros v live' st' Hok' Hc Hbuf Hfv [h Hvm] Hsp. pose proof Hk as Hk0. rewrite <- Hc in Hk.
    pose proof Hok' as (_ & _ & _ & _ & _ & _ & [pop Hpop] & Hf).
    apply wpx_wp. eapply wp_mono; [eapply wp_cached_get|].
    + exact (lru_ok_extend pop _ _ (dev, off) v Hpop Hk).
    + simpl. by rewrite decide_True.
    + exact Hf.
    + exact Hfv.
    + intros l st'' (c & -> & -> & Hch & Hdom). split; [done|]. split; [done|]. split; [|exists live'; by eapply pc_ok_cache].
      eapply funded_cached; [exact Hfd|exact Hin|exact Hk0|done| |exact Hsp|cbn [cache]; by rewrite Hdom, Hc].
      cbn [vm buf]. rewrite Hvm, Hbuf. done.
Qed.

(** The lease shows the device's bytes, and releasing it restores the
    invariant without a mapping of [buf]. *)
Lemma wpx_virt_lease pages h0 N st live dev off :
  pc_ok st live ∅ false → funded pages h0 N st → (dev, off) ∈ pages → off mod PG_SZ = 0 → 0 ≤ off < 2 ^ 57 →
  wpx (cache_oom h0 N) (virt_lease dev off) (λ r st',
    (∀ i, 0 ≤ i < PG_SZ → r.2 i = disk (off + i)) ∧
    (∃ live', pc_ok st' live' {[+ (dev, off) +]} true) ∧
    wp (virt_release r.1) (λ _ st'', funded pages h0 N st'' ∧ ∃ live'', pc_ok st'' live'' ∅ false) st') st.
Proof.
  intros Hok Hfd0 Hkey Hal Hoff. unfold virt_lease. apply wpx_bind. eapply wpx_mono; [by eapply wpx_cache_get|].
  intros l st1 (-> & _ & Hfd & live1 & Hok1). rewrite (left_id_L ∅ (⊎)) in Hok1.
  apply wpx_bind. eapply wpx_lift; [done|].
  pose proof Hok1 as (Hwf & Hb1 & Hb2 & Hnh & Hmap & Hrs & [pop Hpop] & Hf).
  pose proof Hpop as (_ & _ & _ & Hh). destruct (Hh (dev, off)) as [n Hn]; [multiset_solver|].
  apply wpx_bind, wpx_wp, wp_on_part. unfold value. apply wp_bind, wp_get, wp_bind.
  eapply wp_deref; [done|]. apply wp_ret. apply wpx_bind, wpx_get, wpx_bind, wpx_wp, wp_on_part.
  cbn [vm buf cache phys]. unfold get_paddr. destruct (Hf _ _ Hn) as (Hrange & Hin & Hbytes).
  assert (Hnone : vwalk (vm st1) (buf st1) = None).
  { apply eq_None_not_Some. by intros ?%Hmap. }
  eapply wp_map; [done|done|done|by apply Z.mod_mul|done|..].
  2:{ intros v' live' _ _ _ _ Hwhy _. apply wpx_bind, wpx_assert; [|done]. intros _.
      destruct Hwhy as [[[? ?] _]|(_ & Hnt & Hno)]; [congruence|]. split; [done|].
      eapply (funded_refused _ _ _ _ _ (dev, off) Hfd); [by right|exact Hno]. }
  intros v' live' Hsub Hwf' Hregs _ Hre _ Hmade. apply wpx_bind, wpx_wp, wp_assert; [done|].
  apply wpx_bind, wpx_get. cbn [vm buf cache phys].
  assert (Hwalk : vwalk v' (buf st1) = Some (false, pte_user (lval n * PG_SZ) false true false)).
  { rewrite Hre by lia. by rewrite decide_True. }
  apply wpx_bind. eapply wpx_lift; [by rewrite Hwalk|]. apply wpx_ret. cbn [fst snd]. split_and!.
  - intros i Hi. unfold leaf_phys. cbn [fst snd]. rewrite <- Hbytes by done. f_equal.
    destruct (pte_user_fields (lval n * PG_SZ) false true false) as (_ & _ & _ & _ & ->).
    change (2 ^ 12) with PG_SZ. rewrite Z.div_mul, Z.shiftl_mul_pow2 by done.
    assert (0 ≤ lval n < 2 ^ 20) by (change hhdm_len with 0x3DC00000 in Hrange; change PG_SZ with 4096 in Hrange; lia).
    rewrite Z.mod_small by done. rewrite Zplus_mod, Hb2, Z.add_0_l, Zmod_mod, Z.mod_small by done. done.
  - exists live'. split; [done|]. cbn [buf vm]. split; [done|]. split; [done|].
    split; [intros w; by rewrite Hwalk|]. split; [by rewrite Hwalk|]. split; [intros p Hp; by apply Hsub, Hrs|].
    by eapply (cache_holds_live st1); [|split; [by exists pop|]].
  - unfold virt_release. apply wp_bind, wp_get, wp_bind, wp_on_part. cbn [vm buf cache phys].
    unfold unmap. eapply wp_update_pte; [done|done|done|intros w; by rewrite Hwalk| |by rewrite Hwalk].
    intros v'' w _ Hwf'' _ _ _ Hre'' _ Hh'' Ht''. apply wp_on_part. cbn [vm buf cache phys lease_dtor].
    eapply wp_mono; [eapply (wp_dec_leases pop); [exact Hpop|multiset_solver]|].
    intros [] c (Hok' & _ & Hdom). cbn [vm buf cache phys]. split.
    { eapply (funded_same _ _ _ (PCache (cache st1) v' (phys st1) (buf st1)));
        [eapply (funded_table _ _ _ st1); [exact Hfd|done|exact Hmade|done]|done|exact Hh''|cbn [cache]; by rewrite Hdom]. }
    exists live'. cbn [vm buf cache phys].
    assert (Hnone' : vwalk v'' (buf st1) = None).
    { rewrite Hre'' by lia. rewrite decide_True by done. by rewrite fget_fset by done. }
    split; [done|]. split; [done|]. split; [done|]. split; [intros w'; cbn [vm buf]; by rewrite Hnone'|].
    split; [cbn [vm buf]; rewrite Hnone'; split; [by intros []|done]|]. split; [intros p Hp; by apply Hsub, Hrs|]. split.
    { exists pop. cbn [cache]. by replace ({[+ (dev, off) +]} ∖ {[+ (dev, off) +]}) with (∅ : gmultiset (Z * Z)) in Hok' by multiset_solver. }
    cbn [cache phys]. intros k n' Hk. pose proof Hpop as (_ & _ & Hr & _). pose proof Hok' as (_ & _ & Hr' & _).
    destruct (Hr' _ _ Hk) as [_ ->]. apply elem_of_dom_2 in Hk. rewrite Hdom in Hk.
    apply elem_of_dom in Hk as [n0 Hn0]. destruct (Hr _ _ Hn0) as [_ <-].
    eapply frame_holds_live; [done|]. by apply Hf.
Qed.

(** The page cache, to read the pages [pages] with the [N] pages of the
    heap [h0]: a lease fails only when [h0] does not have them. *)
Definition page_cache_source (pages : gset (Z * Z)) (h0 : S) (N : nat) : PageSource (pcache S).
Proof.
  refine {| ps_lease_t := option (Z * Z); ps_disk := disk; ps_lease := virt_lease;
            ps_release := virt_release; ps_inv st := funded pages h0 N st ∧ ∃ live, pc_ok st live ∅ false;
            ps_reads dev off := (dev, off) ∈ pages; ps_oom := ¬ serves N h0 |}.
  intros dev off st [Hfd [live Hok]] Hin Hal Hoff. eapply wpx_mono; [by eapply wpx_virt_lease|].
  intros r st' (Hb & _ & Hrel). split; [exact Hb|exact Hrel].
Defined.
(** The same without an account of the memory: any page, and a lease may
    fail. *)
Definition any_page_source : PageSource (pcache S).
Proof.
  refine {| ps_lease_t := option (Z * Z); ps_disk := disk; ps_lease := virt_lease;
            ps_release := virt_release; ps_inv st := ∃ live, pc_ok st live ∅ false;
            ps_reads _ _ := True; ps_oom := True |}.
  intros dev off st [live Hok] _ Hal Hoff. eapply wpx_weaken.
  - eapply (wpx_virt_lease {[(dev, off)]}); [exact Hok|apply funded_init|set_solver|done|done].
  - by intros f [-> _].
  - intros r st' (Hb & _ & Hrel). split; [exact Hb|]. eapply wp_mono; [exact Hrel|]. by intros ? ? [_ ?].
Defined.
End proof.

Section theorems.
Context {S : Type} `{PA : PageAllocator S} `{BR : BlockReader}.
Implicit Types (st : pcache S) (live : list Z).

(** Reading pages one after the other, as file systems do. *)
Fixpoint read_pages (reqs : list (Z * Z)) : M (pcache S) (list bytes) :=
  match reqs with
  | [] => mret []
  | (dev, off) :: reqs =>
    r ← virt_lease dev off; _ ← virt_release r.1; pgs ← read_pages reqs; mret (r.2 :: pgs)
  end.

(** C16: the page cache is transparent: any sequence of page reads
    through it, hits and misses, shows the bytes that are on the device,
    exactly as reading the device each time would, and leaves the buffer
    page unmapped and every cached page holding its device page.  It stops,
    at an assertion, only when the heap cannot serve a page for each of the
    distinct pages read and one for the table of the buffer page. *)
Theorem page_cache_transparent st live reqs :
  pc_ok st live ∅ false → Forall (λ r, r.2 mod PG_SZ = 0 ∧ 0 ≤ r.2 < 2 ^ 57) reqs →
  match read_pages reqs st with
  | Ret (pgs, st') => (∃ live', pc_ok st' live' ∅ false) ∧
      Forall2 (λ r pg, ∀ i, 0 ≤ i < PG_SZ → pg i = disk (r.2 + i)) reqs pgs
  | Halt f => f = AssertFail ∧ ¬ serves (1 + base.size (list_to_set reqs : gset (Z * Z))) (heap_st (vm st))
  end.
Proof.
  intros Hok Hreqs. set (pages := list_to_set reqs : gset (Z * Z)). set (h0 := heap_st (vm st)).
  pose proof (funded_init pages st) as Hfd. fold h0 in Hfd. set (N := Datatypes.S (base.size pages)) in *.
  change (wpx (cache_oom h0 N) (read_pages reqs) (λ pgs st', (∃ live', pc_ok st' live' ∅ false) ∧
    Forall2 (λ r pg, ∀ i, 0 ≤ i < PG_SZ → pg i = disk (r.2 + i)) reqs pgs) st).
  assert (Hin : Forall (λ r, r ∈ pages) reqs) by (apply Forall_forall; intros r Hr; by apply elem_of_list_to_set).
  clearbody pages h0 N. revert st live Hok Hfd.
  induction Hreqs as [|[dev off] reqs [Hal Hoff] _ IH]; intros st live Hok Hfd; cbn [read_pages].
  { apply wpx_ret. split; [by exists live|constructor]. }
  apply Forall_cons in Hin as [Hin1 Hin].
  apply wpx_bind. eapply wpx_mono; [by eapply wpx_virt_lease|]. intros r st1 (Hb & _ & Hrel).
  apply wpx_bind, wpx_wp. eapply wp_mono; [exact Hrel|]. intros [] st2 [Hfd2 [live2 Hok2]].
  apply wpx_bind. eapply wpx_mono; [by eapply IH|]. intros pgs st3 [Hok3 Hpgs].
  apply wpx_ret. split; [done|]. by constructor.
Qed.

(** A lease taken while another one is alive fails the assertion on
    [map]: the one buffer page is in use. *)
Lemma nested_lease_fails st live held dev off :
  pc_ok st live held true → off mod PG_SZ = 0 → 0 ≤ off < 2 ^ 57 →
  virt_lease dev off st = Halt AssertFail.
Proof.
  intros Hok Hal Hoff.
  assert (Hw : wpx (λ f, f = AssertFail) (virt_lease dev off) (λ _ _, False) st).
  { unfold virt_lease. apply wpx_bind. eapply wpx_mono.
    { pose proof (wpx_cache_get {[(dev, off)]} _ _ st live held true dev off Hok (funded_init _ st) ltac:(set_solver) Hal Hoff) as H.
      unfold wpx in *.
      destruct (cache_get dev off st) as [[l st']|f]; [exact H|]. by destruct H as [-> _]. }
    intros l st1 (-> & _ & _ & live1 & Hwf & Hb1 & Hb2 & Hnh & Hmap & Hrs & [pop Hpop] & Hf).
    apply wpx_bind. eapply wpx_lift; [done|]. pose proof Hpop as (_ & _ & _ & Hh).
    destruct (Hh (dev, off)) as [n Hn]; [multiset_solver|].
    apply wpx_bind, wpx_wp, wp_on_part. unfold value. apply wp_bind, wp_get, wp_bind.
    eapply wp_deref; [done|]. apply wp_ret. apply wpx_bind, wpx_get, wpx_bind, wpx_wp, wp_on_part.
    cbn [vm buf cache phys]. eapply wp_map; [done|done|done|by apply Z.mod_mul|done|..].
    - intros v' live' _ _ _ Hnone. destruct (proj2 Hmap eq_refl). congruence.
    - intros v' live' _ _ _ _ _ _. by apply wpx_bind, wpx_assert. }
  unfold wpx in Hw. destruct (virt_lease dev off st) as [[]|f]; [done|]. by rewrite Hw.
Qed.

Lemma pc_ok_init v live m b v' :
  vm_wf v live → io_alloc 1 v = Ret (b, v') → vm_wf v' live →
  0 ≤ b < 2 ^ 32 → b mod PG_SZ = 0 → vwalk v' b = None → reserved_live live →
  pc_ok (PCache lru_new v' m b) live ∅ false.
Proof.
  intros Hwf Hio Hwf' Hb Hal Hnone Hrs. split; [exact Hwf'|]. split; [exact Hb|]. split; [exact Hal|].
  split; [intros w; cbn [vm buf]; by rewrite Hnone|].
  split; [cbn [vm buf]; rewrite Hnone; split; [by intros []|done]|].
  split; [exact Hrs|]. split; [exists (λ _, 0); apply lru_ok_new|]. intros k n Hk. cbn [cache lookup_ lru_new] in Hk.
  by rewrite lookup_empty in Hk.
Qed.
End theorems.

(** ** A device whose byte [a] is [a mod 251] *)
#[export] Instance demo_reader : BlockReader.
Proof.
  refine {| disk a := a mod 251;
            read_blocking _ startl starth count p m :=
              Some (overwrite m p (count * 512) (λ i, ((starth * 2 ^ 32 + startl) * 512 + i) mod 251));
            reserved _ := False |}.
  intros startl starth p m _ _ _ _ _. by eexists.
Defined.

#[local] Existing Instance demo_pages.

Definition demo_cache : pcache (kheap SimplePFA) :=
  PCache lru_new (VMem (KHeap 0 (Some demo_pfa)) 0x1000 {[0xC0001000 := zero_page]} ∅ 0x1000)
    (λ _, 0) io_map_start.

Lemma demo_cache_ok : pc_ok demo_cache [0xC0001000] ∅ false.
Proof.
  eapply (pc_ok_init demo_vm); [exact demo_vm_wf|vm_compute; reflexivity| |done|done| |].
  - pose proof demo_vm_wf as (H1 & H2 & H3 & H4). split; [exact H1|]. split; [exact H2|]. split; [exact H3|exact H4].
  - apply (demo_vwalk io_map_start). done.
  - intros p [].
Qed.

Lemma page_cache_transparent_witness :
  ∃ pg1 pg2 st', read_pages [(7, 0x3000); (7, 0x3000)] demo_cache = Ret ([pg1; pg2], st') ∧
    pg1 5 = (0x3000 + 5) mod 251 ∧ pg2 4095 = (0x3000 + 4095) mod 251.
Proof.
  pose proof (page_cache_transparent demo_cache [0xC0001000] [(7, 0x3000); (7, 0x3000)] demo_cache_ok) as H.
  assert (Hret : is_ret (read_pages [(7, 0x3000); (7, 0x3000)] demo_cache) = true) by (vm_compute; reflexivity).
  destruct (read_pages [(7, 0x3000); (7, 0x3000)] demo_cache) as [[pgs st']|f]; [clear Hret|discriminate Hret].
  destruct H as [_ Hpgs]; [repeat constructor; done|].
  inversion Hpgs as [|? pg1 ? ? H1 Hr]; subst. inversion Hr as [|? pg2 ? ? H2 Hr2]; subst. inversion Hr2; subst.
  exists pg1, pg2, st'. split; [reflexivity|]. split; [apply H1; done|apply H2; done].
Defined.
