(* ===== verification/Fat32.v ===== *)
(** * The kernel's FAT32 driver

    Models [fs/drivers/fat32.{h,cc}] and [fs/result.h], over the page
    cache behind the interface [PageSource] of [PageCache.v].  Names are
    byte lists (the contents of the [string_view]s; [StringView.v] models
    the views themselves, and the comparison here stops at a NUL byte as
    theirs does).  Packed structures are read from the bytes of a leased
    page at their offsets, with the accessors of [BootFat.v] for the
    layouts both programs declare. *)
From S2P Require Import Prelude Algorithm Libc BootProtocol BootMem BootFat PageCache.

(** [fs/result.h] *)
Inductive Result :=
| Ok | Unsupported | InvalidArgs
| IsDirectory | IsFile | FileNotFound | BadFD
| NonExecutable
| MappingExists.

#[export] Instance Result_eq_dec : EqDecision Result.
Proof. solve_decision. Defined.

Definition mask_cluster (cluster : Z) : Z := Z.land cluster 0x0FFFFFFF.
Definition is_last_cluster_in_file (cluster : Z) : bool := 0x0FFFFFF7 <=? mask_cluster cluster.

(** ** 8.3 names *)
Definition chr_dot : Z := 46.
Definition chr_space : Z := 32.

(** [filename.find(c)]; [None] is [npos]. *)
Definition find_chr (c : Z) (s : list Z) : option nat := fst <$> list_find (λ x, x = c) s.

(** [memcpy(l + pos, xs, length xs)] within the array [l] *)
Definition blit (pos : nat) (xs l : list Z) : list Z :=
  take pos l ++ xs ++ drop (pos + length xs) l.

Definition convert_normal_to_8_3_filename (filename : list Z) : list Z :=
  let rval := replicate 11 chr_space in
  match find_chr chr_dot filename with
  | None => blit 0 (take 8 filename) rval
  | Some pos =>
    blit 8 (take 3 (drop (pos + 1) filename)) (blit 0 (take (pos `min` 8) filename) rval)
  end.

Definition convert_8_3_to_normal_filename (_8_3 : list Z) : list Z :=
  let rval := replicate 13 0 in
  let filename := take 8 _8_3 in
  let fileext := drop 8 _8_3 in
  let filename_len := default 8%nat (find_chr chr_space filename) in
  let fileext_len := default 3%nat (find_chr chr_space fileext) in
  let rval := blit 0 (take filename_len filename) rval in
  if (fileext_len =? 0)%nat then rval
  else blit (filename_len + 1) (take fileext_len fileext) (blit filename_len [chr_dot] rval).

(** [string_view::operator==] *)
Definition view_eq (a b : list Z) : bool :=
  (length a =? length b)%nat && (strncmp_bytes a b =? 0).

(** Names without NUL bytes are equal exactly when they are the same. *)
Lemma view_eq_true xs ys :
  Forall (λ b, 0 < b < 256) xs → Forall is_byte ys → view_eq xs ys = true ↔ xs = ys.
Proof.
  intros Hx Hy. unfold view_eq. rewrite andb_true_iff, Nat.eqb_eq, Z.eqb_eq. split.
  - intros [Hl Hz]. by apply (proj1 (strncmp_bytes_zero xs ys Hx Hy Hl)).
  - intros ->. split; [done|]. by apply strncmp_bytes_zero.
Qed.

(** ** State *)
Record Filesystem := KFat {
  k_dev : Z;
  k_bytes_per_sector : Z;
  k_sectors_per_cluster : Z;
  k_dir_entries_per_cluster : Z;
  k_fat_offset_lba : Z;
  k_data_region_offset_lba : Z;
  k_root_dir_start_cluster : Z }.

(** The name is an array of 13 characters; [None] is one that was not
    written since the memory was allocated. *)
Record fat_inode := FInode {
  fi_id : Z; fi_size : Z; fi_is_directory : bool; fi_start_cluster : Z; fi_name : list (option Z) }.

(** [strncpy] of [nonstd/libc.h] within the array [dst]: the first loop
    copies while the character is not NUL and [--n] is not 0, the second
    writes zeros while [--n] is not 0. *)
Fixpoint strncpy_zeros (n : nat) (dst : list (option Z)) : list (option Z) :=
  match n, dst with
  | S (S _ as n), _ :: dst => Some 0 :: strncpy_zeros n dst
  | _, _ => dst
  end.
Fixpoint strncpy_chars (n : nat) (src : list Z) (dst : list (option Z)) : list (option Z) :=
  match src, n, dst with
  | c :: src, S n', _ :: dst' =>
    if c =? 0 then strncpy_zeros n dst
    else match n' with O => dst | S _ => Some c :: strncpy_chars n' src dst' end
  | _, _, _ => strncpy_zeros n dst
  end.

(** The mutable part of [Filesystem], with the inode objects by address
    and the state of the page cache. *)
Record fat_st (S : Type) := FatSt {
  src : S;
  next_inode : Z;
  start_cluster_to_inode : gmap Z Z;
  inodes : gmap Z fat_inode;
  ibrk : Z }.
Arguments FatSt {S} src next_inode start_cluster_to_inode inodes ibrk.
Arguments src {S} _.
Arguments next_inode {S} _.
Arguments start_cluster_to_inode {S} _.
Arguments inodes {S} _.
Arguments ibrk {S} _.

Definition DirectoryEntry_sz : Z := 32.
Definition fat_entries_per_sector : Z := 512 / 4.

(** The constructor: [vbr] is the offset of the VBR in the page [m]. *)
Definition Filesystem_ctor (dev : Z) (m : bytes) (vbr first_sector_lba : Z) : Filesystem :=
  KFat dev (vbr_bytes_per_sector m vbr) (vbr_sectors_per_cluster m vbr)
    (512 * vbr_sectors_per_cluster m vbr / DirectoryEntry_sz)
    (u32 (first_sector_lba + vbr_reserved_sectors m vbr))
    (u32 (u32 (first_sector_lba + vbr_reserved_sectors m vbr) +
          u32 (vbr_fats m vbr * vbr_sectors_per_fat2 m vbr)))
    (vbr_root_dir_start_cluster m vbr).

Section driver.
Context {S : Type} `{PS : PageSource S}.

Definition on_src {A} : M S A → M (fat_st S) A :=
  on_part src (λ s st, FatSt s (next_inode st) (start_cluster_to_inode st) (inodes st) (ibrk st)).

(** A [VirtLease] for the time of a read of the page. *)
Definition with_lease {A} (dev off : Z) (f : bytes → outcome A) : M S A :=
  r ← ps_lease dev off;
  a ← liftO (f r.2);
  _ ← ps_release r.1;
  mret a.

(** [find_boot_part]: the offset of the first FAT32 (LBA) entry of the
    partition table and the sector it starts at. *)
Fixpoint find_part (n : nat) (p : Z) (m : bytes) : option Z :=
  match n with
  | O => None
  | Datatypes.S n =>
    if partition_type m p =? 0x0C then Some (first_sector_lba m p) else find_part n (p + 16) m
  end.
Definition find_boot_part (dev : Z) : M S (option Z) :=
  with_lease dev 0 (λ m, Ret (find_part 4 0x01BE m)).

Definition from_partition (dev first_lba : Z) : M S Filesystem :=
  let offset := floor_pow2 PG_SZ (u32 (first_lba * 512)) in
  let sector_off := first_lba mod (PG_SZ / 512) * 512 in
  with_lease dev offset (λ m, Ret (Filesystem_ctor dev m sector_off first_lba)).

Context (fs : Filesystem).

Definition get_fat_sector_for_cluster (cluster : Z) : Z :=
  u32 (k_fat_offset_lba fs + mask_cluster cluster / fat_entries_per_sector).

Definition advance_cluster (cur_cluster : Z) : M S Z :=
  let fat_it := get_fat_sector_for_cluster cur_cluster in
  let offset := floor_pow2 PG_SZ (u32 (fat_it * 512)) in
  let sector_off := fat_it mod (PG_SZ / 512) * 512 in
  with_lease (k_dev fs) offset (λ m,
    let next_cluster := mask_cluster (le32 m (sector_off + 4 * (cur_cluster mod fat_entries_per_sector))) in
    _ ← assert_ (negb (is_last_cluster_in_file next_cluster));
    Ret next_cluster).

(** The inner loop of [iterate_dir] over the entries of a page, [n] left
    at [it]: [Some] is a return, with what the callback kept; entries past
    the leased page are not mapped. *)
Fixpoint scan_entries {A} (n : nat) (it : Z) (cb : bytes → Z → option A) (m : bytes)
    : outcome (option (option A)) :=
  match n with
  | O => Ret None
  | Datatypes.S n =>
    if PG_SZ <=? it then Halt BadAccess
    else if m it =? 0 then Ret (Some None)
    else if m it =? 0xE5 then scan_entries n (it + DirectoryEntry_sz) cb m
    else if m (it + 11) =? 0x0F then scan_entries n (it + DirectoryEntry_sz) cb m
    else match cb m it with
         | Some a => Ret (Some (Some a))
         | None => scan_entries n (it + DirectoryEntry_sz) cb m
         end
  end.

(** [for (unsigned pg_it = start_pg; pg_it < start_pg + cluster_sz; ...)] *)
Fixpoint scan_pages {A} (fuel : nat) (pg_it limit : Z) (cb : bytes → Z → option A)
    : M S (option (option A)) :=
  if pg_it <? limit then
    match fuel with
    | O => halt OutOfFuel
    | Datatypes.S fuel =>
      r ← with_lease (k_dev fs) pg_it (scan_entries (Z.to_nat (k_dir_entries_per_cluster fs)) 0 cb);
      match r with
      | Some a => mret (Some a)
      | None => scan_pages fuel (u32 (pg_it + PG_SZ)) limit cb
      end
    end
  else mret None.

(** [fuel] bounds the number of clusters. *)
Fixpoint iterate_dir {A} (fuel : nat) (dir_cluster : Z) (cb : bytes → Z → option A) : M S (option A) :=
  match fuel with
  | O => halt OutOfFuel
  | Datatypes.S fuel =>
    _ ← assertM (PG_ALIGNED (k_sectors_per_cluster fs * 512));
    let start_sector := u32 (k_data_region_offset_lba fs + u32 (u32 (dir_cluster - 2) * k_sectors_per_cluster fs)) in
    let start_pg := start_sector * 512 in
    let cluster_sz := k_sectors_per_cluster fs * 512 in
    r ← scan_pages (Z.to_nat (cluster_sz / PG_SZ)) (u32 start_pg) (start_pg + cluster_sz) cb;
    match r with
    | Some a => mret a
    | None => next ← advance_cluster dir_cluster; iterate_dir fuel next cb
    end
  end.

(** ** Inodes *)
Definition new_inode (size : Z) (is_directory : bool) (start_cluster : Z) (name : list Z) : M (fat_st S) Z :=
  st ← getS;
  let a := ibrk st in
  _ ← assertM (bool_decide (start_cluster_to_inode st !! start_cluster = None));
  _ ← putS (FatSt (src st) (u32 (next_inode st + 1)) (<[start_cluster := a]> (start_cluster_to_inode st))
              (<[a := FInode (next_inode st) size is_directory start_cluster
                            (strncpy_chars 13 name (replicate 13 None))]> (inodes st)) (a + 1));
  mret a.

Definition get_inode (a : Z) : M (fat_st S) fat_inode :=
  st ← getS; liftO (deref (inodes st !! a)).

(** [~Inode] *)
Definition delete_inode (a : Z) : M (fat_st S) unit :=
  i ← get_inode a;
  st ← getS;
  _ ← assertM (bool_decide (start_cluster_to_inode st !! fi_start_cluster i = Some a));
  putS (FatSt (src st) (next_inode st) (delete (fi_start_cluster i) (start_cluster_to_inode st))
          (delete a (inodes st)) (ibrk st)).

(** The root inode of [get_root_dentry]. *)
Definition root_inode : M (fat_st S) Z :=
  new_inode 0 true (k_root_dir_start_cluster fs) (replicate 13 0).

(** What [lookup]'s callback keeps of the entry it accepts. *)
Definition accept (name_8_3 : list Z) (m : bytes) (it : Z) : option (Z * Z * bool * list Z) :=
  if view_eq name_8_3 (short_name m it)
  then Some (Z.lor (u32 (Z.shiftl (cluster_hi m it) 2)) (cluster_lo m it), dirent_file_sz m it,
             Z.testbit (m (it + 11)) 4, short_name m it)
  else None.

Definition lookup (fuel : nat) (this : Z) (name : list Z) (res : Result)
    : M (fat_st S) (option Z * Result) :=
  i ← get_inode this;
  _ ← assertM (fi_is_directory i);
  dirent ← on_src (iterate_dir fuel (fi_start_cluster i) (accept (convert_normal_to_8_3_filename name)));
  match dirent with
  | None => mret (None, FileNotFound)
  | Some (start_cluster, file_sz, subdir, name_8_3) =>
    st ← getS;
    match start_cluster_to_inode st !! start_cluster with
    | Some a => mret (Some a, res)
    | None =>
      a ← new_inode file_sz subdir start_cluster (convert_8_3_to_normal_filename name_8_3);
      mret (Some a, res)
    end
  end.

(** [uint64_t] -1, the error of [get_dev_offset] *)
Definition bad_offset : Z := 2 ^ 64 - 1.

Fixpoint seek_cluster (fuel : nat) (file_offset cur_cluster : Z) : M S Z :=
  if 0 <? file_offset then
    match fuel with
    | O => halt OutOfFuel
    | Datatypes.S fuel =>
      next ← advance_cluster cur_cluster;
      seek_cluster fuel (u64 (file_offset - k_sectors_per_cluster fs * 512)) next
    end
  else mret cur_cluster.

(** A page-sized cluster is skipped per iteration. *)
Definition get_dev_offset (this file_offset : Z) : M (fat_st S) Z :=
  i ← get_inode this;
  if negb (PG_ALIGNED file_offset) then mret bad_offset
  else
    _ ← assertM (PG_ALIGNED (k_sectors_per_cluster fs * 512));
    if fi_is_directory i then mret bad_offset
    else if fi_size i <=? file_offset then mret bad_offset
    else
      cur_cluster ← on_src (seek_cluster (Z.to_nat (file_offset / PG_SZ)) file_offset (fi_start_cluster i));
      let sector := u32 (k_data_region_offset_lba fs + u32 (u32 (cur_cluster - 2) * k_sectors_per_cluster fs)) in
      mret (u32 (sector * 512)).
End driver.

(** ** 8.3 names round-trip *)
Definition pad (c : Z) (n : nat) (l : list Z) : list Z := l ++ replicate (n - length l) c.

Lemma length_pad c n l : (length l ≤ n)%nat → length (pad c n l) = n.
Proof. intros. unfold pad. rewrite length_app, length_replicate. lia. Qed.

Lemma blit_app l1 l2 xs : blit (length l1) xs (l1 ++ l2) = l1 ++ xs ++ drop (length xs) l2.
Proof.
  unfold blit. rewrite take_app_length. f_equal. f_equal.
  rewrite drop_app_ge by lia. f_equal. lia.
Qed.

Lemma blit_0_pad c n xs : blit 0 xs (replicate n c) = pad c n xs.
Proof. unfold blit, pad. rewrite take_0. simpl. by rewrite drop_replicate. Qed.

Lemma find_chr_none c s : c ∉ s → find_chr c s = None.
Proof.
  intros Hc. unfold find_chr. rewrite (proj2 (list_find_None _ _)); [done|].
  apply Forall_forall. intros x Hx ->. done.
Qed.

Lemma find_chr_some c l r : c ∉ l → find_chr c (l ++ c :: r) = Some (length l).
Proof.
  intros Hc. unfold find_chr.
  rewrite (proj2 (list_find_Some (λ x, x = c) (l ++ c :: r) (length l) c)); [done|].
  split_and!; [by apply list_lookup_middle|done|]. intros j y Hj Hlt ->.
  apply Hc. rewrite lookup_app_l in Hj by done. by eapply list_elem_of_lookup_2.
Qed.

Lemma find_chr_pad c n l :
  c ∉ l → default n (find_chr c (pad c n l)) = (if (length l <? n)%nat then length l else n).
Proof.
  intros Hc. unfold pad. destruct (Nat.ltb_spec (length l) n).
  - replace (n - length l)%nat with (S (n - length l - 1)) by lia. simpl. by rewrite find_chr_some.
  - replace (n - length l)%nat with 0%nat by lia. simpl. rewrite app_nil_r. by rewrite find_chr_none.
Qed.

Lemma take_pad c n l : take (length l) (pad c n l) = l.
Proof. unfold pad. apply take_app_length. Qed.

(** The 8.3 form of a name with base [b] and extension [e]. *)
Lemma to_8_3_ext b e :
  chr_dot ∉ b → (length b ≤ 8)%nat → (length e ≤ 3)%nat →
  convert_normal_to_8_3_filename (b ++ chr_dot :: e) = pad chr_space 8 b ++ pad chr_space 3 e.
Proof.
  intros Hb Hlb Hle. unfold convert_normal_to_8_3_filename. rewrite find_chr_some by done.
  rewrite Nat.min_l, take_app_length by lia. replace (length b + 1)%nat with (length (b ++ [chr_dot])) by (rewrite length_app; simpl; lia).
  rewrite (cons_middle chr_dot b e), (app_assoc b), drop_app_length, blit_0_pad, (take_ge e) by lia.
  assert (pad chr_space 11 b = pad chr_space 8 b ++ replicate 3 chr_space) as ->.
  { unfold pad. rewrite <- app_assoc, <- replicate_add. do 2 f_equal. lia. }
  rewrite <- (length_pad chr_space 8 b) at 1 by done. rewrite blit_app, drop_replicate. done.
Qed.

Lemma to_8_3_noext b :
  chr_dot ∉ b → (length b ≤ 8)%nat →
  convert_normal_to_8_3_filename b = pad chr_space 8 b ++ pad chr_space 3 [].
Proof.
  intros Hb Hlb. unfold convert_normal_to_8_3_filename. rewrite find_chr_none by done.
  rewrite take_ge, blit_0_pad by lia. unfold pad. rewrite <- app_assoc. f_equal.
  simpl (length []). rewrite app_nil_l, <- replicate_add. f_equal. lia.
Qed.

(** Back from the padded fields. *)
Lemma from_8_3 b e :
  chr_space ∉ b → chr_space ∉ e → (length b ≤ 8)%nat → (length e ≤ 3)%nat →
  convert_8_3_to_normal_filename (pad chr_space 8 b ++ pad chr_space 3 e) =
  pad 0 13 (match e with [] => b | _ => b ++ chr_dot :: e end).
Proof.
  intros Hb He Hlb Hle. unfold convert_8_3_to_normal_filename.
  rewrite take_app_length', drop_app_length' by (by rewrite length_pad).
  rewrite !find_chr_pad by done.
  replace (if (length b <? 8)%nat then length b else 8%nat) with (length b)
    by (destruct (Nat.ltb_spec (length b) 8); lia).
  replace (if (length e <? 3)%nat then length e else 3%nat) with (length e)
    by (destruct (Nat.ltb_spec (length e) 3); lia).
  rewrite !take_pad, blit_0_pad. destruct e as [|x e]; [done|].
  rewrite (proj2 (Nat.eqb_neq _ _)) by (simpl; lia). unfold pad at 1. rewrite blit_app.
  rewrite (app_assoc b).
  replace (length b + 1)%nat with (length (b ++ [chr_dot])) by (rewrite length_app; simpl; lia).
  rewrite blit_app, drop_drop, drop_replicate. unfold pad. rewrite <- !app_assoc. f_equal. simpl. do 3 f_equal.
  f_equal. rewrite length_app. simpl. lia.
Qed.

(** C38: converting a file name that fits the 8.3 format to it and back
    gives the name (NUL-padded to 13 bytes), with or without an
    extension. *)
Theorem filename_roundtrip b e :
  chr_dot ∉ b → chr_space ∉ b ++ e → (length b ≤ 8)%nat → (length e ≤ 3)%nat →
  (e ≠ [] → convert_8_3_to_normal_filename (convert_normal_to_8_3_filename (b ++ chr_dot :: e)) =
            pad 0 13 (b ++ chr_dot :: e)) ∧
  convert_8_3_to_normal_filename (convert_normal_to_8_3_filename b) = pad 0 13 b.
Proof.
  intros Hd Hs Hlb Hle. apply not_elem_of_app in Hs as [Hsb Hse]. split.
  - intros Hne. rewrite to_8_3_ext, from_8_3 by done. by destruct e.
  - rewrite to_8_3_noext, from_8_3 by (done || (simpl; lia) || apply not_elem_of_nil). done.
Qed.

Lemma filename_roundtrip_witness :
  convert_8_3_to_normal_filename (convert_normal_to_8_3_filename [75; 69; 82; 78; 69; 76; 46; 66; 73; 78]) =
  [75; 69; 82; 78; 69; 76; 46; 66; 73; 78; 0; 0; 0].
Proof.
  destruct (filename_roundtrip [75; 69; 82; 78; 69; 76] [66; 73; 78]) as [H _].
  - apply (bool_decide_unpack _). vm_compute. exact I.
  - apply (bool_decide_unpack _). vm_compute. exact I.
  - simpl; lia.
  - simpl; lia.
  - exact (H ltac:(done)).
Defined.

(** ** What is on the device *)
Section layout.
Variables (disk : bytes) (fs : Filesystem).

Definition fat_next (c : Z) : Z :=
  mask_cluster (le32 disk (k_fat_offset_lba fs * 512 + 4 * mask_cluster c)).
Definition cluster_addr (c : Z) : Z := (k_data_region_offset_lba fs + (c - 2) * 8) * 512.

(** A chain of clusters in the FAT. *)
Fixpoint linked (cs : list Z) : Prop :=
  match cs with
  | c :: (c' :: _) as tl => fat_next c = c' ∧ is_last_cluster_in_file c' = false ∧ linked tl
  | _ => True
  end.

(** Page-sized clusters, a data region aligned to pages, and a file
    system below 4GB. *)
Definition fat_ok : Prop :=
  k_sectors_per_cluster fs = 8 ∧ k_dir_entries_per_cluster fs = 128 ∧
  0 ≤ k_fat_offset_lba fs ∧ k_fat_offset_lba fs + 2 ^ 21 ≤ 2 ^ 23 ∧
  0 ≤ k_data_region_offset_lba fs ∧ k_data_region_offset_lba fs mod 8 = 0.
Definition cluster_ok (c : Z) : Prop := 2 ≤ c < 2 ^ 28 ∧ cluster_addr c + PG_SZ < 2 ^ 32.

(** The directory entries from [a] on, and those of a chain. *)
Fixpoint entries (a : Z) (n : nat) : list Z :=
  match n with O => [] | S n => a :: entries (a + DirectoryEntry_sz) n end.
Definition dir_entries (cs : list Z) : list Z := cs ≫= λ c, entries (cluster_addr c) 128.

(** A directory entry as FAT32 defines it: 32 bytes, the name in the first
    11, the attributes (bit 4 marks a directory), the two halves of the
    first cluster at 20 and 26 and the size at 28, little endian. *)
Record dirent := Dirent { de_name : list Z; de_attr : Z; de_hi : Z; de_lo : Z; de_size : Z }.
Definition dirent_at (a : Z) : dirent :=
  Dirent ((λ i, disk (a + i)) <$> seqZ 0 11) (disk (a + 11))
    (disk (a + 20) + 256 * disk (a + 21)) (disk (a + 26) + 256 * disk (a + 27))
    (disk (a + 28) + 256 * disk (a + 29) + 65536 * disk (a + 30) + 16777216 * disk (a + 31)).
Definition de_subdir (e : dirent) : bool := Z.odd (de_attr e / 16).
Definition de_cluster (e : dirent) : Z := 65536 * de_hi e + de_lo e.
(** What the driver takes for the first cluster: the high half is shifted
    by 2 instead of 16. *)
Definition driver_cluster (e : dirent) : Z := Z.lor (u32 (4 * de_hi e)) (de_lo e).

(** The reference search: the first entry with the name, up to the end
    marker; [None] when there is no end marker. *)
Fixpoint dir_search (nm : list Z) (es : list Z) : option (option dirent) :=
  match es with
  | [] => None
  | a :: es =>
    if disk a =? 0 then Some None
    else if (disk a =? 0xE5) || (disk (a + 11) =? 0x0F) then dir_search nm es
    else if view_eq nm (de_name (dirent_at a)) then Some (Some (dirent_at a)) else dir_search nm es
  end.

Lemma dir_search_app nm l1 l2 :
  dir_search nm (l1 ++ l2) = match dir_search nm l1 with Some r => Some r | None => dir_search nm l2 end.
Proof.
  induction l1 as [|a l1 IH]; [done|]. cbn [dir_search app]. destruct (_ =? 0); [done|]. destruct (_ || _); [done|].
  by destruct (view_eq _ _).
Qed.
End layout.

(** The two readings agree on the first 65536 clusters. *)
Lemma driver_cluster_low e : de_hi e = 0 → driver_cluster e = de_cluster e.
Proof. intros Hhi. unfold driver_cluster, de_cluster. by rewrite Hhi. Qed.

Lemma le16_shift m d off p n :
  (∀ i, 0 ≤ i < n → m i = d (off + i)) → 0 ≤ p → p + 2 ≤ n → le16 m p = le16 d (off + p).
Proof. intros H ??. unfold le16. rewrite !H by lia. do 3 f_equal. lia. Qed.

Lemma le32_shift m d off p n :
  (∀ i, 0 ≤ i < n → m i = d (off + i)) → 0 ≤ p → p + 4 ≤ n → le32 m p = le32 d (off + p).
Proof.
  intros H ??. unfold le32. rewrite !(le16_shift m d off _ n) by (done || lia). do 3 f_equal. lia.
Qed.

Lemma short_name_shift m d off p n :
  (∀ i, 0 ≤ i < n → m i = d (off + i)) → 0 ≤ p → p + 11 ≤ n → short_name m p = short_name d (off + p).
Proof.
  intros H ??. unfold short_name. apply list_fmap_ext. intros i x Hx. apply lookup_seq in Hx as [-> Hlt].
  rewrite H by lia. f_equal. lia.
Qed.

(** What the driver keeps of an entry *)
Definition kept (e : dirent) : Z * Z * bool * list Z := (driver_cluster e, de_size e, de_subdir e, de_name e).
Lemma de_name_short d a : de_name (dirent_at d a) = short_name d a.
Proof. reflexivity. Qed.

Lemma le16_sum d p : le16 d p = d p + 256 * d (p + 1).
Proof. unfold le16. lia. Qed.

Lemma le32_sum d p : le32 d p = d p + 256 * d (p + 1) + 65536 * d (p + 2) + 16777216 * d (p + 3).
Proof. unfold le32. rewrite !le16_sum, <- (Z.add_assoc p 2 1). change (2 + 1) with 3. lia. Qed.

Lemma accept_kept nm d a :
  accept nm d a = if view_eq nm (de_name (dirent_at d a)) then Some (kept (dirent_at d a)) else None.
Proof.
  unfold accept. rewrite <- de_name_short. destruct (view_eq _ _); [|done].
  unfold kept, driver_cluster, de_subdir, cluster_hi, cluster_lo, dirent_file_sz.
  rewrite !le16_sum, le32_sum, Z.shiftl_mul_pow2, (Z.mul_comm _ (2 ^ 2)), Z.testbit_odd, Z.shiftr_div_pow2 by done.
  rewrite <- !(Z.add_assoc a). reflexivity.
Qed.

Lemma accept_shift nm m d off p n :
  (∀ i, 0 ≤ i < n → m i = d (off + i)) → 0 ≤ p → p + 32 ≤ n → accept nm m p = accept nm d (off + p).
Proof.
  intros H ??. unfold accept, cluster_hi, cluster_lo, dirent_file_sz.
  rewrite (short_name_shift m d off p n), !(le16_shift m d off _ n), (le32_shift m d off _ n), H by (done || lia).
  by rewrite !Z.add_assoc.
Qed.

Lemma scan_entries_spec nm m d off n it :
  (∀ i, 0 ≤ i < PG_SZ → m i = d (off + i)) → 0 ≤ it → it + 32 * Z.of_nat n ≤ PG_SZ →
  scan_entries n it (accept nm) m = Ret (option_map (option_map kept) (dir_search d nm (entries (off + it) n))).
Proof.
  intros H. revert it. induction n as [|n IH]; intros it Hit Hn; [done|]. cbn [scan_entries entries dir_search].
  rewrite (proj2 (Z.leb_gt _ _)) by lia. rewrite H by lia. destruct (d (off + it) =? 0); [done|].
  unfold DirectoryEntry_sz in *. rewrite <- (Z.add_assoc off it 32).
  rewrite H by lia. rewrite (Z.add_assoc off it 11).
  destruct (d (off + it) =? 0xE5); [apply IH; lia|]. cbn [orb].
  destruct (d (off + it + 11) =? 0x0F); [apply IH; lia|].
  rewrite (accept_shift nm m d off it PG_SZ), accept_kept by (done || lia).
  destruct (view_eq _ _); [done|]. apply IH; lia.
Qed.

(** ** Following the FAT *)
Section proof.
Context {S : Type} `{PS : PageSource S} (fs : Filesystem) (Hfs : fat_ok fs).

Definition src_oom (f : fault) : Prop := f = AssertFail ∧ ps_oom.

(** The page of the FAT with the entry of [c]; the source is set up for it
    and for the cluster. *)
Definition fat_page (c : Z) : Z := PG_SZ * ((k_fat_offset_lba fs * 512 + 4 * mask_cluster c) / PG_SZ).
Definition readable (c : Z) : Prop := ps_reads (k_dev fs) (cluster_addr fs c) ∧ ps_reads (k_dev fs) (fat_page c).

Lemma wpx_with_lease {A} dev off (f : bytes → outcome A) (Q : A → S → Prop) s :
  ps_inv s → ps_reads dev off → off mod PG_SZ = 0 → 0 ≤ off < 2 ^ 57 →
  (∀ m, (∀ i, 0 ≤ i < PG_SZ → m i = ps_disk (off + i)) →
     ∃ a, f m = Ret a ∧ ∀ s', ps_inv s' → Q a s') →
  wpx src_oom (with_lease dev off f) Q s.
Proof.
  intros Hinv Hrd Hal Hoff Hf. unfold with_lease. apply wpx_bind.
  eapply wpx_mono; [by apply ps_lease_spec|]. intros r s' [Hb Hrel].
  destruct (Hf r.2 Hb) as (a & Hfa & HQ). apply wpx_bind. eapply wpx_lift; [exact Hfa|].
  apply wpx_bind, wpx_wp. eapply wp_mono; [exact Hrel|]. intros [] s'' Hinv'. apply wpx_ret. by apply HQ.
Qed.

(** The sector of the FAT entry, as a page and an offset in it. *)
Lemma fat_entry_addr c :
  0 ≤ c → let fat_it := get_fat_sector_for_cluster fs c in
  let offset := floor_pow2 PG_SZ (u32 (fat_it * 512)) in
  let p := fat_it mod (PG_SZ / 512) * 512 + 4 * (c mod fat_entries_per_sector) in
  offset mod PG_SZ = 0 ∧ 0 ≤ offset < 2 ^ 32 ∧ 0 ≤ p ∧ p + 4 ≤ PG_SZ ∧
  offset + p = k_fat_offset_lba fs * 512 + 4 * mask_cluster c ∧ offset = fat_page c.
Proof.
  intros Hc. enough (H : let fat_it := get_fat_sector_for_cluster fs c in
    let offset := floor_pow2 PG_SZ (u32 (fat_it * 512)) in
    let p := fat_it mod (PG_SZ / 512) * 512 + 4 * (c mod fat_entries_per_sector) in
    offset mod PG_SZ = 0 ∧ 0 ≤ offset < 2 ^ 32 ∧ 0 ≤ p ∧ p + 4 ≤ PG_SZ ∧
    offset + p = k_fat_offset_lba fs * 512 + 4 * mask_cluster c).
  { cbv zeta in H |- *. destruct H as (H1 & H2 & H3 & H4 & H5). split_and!; try done; [lia..|].
    unfold fat_page. rewrite <- H5. set (p := _ + 4 * _) in *. set (o := floor_pow2 _ _) in *.
    apply Z.mod_divide in H1 as [q ->]; [|done]. change PG_SZ with 4096 in *.
    rewrite Z.div_add_l, Z.div_small by lia. lia. } cbv zeta. destruct Hfs as (_ & _ & Hf0 & Hf1 & _).
  unfold get_fat_sector_for_cluster, mask_cluster. change 0x0FFFFFFF with (2 ^ 28 - 1).
  rewrite land_mask_mod by done. change fat_entries_per_sector with 128. change (PG_SZ / 512) with 8.
  pose proof (Z.mod_pos_bound c (2 ^ 28) ltac:(done)) as Hm. set (mc := c mod 2 ^ 28) in *.
  assert (Hmod : c mod 128 = mc mod 128).
  { unfold mc. symmetry. apply Z.mod_mod_divide. by exists (2 ^ 21). }
  rewrite Hmod. pose proof (Z.div_mod mc 128). pose proof (Z.mod_pos_bound mc 128).
  assert (0 ≤ mc / 128 < 2 ^ 21) by (split; [apply Z.div_pos|apply Z.div_lt_upper_bound]; lia).
  rewrite (wrap_small 32 (_ + _)) by lia. set (f := k_fat_offset_lba fs + mc / 128) in *.
  rewrite wrap_small by lia. change PG_SZ with (2 ^ 12).
  pose proof (Z.div_mod f 8). pose proof (Z.mod_pos_bound f 8).
  assert (Hfl : floor_pow2 (2 ^ 12) (f * 512) = (f / 8) * 2 ^ 12).
  { rewrite floor_pow2_eq by lia. replace (f * 512) with (f mod 8 * 512 + (f / 8) * 2 ^ 12) by lia.
    rewrite Z.mod_add, (Z.mod_small (f mod 8 * 512)) by lia. lia. }
  rewrite Hfl. split; [by apply Z.mod_mul|].
  assert (0 ≤ f / 8) by (apply Z.div_pos; lia). split_and!; lia.
Qed.

Lemma wpx_advance c (Q : Z → S → Prop) s :
  ps_inv s → readable c → 0 ≤ c → is_last_cluster_in_file (fat_next ps_disk fs c) = false →
  (∀ s', ps_inv s' → Q (fat_next ps_disk fs c) s') →
  wpx src_oom (advance_cluster fs c) Q s.
Proof.
  intros Hinv [_ Hrd] Hc Hlast HQ. unfold advance_cluster.
  destruct (fat_entry_addr c Hc) as (H1 & H2 & H3 & H4 & H5 & H6).
  apply wpx_with_lease; [done|by rewrite H6|done|lia|]. intros m Hm.
  rewrite (le32_shift m ps_disk _ _ PG_SZ Hm), H5 by done. fold (fat_next ps_disk fs c).
  exists (fat_next ps_disk fs c). rewrite Hlast. done.
Qed.

Lemma fat_next_nonneg c : 0 ≤ fat_next ps_disk fs c.
Proof. unfold fat_next, mask_cluster. rewrite Z.land_nonneg. by right. Qed.

Lemma wpx_seek cs c k ck (Q : Z → S → Prop) s :
  ps_inv s → Forall readable (c :: cs) → 0 ≤ c → linked ps_disk fs (c :: cs) → (c :: cs) !! k = Some ck →
  Z.of_nat k * PG_SZ < 2 ^ 64 →
  (∀ s', ps_inv s' → Q ck s') →
  wpx src_oom (seek_cluster fs k (Z.of_nat k * PG_SZ) c) Q s.
Proof.
  revert c cs s. induction k as [|k IH]; intros c cs s Hinv Hrd Hc Hl Hk Hb HQ; cbn [seek_cluster].
  { injection Hk as ->. by apply HQ. }
  destruct cs as [|c' cs]; [done|]. destruct Hl as (Hn & Hlast & Hl). apply Forall_cons in Hrd as [Hrd1 Hrd].
  assert (H4 : PG_SZ = 4096) by done. rewrite (proj2 (Z.ltb_lt _ _)) by lia.
  apply wpx_bind. apply wpx_advance; [done|done|done|by rewrite Hn|]. intros s' Hinv'. rewrite Hn.
  destruct Hfs as (Hs & _). rewrite Hs, wrap_small by lia.
  replace (Z.of_nat (Datatypes.S k) * PG_SZ - 8 * 512) with (Z.of_nat k * PG_SZ) by lia.
  eapply (IH c' cs); try done; [rewrite <- Hn; apply fat_next_nonneg|lia].
Qed.

Lemma cluster_sector c :
  cluster_ok fs c →
  let sector := u32 (k_data_region_offset_lba fs + u32 (u32 (c - 2) * k_sectors_per_cluster fs)) in
  sector * 512 = cluster_addr fs c ∧ cluster_addr fs c mod PG_SZ = 0 ∧ 0 ≤ cluster_addr fs c.
Proof.
  intros [Hc Hlim]. destruct Hfs as (Hs & _ & _ & _ & Hd & Hdm). unfold cluster_addr in *.
  assert (H4 : PG_SZ = 4096) by done. rewrite Hs. cbv zeta.
  rewrite (wrap_small 32 (c - 2)), (wrap_small 32 (_ * 8)), wrap_small by lia.
  split; [done|]. split; [|lia]. rewrite H4. apply Z.mod_divide in Hdm as [q Hq]; [|done].
  rewrite Hq. apply Z.mod_divide; [done|]. exists (q + (c - 2)). lia.
Qed.

(** ** Directories *)
Lemma wpx_scan_cluster nm c (Q : option (option (Z * Z * bool * list Z)) → S → Prop) s :
  ps_inv s → readable c → cluster_ok fs c →
  (∀ s', ps_inv s' → Q (option_map (option_map kept) (dir_search ps_disk nm (entries (cluster_addr fs c) 128))) s') →
  wpx src_oom (scan_pages fs 1 (u32 (cluster_addr fs c)) (cluster_addr fs c + 8 * 512) (accept nm)) Q s.
Proof.
  intros Hinv [Hrd _] Hok HQ. destruct (cluster_sector c Hok) as (_ & Hal & H0). destruct Hok as [_ Hlim].
  assert (H4 : PG_SZ = 4096) by done. rewrite wrap_small by lia. cbn [scan_pages].
  rewrite (proj2 (Z.ltb_lt _ _)) by lia. apply wpx_bind, wpx_with_lease; [done|done|done|lia|].
  intros m Hm. destruct Hfs as (_ & Hde & _). rewrite Hde. eexists.
  split; [apply scan_entries_spec; [exact Hm|done|simpl; lia]|]. intros s' Hinv'.
  rewrite Z.add_0_r. change (Z.to_nat 128) with 128%nat.
  destruct (dir_search ps_disk nm (entries (cluster_addr fs c) 128)) as [r|] eqn:Hr.
  - apply wpx_ret. by apply HQ.
  - cbn [fmap option_fmap option_map]. rewrite wrap_small by lia. rewrite (proj2 (Z.ltb_ge _ _)) by lia. apply wpx_ret. by apply HQ.
Qed.

Lemma iterate_dir_S {A} n c (cb : bytes → Z → option A) :
  iterate_dir fs (Datatypes.S n) c cb =
  (_ ← assertM (PG_ALIGNED (k_sectors_per_cluster fs * 512));
   let start_pg := u32 (k_data_region_offset_lba fs + u32 (u32 (c - 2) * k_sectors_per_cluster fs)) * 512 in
   r ← scan_pages fs (Z.to_nat (k_sectors_per_cluster fs * 512 / PG_SZ)) (u32 start_pg)
         (start_pg + k_sectors_per_cluster fs * 512) cb;
   match r with
   | Some a => mret a
   | None => next ← advance_cluster fs c; iterate_dir fs n next cb
   end).
Proof. done. Qed.

Lemma wpx_iterate_dir nm cs c r fuel (Q : option (Z * Z * bool * list Z) → S → Prop) s :
  (length cs < fuel)%nat → ps_inv s → Forall readable (c :: cs) → linked ps_disk fs (c :: cs) →
  Forall (cluster_ok fs) (c :: cs) → dir_search ps_disk nm (dir_entries fs (c :: cs)) = Some r →
  (∀ s', ps_inv s' → Q (option_map kept r) s') →
  wpx src_oom (iterate_dir fs fuel c (accept nm)) Q s.
Proof.
  revert c s fuel. induction cs as [|c' cs IH]; intros c s [|fuel] Hfuel Hinv Hrd Hl Hok Hr HQ;
    cbn [length] in Hfuel; try lia; rewrite iterate_dir_S; apply Forall_cons in Hok as [Hc Hok]; apply Forall_cons in Hrd as [Hrd1 Hrd].
  all: pose proof Hfs as (Hs & _); destruct (cluster_sector c Hc) as (Hsec & _ & _); rewrite Hs in *.
  all: apply wpx_bind, wpx_wp, wp_assert; [done|]; cbv zeta in Hsec |- *; rewrite Hsec.
  all: change (Z.to_nat (8 * 512 / PG_SZ)) with 1%nat; apply wpx_bind, wpx_scan_cluster; [done..|].
  all: intros s' Hinv'; unfold dir_entries in Hr; rewrite bind_cons, dir_search_app in Hr.
  - destruct (dir_search _ _ _) as [r'|]; [|done]. injection Hr as ->. apply wpx_ret. by apply HQ.
  - destruct (dir_search ps_disk nm (entries (cluster_addr fs c) 128)) as [r'|].
    { injection Hr as ->. apply wpx_ret. by apply HQ. }
    destruct Hl as (Hn & Hlast & Hl). destruct Hc as [[Hc _] _].
    apply wpx_bind, wpx_advance; [done|done|lia|by rewrite Hn|]. intros s'' Hinv''. rewrite Hn.
    apply IH; [lia|done..].
Qed.
End proof.

Section theorems.
Context {S : Type} `{PS : PageSource S} (fs : Filesystem).
Implicit Types st : fat_st S.

(** The inode table: one live inode per start cluster. *)
Definition fat_inv st : Prop :=
  ps_inv (src st) ∧
  (∀ c a, start_cluster_to_inode st !! c = Some a ↔ ∃ i, inodes st !! a = Some i ∧ fi_start_cluster i = c) ∧
  (∀ a, is_Some (inodes st !! a) → a < ibrk st).

Lemma wp_new_inode st sz d c nm :
  fat_inv st → start_cluster_to_inode st !! c = None →
  wp (new_inode sz d c nm) (λ a st', a = ibrk st ∧ fat_inv st' ∧ inodes st !! a = None ∧
    inodes st' = <[a := FInode (next_inode st) sz d c (strncpy_chars 13 nm (replicate 13 None))]> (inodes st)) st.
Proof.
  intros (Hs & Ht & Hb) Hc. unfold new_inode. apply wp_bind, wp_get, wp_bind, wp_assert; [by apply bool_decide_true|].
  assert (Hnone : inodes st !! ibrk st = None).
  { apply eq_None_not_Some. intros H%Hb. lia. }
  apply wp_bind, wp_put, wp_ret. split; [done|]. split; [|done]. split; [done|]. simpl. split.
  - intros c' a. rewrite !lookup_insert_Some. destruct (decide (c = c')) as [<-|Hne].
    + split.
      * intros [[_ <-]|[? _]]; [|done]. eexists. by rewrite lookup_insert_eq.
      * intros (i & [[<- <-]|[Hai Hi]]%lookup_insert_Some & Hic); [by left|].
        exfalso. rewrite (proj2 (Ht c a)) in Hc; [done|]. by exists i.
    + rewrite Ht. split.
      * intros [[? _]|[_ (i & Hi & Hic)]]; [done|]. exists i. split; [|done].
        rewrite lookup_insert_ne; [done|]. intros <-. congruence.
      * intros (i & [[<- <-]|[Hai Hi]]%lookup_insert_Some & Hic); [done|]. right. split; [done|]. by exists i.
  - intros a. rewrite lookup_insert_is_Some'. intros [<-|Ha%Hb]; lia.
Qed.

(** [~Inode] removes the inode from the table. *)
Lemma wp_delete_inode st a i :
  fat_inv st → inodes st !! a = Some i →
  wp (delete_inode a) (λ _ st', fat_inv st' ∧ inodes st' = delete a (inodes st)) st.
Proof.
  intros (Hs & Ht & Hb) Ha. unfold delete_inode, get_inode. apply wp_bind, wp_bind, wp_get.
  eapply wp_deref; [done|]. apply wp_bind, wp_get, wp_bind, wp_assert.
  { apply bool_decide_true, Ht. by exists i. }
  apply wp_put. split; [|done]. split; [done|]. simpl. split.
  - intros c b. rewrite lookup_delete_Some, Ht. split.
    + intros [Hne (j & Hj & Hjc)]. exists j. rewrite lookup_delete_ne; [done|]. intros <-. congruence.
    + intros (j & [Hne Hj]%lookup_delete_Some & Hjc). split; [|by exists j].
      intros Heq. apply Hne. assert (start_cluster_to_inode st !! c = Some a) as H1 by (apply Ht; by exists i).
      assert (start_cluster_to_inode st !! c = Some b) as H2 by (apply Ht; by exists j). congruence.
  - intros b. rewrite lookup_delete_is_Some. intros [_ ?]. by apply Hb.
Qed.

(** The first twelve characters of the name, zero-padded; the last one of
    the array is not written. *)
Fixpoint upto_nul (l : list Z) : list Z :=
  match l with [] => [] | c :: l => if c =? 0 then [] else c :: upto_nul l end.
Definition name_of (e : dirent) : list (option Z) :=
  (Some <$> pad 0 12 (take 12 (upto_nul (convert_8_3_to_normal_filename (de_name e))))) ++ [None].

Lemma strncpy_zeros_eq n : strncpy_zeros (Datatypes.S n) (replicate (Datatypes.S n) None) = replicate n (Some 0) ++ [None].
Proof. induction n as [|n IH]; [done|]. change (strncpy_zeros _ _) with (Some 0 :: strncpy_zeros (Datatypes.S n) (replicate (Datatypes.S n) None)). by rewrite IH. Qed.
Lemma strncpy_chars_eq n src :
  strncpy_chars (Datatypes.S n) src (replicate (Datatypes.S n) None) = (Some <$> pad 0 n (take n (upto_nul src))) ++ [None].
Proof.
  assert (Hz : ∀ n, strncpy_zeros (Datatypes.S n) (replicate (Datatypes.S n) None) = (Some <$> pad 0 n []) ++ [None]).
  { intros k. rewrite strncpy_zeros_eq. unfold pad. cbn [length app]. by rewrite Nat.sub_0_r, fmap_replicate. }
  revert src. induction n as [|n IH]; intros [|c src].
  - reflexivity.
  - cbn [strncpy_chars replicate upto_nul]. by destruct (c =? 0).
  - cbn [upto_nul]. rewrite take_nil, <- Hz. reflexivity.
  - cbn [upto_nul]. change (strncpy_chars (Datatypes.S (Datatypes.S n)) (c :: src) (replicate (Datatypes.S (Datatypes.S n)) None))
      with (if c =? 0 then strncpy_zeros (Datatypes.S (Datatypes.S n)) (replicate (Datatypes.S (Datatypes.S n)) None)
            else Some c :: strncpy_chars (Datatypes.S n) src (replicate (Datatypes.S n) None)).
    destruct (c =? 0); [by rewrite Hz|]. by rewrite IH.
Qed.

(** What [lookup] gives for the result [r] of the directory search. *)
Definition lookup_result st (res : Result) (r : option dirent)
    (o : option Z) (res' : Result) st' : Prop :=
  match r with
  | None => o = None ∧ res' = FileNotFound ∧ inodes st' = inodes st
  | Some e => ∃ a j, o = Some a ∧ res' = res ∧ inodes st' !! a = Some j ∧
      fi_start_cluster j = driver_cluster e ∧
      (∀ b, inodes st' !! b = inodes st !! b ∨ b = a ∧ inodes st !! a = None) ∧
      (inodes st !! a = None → fi_size j = de_size e ∧ fi_is_directory j = de_subdir e ∧ fi_name j = name_of e)
  end.

Lemma wpx_lookup st this i cs name res r fuel :
  (length cs < fuel)%nat → fat_ok fs → fat_inv st → inodes st !! this = Some i → fi_is_directory i = true →
  Forall (readable fs) (fi_start_cluster i :: cs) → linked ps_disk fs (fi_start_cluster i :: cs) → Forall (cluster_ok fs) (fi_start_cluster i :: cs) →
  dir_search ps_disk (convert_normal_to_8_3_filename name) (dir_entries fs (fi_start_cluster i :: cs)) = Some r →
  wpx (src_oom (S := S)) (lookup fs fuel this name res)
    (λ x st', fat_inv st' ∧ lookup_result st res r x.1 x.2 st') st.
Proof.
  intros Hfuel Hfs Hinv Hi Hdir Hrd Hl Hok Hr. pose proof Hinv as (Hs & Ht & Hb).
  unfold lookup, get_inode. apply wpx_bind, wpx_wp, wp_bind, wp_get. eapply wp_deref; [exact Hi|].
  apply wpx_bind, wpx_wp, wp_assert; [exact Hdir|]. apply wpx_bind, wpx_on_part.
  eapply (wpx_iterate_dir fs Hfs _ cs (fi_start_cluster i)); [exact Hfuel|exact Hs|exact Hrd|exact Hl|exact Hok|exact Hr|].
  intros s' Hs'. set (st1 := FatSt s' (next_inode st) (start_cluster_to_inode st) (inodes st) (ibrk st)).
  assert (Hinv1 : fat_inv st1) by (split; [exact Hs'|split; [exact Ht|exact Hb]]).
  destruct r as [e|]; [|apply wpx_ret; split; [exact Hinv1|split_and!; reflexivity]].
  cbn [fmap option_fmap option_map]. unfold kept. apply wpx_bind, wpx_get. cbn [start_cluster_to_inode st1].
  set (c := driver_cluster e). destruct (start_cluster_to_inode st !! c) as [a|] eqn:Hc.
  - apply wpx_ret. split; [exact Hinv1|]. destruct (proj1 (Ht c a) Hc) as (j & Hj & Hjc).
    exists a, j. split; [reflexivity|]. split; [reflexivity|]. split; [exact Hj|]. split; [exact Hjc|].
    split; [by left|]. intros Hn. simpl in Hn. congruence.
  - apply wpx_bind, wpx_wp. eapply wp_mono; [apply wp_new_inode; [exact Hinv1|exact Hc]|].
    intros a st2 (-> & Hinv2 & Hnone & Hin2). apply wpx_ret. split; [exact Hinv2|].
    eexists _, _. rewrite Hin2, lookup_insert_eq. split; [reflexivity|]. split; [reflexivity|].
    split; [reflexivity|]. split; [reflexivity|]. split; [intros b; destruct (decide (b = ibrk st1)) as [->|Hne]; [by right|left; by rewrite lookup_insert_ne]|].
    intros _. split; [reflexivity|]. split; [reflexivity|]. apply (strncpy_chars_eq 12).
Qed.

(** C17: looking up a name in a directory walks the directory's cluster
    chain (any fuel above its length is enough) and gives the inode of the
    first live entry with the 8.3 form of the name, or the inode already made
    for its start cluster, and [FileNotFound] when no entry before the end
    marker has the name.  A new inode has the size and the kind that the
    entry records, the first twelve characters of its name (the thirteenth is
    left as it was in memory), and as start cluster the low half of the
    entry's with the high half shifted by 2: the entry's own when its high
    half is 0, and otherwise another one.  The inode table keeps one inode
    per start cluster.  The lookup stops only when the page cache cannot
    lease a page of the directory or of the FAT. *)
Theorem lookup_finds st this i cs name res r fuel :
  (length cs < fuel)%nat → fat_ok fs → fat_inv st → inodes st !! this = Some i → fi_is_directory i = true →
  Forall (readable fs) (fi_start_cluster i :: cs) → linked ps_disk fs (fi_start_cluster i :: cs) → Forall (cluster_ok fs) (fi_start_cluster i :: cs) →
  dir_search ps_disk (convert_normal_to_8_3_filename name) (dir_entries fs (fi_start_cluster i :: cs)) = Some r →
  match lookup fs fuel this name res st with
  | Ret ((o, res'), st') => fat_inv st' ∧ lookup_result st res r o res' st'
  | Halt f => f = AssertFail ∧ ps_oom
  end.
Proof.
  intros Hfuel Hfs Hinv Hi Hdir Hrd Hl Hok Hr. pose proof (wpx_lookup st this i cs name res r fuel Hfuel Hfs Hinv Hi Hdir Hrd Hl Hok Hr) as Hw.
  unfold wpx in Hw. destruct (lookup fs fuel this name res st) as [[[o res'] st']|f]; exact Hw.
Qed.

Lemma wpx_get_dev_offset st a i cs off :
  fat_ok fs → fat_inv st → inodes st !! a = Some i → 0 ≤ off < 2 ^ 32 →
  Forall (readable fs) (fi_start_cluster i :: cs) → linked ps_disk fs (fi_start_cluster i :: cs) → Forall (cluster_ok fs) (fi_start_cluster i :: cs) →
  fi_size i ≤ Z.of_nat (Datatypes.S (length cs)) * PG_SZ →
  wpx (src_oom (S := S)) (get_dev_offset fs a off) (λ r st', fat_inv st' ∧ inodes st' = inodes st ∧
    if decide (off mod PG_SZ = 0 ∧ fi_is_directory i = false ∧ off < fi_size i)
    then ∃ c, (fi_start_cluster i :: cs) !! Z.to_nat (off / PG_SZ) = Some c ∧ r = cluster_addr fs c
    else r = bad_offset) st.
Proof.
  intros Hfs Hinv Hi Hoff Hrd Hl Hok Hlen. pose proof Hinv as (Hs & Ht & Hb).
  unfold get_dev_offset, get_inode. apply wpx_bind, wpx_wp, wp_bind, wp_get. eapply wp_deref; [exact Hi|].
  rewrite PG_ALIGNED_mod. destruct (Z.eqb_spec (off mod PG_SZ) 0) as [Hal|Hal]; cbn [negb].
  2:{ apply wpx_ret. rewrite decide_False by tauto. done. }
  pose proof Hfs as (Hsp & _). rewrite Hsp. apply wpx_bind, wpx_wp, wp_assert; [done|].
  destruct (fi_is_directory i); [apply wpx_ret; rewrite decide_False by naive_solver; done|].
  destruct (Z.leb_spec (fi_size i) off); [apply wpx_ret; rewrite decide_False by lia; done|].
  assert (H4 : PG_SZ = 4096) by done.
  pose proof (Z.div_mod off PG_SZ) as Hdm. assert (H0 : 0 ≤ off / PG_SZ) by (apply Z.div_pos; lia).
  assert (Hk : off = Z.of_nat (Z.to_nat (off / PG_SZ)) * PG_SZ) by lia.
  destruct (lookup_lt_is_Some_2 (fi_start_cluster i :: cs) (Z.to_nat (off / PG_SZ))) as [c Hc]; [simpl length; lia|].
  pose proof (proj1 (Forall_lookup _ _) Hok _ _ Hc) as Hcok. apply Forall_cons in Hok as [[[Hst _] _] _].
  apply wpx_bind, wpx_on_part. rewrite Hk at 2.
  eapply (wpx_seek fs Hfs cs (fi_start_cluster i)); [exact Hs|exact Hrd|lia|exact Hl|exact Hc|lia|].
  intros s' Hs'. apply wpx_ret. split; [done|]. split; [done|]. rewrite decide_True by done. exists c. split; [done|].
  destruct (cluster_sector fs Hfs c Hcok) as (Hsec & _ & Hge). rewrite Hsp in Hsec. rewrite Hsec.
  destruct Hcok. rewrite wrap_small by lia. done.
Qed.

(** C18: [get_dev_offset] gives the device address of the page of the
    file that holds a page-aligned offset below its size, following the
    file's cluster chain, and the error value for an unaligned offset, an
    offset past the end and a directory. *)
Theorem get_dev_offset_maps st a i cs off :
  fat_ok fs → fat_inv st → inodes st !! a = Some i → 0 ≤ off < 2 ^ 32 →
  Forall (readable fs) (fi_start_cluster i :: cs) → linked ps_disk fs (fi_start_cluster i :: cs) → Forall (cluster_ok fs) (fi_start_cluster i :: cs) →
  fi_size i ≤ Z.of_nat (Datatypes.S (length cs)) * PG_SZ →
  match get_dev_offset fs a off st with
  | Ret (r, st') => fat_inv st' ∧ inodes st' = inodes st ∧
      if decide (off mod PG_SZ = 0 ∧ fi_is_directory i = false ∧ off < fi_size i)
      then ∃ c, (fi_start_cluster i :: cs) !! Z.to_nat (off / PG_SZ) = Some c ∧ r = cluster_addr fs c
      else r = bad_offset
  | Halt f => f = AssertFail ∧ ps_oom
  end.
Proof.
  intros Hfs Hinv Hi Hoff Hrd Hl Hok Hlen. pose proof (wpx_get_dev_offset st a i cs off Hfs Hinv Hi Hoff Hrd Hl Hok Hlen) as Hw.
  unfold wpx in Hw. destruct (get_dev_offset fs a off st) as [[r st']|f]; exact Hw.
Qed.
End theorems.

(** ** A small file system, read without a cache *)
Definition direct_source (d : bytes) : PageSource unit.
Proof.
  refine {| ps_lease_t := unit; ps_disk := d; ps_lease _ off := mret (tt, λ i, d (off + i));
            ps_release _ := mret tt; ps_inv _ := True; ps_reads _ _ := True; ps_oom := False |}.
  intros dev off s _ _ _ _. split; [|done]. intros i _. done.
Defined.

(** Root directory in cluster 2: a deleted entry, then HELLO.TXT (5000
    bytes, clusters 3 and 4), then the end marker. *)
Definition demo_fs : Filesystem := KFat 0 512 8 128 32 40 2.
Definition demo_hello : list Z :=
  [72; 69; 76; 76; 79; 32; 32; 32; 84; 88; 84; 0x20] ++ replicate 14 0 ++ [3; 0; 136; 19; 0; 0].
Definition demo_fat (a : Z) : Z :=
  if a =? 20480 then 0xE5
  else if (20512 <=? a) && (a <? 20544) then default 0 (demo_hello !! Z.to_nat (a - 20512))
  else if a =? 16396 then 4
  else if (16400 <=? a) && (a <? 16403) then 0xFF
  else if a =? 16403 then 0x0F
  else 0.
Definition demo_fat_st : fat_st unit :=
  FatSt tt 2 {[2 := 1; 3 := 2]} {[1 := FInode 0 0 true 2 []; 2 := FInode 1 5000 false 3 []]} 3.

Lemma demo_fat_ok : fat_ok demo_fs.
Proof. split_and!; done. Qed.

Lemma demo_fat_inv : fat_inv (PS := direct_source demo_fat) demo_fat_st.
Proof.
  split; [done|]. split.
  - intros c a. simpl. rewrite lookup_insert_Some, lookup_singleton_Some. setoid_rewrite lookup_insert_Some.
    setoid_rewrite lookup_singleton_Some. split.
    + intros [[<- <-]|(_ & <- & <-)]; eexists; [split; [by left|done]|split; [by right|done]].
    + intros (i & [[<- <-]|(_ & <- & <-)] & <-); [by left|right; by split].
  - intros a. simpl. rewrite lookup_insert_is_Some', lookup_singleton_is_Some. intros [<-|<-]; lia.
Qed.

Lemma demo_cluster_ok c : c = 2 ∨ c = 3 ∨ c = 4 → cluster_ok demo_fs c.
Proof. intros [->|[->| ->]]; split; vm_compute; split || idtac; done. Qed.

Lemma lookup_finds_witness :
  ∃ a j st', lookup (PS := direct_source demo_fat) demo_fs 1 1 [72; 69; 76; 76; 79; 46; 84; 88; 84] Ok demo_fat_st
         = Ret ((Some a, Ok), st') ∧ inodes st' !! a = Some j ∧ fi_start_cluster j = 3.
Proof.
  pose proof (lookup_finds (PS := direct_source demo_fat) demo_fs demo_fat_st 1 (FInode 0 0 true 2 []) []
    [72; 69; 76; 76; 79; 46; 84; 88; 84] Ok (Some (Dirent (take 11 demo_hello) 0x20 0 3 5000)) 1 ltac:(simpl; lia) demo_fat_ok demo_fat_inv) as H.
  assert (Hret : is_ret (lookup (PS := direct_source demo_fat) demo_fs 1 1 [72; 69; 76; 76; 79; 46; 84; 88; 84] Ok demo_fat_st)
    = true) by (vm_compute; reflexivity).
  destruct (lookup (PS := direct_source demo_fat) demo_fs 1 1 _ Ok demo_fat_st) as [[[o res'] st']|f];
    [clear Hret|discriminate Hret].
  destruct H as (_ & a & j & -> & -> & Hj & Hc & Hsub & _).
  - reflexivity.
  - reflexivity.
  - constructor; [by split|constructor].
  - exact I.
  - constructor; [|constructor]. apply demo_cluster_ok. by left.
  - vm_compute. reflexivity.
  - exists a, j, st'. split; [reflexivity|]. split; [exact Hj|exact Hc].
Defined.

Lemma get_dev_offset_maps_witness :
  ∃ st', get_dev_offset (PS := direct_source demo_fat) demo_fs 2 4096 demo_fat_st = Ret (28672, st').
Proof.
  pose proof (get_dev_offset_maps (PS := direct_source demo_fat) demo_fs demo_fat_st 2 (FInode 1 5000 false 3 []) [4] 4096
    demo_fat_ok demo_fat_inv) as H.
  assert (Hret : is_ret (get_dev_offset (PS := direct_source demo_fat) demo_fs 2 4096 demo_fat_st) = true)
    by (vm_compute; reflexivity).
  destruct (get_dev_offset (PS := direct_source demo_fat) demo_fs 2 4096 demo_fat_st) as [[r st']|f];
    [clear Hret|discriminate Hret].
  destruct H as (_ & _ & Hr).
  - reflexivity.
  - lia.
  - constructor; [by split|constructor; [by split|constructor]].
  - vm_compute. done.
  - constructor; [|constructor; [|constructor]]; apply demo_cluster_ok; [right; by left|right; by right].
  - vm_compute. done.
  - rewrite decide_True in Hr by (vm_compute; done). destruct Hr as (c & Hc & ->). simpl in Hc.
    injection Hc as <-. exists st'. reflexivity.
Defined.

(** A directory that fills its last cluster has no end marker: a failed
    lookup in it runs off the cluster chain and fails the assertion of
    [advance_cluster]. *)
Definition full_dir (a : Z) : Z := if (16392 <=? a) && (a <? 16396) then 0xFF else 65.
Example full_directory_lookup_fails :
  lookup (PS := direct_source full_dir) demo_fs 2 1 [66] Ok
    (FatSt tt 1 {[2 := 1]} {[1 := FInode 0 0 true 2 []]} 2) = Halt AssertFail.
Proof. vm_compute. reflexivity. Qed.

(** The name of a file with eight characters and an extension of three is
    not terminated: the thirteenth character of the array is not written. *)
Example full_name_not_terminated e :
  de_name e = [65; 65; 65; 65; 65; 65; 65; 65; 66; 66; 66] →
  name_of e = (Some <$> [65; 65; 65; 65; 65; 65; 65; 65; 46; 66; 66; 66]) ++ [None].
Proof. intros He. unfold name_of. rewrite He. vm_compute. reflexivity. Qed.

(** Empty files have start cluster 0, so the second one looked up gets the
    inode of the first. *)
Definition empty_files (a : Z) : Z :=
  if (20480 <=? a) && (a <? 20491) then 65 else if (20512 <=? a) && (a <? 20523) then 66 else 0.
Example empty_files_share_inode :
  match (x ← lookup (PS := direct_source empty_files) demo_fs 1 1 [65; 65; 65; 65; 65; 65; 65; 65; 46; 65; 65; 65] Ok;
         y ← lookup (PS := direct_source empty_files) demo_fs 1 1 [66; 66; 66; 66; 66; 66; 66; 66; 46; 66; 66; 66] Ok;
         mret (x.1, y.1)) (FatSt tt 1 {[2 := 1]} {[1 := FInode 0 0 true 2 []]} 2) with
  | Ret (r, _) => r = (Some 2, Some 2)
  | Halt _ => False
  end.
Proof. vm_compute. reflexivity. Qed.

(** With clusters of two pages the offset of the second page of a file
    wraps around to a huge remaining distance. *)
Example two_page_clusters_wrap :
  get_dev_offset (PS := direct_source demo_fat) (KFat 0 512 16 256 32 40 2) 2 4096 demo_fat_st
  = Halt OutOfFuel.
Proof. vm_compute. reflexivity. Qed.
