(* ===== verification/Vfs.v ===== *)
(** * Virtual file system

    Models [fs/vfs.{h,cc}]: the reference-counted dentries and inodes, the
    dentry cache, [pathname_lookup], [File], and [Inode::read].  A file
    system is behind the interface [FsDriver] (the virtual functions of
    [fs::Inode]); [Fat32.v]'s driver implements it in [FatVfs.v].

    Dentries and inodes are objects in a store, identified by their
    address; addresses are handed out in increasing order.  The dentry
    cache is a finite map (what [NodeHashMap.v] shows [node_hash_map] to
    implement) and a dentry's children are a list ([IntrusiveList.v]).
    Reference counts are integers: 2^32 references to one object do not
    fit in memory. *)
From stdpp Require Import fin_sets.
From S2P Require Import Prelude Algorithm Libc PageCache Fat32.

(** ** The virtual functions of [fs::Inode], and what they promise

    [fd_id] is the on-disk object behind an inode; [child], [isdir],
    [fsize] and [fbyte] describe the tree on disk. *)
Class FsDriver (F : Type) := {
  fd_lookup : Z → list Z → Result → M F (option Z * Result);
  fd_delete : Z → M F unit;
  fd_is_directory : F → Z → bool;
  fd_size : F → Z → Z;
  fd_page : Z → Z → M F bytes;
  fd_creat : Z → list Z → M F Result;

  fd_inv : F → Prop;
  fd_id : F → Z → option Z;
  child : Z → list Z → option Z;
  isdir : Z → bool;
  fsize : Z → Z;
  fbyte : Z → Z → Z;
  fd_oom : Prop;

  fd_is_directory_spec : ∀ s a k, fd_inv s → fd_id s a = Some k → fd_is_directory s a = isdir k;
  fd_size_spec : ∀ s a k, fd_inv s → fd_id s a = Some k → fd_size s a = fsize k ∧ 0 ≤ fsize k < 2 ^ 31;
  fd_lookup_spec : ∀ s a k name res, fd_inv s → fd_id s a = Some k → isdir k = true →
    wpx (λ f, f = AssertFail ∧ fd_oom) (fd_lookup a name res) (λ x s', fd_inv s' ∧
      (∀ b, is_Some (fd_id s b) → fd_id s' b = fd_id s b) ∧
      match child k name with
      | None => x = (None, FileNotFound)
      | Some k' => ∃ b, x = (Some b, res) ∧ fd_id s' b = Some k'
      end) s;
  fd_lookup_file : ∀ s a k name res, fd_inv s → fd_id s a = Some k → isdir k = false →
    fd_lookup a name res s = Halt AssertFail;
  fd_delete_spec : ∀ s a k, fd_inv s → fd_id s a = Some k →
    wp (fd_delete a) (λ _ s', fd_inv s' ∧ fd_id s' a = None ∧ ∀ b, b ≠ a → fd_id s' b = fd_id s b) s;
  fd_page_spec : ∀ s a k off, fd_inv s → fd_id s a = Some k → isdir k = false →
    off mod PG_SZ = 0 → 0 ≤ off < fsize k →
    wpx (λ f, f = AssertFail ∧ fd_oom) (fd_page a off) (λ pg s', fd_inv s' ∧
      (∀ b, fd_id s' b = fd_id s b) ∧ ∀ i, 0 ≤ i < PG_SZ → pg i = fbyte k (off + i)) s }.

Record Dentry := Dent {
  d_inode : Z;
  d_parent : option Z;
  d_children : list Z;
  d_component : list Z;
  d_in_hashtable : bool;
  d_rc : Z }.

Record vfs (F : Type) := Vfs {
  drv : F;
  irc : gmap Z Z;                       (** [Inode::rc], by inode *)
  dents : gmap Z Dentry;
  dcache : gmap (Z * list Z) Z;
  root : Z;
  dbrk : Z }.
Arguments Vfs {F} drv irc dents dcache root dbrk.
Arguments drv {F} _.
Arguments irc {F} _.
Arguments dents {F} _.
Arguments dcache {F} _.
Arguments root {F} _.
Arguments dbrk {F} _.

Section ops.
Context {F : Type} `{FD : FsDriver F}.

Definition on_drv {A} : M F A → M (vfs F) A :=
  on_part drv (λ d st, Vfs d (irc st) (dents st) (dcache st) (root st) (dbrk st)).
Definition with_irc (m : gmap Z Z) (st : vfs F) : vfs F :=
  Vfs (drv st) m (dents st) (dcache st) (root st) (dbrk st).
Definition with_dents (m : gmap Z Dentry) (st : vfs F) : vfs F :=
  Vfs (drv st) (irc st) m (dcache st) (root st) (dbrk st).
Definition with_dcache (m : gmap (Z * list Z) Z) (st : vfs F) : vfs F :=
  Vfs (drv st) (irc st) (dents st) m (root st) (dbrk st).

Definition get_dent (a : Z) : M (vfs F) Dentry :=
  st ← getS; liftO (deref (dents st !! a)).
Definition set_dent (a : Z) (d : Dentry) : M (vfs F) unit :=
  st ← getS; putS (with_dents (<[a := d]> (dents st)) st).

Definition set_rc (r : Z) (d : Dentry) : Dentry :=
  Dent (d_inode d) (d_parent d) (d_children d) (d_component d) (d_in_hashtable d) r.
Definition set_children (l : list Z) (d : Dentry) : Dentry :=
  Dent (d_inode d) (d_parent d) l (d_component d) (d_in_hashtable d) (d_rc d).

(** [Inode::inc_rc] / [dec_rc]; an inode without an entry has count 0. *)
Definition inode_rc (a : Z) (st : vfs F) : Z := default 0 (irc st !! a).
Definition inode_inc_rc (a : Z) : M (vfs F) unit :=
  st ← getS; putS (with_irc (<[a := inode_rc a st + 1]> (irc st)) st).
Definition inode_dec_rc (a : Z) : M (vfs F) bool :=
  st ← getS;
  _ ← assertM (negb (inode_rc a st =? 0));
  if inode_rc a st - 1 =? 0 then
    _ ← putS (with_irc (delete a (irc st)) st);
    _ ← on_drv (fd_delete a);
    mret true
  else _ ← putS (with_irc (<[a := inode_rc a st - 1]> (irc st)) st); mret false.

Definition dentry_inc_rc (a : Z) : M (vfs F) unit :=
  d ← get_dent a; set_dent a (set_rc (d_rc d + 1) d).

(** [Dentry::Dentry] of a new object *)
Definition new_dentry (parent : option Z) (inode : Z) (component : list Z) : M (vfs F) Z :=
  st ← getS;
  let this := dbrk st in
  _ ← putS (Vfs (drv st) (irc st) (<[this := Dent inode parent [] component false 0]> (dents st))
              (dcache st) (root st) (this + 1));
  _ ← match parent with
      | None => mret tt
      | Some p =>
        _ ← dentry_inc_rc p;
        d ← get_dent p;
        _ ← set_dent p (set_children (d_children d ++ [this]) d);
        st ← getS;
        _ ← assertM (bool_decide (dcache st !! (p, component) = None));
        _ ← putS (with_dcache (<[(p, component) := this]> (dcache st)) st);
        d ← get_dent this;
        set_dent this (Dent (d_inode d) (d_parent d) (d_children d) (d_component d) true (d_rc d))
      end;
  _ ← inode_inc_rc inode;
  mret this.

(** [Dentry::dec_rc], whose [delete this] runs [~Dentry]; the destructor
    releases the parent, so [fuel] bounds the depth of the tree. *)
Fixpoint dentry_dec_rc (fuel : nat) (a : Z) : M (vfs F) bool :=
  match fuel with
  | O => halt OutOfFuel
  | S fuel =>
    d ← get_dent a;
    _ ← assertM (negb (d_rc d =? 0));
    _ ← set_dent a (set_rc (d_rc d - 1) d);
    if negb (d_rc d - 1 =? 0) then mret false
    else
      _ ← assertM (bool_decide (d_children d = []));
      _ ← inode_dec_rc (d_inode d);
      _ ← match d_parent d with
          | None => mret tt
          | Some p =>
            dp ← get_dent p;
            _ ← set_dent p (set_children (filter (λ c, c ≠ a) (d_children dp)) dp);
            _ ← dentry_dec_rc fuel p;
            if d_in_hashtable d then
              st ← getS;
              _ ← assertM (bool_decide (dcache st !! (p, d_component d) = Some a));
              putS (with_dcache (delete (p, d_component d) (dcache st)) st)
            else mret tt
          end;
      st ← getS;
      _ ← putS (with_dents (delete a (dents st)) st);
      mret true
  end.

(** ** Paths *)
Definition chr_slash : Z := 47.
Definition left_partition (path : list Z) : list Z * list Z :=
  match find_chr chr_slash path with
  | Some n => (take n path, drop (n + 1) path)
  | None => (path, [])
  end.

(** Every iteration consumes a byte of the path. *)
Fixpoint lookup_loop (fuel : nat) (it : Z) (path : list Z) (res : Result) : M (vfs F) (option Z * Result) :=
  match path with
  | [] => mret (Some it, res)
  | _ =>
    match fuel with
    | O => halt OutOfFuel
    | S fuel =>
      let '(component, path) := left_partition path in
      if bool_decide (component = []) || view_eq component [chr_dot] then lookup_loop fuel it path res
      else if view_eq component [chr_dot; chr_dot] then
        d ← get_dent it;
        lookup_loop fuel (default it (d_parent d)) path res
      else
        st ← getS;
        match dcache st !! (it, component) with
        | Some d => lookup_loop fuel d path res
        | None =>
          d ← get_dent it;
          '(inode, res) ← on_drv (fd_lookup (d_inode d) component res);
          _ ← assertM (xorb (bool_decide (inode = None)) (bool_decide (res = Ok)));
          match inode with
          | None => mret (None, res)
          | Some i => n ← new_dentry (Some it) i component; lookup_loop fuel n path res
          end
        end
    end
  end.
Definition pathname_lookup (path : list Z) (res : Result) : M (vfs F) (option Z * Result) :=
  st ← getS; lookup_loop (length path) (root st) path res.

(** [fs::init] with the root dentry of [get_root_dentry], which pins it:
    the dentry for the root inode [i] of the driver [f]. *)
Definition root_name : list Z := [60; 114; 111; 111; 116; 62].   (** "<root>" *)
Definition vfs_init (f : F) (i : Z) : outcome (vfs F) :=
  '(r, st) ← new_dentry None i root_name (Vfs f ∅ ∅ ∅ 0 1);
  '(_, st) ← dentry_inc_rc r st;
  Ret (Vfs (drv st) (irc st) (dents st) (dcache st) r (dbrk st)).

(** ** Files *)
Record File := MkFile { f_dentry : option Z; f_offset : Z; f_fd : Z }.
Definition new_file (dentry : Z) : M (vfs F) File := _ ← dentry_inc_rc dentry; mret (MkFile (Some dentry) 0 0).
Definition file_dtor (f : File) : M (vfs F) unit :=
  match f_dentry f with
  | Some d => st ← getS; _ ← dentry_dec_rc (size (dents st)) d; mret tt
  | None => mret tt
  end.

(** ** [Inode::read]: the bytes copied, in order *)
Definition page_bytes (pg : bytes) (from n : Z) : list Z :=
  (λ i, pg (from + Z.of_nat i)) <$> seq 0 (Z.to_nat n).

Fixpoint read_aligned (fuel : nat) (inode pg_it count : Z) : M (vfs F) (list Z) :=
  if 0 <? count then
    match fuel with
    | O => halt OutOfFuel
    | S fuel =>
      let bytes_to_copy := Z.min PG_SZ count in
      pg ← on_drv (fd_page inode pg_it);
      rest ← read_aligned fuel inode (pg_it + PG_SZ) (count - bytes_to_copy);
      mret (page_bytes pg 0 bytes_to_copy ++ rest)
    end
  else mret [].

(** [None] is the return of -1. *)
Definition inode_read (inode offset count : Z) (res : Result) : M (vfs F) (option (list Z) * Result) :=
  st ← getS;
  if fd_is_directory (drv st) inode then mret (None, IsDirectory)
  else
    let size := fd_size (drv st) inode in
    if (size <=? offset) || (count =? 0) then mret (Some [], res)
    else
      let count := Z.min count (size - offset) in
      let pg_it := floor_pow2 PG_SZ offset in
      if negb (pg_it =? offset) then
        pg ← on_drv (fd_page inode pg_it);
        let bytes_to_copy := Z.min (PG_SZ - offset mod PG_SZ) count in
        rest ← read_aligned (Z.to_nat count) inode (pg_it + PG_SZ) (count - bytes_to_copy);
        mret (Some (page_bytes pg (offset mod PG_SZ) bytes_to_copy ++ rest), res)
      else
        bs ← read_aligned (Z.to_nat count) inode pg_it count;
        mret (Some bs, res).
End ops.

(** ** The tree the dentries form

    [shape_ok] says that the dentries are a tree rooted at the root dentry,
    that the dentry cache holds exactly the parent links, that the links
    agree with the tree on disk, and that an inode's count is the number of
    its dentries.  [counts_ok] says that a dentry's count is the number of
    its children plus [ext], the references held from outside, plus one
    for the root, which is pinned. *)
Definition shape (d : Dentry) : Dentry :=
  Dent (d_inode d) (d_parent d) [] (d_component d) (d_in_hashtable d) 0.
Definition inode_refs (L : gmap Z Dentry) (i : Z) : Z :=
  Z.of_nat (size (filter (λ e : Z * Dentry, d_inode e.2 = i) L)).
Definition pin (r a : Z) : Z := if a =? r then 1 else 0.
Definition bump (a δ : Z) (ext : Z → Z) : Z → Z := λ b, if b =? a then ext b + δ else ext b.

Section tree.
Context {F : Type} `{FD : FsDriver F}.
Implicit Types (L T : gmap Z Dentry) (C : gmap (Z * list Z) Z) (ext : Z → Z) (f : F).

Record shape_ok (kr r brk : Z) f (rcs : gmap Z Z) T C : Prop := {
  t_drv : fd_inv f;
  t_root : ∃ d, T !! r = Some d ∧ d_parent d = None ∧ fd_id f (d_inode d) = Some kr;
  t_fresh : ∀ a, brk ≤ a → T !! a = None;
  t_inode : ∀ a d, T !! a = Some d → is_Some (fd_id f (d_inode d));
  t_parent : ∀ a d, T !! a = Some d →
    match d_parent d with
    | None => a = r
    | Some p => d_in_hashtable d = true ∧ C !! (p, d_component d) = Some a ∧
      ∃ dp k k', T !! p = Some dp ∧ fd_id f (d_inode dp) = Some k ∧ isdir k = true ∧
        child k (d_component d) = Some k' ∧ fd_id f (d_inode d) = Some k'
    end;
  t_cache : ∀ p c a, C !! (p, c) = Some a → ∃ d, T !! a = Some d ∧ d_parent d = Some p ∧ d_component d = c;
  t_irc : ∀ i, default 0 (rcs !! i) = inode_refs T i }.

Record counts_ok (r : Z) ext L : Prop := {
  t_ext : ∀ a, 0 ≤ ext a ∧ (0 < ext a → is_Some (L !! a));
  t_children : ∀ p dp, L !! p = Some dp → NoDup (d_children dp) ∧
    ∀ a, a ∈ d_children dp ↔ ∃ d, L !! a = Some d ∧ d_parent d = Some p;
  t_rc : ∀ p dp, L !! p = Some dp → d_rc dp = Z.of_nat (length (d_children dp)) + ext p + pin r p }.

Definition tree_ok (kr r brk : Z) ext f rcs L C : Prop :=
  shape_ok kr r brk f rcs (shape <$> L) C ∧ counts_ok r ext L.

Definition vfs_ok (kr : Z) ext (st : vfs F) : Prop :=
  tree_ok kr (root st) (dbrk st) ext (drv st) (irc st) (dents st) (dcache st).

Lemma shape_lookup L a d : L !! a = Some d → (shape <$> L) !! a = Some (shape d).
Proof. intros H. by rewrite lookup_fmap, H. Qed.
Lemma shape_lookup_inv L a t : (shape <$> L) !! a = Some t → ∃ d, L !! a = Some d ∧ t = shape d.
Proof. rewrite lookup_fmap_Some. intros (d & <- & H). eauto. Qed.
Lemma shape_insert L a d d' : L !! a = Some d → shape d' = shape d → shape <$> <[a := d']> L = shape <$> L.
Proof. intros Ha Hs. rewrite fmap_insert. apply insert_id. by rewrite Hs, (shape_lookup _ _ _ Ha). Qed.

Lemma inode_refs_insert T a d i : T !! a = None →
  inode_refs (<[a := d]> T) i = inode_refs T i + (if d_inode d =? i then 1 else 0).
Proof.
  intros Ha. unfold inode_refs. destruct (Z.eqb_spec (d_inode d) i) as [He|He].
  - rewrite map_filter_insert_True, map_size_insert_None; [lia| |done].
    apply map_lookup_filter_None. by left.
  - rewrite map_filter_insert_False by done. rewrite delete_id by done. lia.
Qed.
Lemma inode_refs_delete T a d i : T !! a = Some d →
  inode_refs (delete a T) i = inode_refs T i - (if d_inode d =? i then 1 else 0).
Proof.
  intros Ha. rewrite <- (insert_delete_id T a d Ha) at 2.
  rewrite inode_refs_insert by apply lookup_delete_eq. lia.
Qed.
Lemma inode_refs_pos T a d : T !! a = Some d → 0 < inode_refs T (d_inode d).
Proof.
  intros Ha. pose proof (inode_refs_delete T a d (d_inode d) Ha) as H.
  rewrite Z.eqb_refl in H. unfold inode_refs in *. lia.
Qed.

Lemma set_rc_shape r d : shape (set_rc r d) = shape d. Proof. done. Qed.
Lemma set_children_shape l d : shape (set_children l d) = shape d. Proof. done. Qed.

Lemma counts_ok_ext r ext ext' L : (∀ a, ext a = ext' a) → counts_ok r ext L → counts_ok r ext' L.
Proof.
  intros He [? ? ?]. split; [intros a; rewrite <- He; auto|auto|].
  intros p dp Hp. rewrite <- He. auto.
Qed.

(** A reference taken or dropped from outside. *)
Lemma counts_ok_rc r ext L a d δ : counts_ok r ext L → L !! a = Some d → 0 ≤ ext a + δ →
  counts_ok r (bump a δ ext) (<[a := set_rc (d_rc d + δ) d]> L).
Proof.
  intros [He Hc Hr] Ha Hd. split.
  - intros b. unfold bump. destruct (Z.eqb_spec b a) as [->|Hn].
    + rewrite lookup_insert_eq. eauto.
    + rewrite lookup_insert_ne by done. apply He.
  - assert (Hsh : ∀ b q, (∃ d0, <[a := set_rc (d_rc d + δ) d]> L !! b = Some d0 ∧ d_parent d0 = q) ↔
      ∃ d0, L !! b = Some d0 ∧ d_parent d0 = q).
    { intros b q. destruct (decide (b = a)) as [->|Hn].
      - rewrite lookup_insert_eq. naive_solver.
      - by rewrite lookup_insert_ne. }
    intros p dp. setoid_rewrite Hsh. destruct (decide (p = a)) as [->|Hn].
    + rewrite lookup_insert_eq. intros [= <-]. exact (Hc a d Ha).
    + rewrite lookup_insert_ne by done. apply Hc.
  - intros p dp. unfold bump. destruct (Z.eqb_spec p a) as [->|Hn].
    + rewrite lookup_insert_eq. intros [= <-]. simpl. rewrite (Hr a d Ha). lia.
    + rewrite lookup_insert_ne by done. apply Hr.
Qed.

Lemma tree_ok_rc kr r brk ext f rcs L C a d δ :
  tree_ok kr r brk ext f rcs L C → L !! a = Some d → 0 ≤ ext a + δ →
  tree_ok kr r brk (bump a δ ext) f rcs (<[a := set_rc (d_rc d + δ) d]> L) C.
Proof.
  intros [Hs Hc] Ha Hd. split; [|by apply counts_ok_rc].
  by rewrite (shape_insert L a d _ Ha (set_rc_shape _ _)).
Qed.

(** A new leaf [b] under [p]. *)
Lemma shape_ok_add kr r b f f' rcs T C p dp k k' i c :
  shape_ok kr r b f rcs T C → fd_inv f' → (∀ j, is_Some (fd_id f j) → fd_id f' j = fd_id f j) →
  T !! p = Some dp → fd_id f (d_inode dp) = Some k → isdir k = true → child k c = Some k' →
  fd_id f' i = Some k' → C !! (p, c) = None →
  shape_ok kr r (b + 1) f' (<[i := default 0 (rcs !! i) + 1]> rcs)
    (<[b := Dent i (Some p) [] c true 0]> T) (<[(p, c) := b]> C).
Proof.
  intros [Hd Hr Hf Hi Hp Hc Hn] Hd' Hid Tp Hk Hdir Hch Hik HC.
  assert (Hb : T !! b = None) by (apply Hf; lia).
  assert (Hid' : ∀ a d, T !! a = Some d → fd_id f' (d_inode d) = fd_id f (d_inode d)) by eauto.
  assert (Hold : ∀ a d, T !! a = Some d → <[b := Dent i (Some p) [] c true 0]> T !! a = Some d).
  { intros a d Ha. rewrite lookup_insert_ne; [done|congruence]. }
  split; [done| | | | | |].
  - destruct Hr as (d & Hl & Hpar & Hkr). exists d. rewrite (Hid' r d Hl). auto.
  - intros a Ha. rewrite lookup_insert_ne by lia. apply Hf. lia.
  - intros a d [[<- <-]|[? Ha]]%lookup_insert_Some; [eauto|].
    rewrite (Hid' a d Ha). eauto.
  - intros a d [[<- <-]|[Hne Ha]]%lookup_insert_Some.
    + simpl. rewrite lookup_insert_eq. repeat split. exists dp, k, k'.
      rewrite (Hid' p dp Tp). auto 10.
    + specialize (Hp a d Ha). destruct (d_parent d) as [q|]; [|done].
      destruct Hp as (Hh & HCq & dq & k1 & k2 & Hq & H1 & H2 & H3 & H4).
      rewrite lookup_insert_ne by congruence. repeat (split; [done|]).
      exists dq, k1, k2. rewrite (Hid' q dq Hq), (Hid' a d Ha). auto.
  - intros q c' a [[[= <- <-] <-]|[? Ha]]%lookup_insert_Some.
    + eexists. rewrite lookup_insert_eq. eauto.
    + destruct (Hc q c' a Ha) as (d & ? & ?). eauto.
  - intros j. rewrite inode_refs_insert by done. simpl. rewrite <- Hn.
    destruct (Z.eqb_spec i j) as [->|Hne].
    + by rewrite lookup_insert_eq.
    + rewrite lookup_insert_ne by done. lia.
Qed.

Definition parents_live L : Prop := ∀ a d q, L !! a = Some d → d_parent d = Some q → is_Some (L !! q).

Lemma shape_ok_parents kr r b f rcs L C : shape_ok kr r b f rcs (shape <$> L) C → parents_live L.
Proof.
  intros Hs a d q Ha Hq. pose proof (t_parent _ _ _ _ _ _ _ Hs a _ (shape_lookup _ _ _ Ha)) as H.
  simpl in H. rewrite Hq in H. destruct H as (_ & _ & dp & _ & _ & Hp & _).
  apply shape_lookup_inv in Hp as (? & ? & _). eauto.
Qed.

Lemma counts_ok_add r ext L b p dp i c :
  counts_ok r ext L → parents_live L → L !! b = None → is_Some (L !! r) → L !! p = Some dp →
  counts_ok r ext (<[b := Dent i (Some p) [] c true 0]>
    (<[p := set_children (d_children dp ++ [b]) (set_rc (d_rc dp + 1) dp)]> L)).
Proof.
  intros [He Hc Hr] Hpl Hb [dr Hrl] Hp. assert (b ≠ p ∧ b ≠ r) as [Hbp Hbr] by (split; congruence).
  assert (Heb : ext b = 0).
  { destruct (He b) as [? H]. destruct (Z.eq_dec (ext b) 0) as [|Hn]; [done|].
    destruct H as [? H]; [lia|]. congruence. }
  split.
  - intros a. destruct (He a) as [H0 H1]. split; [done|]. intros [d Ha]%H1.
    destruct (decide (a = b)) as [->|]; [rewrite lookup_insert_eq; eauto|].
    rewrite lookup_insert_ne by done. destruct (decide (a = p)) as [->|]; [rewrite lookup_insert_eq; eauto|].
    rewrite lookup_insert_ne by done. eauto.
  - set (L' := <[b := _]> _). assert (Hsh : ∀ a q, (∃ d0, L' !! a = Some d0 ∧ d_parent d0 = Some q) ↔
      (∃ d0, L !! a = Some d0 ∧ d_parent d0 = Some q) ∨ (a = b ∧ q = p)).
    { intros a q. unfold L'. destruct (decide (a = b)) as [->|Hn].
      - rewrite lookup_insert_eq, Hb. split.
        + intros (? & [= <-] & [= <-]). auto.
        + intros [(? & ? & _)|[_ ->]]; [done|]. eauto.
      - rewrite lookup_insert_ne by done. destruct (decide (a = p)) as [->|Hn'].
        + rewrite lookup_insert_eq, Hp. naive_solver.
        + rewrite lookup_insert_ne by done. naive_solver. }
    intros q dq Hq. setoid_rewrite Hsh. unfold L' in Hq.
    apply lookup_insert_Some in Hq as [[<- <-]|[Hne Hq]].
    + simpl. split; [constructor|]. intros a. split; [by intros ?%elem_of_nil|].
      intros [(d & Ha & Hd)|[_ ->]]; [|done]. destruct (Hpl a d b Ha Hd). congruence.
    + apply lookup_insert_Some in Hq as [[<- <-]|[Hnp Hq]].
      * simpl. destruct (Hc p dp Hp) as [Hnd Hin]. split.
        -- apply NoDup_app. split; [done|]. split; [|apply NoDup_singleton].
           intros a Ha ->%list_elem_of_singleton. apply Hin in Ha as (? & ? & _). congruence.
        -- intros a. rewrite elem_of_app, Hin, list_elem_of_singleton. naive_solver.
      * destruct (Hc q dq Hq) as [Hnd Hin]. split; [done|]. intros a. rewrite Hin. naive_solver.
  - intros q dq [[<- <-]|[Hne [[<- <-]|[Hnp Hq]]%lookup_insert_Some]]%lookup_insert_Some.
    + simpl. unfold pin. rewrite Heb. destruct (Z.eqb_spec b r); [done|lia].
    + simpl. rewrite (Hr p dp Hp), length_app. simpl. lia.
    + by apply Hr.
Qed.

(** The leaf [a] of [p] goes. *)
Lemma shape_ok_del kr r b f f' rcs rcs' T C a d p :
  shape_ok kr r b f rcs T C → fd_inv f' → T !! a = Some d → d_parent d = Some p →
  (∀ c t, T !! c = Some t → d_parent t ≠ Some a) →
  (∀ j, default 0 (rcs' !! j) = default 0 (rcs !! j) - (if d_inode d =? j then 1 else 0)) →
  (∀ j, 0 < default 0 (rcs' !! j) → fd_id f' j = fd_id f j) →
  shape_ok kr r b f' rcs' (delete a T) (delete (p, d_component d) C).
Proof.
  intros [Hd Hr Hf Hi Hp Hc Hn] Hd' Ha Hpar Hleaf Hrcs Hid.
  assert (HCa : C !! (p, d_component d) = Some a).
  { specialize (Hp a d Ha). rewrite Hpar in Hp. apply Hp. }
  assert (Hn' : ∀ j, default 0 (rcs' !! j) = inode_refs (delete a T) j).
  { intros j. rewrite Hrcs, Hn. by rewrite (inode_refs_delete T a d). }
  assert (Hid' : ∀ c t, delete a T !! c = Some t → fd_id f' (d_inode t) = fd_id f (d_inode t)).
  { intros c t Hct. apply Hid. rewrite Hn'. by eapply inode_refs_pos. }
  assert (Hold : ∀ c t, c ≠ a → T !! c = Some t → delete a T !! c = Some t).
  { intros. by rewrite lookup_delete_ne. }
  split; [done| | | | | |done].
  - destruct Hr as (dr & Hl & Hrp & Hkr). exists dr.
    assert (r ≠ a) by (intros ->; congruence). rewrite (Hid' r dr) by auto. auto.
  - intros c Hbc. apply lookup_delete_None. auto.
  - intros c t Hct. rewrite (Hid' c t Hct). apply lookup_delete_Some in Hct as [_ Hct]. eauto.
  - intros c t Hct. pose proof Hct as [Hne Ht]%lookup_delete_Some.
    specialize (Hp c t Ht). specialize (Hleaf c t Ht). destruct (d_parent t) as [q|] eqn:Hq; [|done].
    destruct Hp as (Hh & HCq & dq & k1 & k2 & Hql & H1 & H2 & H3 & H4). split; [done|]. split.
    + rewrite lookup_delete_ne; [done|]. intros [= <- Hco].
      congruence.
    + exists dq, k1, k2. assert (q ≠ a) by congruence.
      rewrite (Hid' q dq), (Hid' c t Hct) by auto. auto 10.
  - intros q c' e [Hne HC]%lookup_delete_Some. destruct (Hc q c' e HC) as (t & Ht & Htp & Htc).
    exists t. split; [|auto]. apply Hold; [|done]. intros ->. apply Hne. congruence.
Qed.

Lemma length_filter_ne (a : Z) (l : list Z) : NoDup l → a ∈ l →
  S (length (filter (λ c, c ≠ a) l)) = length l.
Proof.
  induction 1 as [|x l Hx Hl IH]; [by intros ?%elem_of_nil|].
  rewrite elem_of_cons, filter_cons. intros [<-|Ha].
  - rewrite decide_False by naive_solver. simpl. f_equal.
    cut (filter (λ c, c ≠ a) l = l); [by intros ->|].
    clear IH Hl. induction l as [|y l IH]; [done|]. rewrite not_elem_of_cons in Hx.
    rewrite filter_cons_True by naive_solver. f_equal. apply IH, Hx.
  - rewrite decide_True by congruence. simpl. f_equal. auto.
Qed.

Lemma counts_ok_del r ext L a d p dp :
  counts_ok r ext L → L !! a = Some d → d_parent d = Some p → d_children d = [] → L !! p = Some dp →
  ext a = 0 →
  counts_ok r (bump p 1 ext) (<[p := set_children (filter (λ c, c ≠ a) (d_children dp)) dp]> (delete a L)).
Proof.
  intros [He Hc Hr] Ha Hpar Hleaf Hp Hea. destruct (Hc p dp Hp) as [Hnd Hin].
  assert (Hap : a ∈ d_children dp) by (apply Hin; eauto).
  assert (p ≠ a). { intros ->. assert (dp = d) as -> by congruence. rewrite Hleaf in Hap. by apply elem_of_nil in Hap. }
  set (L' := <[p := _]> _).
  assert (Hsh : ∀ c q, (∃ t, L' !! c = Some t ∧ d_parent t = Some q) ↔
    (∃ t, L !! c = Some t ∧ d_parent t = Some q) ∧ c ≠ a).
  { intros c q. unfold L'. destruct (decide (c = p)) as [->|Hn].
    - rewrite lookup_insert_eq, Hp. naive_solver.
    - rewrite lookup_insert_ne by done. setoid_rewrite lookup_delete_Some. naive_solver. }
  split.
  - intros c. unfold L', bump. destruct (Z.eqb_spec c p) as [->|Hn].
    + rewrite lookup_insert_eq. destruct (He p). split; [lia|eauto].
    + rewrite lookup_insert_ne by done. destruct (He c) as [H0 H1]. split; [done|].
      intros Hpos. assert (c ≠ a) by (intros ->; lia). rewrite lookup_delete_ne by done. auto.
  - intros q dq Hq. setoid_rewrite Hsh. unfold L' in Hq.
    apply lookup_insert_Some in Hq as [[<- <-]|[Hne [Hna Hq]%lookup_delete_Some]].
    + simpl. split; [by apply NoDup_filter|]. intros c. rewrite list_elem_of_filter, Hin. tauto.
    + destruct (Hc q dq Hq) as [Hnq Hiq]. split; [done|]. intros c. rewrite Hiq. split; [|tauto].
      intros (t & Ht & Htq). split; [eauto|]. intros ->. congruence.
  - intros q dq Hq. unfold L', bump in *.
    apply lookup_insert_Some in Hq as [[<- <-]|[Hne [Hna Hq]%lookup_delete_Some]].
    + rewrite Z.eqb_refl. simpl. rewrite (Hr p dp Hp). pose proof (length_filter_ne a _ Hnd Hap). lia.
    + destruct (Z.eqb_spec q p); [congruence|]. by apply Hr.
Qed.

(** What a step may do to the dentries that stay: nothing but their lists
    of children and their counts. *)
Definition kept f L f' L' : Prop := ∀ a d', L' !! a = Some d' →
  ∃ d, L !! a = Some d ∧ shape d' = shape d ∧ fd_id f' (d_inode d) = fd_id f (d_inode d).

Lemma kept_refl f L : kept f L f L.
Proof. intros a d H. eauto. Qed.
Lemma kept_trans f1 L1 f2 L2 f3 L3 : kept f1 L1 f2 L2 → kept f2 L2 f3 L3 → kept f1 L1 f3 L3.
Proof.
  intros H1 H2 a d3 H. destruct (H2 a d3 H) as (d2 & Ha2 & Hs2 & Hi2).
  destruct (H1 a d2 Ha2) as (d1 & Ha1 & Hs1 & Hi1). exists d1. split; [done|]. split; [congruence|].
  assert (d_inode d2 = d_inode d1) as He by exact (f_equal d_inode Hs1). congruence.
Qed.
Lemma kept_insert f L a d d' : L !! a = Some d → shape d' = shape d → kept f L f (<[a := d']> L).
Proof.
  intros Ha Hs b e [[<- <-]|[_ Hb]]%lookup_insert_Some; [|by apply kept_refl]. eauto.
Qed.
Lemma kept_size f L f' L' : kept f L f' L' → ∀ a, L !! a = None → L' !! a = None.
Proof. intros H a Ha. destruct (L' !! a) as [d|] eqn:E; [|done]. destruct (H a d E) as (? & ? & _). congruence. Qed.

Lemma wp_inode_dec_rc i k (st : vfs F) : fd_inv (drv st) → fd_id (drv st) i = Some k → 0 < inode_rc i st →
  wp (inode_dec_rc i) (λ _ st', ∃ f' rcs', st' = Vfs f' rcs' (dents st) (dcache st) (root st) (dbrk st) ∧ fd_inv f' ∧
    (∀ j, default 0 (rcs' !! j) = default 0 (irc st !! j) - (if i =? j then 1 else 0)) ∧
    (∀ j, 0 < default 0 (rcs' !! j) → fd_id f' j = fd_id (drv st) j)) st.
Proof.
  intros Hinv Hid Hpos. unfold inode_dec_rc. apply wp_bind, wp_get, wp_bind, wp_assert.
  { destruct (Z.eqb_spec (inode_rc i st) 0); [lia|done]. }
  unfold inode_rc in *. destruct (Z.eqb_spec (default 0 (irc st !! i) - 1) 0) as [H0|H0].
  - apply wp_bind, wp_put, wp_bind, wp_on_part. simpl.
    eapply wp_mono; [by apply (fd_delete_spec _ _ k)|]. simpl. intros _ f' (Hinv' & Hi & Hne).
    apply wp_ret. exists f', (delete i (irc st)). split; [done|]. split; [done|]. split.
    + intros j. destruct (Z.eqb_spec i j) as [<-|Hj].
      * rewrite lookup_delete_eq. simpl. lia.
      * rewrite lookup_delete_ne by done. lia.
    + intros j. destruct (Z.eq_dec j i) as [->|Hj]; [rewrite lookup_delete_eq; simpl; lia|]. auto.
  - apply wp_bind, wp_put, wp_ret. do 2 eexists. split; [reflexivity|]. split; [done|]. split; [|done].
    intros j. destruct (Z.eqb_spec i j) as [<-|Hj].
    + rewrite lookup_insert_eq. simpl. lia.
    + rewrite lookup_insert_ne by done. lia.
Qed.

Lemma union_move {K A} `{Countable K} (M D : gmap K A) a d : M !! a = Some d → M ∪ D = delete a M ∪ <[a := d]> D.
Proof.
  intros Ha. rewrite <- insert_union_r by apply lookup_delete_eq.
  by rewrite insert_union_l, insert_delete_id.
Qed.
Lemma disjoint_move {K A} `{Countable K} (M D : gmap K A) a d : M ##ₘ D → delete a M ##ₘ <[a := d]> D.
Proof.
  intros HD. apply map_disjoint_insert_r. split; [apply lookup_delete_eq|].
  by apply map_disjoint_delete_l.
Qed.

(** The state while [~Dentry] runs: the tree [L], [C] beside the dentries
    [D] that are being destroyed and their cache entries [E]. *)
Definition part (kr : Z) ext L D C E (st : vfs F) : Prop :=
  tree_ok kr (root st) (dbrk st) ext (drv st) (irc st) L C ∧
  dents st = L ∪ D ∧ L ##ₘ D ∧ dcache st = C ∪ E ∧ C ##ₘ E.

Lemma part_get kr ext L D C E st a d : part kr ext L D C E st → L !! a = Some d → dents st !! a = Some d.
Proof. intros (_ & -> & _) Ha. by apply lookup_union_Some_l. Qed.

Lemma wp_get_dent a d (Q : Dentry → vfs F → Prop) st : dents st !! a = Some d → Q d st → wp (get_dent a) Q st.
Proof. intros Ha HQ. unfold get_dent. apply wp_bind, wp_get. by eapply wp_deref. Qed.
Lemma wp_set_dent a d (Q : unit → vfs F → Prop) st :
  Q tt (with_dents (<[a := d]> (dents st)) st) → wp (set_dent a d) Q st.
Proof. intros HQ. unfold set_dent. by apply wp_bind, wp_get, wp_put. Qed.

(** The dentry [a], a leaf nobody refers to any more, after its inode is
    released: it leaves the tree for the dying. *)
Lemma part_kill kr ext L D C E st a d p dp f' rcs' :
  part kr ext L D C E st → L !! a = Some d → d_parent d = Some p → d_children d = [] → L !! p = Some dp →
  ext a = 0 → fd_inv f' →
  (∀ j, default 0 (rcs' !! j) = default 0 (irc st !! j) - (if d_inode d =? j then 1 else 0)) →
  (∀ j, 0 < default 0 (rcs' !! j) → fd_id f' j = fd_id (drv st) j) →
  let dp' := set_children (filter (λ c, c ≠ a) (d_children dp)) dp in
  let L' := <[p := dp']> (delete a L) in
  part kr (bump p 1 ext) L' (<[a := d]> D) (delete (p, d_component d) C) (<[(p, d_component d) := a]> E)
    (Vfs f' rcs' (<[p := dp']> (dents st)) (dcache st) (root st) (dbrk st)) ∧
  p ≠ a ∧ C !! (p, d_component d) = Some a ∧ kept (drv st) L f' L'.
Proof.
  intros ([Hs Hc] & HD & HLD & HC & HCE) Ha Hpar Hleaf Hp Hea Hinv Hrcs Hid dp' L'.
  destruct (t_children _ _ _ Hc p dp Hp) as [_ Hin].
  assert (p ≠ a). { intros ->. assert (a ∈ d_children dp) as Hap by (apply Hin; eauto).
    assert (dp = d) as -> by congruence. rewrite Hleaf in Hap. by apply elem_of_nil in Hap. }
  assert (HCa : C !! (p, d_component d) = Some a).
  { pose proof (t_parent _ _ _ _ _ _ _ Hs a _ (shape_lookup _ _ _ Ha)) as H1. simpl in H1.
    rewrite Hpar in H1. apply H1. }
  assert (Hp' : delete a L !! p = Some dp) by by rewrite lookup_delete_ne.
  assert (Hs' : shape_ok kr (root st) (dbrk st) f' rcs' (shape <$> L') (delete (p, d_component d) C)).
  { unfold L'. rewrite (shape_insert _ p dp dp' Hp' (set_children_shape _ _)), fmap_delete.
    apply (shape_ok_del kr _ _ (drv st) f' (irc st) rcs' (shape <$> L) C a (shape d) p); try done.
    - by apply shape_lookup.
    - intros c t (dc & Hc' & ->)%shape_lookup_inv Hca. simpl in Hca.
      destruct (t_children _ _ _ Hc a d Ha) as [_ H1]. rewrite Hleaf in H1.
      eapply elem_of_nil, H1. eauto. }
  split; [|split; [done|split; [done|]]].
  - split; [split|]; simpl; [done|by eapply counts_ok_del|].
    split; [|split; [|split]].
    + rewrite HD. unfold L'. by rewrite <- insert_union_l, <- union_move.
    + apply map_disjoint_insert_l_2; [|by apply disjoint_move].
      rewrite lookup_insert_ne by done. by apply (map_disjoint_Some_l L D p dp).
    + by rewrite HC, <- union_move.
    + by apply disjoint_move.
  - intros b e Hb. assert (fd_id f' (d_inode e) = fd_id (drv st) (d_inode e)) as Hbe.
    { apply Hid. rewrite (t_irc _ _ _ _ _ _ _ Hs').
      exact (inode_refs_pos _ _ _ (shape_lookup _ _ _ Hb)). }
    apply lookup_insert_Some in Hb as [[<- <-]|[_ [_ Hb]%lookup_delete_Some]]; eauto.
Qed.

Lemma part_reap kr ext L D C E st a d x e :
  part kr ext L (<[a := d]> D) C (<[x := e]> E) st → D !! a = None → E !! x = None →
  part kr ext L D C E
    (Vfs (drv st) (irc st) (delete a (dents st)) (delete x (dcache st)) (root st) (dbrk st)).
Proof.
  intros (Ht & HD & HLD & HC & HCE) Ha Hx. split; [done|]. simpl.
  pose proof (map_disjoint_Some_r L _ a d HLD (lookup_insert_eq _ _ _)) as HLa.
  pose proof (map_disjoint_Some_r C _ x e HCE (lookup_insert_eq _ _ _)) as HCx.
  apply map_disjoint_insert_r in HLD as [_ ?], HCE as [_ ?].
  split; [|split; [done|split; [|done]]].
  - by rewrite HD, delete_union, delete_insert_id, (delete_id L) by done.
  - by rewrite HC, delete_union, delete_insert_id, (delete_id C) by done.
Qed.

Lemma part_ext kr ext ext' L D C E st : (∀ a, ext a = ext' a) → part kr ext L D C E st → part kr ext' L D C E st.
Proof. intros He ([Hs Hc] & H). split; [split; [done|by eapply counts_ok_ext]|done]. Qed.

Lemma part_rc kr ext L D C E st a d δ : part kr ext L D C E st → L !! a = Some d → 0 ≤ ext a + δ →
  let d' := set_rc (d_rc d + δ) d in
  part kr (bump a δ ext) (<[a := d']> L) D C E (with_dents (<[a := d']> (dents st)) st).
Proof.
  intros (Ht & HD & HLD & HC & HCE) Ha Hδ d'. split; [by apply tree_ok_rc|]. simpl.
  split; [by rewrite HD, insert_union_l|]. split; [|done].
  apply map_disjoint_insert_l_2; [|done]. by apply (map_disjoint_Some_l L D a d).
Qed.

Lemma part_leaf kr ext L D C E st a d : part kr ext L D C E st → L !! a = Some d → d_rc d = 0 →
  d_children d = [] ∧ ext a = 0 ∧ ∃ p dp k, d_parent d = Some p ∧ L !! p = Some dp ∧
    d_in_hashtable d = true ∧ fd_id (drv st) (d_inode d) = Some k ∧ 0 < inode_rc (d_inode d) st.
Proof.
  intros ([Hs Hc] & _) Ha Hrc. pose proof (t_rc _ _ _ Hc a d Ha) as Hr. unfold pin in Hr.
  destruct (t_ext _ _ _ Hc a) as [He _]. pose proof (shape_lookup _ _ _ Ha) as Hsa.
  split; [apply nil_length_inv; destruct (a =? root st); lia|].
  split; [destruct (a =? root st); lia|].
  pose proof (t_parent _ _ _ _ _ _ _ Hs a _ Hsa) as Hp. simpl in Hp.
  destruct (t_inode _ _ _ _ _ _ _ Hs a _ Hsa) as [k Hk].
  destruct (d_parent d) as [p|]; [|subst a; rewrite Z.eqb_refl in Hr; lia].
  destruct Hp as (Hh & _ & tp & _ & _ & Htp & _). apply shape_lookup_inv in Htp as (dp & Hdp & _).
  exists p, dp, k. repeat (split; [done|]). unfold inode_rc.
  rewrite (t_irc _ _ _ _ _ _ _ Hs). exact (inode_refs_pos _ _ _ Hsa).
Qed.

(** [Dentry::dec_rc] with a reference to drop: no assertion fails, the
    ancestors that lose their last reference go too, and every other
    dentry stays. *)
Lemma wp_dentry_dec_rc kr fuel : ∀ ext L D C E st a,
  part kr ext L D C E st → 0 < ext a → (size L ≤ fuel)%nat →
  wp (dentry_dec_rc fuel a) (λ _ st', root st' = root st ∧ ∃ L' C', part kr (bump a (-1) ext) L' D C' E st' ∧
    kept (drv st) L (drv st') L') st.
Proof.
  induction fuel as [|fuel IH]; intros ext L D C E st a Hpt Hext Hsz.
  { destruct Hpt as ([_ Hc] & _). destruct (t_ext _ _ _ Hc a) as [_ [d Ha]]; [done|].
    apply Nat.le_0_r, map_size_empty_inv in Hsz as ->. by rewrite lookup_empty in Ha. }
  assert (is_Some (L !! a)) as [d Ha] by (destruct Hpt as ([_ Hc] & _); by apply (t_ext _ _ _ Hc)).
  assert (Hrc : 0 < d_rc d).
  { destruct Hpt as ([_ Hc] & _). rewrite (t_rc _ _ _ Hc a d Ha). unfold pin. destruct (a =? root st); lia. }
  pose proof (part_rc kr ext L D C E st a d (-1) Hpt Ha ltac:(lia)) as H1.
  simpl dentry_dec_rc. apply wp_bind. eapply wp_get_dent; [by eapply part_get|].
  apply wp_bind, wp_assert; [destruct (Z.eqb_spec (d_rc d) 0); [lia|done]|].
  apply wp_bind, wp_set_dent.
  set (d1 := set_rc (d_rc d + -1) d) in *. change (d_rc d - 1) with (d_rc d1) in *.
  change (set_rc (d_rc d1) d) with d1. set (L1 := <[a := d1]> L) in *.
  set (st1 := with_dents _ st) in *. assert (Ha1 : L1 !! a = Some d1) by apply lookup_insert_eq.
  assert (Hk1 : kept (drv st) L (drv st1) L1) by by apply (kept_insert _ _ _ d).
  destruct (Z.eqb_spec (d_rc d1) 0) as [H0|H0]; simpl negb; cbv iota.
  2:{ apply wp_ret. split; [done|]. exists L1, C. auto. }
  destruct (part_leaf _ _ _ _ _ _ _ _ _ H1 Ha1 H0) as (Hch & He1 & p & dp & k & Hpar & Hp & Hh & Hk & Hirc).
  change (d_children d1) with (d_children d) in Hch. change (d_parent d1) with (d_parent d) in Hpar.
  apply wp_bind, wp_assert; [by rewrite Hch|].
  assert (Hinv : fd_inv (drv st1)) by (destruct H1 as ([Hs _] & _); exact (t_drv _ _ _ _ _ _ _ Hs)).
  apply wp_bind. eapply wp_mono; [exact (wp_inode_dec_rc _ k st1 Hinv Hk Hirc)|].
  intros _ st2 (f' & rcs' & -> & Hinv' & Hrcs' & Hid').
  destruct (part_kill _ _ _ _ _ _ _ _ _ _ _ _ _ H1 Ha1 Hpar Hch Hp He1 Hinv' Hrcs' Hid')
    as (H2 & Hne & HCa & Hk2).
  rewrite Hpar. apply wp_bind, wp_bind. eapply wp_get_dent; [exact (part_get _ _ _ _ _ _ _ _ _ H1 Hp)|].
  apply wp_bind, wp_set_dent. apply wp_bind.
  eapply wp_mono; [eapply (IH _ _ _ _ _ _ p H2)|].
  { unfold bump at 1. rewrite Z.eqb_refl. destruct H1 as ([_ Hc] & _). destruct (t_ext _ _ _ Hc p). lia. }
  { rewrite map_size_insert_Some by (rewrite lookup_delete_ne by done; eauto).
    rewrite map_size_delete_Some by eauto. unfold L1. rewrite map_size_insert_Some by eauto. lia. }
  intros _ st3 (Hroot & L3 & C3 & H3 & Hk3). simpl in Hroot.
  change (d_in_hashtable d1) with (d_in_hashtable d) in Hh. rewrite Hh.
  apply wp_bind, wp_get, wp_bind, wp_assert.
  { apply bool_decide_eq_true_2. destruct H3 as (_ & _ & _ & -> & HCE).
    rewrite lookup_union_r; [apply lookup_insert_eq|].
    eapply map_disjoint_Some_r; [exact HCE|apply lookup_insert_eq]. }
  apply wp_put, wp_bind, wp_get, wp_bind, wp_put, wp_ret. split; [done|].
  exists L3, C3. split.
  - apply (part_ext _ (bump p (-1) (bump p 1 (bump a (-1) ext)))).
    { intros b. unfold bump. destruct (b =? p), (b =? a); lia. }
    refine (part_reap _ _ _ _ _ _ st3 a d1 (p, d_component d) a H3 _ _).
    + destruct H1 as (_ & _ & HLD & _). by apply (map_disjoint_Some_l L1 D a d1).
    + destruct H1 as (_ & _ & _ & _ & HCE). by eapply (map_disjoint_Some_l C E).
  - eapply kept_trans; [exact Hk1|]. eapply kept_trans; [exact Hk2|exact Hk3].
Qed.

Lemma vfs_ok_part kr ext st : vfs_ok kr ext st → part kr ext (dents st) ∅ (dcache st) ∅ st.
Proof.
  intros H. split; [done|]. rewrite !map_union_empty.
  pose proof (map_disjoint_empty_r (dents st)). pose proof (map_disjoint_empty_r (dcache st)). auto.
Qed.
Lemma part_vfs_ok kr ext L C st : part kr ext L ∅ C ∅ st → L = dents st ∧ vfs_ok kr ext st.
Proof.
  intros (H & HD & _ & HC & _). rewrite map_union_empty in HD. rewrite map_union_empty in HC.
  unfold vfs_ok. rewrite HD, HC. auto.
Qed.

(** The path from the root dentry to [a], as objects on disk, the nearest first. *)
Inductive denotes (st : vfs F) : Z → list Z → Prop :=
| den_root d k : dents st !! root st = Some d → d_parent d = None → fd_id (drv st) (d_inode d) = Some k →
    denotes st (root st) [k]
| den_child a d p k ks : dents st !! a = Some d → d_parent d = Some p → fd_id (drv st) (d_inode d) = Some k →
    denotes st p ks → denotes st a (k :: ks).

Lemma denotes_live st a ks : denotes st a ks →
  ∃ d k ks', dents st !! a = Some d ∧ ks = k :: ks' ∧ fd_id (drv st) (d_inode d) = Some k.
Proof. destruct 1; eauto 10. Qed.

(** A step that keeps the links keeps what the dentries denote. *)
Definition grows (st st' : vfs F) : Prop :=
  root st' = root st ∧ ∀ a d, dents st !! a = Some d →
  ∃ d', dents st' !! a = Some d' ∧ shape d' = shape d ∧ fd_id (drv st') (d_inode d) = fd_id (drv st) (d_inode d).
Lemma grows_refl st : grows st st.
Proof. split; eauto. Qed.
Lemma grows_trans st1 st2 st3 : grows st1 st2 → grows st2 st3 → grows st1 st3.
Proof.
  intros [Hr1 H1] [Hr2 H2]. split; [congruence|]. intros a d1 Ha.
  destruct (H1 a d1 Ha) as (d2 & Ha2 & Hs2 & Hi2). destruct (H2 a d2 Ha2) as (d3 & Ha3 & Hs3 & Hi3).
  exists d3. split; [done|]. split; [congruence|].
  assert (d_inode d2 = d_inode d1) as He by exact (f_equal d_inode Hs2). congruence.
Qed.
Lemma denotes_step (st st' : vfs F) d d' k : shape d' = shape d → fd_id (drv st') (d_inode d) = fd_id (drv st) (d_inode d) →
  fd_id (drv st) (d_inode d) = Some k →
  fd_id (drv st') (d_inode d') = Some k ∧ d_parent d' = d_parent d.
Proof.
  intros Hs Hi Hk. assert (d_inode d' = d_inode d ∧ d_parent d' = d_parent d) as [He ->].
  { split; [exact (f_equal d_inode Hs)|exact (f_equal d_parent Hs)]. } rewrite He. split; [congruence|done].
Qed.
Lemma denotes_grows st st' a ks : grows st st' → denotes st a ks → denotes st' a ks.
Proof.
  intros [Hr Hg]. induction 1 as [d k Ha Hp Hk|a d p k ks Ha Hp Hk Hks IH];
    destruct (Hg _ _ Ha) as (d' & Ha' & Hs & Hi);
    destruct (denotes_step st st' d d' k Hs Hi Hk) as [Hk' Hp'].
  - rewrite <- Hr in *. apply (den_root st' d'); congruence.
  - apply (den_child st' a d' p); congruence.
Qed.
(** So does a step that drops dentries, for those that stay. *)
Lemma denotes_kept kr ext st st' a ks : vfs_ok kr ext st' → root st' = root st →
  kept (drv st) (dents st) (drv st') (dents st') → is_Some (dents st' !! a) → denotes st a ks → denotes st' a ks.
Proof.
  intros [Hs' _] Hr Hk Hl Hd. revert Hl. induction Hd as [d k Ha Hp Hi|a d p k ks Ha Hp Hi Hks IH];
    intros [d' Ha']; destruct (Hk _ _ Ha') as (d0 & Hd0 & Hs & He); assert (d0 = d) as -> by congruence;
    destruct (denotes_step st st' d d' k Hs He Hi) as [Hk' Hp'].
  - rewrite <- Hr in *. apply (den_root st' d'); congruence.
  - apply (den_child st' a d' p); [done|congruence|done|]. apply IH.
    eapply (shape_ok_parents _ _ _ _ _ _ _ Hs' a d'); [done|congruence].
Qed.

(** ** Path resolution on the disk tree: the specification *)
Inductive resolution := Found (ks : list Z) | Missing | ThroughFile.

Fixpoint components (path : list Z) : list (list Z) :=
  match path with
  | [] => [[]]
  | c :: path =>
    if c =? chr_slash then [] :: components path
    else match components path with
         | [] => [[c]]
         | w :: ws => (c :: w) :: ws
         end
  end.

Fixpoint resolve (ks : list Z) (ws : list (list Z)) : resolution :=
  match ws with
  | [] => Found ks
  | w :: ws =>
    if decide (w = [] ∨ w = [chr_dot]) then resolve ks ws
    else if decide (w = [chr_dot; chr_dot]) then resolve (match ks with _ :: k :: ks' => k :: ks' | _ => ks end) ws
    else match ks with
         | [] => Missing
         | k :: _ =>
           if isdir k then
             match child k w with
             | Some k' => resolve (k' :: ks) ws
             | None => Missing
             end
           else ThroughFile
         end
  end.

(** The loop takes the path apart as [components] does. *)
Lemma components_none path : find_chr chr_slash path = None → components path = [path].
Proof.
  unfold find_chr. induction path as [|c path IH]; [done|]. simpl.
  destruct (decide (c = chr_slash)) as [->|Hc]; simpl; [done|].
  destruct (Z.eqb_spec c chr_slash); [done|]. intros H. rewrite IH; [done|].
  by destruct (list_find (λ x, x = chr_slash) path).
Qed.
Lemma components_some path n : find_chr chr_slash path = Some n →
  components path = take n path :: components (drop (n + 1) path) ∧ (n < length path)%nat.
Proof.
  unfold find_chr. revert n. induction path as [|c path IH]; [done|]. simpl. intros n.
  destruct (decide (c = chr_slash)) as [->|Hc]; simpl.
  - intros [= <-]. split; [done|lia].
  - destruct (Z.eqb_spec c chr_slash); [done|]. intros H.
    destruct (list_find (λ x, x = chr_slash) path) as [[j x]|] eqn:E; [|done]. injection H as <-.
    destruct (IH j eq_refl) as [-> ?]. split; [done|simpl; lia].
Qed.
Lemma resolve_trailing ks : resolve ks [[]] = Found ks.
Proof. done. Qed.
Lemma left_partition_spec c path w rest : left_partition (c :: path) = (w, rest) →
  (length rest ≤ length path)%nat ∧
  ∀ ks, resolve ks (components (c :: path)) = resolve ks (w :: (if decide (rest = []) then [] else components rest)).
Proof.
  unfold left_partition. destruct (find_chr chr_slash (c :: path)) as [n|] eqn:E.
  - destruct (components_some _ _ E) as [Hc Hn]. intros [= <- <-]. split; [rewrite length_drop; simpl in *; lia|].
    intros ks. rewrite Hc. case_decide as He; [|done]. rewrite He. simpl.
    by repeat case_decide.
  - intros [= <- <-]. split; [simpl; lia|]. intros ks. by rewrite (components_none _ E).
Qed.

(** [Dentry::Dentry] on what the driver's [lookup] returned: [st] is the
    state before the lookup. *)
Lemma wp_new_dentry kr ext (st : vfs F) f' p ks dp k k' i c :
  vfs_ok kr ext st → fd_inv f' → (∀ j, is_Some (fd_id (drv st) j) → fd_id f' j = fd_id (drv st) j) →
  denotes st p ks → dents st !! p = Some dp → fd_id (drv st) (d_inode dp) = Some k → isdir k = true →
  child k c = Some k' → fd_id f' i = Some k' → dcache st !! (p, c) = None →
  wp (new_dentry (Some p) i c) (λ n st', vfs_ok kr ext st' ∧ grows st st' ∧ denotes st' n (k' :: ks))
    (Vfs f' (irc st) (dents st) (dcache st) (root st) (dbrk st)).
Proof.
  intros [Hs Hc] Hinv Hid Hden Hp Hk Hdir Hch Hik HC. set (b := dbrk st).
  assert (Hb : dents st !! b = None).
  { pose proof (t_fresh _ _ _ _ _ _ _ Hs b ltac:(unfold b; lia)) as H. by rewrite lookup_fmap, fmap_None in H. }
  assert (b ≠ p) by congruence. set (dp1 := set_rc (d_rc dp + 1) dp).
  set (dp2 := set_children (d_children dp ++ [b]) dp1). set (db := Dent i (Some p) [] c true 0).
  assert (Hrun : new_dentry (Some p) i c (Vfs f' (irc st) (dents st) (dcache st) (root st) b) =
    Ret (b, Vfs f' (<[i := default 0 (irc st !! i) + 1]> (irc st)) (<[b := db]> (<[p := dp2]> (dents st)))
              (<[(p, c) := b]> (dcache st)) (root st) (b + 1))).
  { unfold new_dentry, dentry_inc_rc, inode_inc_rc, inode_rc, get_dent, set_dent, getS, putS, assertM, with_dents, with_dcache, with_irc.
    munfold. cbn -[lookup insert]. rewrite lookup_insert_ne, Hp by done. cbn -[lookup insert].
    rewrite lookup_insert_eq. cbn -[lookup insert]. rewrite HC. cbn -[lookup insert].
    rewrite !lookup_insert_ne, lookup_insert_eq by done. cbn -[lookup insert].
    do 3 f_equal. rewrite (insert_insert_eq _ p), (insert_insert_ne _ p b), (insert_insert_eq _ b) by done. done. }
  unfold wp. fold b. rewrite Hrun. clear Hrun.
  assert (Hlp : (<[b := db]> (<[p := dp2]> (dents st))) !! p = Some dp2) by by rewrite lookup_insert_ne, lookup_insert_eq.
  assert (Hg : grows st (Vfs f' (<[i := default 0 (irc st !! i) + 1]> (irc st)) (<[b := db]> (<[p := dp2]> (dents st)))
              (<[(p, c) := b]> (dcache st)) (root st) (b + 1))).
  { split; [done|]. intros a d Ha. simpl.
    assert (fd_id f' (d_inode d) = fd_id (drv st) (d_inode d)).
    { apply Hid. exact (t_inode _ _ _ _ _ _ _ Hs a _ (shape_lookup _ _ _ Ha)). }
    destruct (decide (a = p)) as [->|Hn]; [exists dp2; assert (d = dp) as -> by congruence; auto|].
    exists d. rewrite !lookup_insert_ne by congruence. auto. }
  split; [split|split]; cbn [drv irc dents dcache root dbrk].
  - rewrite fmap_insert, (shape_insert _ p dp dp2 Hp eq_refl).
    exact (shape_ok_add kr _ b (drv st) f' (irc st) (shape <$> dents st) (dcache st) p (shape dp) k k' i c
      Hs Hinv Hid (shape_lookup _ _ _ Hp) Hk Hdir Hch Hik HC).
  - apply counts_ok_add; [done|by eapply shape_ok_parents|done| |done].
    destruct (t_root _ _ _ _ _ _ _ Hs) as (? & (? & ? & _)%shape_lookup_inv & _). eauto.
  - done.
  - apply (den_child _ _ db p); [apply lookup_insert_eq|done|done|]. by eapply denotes_grows.
Qed.

(** The dentry cache agrees with the tree on disk. *)
Lemma cached_child kr ext st a c b k ks : vfs_ok kr ext st → dcache st !! (a, c) = Some b → denotes st a (k :: ks) →
  isdir k = true ∧ ∃ k', child k c = Some k' ∧ denotes st b (k' :: k :: ks).
Proof.
  intros [Hs _] HC Hden. destruct (t_cache _ _ _ _ _ _ _ Hs _ _ _ HC) as (t & Ht & Htp & Htc).
  apply shape_lookup_inv in Ht as (d & Hd & ->). simpl in *.
  pose proof (t_parent _ _ _ _ _ _ _ Hs b _ (shape_lookup _ _ _ Hd)) as H. simpl in H. rewrite Htp in H.
  destruct H as (_ & _ & tp & k1 & k2 & (dp & Hdp & ->)%shape_lookup_inv & Hk1 & Hdir & Hch & Hk2). simpl in *.
  destruct (denotes_live _ _ _ Hden) as (dp' & k0 & ks' & Hdp' & [= <- <-] & Hk). rewrite Hdp in Hdp'. injection Hdp' as <-.
  assert (k1 = k) as -> by congruence. subst c. split; [done|]. exists k2. split; [done|].
  by apply (den_child st b d a).
Qed.

Lemma denotes_parent kr ext st a d k ks : vfs_ok kr ext st → dents st !! a = Some d → denotes st a (k :: ks) →
  denotes st (default a (d_parent d)) (match ks with k' :: ks' => k' :: ks' | [] => [k] end).
Proof.
  intros [Hs _] Ha Hden. inversion Hden as [d' k' Hr Hp Hk|a' d' p k' ks' Ha' Hp Hk Hks]; subst.
  - assert (d' = d) as -> by congruence. by rewrite Hp.
  - assert (d' = d) as -> by congruence. rewrite Hp. simpl.
    destruct (denotes_live _ _ _ Hks) as (? & ? & ? & _ & -> & _). done.
Qed.
Lemma view_eq_false a b : Forall (λ x, 0 < x < 256) a → Forall is_byte b → a ≠ b → view_eq a b = false.
Proof. intros Ha Hb Hn. apply not_true_iff_false. by rewrite view_eq_true. Qed.

(** What a lookup from a dentry that denotes [ks] gives. *)
Definition resolves (res : resolution) (r : option Z * Result) (st : vfs F) : Prop :=
  match res with
  | Found ks => ∃ a, r = (Some a, Ok) ∧ denotes st a ks
  | Missing => r = (None, FileNotFound)
  | ThroughFile => False
  end.
Definition may_fail (res : resolution) (f : fault) : Prop := f = AssertFail ∧ (fd_oom ∨ res = ThroughFile).

Lemma left_partition_bytes (P : Z → Prop) path : Forall P path →
  Forall P (left_partition path).1 ∧ Forall P (left_partition path).2.
Proof.
  intros H. unfold left_partition. destruct (find_chr chr_slash path); simpl; [|auto].
  split; [by apply Forall_take|by apply Forall_drop].
Qed.

Lemma wpx_miss kr ext st it ks k w d res : vfs_ok kr ext st → denotes st it (k :: ks) → dents st !! it = Some d →
  (isdir k = false → res = ThroughFile) →
  wpx (may_fail res) (on_drv (fd_lookup (d_inode d) w Ok)) (λ x st', isdir k = true ∧
    ∃ f', st' = Vfs f' (irc st) (dents st) (dcache st) (root st) (dbrk st) ∧ fd_inv f' ∧
    (∀ j, is_Some (fd_id (drv st) j) → fd_id f' j = fd_id (drv st) j) ∧
    match child k w with
    | None => x = (None, FileNotFound)
    | Some k' => ∃ b, x = (Some b, Ok) ∧ fd_id f' b = Some k'
    end) st.
Proof.
  intros [Hs _] Hden Hd Hres. pose proof (t_drv _ _ _ _ _ _ _ Hs) as Hinv.
  destruct (denotes_live _ _ _ Hden) as (d' & k0 & ks0 & Hd' & [= <- <-] & Hk). rewrite Hd in Hd'. injection Hd' as <-.
  apply wpx_on_part. destruct (isdir k) eqn:Hdir.
  - pose proof (fd_lookup_spec _ _ _ w Ok Hinv Hk Hdir) as H. unfold wpx in *.
    destruct (fd_lookup (d_inode d) w Ok (drv st)) as [[x f']|f]; [|unfold may_fail; tauto].
    split; [done|]. exists f'. tauto.
  - unfold wpx. rewrite (fd_lookup_file _ _ _ w Ok Hinv Hk Hdir). unfold may_fail. auto.
Qed.

Lemma vfs_ok_drv kr ext (st : vfs F) f' : vfs_ok kr ext st → fd_inv f' →
  (∀ j, is_Some (fd_id (drv st) j) → fd_id f' j = fd_id (drv st) j) →
  let st' := Vfs f' (irc st) (dents st) (dcache st) (root st) (dbrk st) in vfs_ok kr ext st' ∧ grows st st'.
Proof.
  intros [[Hd Hr Hf Hi Hp Hc Hn] Hcnt] Hinv Hid. simpl.
  assert (Hid' : ∀ a d, (shape <$> dents st) !! a = Some d → fd_id f' (d_inode d) = fd_id (drv st) (d_inode d)) by eauto.
  split; [split; [split; simpl; [done| |done| | |done|done]|done]|split; [done|]].
  - destruct Hr as (d & Hl & Hpar & Hk). exists d. rewrite (Hid' _ d Hl). auto.
  - intros a d Ha. rewrite (Hid' _ d Ha). eauto.
  - intros a d Ha. specialize (Hp a d Ha). destruct (d_parent d) as [q|]; [|done].
    destruct Hp as (Hh & HC & dp & k & k' & Hq & H1 & H2 & H3 & H4). split; [done|]. split; [done|].
    exists dp, k, k'. rewrite (Hid' _ dp Hq), (Hid' _ d Ha). auto.
  - simpl. intros a d Ha. exists d. split; [done|]. split; [done|].
    exact (Hid' a (shape d) (shape_lookup _ _ _ Ha)).
Qed.

Lemma dot_bytes : Forall is_byte [chr_dot] ∧ Forall is_byte [chr_dot; chr_dot].
Proof. split; repeat (constructor; [unfold is_byte, chr_dot; lia|]); constructor. Qed.

Lemma wpx_lookup_loop kr ext fuel : ∀ path it ks st,
  vfs_ok kr ext st → denotes st it ks → Forall (λ x, 0 < x < 256) path → (length path ≤ fuel)%nat →
  let res := resolve ks (components path) in
  wpx (may_fail res) (lookup_loop fuel it path Ok)
    (λ r st', vfs_ok kr ext st' ∧ grows st st' ∧ resolves res r st') st.
Proof.
  induction fuel as [|fuel IH]; intros [|c0 path] it ks st Hok Hden Hnz Hf res; try (simpl in Hf; lia).
  1,2: apply wpx_ret; split; [done|]; split; [apply grows_refl|]; exists it; auto.
  destruct dot_bytes as [Hdot Hdd]. unfold res. clear res. destruct (denotes_live _ _ _ Hden) as (d & k & ks' & Hd & -> & Hk).
  destruct (left_partition_bytes _ _ Hnz) as [Hw Hrest].
  simpl lookup_loop. destruct (left_partition (c0 :: path)) as [w rest] eqn:Hlp. simpl in Hw, Hrest.
  destruct (left_partition_spec _ _ _ _ Hlp) as [Hlen Hres]. rewrite (Hres (k :: ks')). clear Hres.
  assert (Hsuf : ∀ ks, resolve ks (if decide (rest = []) then [] else components rest) = resolve ks (components rest)).
  { intros ks. case_decide as He; [rewrite He|]; done. }
  simpl in Hf. simpl resolve. destruct (decide (w = [] ∨ w = [chr_dot])) as [Hskip|Hskip].
  { assert (bool_decide (w = []) || view_eq w [chr_dot] = true) as ->.
    { by rewrite orb_true_iff, bool_decide_eq_true, view_eq_true. }
    rewrite Hsuf. apply IH; (assumption || lia). }
  assert (bool_decide (w = []) || view_eq w [chr_dot] = false) as ->.
  { apply not_true_iff_false. by rewrite orb_true_iff, bool_decide_eq_true, view_eq_true. }
  destruct (decide (w = [chr_dot; chr_dot])) as [Hup|Hup].
  { rewrite (proj2 (view_eq_true w [chr_dot; chr_dot] Hw Hdd) Hup).
    apply wpx_bind, wpx_wp. eapply wp_get_dent; [done|]. rewrite Hsuf.
    pose proof (denotes_parent _ _ _ _ _ _ _ Hok Hd Hden) as Hpar. destruct ks'; apply IH; (assumption || lia). }
  rewrite (view_eq_false w [chr_dot; chr_dot] Hw Hdd Hup).
  apply wpx_bind, wpx_get. destruct (dcache st !! (it, w)) as [b|] eqn:HC.
  { destruct (cached_child _ _ _ _ _ _ _ _ Hok HC Hden) as (-> & k' & -> & Hden'). rewrite Hsuf. apply IH; (assumption || lia). }
  apply wpx_bind, wpx_wp. eapply wp_get_dent; [done|]. apply wpx_bind.
  eapply wpx_mono; [eapply (wpx_miss kr ext st it ks' k w d); [done..|by intros ->]|].
  intros [i r] st1 (Hdir & f' & -> & Hinv' & Hid' & Hx). rewrite Hdir. destruct (child k w) as [k'|] eqn:Hch.
  - destruct Hx as (b & [= -> ->] & Hb). apply wpx_bind, wpx_assert; [done|]. intros _.
    apply wpx_bind, wpx_wp. eapply wp_mono; [by eapply (wp_new_dentry kr ext st f' it (k :: ks') d k k' b w)|].
    intros n st2 (Hok2 & Hg & Hden2). rewrite Hsuf. eapply wpx_mono; [apply (IH rest n (k' :: k :: ks') st2); (assumption || lia)|].
    intros x st3 (Hok3 & Hg3 & Hr). split; [done|]. split; [by eapply grows_trans|done].
  - injection Hx as -> ->. apply wpx_bind, wpx_assert; [done|]. intros _. apply wpx_ret.
    destruct (vfs_ok_drv kr ext st f' Hok Hinv' Hid'). split; [done|]. split; done.
Qed.

(** ** Reading *)
Definition file_slice (k off n : Z) : list Z := (λ i, fbyte k (off + Z.of_nat i)) <$> seq 0 (Z.to_nat n).
Definition oom_only (f : fault) : Prop := f = AssertFail ∧ fd_oom.

Lemma file_slice_app k off n m : 0 ≤ n → 0 ≤ m → file_slice k off (n + m) = file_slice k off n ++ file_slice k (off + n) m.
Proof.
  intros Hn Hm. unfold file_slice. rewrite Z2Nat.inj_add, seq_app, fmap_app by done. f_equal.
  simpl. rewrite <- (Nat.add_0_r (Z.to_nat n)), <- fmap_add_seq, <- list_fmap_compose.
  apply list_fmap_ext. intros i x _. simpl. f_equal. lia.
Qed.
Lemma page_bytes_slice k off from n (pg : bytes) :
  (∀ i, 0 ≤ i < PG_SZ → pg i = fbyte k (off + i)) → 0 ≤ from → 0 ≤ n → from + n ≤ PG_SZ →
  page_bytes pg from n = file_slice k (off + from) n.
Proof.
  intros Hpg Hf Hn Hb. unfold page_bytes, file_slice. apply list_fmap_ext. intros i x [-> ?]%lookup_seq.
  rewrite Hpg by lia. f_equal. lia.
Qed.

Definition reads (st st' : vfs F) : Prop :=
  ∃ f', st' = Vfs f' (irc st) (dents st) (dcache st) (root st) (dbrk st) ∧ fd_inv f' ∧ ∀ j, fd_id f' j = fd_id (drv st) j.

Lemma wpx_page i k off st : fd_inv (drv st) → fd_id (drv st) i = Some k → isdir k = false →
  off mod PG_SZ = 0 → 0 ≤ off < fsize k →
  wpx oom_only (on_drv (fd_page i off)) (λ pg st', reads st st' ∧ ∀ j, 0 ≤ j < PG_SZ → pg j = fbyte k (off + j)) st.
Proof.
  intros Hinv Hi Hdir Hal Hoff. apply wpx_on_part.
  eapply wpx_mono; [by apply (fd_page_spec _ _ k off)|]. simpl.
  intros pg f' (Hinv' & Hid & Hpg). split; [|done]. exists f'. auto.
Qed.

Lemma reads_trans st1 st2 st3 : reads st1 st2 → reads st2 st3 → reads st1 st3.
Proof.
  intros (f2 & -> & _ & H2) (f3 & -> & Hi & H3). exists f3. split; [done|]. split; [done|]. intros j. by rewrite H3, <- H2.
Qed.

Lemma wpx_read_aligned i k fuel : ∀ pg count st, fd_inv (drv st) → fd_id (drv st) i = Some k → isdir k = false →
  pg mod PG_SZ = 0 → 0 ≤ pg → 0 ≤ count → (0 < count → pg + count ≤ fsize k) → (Z.to_nat count ≤ fuel)%nat →
  wpx oom_only (read_aligned fuel i pg count) (λ bs st', reads st st' ∧ bs = file_slice k pg count) st.
Proof.
  induction fuel as [|fuel IH]; intros pg count st Hinv Hi Hdir Hal Hpg Hc Hsz Hf; simpl read_aligned;
    destruct (Z.ltb_spec 0 count) as [H0|H0]; try lia.
  1,3: apply wpx_ret; replace count with 0 by lia; split; [by exists (drv st); destruct st|done].
  specialize (Hsz H0).
  apply wpx_bind. eapply wpx_mono; [apply (wpx_page i k pg st); (done || lia)|]. intros p st1 [Hr1 Hp].
  pose proof Hr1 as (f1 & -> & Hinv1 & Hid1). apply wpx_bind.
  set (n := Z.min PG_SZ count). assert (HPG : PG_SZ = 4096) by done. assert (0 < n ≤ count ∧ n ≤ PG_SZ) by lia.
  assert (Hrest : n = count ∨ n = PG_SZ) by lia.
  eapply wpx_mono; [apply (IH (pg + PG_SZ) (count - n)); simpl; try done; try lia|].
  { by rewrite Hid1. }
  { by rewrite <- Zplus_mod_idemp_r, Z_mod_same_full, Z.add_0_r. }
  intros rest st2 [Hr2 ->]. apply wpx_ret. split; [by eapply reads_trans|].
  rewrite (page_bytes_slice k pg 0 n p Hp), Z.add_0_r by lia.
  replace count with (n + (count - n)) at 2 by lia. rewrite (file_slice_app k pg n) by lia. f_equal.
  destruct Hrest as [->| ->]; [by rewrite Z.sub_diag|done].
Qed.

Lemma reads_ok kr ext st st' : vfs_ok kr ext st → reads st st' → vfs_ok kr ext st' ∧ grows st st'.
Proof. intros Hok (f' & -> & Hinv & Hid). by apply vfs_ok_drv. Qed.

Lemma wpx_inode_read kr ext st i k off count : vfs_ok kr ext st → fd_id (drv st) i = Some k →
  0 ≤ off < 2 ^ 64 → 0 ≤ count →
  wpx oom_only (inode_read i off count Ok) (λ r st', reads st st' ∧
    r = if isdir k then (None, IsDirectory)
        else (Some (file_slice k off (Z.min count (fsize k - off))), Ok)) st.
Proof.
  intros [Hs _] Hi Hoff Hc. pose proof (t_drv _ _ _ _ _ _ _ Hs) as Hinv. unfold inode_read.
  destruct (fd_size_spec _ _ _ Hinv Hi) as [Hsz Hb]. assert (Hrefl : reads st st) by (exists (drv st); by destruct st).
  apply wpx_bind, wpx_get. rewrite (fd_is_directory_spec _ _ _ Hinv Hi), Hsz.
  destruct (isdir k) eqn:Hdir; [by apply wpx_ret|].
  destruct (Z.leb_spec (fsize k) off) as [Hle|Hlt]; simpl orb; cbv iota.
  { apply wpx_ret. split; [done|]. unfold file_slice. by replace (Z.to_nat _) with 0%nat by lia. }
  destruct (Z.eqb_spec count 0) as [->|Hnz].
  { apply wpx_ret. split; [done|]. unfold file_slice. by replace (Z.to_nat _) with 0%nat by lia. }
  set (n := Z.min count (fsize k - off)). assert (HPG : PG_SZ = 4096) by done.
  destruct (floor_pow2_le 12 off ltac:(lia) Hoff) as (Hfl & Hal & Hge).
  change (2 ^ 12) with PG_SZ in *.
  destruct (Z.eqb_spec (floor_pow2 PG_SZ off) off) as [He|He]; simpl negb; cbv iota.
  - apply wpx_bind. rewrite He in *.
    eapply wpx_mono; [apply (wpx_read_aligned i k (Z.to_nat n) off n); (done || lia)|].
    intros bs st' [Hr ->]. by apply wpx_ret.
  - apply wpx_bind. eapply wpx_mono; [apply (wpx_page i k (floor_pow2 PG_SZ off)); (done || lia)|].
    intros pg st1 [Hr1 Hpg]. pose proof Hr1 as (f1 & -> & Hinv1 & Hid1). apply wpx_bind.
    assert (Hmod : off mod PG_SZ = off - floor_pow2 PG_SZ off).
    { rewrite <- (Z.mod_small (off - floor_pow2 PG_SZ off) PG_SZ) by lia.
      by rewrite <- Zminus_mod_idemp_r, Hal, Z.sub_0_r. }
    rewrite Hmod. set (o := off - floor_pow2 PG_SZ off) in *. set (n1 := Z.min (PG_SZ - o) n).
    eapply wpx_mono; [apply (wpx_read_aligned i k (Z.to_nat n) (floor_pow2 PG_SZ off + PG_SZ) (n - n1));
      simpl; try done; try lia|].
    { by rewrite Hid1. }
    { by rewrite <- Zplus_mod_idemp_r, Z_mod_same_full, Z.add_0_r. }
    intros rest st2 [Hr2 ->]. apply wpx_ret. split; [by eapply reads_trans|]. do 2 f_equal.
    rewrite (page_bytes_slice k (floor_pow2 PG_SZ off) o n1 pg Hpg) by lia.
    replace (floor_pow2 PG_SZ off + o) with off by lia.
    replace n with (n1 + (n - n1)) at 2 by lia. rewrite file_slice_app by lia. f_equal.
    destruct (Z.le_ge_cases n (PG_SZ - o)).
    + by replace (n - n1) with 0 by lia.
    + f_equal. lia.
Qed.

(** [File] and [~File] *)
Lemma wp_new_file kr ext st a ks : vfs_ok kr ext st → denotes st a ks →
  wp (new_file a) (λ fl st', fl = MkFile (Some a) 0 0 ∧ vfs_ok kr (bump a 1 ext) st' ∧ grows st st') st.
Proof.
  intros Hok Hden. destruct (denotes_live _ _ _ Hden) as (d & _ & _ & Hd & _ & _). unfold new_file, dentry_inc_rc.
  apply wp_bind, wp_bind. eapply wp_get_dent; [done|]. apply wp_set_dent, wp_ret. split; [done|].
  assert (0 ≤ ext a + 1) by (destruct Hok as [_ Hc]; destruct (t_ext _ _ _ Hc a); lia).
  split; [by apply tree_ok_rc|]. split; [done|]. simpl. intros b db Hb.
  destruct (decide (b = a)) as [->|Hn]; [rewrite lookup_insert_eq|rewrite lookup_insert_ne by done]; [|eauto].
  assert (db = d) as -> by congruence. eauto.
Qed.

Lemma wp_file_dtor kr ext st a (fl : File) : vfs_ok kr ext st → f_dentry fl = Some a → 0 < ext a →
  wp (file_dtor fl) (λ _ st', vfs_ok kr (bump a (-1) ext) st' ∧
    ∀ b ks, is_Some (dents st' !! b) → denotes st b ks → denotes st' b ks) st.
Proof.
  intros Hok Hf Hext. unfold file_dtor. rewrite Hf. apply wp_bind, wp_get, wp_bind.
  eapply wp_mono; [eapply wp_dentry_dec_rc; [by apply vfs_ok_part|done|done]|].
  intros _ st' (Hr & L & C & [-> Hok']%part_vfs_ok & Hk). apply wp_ret. split; [done|].
  intros b ks Hb Hden. by eapply denotes_kept.
Qed.

Lemma wpx_pathname_lookup kr ext path (st : vfs F) :
  vfs_ok kr ext st → Forall (λ x, 0 < x < 256) path →
  let res := resolve [kr] (components path) in
  wpx (may_fail res) (pathname_lookup path Ok)
    (λ r st', vfs_ok kr ext st' ∧ grows st st' ∧ resolves res r st') st.
Proof.
  intros Hok Hp. unfold pathname_lookup. apply wpx_bind, wpx_get. apply wpx_lookup_loop; [done| |done|lia].
  destruct Hok as [Hs _]. destruct (t_root _ _ _ _ _ _ _ Hs) as (t & (d & Hd & ->)%shape_lookup_inv & Hpar & Hk).
  by apply (den_root st d).
Qed.

(** C11: [pathname_lookup] with its dentry cache resolves a path as the
    tree on disk does: empty components and [.] are skipped, [..] goes to
    the parent and stays at the root, a component that is not there gives
    [FileNotFound]; the cache and the counts stay consistent and no
    dentry in use changes.  A path that goes on below a regular file stops
    the kernel at the driver's assertion, and there is no other failure
    than running out of memory. *)
Theorem pathname_lookup_resolves kr ext path (st : vfs F) :
  vfs_ok kr ext st → Forall (λ x, 0 < x < 256) path →
  let res := resolve [kr] (components path) in
  wpx (may_fail res) (pathname_lookup path Ok)
    (λ r st', vfs_ok kr ext st' ∧ grows st st' ∧ resolves res r st') st.
Proof. exact (wpx_pathname_lookup kr ext path st). Qed.

(** C32: [Inode::read] returns [IsDirectory] for a directory, and else the
    bytes of the file from the offset, as many as were asked for and the
    file has; the only failure is running out of memory. *)
Theorem inode_read_slice kr ext (st : vfs F) i k off count :
  vfs_ok kr ext st → fd_id (drv st) i = Some k → 0 ≤ off < 2 ^ 64 → 0 ≤ count →
  wpx oom_only (inode_read i off count Ok) (λ r st', vfs_ok kr ext st' ∧ grows st st' ∧
    r = if isdir k then (None, IsDirectory)
        else (Some (file_slice k off (Z.min count (fsize k - off))), Ok)) st.
Proof.
  intros Hok Hi Ho Hc. eapply wpx_mono; [by eapply wpx_inode_read|]. intros r st' [Hr ->].
  destruct (reads_ok kr ext st st' Hok Hr). auto.
Qed.

(** [fs::init] *)
Definition root_dentry (i : Z) : Dentry := Dent i None [] root_name false 1.
Lemma vfs_init_run f i : vfs_init f i = Ret (Vfs f (<[i := 1]> ∅) (<[1 := root_dentry i]> ∅) ∅ 1 2).
Proof. reflexivity. Qed.
Lemma vfs_init_ok kr f i st : fd_inv f → fd_id f i = Some kr → vfs_init f i = Ret st → vfs_ok kr (λ _, 0) st.
Proof.
  intros Hinv Hi. rewrite vfs_init_run. intros [= <-]. unfold vfs_ok.
  set (d := root_dentry i). cbn [drv irc dents dcache root dbrk]. set (L := <[1 := d]> (∅ : gmap Z Dentry)).
  assert (HL : ∀ a e, L !! a = Some e → a = 1 ∧ e = d).
  { intros a e [[<- <-]|[_ H]]%lookup_insert_Some; [done|]. by rewrite lookup_empty in H. }
  split; [split|split].
  - done.
  - exists (shape d). by rewrite (shape_lookup L 1 d).
  - intros a Ha. unfold L. by rewrite lookup_fmap, lookup_insert_ne by lia.
  - intros a t (e & [-> ->]%HL & ->)%shape_lookup_inv. eauto.
  - by intros a t (e & [-> ->]%HL & ->)%shape_lookup_inv.
  - intros p c a H. by rewrite lookup_empty in H.
  - intros j. unfold L. rewrite fmap_insert, fmap_empty, inode_refs_insert by apply lookup_empty. cbn.
    destruct (Z.eqb_spec i j) as [->|Hne]; [by rewrite lookup_insert_eq|by rewrite lookup_insert_ne].
  - intros a. split; [lia|lia].
  - intros p dp [-> ->]%HL. split; [constructor|]. intros a. split; [by intros ?%elem_of_nil|].
    by intros (e & [-> ->]%HL & ?).
  - by intros p dp [-> ->]%HL.
Qed.
End tree.

(** ** A driver over a fixed tree

    [/BIN/A] is a file of [size] bytes; an inode's address is the object. *)
Definition demo_child (k : Z) (name : list Z) : option Z :=
  if (k =? 1) && bool_decide (name = [66; 73; 78]) then Some 2
  else if (k =? 2) && bool_decide (name = [65]) then Some 3 else None.
Definition demo_id (s : gset Z) (a : Z) : option Z := if decide (a ∈ s) then Some a else None.
Definition demo_lookup (a : Z) (name : list Z) (res : Result) : M (gset Z) (option Z * Result) := λ s,
  if a =? 3 then Halt AssertFail
  else match demo_child a name with
       | None => Ret ((None, FileNotFound), s)
       | Some k => Ret ((Some k, res), {[k]} ∪ s)
       end.
Lemma demo_id_some s a k : demo_id s a = Some k → k = a ∧ a ∈ s.
Proof. unfold demo_id. case_decide; naive_solver. Qed.

#[program] Definition tree_fs (size : Z) (contents : Z → Z) (Hsize : 0 ≤ size < 2 ^ 31) : FsDriver (gset Z) := {|
  fd_lookup := demo_lookup;
  fd_delete a := λ s, Ret (tt, s ∖ {[a]});
  fd_is_directory _ a := negb (a =? 3);
  fd_size _ a := if a =? 3 then size else 0;
  fd_page _ off := λ s, Ret ((λ i, contents (off + i)), s);
  fd_creat _ _ := mret Unsupported;
  fd_inv _ := True;
  fd_id := demo_id;
  child := demo_child;
  isdir k := negb (k =? 3);
  fsize k := if k =? 3 then size else 0;
  fbyte _ i := contents i;
  fd_oom := False |}.
Next Obligation. by intros ??? s a k _ [-> _]%demo_id_some. Qed.
Next Obligation. intros ??? s a k _ [-> _]%demo_id_some. destruct (a =? 3); lia. Qed.
Next Obligation.
  intros ??? s a k name res _ [-> Ha]%demo_id_some Hd. unfold wpx, demo_lookup.
  destruct (a =? 3); [done|]. destruct (demo_child a name) as [k'|].
  - split; [done|]. split.
    + intros b [k [_ Hb]%demo_id_some]. unfold demo_id. by rewrite !decide_True by set_solver.
    + exists k'. split; [done|]. unfold demo_id. by rewrite decide_True by set_solver.
  - done.
Qed.
Next Obligation.
  intros ??? s a k name res _ [-> Ha]%demo_id_some Hd. unfold demo_lookup. by destruct (a =? 3).
Qed.
Next Obligation.
  intros ??? s a k _ _. unfold wp, demo_id. split; [done|]. split; [by rewrite decide_False by set_solver|].
  intros b Hb. repeat case_decide; set_solver.
Qed.
Next Obligation. done. Qed.

(** A file of 5000 bytes *)
#[local] Instance demo_fs : FsDriver (gset Z) := tree_fs 5000 (λ i, i mod 251) ltac:(lia).

Definition demo_vfs : vfs (gset Z) := Vfs {[1]} (<[1 := 1]> ∅) (<[1 := root_dentry 1]> ∅) ∅ 1 2.
Lemma demo_vfs_ok : vfs_ok 1 (λ _, 0) demo_vfs.
Proof. by apply (vfs_init_ok 1 {[1]} 1); [done|vm_compute|apply vfs_init_run]. Qed.

(** [/./BIN//../BIN/A] is the file. *)
Definition demo_path : list Z := [47; 46; 47; 66; 73; 78; 47; 47; 46; 46; 47; 66; 73; 78; 47; 65].
Lemma pathname_lookup_resolves_witness :
  ∃ a st, pathname_lookup demo_path Ok demo_vfs = Ret ((Some a, Ok), st) ∧ denotes st a [3; 2; 1].
Proof.
  assert (Hr : is_ret (pathname_lookup demo_path Ok demo_vfs) = true) by (vm_compute; reflexivity).
  assert (Hres : resolve [1] (components demo_path) = Found [3; 2; 1]) by (vm_compute; reflexivity).
  assert (Hp : Forall (λ x, 0 < x < 256) demo_path) by (repeat (constructor; [lia|]); constructor).
  destruct (wpx_run _ _ _ _ (pathname_lookup_resolves 1 (λ _, 0) demo_path demo_vfs demo_vfs_ok Hp) Hr)
    as (r & st & Hrun & _ & _ & H).
  rewrite Hres in H. destruct H as (a & -> & Hd). exists a, st. exact (conj Hrun Hd).
Defined.

Definition demo_vfs_read : vfs (gset Z) := Vfs {[1; 3]} (<[1 := 1]> ∅) (<[1 := root_dentry 1]> ∅) ∅ 1 2.
Lemma demo_vfs_read_ok : vfs_ok 1 (λ _, 0) demo_vfs_read ∧ fd_id (drv demo_vfs_read) 3 = Some 3.
Proof. split; [apply (vfs_init_ok 1 {[1; 3]} 1); [done|vm_compute; done|apply vfs_init_run]|by vm_compute]. Qed.

Lemma inode_read_slice_witness :
  ∃ st', inode_read 3 4990 2000 Ok demo_vfs_read = Ret ((Some (file_slice 3 4990 10), Ok), st').
Proof.
  destruct demo_vfs_read_ok as [Hok Hi].
  assert (Hr : is_ret (inode_read 3 4990 2000 Ok demo_vfs_read) = true) by (vm_compute; reflexivity).
  destruct (wpx_run _ _ _ _ (inode_read_slice 1 (λ _, 0) demo_vfs_read 3 3 4990 2000 Hok Hi ltac:(lia) ltac:(lia)) Hr)
    as (r & st' & Hrun & _ & _ & H).
  exists st'. rewrite Hrun. f_equal. f_equal. exact H.
Defined.
