(* ===== verification/Elf.v ===== *)
(** * ELF executables

    Models [proc/elf.{h,cc}].  The image is the list of the bytes read
    from the file; a header or a table entry is the record of the fields
    the C++ structure overlays on those bytes. *)
From S2P Require Import Prelude Libc Console Fat32.

Module ELFHeader.
Definition expected_magic : Z := 0x464c457F.
Definition expected_class : Z := 0x01.
Definition expected_endian : Z := 0x01.
Definition expected_version : Z := 0x01.
Definition expected_os_abi : Z := 0x00.
Definition expected_type : Z := 0x02.
Definition expected_machine : Z := 0x03.
Definition expected_ehsize : Z := 0x34.
Definition expected_phentsize : Z := 0x20.
Definition expected_shentsize : Z := 0x28.

Record Header := Hdr {
  magic : Z; class_ : Z; endian : Z; version : Z; os_abi : Z; abi_version : Z; rsv0 : Z;
  type : Z; machine : Z; version2 : Z; entry : Z; phoff : Z; shoff : Z; flags : Z;
  ehsize : Z; phentsize : Z; phnum : Z; shentsize : Z; shnum : Z; shstrndx : Z }.

Definition validate (h : Header) : bool :=
  (magic h =? expected_magic) && (class_ h =? expected_class) && (endian h =? expected_endian) &&
  (version h =? expected_version) && (os_abi h =? expected_os_abi) && (type h =? expected_type) &&
  (machine h =? expected_machine) && (ehsize h =? expected_ehsize) &&
  (phentsize h =? expected_phentsize) && (shentsize h =? expected_shentsize) && negb (entry h =? 0).

(** The widths of the fields, in bytes and in order. *)
Definition hdr_widths : list nat := [4; 1; 1; 1; 1; 1; 7; 2; 2; 4; 4; 4; 4; 4; 2; 2; 2; 2; 2; 2]%nat.
Definition hdr_fields (h : Header) : list Z :=
  [magic h; class_ h; endian h; version h; os_abi h; abi_version h; rsv0 h; type h; machine h; version2 h;
   entry h; phoff h; shoff h; flags h; ehsize h; phentsize h; phnum h; shentsize h; shnum h; shstrndx h].
Definition hdr_of (l : list Z) : Header :=
  let f i := nth (Z.to_nat i) l 0 in
  Hdr (f 0) (f 1) (f 2) (f 3) (f 4) (f 5) (f 6) (f 7) (f 8) (f 9) (f 10) (f 11) (f 12) (f 13) (f 14)
    (f 15) (f 16) (f 17) (f 18) (f 19).
End ELFHeader.

Module PHEntry.
Definition Load : Z := 0x01.
Definition flag_executable : Z := 0x01.
Definition flag_writable : Z := 0x02.
Definition flag_readable : Z := 0x04.

Record Entry := Ph { type : Z; offset : Z; vaddr : Z; paddr : Z; filesz : Z; memsz : Z; flags : Z; align : Z }.
Definition executable (p : Entry) : bool := negb (Z.land (flags p) flag_executable =? 0).
Definition writable (p : Entry) : bool := negb (Z.land (flags p) flag_writable =? 0).
Definition readable (p : Entry) : bool := negb (Z.land (flags p) flag_readable =? 0).

Definition ph_widths : list nat := [4; 4; 4; 4; 4; 4; 4; 4]%nat.
Definition ph_fields (p : Entry) : list Z :=
  [type p; offset p; vaddr p; paddr p; filesz p; memsz p; flags p; align p].
Definition ph_of (l : list Z) : Entry :=
  let f i := nth (Z.to_nat i) l 0 in Ph (f 0) (f 1) (f 2) (f 3) (f 4) (f 5) (f 6) (f 7).
End PHEntry.

(** A little-endian structure laid over bytes. *)
Fixpoint overlay (ws : list nat) (img : list Z) : list Z :=
  match ws with
  | [] => []
  | w :: ws => le_val (take w img) :: overlay ws (drop w img)
  end.
Definition hdr_at (img : list Z) : ELFHeader.Header := ELFHeader.hdr_of (overlay ELFHeader.hdr_widths img).
(** [ph_table[i]]; [None] is a read past the end of the image. *)
Definition ph_at (img : list Z) (phoff i : Z) : option PHEntry.Entry :=
  let off := phoff + i * ELFHeader.expected_phentsize in
  if off + ELFHeader.expected_phentsize <=? zlen img
  then Some (PHEntry.ph_of (overlay PHEntry.ph_widths (drop (Z.to_nat off) img))) else None.

(** The image's header and the offset of its table, when there is one. *)
Record ELFExecutable := Exe { hdr : ELFHeader.Header; ph_table : Z }.
Definition parse_executable (elf_image : list Z) : outcome (Result * option ELFExecutable) :=
  _ ← assert_ (ELFHeader.expected_ehsize <=? zlen elf_image);
  let h := hdr_at elf_image in
  if negb (ELFHeader.validate h) then Ret (NonExecutable, None)
  else
    _ ← assert_ (u32 (ELFHeader.phoff h + ELFHeader.phnum h * ELFHeader.phentsize h) <=? zlen elf_image);
    Ret (Ok, Some (Exe h (ELFHeader.phoff h))).

(** ** The file format: the specification

    The header and the program headers of an ELF32 file, byte by byte as the
    format defines them: little-endian fields one after the other, the
    identification in the first 16 bytes. *)
Definition bytes_le (n x : Z) : list Z := (λ i, x / 256 ^ i mod 256) <$> seqZ 0 n.
Definition encode_hdr (h : ELFHeader.Header) : list Z :=
  let e_ident := bytes_le 4 (ELFHeader.magic h) ++
    [ELFHeader.class_ h; ELFHeader.endian h; ELFHeader.version h; ELFHeader.os_abi h; ELFHeader.abi_version h] ++
    bytes_le 7 (ELFHeader.rsv0 h) in
  e_ident ++
  bytes_le 2 (ELFHeader.type h) ++ bytes_le 2 (ELFHeader.machine h) ++ bytes_le 4 (ELFHeader.version2 h) ++
  bytes_le 4 (ELFHeader.entry h) ++ bytes_le 4 (ELFHeader.phoff h) ++ bytes_le 4 (ELFHeader.shoff h) ++
  bytes_le 4 (ELFHeader.flags h) ++ bytes_le 2 (ELFHeader.ehsize h) ++ bytes_le 2 (ELFHeader.phentsize h) ++
  bytes_le 2 (ELFHeader.phnum h) ++ bytes_le 2 (ELFHeader.shentsize h) ++ bytes_le 2 (ELFHeader.shnum h) ++
  bytes_le 2 (ELFHeader.shstrndx h).
Definition encode_ph (p : PHEntry.Entry) : list Z :=
  bytes_le 4 (PHEntry.type p) ++ bytes_le 4 (PHEntry.offset p) ++ bytes_le 4 (PHEntry.vaddr p) ++ bytes_le 4 (PHEntry.paddr p) ++
  bytes_le 4 (PHEntry.filesz p) ++ bytes_le 4 (PHEntry.memsz p) ++ bytes_le 4 (PHEntry.flags p) ++ bytes_le 4 (PHEntry.align p).
Fixpoint encode_phs (phs : list PHEntry.Entry) : list Z :=
  match phs with
  | [] => []
  | p :: phs => encode_ph p ++ encode_phs phs
  end.
(** Fields within their widths *)
Definition bits (n x : Z) : Prop := 0 ≤ x < 2 ^ n.
Definition hdr_fits (h : ELFHeader.Header) : Prop :=
  Forall (bits 8) [ELFHeader.class_ h; ELFHeader.endian h; ELFHeader.version h; ELFHeader.os_abi h; ELFHeader.abi_version h] ∧
  bits 56 (ELFHeader.rsv0 h) ∧
  Forall (bits 16) [ELFHeader.type h; ELFHeader.machine h; ELFHeader.ehsize h; ELFHeader.phentsize h; ELFHeader.phnum h;
                    ELFHeader.shentsize h; ELFHeader.shnum h; ELFHeader.shstrndx h] ∧
  Forall (bits 32) [ELFHeader.magic h; ELFHeader.version2 h; ELFHeader.entry h; ELFHeader.phoff h; ELFHeader.shoff h; ELFHeader.flags h].
Definition ph_fits (p : PHEntry.Entry) : Prop :=
  Forall (bits 32) [PHEntry.type p; PHEntry.offset p; PHEntry.vaddr p; PHEntry.paddr p; PHEntry.filesz p; PHEntry.memsz p;
                    PHEntry.flags p; PHEntry.align p].
(** A 32-bit little-endian System V executable for x86: the identification
    is 7F 45 4C 46 01 01 01 00 *)
Definition elf_executable (h : ELFHeader.Header) : Prop :=
  take 8 (encode_hdr h) = [0x7F; 0x45; 0x4C; 0x46; 1; 1; 1; 0] ∧ ELFHeader.type h = 2 ∧ ELFHeader.machine h = 3 ∧
  ELFHeader.ehsize h = 52 ∧ ELFHeader.phentsize h = 32 ∧ ELFHeader.shentsize h = 40 ∧ ELFHeader.entry h ≠ 0.

(** ** The overlay reads it *)
Fixpoint encode (ws : list nat) (fs : list Z) : list Z :=
  match ws, fs with
  | w :: ws, f :: fs => le_bytes w f ++ encode ws fs
  | _, _ => []
  end.
Definition fits (ws : list nat) (fs : list Z) : Prop :=
  Forall2 (λ (w : nat) f, 0 ≤ f < 256 ^ Z.of_nat w) ws fs.

Lemma encode_length ws fs : length fs = length ws → length (encode ws fs) = list_sum ws.
Proof.
  revert fs. induction ws as [|w ws IH]; intros [|f fs]; try done. simpl. intros [= Hl].
  rewrite length_app, le_bytes_length, IH by done. done.
Qed.
Lemma overlay_encode ws fs rest : fits ws fs → overlay ws (encode ws fs ++ rest) = fs.
Proof.
  induction 1 as [|w f ws fs Hf Hfs IH]; [done|]. simpl. rewrite <- app_assoc.
  rewrite take_app_length', drop_app_length' by (by rewrite le_bytes_length). by rewrite le_val_bytes, IH.
Qed.

Lemma bytes_le_eq n : ∀ x, bytes_le (Z.of_nat n) x = le_bytes n x.
Proof.
  induction n as [|n IH]; intros x; [done|]. unfold bytes_le. rewrite seqZ_cons, fmap_cons by lia. cbn [le_bytes]. f_equal.
  - by rewrite Z.pow_0_r, Z.div_1_r.
  - rewrite <- IH. unfold bytes_le. replace (Z.pred (Z.of_nat (S n))) with (Z.of_nat n) by lia.
    replace (seqZ (Z.succ 0) (Z.of_nat n)) with (Z.add 1 <$> seqZ 0 (Z.of_nat n)) by (by rewrite fmap_add_seqZ).
    rewrite <- list_fmap_compose. apply list_fmap_ext. intros i y Hy%list_elem_of_lookup_2.
    apply elem_of_seqZ in Hy. cbn [compose]. rewrite Z.shiftr_div_pow2, Z.div_div by lia.
    by rewrite Z.pow_add_r by lia.
Qed.
Lemma byte_le x : bits 8 x → [x] = le_bytes 1 x.
Proof. intros Hx. cbn [le_bytes]. by rewrite wrap_small. Qed.
Lemma encode_hdr_eq h : hdr_fits h → encode_hdr h = encode ELFHeader.hdr_widths (ELFHeader.hdr_fields h).
Proof.
  intros (H8 & _). rewrite !Forall_cons in H8. destruct H8 as (H1 & H2 & H3 & H4 & H5 & _).
  unfold encode_hdr, ELFHeader.hdr_widths, ELFHeader.hdr_fields. cbn [encode].
  change (bytes_le 7) with (bytes_le (Z.of_nat 7)). change (bytes_le 4) with (bytes_le (Z.of_nat 4)). change (bytes_le 2) with (bytes_le (Z.of_nat 2)).
  rewrite !bytes_le_eq, app_nil_r, <- !app_assoc. f_equal.
  by rewrite <- !byte_le.
Qed.
Lemma encode_ph_eq p : encode_ph p = encode PHEntry.ph_widths (PHEntry.ph_fields p).
Proof.
  unfold encode_ph, PHEntry.ph_widths, PHEntry.ph_fields. cbn [encode]. change (bytes_le 4) with (bytes_le (Z.of_nat 4)).
  by rewrite !bytes_le_eq, app_nil_r.
Qed.
Lemma hdr_fits_widths h : hdr_fits h → fits ELFHeader.hdr_widths (ELFHeader.hdr_fields h).
Proof.
  intros (H8 & H56 & H16 & H32). rewrite !Forall_cons in *. destruct_and!.
  unfold bits in *. repeat (constructor; [done|]). constructor.
Qed.
Lemma ph_fits_widths p : ph_fits p → fits PHEntry.ph_widths (PHEntry.ph_fields p).
Proof.
  unfold ph_fits. rewrite !Forall_cons. intros H. destruct_and!. unfold bits in *. repeat (constructor; [done|]). constructor.
Qed.

Lemma encode_hdr_length h : zlen (encode_hdr h) = 52.
Proof. reflexivity. Qed.
Lemma encode_phs_length phs : zlen (encode_phs phs) = 32 * zlen phs.
Proof.
  induction phs as [|p phs IH]; [done|]. cbn [encode_phs]. rewrite length_app, Nat2Z.inj_add, IH.
  change (zlen (encode_ph p)) with 32. simpl length. lia.
Qed.
Lemma encode_phs_app l k : encode_phs (l ++ k) = encode_phs l ++ encode_phs k.
Proof. induction l as [|p l IH]; [done|]. cbn [app encode_phs]. by rewrite IH, app_assoc. Qed.
Lemma hdr_at_encode h rest : hdr_fits h → hdr_at (encode_hdr h ++ rest) = h.
Proof.
  intros Hf. unfold hdr_at. rewrite encode_hdr_eq by done. rewrite overlay_encode by (by apply hdr_fits_widths). by destruct h.
Qed.

Lemma ph_at_encode pre phs rest i p :
  phs !! i = Some p → ph_fits p →
  ph_at (pre ++ encode_phs phs ++ rest) (zlen pre) (Z.of_nat i) = Some p.
Proof.
  intros Hi Hp. unfold ph_at. pose proof (lookup_lt_Some _ _ _ Hi) as Hlt.
  change ELFHeader.expected_phentsize with 32.
  destruct (Z.leb_spec (zlen pre + Z.of_nat i * 32 + 32) (zlen (pre ++ encode_phs phs ++ rest))) as [_|Hbad].
  2:{ rewrite !length_app, !Nat2Z.inj_add, encode_phs_length in Hbad. lia. }
  f_equal. rewrite <- (take_drop_middle phs i p Hi) at 1. rewrite encode_phs_app. cbn [encode_phs].
  rewrite <- !app_assoc, (app_assoc pre), drop_app_length'.
  2:{ pose proof (encode_phs_length (take i phs)) as H. rewrite length_app. rewrite length_take in H. lia. }
  rewrite encode_ph_eq, overlay_encode by (by apply ph_fits_widths). by destruct p.
Qed.

(** [validate] accepts the headers of executables. *)
Lemma magic_bytes m : bits 32 m → bytes_le 4 m = [0x7F; 0x45; 0x4C; 0x46] ↔ m = ELFHeader.expected_magic.
Proof.
  intros Hm. split; [|by intros ->]. intros Hb. change 4 with (Z.of_nat 4) in Hb. rewrite bytes_le_eq in Hb.
  rewrite <- (le_val_bytes 4 m) by exact Hm. rewrite Hb. reflexivity.
Qed.
Lemma validate_iff h : hdr_fits h → ELFHeader.validate h = true ↔ elf_executable h.
Proof.
  intros (_ & _ & _ & H32). rewrite !Forall_cons in H32. destruct H32 as (Hm & _).
  assert (Ht : take 8 (encode_hdr h) = bytes_le 4 (ELFHeader.magic h) ++
    [ELFHeader.class_ h; ELFHeader.endian h; ELFHeader.version h; ELFHeader.os_abi h]) by reflexivity.
  unfold elf_executable. rewrite Ht. change [0x7F; 0x45; 0x4C; 0x46; 1; 1; 1; 0] with ([0x7F; 0x45; 0x4C; 0x46] ++ [1; 1; 1; 0]).
  assert (Hsplit : bytes_le 4 (ELFHeader.magic h) ++ [ELFHeader.class_ h; ELFHeader.endian h; ELFHeader.version h; ELFHeader.os_abi h] =
    [0x7F; 0x45; 0x4C; 0x46] ++ [1; 1; 1; 0] ↔ bytes_le 4 (ELFHeader.magic h) = [0x7F; 0x45; 0x4C; 0x46] ∧
    ELFHeader.class_ h = 1 ∧ ELFHeader.endian h = 1 ∧ ELFHeader.version h = 1 ∧ ELFHeader.os_abi h = 0).
  { split; [|by intros (-> & -> & -> & -> & ->)]. intros [Hb Hr]%app_inj_1; [|done]. by injection Hr as -> -> -> ->. }
  rewrite Hsplit, magic_bytes by done. unfold ELFHeader.validate. rewrite !andb_true_iff, negb_true_iff, !Z.eqb_eq, Z.eqb_neq.
  unfold ELFHeader.expected_class, ELFHeader.expected_endian, ELFHeader.expected_version, ELFHeader.expected_os_abi, ELFHeader.expected_type,
    ELFHeader.expected_machine, ELFHeader.expected_ehsize, ELFHeader.expected_phentsize, ELFHeader.expected_shentsize. tauto.
Qed.

(** C34: parsing an image made of an ELF32 header, [phoff - 52] bytes, the
    program headers and more bytes, all laid out byte by byte as the ELF
    format defines them: if the header is that of a 32-bit little-endian
    System V executable for x86 with an entry point, the header found is the
    one encoded and every program header is found, in order, inside the
    image; if it is not, the image is refused as [NonExecutable]. *)
Theorem elf_roundtrip h gap phs rest :
  hdr_fits h → Forall ph_fits phs →
  ELFHeader.phoff h = 52 + zlen gap → ELFHeader.phnum h = zlen phs →
  let img := encode_hdr h ++ gap ++ encode_phs phs ++ rest in
  zlen img < 2 ^ 32 →
  (elf_executable h →
     parse_executable img = Ret (Ok, Some (Exe h (ELFHeader.phoff h))) ∧
     ∀ i p, phs !! i = Some p → ph_at img (ELFHeader.phoff h) (Z.of_nat i) = Some p) ∧
  (¬ elf_executable h → parse_executable img = Ret (NonExecutable, None)).
Proof.
  intros Hf Hp Hoff Hnum img Hsz.
  assert (Hlen : zlen img = 52 + zlen gap + 32 * zlen phs + zlen rest).
  { unfold img. rewrite !length_app, !Nat2Z.inj_add, encode_hdr_length, encode_phs_length. lia. }
  assert (Hl : (ELFHeader.expected_ehsize <=? zlen img) = true) by (apply Z.leb_le; rewrite Hlen; unfold ELFHeader.expected_ehsize; lia).
  assert (Hh : hdr_at img = h) by (by apply hdr_at_encode).
  unfold parse_executable. rewrite Hl, Hh. cbn [assert_ mbind outcome_bind]. split.
  - intros Hx. pose proof Hx as (_ & _ & _ & _ & Hpe & _). apply (validate_iff h Hf) in Hx. rewrite Hx. cbn [negb]. split.
    + assert ((u32 (ELFHeader.phoff h + ELFHeader.phnum h * ELFHeader.phentsize h) <=? zlen img) = true) as ->; [|done].
      rewrite Hpe, Hoff, Hnum. rewrite wrap_small by lia. apply Z.leb_le. lia.
    + intros i p Hi. rewrite Hoff. unfold img. rewrite app_assoc.
      replace (52 + zlen gap) with (zlen (encode_hdr h ++ gap)) by (rewrite length_app, Nat2Z.inj_add, encode_hdr_length; lia).
      apply ph_at_encode; [done|]. by eapply Forall_lookup_1.
  - intros Hx. destruct (ELFHeader.validate h) eqn:Hv; [|done]. by apply (validate_iff h Hf) in Hv.
Qed.

Definition demo_hdr : ELFHeader.Header :=
  ELFHeader.Hdr 0x464c457F 1 1 1 0 0 0 2 3 1 0x08048000 52 0 0 0x34 0x20 1 0x28 0 0.
Definition demo_ph : PHEntry.Entry := PHEntry.Ph 1 0x1000 0x08048000 0 0x1234 0x2345 5 0x1000.
Lemma elf_roundtrip_witness :
  let img := encode_hdr demo_hdr ++ [] ++ encode_phs [demo_ph] ++ [1; 2; 3] in
  parse_executable img = Ret (Ok, Some (Exe demo_hdr 52)) ∧ ph_at img 52 0 = Some demo_ph.
Proof.
  assert (Hf : hdr_fits demo_hdr).
  { split; [|split; [split; [done|vm_compute; done]|split]]; repeat (constructor; [split; [done|vm_compute; done]|]); constructor. }
  assert (Hp : Forall ph_fits [demo_ph]).
  { constructor; [|constructor]. repeat (constructor; [split; [done|vm_compute; done]|]); constructor. }
  assert (Hsz : zlen (encode_hdr demo_hdr ++ [] ++ encode_phs [demo_ph] ++ [1; 2; 3]) < 2 ^ 32) by (vm_compute; reflexivity).
  destruct (elf_roundtrip demo_hdr [] [demo_ph] [1; 2; 3] Hf Hp eq_refl eq_refl Hsz) as [H _].
  destruct H as [H1 H2]; [split; [vm_compute; reflexivity|repeat split; discriminate]|].
  split; [exact H1|exact (H2 0%nat demo_ph eq_refl)].
Defined.

(** What [parse_executable] does on every image: one too short for
    a header stops at the assertion, a header with a wrong field is
    [NonExecutable], and else the table must lie in the image, up to the
    32-bit wrap-around of its end. *)
Theorem parse_executable_cases img :
  match parse_executable img with
  | Halt f => f = AssertFail ∧ (zlen img < 52 ∨ ELFHeader.validate (hdr_at img) = true ∧
      zlen img < u32 (ELFHeader.phoff (hdr_at img) + 32 * ELFHeader.phnum (hdr_at img)))
  | Ret (NonExecutable, r) => 52 ≤ zlen img ∧ ELFHeader.validate (hdr_at img) = false ∧ r = None
  | Ret (Ok, Some x) => 52 ≤ zlen img ∧ ELFHeader.validate (hdr_at img) = true ∧
      x = Exe (hdr_at img) (ELFHeader.phoff (hdr_at img)) ∧
      (ELFHeader.phoff (hdr_at img) + 32 * ELFHeader.phnum (hdr_at img) < 2 ^ 32 → 0 ≤ ELFHeader.phoff (hdr_at img) →
       ∀ i, 0 ≤ i < ELFHeader.phnum (hdr_at img) → is_Some (ph_at img (ph_table x) i))
  | _ => False
  end.
Proof.
  unfold parse_executable. unfold assert_, mbind, outcome_bind. change ELFHeader.expected_ehsize with 52.
  destruct (Z.leb_spec 52 (zlen img)) as [Hl|Hl]; cbv iota; [|auto].
  destruct (ELFHeader.validate (hdr_at img)) eqn:Hv; cbv beta iota zeta delta [negb]; [|done].
  assert (Hpe : ELFHeader.phentsize (hdr_at img) = 32).
  { unfold ELFHeader.validate in Hv. rewrite !andb_true_iff in Hv. destruct Hv as [[[_ He] _] _]. by apply Z.eqb_eq in He. }
  rewrite Hpe, (Z.mul_comm _ 32).
  set (e := ELFHeader.phoff (hdr_at img) + 32 * ELFHeader.phnum (hdr_at img)).
  destruct (Z.leb_spec (u32 e) (zlen img)) as [Hb|Hb]; cbv iota; [|auto].
  repeat (split; [done|]). intros He H0 i Hi. cbn [ph_table]. unfold ph_at. change ELFHeader.expected_phentsize with 32.
  rewrite wrap_small in Hb by lia.
  destruct (Z.leb_spec (ELFHeader.phoff (hdr_at img) + i * 32 + 32) (zlen img)) as [_|Hbad]; [done|lia].
Qed.

(** The end of the table wraps: a table said to start at the end of the
    address space passes the check and its entry is outside the image. *)
Example table_end_wraps :
  let h := ELFHeader.Hdr 0x464c457F 1 1 1 0 0 0 2 3 1 0x08048000 (2 ^ 32 - 32) 0 0 0x34 0x20 1 0x28 0 0 in
  parse_executable (encode_hdr h) = Ret (Ok, Some (Exe h (2 ^ 32 - 32))) ∧ ph_at (encode_hdr h) (2 ^ 32 - 32) 0 = None.
Proof. vm_compute. auto. Qed.
