(* ===== verification/Process.v ===== *)
(** * Processes

    Models [proc/process.{h,cc}] and the page-fault and system-call
    handlers of [arch/x86/isrs.cc]: the table of open files, the list of
    memory mappings, [mmap], loading an ELF executable, and the pages that
    faults bring in.

    [pages] are the user pages mapped so far with their contents, by page
    number; [stale vpn] is what the frame holds that the heap gives
    [vmalloc] for a page ([None] when there is none): [PageTable.v] shows
    that the frames are pairwise distinct, so the pages are separate.  The
    destination of [read] is the list of bytes read. *)
From stdpp Require Import sorting.
From S2P Require Import Prelude Algorithm Libc MemoryMap PageCache Fat32 Vfs Elf.

Record Access := Acc { executable : bool; writable : bool; readable : bool }.
Record Flags := Flg { map_anon : bool; map_private : bool }.
Record VMA := Vma {
  v_addr : Z; v_len : Z; v_prot : Access; v_flags : Flags;
  v_dentry : option Z; v_offset : Z }.
Inductive Seek := SeekSet | SeekCur | SeekEnd.
Definition InvalidFD : Z := 2 ^ 32 - 1.

Record upage := UPage { up_bytes : bytes; up_writable : bool; up_file : option (Z * Z) }.

Record proc (F : Type) := Proc {
  pvfs : vfs F;
  fds : list (option File);
  vmas : list VMA;
  pages : gmap Z upage;
  eip3 : Z;
  esp3 : Z;
  tid : option Z }.
Arguments Proc {F} pvfs fds vmas pages eip3 esp3 tid.
Arguments pvfs {F} _.
Arguments fds {F} _.
Arguments vmas {F} _.
Arguments pages {F} _.
Arguments eip3 {F} _.
Arguments esp3 {F} _.
Arguments tid {F} _.

(** [fds[fd]], when [fd] is open. *)
Definition entry_of {A} (fd : Z) (l : list (option A)) : option A :=
  if fd <? zlen l then mjoin (l !! Z.to_nat fd) else None.
Fixpoint first_free {A} (l : list (option A)) : option nat :=
  match l with
  | [] => None
  | None :: _ => Some O
  | Some _ :: l => S <$> first_free l
  end.

Section ops.
Context {F : Type} `{FD : FsDriver F} (stale : Z → option bytes).

Definition with_vfs (v : vfs F) (st : proc F) : proc F :=
  Proc v (fds st) (vmas st) (pages st) (eip3 st) (esp3 st) (tid st).
Definition with_fds (l : list (option File)) (st : proc F) : proc F :=
  Proc (pvfs st) l (vmas st) (pages st) (eip3 st) (esp3 st) (tid st).
Definition with_vmas (l : list VMA) (st : proc F) : proc F :=
  Proc (pvfs st) (fds st) l (pages st) (eip3 st) (esp3 st) (tid st).
Definition with_pages (m : gmap Z upage) (st : proc F) : proc F :=
  Proc (pvfs st) (fds st) (vmas st) m (eip3 st) (esp3 st) (tid st).
Definition on_vfs {A} : M (vfs F) A → M (proc F) A := on_part pvfs with_vfs.

(** ** Virtual memory areas *)
Definition VirtualMemoryArea_ctor (addr len : Z) (prot : Access) (flags : Flags) (dentry : option Z) (offset : Z)
    (res : Result) : M (vfs F) (VMA * Result) :=
  let this := Vma addr len prot flags dentry offset in
  if negb (Bool.eqb (bool_decide (dentry = None)) (map_anon flags)) then mret (this, InvalidArgs)
  else if negb (PG_ALIGNED addr) || negb (PG_ALIGNED offset) || (len =? 0) then mret (this, InvalidArgs)
  else
    _ ← match dentry with Some d => dentry_inc_rc d | None => mret tt end;
    mret (this, res).

(** A file that is kept by a [File] or an area. *)
Definition release (d : option Z) : M (vfs F) unit := file_dtor (MkFile d 0 0).
Definition VirtualMemoryArea_dtor (v : VMA) : M (vfs F) unit := release (v_dentry v).

(** ** File descriptors *)
Definition get_next_fd : M (proc F) nat :=
  st ← getS;
  match first_free (fds st) with
  | Some fd => mret fd
  | None => _ ← putS (with_fds (fds st ++ [None]) st); mret (length (fds st))
  end.

Definition set_fd (fd : nat) (f : option File) : M (proc F) unit :=
  st ← getS; putS (with_fds (<[fd := f]> (fds st)) st).

Definition open (path : list Z) (res : Result) : M (proc F) (Z * Result) :=
  '(dentry, res) ← on_vfs (pathname_lookup path res);
  match dentry with
  | None => mret (InvalidFD, res)
  | Some d =>
    fd ← get_next_fd;
    f ← on_vfs (new_file d);
    _ ← set_fd fd (Some f);
    mret (Z.of_nat fd, res)
  end.

Definition close (fd : Z) (res : Result) : M (proc F) Result :=
  st ← getS;
  match entry_of fd (fds st) with
  | None => mret BadFD
  | Some f => _ ← on_vfs (file_dtor f); _ ← set_fd (Z.to_nat fd) None; mret res
  end.

Definition lseek (fd offset : Z) (whence : Seek) (res : Result) : M (proc F) Result :=
  st ← getS;
  match entry_of fd (fds st) with
  | None => mret BadFD
  | Some f =>
    let cur := signed 64 (f_offset f) in
    match (match whence with
           | SeekSet => Some offset
           | SeekCur => Some (signed 64 (cur + offset))
           | SeekEnd => None
           end) with
    | None => mret Unsupported
    | Some new_seek =>
      if new_seek <? 0 then mret InvalidArgs
      else _ ← set_fd (Z.to_nat fd) (Some (MkFile (f_dentry f) new_seek (f_fd f))); mret res
    end
  end.

(** [None] is the return of -1. *)
Definition read (fd count : Z) (res : Result) : M (proc F) (option (list Z) * Result) :=
  st ← getS;
  match entry_of fd (fds st) with
  | None => mret (None, BadFD)
  | Some f =>
    d ← on_vfs (a ← liftO (deref (f_dentry f)); get_dent a);
    '(rval, res) ← on_vfs (inode_read (d_inode d) (u32 (f_offset f)) count res);
    _ ← assertM (xorb (bool_decide (rval = None)) (bool_decide (res = Ok)));
    _ ← match rval with
        | Some bs => if 0 <? zlen bs
                     then set_fd (Z.to_nat fd) (Some (MkFile (f_dentry f) (u64 (f_offset f + zlen bs)) (f_fd f)))
                     else mret tt
        | None => mret tt
        end;
    mret (rval, res)
  end.

(** [truncate] does nothing yet. *)
Definition truncate (path : list Z) (len : Z) (res : Result) : M (proc F) Result := mret res.
Definition partition (path : list Z) : list Z * list Z :=
  match last (filter (λ i, path !! i = Some chr_slash) (seq 0 (length path))) with
  | Some n => (take n path, drop (n + 1) path)
  | None => ([], path)
  end.
Definition creat (path : list Z) (res : Result) : M (proc F) Result :=
  '(dentry, res) ← on_vfs (pathname_lookup path res);
  match dentry with
  | Some a =>
    d ← on_vfs (get_dent a); st ← getS;
    if fd_is_directory (drv (pvfs st)) (d_inode d) then mret IsDirectory else truncate path 0 res
  | None =>
    let '(dirname, basename) := partition path in
    '(parent, res) ← on_vfs (pathname_lookup dirname res);
    match parent with
    | None => mret FileNotFound
    | Some a =>
      d ← on_vfs (get_dent a); st ← getS;
      if negb (fd_is_directory (drv (pvfs st)) (d_inode d)) then mret IsFile
      else on_vfs (on_drv (fd_creat (d_inode d) basename))
    end
  end.

(** ** mmap *)
(** Where the new area goes, or [None] when it overlaps one. *)
Fixpoint mmap_scan (addr length : Z) (l : list VMA) : option nat :=
  match l with
  | [] => Some O
  | it :: l =>
    if range_overlaps2 32 addr length (v_addr it) (v_len it) false then None
    else if addr <? v_addr it then Some O
    else S <$> mmap_scan addr length l
  end.

Definition mmap (addr length : Z) (prot : Access) (flags : Flags) (fd offset : Z) (res : Result)
    : M (proc F) (option Z * Result) :=
  st ← getS;
  match (if fd =? InvalidFD then Some None else option_map f_dentry (entry_of fd (fds st))) with
  | None => mret (None, BadFD)
  | Some dentry =>
    match mmap_scan addr length (vmas st) with
    | None => mret (None, MappingExists)
    | Some it =>
      '(new_vma, res) ← on_vfs (VirtualMemoryArea_ctor addr length prot flags dentry offset res);
      st ← getS;
      _ ← putS (with_vmas (take it (vmas st) ++ [new_vma] ++ drop it (vmas st)) st);
      if negb (bool_decide (res = Ok)) then
        _ ← on_vfs (VirtualMemoryArea_dtor new_vma);
        st ← getS;
        _ ← putS (with_vmas (take it (vmas st) ++ drop (it + 1) (vmas st)) st);
        mret (None, res)
      else mret (Some (v_addr new_vma), res)
    end
  end.

(** ** Faults and system calls *)
(** The bits of the error code that the handler looks at. *)
Record PFErrorCode := PFErr { e_p : bool; e_w : bool; e_u : bool; e_i : bool }.
Definition bit_cast (error_code : Z) : PFErrorCode :=
  PFErr (Z.testbit error_code 0) (Z.testbit error_code 1) (Z.testbit error_code 2) (Z.testbit error_code 4).

Inductive handled := Resumed | Killed.
(** [exit]: the thread goes away and does not come back. *)
Definition process_exit (status : Z) : M (proc F) handled :=
  st ← getS; _ ← assertM (bool_decide (is_Some (tid st))); mret Killed.

Definition in_vma (a : Z) (v : VMA) : bool := negb ((a <? v_addr v) || (u32 (v_addr v + v_len v) <=? a)).
Definition denied (e : PFErrorCode) (p : Access) : bool :=
  (negb (e_w e) && negb (readable p)) || (e_w e && negb (writable p)) || (e_i e && negb (executable p)).

Definition isr_pf (faulted_addr error_code : Z) : M (proc F) handled :=
  st ← getS;
  let err := bit_cast error_code in
  if e_p err then process_exit 1
  else
    match filter (λ v, in_vma faulted_addr v = true) (vmas st) with
    | [] => process_exit 1
    | vma :: _ =>
      if denied err (v_prot vma) && negb ((faulted_addr <? hhdm_start) && negb (e_u err)) then process_exit 1
      else
        let pg := floor_pow2 PG_SZ faulted_addr in
        if map_anon (v_flags vma) && map_private (v_flags vma) then
          (** [vmalloc]; its result is not looked at *)
          _ ← match stale (pg / PG_SZ) with
              | Some bs => putS (with_pages (<[pg / PG_SZ := UPage bs (writable (v_prot vma)) None]> (pages st)) st)
              | None => mret tt
              end;
          mret Resumed
        else
          a ← liftO (deref (v_dentry vma));
          d ← on_vfs (get_dent a);
          bs ← on_vfs (on_drv (fd_page (d_inode d) (floor_pow2 PG_SZ (v_offset vma))));
          st ← getS;
          _ ← putS (with_pages (<[pg / PG_SZ :=
                      UPage bs (writable (v_prot vma)) (Some (d_inode d, floor_pow2 PG_SZ (v_offset vma)))]> (pages st)) st);
          mret Resumed
    end.

Definition SYS_Exit : Z := 1.
Definition isr_syscall (eax ebx : Z) : M (proc F) handled :=
  if wrap 16 eax =? SYS_Exit then process_exit ebx else halt AssertFail.

(** A store by the kernel at a user address.  The kernel may write to
    read-only pages (CR0.WP is clear); the store is repeated after a
    fault, so one that stays unmapped is repeated for ever. *)
Definition put_byte (va b : Z) (pg : upage) : upage :=
  UPage (λ i, if i =? va mod PG_SZ then b else up_bytes pg i) (up_writable pg) (up_file pg).
Definition store (va b : Z) : M (proc F) unit :=
  st ← getS;
  _ ← (if bool_decide (is_Some (pages st !! (va / PG_SZ))) then mret tt
       else h ← isr_pf va 2; match h with Resumed => mret tt | Killed => halt AssertFail end);
  st ← getS;
  match pages st !! (va / PG_SZ) with
  | Some pg => putS (with_pages (<[va / PG_SZ := put_byte va b pg]> (pages st)) st)
  | None => halt OutOfFuel
  end.
Fixpoint copy_to_user (n : nat) (va : Z) (src : Z → Z) (i : Z) : M (proc F) unit :=
  match n with
  | O => mret tt
  | S n => _ ← store va (src i); copy_to_user n (va + 1) src (i + 1)
  end.
Definition memcpy_user (va : Z) (src : Z → Z) (n : Z) : M (proc F) unit := copy_to_user (Z.to_nat n) va src 0.
Definition memset_user (va n : Z) : M (proc F) unit := memcpy_user va (λ _, 0) n.

(** ** Loading an executable *)
(** [CHECK_RES]: leave the function with an error. *)
Definition check_res {A} (res : Result) (dflt : A) (k : M (proc F) (Result * A)) : M (proc F) (Result * A) :=
  if bool_decide (res = Ok) then k else mret (res, dflt).

Definition fill (buf : bytes) (bs : list Z) : bytes := λ i, default (buf i) (if 0 <=? i then bs !! Z.to_nat i else None).

(** [copy_page]: the page of the file at [offset], in [scoped_buf]. *)
Definition copy_file_page (bin_fd offset : Z) (buf : bytes) (res : Result) : M (proc F) (Result * bytes) :=
  _ ← assertM (PG_ALIGNED offset);
  res ← lseek bin_fd (signed 32 offset) SeekSet res;
  check_res res buf
    ('(n, res) ← read bin_fd PG_SZ res;
     mret (res, fill buf (default [] n))).

Definition floor_pg (n : Z) : Z := floor_pow2 PG_SZ n.
Definition ceil_pg (n : Z) : Z := ceil_pow2 PG_SZ n.
Definition flags_file : Flags := Flg false true.
Definition flags_anon : Flags := Flg true true.
Definition prot_of (ph : PHEntry.Entry) : Access :=
  Acc (PHEntry.executable ph) (PHEntry.writable ph) (PHEntry.readable ph).

(** The four parts of a segment, in the order of the code. *)
Definition map_head (bin_fd : Z) (ph : PHEntry.Entry) (buf : bytes) (res : Result) : M (proc F) (Result * bytes) :=
  let vaddr := PHEntry.vaddr ph in
  if PG_ALIGNED vaddr then mret (res, buf)
  else
    '(_, res) ← mmap (floor_pg vaddr) PG_SZ (prot_of ph) flags_anon InvalidFD 0 res;
    check_res res buf
      ('(res, buf) ← copy_file_page bin_fd (floor_pg (PHEntry.offset ph)) buf res;
       check_res res buf
         (let pg_start := floor_pg vaddr in
          let start_off := vaddr mod PG_SZ in
          let end_off := u32 (Z.min (u32 (vaddr + PHEntry.filesz ph)) (ceil_pg vaddr) - pg_start) in
          _ ← memset_user pg_start start_off;
          _ ← memcpy_user (pg_start + start_off) (λ i, buf (start_off + i)) (u32 (end_off - start_off));
          _ ← memset_user (pg_start + end_off) (u32 (PG_SZ - end_off));
          mret (res, buf))).

Definition full_pg_start (ph : PHEntry.Entry) : Z := u32 (ceil_pg (PHEntry.vaddr ph)).
Definition full_pg_end (ph : PHEntry.Entry) : Z := u32 (floor_pg (u32 (PHEntry.vaddr ph + PHEntry.filesz ph))).
Definition filesz_ceil (ph : PHEntry.Entry) : Z := u32 (ceil_pg (u32 (PHEntry.vaddr ph + PHEntry.filesz ph))).
Definition memsz_ceil (ph : PHEntry.Entry) : Z := u32 (ceil_pg (u32 (PHEntry.vaddr ph + PHEntry.memsz ph))).

Definition map_full (bin_fd : Z) (ph : PHEntry.Entry) (buf : bytes) (res : Result) : M (proc F) (Result * bytes) :=
  if full_pg_start ph <? full_pg_end ph then
    '(_, res) ← mmap (full_pg_start ph) (full_pg_end ph - full_pg_start ph) (prot_of ph) flags_file bin_fd
                  (u32 (PHEntry.offset ph + u32 (full_pg_start ph - PHEntry.vaddr ph))) res;
    mret (res, buf)
  else mret (res, buf).

Definition map_tail (bin_fd : Z) (ph : PHEntry.Entry) (buf : bytes) (res : Result) : M (proc F) (Result * bytes) :=
  if (full_pg_end ph <? filesz_ceil ph) && (full_pg_start ph <=? full_pg_end ph) then
    '(_, res) ← mmap (full_pg_end ph) PG_SZ (prot_of ph) flags_anon InvalidFD 0 res;
    check_res res buf
      ('(res, buf) ← copy_file_page bin_fd (u32 (PHEntry.offset ph + u32 (full_pg_end ph - PHEntry.vaddr ph))) buf res;
       check_res res buf
         (let pg_start := full_pg_end ph in
          let end_off := u32 (u32 (PHEntry.vaddr ph + PHEntry.filesz ph) - pg_start) in
          _ ← memcpy_user pg_start buf end_off;
          _ ← memset_user (pg_start + end_off) (u32 (PG_SZ - end_off));
          mret (res, buf)))
  else mret (res, buf).

Definition map_bss (ph : PHEntry.Entry) (buf : bytes) (res : Result) : M (proc F) (Result * bytes) :=
  if filesz_ceil ph <? memsz_ceil ph then
    '(_, res) ← mmap (filesz_ceil ph) (memsz_ceil ph - filesz_ceil ph) (prot_of ph) flags_anon InvalidFD 0 res;
    mret (res, buf)
  else mret (res, buf).

Definition map_segment (bin_fd : Z) (ph : PHEntry.Entry) (buf : bytes) (res : Result) : M (proc F) (Result * bytes) :=
  if negb (PHEntry.vaddr ph mod PG_SZ =? PHEntry.offset ph mod PG_SZ) then mret (NonExecutable, buf)
  else
    '(res, buf) ← map_head bin_fd ph buf res;
    check_res res buf
      ('(res, buf) ← map_full bin_fd ph buf res;
       check_res res buf
         ('(res, buf) ← map_tail bin_fd ph buf res;
          check_res res buf (map_bss ph buf res))).

(** The loop over the program headers. *)
Fixpoint map_segments (bin_fd : Z) (img : list Z) (phoff : Z) (n : nat) (i : Z) (buf : bytes) (res : Result)
    : M (proc F) (Result * bytes) :=
  match n with
  | O => mret (res, buf)
  | S n =>
    ph ← liftO (deref (ph_at img phoff i));
    if negb (PHEntry.type ph =? PHEntry.Load) then map_segments bin_fd img phoff n (i + 1) buf res
    else
      '(res, buf) ← map_segment bin_fd ph buf res;
      check_res res buf (map_segments bin_fd img phoff n (i + 1) buf res)
  end.

(** [buf] is what the heap gives for [scoped_buf]. *)
Definition map_elf_segments (bin_path : list Z) (buf : bytes) (res : Result) : M (proc F) Result :=
  '(bin_fd, res) ← open bin_path res;
  '(res, _) ← check_res res buf
    ('(n, res) ← read bin_fd PG_SZ res;
     check_res res buf
       ('(res, parsed) ← liftO (parse_executable (default [] n));
        check_res res buf
          (x ← liftO (deref parsed);
           st ← getS;
           _ ← putS (Proc (pvfs st) (fds st) (vmas st) (pages st) (ELFHeader.entry (hdr x)) (esp3 st) (tid st));
           '(res, buf) ← map_segments bin_fd (default [] n) (ph_table x) (Z.to_nat (ELFHeader.phnum (hdr x))) 0 buf res;
           check_res res buf (res ← close bin_fd res; mret (res, buf)))));
  mret res.

(** [Process::Process], after the page directory is set up; [new_tid] is
    what [new_thread] gives. *)
Definition stack_size : Z := 8 * KB.
Definition Process_ctor (bin_path : list Z) (buf : bytes) (new_tid : Z) (res : Result) : M (proc F) Result :=
  res ← map_elf_segments bin_path buf res;
  if negb (bool_decide (res = Ok)) then mret res
  else
    '(_, res) ← mmap (hhdm_start - stack_size) stack_size (Acc false true true) flags_anon InvalidFD 0 res;
    if negb (bool_decide (res = Ok)) then mret res
    else
      st ← getS;
      _ ← putS (Proc (pvfs st) (fds st) (vmas st) (pages st) (eip3 st) hhdm_start (Some new_tid));
      mret res.
End ops.

(** ** The specification: open files are objects on disk with an offset *)
Record sproc := SProc { s_fds : list (option (Z * Z)); s_vmas : list VMA }.

Inductive op :=
| OOpen (path : list Z)
| OClose (fd : Z)
| OLseek (fd offset : Z) (whence : Seek)
| ORead (fd count : Z)
| OMmap (addr len : Z) (prot : Access) (flags : Flags) (fd offset : Z).
Inductive ores := RFd (r : Z * Result) | RRes (r : Result) | RData (r : option (list Z) * Result) | RPtr (r : option Z * Result).

Definition overlaps (addr len : Z) (v : VMA) : bool := (addr <? v_addr v + v_len v) && (v_addr v <? addr + len).
Fixpoint insert_vma (v : VMA) (l : list VMA) : list VMA :=
  match l with
  | [] => [v]
  | w :: l => if v_addr v <? v_addr w then v :: w :: l else w :: insert_vma v l
  end.
(** Sorted, disjoint, and not around the end of the address space. *)
Definition before (v w : VMA) : Prop := v_addr v + v_len v ≤ v_addr w.
Definition vma_fits (v : VMA) : Prop := 0 ≤ v_addr v ∧ 0 < v_len v ∧ v_addr v + v_len v < 2 ^ 32.
Definition vmas_ok (l : list VMA) : Prop := StronglySorted before l ∧ Forall vma_fits l.

Definition put_fd {A} (x : A) (l : list (option A)) : nat * list (option A) :=
  match first_free l with
  | Some i => (i, <[i := Some x]> l)
  | None => (length l, l ++ [Some x])
  end.

Section spec.
Context {F : Type} `{FD : FsDriver F} (kr : Z).

Definition s_open (path : list Z) (s : sproc) : option (ores * sproc) :=
  match resolve [kr] (components path) with
  | Found (k :: _) => let '(fd, l) := put_fd (k, 0) (s_fds s) in Some (RFd (Z.of_nat fd, Ok), SProc l (s_vmas s))
  | Missing => Some (RFd (InvalidFD, FileNotFound), s)
  | _ => None
  end.
Definition s_close (fd : Z) (s : sproc) : ores * sproc :=
  match entry_of fd (s_fds s) with
  | None => (RRes BadFD, s)
  | Some _ => (RRes Ok, SProc (<[Z.to_nat fd := None]> (s_fds s)) (s_vmas s))
  end.
Definition s_lseek (fd offset : Z) (whence : Seek) (s : sproc) : ores * sproc :=
  match entry_of fd (s_fds s) with
  | None => (RRes BadFD, s)
  | Some (k, off) =>
    let move n := if n <? 0 then (RRes InvalidArgs, s)
                  else (RRes Ok, SProc (<[Z.to_nat fd := Some (k, n)]> (s_fds s)) (s_vmas s)) in
    match whence with
    | SeekSet => move offset
    | SeekCur => move (signed 64 (signed 64 off + offset))
    | SeekEnd => (RRes Unsupported, s)
    end
  end.
Definition s_read (fd count : Z) (s : sproc) : ores * sproc :=
  match entry_of fd (s_fds s) with
  | None => (RData (None, BadFD), s)
  | Some (k, off) =>
    if isdir k then (RData (None, IsDirectory), s)
    else
      let n := Z.max 0 (Z.min count (fsize k - u32 off)) in
      (RData (Some (file_slice k (u32 off) n), Ok),
       SProc (<[Z.to_nat fd := Some (k, if 0 <? n then u64 (off + n) else off)]> (s_fds s)) (s_vmas s))
  end.
Definition s_mmap (addr len : Z) (prot : Access) (flags : Flags) (fd offset : Z) (s : sproc) : ores * sproc :=
  match (if fd =? InvalidFD then Some None else option_map (λ e, Some e.1) (entry_of fd (s_fds s))) with
  | None => (RPtr (None, BadFD), s)
  | Some obj =>
    if existsb (overlaps addr len) (s_vmas s) then (RPtr (None, MappingExists), s)
    else if Bool.eqb (bool_decide (obj = None)) (map_anon flags) && (addr mod PG_SZ =? 0) && (offset mod PG_SZ =? 0)
            && negb (len =? 0)
    then (RPtr (Some addr, Ok), SProc (s_fds s) (insert_vma (Vma addr len prot flags obj offset) (s_vmas s)))
    else (RPtr (None, InvalidArgs), s)
  end.

Definition spec_op (o : op) (s : sproc) : option (ores * sproc) :=
  match o with
  | OOpen path => s_open path s
  | OClose fd => Some (s_close fd s)
  | OLseek fd offset whence => Some (s_lseek fd offset whence s)
  | ORead fd count => Some (s_read fd count s)
  | OMmap addr len prot flags fd offset => Some (s_mmap addr len prot flags fd offset s)
  end.

Definition run_op (o : op) : M (proc F) ores :=
  match o with
  | OOpen path => r ← open path Ok; mret (RFd r)
  | OClose fd => r ← close fd Ok; mret (RRes r)
  | OLseek fd offset whence => r ← lseek fd offset whence Ok; mret (RRes r)
  | ORead fd count => r ← read fd count Ok; mret (RData r)
  | OMmap addr len prot flags fd offset => r ← mmap addr len prot flags fd offset Ok; mret (RPtr r)
  end.

(** Arguments in range; a mapping of a file with bad arguments is left
    out, since it corrupts the reference count (below). *)
Definition op_ok (o : op) : Prop :=
  match o with
  | OOpen path => Forall (λ x, 0 < x < 256) path
  | OClose fd => 0 ≤ fd < 2 ^ 32
  | OLseek fd offset _ => 0 ≤ fd < 2 ^ 32 ∧ - 2 ^ 31 ≤ offset < 2 ^ 31
  | ORead fd count => 0 ≤ fd < 2 ^ 32 ∧ 0 ≤ count < 2 ^ 32
  | OMmap addr len _ flags fd offset =>
    0 ≤ fd < 2 ^ 32 ∧ 0 ≤ addr ∧ 0 ≤ len ∧ addr + len < 2 ^ 32 ∧
    (fd = InvalidFD ∨ map_anon flags = false ∧ addr mod PG_SZ = 0 ∧ offset mod PG_SZ = 0 ∧ 0 < len)
  end.

Fixpoint run_ops (os : list op) : M (proc F) (list ores) :=
  match os with
  | [] => mret []
  | o :: os => r ← run_op o; rs ← run_ops os; mret (r :: rs)
  end.
Fixpoint spec_ops (os : list op) (s : sproc) : option (list ores * sproc) :=
  match os with
  | [] => Some ([], s)
  | o :: os =>
    '(r, s) ← spec_op o s; '(rs, s) ← spec_ops os s; Some (r :: rs, s)
  end.

(** ** The simulation *)
Definition wsum {A} (w : A → Z) (l : list A) : Z := foldr (λ x n, w x + n) 0 l.
Definition ref (a : Z) (d : option Z) : Z := if bool_decide (d = Some a) then 1 else 0.
Definition fd_ref (a : Z) (o : option File) : Z := match o with Some f => ref a (f_dentry f) | None => 0 end.
Definition vma_ref (a : Z) (v : VMA) : Z := ref a (v_dentry v).
Definition refs (st : proc F) (a : Z) : Z := wsum (fd_ref a) (fds st) + wsum (vma_ref a) (vmas st).

Definition fd_rel (v : vfs F) (o : option File) (so : option (Z * Z)) : Prop :=
  match o, so with
  | None, None => True
  | Some f, Some (k, off) => ∃ a ks, f_dentry f = Some a ∧ denotes v a (k :: ks) ∧ f_offset f = off
  | _, _ => False
  end.
Definition vma_rel (v : vfs F) (x sx : VMA) : Prop :=
  x = Vma (v_addr sx) (v_len sx) (v_prot sx) (v_flags sx) (v_dentry x) (v_offset sx) ∧
  match v_dentry x, v_dentry sx with
  | None, None => True
  | Some a, Some k => ∃ ks, denotes v a (k :: ks)
  | _, _ => False
  end.

Record sim (st : proc F) (s : sproc) : Prop := {
  sim_vfs : vfs_ok kr (refs st) (pvfs st);
  sim_fds : Forall2 (fd_rel (pvfs st)) (fds st) (s_fds s);
  sim_vmas : Forall2 (vma_rel (pvfs st)) (vmas st) (s_vmas s);
  sim_sorted : vmas_ok (vmas st) }.
(** What the file operations leave alone. *)
Definition same_user (st st' : proc F) : Prop :=
  pages st' = pages st ∧ eip3 st' = eip3 st ∧ esp3 st' = esp3 st ∧ tid st' = tid st.

Lemma wsum_app {A} (w : A → Z) l k : wsum w (l ++ k) = wsum w l + wsum w k.
Proof. induction l as [|x l IH]; simpl; [done|]. unfold wsum in *. simpl. lia. Qed.
Lemma wsum_insert {A} (w : A → Z) l i x y : l !! i = Some x → wsum w (<[i := y]> l) = wsum w l - w x + w y.
Proof.
  intros Hi. rewrite insert_take_drop by (by eapply lookup_lt_Some). rewrite wsum_app.
  rewrite <- (take_drop_middle l i x Hi) at 3. rewrite wsum_app. unfold wsum. simpl. lia.
Qed.
Lemma wsum_elem {A} (w : A → Z) l i x : (∀ y, 0 ≤ w y) → l !! i = Some x → w x ≤ wsum w l.
Proof.
  intros Hw. revert i. induction l as [|y l IH]; intros [|i]; try done; simpl; unfold wsum in *; simpl.
  - intros [= ->]. assert (0 ≤ foldr (λ x n, w x + n) 0 l); [|lia]. clear IH. induction l as [|z l IH]; simpl; [lia|].
    specialize (Hw z). lia.
  - intros Hi. specialize (IH i Hi). specialize (Hw y). lia.
Qed.
Lemma ref_nonneg a d : 0 ≤ ref a d. Proof. unfold ref. case_bool_decide; lia. Qed.
Lemma fd_ref_nonneg a o : 0 ≤ fd_ref a o. Proof. destruct o; [apply ref_nonneg|done]. Qed.
Lemma ref_bump a b ext : bump a 1 ext b = ext b + ref b (Some a).
Proof. unfold bump, ref. destruct (Z.eqb_spec b a); case_bool_decide; naive_solver lia. Qed.
Lemma ref_unbump a b ext : bump a (-1) ext b = ext b - ref b (Some a).
Proof. unfold bump, ref. destruct (Z.eqb_spec b a); case_bool_decide; naive_solver lia. Qed.

Lemma vfs_ok_ext ext ext' (v : vfs F) : (∀ a, ext a = ext' a) → vfs_ok kr ext v → vfs_ok kr ext' v.
Proof. intros He [Hs Hc]. split; [done|by eapply counts_ok_ext]. Qed.

(** Relations that only look at what dentries denote. *)
Lemma fd_rel_mono v v' o so : (∀ a ks, fd_ref a o = 1 → denotes v a ks → denotes v' a ks) → fd_rel v o so → fd_rel v' o so.
Proof.
  destruct o as [f|], so as [[k off]|]; try done. intros Hm (a & ks & Hf & Hd & Ho).
  exists a, ks. split; [done|]. split; [|done]. apply Hm; [|done]. simpl. rewrite Hf. unfold ref. by rewrite bool_decide_true.
Qed.
Lemma vma_rel_mono v v' x sx : (∀ a ks, vma_ref a x = 1 → denotes v a ks → denotes v' a ks) → vma_rel v x sx → vma_rel v' x sx.
Proof.
  intros Hm [Hx Hd]. split; [done|]. destruct (v_dentry x) as [a|] eqn:Hxa, (v_dentry sx) as [k|]; try done.
  destruct Hd as [ks Hd]. exists ks. apply Hm; [|done]. unfold vma_ref, ref. rewrite Hxa. by rewrite bool_decide_true.
Qed.
Lemma fds_rel_grows v v' l sl : grows v v' → Forall2 (fd_rel v) l sl → Forall2 (fd_rel v') l sl.
Proof. intros Hg H. eapply Forall2_impl; [exact H|]. intros o so. apply fd_rel_mono. intros a ks _. by apply denotes_grows. Qed.
Lemma vmas_rel_grows v v' l sl : grows v v' → Forall2 (vma_rel v) l sl → Forall2 (vma_rel v') l sl.
Proof. intros Hg H. eapply Forall2_impl; [exact H|]. intros o so. apply vma_rel_mono. intros a ks _. by apply denotes_grows. Qed.

Lemma entry_rel v l sl fd : 0 ≤ fd → Forall2 (fd_rel v) l sl →
  match entry_of fd l, entry_of fd sl with
  | None, None => True
  | Some f, Some e => l !! Z.to_nat fd = Some (Some f) ∧ sl !! Z.to_nat fd = Some (Some e) ∧ fd_rel v (Some f) (Some e)
  | _, _ => False
  end.
Proof.
  intros Hfd Hrel. unfold entry_of. rewrite <- (Forall2_length _ _ _ Hrel).
  destruct (Z.ltb_spec fd (zlen l)) as [Hlt|Hge]; [|done].
  destruct (lookup_lt_is_Some_2 l (Z.to_nat fd)) as [o Ho]; [lia|].
  destruct (Forall2_lookup_l _ _ _ _ _ Hrel Ho) as (so & Hso & Hr). rewrite Ho, Hso. simpl.
  by destruct o as [f|], so as [e|].
Qed.
Lemma first_free_rel v l sl : Forall2 (fd_rel v) l sl → first_free l = first_free sl.
Proof. induction 1 as [|o so l sl Ho Hl IH]; [done|]. destruct o, so as [[]|]; try done. simpl. by rewrite IH. Qed.
Lemma first_free_lookup {A} (l : list (option A)) i : first_free l = Some i → l !! i = Some None.
Proof.
  revert i. induction l as [|[x|] l IH]; intros i; try done; simpl.
  - destruct (first_free l) as [j|]; [|done]. intros [= <-]. simpl. auto.
  - by intros [= <-].
Qed.
Lemma put_fd_rel v l sl f e : Forall2 (fd_rel v) l sl → fd_rel v (Some f) (Some e) →
  (put_fd f l).1 = (put_fd e sl).1 ∧ Forall2 (fd_rel v) (put_fd f l).2 (put_fd e sl).2.
Proof.
  intros Hl He. unfold put_fd. rewrite <- (first_free_rel v l sl Hl). destruct (first_free l) as [i|]; simpl.
  - split; [done|]. by apply Forall2_insert.
  - split; [by eapply Forall2_length|]. apply Forall2_app; [done|]. by constructor.
Qed.
Lemma put_fd_refs a f l : wsum (fd_ref a) (put_fd f l).2 = wsum (fd_ref a) l + ref a (f_dentry f).
Proof.
  unfold put_fd. destruct (first_free l) as [i|] eqn:E; simpl.
  - rewrite (wsum_insert _ _ _ None) by by apply first_free_lookup. simpl. lia.
  - rewrite wsum_app. unfold wsum at 2. simpl. lia.
Qed.

Lemma wpx_on_vfs {A} E (m : M (vfs F) A) (Q : A → proc F → Prop) st :
  wpx E m (λ a v, Q a (with_vfs v st)) (pvfs st) → wpx E (on_vfs m) Q st.
Proof. apply wpx_on_part. Qed.

Lemma same_user_refl st : same_user st st. Proof. by repeat split. Qed.

(** A step of the file system that only adds dentries. *)
Lemma sim_grows st s v : sim st s → vfs_ok kr (refs st) v → grows (pvfs st) v → sim (with_vfs v st) s.
Proof.
  intros [Hv Hf Hm Hs] Hok Hg. split; simpl; [done|by eapply fds_rel_grows|by eapply vmas_rel_grows|done].
Qed.

Lemma wpx_install E st s a k ks : sim st s → denotes (pvfs st) a (k :: ks) →
  wpx E (fd ← get_next_fd; f ← on_vfs (new_file a); _ ← set_fd fd (Some f); mret (Z.of_nat fd, Ok))
    (λ x st', x = (Z.of_nat (put_fd (k, 0) (s_fds s)).1, Ok) ∧
      sim st' (SProc (put_fd (k, 0) (s_fds s)).2 (s_vmas s)) ∧ same_user st st') st.
Proof.
  intros [Hv Hf Hm Hs] Hden. pose proof (wp_new_file kr (refs st) (pvfs st) a _ Hv Hden) as Hn.
  apply wp_run in Hn as (f & v & Hrun & -> & Hok & Hg). set (f0 := MkFile (Some a) 0 0) in *.
  assert (Hfr : fd_rel v (Some f0) (Some (k, 0))) by (exists a, ks; split; [done|]; split; [by eapply denotes_grows|done]).
  destruct (put_fd_rel v (fds st) (s_fds s) f0 (k, 0) (fds_rel_grows _ _ _ _ Hg Hf) Hfr) as [Hi Hl].
  assert (Heff : (fd ← get_next_fd; f ← on_vfs (new_file a); _ ← set_fd fd (Some f); mret (Z.of_nat fd, Ok)) st =
    Ret ((Z.of_nat (put_fd f0 (fds st)).1, Ok), with_fds (put_fd f0 (fds st)).2 (with_vfs v st))).
  { unfold get_next_fd, set_fd, on_vfs, on_part, put_fd. munfold.
    destruct (first_free (fds st)) as [j|]; simpl; rewrite Hrun; simpl; [done|].
    by rewrite insert_app_r_alt, Nat.sub_diag by lia. }
  unfold wpx. rewrite Heff. rewrite <- Hi. split; [done|]. split; [|by repeat split].
  split; simpl; [|done|by eapply vmas_rel_grows|done].
  eapply vfs_ok_ext; [|exact Hok]. intros b. rewrite ref_bump. unfold refs. simpl. rewrite put_fd_refs. simpl. lia.
Qed.

Lemma may_fail_oom res : res ≠ ThroughFile → ∀ f, may_fail res f → oom_only f.
Proof. unfold may_fail, oom_only. tauto. Qed.

Lemma wpx_open st s path : sim st s → Forall (λ x, 0 < x < 256) path →
  match s_open path s with
  | Some (r, s') => wpx oom_only (open path Ok) (λ x st', r = RFd x ∧ sim st' s' ∧ same_user st st') st
  | None => wpx (λ f, f = AssertFail) (open path Ok) (λ _ _, False) st
  end.
Proof.
  intros Hsim Hp. pose proof (wpx_pathname_lookup kr (refs st) path (pvfs st) (sim_vfs _ _ Hsim) Hp) as Hl.
  unfold s_open. destruct (resolve [kr] (components path)) as [[|k ks]| |] eqn:Hres.
  - unfold open. apply wpx_bind, wpx_on_vfs. eapply wpx_weaken; [exact Hl|by intros f [? _]|].
    intros r v (_ & _ & a & _ & Hd). destruct (denotes_live _ _ _ Hd) as (? & ? & ? & _ & ? & _). done.
  - destruct (put_fd (k, 0) (s_fds s)) as [fd l] eqn:Hpf. unfold open. apply wpx_bind, wpx_on_vfs.
    eapply wpx_weaken; [exact Hl|by apply may_fail_oom|]. intros r v (Hok & Hg & a & -> & Hd).
    eapply wpx_mono; [by apply (wpx_install _ (with_vfs v st) s a k ks); [apply sim_grows|]|].
    rewrite Hpf. simpl. intros x st' (-> & Hs' & Hu). auto.
  - unfold open. apply wpx_bind, wpx_on_vfs. eapply wpx_weaken; [exact Hl|by apply may_fail_oom|].
    intros r v (Hok & Hg & ->). apply wpx_ret. split; [done|]. split; [by apply sim_grows|by repeat split].
  - unfold open. apply wpx_bind, wpx_on_vfs. eapply wpx_weaken; [exact Hl|by intros f [? _]|].
    by intros r v (_ & _ & ?).
Qed.

Lemma wsum_nonneg {A} (w : A → Z) l : (∀ x, 0 ≤ w x) → 0 ≤ wsum w l.
Proof. intros Hw. induction l as [|x l IH]; unfold wsum in *; simpl; [done|]. specialize (Hw x). lia. Qed.
Lemma fds_rel_live v v' l sl : (∀ a ks, 0 < wsum (fd_ref a) l → denotes v a ks → denotes v' a ks) →
  Forall2 (fd_rel v) l sl → Forall2 (fd_rel v') l sl.
Proof.
  intros Hm H. induction H as [|o so l sl Ho Hl IH]; constructor.
  - eapply fd_rel_mono; [|exact Ho]. intros a ks Ha. apply Hm.
    pose proof (wsum_nonneg (fd_ref a) l (fd_ref_nonneg a)). unfold wsum in *. simpl. lia.
  - apply IH. intros a ks Ha. apply Hm. pose proof (fd_ref_nonneg a o). unfold wsum in *. simpl. lia.
Qed.
Lemma vmas_rel_live v v' l sl : (∀ a ks, 0 < wsum (vma_ref a) l → denotes v a ks → denotes v' a ks) →
  Forall2 (vma_rel v) l sl → Forall2 (vma_rel v') l sl.
Proof.
  intros Hm H. induction H as [|o so l sl Ho Hl IH]; constructor.
  - eapply vma_rel_mono; [|exact Ho]. intros a ks Ha. apply Hm.
    pose proof (wsum_nonneg (vma_ref a) l (λ x, ref_nonneg a _)). unfold wsum in *. simpl. lia.
  - apply IH. intros a ks Ha. apply Hm. pose proof (ref_nonneg a (v_dentry o)). unfold wsum, vma_ref in *. simpl. lia.
Qed.

Lemma wpx_close E st s fd : sim st s → 0 ≤ fd →
  wpx E (close fd Ok) (λ x st', (s_close fd s).1 = RRes x ∧
    sim st' (s_close fd s).2 ∧ same_user st st') st.
Proof.
  intros Hsim Hfd. pose proof Hsim as [Hv Hf Hm Hs]. unfold close, s_close. apply wpx_bind, wpx_get.
  pose proof (entry_rel _ _ _ fd Hfd Hf) as He.
  destruct (entry_of fd (fds st)) as [f|], (entry_of fd (s_fds s)) as [[k off]|]; try contradiction.
  2:{ apply wpx_ret. split; [done|]. split; [done|apply same_user_refl]. }
  destruct He as (Hl & Hsl & a & ks & Hfa & Hden & Hoff).
  assert (Hpos : 0 < refs st a).
  { pose proof (wsum_elem (fd_ref a) _ _ _ (fd_ref_nonneg a) Hl) as H1. simpl in H1. rewrite Hfa in H1.
    unfold ref in H1. rewrite bool_decide_true in H1 by done.
    pose proof (wsum_nonneg (vma_ref a) (vmas st) (λ x, ref_nonneg a _)). unfold refs. lia. }
  apply wpx_bind, wpx_on_vfs, wpx_wp. eapply wp_mono; [by apply (wp_file_dtor kr (refs st) (pvfs st) a f)|].
  intros _ v (Hok & Hkeep). unfold set_fd. apply wpx_bind, wpx_bind, wpx_get, wpx_put, wpx_ret.
  split; [done|]. split; [|by repeat split]. cbn [snd].
  set (st' := with_fds (<[Z.to_nat fd := None]> (fds st)) (with_vfs v st)).
  assert (Hrefs : ∀ b, bump a (-1) (refs st) b = refs st' b).
  { intros b. rewrite ref_unbump. unfold refs. simpl. rewrite (wsum_insert _ _ _ _ _ Hl). simpl. rewrite Hfa. lia. }
  assert (Hok' : vfs_ok kr (refs st') v) by by eapply vfs_ok_ext.
  assert (Hlive : ∀ b ks', 0 < refs st' b → denotes (pvfs st) b ks' → denotes v b ks').
  { intros b ks' Hb. apply Hkeep. destruct Hok' as [_ Hc]. by apply (t_ext _ _ _ Hc). }
  split; [done| | |done].
  - apply (fds_rel_live (pvfs st)); [|by apply Forall2_insert]. intros b ks' Hb. apply Hlive.
    pose proof (wsum_nonneg (vma_ref b) (vmas st) (λ x, ref_nonneg b _)). unfold refs. simpl in *. lia.
  - apply (vmas_rel_live (pvfs st)); [|done]. intros b ks' Hb. apply Hlive.
    pose proof (wsum_nonneg (fd_ref b) (<[Z.to_nat fd := None]> (fds st)) (fd_ref_nonneg b)). unfold refs. simpl in *. lia.
Qed.

(** A change of the offset of an open file *)
Lemma sim_offset st s fd f k off n : sim st s → fds st !! fd = Some (Some f) → s_fds s !! fd = Some (Some (k, off)) →
  sim (with_fds (<[fd := Some (MkFile (f_dentry f) n (f_fd f))]> (fds st)) st)
    (SProc (<[fd := Some (k, n)]> (s_fds s)) (s_vmas s)).
Proof.
  intros [Hv Hf Hm Hs] Hl Hsl. split; simpl; [| |done|done].
  - eapply vfs_ok_ext; [|exact Hv]. intros b. unfold refs. simpl. rewrite (wsum_insert _ _ _ _ _ Hl). simpl. lia.
  - apply Forall2_insert; [done|]. destruct (Forall2_lookup_lr _ _ _ _ _ _ Hf Hl Hsl) as (a & ks & ? & ? & _).
    exists a, ks. auto.
Qed.

Lemma wpx_lseek E st s fd offset whence : sim st s → 0 ≤ fd →
  wpx E (lseek fd offset whence Ok) (λ x st', (s_lseek fd offset whence s).1 = RRes x ∧
    sim st' (s_lseek fd offset whence s).2 ∧ same_user st st') st.
Proof.
  intros Hsim Hfd. unfold lseek, s_lseek. apply wpx_bind, wpx_get.
  pose proof (entry_rel _ _ _ fd Hfd (sim_fds _ _ Hsim)) as He.
  destruct (entry_of fd (fds st)) as [f|], (entry_of fd (s_fds s)) as [[k off]|]; try contradiction.
  2:{ apply wpx_ret. split; [done|]. split; [done|apply same_user_refl]. }
  destruct He as (Hl & Hsl & a & ks & Hfa & Hden & <-).
  assert (Hmove : ∀ n, wpx E (if n <? 0 then mret InvalidArgs else
      _ ← set_fd (Z.to_nat fd) (Some (MkFile (f_dentry f) n (f_fd f))); mret Ok)
    (λ x st', let r := if n <? 0 then (RRes InvalidArgs, s) else
       (RRes Ok, SProc (<[Z.to_nat fd := Some (k, n)]> (s_fds s)) (s_vmas s)) in
       r.1 = RRes x ∧ sim st' r.2 ∧ same_user st st') st).
  { intros n. destruct (n <? 0); [apply wpx_ret; split; [done|]; split; [done|apply same_user_refl]|].
    apply wpx_bind, wpx_bind, wpx_get, wpx_put, wpx_ret. split; [done|]. split; [by eapply sim_offset|by repeat split]. }
  destruct whence; [apply Hmove|apply Hmove|]. apply wpx_ret. split; [done|]. split; [done|apply same_user_refl].
Qed.

Lemma file_slice_length k off n : length (file_slice k off n) = Z.to_nat n.
Proof. unfold file_slice. by rewrite length_fmap, length_seq. Qed.

Lemma wpx_read st s fd count : sim st s → 0 ≤ fd → 0 ≤ count →
  wpx oom_only (read fd count Ok) (λ x st', (s_read fd count s).1 = RData x ∧
    sim st' (s_read fd count s).2 ∧ same_user st st') st.
Proof.
  intros Hsim Hfd Hcount. unfold read, s_read. apply wpx_bind, wpx_get.
  pose proof (entry_rel _ _ _ fd Hfd (sim_fds _ _ Hsim)) as He.
  destruct (entry_of fd (fds st)) as [f|], (entry_of fd (s_fds s)) as [[k off]|]; try contradiction.
  2:{ apply wpx_ret. split; [done|]. split; [done|apply same_user_refl]. }
  destruct He as (Hl & Hsl & a & ks & Hfa & Hden & <-). pose proof (sim_vfs _ _ Hsim) as Hv.
  destruct (denotes_live _ _ _ Hden) as (d & k0 & ks0 & Hd & [= <- <-] & Hk).
  apply wpx_bind, wpx_on_vfs, wpx_bind. eapply wpx_lift; [by rewrite Hfa|]. apply wpx_wp. eapply wp_get_dent; [done|].
  apply wpx_bind, wpx_on_vfs. pose proof (wrap_range 32 (f_offset f) ltac:(lia)) as Hw.
  eapply wpx_mono; [apply (wpx_inode_read kr (refs st) _ _ k); [done|done|lia|done]|].
  intros r v [Hr ->]. destruct (reads_ok kr (refs st) _ _ Hv Hr) as [Hok Hg].
  pose proof (sim_grows _ _ v Hsim Hok Hg) as Hsim'. destruct (isdir k) eqn:Hdir.
  { apply wpx_bind, wpx_assert; [done|]. intros _. apply wpx_bind, wpx_ret, wpx_ret. split; [done|]. split; [done|by repeat split]. }
  apply wpx_bind, wpx_assert; [done|]. intros _. set (n := Z.min count (fsize k - u32 (f_offset f))).
  rewrite file_slice_length. replace (Z.of_nat (Z.to_nat n)) with (Z.max 0 n) by lia.
  assert (file_slice k (u32 (f_offset f)) n = file_slice k (u32 (f_offset f)) (Z.max 0 n)) as ->.
  { unfold file_slice. do 2 f_equal. lia. }
  destruct (Z.ltb_spec 0 (Z.max 0 n)) as [Hn|Hn].
  - apply wpx_bind, wpx_bind, wpx_get, wpx_put, wpx_ret. split; [done|]. split; [|by repeat split].
    exact (sim_offset (with_vfs v st) s _ f k _ _ Hsim' Hl Hsl).
  - apply wpx_bind, wpx_ret, wpx_ret. split; [done|]. split; [|by repeat split].
    rewrite list_insert_id by done. by destruct s.
Qed.

(** *** mmap *)
Lemma overlaps_wrapped addr len v : 0 ≤ addr → 0 ≤ len → addr + len < 2 ^ 32 → vma_fits v →
  range_overlaps2 32 addr len (v_addr v) (v_len v) false = overlaps addr len v.
Proof. intros ??? (?&?&?). unfold range_overlaps2, range_overlaps, overlaps. by rewrite !wrap_small by lia. Qed.

Lemma later_no_overlap addr len v l : StronglySorted before (v :: l) → Forall vma_fits (v :: l) → 0 ≤ len →
  overlaps addr len v = false → addr < v_addr v → existsb (overlaps addr len) l = false.
Proof.
  intros [_ Hb]%StronglySorted_inv [(?&?&?) Hf]%Forall_cons Hlen Hno Hlt.
  unfold overlaps in Hno. apply andb_false_iff in Hno as [Hno|Hno]; apply Z.ltb_ge in Hno; [lia|].
  induction l as [|w l IH]; [done|]. simpl. apply Forall_cons in Hb as [Hw Hb], Hf as [_ Hf].
  rewrite IH by done. unfold before in Hw. unfold overlaps.
  assert ((v_addr w <? addr + len) = false) as -> by (apply Z.ltb_ge; lia). by rewrite andb_false_r.
Qed.

Lemma mmap_scan_spec addr len l : vmas_ok l → 0 ≤ addr → 0 ≤ len → addr + len < 2 ^ 32 →
  match mmap_scan addr len l with
  | None => existsb (overlaps addr len) l = true
  | Some i => existsb (overlaps addr len) l = false ∧
      ∀ v, v_addr v = addr → take i l ++ v :: drop i l = insert_vma v l ∧ (i ≤ length l)%nat
  end.
Proof.
  intros [Hs Hf] Ha Hl Hb. induction l as [|w l IH]; [done|]. pose proof Hf as [Hw Hf']%Forall_cons.
  cbn [mmap_scan existsb]. rewrite (overlaps_wrapped addr len w) by done.
  destruct (overlaps addr len w) eqn:Hno; [done|]. destruct (Z.ltb_spec addr (v_addr w)) as [Hlt|Hge].
  - split; [by eapply later_no_overlap|]. intros v <-. simpl. split; [|lia].
    by assert ((v_addr v <? v_addr w) = true) as -> by (by apply Z.ltb_lt).
  - apply StronglySorted_inv in Hs as [Hs _]. specialize (IH Hs Hf').
    destruct (mmap_scan addr len l) as [i|]; simpl; [|done]. destruct IH as [He Hi]. split; [done|].
    intros v <-. destruct (Hi v eq_refl) as [-> ?]. split; [|lia].
    by assert ((v_addr v <? v_addr w) = false) as -> by (by apply Z.ltb_ge).
Qed.

Lemma insert_vma_Forall (P : VMA → Prop) v l : P v → Forall P l → Forall P (insert_vma v l).
Proof.
  intros Hv. induction 1 as [|w l Hw Hl IH]; simpl; [by constructor|]. destruct (_ <? _); by repeat constructor.
Qed.
Lemma insert_vma_ok v l : vmas_ok l → vma_fits v → existsb (overlaps (v_addr v) (v_len v)) l = false → vmas_ok (insert_vma v l).
Proof.
  intros [Hs Hf] Hv Hno. split; [|by apply insert_vma_Forall].
  induction l as [|w l IH]; simpl; [by repeat constructor|].
  pose proof Hs as [Hs' Hb]%StronglySorted_inv. pose proof Hf as [Hw Hf']%Forall_cons.
  simpl in Hno. apply orb_false_iff in Hno as [How Hno]. pose proof How as How'.
  destruct Hv as (?&?&?), Hw as (?&?&?). unfold overlaps in How. apply andb_false_iff in How.
  destruct (Z.ltb_spec (v_addr v) (v_addr w)) as [Hlt|Hge].
  - constructor; [done|]. assert (before v w).
    { unfold before. destruct How as [H'|H']; apply Z.ltb_ge in H'; lia. }
    constructor; [done|]. eapply Forall_impl; [exact Hb|]. unfold before in *. intros u ?. lia.
  - constructor; [by apply IH|]. apply insert_vma_Forall; [|done].
    unfold before. destruct How as [H'|H']; apply Z.ltb_ge in H'; lia.
Qed.

Lemma vmas_rel_overlaps v l sl addr len : Forall2 (vma_rel v) l sl →
  existsb (overlaps addr len) l = existsb (overlaps addr len) sl.
Proof.
  induction 1 as [|x sx l sl [Hx _] Hl IH]; [done|]. simpl. rewrite IH. f_equal. by rewrite Hx.
Qed.
Lemma vmas_rel_insert v l sl x sx : Forall2 (vma_rel v) l sl → vma_rel v x sx →
  Forall2 (vma_rel v) (insert_vma x l) (insert_vma sx sl).
Proof.
  intros Hl Hx. induction Hl as [|y sy l sl Hy Hl IH]; simpl; [constructor; [done|constructor]|].
  assert (v_addr x = v_addr sx ∧ v_addr y = v_addr sy) as [-> ->].
  { destruct Hx as [-> _], Hy as [-> _]. done. }
  destruct (_ <? _); [constructor; [done|]|]; by constructor.
Qed.
Lemma wsum_insert_vma w x l : wsum w (insert_vma x l) = w x + wsum w l.
Proof. induction l as [|y l IH]; simpl; [done|]. destruct (_ <? _); unfold wsum in *; simpl in *; lia. Qed.

Lemma wpx_vma_ctor E (v : vfs F) ext addr len prot flags d offset ks : vfs_ok kr ext v →
  match d with Some a => ∃ k, denotes v a (k :: ks) | None => True end →
  let ok := Bool.eqb (bool_decide (d = None)) (map_anon flags) && (addr mod PG_SZ =? 0) && (offset mod PG_SZ =? 0) && negb (len =? 0) in
  wpx E (VirtualMemoryArea_ctor addr len prot flags d offset Ok) (λ x v', x.1 = Vma addr len prot flags d offset ∧
    if ok then x.2 = Ok ∧ vfs_ok kr (λ b, ext b + ref b d) v' ∧ grows v v' else x.2 = InvalidArgs ∧ v' = v) v.
Proof.
  intros Hok Hd. cbv zeta. unfold VirtualMemoryArea_ctor. rewrite !PG_ALIGNED_mod.
  destruct (Bool.eqb _ _); simpl; [|apply wpx_ret; auto].
  destruct (addr mod PG_SZ =? 0); simpl; [|apply wpx_ret; auto].
  destruct (offset mod PG_SZ =? 0); simpl; [|apply wpx_ret; auto].
  destruct (len =? 0); simpl; [apply wpx_ret; auto|].
  destruct d as [a|].
  - destruct Hd as [k Hd]. pose proof (wp_new_file kr ext v a _ Hok Hd) as Hn.
    unfold new_file in Hn. apply wpx_bind. apply wpx_wp. unfold wp, mbind, M_bind in Hn.
    unfold wp. destruct (dentry_inc_rc a v) as [[[] v']|]; [|done]. destruct Hn as (_ & Hok' & Hg).
    apply wpx_ret. split; [done|]. split; [done|]. split; [|done].
    eapply vfs_ok_ext; [|exact Hok']. intros b. apply ref_bump.
  - apply wpx_bind, wpx_ret, wpx_ret. split; [done|]. split; [done|]. split; [|apply grows_refl].
    eapply vfs_ok_ext; [|exact Hok]. intros b. unfold ref. rewrite bool_decide_false by done. lia.
Qed.

Lemma emplace_erase (l : list VMA) i x : (i ≤ length l)%nat →
  take i (take i l ++ [x] ++ drop i l) ++ drop (i + 1) (take i l ++ [x] ++ drop i l) = l.
Proof.
  intros Hi. assert (Hlen : length (take i l) = i) by (rewrite length_take; lia).
  rewrite take_app_length' by done. rewrite (app_assoc (take i l)), drop_app_length' by (rewrite length_app, Hlen; done).
  apply take_drop.
Qed.

Lemma wpx_mmap E st s addr len prot flags fd offset : sim st s → op_ok (OMmap addr len prot flags fd offset) →
  wpx E (mmap addr len prot flags fd offset Ok) (λ x st', (s_mmap addr len prot flags fd offset s).1 = RPtr x ∧
    sim st' (s_mmap addr len prot flags fd offset s).2 ∧ same_user st st') st.
Proof.
  intros Hsim (Hfd & Ha & Hl & Hb & Harg). pose proof Hsim as [Hv Hf Hm Hs]. unfold mmap, s_mmap. apply wpx_bind, wpx_get.
  assert (Hobj : match (if fd =? InvalidFD then Some None else option_map f_dentry (entry_of fd (fds st))),
      (if fd =? InvalidFD then Some None else option_map (λ e, Some e.1) (entry_of fd (s_fds s))) with
    | None, None => True
    | Some d, Some obj => match d, obj with
        | Some a, Some k => fd ≠ InvalidFD ∧ ∃ ks, denotes (pvfs st) a (k :: ks)
        | None, None => True
        | _, _ => False
        end
    | _, _ => False
    end).
  { destruct (Z.eqb_spec fd InvalidFD) as [_|Hne]; [done|]. pose proof (entry_rel _ _ _ fd (proj1 Hfd) Hf) as He.
    destruct (entry_of fd (fds st)) as [f|], (entry_of fd (s_fds s)) as [[k off]|]; try contradiction; simpl; [|done].
    destruct He as (_ & _ & a & ks & -> & Hd & _). eauto. }
  destruct (if fd =? InvalidFD then Some None else option_map f_dentry _) as [d|],
    (if fd =? InvalidFD then Some None else option_map (λ e, Some e.1) _) as [obj|]; try contradiction.
  2:{ apply wpx_ret. split; [done|]. split; [done|apply same_user_refl]. }
  rewrite <- (vmas_rel_overlaps _ _ _ addr len Hm). pose proof (mmap_scan_spec addr len (vmas st) Hs Ha Hl Hb) as Hscan.
  destruct (mmap_scan addr len (vmas st)) as [i|]; [destruct Hscan as [Hno Hins]; rewrite Hno|rewrite Hscan].
  2:{ apply wpx_ret. split; [done|]. split; [done|apply same_user_refl]. }
  assert (Hdobj : bool_decide (d = None) = bool_decide (obj = None)) by (by destruct d, obj).
  assert (Hks : ∃ ks, match d with Some a => ∃ k, denotes (pvfs st) a (k :: ks) | None => True end).
  { destruct d as [a|], obj as [k|]; try done; [|by exists []]. destruct Hobj as [_ [ks ?]]. eauto. }
  destruct Hks as [ks Hks].
  apply wpx_bind, wpx_on_vfs. eapply wpx_mono; [by eapply wpx_vma_ctor|]. rewrite Hdobj. cbv zeta.
  destruct (Hins (Vma addr len prot flags d offset) eq_refl) as [Heq Hi].
  intros [x r] v. simpl fst. simpl snd. intros [-> Hx].
  apply wpx_bind, wpx_get, wpx_bind, wpx_put. cbn [vmas with_vfs].
  destruct (Bool.eqb _ _ && _ && _ && _) eqn:Hargs.
  - destruct Hx as (-> & Hok & Hg). apply wpx_ret. split; [done|]. split; [|by repeat split].
    change (take i (vmas st) ++ [Vma addr len prot flags d offset] ++ drop i (vmas st))
      with (take i (vmas st) ++ Vma addr len prot flags d offset :: drop i (vmas st)). rewrite Heq. split; simpl.
    + eapply vfs_ok_ext; [|exact Hok]. intros b. unfold refs. simpl. rewrite wsum_insert_vma. unfold vma_ref at 2. simpl. lia.
    + by eapply fds_rel_grows.
    + apply vmas_rel_insert; [by eapply vmas_rel_grows|]. split; [done|]. simpl.
      destruct d as [a|], obj as [k|]; try done. destruct Hobj as [_ [ks' ?]]. exists ks'. by eapply denotes_grows.
    + apply insert_vma_ok; [done| |done]. rewrite !andb_true_iff, negb_true_iff, Z.eqb_neq in Hargs. split; simpl; lia.
  - destruct Hx as (-> & ->). simpl negb. cbv iota.
    assert (d = None) as ->.
    { destruct d as [a|]; [|done]. destruct obj as [k|]; [|done]. destruct Hobj as [Hne _]. exfalso.
      destruct Harg as [?|(Hanon & Haa & Hao & Hpos)]; [done|]. rewrite Hanon, Haa, Hao in Hargs.
      destruct (Z.eqb_spec len 0); [lia|done]. }
    apply wpx_bind, wpx_on_vfs. unfold VirtualMemoryArea_dtor, release, file_dtor. apply wpx_ret.
    apply wpx_bind, wpx_get, wpx_bind, wpx_put, wpx_ret. split; [done|]. split; [|by repeat split].
    cbn [vmas with_vfs with_vmas snd]. rewrite emplace_erase by done. by destruct st.
Qed.

Lemma wpx_run_op st s o : sim st s → op_ok o →
  match spec_op o s with
  | Some (r, s') => wpx oom_only (run_op o) (λ x st', x = r ∧ sim st' s' ∧ same_user st st') st
  | None => wpx (λ f, f = AssertFail) (run_op o) (λ _ _, False) st
  end.
Proof.
  intros Hsim Hok. destruct o as [path|fd|fd offset whence|fd count|addr len prot flags fd offset]; cbn [spec_op run_op].
  - pose proof (wpx_open st s path Hsim Hok) as H. destruct (s_open path s) as [[r s']|]; apply wpx_bind.
    + eapply wpx_mono; [exact H|]. intros x st' (-> & ? & ?). by apply wpx_ret.
    + eapply wpx_mono; [exact H|]. done.
  - destruct (s_close fd s) as [r s'] eqn:E. apply wpx_bind.
    eapply wpx_mono; [apply (wpx_close _ st s fd Hsim); apply Hok|]. rewrite E. cbn [fst snd]. intros x st' (-> & ? & ?). by apply wpx_ret.
  - destruct (s_lseek fd offset whence s) as [r s'] eqn:E. apply wpx_bind.
    eapply wpx_mono; [apply (wpx_lseek _ st s fd offset whence Hsim); apply Hok|]. rewrite E. cbn [fst snd]. intros x st' (-> & ? & ?). by apply wpx_ret.
  - destruct (s_read fd count s) as [r s'] eqn:E. apply wpx_bind.
    eapply wpx_mono; [apply (wpx_read st s fd count Hsim); apply Hok|]. rewrite E. cbn [fst snd]. intros x st' (-> & ? & ?). by apply wpx_ret.
  - destruct (s_mmap addr len prot flags fd offset s) as [r s'] eqn:E. apply wpx_bind.
    eapply wpx_mono; [apply (wpx_mmap _ st s addr len prot flags fd offset Hsim Hok)|]. rewrite E. cbn [fst snd]. intros x st' (-> & ? & ?). by apply wpx_ret.
Qed.

End spec.

(** ** A small history *)
#[local] Existing Instance demo_fs.
Definition demo_proc : proc (gset Z) := Proc demo_vfs [] [] ∅ 0 0 None.
Lemma demo_proc_sim : sim 1 demo_proc (SProc [] []).
Proof. split; [exact demo_vfs_ok|constructor|constructor|split; constructor]. Qed.

Definition path_A : list Z := [47; 66; 73; 78; 47; 65].
Definition rw : Access := Acc false true true.
Definition demo_ops : list op :=
  [OOpen path_A; ORead 0 3; OMmap 0x5000 100 rw (Flg false true) 0 0; OLseek 0 (-2) SeekCur; ORead 0 2; OClose 0; ORead 0 2].

(** [mmap] of an open file at an unaligned address fails, and drops a
    reference it did not take: the file is gone while it is still open. *)
Example failed_mmap_drops_reference :
  match (r ← run_ops [OOpen path_A; OMmap 1 100 rw (Flg false true) 0 0]; mret r) demo_proc with
  | Ret (xs, st) => xs = [RFd (0, Ok); RPtr (None, InvalidArgs)] ∧ close 0 Ok st = Halt BadAccess
  | Halt _ => False
  end.
Proof. vm_compute. auto. Qed.
