(* ===== verification/Loader.v ===== *)
(** * Loading an ELF segment

    The proofs about [map_segment] of [Process.v] ([map_elf_segments] of
    [proc/process.cc]): the up to four areas of a segment follow each other
    without a gap from the page of its first byte to the page of its last,
    and every byte of the file is where the program expects it, in a page
    that is copied or in an area backed by the file. *)
From stdpp Require Import sorting.
From S2P Require Import Prelude Algorithm Libc MemoryMap PageCache Fat32 Vfs Elf Process.

Lemma PG_4096 : PG_SZ = 4096. Proof. done. Qed.

(** ** Stores to a page of an anonymous area *)
Section stores.
Context {F : Type} `{FD : FsDriver F} (stale : Z → option bytes).

Definition covers (v : VMA) (x : Z) : Prop := v_addr v ≤ x < v_addr v + v_len v.
Definition private_anon (v : VMA) : Prop := map_anon (v_flags v) = true ∧ map_private (v_flags v) = true.

Lemma in_vma_covers v x : vma_fits v → in_vma x v = true ↔ covers v x.
Proof.
  intros (?&?&?). unfold in_vma, covers. rewrite wrap_small by lia.
  rewrite negb_true_iff, orb_false_iff, Z.ltb_ge, Z.leb_gt. lia.
Qed.

(** Areas are disjoint, so the first one found is the only one. *)
Lemma filter_vma l v x : vmas_ok l → v ∈ l → covers v x → filter (λ w, in_vma x w = true) l = [v].
Proof.
  intros [Hs Hf] Hin Hc. induction l as [|w l IH]; [by apply elem_of_nil in Hin|].
  apply StronglySorted_inv in Hs as [Hs Hb]. apply Forall_cons in Hf as [Hw Hf].
  assert (Hnone : ∀ u, u ∈ l → covers w x → covers u x → False).
  { intros u Hu Hwx Hux. rewrite Forall_forall in Hb. specialize (Hb u Hu). unfold before, covers in *. lia. }
  apply elem_of_cons in Hin as [<-|Hin].
  - rewrite filter_cons_True by (by apply in_vma_covers). f_equal.
    clear IH Hs Hb. induction l as [|u l IH]; [done|]. apply Forall_cons in Hf as [Hu Hf].
    rewrite filter_cons_False; [apply IH; [done|]|].
    + intros u' Hu'. apply Hnone. by right.
    + rewrite in_vma_covers by done. intros Hux. apply (Hnone u); [by left|done|done].
  - rewrite filter_cons_False; [by apply IH|]. rewrite in_vma_covers by done. intros Hwx. by apply (Hnone v).
Qed.

(** What a page shows before a store: its contents, or those of the frame
    the fault will bring. *)
Definition shown (st : proc F) (p : Z) (bs : bytes) : Prop :=
  match pages st !! p with
  | Some pg => ∀ i, up_bytes pg i = bs i
  | None => ∃ b0, stale p = Some b0 ∧ ∀ i, b0 i = bs i
  end.
Definition same_but_page (p : Z) (st st' : proc F) : Prop :=
  pvfs st' = pvfs st ∧ fds st' = fds st ∧ vmas st' = vmas st ∧ eip3 st' = eip3 st ∧ esp3 st' = esp3 st ∧ tid st' = tid st ∧
  ∀ q, q ≠ p → pages st' !! q = pages st !! q.
Definition writable_page (st : proc F) (p : Z) : Prop :=
  vmas_ok (vmas st) ∧ ∃ v, v ∈ vmas st ∧ private_anon v ∧ (∀ x, x / PG_SZ = p → covers v x ∧ 0 ≤ x < hhdm_start).

Definition present (st : proc F) (p : Z) : Prop := is_Some (pages st !! p).

Lemma same_but_page_refl p st : same_but_page p st st. Proof. by repeat split. Qed.
Lemma same_but_page_trans p st1 st2 st3 : same_but_page p st1 st2 → same_but_page p st2 st3 → same_but_page p st1 st3.
Proof.
  intros (?&?&?&?&?&?&HA) (?&?&?&?&?&?&HB). repeat (split; [congruence|]). intros q Hq. by rewrite HB, HA.
Qed.
Lemma writable_page_same p st st' : same_but_page p st st' → writable_page st p → writable_page st' p.
Proof. intros (_ & _ & He & _). unfold writable_page. by rewrite He. Qed.

Lemma floor_page va : 0 ≤ va < 2 ^ 64 → floor_pow2 PG_SZ va = va / PG_SZ * PG_SZ.
Proof.
  intros Hva. pose proof PG_4096. destruct (floor_pow2_le 12 va ltac:(lia) Hva) as (Hle & Hal & _). change (2 ^ 12) with PG_SZ in *.
  pose proof (Z.div_mod (floor_pow2 PG_SZ va) PG_SZ ltac:(lia)) as Hd. rewrite Hal in Hd.
  assert (floor_pow2 PG_SZ va / PG_SZ = va / PG_SZ) as He; [|lia].
  apply (Z.div_unique_pos va PG_SZ _ (va - floor_pow2 PG_SZ va)); lia.
Qed.

Lemma wp_user_store st va b bs : writable_page st (va / PG_SZ) → shown st (va / PG_SZ) bs →
  wp (store stale va b) (λ _ st', same_but_page (va / PG_SZ) st st' ∧ present st' (va / PG_SZ) ∧
    shown st' (va / PG_SZ) (λ i, if i =? va mod PG_SZ then b else bs i)) st.
Proof.
  intros (Hok & v & Hv & [Han Hpr] & Hcov) Hsh. destruct (Hcov va eq_refl) as [Hc Hr]. unfold store.
  set (p := va / PG_SZ) in *. set (Q := λ (_ : unit) st', same_but_page p st st' ∧ present st' p ∧
    shown st' p (λ i, if i =? va mod PG_SZ then b else bs i)).
  assert (Hput : ∀ st1 pg, same_but_page p st st1 → pages st1 !! p = Some pg → (∀ i, up_bytes pg i = bs i) →
    wp (st0 ← getS; match pages st0 !! p with
        | Some pg => putS (with_pages (<[p := put_byte va b pg]> (pages st0)) st0)
        | None => halt OutOfFuel end) Q st1).
  { intros st1 pg Hsame Hpg Hbs. apply wp_bind, wp_get. rewrite Hpg. apply wp_put. split; [|split].
    - eapply same_but_page_trans; [exact Hsame|]. repeat (split; [done|]). intros q Hq. simpl. by rewrite lookup_insert_ne.
    - unfold present. simpl. rewrite lookup_insert_eq. eauto.
    - unfold shown. simpl. rewrite lookup_insert_eq. intros i. simpl. by rewrite Hbs. }
  apply wp_bind, wp_get, wp_bind. unfold shown in Hsh.
  destruct (pages st !! p) as [pg|] eqn:Hpg.
  { rewrite bool_decide_true by eauto. apply wp_ret. by apply (Hput st pg); [apply same_but_page_refl|..]. }
  rewrite bool_decide_false by (by intros [? ?]). apply wp_bind. unfold isr_pf. apply wp_bind, wp_get.
  rewrite (filter_vma _ v) by done. change (bit_cast 2) with (PFErr false true false false). cbn [e_p e_u].
  assert ((va <? hhdm_start) = true) as -> by (apply Z.ltb_lt; lia). cbn [negb andb]. rewrite andb_false_r, Han, Hpr.
  rewrite floor_page by (change hhdm_start with 0xC0000000 in Hr; lia). rewrite Z.div_mul by done. fold p.
  destruct Hsh as (b0 & -> & Hb0). cbn [andb]. apply wp_bind, wp_put, wp_ret, wp_ret.
  eapply Hput; [|apply lookup_insert_eq|done]. repeat (split; [done|]). intros q Hq. simpl. by rewrite lookup_insert_ne.
Qed.

Lemma shown_ext st p f g : (∀ i, f i = g i) → shown st p f → shown st p g.
Proof.
  intros H. unfold shown. destruct (pages st !! p); [intros Hf i; by rewrite <- H|].
  intros (b0 & Hb & Hf). exists b0. split; [done|]. intros i. by rewrite <- H.
Qed.

(** Copying [n] bytes inside the page [p], from its byte [o] on *)
Definition spliced (o n : Z) (src : Z → Z) (bs : bytes) : bytes := λ j, if (o <=? j) && (j <? o + n) then src (j - o) else bs j.

Lemma wp_copy p n : ∀ o src i bs st, writable_page st p → shown st p bs → 0 ≤ o → o + Z.of_nat n ≤ PG_SZ →
  wp (copy_to_user stale n (p * PG_SZ + o) src i) (λ _ st', same_but_page p st st' ∧ ((0 < n)%nat ∨ present st p → present st' p) ∧
    shown st' p (spliced o (Z.of_nat n) (λ j, src (i + j)) bs)) st.
Proof.
  induction n as [|n IH]; intros o src i bs st Hw Hsh Ho Hn; simpl copy_to_user.
  { apply wp_ret. split; [apply same_but_page_refl|]. split; [intros [?|?]; [lia|done]|].
    eapply shown_ext; [|exact Hsh]. intros j. unfold spliced.
    destruct (Z.leb_spec o j), (Z.ltb_spec j (o + Z.of_nat 0)); simpl; done || lia. }
  assert (Hp : (p * PG_SZ + o) / PG_SZ = p ∧ (p * PG_SZ + o) mod PG_SZ = o).
  { pose proof PG_4096. rewrite Z.add_comm, Z.div_add, Z.mod_add, Z.div_small, Z.mod_small by lia. lia. }
  destruct Hp as [Hp1 Hp2]. pose proof (wp_user_store st (p * PG_SZ + o) (src i) bs) as Hst. rewrite Hp1, Hp2 in Hst.
  apply wp_bind. eapply wp_mono; [by apply Hst|]. intros _ st1 (Hs1 & Hpr & Hsh1).
  rewrite <- Z.add_assoc. eapply wp_mono; [eapply (IH (o + 1) src (i + 1) _ st1); [by eapply writable_page_same|exact Hsh1|lia|lia]|].
  intros _ st2 (Hs2 & Hpr2 & Hsh2). split; [by eapply same_but_page_trans|]. split; [auto|].
  eapply shown_ext; [|exact Hsh2]. intros j. unfold spliced.
  destruct (Z.leb_spec (o + 1) j), (Z.ltb_spec j (o + 1 + Z.of_nat n)), (Z.leb_spec o j), (Z.ltb_spec j (o + Z.of_nat (S n))); simpl; try lia;
    destruct (Z.eqb_spec j o) as [->|]; try lia; f_equal; lia.
Qed.

Lemma wp_memcpy_user p o n src bs st : writable_page st p → shown st p bs → 0 ≤ o → 0 ≤ n → o + n ≤ PG_SZ →
  wp (memcpy_user stale (p * PG_SZ + o) src n) (λ _ st', same_but_page p st st' ∧ (0 < n ∨ present st p → present st' p) ∧
    shown st' p (spliced o n src bs)) st.
Proof.
  intros Hw Hsh Ho Hn Hb. unfold memcpy_user. eapply wp_mono; [apply (wp_copy p (Z.to_nat n) o src 0 bs); (done || lia)|].
  intros _ st' (? & Hp & ?). rewrite Z2Nat.id in * by done. split; [done|]. split; [|done].
  intros [?|?]; apply Hp; [left; lia|by right].
Qed.

(** A whole page: zeros, [n] bytes of [src] from [o] on, zeros. *)
Definition page_is (st : proc F) (p : Z) (f : Z → Z) : Prop :=
  ∃ pg, pages st !! p = Some pg ∧ ∀ i, 0 ≤ i < PG_SZ → up_bytes pg i = f i.

Lemma wp_fill_page p o n src st : writable_page st p → (∃ bs, shown st p bs) → 0 ≤ o → 0 ≤ n → 0 < o + n → o + n ≤ PG_SZ →
  wp (_ ← memset_user stale (p * PG_SZ) o; _ ← memcpy_user stale (p * PG_SZ + o) src n;
      memset_user stale (p * PG_SZ + (o + n)) (PG_SZ - (o + n)))
    (λ _ st', same_but_page p st st' ∧ page_is st' p (λ i, if (o <=? i) && (i <? o + n) then src (i - o) else 0)) st.
Proof.
  intros Hw [bs Hsh] Ho Hn Hpos Hb. unfold memset_user. apply wp_bind. replace (p * PG_SZ) with (p * PG_SZ + 0) at 1 by lia.
  eapply wp_mono; [by apply (wp_memcpy_user p 0 o _ bs); [| |lia|lia|lia]|]. intros _ st1 (H1 & P1 & S1).
  apply wp_bind. eapply wp_mono; [eapply (wp_memcpy_user p o n src _ st1); [by eapply writable_page_same|exact S1|lia|lia|lia]|].
  intros _ st2 (H2 & P2 & S2). assert (H12 : same_but_page p st st2) by by eapply same_but_page_trans.
  eapply wp_mono; [eapply (wp_memcpy_user p (o + n) (PG_SZ - (o + n)) _ _ st2); [by eapply writable_page_same|exact S2|lia|lia|lia]|].
  intros _ st3 (H3 & P3 & S3). split; [by eapply same_but_page_trans|].
  destruct P3 as [pg Hpg]. { right. destruct (Z.eq_dec n 0); apply P2; [right; apply P1; left; lia|left; lia]. }
  exists pg. split; [done|]. unfold shown in S3. rewrite Hpg in S3. intros i Hi. rewrite S3. unfold spliced.
  destruct (Z.leb_spec (o + n) i), (Z.ltb_spec i (o + n + (PG_SZ - (o + n)))), (Z.leb_spec o i), (Z.ltb_spec i (o + n)),
    (Z.leb_spec 0 i), (Z.ltb_spec i (0 + o)); simpl; done || lia.
Qed.
End stores.

(** ** The areas of a segment *)
Section layout.
Context (ph : PHEntry.Entry) (k : Z).
Abbreviation va := (PHEntry.vaddr ph).
Abbreviation off := (PHEntry.offset ph).
Abbreviation fsz := (PHEntry.filesz ph).
Abbreviation msz := (PHEntry.memsz ph).

Definition seg_start : Z := va / PG_SZ * PG_SZ.
Definition anon_piece (a b : Z) : VMA := Vma a (b - a) (prot_of ph) flags_anon None 0.
Definition file_piece (a b : Z) : VMA := Vma a (b - a) (prot_of ph) flags_file (Some k) (off + (a - va)).
Definition has_tail : bool := (full_pg_end ph <? filesz_ceil ph) && (full_pg_start ph <=? full_pg_end ph).
Definition pieces : list VMA :=
  (if PG_ALIGNED va then [] else [anon_piece seg_start (full_pg_start ph)]) ++
  (if full_pg_start ph <? full_pg_end ph then [file_piece (full_pg_start ph) (full_pg_end ph)] else []) ++
  (if has_tail then [anon_piece (full_pg_end ph) (filesz_ceil ph)] else []) ++
  (if filesz_ceil ph <? memsz_ceil ph then [anon_piece (filesz_ceil ph) (memsz_ceil ph)] else []).

(** The areas [ps] follow each other from [lo] to [hi]. *)
Fixpoint chain (lo : Z) (ps : list VMA) (hi : Z) : Prop :=
  match ps with
  | [] => lo = hi
  | v :: ps => v_addr v = lo ∧ 0 < v_len v ∧ chain (lo + v_len v) ps hi
  end.

(** The byte the program expects at [x]. *)
Definition seg_byte (fbyte : Z → Z) (x : Z) : Z := if (va <=? x) && (x <? va + fsz) then fbyte (off + (x - va)) else 0.

Record seg_ok (fsize : Z) : Prop := {
  so_align : va mod PG_SZ = off mod PG_SZ;
  so_range : 0 ≤ va ∧ 0 ≤ fsz ≤ msz ∧ va + msz + PG_SZ ≤ hhdm_start;
  so_file : 0 ≤ off ∧ off + fsz ≤ fsize ∧ off + fsz + PG_SZ ≤ 2 ^ 31 }.

(** The page boundaries, in pages. *)
Lemma seg_numbers fsize : seg_ok fsize → ∃ a c e f m : Z,
  seg_start = 4096 * a ∧ full_pg_start ph = 4096 * c ∧ full_pg_end ph = 4096 * e ∧ filesz_ceil ph = 4096 * f ∧
  memsz_ceil ph = 4096 * m ∧ 0 ≤ a ∧
  4096 * a ≤ va < 4096 * a + 4096 ∧ va ≤ 4096 * c < va + 4096 ∧ 4096 * e ≤ va + fsz < 4096 * e + 4096 ∧
  va + fsz ≤ 4096 * f < va + fsz + 4096 ∧ va + msz ≤ 4096 * m < va + msz + 4096 ∧
  (PG_ALIGNED va = true ↔ va = 4096 * a) ∧ floor_pg off = 4096 * (off / 4096) ∧ off - 4096 * (off / 4096) = va - 4096 * a ∧
  4096 * m ≤ hhdm_start ∧ floor_pg va = 4096 * a ∧ ceil_pg va = 4096 * c ∧ u32 (va + fsz) = va + fsz.
Proof.
  intros [Hal (Hva & Hsz & Hhi) (Hoff & Hfs & Hof)]. change hhdm_start with 0xC0000000 in *. pose proof PG_4096 as HPG.
  assert (Hceil : ∀ n, 0 ≤ n < 2 ^ 32 → ∃ c, ceil_pg n = 4096 * c ∧ n ≤ 4096 * c < n + 4096).
  { intros n Hn. destruct (ceil_pow2_ge 12 n ltac:(lia) ltac:(lia) ltac:(lia)) as [H1 H2]. unfold ceil_pg.
    change (2 ^ 12) with PG_SZ in *. exists (ceil_pow2 PG_SZ n / PG_SZ). rewrite HPG in *.
    pose proof (Z.div_mod (ceil_pow2 4096 n) 4096 ltac:(lia)). lia. }
  assert (Hfloor : ∀ n, 0 ≤ n < 2 ^ 32 → floor_pg n = 4096 * (n / 4096) ∧ 4096 * (n / 4096) ≤ n < 4096 * (n / 4096) + 4096).
  { intros n Hn. unfold floor_pg. rewrite floor_page by lia. rewrite HPG.
    pose proof (Z.div_mod n 4096 ltac:(lia)). pose proof (Z.mod_pos_bound n 4096 ltac:(lia)). lia. }
  destruct (Hceil va ltac:(lia)) as (c & Hc & Hc'), (Hceil (va + fsz) ltac:(lia)) as (f & Hf & Hf'),
    (Hceil (va + msz) ltac:(lia)) as (m & Hm & Hm'), (Hfloor va ltac:(lia)) as [Ha Ha'],
    (Hfloor (va + fsz) ltac:(lia)) as [He He'], (Hfloor off ltac:(lia)) as [Ho Ho'].
  exists (va / 4096), c, ((va + fsz) / 4096), f, m.
  unfold seg_start, full_pg_start, full_pg_end, filesz_ceil, memsz_ceil.
  rewrite (wrap_small 32 (va + fsz)), (wrap_small 32 (va + msz)) by lia.
  rewrite Hc, He, Hf, Hm, Ha, Ho, !wrap_small by lia. rewrite PG_ALIGNED_spec, HPG in *.
  pose proof (Z.div_mod va 4096 ltac:(lia)) as Hdv. pose proof (Z.div_mod off 4096 ltac:(lia)) as Hdo.
  repeat (split; [lia|]). lia.
Qed.

Lemma pieces_chain fsize : seg_ok fsize → chain seg_start pieces (memsz_ceil ph).
Proof.
  intros Hok. destruct (seg_numbers _ Hok) as (a & c & e & f & m & Ea & Ec & Ee & Ef & Em & Hn).
  pose proof (so_range _ Hok) as (Hva & Hsz & _). unfold pieces, has_tail.
  rewrite Ea, Ec, Ee, Ef, Em.
  destruct (PG_ALIGNED va) eqn:Hp; [assert (va = 4096 * a) by (by apply Hn)|assert (va ≠ 4096 * a) by (intros H; by apply Hn in H)];
  destruct (Z.ltb_spec (4096 * c) (4096 * e)), (Z.ltb_spec (4096 * e) (4096 * f)), (Z.leb_spec (4096 * c) (4096 * e)),
    (Z.ltb_spec (4096 * f) (4096 * m)); simpl; lia.
Qed.

(** Every byte of a segment has its area. *)
Lemma pieces_cover fsize x : seg_ok fsize → seg_start ≤ x < memsz_ceil ph →
  (negb (PG_ALIGNED va) = true ∧ x / PG_SZ = seg_start / PG_SZ) ∨
  (has_tail = true ∧ x / PG_SZ = full_pg_end ph / PG_SZ) ∨
  (∃ v, v ∈ pieces ∧ covers v x ∧ if x <? va + fsz then v_dentry v = Some k ∧ v_offset v + (x - v_addr v) = off + (x - va) else private_anon v).
Proof.
  intros Hok Hx. destruct (seg_numbers _ Hok) as (a & c & e & f & m & Ea & Ec & Ee & Ef & Em & Hn).
  pose proof (so_range _ Hok) as (Hva & Hsz & _). pose proof PG_4096 as HPG. unfold has_tail, pieces, has_tail in *.
  rewrite Ea, Ec, Ee, Ef, Em in *. rewrite HPG. rewrite !(Z.mul_comm 4096 a), !(Z.mul_comm 4096 e), !Z.div_mul by lia.
  rewrite <- !(Z.mul_comm 4096 a), <- !(Z.mul_comm 4096 e).
  assert (Hdiv : ∀ q, 4096 * q ≤ x < 4096 * q + 4096 → x / 4096 = q).
  { intros q Hq. symmetry. apply (Z.div_unique_pos x 4096 q (x - 4096 * q)); lia. }
  destruct (Z.le_gt_cases (4096 * f) x) as [Hbss|Hbss].
  { right; right. exists (anon_piece (4096 * f) (4096 * m)).
    assert ((4096 * f <? 4096 * m) = true) as -> by (apply Z.ltb_lt; lia).
    assert ((x <? va + fsz) = false) as -> by (apply Z.ltb_ge; lia).
    split; [rewrite !elem_of_app; do 3 right; by left|]. split; [|done]. unfold covers, anon_piece. simpl. lia. }
  destruct (Z.le_gt_cases (4096 * c) x) as [Hc|Hc].
  2:{ left. split; [|apply Hdiv; lia]. apply negb_true_iff. destruct (PG_ALIGNED va) eqn:Hp; [|done].
      assert (va = 4096 * a) by (by apply Hn). lia. }
  destruct (Z.le_gt_cases (4096 * e) x) as [He|He].
  { right; left. split; [|apply Hdiv; lia]. rewrite andb_true_iff, Z.ltb_lt, Z.leb_le. lia. }
  right; right. exists (file_piece (4096 * c) (4096 * e)).
  assert ((4096 * c <? 4096 * e) = true) as -> by (apply Z.ltb_lt; lia).
  assert ((x <? va + fsz) = true) as -> by (apply Z.ltb_lt; lia).
  split; [rewrite !elem_of_app; right; left; by left|]. unfold covers, file_piece. simpl. split; [lia|]. split; [done|lia].
Qed.
End layout.

(** ** Loading a segment *)
Section segment.
Context {F : Type} `{FD : FsDriver F} (stale : Z → option bytes) (kr k fd : Z) (ph : PHEntry.Entry).
Abbreviation va := (PHEntry.vaddr ph).
Abbreviation off := (PHEntry.offset ph).
Abbreviation fsz := (PHEntry.filesz ph).

(** While the segment is loaded: [fd] is open on the executable [k], and
    there is neither an area nor a page between [lo] and [hi]. *)
Record loading (st : proc F) (s : sproc) (lo hi : Z) : Prop := {
  ld_sim : sim kr st s;
  ld_fd : ∃ o, entry_of fd (s_fds s) = Some (k, o);
  ld_free : Forall (λ v, v_addr v + v_len v ≤ lo ∨ hi ≤ v_addr v) (s_vmas s);
  ld_pages : ∀ p, lo ≤ p * PG_SZ < hi → pages st !! p = None ∧ is_Some (stale p) }.

Lemma free_no_overlap l a b hi : Forall (λ v, v_addr v + v_len v ≤ a ∨ hi ≤ v_addr v) l → a < b ≤ hi →
  existsb (overlaps a (b - a)) l = false.
Proof.
  induction 1 as [|v l Hv Hl IH]; intros Hab; [done|]. simpl. rewrite IH by done. unfold overlaps.
  destruct (Z.ltb_spec a (v_addr v + v_len v)), (Z.ltb_spec (v_addr v) (a + (b - a))); simpl; done || lia.
Qed.

(** One area, at the start of the free range *)
Lemma wpx_piece E st s a len hi flags fd' obj o :
  loading st s a hi → 0 < len → a + len ≤ hi → 0 ≤ a → hi ≤ hhdm_start → a mod PG_SZ = 0 → o mod PG_SZ = 0 → 0 ≤ fd < InvalidFD →
  (fd' = InvalidFD ∧ obj = None ∧ flags = flags_anon ∨ fd' = fd ∧ obj = Some k ∧ flags = flags_file) →
  wpx E (mmap a len (prot_of ph) flags fd' o Ok) (λ x st', x = (Some a, Ok) ∧ same_user st st' ∧
    loading st' (SProc (s_fds s) (insert_vma (Vma a len (prot_of ph) flags obj o) (s_vmas s))) (a + len) hi) st.
Proof.
  intros [Hsim [o' Hfd'] Hfree Hpg] Hlen Hab Ha Hhi Hal Hoal Hfd Hobj.
  change hhdm_start with 0xC0000000 in Hhi. unfold InvalidFD in *.
  assert (Hs : s_mmap a len (prot_of ph) flags fd' o s =
    (RPtr (Some a, Ok), SProc (s_fds s) (insert_vma (Vma a len (prot_of ph) flags obj o) (s_vmas s)))).
  { pose proof (free_no_overlap _ a (a + len) hi Hfree ltac:(lia)) as Hno.
    replace (a + len - a) with len in Hno by lia. unfold s_mmap. rewrite Hno, Hal, Hoal.
    assert (negb (len =? 0) = true) as Hnz by (apply negb_true_iff, Z.eqb_neq; lia).
    unfold InvalidFD. destruct Hobj as [(-> & -> & ->)|(-> & -> & ->)].
    - rewrite Z.eqb_refl, Hnz. done.
    - destruct (Z.eqb_spec fd (2 ^ 32 - 1)); [lia|]. rewrite Hfd'. simpl. by rewrite Hnz. }
  eapply wpx_mono; [apply (wpx_mmap kr E st s a len (prot_of ph) flags fd' o Hsim)|].
  { cbn [op_ok]. unfold InvalidFD. split_and!; try (destruct Hobj as [(-> & _ & _)|(-> & _ & _)]; lia); try lia.
    destruct Hobj as [(-> & _ & _)|(-> & _ & ->)]; [by left|right]. split_and!; (done || lia). }
  rewrite Hs. cbn [fst snd]. intros x st' ([= <-] & Hsim' & Hu). split; [done|]. split; [done|]. split; [done|eauto| |].
  - simpl. apply insert_vma_Forall; [left; simpl; lia|]. eapply Forall_impl; [exact Hfree|]. simpl. intros v ?. lia.
  - destruct Hu as [-> _]. intros p Hp. apply Hpg. lia.
Qed.

Lemma same_user_trans (st1 st2 st3 : proc F) : same_user st1 st2 → same_user st2 st3 → same_user st1 st3.
Proof. intros (?&?&?&?) (?&?&?&?). repeat split; congruence. Qed.

Lemma sim_pages st st' s p : same_but_page p st st' → sim kr st s → sim kr st' s.
Proof.
  intros (Hv & Hf & Hm & _) [? ? ? ?]. split; unfold refs in *; rewrite ?Hv, ?Hf, ?Hm; done.
Qed.

(** The area just made is the one a fault in it finds. *)
Lemma piece_writable st s a v : sim kr st (SProc s (insert_vma v a)) → v_dentry v = None → private_anon v →
  0 ≤ v_addr v → v_addr v + v_len v ≤ hhdm_start → ∀ p, v_addr v = p * PG_SZ → PG_SZ ≤ v_len v → writable_page st p.
Proof.
  intros [_ _ Hm Hs] Hd Hpa Ha Hhi p Hp Hl. split; [done|]. simpl in Hm.
  assert (Hin : v ∈ insert_vma v a).
  { clear. induction a as [|w a IH]; simpl; [by left|]. destruct (_ <? _); [by left|by right]. }
  apply list_elem_of_lookup in Hin as [i Hi].
  destruct (Forall2_lookup_r _ _ _ _ _ Hm Hi) as (w & Hw & Heq & Hwd).
  assert (v_dentry w = None) as Hwn. { destruct (v_dentry w); [|done]. by rewrite Hd in Hwd. }
  exists w. split; [by eapply list_elem_of_lookup_2|]. rewrite Heq. split; [done|].
  intros x Hx. pose proof PG_4096 as HPG. pose proof (Z.div_mod x PG_SZ ltac:(lia)) as Hdm.
  pose proof (Z.mod_pos_bound x PG_SZ ltac:(lia)). unfold covers. simpl. rewrite Hx in Hdm. lia.
Qed.

Lemma wpx_copy_file_page st s lo hi o buf : loading st s lo hi → isdir k = false → 0 ≤ fd → 0 ≤ o < 2 ^ 31 → o mod PG_SZ = 0 →
  wpx oom_only (copy_file_page fd o buf Ok) (λ x st', x.1 = Ok ∧ (∀ i, 0 ≤ i < PG_SZ → o + i < fsize k → x.2 i = fbyte k (o + i)) ∧
    same_user st st' ∧ ∃ l, loading st' (SProc l (s_vmas s)) lo hi) st.
Proof.
  intros [Hsim [o' Hfd'] Hfree Hpg] Hdir Hfd Ho Hal. unfold copy_file_page. pose proof PG_4096 as HPG.
  apply wpx_bind, wpx_assert; [by rewrite (proj2 (PG_ALIGNED_spec o) Hal)|]. intros _. apply wpx_bind.
  assert (Hsg : signed 32 o = o).
  { unfold signed. rewrite wrap_small by lia. by rewrite bool_decide_true by (simpl; lia). }
  rewrite Hsg. eapply wpx_mono; [by apply (wpx_lseek kr _ st s fd o SeekSet Hsim)|].
  assert (Hs1 : s_lseek fd o SeekSet s = (RRes Ok, SProc (<[Z.to_nat fd := Some (k, o)]> (s_fds s)) (s_vmas s))).
  { unfold s_lseek. rewrite Hfd'. by assert ((o <? 0) = false) as -> by (apply Z.ltb_ge; lia). }
  rewrite Hs1. cbn [fst snd]. intros r st1 ([= <-] & Hsim1 & Hu1). set (s1 := SProc _ _) in Hsim1.
  assert (He1 : entry_of fd (s_fds s1) = Some (k, o)).
  { unfold entry_of in *. simpl. rewrite length_insert. destruct (fd <? zlen (s_fds s)) eqn:Hlt; [|done].
    rewrite list_lookup_insert_eq by (apply Z.ltb_lt in Hlt; lia). done. }
  unfold check_res. rewrite bool_decide_true by done. apply wpx_bind.
  eapply wpx_mono; [by apply (wpx_read kr st1 s1 fd PG_SZ Hsim1)|]. unfold s_read. rewrite He1, Hdir.
  assert (u32 o = o) as -> by (apply wrap_small; lia). cbn [fst snd]. intros r st2 ([= <-] & Hsim2 & Hu2).
  apply wpx_ret. split; [done|]. split; [|split].
  - intros i Hi Hlt. simpl. unfold fill. assert ((0 <=? i) = true) as -> by (apply Z.leb_le; lia).
    unfold file_slice. rewrite list_lookup_fmap, lookup_seq_lt by lia. simpl. f_equal. lia.
  - by eapply same_user_trans.
  - simpl in Hsim2. eexists. split; [exact Hsim2| |exact Hfree|].
    + unfold entry_of in *. simpl. rewrite !length_insert. destruct (fd <? zlen (s_fds s)) eqn:Hlt; [|done].
      rewrite list_lookup_insert_eq by (rewrite length_insert; apply Z.ltb_lt in Hlt; lia). simpl. eauto.
    + destruct Hu1 as (H1 & _), Hu2 as (H2 & _). rewrite H2, H1. exact Hpg.
Qed.

Definition add_vmas (l ps : list VMA) : list VMA := foldl (λ l v, insert_vma v l) l ps.

(** The page [p] is copied: [n] bytes from [o] on, and zeros around. *)
Lemma wpx_fill E st s l p o n src hi :
  let v := Vma (p * PG_SZ) PG_SZ (prot_of ph) flags_anon None 0 in
  loading st (SProc l (insert_vma v (s_vmas s))) (p * PG_SZ + PG_SZ) hi → 0 ≤ p → p * PG_SZ + PG_SZ ≤ hhdm_start →
  pages st !! p = None → is_Some (stale p) → 0 ≤ o → 0 ≤ n → 0 < o + n → o + n ≤ PG_SZ →
  wpx E (_ ← memset_user stale (p * PG_SZ) o; _ ← memcpy_user stale (p * PG_SZ + o) src n;
         memset_user stale (p * PG_SZ + (o + n)) (PG_SZ - (o + n)))
    (λ _ st', loading st' (SProc l (insert_vma v (s_vmas s))) (p * PG_SZ + PG_SZ) hi ∧ same_but_page p st st' ∧
      page_is st' p (λ i, if (o <=? i) && (i <? o + n) then src (i - o) else 0)) st.
Proof.
  intros v [Hsim Hfd Hfree Hpg] Hp Hhi Hnone [b0 Hb0] Ho Hn Hpos Hle. pose proof PG_4096.
  assert (Hw : writable_page st p) by (apply (piece_writable st l (s_vmas s) v Hsim); simpl; (done || lia)).
  assert (Hsh : ∃ bs, shown stale st p bs) by (exists b0; unfold shown; rewrite Hnone; eauto).
  apply wpx_wp. eapply wp_mono; [by apply (wp_fill_page stale p o n src st)|].
  intros _ st' [Hsame Hpage]. split; [|done]. split; [by eapply sim_pages|done|done|].
  intros q Hq. destruct Hsame as (_ & _ & _ & _ & _ & _ & Hq'). rewrite Hq' by nia. auto.
Qed.

Definition copied_vma (p : Z) : VMA := Vma (p * PG_SZ) PG_SZ (prot_of ph) flags_anon None 0.

(** A page that is mapped and copied, as at the two ends of a segment *)
Lemma wpx_copied st s p hi fo o n buf (K : Result → bytes → M (proc F) (Result * bytes)) :
  loading st s (p * PG_SZ) hi → 0 ≤ p → p * PG_SZ + PG_SZ ≤ hi → hi ≤ hhdm_start → fo mod PG_SZ = 0 → 0 ≤ fo < 2 ^ 31 →
  isdir k = false → 0 ≤ fd < InvalidFD → 0 ≤ o → 0 ≤ n → 0 < o + n → o + n ≤ PG_SZ → (0 < n → fo + o + n ≤ fsize k) →
  (∀ b st', K Ok b st' = (_ ← (_ ← memset_user stale (p * PG_SZ) o; _ ← memcpy_user stale (p * PG_SZ + o) (λ i, b (o + i)) n;
         memset_user stale (p * PG_SZ + (o + n)) (PG_SZ - (o + n))); mret (Ok, b)) st') →
  wpx oom_only ('(_, res) ← mmap (p * PG_SZ) PG_SZ (prot_of ph) flags_anon InvalidFD 0 Ok;
      check_res res buf ('(res, buf) ← copy_file_page fd fo buf res; check_res res buf (K res buf)))
    (λ x st', x.1 = Ok ∧ (∃ l, loading st' (SProc l (insert_vma (copied_vma p) (s_vmas s))) (p * PG_SZ + PG_SZ) hi) ∧
      page_is st' p (λ i, if (o <=? i) && (i <? o + n) then fbyte k (fo + i) else 0) ∧
      (∀ q, q ≠ p → pages st' !! q = pages st !! q) ∧ eip3 st' = eip3 st) st.
Proof.
  intros Hld Hp Hhi Hhh Hfal Hfo Hdir Hfd Ho Hn Hpos Hle Hfs HK. pose proof PG_4096 as HPG.
  assert (Hpg0 : pages st !! p = None ∧ is_Some (stale p)) by (apply (ld_pages _ _ _ _ Hld); lia). apply wpx_bind.
  eapply wpx_mono; [apply (wpx_piece _ st s (p * PG_SZ) PG_SZ hi flags_anon InvalidFD None 0 Hld); try done; try lia; [|by left]|].
  { by apply Z.mod_mul. }
  intros [x r] st1 ([= -> ->] & (Hu1 & He1 & _) & Hld1). unfold check_res at 1. rewrite bool_decide_true by done. apply wpx_bind.
  eapply wpx_mono; [eapply (wpx_copy_file_page st1 _ _ _ fo buf Hld1); (done || lia)|].
  intros [r buf'] st2. cbn [fst snd s_vmas]. intros (-> & Hbuf & (Hu2 & He2 & _) & l & Hld2). unfold check_res. rewrite bool_decide_true by done.
  eapply wpx_eq; [apply HK|]. apply wpx_bind. destruct Hpg0 as [Hnone Hst].
  eapply wpx_mono; [apply (wpx_fill _ st2 s l p o n (λ i, buf' (o + i)) hi Hld2); try done; [lia|by rewrite Hu2, Hu1]|].
  intros _ st3 (Hld3 & (_ & _ & _ & He3 & _ & _ & Hsame) & pg & Hpg & Hbytes). apply wpx_ret. split; [done|].
  split; [by exists l|]. split; [|split; [intros q Hq; by rewrite Hsame, Hu2, Hu1|congruence]].
  exists pg. split; [done|]. intros i Hi. rewrite Hbytes by done.
  destruct (Z.leb_spec o i), (Z.ltb_spec i (o + n)); simpl; try done.
  replace (o + (i - o)) with i by lia. apply Hbuf; lia.
Qed.

Definition head_pieces : list VMA := if PG_ALIGNED va then [] else [anon_piece ph (seg_start ph) (full_pg_start ph)].
Definition seg_page (st : proc F) (p : Z) : Prop := page_is st p (λ i, seg_byte ph (fbyte k) (p * PG_SZ + i)).

Lemma page_is_ext (st : proc F) p f g : (∀ i, 0 ≤ i < PG_SZ → f i = g i) → page_is st p f → page_is st p g.
Proof. intros H (pg & Hp & Hf). exists pg. split; [done|]. intros i Hi. by rewrite Hf, H. Qed.

Lemma wpx_map_head st s hi buf : loading st s (seg_start ph) hi → seg_ok ph (fsize k) → isdir k = false →
  0 ≤ fd < InvalidFD → full_pg_start ph ≤ hi → hi ≤ hhdm_start →
  wpx oom_only (map_head stale fd ph buf Ok) (λ x st', x.1 = Ok ∧
    (∃ l, loading st' (SProc l (add_vmas (s_vmas s) head_pieces)) (full_pg_start ph) hi) ∧
    (PG_ALIGNED va = false → seg_page st' (seg_start ph / PG_SZ)) ∧
    (∀ q, PG_ALIGNED va = true ∨ q ≠ seg_start ph / PG_SZ → pages st' !! q = pages st !! q) ∧ eip3 st' = eip3 st) st.
Proof.
  intros Hld Hok Hdir Hfd Hhi Hhh. pose proof PG_4096 as HPG. unfold head_pieces.
  destruct (seg_numbers ph _ Hok) as (a & c & e & f & m & Ea & Ec & _ & _ & _ & Ha0 & Ha & Hc & _ & _ & _ & Hal & Hfo & Hoa & _ & Hfa & Hca & Hu).
  pose proof (so_range _ _ Hok) as (Hva & Hsz & Hvhi). pose proof (so_file _ _ Hok) as (Hoff & Hfs & Hof).
  rewrite Ea, Ec in *. unfold map_head. destruct (PG_ALIGNED va) eqn:Hp.
  { apply wpx_ret. assert (c = a) as -> by (assert (va = 4096 * a) by (by apply Hal); lia).
    split; [done|]. split; [|done]. exists (s_fds s). by destruct s. }
  assert (va ≠ 4096 * a) by (intros Hx; by apply Hal in Hx). assert (c = a + 1) as -> by lia.
  assert (Hmod : va mod PG_SZ = va - 4096 * a).
  { rewrite HPG. rewrite <- (Z.mod_small (va - 4096 * a) 4096) by lia.
    by rewrite (Z.mul_comm 4096), Zminus_mod, Z.mod_mul, Z.sub_0_r, Z.mod_mod by lia. }
  rewrite Hfa, Hfo, Hmod, Hu, Hca. set (o := va - 4096 * a). set (n := Z.min (va + fsz) (4096 * (a + 1)) - va).
  change hhdm_start with 0xC0000000 in *. rewrite !(wrap_small 32 (Z.min _ _ - _)) by lia.
  replace (Z.min (va + fsz) (4096 * (a + 1)) - 4096 * a) with (o + n) by lia.
  rewrite (wrap_small 32 (o + n - o)), (wrap_small 32 (PG_SZ - (o + n))) by lia. replace (o + n - o) with n by lia.
  replace (4096 * a) with (a * PG_SZ) in * by lia. rewrite Z.div_mul by lia.
  eapply wpx_mono; [apply (wpx_copied st s a hi (4096 * (off / 4096)) o n buf); try done; try lia|].
  { rewrite HPG, Z.mul_comm. apply Z.mod_mul. lia. }
  { intros b st'. rewrite !M_bind_assoc. unfold mbind, M_bind. destruct (memset_user stale (a * PG_SZ) o st') as [[[] st1]|]; [|done].
    by destruct (memcpy_user _ _ _ _ st1) as [[[] st2]|]. }
  intros x st' (Hx & [l Hl] & Hpage & Hsame & Heip). split; [done|]. split; [|split; [|split; [|exact Heip]]].
  - exists l. replace (4096 * (a + 1)) with (a * PG_SZ + PG_SZ) by lia. unfold add_vmas, anon_piece. simpl.
    replace (a * PG_SZ + PG_SZ - a * PG_SZ) with PG_SZ by lia. exact Hl.
  - intros _. eapply page_is_ext; [|exact Hpage]. intros i Hi. unfold seg_byte. subst o n. change PG_SZ with 4096 in *.
    destruct (Z.leb_spec (va - 4096 * a) i), (Z.ltb_spec i (va - 4096 * a + (Z.min (va + fsz) (4096 * (a + 1)) - va))),
      (Z.leb_spec va (a * 4096 + i)), (Z.ltb_spec (a * 4096 + i) (va + fsz)); simpl; done || lia || (f_equal; lia).
  - intros q [?|Hq]; [done|auto].
Qed.

Definition full_pieces : list VMA :=
  if full_pg_start ph <? full_pg_end ph then [file_piece ph k (full_pg_start ph) (full_pg_end ph)] else [].
(** Where the segment goes on after its full pages *)
Definition full_done : Z := if full_pg_start ph <? full_pg_end ph then full_pg_end ph else full_pg_start ph.

Lemma wpx_map_full st s hi buf : loading st s (full_pg_start ph) hi → seg_ok ph (fsize k) →
  0 ≤ fd < InvalidFD → full_done ≤ hi → hi ≤ hhdm_start →
  wpx oom_only (map_full fd ph buf Ok) (λ x st', x = (Ok, buf) ∧
    (∃ l, loading st' (SProc l (add_vmas (s_vmas s) full_pieces)) full_done hi) ∧ pages st' = pages st ∧ eip3 st' = eip3 st) st.
Proof.
  intros Hld Hok Hfd Hhi Hhh. pose proof PG_4096 as HPG. unfold full_pieces, full_done, map_full in *.
  destruct (seg_numbers ph _ Hok) as (a & c & e & f & m & Ea & Ec & Ee & _ & _ & Ha0 & Ha & Hc & He & _ & _ & Hal & Hfo & Hoa & _ & Hfa & Hca & Hu).
  pose proof (so_range _ _ Hok) as (Hva & Hsz & Hvhi). pose proof (so_file _ _ Hok) as (Hoff & Hfs & Hof).
  rewrite Ec, Ee in *. destruct (Z.ltb_spec (4096 * c) (4096 * e)) as [Hce|Hce].
  2:{ apply wpx_ret. split; [done|]. split; [|done]. exists (s_fds s). by destruct s. }
  change hhdm_start with 0xC0000000 in *. rewrite (wrap_small 32 (4096 * c - va)), wrap_small by lia. apply wpx_bind.
  eapply wpx_mono; [apply (wpx_piece _ st s (4096 * c) (4096 * e - 4096 * c) hi flags_file fd (Some k) (off + (4096 * c - va)) Hld);
    try done; try lia|].
  { rewrite HPG, Z.mul_comm. by apply Z.mod_mul. }
  { replace (off + (4096 * c - va)) with ((off / 4096 - a + c) * 4096) by lia. by apply Z.mod_mul. }
  { by right. }
  intros [x r] st' ([= -> ->] & (Hu1 & He1 & _) & Hl). apply wpx_ret. split; [done|]. split; [|done].
  exists (s_fds s). replace (4096 * c + (4096 * e - 4096 * c)) with (4096 * e) in Hl by lia. exact Hl.
Qed.

Definition tail_pieces : list VMA := if has_tail ph then [anon_piece ph (full_pg_end ph) (filesz_ceil ph)] else [].

Lemma wpx_map_tail st s hi buf : loading st s full_done hi → seg_ok ph (fsize k) → isdir k = false →
  0 ≤ fd < InvalidFD → filesz_ceil ph ≤ hi → hi ≤ hhdm_start →
  wpx oom_only (map_tail stale fd ph buf Ok) (λ x st', x.1 = Ok ∧
    (∃ l, loading st' (SProc l (add_vmas (s_vmas s) tail_pieces)) (filesz_ceil ph) hi) ∧
    (has_tail ph = true → seg_page st' (full_pg_end ph / PG_SZ)) ∧
    (∀ q, has_tail ph = false ∨ q ≠ full_pg_end ph / PG_SZ → pages st' !! q = pages st !! q) ∧ eip3 st' = eip3 st) st.
Proof.
  intros Hld Hok Hdir Hfd Hhi Hhh. pose proof PG_4096 as HPG. unfold tail_pieces, full_done, map_tail in *. fold (has_tail ph).
  destruct (seg_numbers ph _ Hok) as (a & c & e & f & m & Ea & Ec & Ee & Ef & _ & Ha0 & Ha & Hc & He & Hf & _ & Hal & Hfo & Hoa & _ & Hfa & Hca & Hu).
  pose proof (so_range _ _ Hok) as (Hva & Hsz & Hvhi). pose proof (so_file _ _ Hok) as (Hoff & Hfs & Hof).
  rewrite Hu. unfold has_tail. rewrite Ec, Ee, Ef in *.
  destruct ((4096 * e <? 4096 * f) && (4096 * c <=? 4096 * e)) eqn:Ht.
  2:{ apply wpx_ret. split; [done|]. split; [|done]. exists (s_fds s).
      assert ((if 4096 * c <? 4096 * e then 4096 * e else 4096 * c) = 4096 * f) as <-; [|by destruct s].
      apply andb_false_iff in Ht as [Ht|Ht]; [apply Z.ltb_ge in Ht|apply Z.leb_gt in Ht]; destruct (Z.ltb_spec (4096 * c) (4096 * e)); lia. }
  apply andb_true_iff in Ht as [H1 H2]. apply Z.ltb_lt in H1. apply Z.leb_le in H2. assert (f = e + 1) as -> by lia.
  assert ((if 4096 * c <? 4096 * e then 4096 * e else 4096 * c) = 4096 * e) as Hdone
    by (destruct (Z.ltb_spec (4096 * c) (4096 * e)); lia).
  rewrite Hdone in Hld. clear Hdone. set (n := va + fsz - 4096 * e). change hhdm_start with 0xC0000000 in *.
  rewrite (wrap_small 32 (4096 * e - va)), (wrap_small 32 (off + _)), (wrap_small 32 n), (wrap_small 32 (PG_SZ - n)) by lia.
  replace (4096 * e) with (e * PG_SZ) in * by lia. rewrite Z.div_mul by lia.
  eapply wpx_mono; [apply (wpx_copied st s e hi (off + (e * PG_SZ - va)) 0 n buf); try done; try lia|].
  { replace (off + (e * PG_SZ - va)) with ((off / 4096 - a + e) * PG_SZ) by lia. by apply Z.mod_mul. }
  { intros b st'. rewrite !M_bind_assoc. replace (e * PG_SZ + (0 + n)) with (e * PG_SZ + n) by lia.
    replace (PG_SZ - (0 + n)) with (PG_SZ - n) by lia. rewrite Z.add_0_r. unfold mbind, M_bind.
    change (memset_user stale (e * PG_SZ) 0 st') with (Ret (tt, st')). cbv iota.
    change (λ i : Z, b (0 + i)) with (λ i : Z, b i).
    by destruct (memcpy_user stale (e * PG_SZ) _ n st') as [[[] st2]|]. }
  intros x st' (Hx & [l Hl] & Hpage & Hsame & Heip). split; [done|]. split; [|split; [|split; [|exact Heip]]].
  - exists l. replace (4096 * (e + 1)) with (e * PG_SZ + PG_SZ) by lia. unfold add_vmas, anon_piece. simpl.
    replace (e * PG_SZ + PG_SZ - e * PG_SZ) with PG_SZ by lia. exact Hl.
  - intros _. eapply page_is_ext; [|exact Hpage]. intros i Hi. unfold seg_byte. subst n. change PG_SZ with 4096 in *.
    destruct (Z.leb_spec 0 i), (Z.ltb_spec i (0 + (va + fsz - 4096 * e))),
      (Z.leb_spec va (e * 4096 + i)), (Z.ltb_spec (e * 4096 + i) (va + fsz)); simpl; done || lia || (f_equal; lia).
  - intros q [?|Hq]; [done|auto].
Qed.

Lemma add_vmas_app l ps qs : add_vmas l (ps ++ qs) = add_vmas (add_vmas l ps) qs.
Proof. apply foldl_app. Qed.

Definition bss_pieces : list VMA := if filesz_ceil ph <? memsz_ceil ph then [anon_piece ph (filesz_ceil ph) (memsz_ceil ph)] else [].

Lemma wpx_map_bss st s buf : loading st s (filesz_ceil ph) (memsz_ceil ph) → seg_ok ph (fsize k) → 0 ≤ fd < InvalidFD →
  wpx oom_only (map_bss ph buf Ok) (λ x st', x = (Ok, buf) ∧
    (∃ l, loading st' (SProc l (add_vmas (s_vmas s) bss_pieces)) (memsz_ceil ph) (memsz_ceil ph)) ∧
    pages st' = pages st ∧ eip3 st' = eip3 st) st.
Proof.
  intros Hld Hok Hfd. pose proof PG_4096 as HPG. unfold bss_pieces, map_bss in *.
  destruct (seg_numbers ph _ Hok) as (a & c & e & f & m & Ea & Ec & Ee & Ef & Em & Ha0 & Ha & Hc & He & Hf & Hm & Hal & Hfo & Hoa & Hmh & _).
  pose proof (so_range _ _ Hok) as (Hva & Hsz & Hvhi). rewrite Ef, Em in *.
  destruct (Z.ltb_spec (4096 * f) (4096 * m)) as [Hfm|Hfm].
  2:{ apply wpx_ret. split; [done|]. split; [|done]. exists (s_fds s). destruct s.
      assert (f = m) as -> by lia. exact Hld. }
  apply wpx_bind. eapply wpx_mono; [apply (wpx_piece _ st s (4096 * f) (4096 * m - 4096 * f) (4096 * m) flags_anon InvalidFD None 0 Hld);
    try done; try lia|].
  { rewrite HPG, Z.mul_comm. by apply Z.mod_mul. }
  { by left. }
  intros [x r] st' ([= -> ->] & (Hu1 & He1 & _) & Hl). apply wpx_ret. split; [done|]. split; [|done].
  exists (s_fds s). replace (4096 * f + (4096 * m - 4096 * f)) with (4096 * m) in Hl by lia. exact Hl.
Qed.

(** What the program sees at [x]: the byte of a page that was copied, or,
    for a page still to be faulted in, an area backed by the right place
    of the file, or past the file's part an anonymous one. *)
Definition loaded_at (st : proc F) (x : Z) : Prop :=
  match pages st !! (x / PG_SZ) with
  | Some pg => up_bytes pg (x mod PG_SZ) = seg_byte ph (fbyte k) x
  | None => ∃ v, v ∈ pieces ph k ∧ covers v x ∧
      if x <? va + fsz then v_dentry v = Some k ∧ v_offset v + (x - v_addr v) = off + (x - va) else private_anon v
  end.

Lemma loaded_page st p x : seg_page st p → x / PG_SZ = p → loaded_at st x.
Proof.
  intros (pg & Hpg & Hb) Hx. unfold loaded_at. rewrite Hx, Hpg. pose proof PG_4096.
  rewrite Hb by (apply Z.mod_pos_bound; lia). f_equal. rewrite (Z.div_mod x PG_SZ) at 2 by lia. rewrite Hx. lia.
Qed.

Lemma seg_bounds : seg_ok ph (fsize k) → seg_start ph mod PG_SZ = 0 ∧ memsz_ceil ph mod PG_SZ = 0 ∧
  full_pg_start ph ≤ memsz_ceil ph ∧ full_done ≤ memsz_ceil ph ∧ filesz_ceil ph ≤ memsz_ceil ph ∧ memsz_ceil ph ≤ hhdm_start ∧
  (PG_ALIGNED va = false → seg_start ph < memsz_ceil ph) ∧
  (has_tail ph = true → full_pg_end ph mod PG_SZ = 0 ∧ seg_start ph ≤ full_pg_end ph < memsz_ceil ph).
Proof.
  intros Hok. pose proof PG_4096 as HPG. pose proof (so_range _ _ Hok) as (Hva & Hsz & Hvhi).
  destruct (seg_numbers ph _ Hok) as (a & c & e & f & m & Ea & Ec & Ee & Ef & Em & Ha0 & Ha & Hc & He & Hf & Hm & Hal & Hfo & Hoa & Hmh & _).
  assert (va = 4096 * a ↔ PG_ALIGNED va = true) by (split; apply Hal).
  unfold full_done, has_tail. rewrite Ea, Ec, Ee, Ef, Em, HPG, andb_true_iff, Z.ltb_lt, Z.leb_le.
  rewrite !(Z.mul_comm 4096), !Z.mod_mul by lia. destruct (Z.ltb_spec (c * 4096) (e * 4096)), (PG_ALIGNED va); lia.
Qed.

Lemma page_floor s x : s mod PG_SZ = 0 → s ≤ x → s ≤ x / PG_SZ * PG_SZ ∧ x / PG_SZ * PG_SZ ≤ x.
Proof.
  intros Hs Hx. pose proof PG_4096 as HPG. pose proof (Z.div_le_mono s x PG_SZ ltac:(lia) Hx).
  pose proof (Z.div_mod s PG_SZ ltac:(lia)). pose proof (Z.mul_div_le x PG_SZ ltac:(lia)). nia.
Qed.
Lemma page_times s : s mod PG_SZ = 0 → s / PG_SZ * PG_SZ = s.
Proof. intros Hs. pose proof PG_4096. pose proof (Z.div_mod s PG_SZ ltac:(lia)). lia. Qed.

(** One segment (page offsets that agree, in user space, inside the file,
    where nothing is mapped) *)
Lemma wpx_map_segment st s buf :
  loading st s (seg_start ph) (memsz_ceil ph) → seg_ok ph (fsize k) → isdir k = false → 0 ≤ fd < InvalidFD →
  wpx oom_only (map_segment stale fd ph buf Ok) (λ x st', x.1 = Ok ∧
    (∃ l, loading st' (SProc l (add_vmas (s_vmas s) (pieces ph k))) (memsz_ceil ph) (memsz_ceil ph)) ∧
    chain (seg_start ph) (pieces ph k) (memsz_ceil ph) ∧
    (∀ x, seg_start ph ≤ x < memsz_ceil ph → loaded_at st' x) ∧
    (∀ p, ¬ (seg_start ph ≤ p * PG_SZ < memsz_ceil ph) → pages st' !! p = pages st !! p) ∧
    eip3 st' = eip3 st) st.
Proof.
  intros Hld Hok Hdir Hfd. pose proof PG_4096 as HPG. destruct (seg_bounds Hok) as (Hs0 & Hm0 & Hb1 & Hb2 & Hb3 & Hb4 & Hb5 & Hb6).
  unfold map_segment. rewrite (so_align _ _ Hok), Z.eqb_refl. cbn [negb]. apply wpx_bind.
  eapply wpx_mono; [by apply (wpx_map_head st s (memsz_ceil ph) buf)|].
  intros [r buf1] st1. cbn [fst]. intros (-> & [l1 H1] & Hhead & Hp1 & He1). unfold check_res at 1. rewrite bool_decide_true by done.
  apply wpx_bind. eapply wpx_mono; [by apply (wpx_map_full st1 _ (memsz_ceil ph) buf1 H1)|].
  intros x2 st2 (-> & [l2 H2] & Hp2 & He2). unfold check_res at 1. rewrite bool_decide_true by done.
  apply wpx_bind. eapply wpx_mono; [by apply (wpx_map_tail st2 _ (memsz_ceil ph) buf1 H2)|].
  intros [r buf3] st3. cbn [fst]. intros (-> & [l3 H3] & Htail & Hp3 & He3). unfold check_res. rewrite bool_decide_true by done.
  eapply wpx_mono; [by apply (wpx_map_bss st3 _ buf3 H3)|]. intros x4 st4 (-> & [l4 H4] & Hp4 & He4). split; [done|].
  split; [exists l4; unfold pieces; by rewrite !add_vmas_app|]. split; [by eapply pieces_chain|].
  assert (Hother : ∀ q, (PG_ALIGNED va = true ∨ q ≠ seg_start ph / PG_SZ) → (has_tail ph = false ∨ q ≠ full_pg_end ph / PG_SZ) →
    pages st4 !! q = pages st !! q) by (intros q ??; by rewrite Hp4, Hp3, Hp2, Hp1).
  split; [|split; [|congruence]].
  - intros x Hx. set (p := x / PG_SZ). destruct (decide (has_tail ph = true ∧ p = full_pg_end ph / PG_SZ)) as [[Ht Hpe]|Hnt].
    { apply (loaded_page st4 (full_pg_end ph / PG_SZ)); [|done]. unfold seg_page, page_is in *. rewrite Hp4. auto. }
    assert (Hnt' : has_tail ph = false ∨ p ≠ full_pg_end ph / PG_SZ) by (destruct (has_tail ph); [right|left]; naive_solver).
    destruct (decide (PG_ALIGNED va = false ∧ p = seg_start ph / PG_SZ)) as [[Hh Hps]|Hnh].
    { apply (loaded_page st4 (seg_start ph / PG_SZ)); [|done]. specialize (Hhead Hh). unfold seg_page, page_is in *.
      rewrite Hp4, Hp3, Hp2 by (by rewrite <- Hps). done. }
    assert (Hnh' : PG_ALIGNED va = true ∨ p ≠ seg_start ph / PG_SZ) by (destruct (PG_ALIGNED va); [left|right]; naive_solver).
    unfold loaded_at. fold p. rewrite Hother by done.
    assert (Hpr : seg_start ph ≤ p * PG_SZ < memsz_ceil ph).
    { destruct (page_floor (seg_start ph) x Hs0 ltac:(lia)) as [Hq1 Hq2]. change (x / PG_SZ) with p in Hq1, Hq2. lia. }
    destruct (ld_pages _ _ _ _ Hld p Hpr) as [-> _].
    destruct (pieces_cover ph k _ x Hok Hx) as [[Hn ?]|[[Hn ?]|?]]; [exfalso..|done].
    + apply Hnh. by rewrite <- negb_true_iff.
    + by apply Hnt.
  - intros p Hp. apply Hother.
    + destruct (PG_ALIGNED va); [by left|right]. intros ->. apply Hp. rewrite page_times by done. specialize (Hb5 eq_refl). lia.
    + destruct (has_tail ph); [right|by left]. intros ->. destruct Hb6 as [Hfe ?]; [done|]. apply Hp. rewrite page_times by done. lia.
Qed.
End segment.

(** ** A segment with a partial page at both ends and a bss *)
#[local] Existing Instance demo_fs.
Definition demo_seg : PHEntry.Entry := PHEntry.Ph 1 0x10 0x8048010 0 0x1200 0x3000 6 0x1000.
Definition demo_stale : Z → option bytes := λ _, Some (λ _, 7).
Definition demo_open : proc (gset Z) := match open path_A Ok demo_proc with Ret (_, st) => st | Halt _ => demo_proc end.

Lemma demo_open_loading : loading demo_stale 1 3 0 demo_open (SProc [Some (3, 0)] []) (seg_start demo_seg) (memsz_ceil demo_seg).
Proof.
  assert (Hr : is_ret (open path_A Ok demo_proc) = true) by (vm_compute; reflexivity).
  assert (Hs : s_open 1 path_A (SProc [] []) = Some (RFd (0, Ok), SProc [Some (3, 0)] [])) by (vm_compute; reflexivity).
  assert (Hp : Forall (λ x, 0 < x < 256) path_A) by (repeat (constructor; [lia|]); constructor).
  pose proof (wpx_open 1 demo_proc (SProc [] []) path_A demo_proc_sim Hp) as H. rewrite Hs in H.
  destruct (wpx_run _ _ _ _ H Hr) as (x & st' & Hrun & _ & Hsim & Hu & _). unfold demo_open. rewrite Hrun.
  split; [done|by exists 0|constructor|]. rewrite Hu. intros p _. split; [apply lookup_empty|by eexists].
Qed.

(** A page of the bss is not cleared: it shows what its frame held. *)
Example bss_not_cleared :
  match (_ ← map_segment demo_stale 0 demo_seg (λ _, 0) Ok; isr_pf demo_stale 0x804a000 4) demo_open with
  | Ret (_, st) => option_map (λ pg, up_bytes pg 0) (pages st !! (0x804a000 / PG_SZ)) = Some 7
  | Halt _ => False
  end.
Proof. vm_compute. reflexivity. Qed.

(** A fault in the second page of an area backed by a file brings in the
    first page of the area again. *)
Example second_page_shows_first :
  match (_ ← mmap 0x5000 0x1388 rw (Flg false true) 0 0 Ok; isr_pf demo_stale 0x6000 4) demo_open with
  | Ret (_, st) => option_map up_file (pages st !! 6) = Some (Some (3, 0))
  | Halt _ => False
  end.
Proof. vm_compute. reflexivity. Qed.
