(* ===== verification/Exec.v ===== *)
(** * A process from an executable

    The proofs about [map_elf_segments] and [Process::Process] of
    [proc/process.cc], over the loading of one segment ([Loader.v]): from an
    empty process, the constructor opens the executable, maps every segment
    to load, closes the file, maps the stack and sets the registers the
    thread starts with. *)
From stdpp Require Import sorting.
From S2P Require Import Prelude Algorithm Libc MemoryMap PageCache Fat32 Vfs Elf Process Loader.

(** ** The program headers of an image *)
Fixpoint program_headers (img : list Z) (phoff : Z) (n : nat) (i : Z) : option (list PHEntry.Entry) :=
  match n with
  | O => Some []
  | S n => ph ← ph_at img phoff i; l ← program_headers img phoff n (i + 1); Some (ph :: l)
  end.
Definition loads (phs : list PHEntry.Entry) : list PHEntry.Entry := filter (λ ph, PHEntry.type ph = PHEntry.Load) phs.
Definition in_segment (ph : PHEntry.Entry) (x : Z) : Prop := seg_start ph ≤ x < memsz_ceil ph.
(** No page in common *)
Definition apart (a b : PHEntry.Entry) : Prop := memsz_ceil a ≤ seg_start b ∨ memsz_ceil b ≤ seg_start a.

Lemma chain_within ps : ∀ lo hi, chain lo ps hi → lo ≤ hi ∧ Forall (λ v, lo ≤ v_addr v ∧ v_addr v + v_len v ≤ hi) ps.
Proof.
  induction ps as [|v ps IH]; intros lo hi; simpl; [by intros ->|]. intros (<- & Hl & [Hle H]%IH).
  split; [lia|]. constructor; [lia|]. eapply Forall_impl; [exact H|]. simpl. lia.
Qed.
Lemma add_vmas_Forall (P : VMA → Prop) ps : ∀ l, Forall P l → Forall P ps → Forall P (add_vmas l ps).
Proof.
  induction ps as [|v ps IH]; intros l Hl; [done|]. rewrite Forall_cons. intros [Hv Hps]. apply IH; [|done].
  by apply insert_vma_Forall.
Qed.

Section executable.
Context {F : Type} `{FD : FsDriver F} (stale : Z → option bytes) (kr k : Z).

Definition segment_pieces (phs : list PHEntry.Entry) : list VMA := concat ((λ ph, pieces ph k) <$> phs).

(** [fd] is open on the executable. *)
Definition opened (fd : Z) (st : proc F) (s : sproc) : Prop := sim kr st s ∧ ∃ o, entry_of fd (s_fds s) = Some (k, o).

Lemma loading_opened fd st s lo hi : loading stale kr k fd st s lo hi → opened fd st s.
Proof. intros [H1 H2 _ _]. by split. Qed.

(** What was loaded stays while the page is not touched. *)
Lemma loaded_at_same ph (st st' : proc F) x : pages st' !! (x / PG_SZ) = pages st !! (x / PG_SZ) →
  loaded_at k ph st x → loaded_at k ph st' x.
Proof. unfold loaded_at. by intros ->. Qed.

(** A later segment still finds its range free. *)
Lemma loading_apart fd st s st1 l ph ph' : seg_ok ph (fsize k) → apart ph ph' →
  loading stale kr k fd st s (seg_start ph') (memsz_ceil ph') → opened fd st1 (SProc l (add_vmas (s_vmas s) (pieces ph k))) →
  (∀ p, ¬ in_segment ph (p * PG_SZ) → pages st1 !! p = pages st !! p) →
  loading stale kr k fd st1 (SProc l (add_vmas (s_vmas s) (pieces ph k))) (seg_start ph') (memsz_ceil ph').
Proof.
  intros Hok Hap [_ _ Hfree Hpg] [Hsim Hfd] Hsame. split; [done|done| |].
  - simpl. apply add_vmas_Forall; [done|].
    destruct (chain_within _ _ _ (pieces_chain ph k _ Hok)) as [_ H]. eapply Forall_impl; [exact H|].
    simpl. intros v Hv. destruct Hap; lia.
  - intros p Hp. rewrite Hsame; [by apply Hpg|]. unfold in_segment. destruct Hap; lia.
Qed.

Lemma wpx_map_segments fd img phoff n : isdir k = false → 0 ≤ fd < InvalidFD → ∀ i buf st s phs,
  program_headers img phoff n i = Some phs → Forall (λ ph, seg_ok ph (fsize k)) (loads phs) → ForallOrdPairs apart (loads phs) →
  opened fd st s → Forall (λ ph, loading stale kr k fd st s (seg_start ph) (memsz_ceil ph)) (loads phs) →
  wpx oom_only (map_segments stale fd img phoff n i buf Ok) (λ x st', x.1 = Ok ∧
    (∃ l, opened fd st' (SProc l (add_vmas (s_vmas s) (segment_pieces (loads phs))))) ∧
    (∀ ph x, ph ∈ loads phs → in_segment ph x → loaded_at k ph st' x) ∧
    (∀ p, (∀ ph, ph ∈ loads phs → ¬ in_segment ph (p * PG_SZ)) → pages st' !! p = pages st !! p) ∧
    eip3 st' = eip3 st) st.
Proof.
  intros Hdir Hfd. induction n as [|n IH]; intros i buf st s phs Hph Hok Hap Hop Hld.
  { injection Hph as <-. apply wpx_ret. split; [done|]. split; [exists (s_fds s); by destruct s|].
    split; [by intros ph x ?%elem_of_nil|done]. }
  cbn [program_headers] in Hph. destruct (ph_at img phoff i) as [ph|] eqn:Hat; [|done].
  destruct (program_headers img phoff n (i + 1)) as [l|] eqn:Hrest; [|done]. injection Hph as <-.
  cbn [map_segments]. apply wpx_bind. eapply wpx_lift; [by rewrite Hat|]. unfold loads in *. rewrite filter_cons in *.
  destruct (decide (PHEntry.type ph = PHEntry.Load)) as [Ht|Ht].
  2:{ assert (negb (PHEntry.type ph =? PHEntry.Load) = true) as -> by (by apply negb_true_iff, Z.eqb_neq).
      by apply (IH (i + 1) buf st s l). }
  rewrite Ht, Z.eqb_refl. cbn [negb]. apply Forall_cons in Hok as [Hok Hoks], Hld as [Hld Hlds].
  inversion Hap as [|?? Ha Haps]; subst. apply wpx_bind.
  eapply wpx_mono; [by apply (wpx_map_segment stale kr k fd ph st s buf)|].
  intros [r buf1] st1. cbn [fst]. intros (-> & [l1 H1] & _ & Hin & Hout & He). unfold check_res. rewrite bool_decide_true by done.
  pose proof (loading_opened _ _ _ _ _ H1) as Hop1.
  eapply wpx_mono; [apply (IH (i + 1) buf1 st1 _ l Hrest Hoks Haps Hop1)|].
  { apply Forall_forall. intros ph' Hph'. apply (loading_apart fd st s st1 l1 ph ph' Hok); [|by eapply Forall_forall in Hlds|done|done].
    by eapply Forall_forall in Ha. }
  intros x st2 (Hx & [l2 H2] & Hin2 & Hout2 & He2). split; [done|]. split; [|split; [|split; [|congruence]]].
  - exists l2. unfold segment_pieces. cbn [fmap list_fmap concat]. by rewrite add_vmas_app.
  - intros ph' y [->|Hph']%elem_of_cons Hy; [|by apply Hin2]. eapply loaded_at_same; [|by apply Hin].
    apply Hout2. intros ph'' Hph'' Hy'. eapply Forall_forall in Ha; [|exact Hph''].
    destruct (seg_bounds k ph Hok) as (Hs0 & _). unfold in_segment in *.
    destruct (page_floor (seg_start ph) y Hs0 ltac:(lia)). destruct Ha; lia.
  - intros p Hp. rewrite Hout2, Hout; [done| |]; [apply Hp; by left|]. intros ph' Hph'. apply Hp. by right.
Qed.

(** The first page of the file, which holds the headers *)
Definition image_head : list Z := file_slice k 0 (Z.max 0 (Z.min PG_SZ (fsize k))).

(** The segments lie in the file and in user space below the stack, and
    have no page in common. *)
Record image_ok (segs : list PHEntry.Entry) : Prop := {
  io_segs : Forall (λ ph, seg_ok ph (fsize k)) segs;
  io_stack : Forall (λ ph, memsz_ceil ph ≤ hhdm_start - stack_size) segs;
  io_apart : ForallOrdPairs apart segs }.

(** Nothing is mapped yet and every page of user space has a frame. *)
Record fresh (st : proc F) : Prop := {
  fr_sim : sim kr st (SProc [] []);
  fr_pages : pages st = ∅;
  fr_frames : ∀ p, 0 ≤ p * PG_SZ < hhdm_start → is_Some (stale p) }.

Lemma fresh_loading fd st st1 l ph : fresh st → pages st1 = pages st → opened fd st1 (SProc l []) → seg_ok ph (fsize k) →
  loading stale kr k fd st1 (SProc l []) (seg_start ph) (memsz_ceil ph).
Proof.
  intros [_ Hpg Hfr] Hsame [Hsim Hfd] Hok. split; [done|done|constructor|]. intros p Hp.
  rewrite Hsame, Hpg. split; [apply lookup_empty|]. apply Hfr.
  destruct (seg_bounds k ph Hok) as (_ & _ & _ & _ & _ & Hhi & _).
  destruct (so_range _ _ Hok) as (Hva & _ & _). unfold seg_start in *.
  pose proof PG_4096. pose proof (Z.div_pos (PHEntry.vaddr ph) PG_SZ ltac:(lia) ltac:(lia)). nia.
Qed.

Lemma wpx_map_elf_segments st path ks buf x phs : fresh st →
  Forall (λ c, 0 < c < 256) path → resolve [kr] (components path) = Found (k :: ks) → isdir k = false →
  parse_executable image_head = Ret (Ok, Some x) →
  program_headers image_head (ph_table x) (Z.to_nat (ELFHeader.phnum (hdr x))) 0 = Some phs → image_ok (loads phs) →
  wpx oom_only (map_elf_segments stale path buf Ok) (λ r st', r = Ok ∧
    (∃ l, sim kr st' (SProc l (add_vmas [] (segment_pieces (loads phs)))) ∧ entry_of 0 l = None) ∧
    (∀ ph y, ph ∈ loads phs → in_segment ph y → loaded_at k ph st' y) ∧
    (∀ p, (∀ ph, ph ∈ loads phs → ¬ in_segment ph (p * PG_SZ)) → pages st' !! p = None) ∧
    eip3 st' = ELFHeader.entry (hdr x)) st.
Proof.
  intros Hfr Hpath Hres Hdir Hparse Hphs [Hok _ Hap]. unfold map_elf_segments. apply wpx_bind.
  pose proof (wpx_open kr st _ path (fr_sim _ Hfr) Hpath) as Ho. unfold s_open in Ho. rewrite Hres in Ho. cbn in Ho.
  eapply wpx_mono; [exact Ho|]. clear Ho. intros r1 st1 ([= <-] & Hs1 & Hu1 & _). apply wpx_bind.
  unfold check_res at 1. rewrite bool_decide_true by done. apply wpx_bind.
  eapply wpx_mono; [apply (wpx_read kr st1 _ 0 PG_SZ Hs1); done|].
  assert (Hr : s_read 0 PG_SZ (SProc [Some (k, 0)] []) = (RData (Some image_head, Ok),
    SProc [Some (k, if 0 <? Z.max 0 (Z.min PG_SZ (fsize k)) then u64 (Z.max 0 (Z.min PG_SZ (fsize k))) else 0)] [])).
  { unfold s_read. change (entry_of 0 (s_fds (SProc [Some (k, 0)] []))) with (Some (k, 0)). cbv beta iota. rewrite Hdir.
    change (u32 0) with 0. by rewrite Z.sub_0_r. }
  rewrite Hr. clear Hr. cbn [fst snd].
  intros r2 st2 ([= <-] & Hs2 & Hu2 & _). unfold check_res at 1. rewrite bool_decide_true by done.
  apply wpx_bind. eapply wpx_lift; [exact Hparse|]. unfold check_res at 1. rewrite bool_decide_true by done.
  apply wpx_bind. eapply wpx_lift; [done|]. apply wpx_bind, wpx_get, wpx_bind, wpx_put, wpx_bind.
  set (st3 := Proc _ _ _ _ _ _ _). set (s2 := SProc _ _) in Hs2.
  assert (Hs3 : sim kr st3 s2) by (destruct Hs2; by split).
  assert (Hop : opened 0 st3 s2) by (split; [done|by eexists]).
  eapply wpx_mono; [apply (wpx_map_segments 0 image_head (ph_table x) _ Hdir ltac:(done) 0 buf st3 s2 phs Hphs Hok Hap Hop)|].
  { eapply Forall_impl; [exact Hok|]. intros ph Hph. apply (fresh_loading 0 st st3 _ ph Hfr); [|done|done]. simpl. congruence. }
  intros [r3 buf3] st4. cbn [fst]. intros (-> & [l [Hs4 [o Ho]]] & Hin & Hout & He). unfold check_res. rewrite bool_decide_true by done.
  cbn [s_vmas] in Hs4. apply wpx_bind.
  eapply wpx_mono; [by apply (wpx_close kr _ st4 _ 0 Hs4)|]. unfold s_close. cbn [s_fds s_vmas] in *. rewrite Ho. cbn [fst snd].
  intros r5 st5 ([= <-] & Hs5 & Hu5 & He5 & _). apply wpx_ret, wpx_ret. split; [done|]. split; [|split; [|split; [|by rewrite He5, He]]].
  - eexists. split; [exact Hs5|]. unfold entry_of in *. rewrite length_insert. destruct (0 <? zlen l) eqn:Hlt; [|done].
    apply Z.ltb_lt in Hlt. by rewrite list_lookup_insert_eq by lia.
  - intros ph y Hph Hy. eapply loaded_at_same; [by rewrite Hu5|auto].
  - intros p Hp. rewrite Hu5, Hout by done. simpl. rewrite Hu2, Hu1, (fr_pages _ Hfr). apply lookup_empty.
Qed.

Definition stack_vma : VMA := Vma (hhdm_start - stack_size) stack_size (Acc false true true) flags_anon None 0.

Lemma below_stack segs : image_ok segs →
  existsb (overlaps (hhdm_start - stack_size) stack_size) (add_vmas [] (segment_pieces segs)) = false.
Proof.
  intros [Hok Hst _]. apply not_true_iff_false. rewrite existsb_exists. intros (v & Hin & Hov).
  assert (H : Forall (λ v, v_addr v + v_len v ≤ hhdm_start - stack_size) (add_vmas [] (segment_pieces segs))).
  { apply add_vmas_Forall; [constructor|]. unfold segment_pieces. clear Hin. induction segs as [|ph segs IH]; [constructor|].
    apply Forall_cons in Hok as [Hok Hoks], Hst as [Hst Hsts]. cbn. apply Forall_app. split; [|by apply IH].
    destruct (chain_within _ _ _ (pieces_chain ph k _ Hok)) as [_ H]. eapply Forall_impl; [exact H|]. simpl. lia. }
  eapply Forall_forall in H; [|by apply list_elem_of_In]. unfold overlaps in Hov.
  apply andb_true_iff in Hov as [H1%Z.ltb_lt _]. lia.
Qed.

Lemma wpx_Process_ctor st path ks buf new_tid x phs : fresh st →
  Forall (λ c, 0 < c < 256) path → resolve [kr] (components path) = Found (k :: ks) → isdir k = false →
  parse_executable image_head = Ret (Ok, Some x) →
  program_headers image_head (ph_table x) (Z.to_nat (ELFHeader.phnum (hdr x))) 0 = Some phs → image_ok (loads phs) →
  wpx oom_only (Process_ctor stale path buf new_tid Ok) (λ r st', r = Ok ∧
    (eip3 st' = ELFHeader.entry (hdr x) ∧ esp3 st' = hhdm_start ∧ tid st' = Some new_tid) ∧
    (∃ l, sim kr st' (SProc l (insert_vma stack_vma (add_vmas [] (segment_pieces (loads phs))))) ∧ entry_of 0 l = None) ∧
    (∀ ph y, ph ∈ loads phs → in_segment ph y → loaded_at k ph st' y) ∧
    (∀ p, (∀ ph, ph ∈ loads phs → ¬ in_segment ph (p * PG_SZ)) → pages st' !! p = None)) st.
Proof.
  intros Hfr Hpath Hres Hdir Hparse Hphs Hio. unfold Process_ctor. apply wpx_bind.
  eapply wpx_mono; [by apply (wpx_map_elf_segments st path ks buf x phs)|].
  intros r st1 (-> & [l [Hs1 Hl]] & Hin & Hout & He). rewrite bool_decide_true by done. cbn [negb]. apply wpx_bind.
  assert (Hsz : hhdm_start = 0xC0000000 ∧ stack_size = 8192) by (split; reflexivity). destruct Hsz as [Eh Es].
  eapply wpx_mono; [apply (wpx_mmap kr _ st1 _ _ stack_size _ flags_anon InvalidFD 0 Hs1)|].
  { cbn [op_ok]. rewrite Eh, Es. unfold InvalidFD. split_and!; lia. }
  assert (Hmm : s_mmap (hhdm_start - stack_size) stack_size (Acc false true true) flags_anon InvalidFD 0
      (SProc l (add_vmas [] (segment_pieces (loads phs)))) = (RPtr (Some (hhdm_start - stack_size), Ok),
      SProc l (insert_vma stack_vma (add_vmas [] (segment_pieces (loads phs)))))).
  { unfold s_mmap. rewrite Z.eqb_refl. cbn [s_vmas s_fds]. by rewrite (below_stack _ Hio). }
  rewrite Hmm. cbn [fst snd]. intros [a r] st2 ([= <- <-] & Hs2 & Hp2 & He2 & _). rewrite bool_decide_true by done.
  cbn [negb]. apply wpx_bind, wpx_get, wpx_bind, wpx_put, wpx_ret.
  split; [done|]. split; [split; [simpl; congruence|done]|]. split; [|split].
  - exists l. split; [|done]. destruct Hs2. by split.
  - intros ph y Hph Hy. eapply loaded_at_same; [|by apply Hin]. simpl. by rewrite Hp2.
  - intros p Hp. simpl. rewrite Hp2. by apply Hout.
Qed.

(** C12: from an empty process, the constructor on the path of an
    executable whose segments lie in the file and in user space, with no
    page in common, succeeds unless memory runs out: the thread starts at
    the entry point of the header with the stack pointer at the end of user
    space; the areas are those of the segments and the stack, which is two
    pages under it; every byte of every segment is in a page that was copied
    from the file (zeros around its part) or in an area backed by that very
    byte of the file, or anonymous past the file's part; no other page is
    there, and the file is closed again. *)
Theorem process_image_loads st path ks buf new_tid x phs : fresh st →
  Forall (λ c, 0 < c < 256) path → resolve [kr] (components path) = Found (k :: ks) → isdir k = false →
  parse_executable image_head = Ret (Ok, Some x) →
  program_headers image_head (ph_table x) (Z.to_nat (ELFHeader.phnum (hdr x))) 0 = Some phs → image_ok (loads phs) →
  wpx oom_only (Process_ctor stale path buf new_tid Ok) (λ r st', r = Ok ∧
    (eip3 st' = ELFHeader.entry (hdr x) ∧ esp3 st' = hhdm_start ∧ tid st' = Some new_tid) ∧
    (∃ l, sim kr st' (SProc l (insert_vma stack_vma (add_vmas [] (segment_pieces (loads phs))))) ∧ entry_of 0 l = None) ∧
    (∀ ph y, ph ∈ loads phs → in_segment ph y → loaded_at k ph st' y) ∧
    (∀ p, (∀ ph, ph ∈ loads phs → ¬ in_segment ph (p * PG_SZ)) → pages st' !! p = None)) st.
Proof. apply wpx_Process_ctor. Qed.
End executable.

(** ** An executable with a text and a data segment

    The data segment is the example of the comment in [map_elf_segments]:
    it needs a copied page at each end, a mapped page and a bss. *)
Definition exe_hdr : ELFHeader.Header :=
  ELFHeader.Hdr 0x464c457F 1 1 1 0 0 0 2 3 1 0x08049000 52 0 0 0x34 0x20 3 0x28 0 0.
Definition exe_text : PHEntry.Entry := PHEntry.Ph 1 0x1000 0x08049000 0x08049000 0x1200 0x1200 5 0x1000.
Definition exe_note : PHEntry.Entry := PHEntry.Ph 4 0x94 0 0 0x20 0x20 4 4.
Definition exe_data : PHEntry.Entry := PHEntry.Ph 1 0x2ff4 0x0804bff4 0x0804bff4 0x140c 0x340c 6 0x1000.
Definition exe_headers : list Z := encode_hdr exe_hdr ++ encode_phs [exe_text; exe_note; exe_data].
Definition exe_byte (i : Z) : Z := default (i mod 251) (if 0 <=? i then exe_headers !! Z.to_nat i else None).
#[local] Instance exe_fs : FsDriver (gset Z) := tree_fs 0x4400 exe_byte ltac:(lia).

Lemma exe_image_ok : image_ok 3 [exe_text; exe_data].
Proof.
  split.
  - repeat constructor; vm_compute; congruence.
  - repeat constructor; vm_compute; congruence.
  - repeat constructor. vm_compute. congruence.
Qed.

Lemma exe_fresh : fresh demo_stale 1 demo_proc.
Proof.
  split; [|reflexivity|by eexists]. split; [|constructor|constructor|split; constructor].
  by apply (vfs_init_ok 1 {[1]} 1); [done|vm_compute|apply vfs_init_run].
Qed.

(** The first byte of the initialised data past the copied page *)
Lemma process_image_loads_witness : ∃ st', Process_ctor demo_stale path_A (λ _, 0) 7 Ok demo_proc = Ret (Ok, st') ∧
  eip3 st' = 0x08049000 ∧ loaded_at 3 exe_data st' 0x0804c000 ∧ loaded_at 3 exe_data st' 0x0804bff4.
Proof.
  assert (Hr : is_ret (Process_ctor demo_stale path_A (λ _, 0) 7 Ok demo_proc) = true) by (vm_compute; reflexivity).
  assert (Hpath : Forall (λ c, 0 < c < 256) path_A) by (repeat (constructor; [lia|]); constructor).
  assert (Hres : resolve [1] (components path_A) = Found [3; 2; 1]) by (vm_compute; reflexivity).
  assert (Hparse : parse_executable (image_head 3) = Ret (Ok, Some (Exe exe_hdr 52))) by (vm_compute; reflexivity).
  assert (Hphs : program_headers (image_head 3) 52 3 0 = Some [exe_text; exe_note; exe_data]) by (vm_compute; reflexivity).
  assert (Hi1 : in_segment exe_data 0x0804c000) by (split; [by vm_compute|by vm_compute]).
  assert (Hi2 : in_segment exe_data 0x0804bff4) by (split; [by vm_compute|by vm_compute]).
  assert (Hin : exe_data ∈ loads [exe_text; exe_note; exe_data]) by (apply elem_of_cons; right; apply elem_of_cons; left; reflexivity).
  destruct (wpx_run _ _ _ _ (process_image_loads demo_stale 1 3 demo_proc path_A [2; 1] (λ _, 0) 7 (Exe exe_hdr 52)
    [exe_text; exe_note; exe_data] exe_fresh Hpath Hres eq_refl Hparse Hphs exe_image_ok) Hr)
    as (r & st' & Hrun & -> & [He _] & _ & Hl & _).
  exists st'. split; [exact Hrun|]. split; [exact He|]. split; [exact (Hl _ _ Hin Hi1)|exact (Hl _ _ Hin Hi2)].
Defined.
