(* ===== verification/Interrupt.v ===== *)
(** * Interrupts and descriptor tables

    Models the interrupt stubs and their table in [arch/x86/isrs.cc], the
    interrupt descriptor table ([arch/x86/idt.{h,cc}]), the segment
    descriptors ([arch/x86/gdt.{h,cc}]) and [drivers/pic.{h,cc}].  The
    page-fault and system-call handlers are in [Process.v].

    The stack is a list of words, its top first; the stub is the sequence
    of instructions of the [_ISR] macro, and a C++ handler reads its
    arguments from the stack and leaves them as they are. *)
From S2P Require Import Prelude Algorithm.

(** ** The table of stubs *)
Inductive c_entry := isr_dumpregs | isr_dumpregs_errcode | isr_pf | isr_pit | isr_syscall.
#[export] Instance c_entry_eq_dec : EqDecision c_entry. Proof. solve_decision. Defined.

(** [ISR] and [ISRE]: the handler, and whether an error code is popped *)
Definition ISR (e : c_entry) : c_entry * bool := (e, false).
Definition ISRE (e : c_entry) : c_entry * bool := (e, true).

Definition isrs_exceptions : list (c_entry * bool) :=
  [ISR isr_dumpregs; ISR isr_dumpregs; ISR isr_dumpregs; ISR isr_dumpregs;                   (** 0x00 *)
   ISR isr_dumpregs; ISR isr_dumpregs; ISR isr_dumpregs; ISRE isr_dumpregs_errcode;
   ISR isr_dumpregs; ISR isr_dumpregs; ISRE isr_dumpregs_errcode; ISRE isr_dumpregs_errcode; (** 0x08 *)
   ISRE isr_dumpregs_errcode; ISRE isr_dumpregs_errcode; ISRE isr_pf; ISR isr_dumpregs;
   ISR isr_dumpregs; ISRE isr_dumpregs_errcode; ISR isr_dumpregs; ISRE isr_dumpregs_errcode; (** 0x10 *)
   ISR isr_dumpregs; ISRE isr_dumpregs_errcode] ++
  replicate 10 (ISR isr_dumpregs).                                                           (** 0x16 *)
Definition isrs_irqs : list (c_entry * bool) := [ISR isr_pit] ++ replicate 15 (ISR isr_dumpregs).
Definition isrs_low : list (c_entry * bool) := replicate 80 (ISR isr_dumpregs).
Definition isrs_high : list (c_entry * bool) := [ISR isr_syscall] ++ replicate 127 (ISR isr_dumpregs).
(** The vectors 0x00, 0x20, 0x30 and 0x80 on *)
Definition isr_table : list (c_entry * bool) := isrs_exceptions ++ isrs_irqs ++ isrs_low ++ isrs_high.

Definition num_isrs : Z := zlen isr_table.

(** ** The stub *)
Record RegisterFrame := Regs { edi : Z; esi : Z; ebp : Z; esp : Z; ebx : Z; edx : Z; ecx : Z; eax : Z }.
Record InterruptFrame := IFrame { eip : Z; cs : Z; eflags : Z }.

(** What the processor pushes *)
Definition cpu_pushes (err : option Z) (f : InterruptFrame) (stack : list Z) : list Z :=
  option_list err ++ [eip f; cs f; eflags f] ++ stack.

Definition pusha (r : RegisterFrame) (stack : list Z) : list Z :=
  [edi r; esi r; ebp r; esp r; ebx r; edx r; ecx r; eax r] ++ stack.
(** [popa] skips the saved [esp]. *)
Definition popa (r : RegisterFrame) (stack : list Z) : option (RegisterFrame * list Z) :=
  match stack with
  | di :: si :: bp :: _ :: b :: d :: c :: a :: stack => Some (Regs di si bp (esp r) b d c a, stack)
  | _ => None
  end.
Definition iret (stack : list Z) : option (InterruptFrame * list Z) :=
  match stack with
  | ip :: c :: fl :: stack => Some (IFrame ip c fl, stack)
  | _ => None
  end.

(** The arguments of a handler, above its return address *)
Record c_args := Args { a_ivec : Z; a_regs : RegisterFrame; a_error : option Z; a_frame : InterruptFrame }.
Definition takes_error (e : c_entry) : bool :=
  match e with isr_dumpregs_errcode | isr_pf => true | _ => false end.
Definition args_of (e : c_entry) (stack : list Z) : option c_args :=
  match stack with
  | ivec :: di :: si :: bp :: sp :: b :: d :: c :: a :: rest =>
    match takes_error e, rest with
    | false, ip :: s :: fl :: _ => Some (Args ivec (Regs di si bp sp b d c a) None (IFrame ip s fl))
    | true, err :: ip :: s :: fl :: _ => Some (Args ivec (Regs di si bp sp b d c a) (Some err) (IFrame ip s fl))
    | _, _ => None
    end
  | _ => None
  end.

(** [_ISR]: the arguments the handler sees, and the state [iret] leaves. *)
Definition run_stub (ivec : Z) (stub : c_entry * bool) (r : RegisterFrame) (stack : list Z)
    : option (c_args * (RegisterFrame * InterruptFrame * list Z)) :=
  let stack := pusha r stack in
  let stack := ivec :: stack in
  args ← args_of stub.1 stack;
  match stack with
  | _ :: stack =>                                   (** pop %eax *)
    '(r, stack) ← popa r stack;
    let stack := if stub.2 then drop 1 stack else stack in
    '(f, stack) ← iret stack;
    Some (args, (r, f, stack))
  | [] => None
  end.

(** The exceptions for which the processor pushes an error code, by Intel's
    manual: #DF, #TS, #NP, #SS, #GP, #PF, #AC, #CP.  The comment on the table
    adds #XM, which pushes none. *)
Definition error_vectors : list nat := [8; 10; 11; 12; 13; 14; 17; 21]%nat.
Definition pushes_error (ivec : nat) : bool := bool_decide (ivec ∈ error_vectors).

Lemma stub_matches v stub : isr_table !! v = Some stub → takes_error stub.1 = stub.2.
Proof.
  intros Hv. assert (Hall : Forall (λ s : c_entry * bool, takes_error s.1 = s.2) isr_table).
  { apply (bool_decide_unpack _). vm_compute. exact I. }
  exact (Forall_lookup_1 _ _ _ _ Hall Hv).
Qed.
Lemma stub_pops v stub : isr_table !! v = Some stub → v ∉ [7; 8; 19]%nat → stub.2 = pushes_error v.
Proof.
  intros Hv Hx. assert (Hall : Forall (λ e : nat * (c_entry * bool), e.1 ∈ [7; 8; 19]%nat ∨ e.2.2 = pushes_error e.1)
    (imap pair isr_table)).
  { apply (bool_decide_unpack _). vm_compute. exact I. }
  assert (Hi : imap pair isr_table !! v = Some (v, stub)) by (by rewrite list_lookup_imap, Hv).
  destruct (Forall_lookup_1 _ _ _ _ Hall Hi) as [?|?]; simpl in *; done.
Qed.



(** The stub of #XM, which pushes no error code, pops one: the handler takes
    the interrupted address for the code, and the return is to what was below
    it. *)
Example simd_exception_misread r f x stack :
  isr_table !! 19%nat = Some (ISRE isr_dumpregs_errcode) ∧ pushes_error 19 = false ∧
  a_error <$> (fst <$> run_stub 19 (ISRE isr_dumpregs_errcode) r (cpu_pushes None f (x :: stack))) = Some (Some (eip f)).
Proof. by destruct r, f. Qed.
(** Vectors 7 and 8 are the wrong way around: for a double fault, which
    pushes an error code, the handler takes it for the interrupted
    address, and for #NM, which pushes none, the address for the code. *)
Example double_fault_misread r f stack :
  isr_table !! 8%nat = Some (ISR isr_dumpregs) ∧
  a_frame <$> (fst <$> run_stub 8 (ISR isr_dumpregs) r (cpu_pushes (Some 0) f stack)) = Some (IFrame 0 (eip f) (cs f)).
Proof. by destruct r. Qed.
Example device_not_available_misread r f x stack :
  isr_table !! 7%nat = Some (ISRE isr_dumpregs_errcode) ∧
  a_error <$> (fst <$> run_stub 7 (ISRE isr_dumpregs_errcode) r (cpu_pushes None f (x :: stack))) = Some (Some (eip f)).
Proof. by destruct r, f. Qed.

(** ** Interrupt descriptor table *)
Definition is_hw_interrupt (ivec : Z) : bool := (0x20 <=? ivec) && (ivec <? 0x30).

Record IDTEntry := IDTE { isr_lo : Z; i_cs : Z; rsv0 : Z; i_type : Z; rsv1 : Z; dpl : Z; p : Z; isr_hi : Z }.
Definition idt_entry (i isr : Z) : IDTEntry :=
  IDTE (Z.land isr 0xFFFF) 0x08 0 (if is_hw_interrupt i then 0x0E else 0x0F) 0
    (if i =? 0x80 then 3 else 0) 1 (Z.shiftr isr 16).
(** [idt::init]: the table and the limit of its descriptor, for the
    addresses of the stubs *)
Definition idt_init (isrs : list Z) : outcome (list IDTEntry * Z) :=
  _ ← assert_ (zlen isrs =? 256);
  Ret (imap (λ i, idt_entry (Z.of_nat i)) isrs, 256 * 8 - 1).

(** The fields of the packed structure, least significant first *)
Fixpoint pack (fs : list (Z * Z)) : Z :=
  match fs with
  | [] => 0
  | (w, x) :: fs => x mod 2 ^ w + 2 ^ w * pack fs
  end.
Definition IDTEntry_word (e : IDTEntry) : Z :=
  pack [(16, isr_lo e); (16, i_cs e); (8, rsv0 e); (4, i_type e); (1, rsv1 e); (2, dpl e); (1, p e); (16, isr_hi e)].

(** A field of a word, as the processor reads it *)
Definition bits (lo w x : Z) : Z := x / 2 ^ lo mod 2 ^ w.
Lemma pack_nonneg fs : Forall (λ f, 0 ≤ f.1) fs → 0 ≤ pack fs.
Proof.
  induction 1 as [|[w x] fs Hw Hf IH]; simpl in *; [done|].
  pose proof (Z.pow_pos_nonneg 2 w ltac:(lia) Hw). pose proof (Z.mod_pos_bound x (2 ^ w)). nia.
Qed.
Lemma bits_skip lo w v x r : 0 ≤ v ≤ lo → bits lo w (x mod 2 ^ v + 2 ^ v * r) = bits (lo - v) w r.
Proof.
  intros Hv. unfold bits. replace lo with (v + (lo - v)) at 1 by lia. rewrite Z.pow_add_r by lia.
  pose proof (Z.pow_pos_nonneg 2 v ltac:(lia) ltac:(lia)). pose proof (Z.pow_pos_nonneg 2 (lo - v) ltac:(lia) ltac:(lia)).
  rewrite <- Z.div_div by lia. rewrite Z.mul_comm, Z.div_add by lia.
  rewrite (Z.div_small (x mod 2 ^ v)) by (by apply Z.mod_pos_bound). done.
Qed.
Lemma bits_here w x r : 0 ≤ w → bits 0 w (x mod 2 ^ w + 2 ^ w * r) = x mod 2 ^ w.
Proof.
  intros Hw. unfold bits. pose proof (Z.pow_pos_nonneg 2 w ltac:(lia) Hw). rewrite Z.pow_0_r, Z.div_1_r, Z.mul_comm, Z.mod_add by lia.
  by rewrite Z.mod_mod by lia.
Qed.
Ltac read_bits := repeat (repeat (rewrite bits_skip by lia); rewrite bits_here by lia).

(** [idt::init] sets up 256 present gates in the kernel's code
    segment, each with the address of its stub; the gates of the hardware
    interrupts, and only they, mask interrupts, and only the system-call
    gate may be used from user mode. *)
Theorem idt_init_gates isrs :
  length isrs = 256%nat → Forall (λ a, 0 ≤ a < 2 ^ 32) isrs →
  ∃ idt, idt_init isrs = Ret (idt, 2047) ∧ length idt = 256%nat ∧
  ∀ i a, isrs !! i = Some a → ∃ e, idt !! i = Some e ∧ let w := IDTEntry_word e in
    bits 0 16 w + 2 ^ 16 * bits 48 16 w = a ∧ bits 16 16 w = 8 ∧ bits 47 1 w = 1 ∧
    bits 40 4 w = (if bool_decide (0x20 ≤ i < 0x30)%nat then 0x0E else 0x0F) ∧
    bits 45 2 w = (if bool_decide (i = 0x80%nat) then 3 else 0).
Proof.
  intros Hl Hf. exists (imap (λ i, idt_entry (Z.of_nat i)) isrs). split; [unfold idt_init; by rewrite Hl|].
  split; [by rewrite length_imap|]. intros i a Hi. exists (idt_entry (Z.of_nat i) a).
  split; [by rewrite list_lookup_imap, Hi|]. cbv zeta. pose proof (Forall_lookup_1 _ _ _ _ Hf Hi) as Ha. simpl in Ha.
  unfold IDTEntry_word. cbn [pack]. read_bits. cbn [idt_entry isr_lo isr_hi i_cs p i_type dpl].
  split; [|split; [done|split; [done|split]]].
  - change 0xFFFF with (Z.ones 16). rewrite Z.land_ones, Z.mod_mod, Z.shiftr_div_pow2 by lia.
    rewrite (Z.mod_small (a / 2 ^ 16)) by (split; [apply Z.div_pos; lia|apply Z.div_lt_upper_bound; lia]).
    pose proof (Z.div_mod a (2 ^ 16) ltac:(lia)). lia.
  - unfold is_hw_interrupt. case_bool_decide as Hc;
      destruct (Z.leb_spec 0x20 (Z.of_nat i)), (Z.ltb_spec (Z.of_nat i) 0x30); simpl; done || lia.
  - case_bool_decide as Hc; destruct (Z.eqb_spec (Z.of_nat i) 0x80); done || lia.
Qed.

Lemma idt_init_gates_witness : ∃ idt, idt_init (replicate 256 0xC0101234) = Ret (idt, 2047) ∧ length idt = 256%nat.
Proof.
  destruct (idt_init_gates (replicate 256 0xC0101234) eq_refl) as (idt & H1 & H2 & _).
  { apply Forall_replicate. lia. }
  exists idt. exact (conj H1 H2).
Defined.

(** ** Segment descriptors *)
Record GDTSegment := Seg { limit0 : Z; base0 : Z; base1 : Z; access : Z; limit1 : Z; g_flags : Z; base2 : Z }.
Definition GDTSegment_ctor (limit base _access _flags : Z) : GDTSegment :=
  Seg (wrap 16 limit) (wrap 16 base) (wrap 8 (Z.shiftr base 16)) _access
    (wrap 8 (Z.land (Z.shiftr limit 16) 0x0F)) _flags (wrap 8 (Z.shiftr base 24)).
Definition GDTSegment_word (s : GDTSegment) : Z :=
  pack [(16, limit0 s); (16, base0 s); (8, base1 s); (8, access s); (4, limit1 s); (4, g_flags s); (8, base2 s)].

Definition generate_access (is_code : bool) (dpl : Z) : Z :=
  pack [(1, 1); (1, 1); (1, 0); (1, if is_code then 1 else 0); (1, 1); (2, dpl); (1, 1)].
Definition max_limit : Z := 0xFFFFF.
Definition seg_flags (l db g : Z) : Z := pack [(1, 0); (1, l); (1, db); (1, g)].
Definition sizeof_TSS : Z := 0x6C.
(** [null_hi] is the half of the null descriptor that [bw::not_] reads past
    the end of its 32-bit temporary; [tss] is the address of the TSS. *)
Definition gdt (null_hi tss : Z) : list Z :=
  [2 ^ 32 * null_hi;
   GDTSegment_word (GDTSegment_ctor max_limit 0 (generate_access true 0) (seg_flags 0 1 1));
   GDTSegment_word (GDTSegment_ctor max_limit 0 (generate_access false 0) (seg_flags 0 1 1));
   GDTSegment_word (GDTSegment_ctor max_limit 0 (generate_access true 3) (seg_flags 0 1 1));
   GDTSegment_word (GDTSegment_ctor max_limit 0 (generate_access false 3) (seg_flags 0 1 1));
   GDTSegment_word (GDTSegment_ctor sizeof_TSS tss (pack [(4, 0x09); (1, 0); (2, 0); (1, 1)]) (seg_flags 0 0 0))].
Definition gdt_limit : Z := 6 * 8 - 1.
Definition tss_desc : Z := 5 * 8.

(** A descriptor as the processor reads it *)
Definition seg_base (w : Z) : Z := bits 16 16 w + 2 ^ 16 * bits 32 8 w + 2 ^ 24 * bits 56 8 w.
Definition seg_limit (w : Z) : Z := bits 0 16 w + 2 ^ 16 * bits 48 4 w.

(** The processor reads back from a descriptor the base, the limit
    (up to 20 bits), the access byte and the flags it was made from. *)
Theorem gdt_segment_roundtrip limit base acc fl :
  0 ≤ limit < 2 ^ 20 → 0 ≤ base < 2 ^ 32 → 0 ≤ acc < 2 ^ 8 → 0 ≤ fl < 2 ^ 4 →
  let w := GDTSegment_word (GDTSegment_ctor limit base acc fl) in
  seg_base w = base ∧ seg_limit w = limit ∧ bits 40 8 w = acc ∧ bits 52 4 w = fl.
Proof.
  intros Hl Hb Ha Hf. unfold GDTSegment_word. cbn [pack]. unfold seg_base, seg_limit. cbv zeta. read_bits.
  cbn [GDTSegment_ctor limit0 base0 base1 access limit1 g_flags base2]. unfold wrap. rewrite !Z.mod_mod by lia.
  change 0x0F with (Z.ones 4). rewrite !Z.shiftr_div_pow2, Z.land_ones, (Z.mod_small acc), (Z.mod_small fl) by lia.
  assert (0 ≤ limit / 2 ^ 16 < 2 ^ 4) by (split; [apply Z.div_pos; lia|apply Z.div_lt_upper_bound; lia]).
  assert (0 ≤ base / 2 ^ 24 < 2 ^ 8) by (split; [apply Z.div_pos; lia|apply Z.div_lt_upper_bound; lia]).
  rewrite !(Z.mod_small (limit / 2 ^ 16)), (Z.mod_small (base / 2 ^ 24)) by lia.
  pose proof (Z.div_mod limit (2 ^ 16) ltac:(lia)). pose proof (Z.div_mod base (2 ^ 16) ltac:(lia)).
  pose proof (Z.div_mod (base / 2 ^ 16) (2 ^ 8) ltac:(lia)) as Hq. rewrite Z.div_div in Hq by lia.
  change (2 ^ 16 * 2 ^ 8) with (2 ^ 24) in Hq. lia.
Qed.

Lemma gdt_segment_roundtrip_witness :
  seg_base (GDTSegment_word (GDTSegment_ctor 0x6C 0xC0123456 0x89 0)) = 0xC0123456 ∧
  seg_limit (GDTSegment_word (GDTSegment_ctor 0x6C 0xC0123456 0x89 0)) = 0x6C.
Proof.
  destruct (gdt_segment_roundtrip 0x6C 0xC0123456 0x89 0 ltac:(lia) ltac:(lia) ltac:(lia) ltac:(lia)) as (H1 & H2 & _).
  exact (conj H1 H2).
Defined.

(** The table [gdt::init] loads: flat ring 0 and ring 3 segments of 4 GB,
    code and data, and the TSS at the selector that is put in the task
    register. *)
Example gdt_flat null_hi tss : ∀ i w, gdt null_hi tss !! i = Some w → (1 ≤ i ≤ 4)%nat →
  seg_base w = 0 ∧ seg_limit w = 0xFFFFF ∧ bits 55 1 w = 1 ∧ bits 45 2 w = (if bool_decide (i ≤ 2)%nat then 0 else 3) ∧
  bits 43 1 w = Z.of_nat i mod 2.
Proof. intros [|[|[|[|[|i]]]]] w Hw Hi; simpl in Hw; try lia; injection Hw as <-; vm_compute; auto. Qed.

(** ** The interrupt controller *)
Definition pic1_cmd : Z := 0x20.
Definition pic2_cmd : Z := 0xA0.
Definition pic1_data : Z := pic1_cmd + 1.
Definition pic2_data : Z := pic2_cmd + 1.
Definition end_of_interrupt : Z := 0x20.
Definition icw1_icw4 : Z := 0x11.
Definition icw4_8086 : Z := 0x01.
Definition io_wait : Z * Z := (0x80, 0).

(** The writes to ports; [a1] and [a2] are the masks read first. *)
Definition pic_disable : list (Z * Z) := [(pic1_data, 0xFF); (pic2_data, 0xFF)].
Definition pic_eoi (irq : Z) : list (Z * Z) :=
  (if 8 <=? irq then [(pic2_cmd, end_of_interrupt)] else []) ++ [(pic1_cmd, end_of_interrupt)].
Definition pic_init (a1 a2 offset1 offset2 : Z) : list (Z * Z) :=
  [(pic1_cmd, icw1_icw4); io_wait; (pic2_cmd, icw1_icw4); io_wait;
   (pic1_data, offset1); io_wait; (pic2_data, offset2); io_wait;
   (pic1_data, 4); io_wait; (pic2_data, 2); io_wait;
   (pic1_data, icw4_8086); io_wait; (pic2_data, icw4_8086); io_wait;
   (pic1_data, a1); (pic2_data, a2)].

(** What the driver relies on of an 8259: after the first initialization
    word it takes three more from its data port, the vector offset, the
    cascade wiring and the mode, and every further byte there is its mask;
    an end-of-interrupt command ends the interrupt in service. *)
Class Pic8259 (P : Type) := {
  pic_cmd : Z → P → P;
  pic_data : Z → P → P;
  pic_programmed : P → Z → Z → Z → Z → Prop;      (** offset, cascade, mode, mask *)
  pic_init_law : ∀ s off casc mode mask,
    pic_programmed (pic_data mask (pic_data mode (pic_data casc (pic_data off (pic_cmd icw1_icw4 s))))) off casc mode mask }.

Section pic.
Context {P : Type} `{Pic8259 P}.
(** The two chips behind their ports *)
Definition outb (s : P * P) (w : Z * Z) : P * P :=
  if w.1 =? pic1_cmd then (pic_cmd w.2 s.1, s.2)
  else if w.1 =? pic1_data then (pic_data w.2 s.1, s.2)
  else if w.1 =? pic2_cmd then (s.1, pic_cmd w.2 s.2)
  else if w.1 =? pic2_data then (s.1, pic_data w.2 s.2)
  else s.

(** [pic::init] programs both chips with their offsets, the second one
    cascaded at line 2 of the first, and puts back the masks. *)
Lemma pic_init_remaps s a1 a2 offset1 offset2 :
  let s' := foldl outb s (pic_init a1 a2 offset1 offset2) in
  pic_programmed s'.1 offset1 4 icw4_8086 a1 ∧ pic_programmed s'.2 offset2 2 icw4_8086 a2.
Proof. split; apply pic_init_law. Qed.
End pic.
