(* ===== verification/ContextSwitch.v ===== *)
(** * Context switch

    Models [arch/x86/stack.S] ([switch_stack], [setup_stack],
    [.Linit_thread], [enter_userspace]), [on_thread_start] of
    [sched/kthread.cc] as the assembly calls it, [jump_to_userspace] of
    [proc/process.cc] and [set_tss_esp0] of [arch/x86/gdt.cc].

    The assembly is kept as a list of instructions, in the order of its
    operands (source first), over a machine with the general registers,
    the segment registers and a memory of words. *)
From S2P Require Import Prelude Algorithm.

(** ** The machine *)
Inductive reg := EAX | ECX | EDX | EBX | ESP | EBP | ESI | EDI.
#[export] Instance reg_eq_dec : EqDecision reg. Proof. solve_decision. Defined.
Inductive sreg := CS | DS | ES | FS | GS | SS.
#[export] Instance sreg_eq_dec : EqDecision sreg. Proof. solve_decision. Defined.

Record gprs := Gprs { eax : Z; ecx : Z; edx : Z; ebx : Z; esp : Z; ebp : Z; esi : Z; edi : Z }.
Definition get_reg (g : gprs) (r : reg) : Z :=
  match r with
  | EAX => eax g | ECX => ecx g | EDX => edx g | EBX => ebx g
  | ESP => esp g | EBP => ebp g | ESI => esi g | EDI => edi g
  end.
Definition set_reg (g : gprs) (r : reg) (v : Z) : gprs :=
  let '(Gprs a c d b sp bp si di) := g in
  match r with
  | EAX => Gprs v c d b sp bp si di | ECX => Gprs a v d b sp bp si di
  | EDX => Gprs a c v b sp bp si di | EBX => Gprs a c d v sp bp si di
  | ESP => Gprs a c d b v bp si di | EBP => Gprs a c d b sp v si di
  | ESI => Gprs a c d b sp bp v di | EDI => Gprs a c d b sp bp si v
  end.

Record cpu := CPU {
  regs : gprs; seg : sreg → Z; flags : Z; ip : Z;
  mem : Z → Z;                (** the word at an address *)
  esp0 : Z                    (** the TSS's kernel stack *)
}.

Definition gpr (s : cpu) (r : reg) : Z := get_reg (regs s) r.
Definition upd {A} `{EqDecision A} (f : A → Z) (a : A) (v : Z) : A → Z :=
  λ x, if decide (x = a) then v else f x.
Definition set_gpr (r : reg) (v : Z) (s : cpu) : cpu :=
  CPU (set_reg (regs s) r v) (seg s) (flags s) (ip s) (mem s) (esp0 s).
Definition set_seg (r : sreg) (v : Z) (s : cpu) : cpu :=
  CPU (regs s) (upd (seg s) r v) (flags s) (ip s) (mem s) (esp0 s).
Definition set_flags (v : Z) (s : cpu) : cpu := CPU (regs s) (seg s) v (ip s) (mem s) (esp0 s).
Definition set_ip (v : Z) (s : cpu) : cpu := CPU (regs s) (seg s) (flags s) v (mem s) (esp0 s).
Definition store (a v : Z) (s : cpu) : cpu :=
  CPU (regs s) (seg s) (flags s) (ip s) (upd (mem s) a v) (esp0 s).
Definition load (a : Z) (s : cpu) : Z := mem s a.

Definition push (v : Z) (s : cpu) : cpu :=
  let sp := u32 (gpr s ESP - 4) in store sp v (set_gpr ESP sp s).
Definition pop (s : cpu) : Z * cpu :=
  (load (gpr s ESP) s, set_gpr ESP (u32 (gpr s ESP + 4)) s).

Inductive instr :=
| Mov (src dst : reg)                 (** mov src, dst *)
| Load (off : Z) (base dst : reg)     (** mov off(base), dst *)
| Store (src base : reg)              (** mov src, (base) *)
| MovAx (imm : Z)                     (** mov $imm, %ax *)
| MovSeg (dst : sreg)                 (** mov %ax, dst *)
| Push (src : reg)
| PushI (imm : Z)
| PushM (off : Z) (base : reg)
| Pushf
| Pop (dst : reg)
| Xor (r : reg)                       (** xor r, r *)
| Ret_
| Call (target ra : Z)                (** [ra]: the address after it *)
| Jmp (r : reg)
| Iret.

Definition exec1 (s : cpu) (i : instr) : cpu :=
  match i with
  | Mov src dst => set_gpr dst (gpr s src) s
  | Load off base dst => set_gpr dst (load (u32 (gpr s base + off)) s) s
  | Store src base => store (gpr s base) (gpr s src) s
  | MovAx imm => set_gpr EAX (2 ^ 16 * (gpr s EAX / 2 ^ 16) + imm) s
  | MovSeg dst => set_seg dst (u16 (gpr s EAX)) s
  | Push src => push (gpr s src) s
  | PushI imm => push imm s
  | PushM off base => push (load (u32 (gpr s base + off)) s) s
  | Pushf => push (flags s) s
  | Pop dst => let '(v, s) := pop s in set_gpr dst v s
  | Xor r => set_gpr r 0 s
  | Ret_ => let '(v, s) := pop s in set_ip v s
  | Call target ra => set_ip target (push ra s)
  | Jmp r => set_ip (gpr s r) s
  | Iret =>
    let '(new_ip, s) := pop s in
    let '(new_cs, s) := pop s in
    let '(new_flags, s) := pop s in
    let s := set_flags new_flags (set_seg CS new_cs (set_ip new_ip s)) in
    if Z.land new_cs 3 =? 0 then s            (** same privilege *)
    else
      let '(new_sp, s) := pop s in
      let '(new_ss, s) := pop s in
      set_seg SS new_ss (set_gpr ESP new_sp s)
  end.
(** A block is straight-line code that ends in a jump. *)
Definition exec (code : list instr) (s : cpu) : cpu := foldl exec1 s code.

(** ** [stack.S] *)
Definition switch_stack : list instr :=
  [Load 0x8 ESP ECX;            (** new_stk *)
   Load 0x4 ESP EAX;            (** &old_stk *)
   Push EBX; Push EBP; Push EDI; Push ESI;
   Store ESP EAX;
   Mov ECX ESP;
   Pop ESI; Pop EDI; Pop EBP; Pop EBX;
   Ret_].

Definition setup_stack (Linit_thread : Z) : list instr :=
  [Mov ESP EDX;
   Load 0x4 ESP ESP;            (** new_stk *)
   PushM 0x10 EDX;              (** data *)
   PushM 0xc EDX;               (** fcn *)
   PushM 0x8 EDX;               (** kthread *)
   PushI Linit_thread;
   PushI 0; PushI 0; PushI 0; PushI 0;
   Mov ESP EAX;
   Mov EDX ESP;
   Ret_].

(** [.Linit_thread] up to the call, and from the address after it. *)
Definition init_thread_call (on_thread_start ra : Z) : list instr := [Call on_thread_start ra].
Definition init_thread_rest : list instr := [Pop EAX; Pop EAX; PushI 0; Jmp EAX].

Definition enter_userspace : list instr :=
  [MovAx 0x23; MovSeg DS; MovSeg ES; MovSeg FS; MovSeg GS;
   Mov ESP EDX;
   PushI 0x23;                  (** ss3 *)
   PushM 0x4 EDX;               (** esp3 *)
   Pushf;                       (** eflags3 *)
   PushI 0x1B;                  (** cs3 *)
   PushM 0x8 EDX;               (** eip3 *)
   Xor EAX; Xor EBX; Xor ECX; Xor EDX; Xor EDI; Xor ESI;
   Iret].

(** ** The callers *)

(** A call with its arguments on the stack, the first one lowest. *)
Definition call (args : list Z) (ra : Z) (s : cpu) : cpu := push ra (foldr push s args).

Definition set_tss_esp0 (v : Z) (s : cpu) : cpu :=
  CPU (regs s) (seg s) (flags s) (ip s) (mem s) v.
(** [esp] is what the inline assembly of the constructor reads. *)
Definition jump_to_userspace (esp3 eip3 ra : Z) (s : cpu) : cpu :=
  exec enter_userspace (call [esp3; eip3] ra
    (set_tss_esp0 (u32 (ceil_pow2 PG_SZ (gpr s ESP))) s)).

(** An interrupt taken in user mode: the processor switches to the kernel
    stack of the TSS and saves the user's state there. *)
Definition interrupt_from_user (handler : Z) (s : cpu) : cpu :=
  let frame := [ip s; seg s CS; flags s; gpr s ESP; seg s SS] in
  set_ip handler (set_seg CS 0x08 (set_seg SS 0x10 (foldr push (set_gpr ESP (esp0 s) s) frame))).

(** ** Symbolic execution *)
Lemma upd_eq {A} `{EqDecision A} (f : A → Z) a v : upd f a v a = v.
Proof. unfold upd. by rewrite decide_True. Qed.
Lemma upd_ne {A} `{EqDecision A} (f : A → Z) a b v : b ≠ a → upd f a v b = f b.
Proof. intros. unfold upd. by rewrite decide_False. Qed.

Lemma gpr_set_gpr r v s : gpr (set_gpr r v s) r = v.
Proof. destruct s as [[]]. by destruct r. Qed.

Lemma exec_cons i code s : exec (i :: code) s = exec code (exec1 s i).
Proof. done. Qed.

(** Resolves wrap-arounds and memory lookups with the arithmetic facts of
    the context. *)
Ltac x86_arith :=
  repeat match goal with
  | |- context [wrap 32 ?x] => rewrite (wrap_small 32 x) by lia
  | |- context [@upd Z ?D ?f ?a ?v ?b] => rewrite (@upd_ne Z D f a b v) by lia
  | |- context [@upd Z ?D ?f ?a ?v ?b] =>
      replace (@upd Z D f a v b) with v by (symmetry; unfold upd; apply decide_True; lia)
  end.
Ltac x86_cbn :=
  cbv beta iota zeta delta [exec1 push pop store load set_gpr set_seg set_flags set_ip set_tss_esp0
    gpr get_reg set_reg eax ecx edx ebx esp ebp esi edi regs seg flags ip mem esp0].
(** One instruction after the other. *)
Ltac x86 := x86_cbn; x86_arith; repeat (rewrite exec_cons; x86_cbn; x86_arith).

(** ** Saved contexts *)
Record ctx := Ctx { c_esi : Z; c_edi : Z; c_ebp : Z; c_ebx : Z; c_ip : Z; c_esp : Z }.

(** What is left of a thread in the registers. *)
Definition ctx_of (s : cpu) : ctx :=
  Ctx (gpr s ESI) (gpr s EDI) (gpr s EBP) (gpr s EBX) (ip s) (gpr s ESP).

(** The frame of a suspended thread at [sp]. *)
Definition frame (m : Z → Z) (sp : Z) (c : ctx) : Prop :=
  m sp = c_esi c ∧ m (sp + 4) = c_edi c ∧ m (sp + 8) = c_ebp c ∧ m (sp + 12) = c_ebx c ∧
  m (sp + 16) = c_ip c ∧ c_esp c = sp + 20.

(** The bytes the call writes on the stack of the thread it leaves. *)
Definition frame_sz : Z := 28.

Lemma call2_mem s x y ra a :
  12 ≤ gpr s ESP < 2 ^ 32 → a < gpr s ESP - 12 ∨ gpr s ESP ≤ a →
  mem (call [x; y] ra s) a = mem s a.
Proof.
  destruct s as [[? ? ? ? E ? ? ?] ? ? ? ? ?]. x86_cbn. intros. unfold call. cbn [foldr]. x86_cbn.
  by x86_arith.
Qed.

Lemma switch_stack_spec s slot new ra c :
  let E := gpr s ESP in
  frame_sz ≤ E < 2 ^ 32 → 0 ≤ new → new + 20 < 2 ^ 32 → frame (mem s) new c →
  (new + 20 ≤ E - frame_sz ∨ E ≤ new) →
  (slot < E - frame_sz ∨ E ≤ slot) → (slot < new ∨ new + 20 ≤ slot) →
  let s' := exec switch_stack (call [slot; new] ra s) in
  ctx_of s' = c ∧ mem s' slot = E - frame_sz ∧
  frame (mem s') (E - frame_sz)
    (Ctx (gpr s ESI) (gpr s EDI) (gpr s EBP) (gpr s EBX) ra (E - 8)) ∧
  (∀ a, a ≠ slot → ¬ (E - frame_sz ≤ a < E - 12) → mem s' a = mem (call [slot; new] ra s) a) ∧
  seg s' = seg s ∧ flags s' = flags s ∧ esp0 s' = esp0 s.
Proof.
  unfold frame_sz. destruct s as [[a c0 d b E bp si di] sg fl i m e0]. cbv zeta. x86_cbn.
  intros HE Hn0 Hn Hf Hd1 Hd2 Hd3. destruct c as [c1 c2 c3 c4 c5 c6]. unfold ctx_of, frame in *.
  cbn [c_esi c_edi c_ebp c_ebx c_ip c_esp] in *. destruct Hf as (H1 & H2 & H3 & H4 & H5 & ->).
  unfold switch_stack, call. cbn [foldr]. x86. unfold exec. cbn [foldl]. x86_cbn.
  split_and!; x86_arith; try done; [|lia..|by intros; x86_arith].
  subst. f_equal; first [lia | f_equal; lia].
Qed.

(** The arguments of a new thread at the top of its stack. *)
Definition thread_args (m : Z → Z) (stk kthread fcn data : Z) : Z → Z :=
  upd (upd (upd m (stk - 4) data) (stk - 8) fcn) (stk - 12) kthread.

Lemma setup_stack_spec s Linit stk kthread fcn data ra :
  let E := gpr s ESP in
  20 ≤ E < 2 ^ 32 → 32 ≤ stk < 2 ^ 32 → (stk ≤ E - 20 ∨ E + 32 ≤ stk) →
  let s' := exec (setup_stack Linit) (call [stk; kthread; fcn; data] ra s) in
  ip s' = ra ∧ gpr s' EAX = stk - 32 ∧ gpr s' ESP = E - 16 ∧
  gpr s' EBX = gpr s EBX ∧ gpr s' EBP = gpr s EBP ∧ gpr s' ESI = gpr s ESI ∧ gpr s' EDI = gpr s EDI ∧
  frame (mem s') (stk - 32) (Ctx 0 0 0 0 Linit (stk - 12)) ∧
  (∀ a, ¬ (stk - 32 ≤ a < stk - 12) → ¬ (E - 20 ≤ a < E) →
     mem s' a = thread_args (mem s) stk kthread fcn data a) ∧
  seg s' = seg s ∧ flags s' = flags s ∧ esp0 s' = esp0 s.
Proof.
  destruct s as [[a c0 d b E bp si di] sg fl i m e0]. cbv zeta. x86_cbn. intros HE Hs Hd.
  unfold setup_stack, call, frame. cbn [foldr c_esi c_edi c_ebp c_ebx c_ip c_esp]. x86.
  unfold exec. cbn [foldl]. x86_cbn. split_and!; x86_arith; try done; try lia.
  intros x Hx1 Hx2. x86_arith. unfold thread_args.
  replace (stk - 4 - 4 - 4) with (stk - 12) by lia. replace (stk - 4 - 4) with (stk - 8) by lia.
  unfold upd. repeat case_decide; done || lia.
Qed.

(** ** The start of a thread *)

(** A C function returned: to its return address, with the registers its
    callers rely on and the stack above it, its arguments included, as
    they were. *)
Definition returned (s s' : cpu) : Prop :=
  ip s' = load (gpr s ESP) s ∧ gpr s' ESP = gpr s ESP + 4 ∧
  gpr s' EBX = gpr s EBX ∧ gpr s' EBP = gpr s EBP ∧ gpr s' ESI = gpr s ESI ∧ gpr s' EDI = gpr s EDI ∧
  ∀ a, gpr s ESP < a → mem s' a = mem s a.

(** The arguments a cdecl function finds. *)
Definition arg (s : cpu) (n : Z) : Z := load (gpr s ESP + 4 + 4 * n) s.

Lemma init_thread_spec s on_start ra kthread fcn data s2 :
  let S := gpr s ESP in
  4 ≤ S → S + 12 < 2 ^ 32 → mem s S = kthread → mem s (S + 4) = fcn → mem s (S + 8) = data →
  let s1 := exec (init_thread_call on_start ra) s in
  returned s1 s2 →
  let s3 := exec init_thread_rest s2 in
  ip s1 = on_start ∧ arg s1 0 = kthread ∧ arg s1 1 = fcn ∧ arg s1 2 = data ∧ ip s2 = ra ∧
  ip s3 = fcn ∧ load (gpr s3 ESP) s3 = 0 ∧ arg s3 0 = data.
Proof.
  destruct s as [[a c0 d b S bp si di] sg fl i m e0]. cbv zeta. x86_cbn. intros HS HS' Hk Hf Hdt.
  unfold init_thread_call, returned, arg. x86. unfold exec at 1 2 3 4 5 6 7 8 9 10 11 12 13 14. cbn [foldl]. x86_cbn.
  destruct s2 as [[a' c' d' b' sp' bp' si' di'] sg' fl' i' m' e0']. x86_cbn. x86_arith.
  intros (Hip & -> & _ & _ & _ & _ & Hm).
  assert (HmS : ∀ a, S ≤ a → m' a = m a) by (intros x Hx; rewrite Hm by lia; by x86_arith).
  unfold init_thread_rest. x86. unfold exec. cbn [foldl]. x86_cbn. x86_arith.
  rewrite !HmS by lia. subst. split_and!; first [done | f_equal; lia].
Qed.

(** ** Threads with stacks of their own

    [t_slot] is the address of the thread's [KernelThread::stack]. *)
Record thread := Thread { t_slot : Z; t_lo : Z; t_hi : Z }.

Definition on_stack (t : thread) (a : Z) : Prop := t_lo t ≤ a < t_hi t.
Definition owned (t : thread) (a : Z) : Prop := on_stack t a ∨ a = t_slot t.

(** The context of a call that will return to [ra]. *)
Definition left (s : cpu) (ra : Z) : ctx :=
  Ctx (gpr s ESI) (gpr s EDI) (gpr s EBP) (gpr s EBX) ra (gpr s ESP - 8).

Section threads.
(** Threads are numbered below [n]. *)
Context (n : nat) (th : nat → thread) (Linit : Z).
Hypothesis th_bounds : ∀ t, (t < n)%nat → 32 ≤ t_lo (th t) ∧ t_lo (th t) ≤ t_hi (th t) - 32 ∧ t_hi (th t) < 2 ^ 32.
Hypothesis th_disjoint : ∀ t u, (t < n)%nat → (u < n)%nat → t ≠ u →
  t_hi (th t) ≤ t_lo (th u) ∨ t_hi (th u) ≤ t_lo (th t).
Hypothesis slot_off : ∀ t u, (t < n)%nat → (u < n)%nat → t_slot (th t) < t_lo (th u) ∨ t_hi (th u) ≤ t_slot (th t).
Hypothesis slot_inj : ∀ t u, (t < n)%nat → (u < n)%nat → t ≠ u → t_slot (th t) ≠ t_slot (th u).

(** What a thread leaves behind: its registers and its stack. *)
Abbreviation saved := (ctx * (Z → Z))%type.
(** The machine, the threads that are not running with what they left, and
    the running thread. *)
Record config := Config { cf_cpu : cpu; cf_sus : gmap nat saved; cf_cur : nat }.

Inductive step : config → config → Prop :=
(** The running thread runs: it may change anything but the stacks and the
    saved stack pointers of the others. *)
| step_run s s' sus cur :
    (∀ t a, is_Some (sus !! t) → owned (th t) a → mem s' a = mem s a) →
    t_lo (th cur) ≤ gpr s' ESP ≤ t_hi (th cur) →
    step (Config s sus cur) (Config s' sus cur)
(** It calls [switch_stack(&cur->stack, t->stack)], to return to [ra]. *)
| step_switch s sus cur t sv ra called s' :
    sus !! t = Some sv → t_lo (th cur) + frame_sz ≤ gpr s ESP →
    called = call [t_slot (th cur); mem s (t_slot (th t))] ra s →
    s' = exec switch_stack called →
    step (Config s sus cur) (Config s' (<[cur := (left s ra, mem called)]> (delete t sus)) t)
(** It creates a thread: [thread->stack = setup_stack(...)]. *)
| step_spawn s sus cur t kthread fcn data ra s1 :
    (t < n)%nat → sus !! t = None → t ≠ cur → t_lo (th cur) + 20 ≤ gpr s ESP →
    s1 = exec (setup_stack Linit) (call [t_hi (th t); kthread; fcn; data] ra s) →
    step (Config s sus cur)
         (Config (set_gpr ESP (gpr s ESP) (store (t_slot (th t)) (gpr s1 EAX) s1))
            (<[t := (Ctx 0 0 0 0 Linit (t_hi (th t) - 12),
                     thread_args (mem s) (t_hi (th t)) kthread fcn data)]> sus) cur).

(** The invariant: a suspended thread's frame and stack are in memory. *)
Definition kept (s : cpu) (t : nat) (sv : saved) : Prop :=
  let sp := mem s (t_slot (th t)) in
  t_lo (th t) ≤ sp ∧ sp + 20 ≤ t_hi (th t) ∧ frame (mem s) sp sv.1 ∧
  ∀ a, c_esp sv.1 ≤ a < t_hi (th t) → mem s a = sv.2 a.

Definition threads_inv (c : config) : Prop :=
  cf_sus c !! cf_cur c = None ∧ (cf_cur c < n)%nat ∧ (∀ t, is_Some (cf_sus c !! t) → (t < n)%nat) ∧
  t_lo (th (cf_cur c)) ≤ gpr (cf_cpu c) ESP ≤ t_hi (th (cf_cur c)) ∧
  map_Forall (kept (cf_cpu c)) (cf_sus c).

Lemma kept_frame s s' t sv :
  (∀ a, owned (th t) a → mem s' a = mem s a) → kept s t sv → kept s' t sv.
Proof.
  intros Hm (Hlo & Hhi & (H1 & H2 & H3 & H4 & H5 & H6) & Hst). unfold kept.
  rewrite (Hm (t_slot (th t))) by (by right). set (sp := mem s (t_slot (th t))) in *.
  assert (Hs : ∀ a, sp ≤ a < t_hi (th t) → mem s' a = mem s a) by (intros; apply Hm; left; unfold on_stack; lia).
  split_and!; [done..| |].
  - unfold frame. rewrite !Hs by lia. done.
  - intros a Ha. rewrite Hs by lia. by apply Hst.
Qed.

(** The switch from a configuration that has the invariant. *)
Lemma switch_kept s sus cur t sv ra called s' :
  threads_inv (Config s sus cur) → sus !! t = Some sv → t_lo (th cur) + frame_sz ≤ gpr s ESP →
  called = call [t_slot (th cur); mem s (t_slot (th t))] ra s → s' = exec switch_stack called →
  ctx_of s' = sv.1 ∧ (∀ a, c_esp sv.1 ≤ a < t_hi (th t) → mem s' a = sv.2 a) ∧
  kept s' cur (left s ra, mem called) ∧
  (∀ u sv, (u < n)%nat → u ≠ cur → kept s u sv → kept s' u sv) ∧
  t_lo (th t) ≤ c_esp sv.1 ≤ t_hi (th t).
Proof.
  intros (Hcur & Hcn & Hdom & Hesp & Hall) Ht Hroom Hcalled Hs'. cbn [cf_cpu cf_sus cf_cur] in *.
  assert (Hne : t ≠ cur) by congruence. assert (Htn : (t < n)%nat) by eauto. pose proof (Hall t sv Ht) as (Hlo & Hhi & Hfr & Hst).
  destruct (th_bounds cur Hcn) as (? & ? & ?), (th_bounds t Htn) as (? & ? & ?).
  pose proof (th_disjoint t cur Htn Hcn Hne). pose proof (slot_off cur t Hcn Htn).
  pose proof (slot_off cur cur Hcn Hcn). pose proof (slot_off t cur Htn Hcn). set (sp := mem s (t_slot (th t))) in *. unfold frame_sz in *.
  destruct (switch_stack_spec s (t_slot (th cur)) sp ra sv.1)
    as (Hctx & Hslot & Hframe & Hmem & _); unfold frame_sz in *; [lia|lia|lia|done|lia|lia|lia|].
  rewrite <- Hcalled, <- Hs' in *.
  assert (Hoff : ∀ a, a ≠ t_slot (th cur) → a < gpr s ESP - 28 ∨ gpr s ESP ≤ a → mem s' a = mem s a).
  { intros a Ha1 Ha2. rewrite Hmem, Hcalled by lia. apply call2_mem; lia. }
  clear Hs' Hcalled.
  pose proof (proj2 (proj2 (proj2 (proj2 (proj2 Hfr))))) as Hsp.
  split; [done|]. split; [intros a Ha; rewrite Hoff by lia; by apply Hst|]. split.
  { unfold kept. rewrite Hslot. split; [lia|]. split; [lia|]. split; [done|].
    unfold left. cbn [fst snd c_esp]. intros a Ha. clear Hslot Hframe Hctx.
    apply Hmem; lia. }
  split; [|lia]. intros u sv' Hun Hu. apply kept_frame. intros a [Ha| ->].
  - pose proof (th_disjoint u cur Hun Hcn Hu). pose proof (slot_off cur u Hcn Hun). unfold on_stack in Ha. apply Hoff; lia.
  - pose proof (slot_off u cur Hun Hcn). apply Hoff; [by apply slot_inj|lia].
Qed.

(** The creation of a thread. *)
Lemma spawn_kept s sus cur t kthread fcn data ra s1 :
  threads_inv (Config s sus cur) → (t < n)%nat → t ≠ cur → t_lo (th cur) + 20 ≤ gpr s ESP →
  s1 = exec (setup_stack Linit) (call [t_hi (th t); kthread; fcn; data] ra s) →
  let s' := set_gpr ESP (gpr s ESP) (store (t_slot (th t)) (gpr s1 EAX) s1) in
  kept s' t (Ctx 0 0 0 0 Linit (t_hi (th t) - 12), thread_args (mem s) (t_hi (th t)) kthread fcn data) ∧
  ∀ u sv, (u < n)%nat → u ≠ t → u ≠ cur → kept s u sv → kept s' u sv.
Proof.
  intros (_ & Hcn & _ & Hesp & _) Htn Hne Hroom Hs1. cbn [cf_cpu cf_cur] in Hesp. cbv zeta.
  destruct (th_bounds cur Hcn) as (? & ? & ?), (th_bounds t Htn) as (? & ? & ?).
  pose proof (th_disjoint t cur Htn Hcn Hne). pose proof (slot_off t t Htn Htn).
  pose proof (slot_off t cur Htn Hcn).
  destruct (setup_stack_spec s Linit (t_hi (th t)) kthread fcn data ra)
    as (_ & Heax & _ & _ & _ & _ & _ & Hframe & Hmem & _); [lia..|].
  rewrite <- Hs1 in *. clear Hs1. rewrite Heax.
  assert (Hm' : ∀ a, a ≠ t_slot (th t) →
    mem (set_gpr ESP (gpr s ESP) (store (t_slot (th t)) (t_hi (th t) - 32) s1)) a = mem s1 a)
    by (intros; by apply upd_ne).
  split.
  - unfold kept. replace (mem _ (t_slot (th t))) with (t_hi (th t) - 32) by (symmetry; apply upd_eq).
    split; [lia|]. split; [lia|]. unfold frame in *. cbn [fst snd c_esi c_edi c_ebp c_ebx c_ip c_esp] in *.
    rewrite !Hm' by lia. split; [done|]. intros a Ha. rewrite Hm' by lia. apply Hmem; lia.
  - intros u sv Hun Hut Huc. apply kept_frame.
    assert (Hoff : ∀ a, a ≠ t_slot (th t) → ¬ on_stack (th t) a → ¬ on_stack (th cur) a →
      mem (set_gpr ESP (gpr s ESP) (store (t_slot (th t)) (t_hi (th t) - 32) s1)) a = mem s a).
    { unfold on_stack. intros a Ha Ht Hc. rewrite Hm', Hmem by lia. unfold thread_args.
      by rewrite !upd_ne by lia. }
    pose proof (th_disjoint u t Hun Htn Hut). pose proof (th_disjoint u cur Hun Hcn Huc).
    pose proof (slot_off u t Hun Htn). pose proof (slot_off u cur Hun Hcn). pose proof (slot_off t u Htn Hun).
    intros a [Ha| ->]; apply Hoff; unfold on_stack in *; try lia. by apply slot_inj.
Qed.

Lemma threads_inv_step c c' : threads_inv c → step c c' → threads_inv c'.
Proof.
  intros Hinv Hstep. destruct Hstep as [s s' sus cur Hm Hesp|s sus cur t sv ra called s' Ht Hroom Hc Hs'|
    s sus cur t kthread fcn data ra s1 Htn Ht Hne Hroom Hs1].
  - destruct Hinv as (Hcur & Hcn & Hdom & _ & Hall). split_and!; [done..|apply Hesp|apply Hesp|].
    intros t sv Ht. eapply kept_frame; [|by apply Hall]. intros a. apply (Hm t). by exists sv.
  - destruct (switch_kept s sus cur t sv ra called s' Hinv Ht Hroom Hc Hs') as (Hctx & _ & Hk & Hother & Hb).
    destruct Hinv as (Hcur & Hcn & Hdom & _ & Hall). cbn [cf_sus cf_cur cf_cpu] in *.
    assert (t ≠ cur) by congruence. unfold threads_inv. cbn [cf_sus cf_cur cf_cpu].
    split; [by rewrite lookup_insert_ne, lookup_delete_eq|]. split; [eauto|]. split.
    { intros u [sv' [[<- _]|[_ [_ Hu]%lookup_delete_Some]]%lookup_insert_Some]; eauto. }
    split.
    { rewrite <- Hctx in Hb. exact Hb. }
    intros u sv' [[<- <-]|[Hu [Hut Hu']%lookup_delete_Some]]%lookup_insert_Some; [done|].
    apply Hother; [by eauto|done|]. by apply Hall.
  - destruct (spawn_kept s sus cur t kthread fcn data ra s1 Hinv Htn Hne Hroom Hs1) as [Hk Hother].
    destruct Hinv as (Hcur & Hcn & Hdom & Hesp & Hall). cbn [cf_sus cf_cur cf_cpu] in *.
    unfold threads_inv. cbn [cf_sus cf_cur cf_cpu]. split; [by rewrite lookup_insert_ne|].
    split; [done|]. split.
    { intros u [sv' [[<- _]|[_ Hu]]%lookup_insert_Some]; eauto. }
    rewrite gpr_set_gpr. split; [exact Hesp|].
    intros u sv' [[<- <-]|[Hu Hu']]%lookup_insert_Some; [done|].
    apply Hother; [by eauto|done|congruence|]. by apply Hall.
Qed.

Lemma threads_inv_rtc c c' : rtc step c c' → threads_inv c → threads_inv c'.
Proof. induction 1; eauto using threads_inv_step. Qed.

(** C21: threads with stacks of their own are coroutines: in every history
    of running, creating threads and switching, a thread that is switched
    to continues where it called [switch_stack] (or, if it is new, at
    [.Linit_thread]), with the callee-saved registers, the stack pointer
    and the contents of the stack above it that it left, whatever the
    other threads did. *)
Theorem switch_resumes s0 cur0 s sus cur t sv ra called s' :
  (cur0 < n)%nat → t_lo (th cur0) ≤ gpr s0 ESP ≤ t_hi (th cur0) →
  rtc step (Config s0 ∅ cur0) (Config s sus cur) →
  sus !! t = Some sv → t_lo (th cur) + frame_sz ≤ gpr s ESP →
  called = call [t_slot (th cur); mem s (t_slot (th t))] ra s → s' = exec switch_stack called →
  step (Config s sus cur) (Config s' (<[cur := (left s ra, mem called)]> (delete t sus)) t) ∧
  ctx_of s' = sv.1 ∧ ∀ a, c_esp sv.1 ≤ a < t_hi (th t) → mem s' a = sv.2 a.
Proof.
  intros Hn0 Hesp0 Hrtc Ht Hroom Hc Hs'. split; [by apply step_switch with (sv := sv)|].
  assert (Hinv0 : threads_inv (Config s0 ∅ cur0))
    by (split_and!; [done|done|by intros t' [? ?]|apply Hesp0|apply Hesp0|apply map_Forall_empty]).
  pose proof (threads_inv_rtc _ _ Hrtc Hinv0) as Hinv.
  destruct (switch_kept s sus cur t sv ra called s' Hinv Ht Hroom Hc Hs') as (Hctx & Hst & _). done.
Qed.
(** A new thread that is switched to calls [on_thread_start] with its
    thread, function and data; when that returns, the function is entered
    with its data as argument and a null return address. *)
Lemma thread_starts s sus cur t m kthread fcn data ra called s' on_start ra' s2 :
  threads_inv (Config s sus cur) →
  sus !! t = Some (Ctx 0 0 0 0 Linit (t_hi (th t) - 12), thread_args m (t_hi (th t)) kthread fcn data) →
  t_lo (th cur) + frame_sz ≤ gpr s ESP →
  called = call [t_slot (th cur); mem s (t_slot (th t))] ra s → s' = exec switch_stack called →
  let s1 := exec (init_thread_call on_start ra') s' in
  returned s1 s2 →
  let s3 := exec init_thread_rest s2 in
  ip s' = Linit ∧ ip s1 = on_start ∧ arg s1 0 = kthread ∧ arg s1 1 = fcn ∧ arg s1 2 = data ∧
  ip s2 = ra' ∧ ip s3 = fcn ∧ load (gpr s3 ESP) s3 = 0 ∧ arg s3 0 = data.
Proof.
  intros Hinv Ht Hroom Hc Hs'. destruct (switch_kept _ _ _ _ _ _ _ _ Hinv Ht Hroom Hc Hs') as (Hctx & Hst & _).
  cbn [fst snd c_esp] in *. clear Hs' Hc.
  destruct (th_bounds t) as (? & ? & ?); [destruct Hinv as (_ & _ & Hdom & _); apply Hdom; by eexists|].
  assert (ip s' = Linit) by (by apply (f_equal c_ip) in Hctx).
  assert (Hsp : gpr s' ESP = t_hi (th t) - 12) by (by apply (f_equal c_esp) in Hctx).
  cbv zeta. intros Hret. split; [done|].
  apply init_thread_spec; rewrite ?Hsp; [lia|lia|..|done]; rewrite Hst by lia; unfold thread_args.
  - by rewrite upd_eq.
  - rewrite upd_ne by lia. replace (t_hi (th t) - 12 + 4) with (t_hi (th t) - 8) by lia. by rewrite upd_eq.
  - rewrite !upd_ne by lia. replace (t_hi (th t) - 12 + 8) with (t_hi (th t) - 4) by lia. by rewrite upd_eq.
Qed.
End threads.

(** ** Into user mode and back *)
Lemma jump_to_userspace_spec s esp3 eip3 ra :
  let E := gpr s ESP in
  32 ≤ E → E + PG_SZ < 2 ^ 32 → 0 ≤ gpr s EAX →
  let u := jump_to_userspace esp3 eip3 ra s in
  ip u = eip3 ∧ gpr u ESP = esp3 ∧ seg u CS = 0x1B ∧ seg u SS = 0x23 ∧
  Forall (λ r, seg u r = 0x23) [DS; ES; FS; GS] ∧
  Forall (λ r, gpr u r = 0) [EAX; EBX; ECX; EDX; EDI; ESI] ∧ gpr u EBP = gpr s EBP ∧
  flags u = flags s ∧ esp0 u = ceil_pow2 PG_SZ E ∧
  ∀ a, ¬ (E - 32 ≤ a < E) → mem u a = mem s a.
Proof.
  destruct s as [[a c0 d b E bp si di] sg fl i m e0]. cbv zeta. x86_cbn. intros HE HE' Ha.
  change PG_SZ with 4096 in *. destruct (ceil_pow2_ge 12 E) as [Hc _]; [lia..|].
  change (2 ^ 12) with 4096 in *.
  unfold jump_to_userspace. x86_cbn. change PG_SZ with 4096. set (top := ceil_pow2 4096 E) in *. clearbody top.
  unfold call, enter_userspace. cbn [foldr]. x86_cbn. x86_arith.
  assert (Hax : u16 (2 ^ 16 * (a / 2 ^ 16) + 0x23) = 0x23)
    by (unfold wrap; rewrite Z.add_comm, Z.mul_comm, Z.mod_add by done; done).
  rewrite exec_cons. x86_cbn. do 4 (rewrite exec_cons; x86_cbn; rewrite Hax). x86.
  change (Z.land 0x1B 3 =? 0) with false. unfold exec. cbn [foldl]. x86_cbn. x86_arith.
  split_and!; x86_arith; try done; try (repeat constructor; done).
  intros x Hx. by x86_arith.
Qed.

Lemma interrupt_from_user_spec u h :
  20 ≤ esp0 u < 2 ^ 32 → Z.land (seg u CS) 3 ≠ 0 →
  let k := interrupt_from_user h u in
  ip k = h ∧ seg k CS = 0x08 ∧ gpr k ESP = esp0 u - 20 ∧
  (∀ a, ¬ (esp0 u - 20 ≤ a < esp0 u) → mem k a = mem u a) ∧
  let u' := exec [Iret] k in
  ip u' = ip u ∧ flags u' = flags u ∧ regs u' = regs u ∧ seg u' CS = seg u CS ∧ seg u' SS = seg u SS.
Proof.
  destruct u as [[a c d b E bp si di] sg fl i m e0]. cbv zeta. x86_cbn. intros He Hcs.
  unfold interrupt_from_user. cbn [foldr]. x86_cbn. x86_arith. unfold exec. cbn [foldl]. x86_cbn. x86_arith.
  rewrite (proj2 (Z.eqb_neq _ _) Hcs). cbv iota. x86_cbn. x86_arith.
  split_and!; try done; try lia. by intros x Hx; x86_arith.
Qed.

(** C22: [jump_to_userspace] leaves the processor in ring 3 at the entry
    point and stack of the program, with flat data segments and no
    register but [ebp] holding a kernel value, having written only below
    the kernel stack pointer.  The next interrupt of the program is taken
    at the top of the kernel stack of this thread, writes only there, and
    an [iret] on the frame it finds resumes the program exactly. *)
Theorem userspace_entered hi s esp3 eip3 ra u h :
  hi mod PG_SZ = 0 → hi - PG_SZ + 32 ≤ gpr s ESP → PG_SZ ≤ hi - PG_SZ →
  hi - PG_SZ < gpr s ESP ≤ hi → hi + PG_SZ < 2 ^ 32 → 0 ≤ gpr s EAX →
  esp0 u = esp0 (jump_to_userspace esp3 eip3 ra s) → seg u CS = 0x1B →
  (let u0 := jump_to_userspace esp3 eip3 ra s in
   ip u0 = eip3 ∧ gpr u0 ESP = esp3 ∧ seg u0 CS = 0x1B ∧ seg u0 SS = 0x23 ∧
   Forall (λ r, seg u0 r = 0x23) [DS; ES; FS; GS] ∧
   Forall (λ r, gpr u0 r = 0) [EAX; EBX; ECX; EDX; EDI; ESI] ∧
   ∀ a, ¬ (gpr s ESP - 32 ≤ a < gpr s ESP) → mem u0 a = mem s a) ∧
  let k := interrupt_from_user h u in
  let u' := exec [Iret] k in
  ip k = h ∧ gpr k ESP = hi - 20 ∧ (∀ a, ¬ (hi - 20 ≤ a < hi) → mem k a = mem u a) ∧
  ip u' = ip u ∧ flags u' = flags u ∧ regs u' = regs u ∧ seg u' CS = seg u CS ∧ seg u' SS = seg u SS.
Proof.
  intros Hhi HE Hpg Hin Htop Ha Hesp0 Hcs.
  destruct (jump_to_userspace_spec s esp3 eip3 ra) as (? & ? & ? & ? & ? & ? & _ & _ & Htss & ?);
    [change PG_SZ with 4096 in *; lia|change PG_SZ with 4096 in *; lia|done|].
  split; [by split_and!|]. clear -Hesp0 Hcs Htss Hhi Hin Hpg Htop.
  rewrite Htss in Hesp0. assert (Hc : ceil_pow2 PG_SZ (gpr s ESP) = hi).
  { change PG_SZ with (2 ^ 12) in *. destruct (ceil_pow2_ge 12 (gpr s ESP)) as [Hc Hcm]; [lia..|].
    apply Z.mod_divide in Hcm as [q Hq], Hhi as [r ->]; [|done..]. rewrite Hq in *. lia. }
  rewrite Hc in Hesp0. change PG_SZ with 4096 in *.
  destruct (interrupt_from_user_spec u h) as (? & _ & ? & ? & ?); rewrite ?Hesp0 in *; [lia|by rewrite Hcs|done].
Qed.

(** ** Two programs

    [set_tss_esp0] is called when a thread first enters user mode and not
    when threads are switched: once a second program has entered user
    mode, an interrupt of the first is taken on the kernel stack of the
    second, over the frame of the second's own suspended interrupt. *)
Definition idle_cpu : cpu :=
  CPU (Gprs 0 0 0 0 0 0 0 0) (λ _, 0x10) 0x202 0 (λ _, 0) 0.
Definition with_esp (v : Z) (s : cpu) : cpu := set_gpr ESP v s.

Example second_program_takes_interrupts :
  (** the first program enters user mode from the stack below 0x2000, the
      second from the stack below 0x4000, and is interrupted *)
  let first := jump_to_userspace 0xBFFFF000 0x10000 0 (with_esp 0x1F00 idle_cpu) in
  let second := jump_to_userspace 0xBFFFE000 0x20000 0 (with_esp 0x3F00 first) in
  let interrupted := interrupt_from_user 0xC0100000 second in
  (** the processor goes back to the first program, which is interrupted *)
  let first' := set_ip 0x10004 (set_seg CS 0x1B (with_esp 0xBFFFEFF0 interrupted)) in
  let clobbered := interrupt_from_user 0xC0100000 first' in
  mem interrupted (0x4000 - 20) = 0x20000 ∧ gpr clobbered ESP = 0x4000 - 20 ∧
  mem clobbered (0x4000 - 20) = 0x10004.
Proof. vm_compute. done. Qed.

(** [ebp] keeps its kernel value. *)
Example kernel_ebp_leaks :
  gpr (jump_to_userspace 0xBFFFF000 0x10000 0 (set_gpr EBP 0xC0123FF0 (with_esp 0x1F00 idle_cpu))) EBP
  = 0xC0123FF0.
Proof. vm_compute. done. Qed.

(** ** Witnesses *)
Definition two_threads (t : nat) : thread :=
  match t with O => Thread 0x100 0x1000 0x2000 | _ => Thread 0x104 0x3000 0x4000 end.
Definition spawned : cpu :=
  let s := with_esp 0x1F00 idle_cpu in
  let s1 := exec (setup_stack 0xC0105000) (call [0x4000; 0x104; 0xC0106000; 42] 0xC0107000 s) in
  set_gpr ESP (gpr s ESP) (store 0x104 (gpr s1 EAX) s1).

Lemma switch_resumes_witness :
  let s' := exec switch_stack (call [0x100; mem spawned 0x104] 0xC0108000 spawned) in
  ctx_of s' = Ctx 0 0 0 0 0xC0105000 (0x4000 - 12) ∧ mem s' (0x4000 - 4) = 42.
Proof.
  cbv zeta.
  destruct (switch_resumes 2 two_threads 0xC0105000) with (s0 := with_esp 0x1F00 idle_cpu) (cur0 := 0%nat)
    (s := spawned) (cur := 0%nat) (t := 1%nat) (ra := 0xC0108000)
    (sus := {[1%nat := (Ctx 0 0 0 0 0xC0105000 (0x4000 - 12),
              thread_args (mem (with_esp 0x1F00 idle_cpu)) 0x4000 0x104 0xC0106000 42)]} : gmap nat _)
    (sv := (Ctx 0 0 0 0 0xC0105000 (0x4000 - 12),
            thread_args (mem (with_esp 0x1F00 idle_cpu)) 0x4000 0x104 0xC0106000 42))
    (called := call [0x100; mem spawned 0x104] 0xC0108000 spawned)
    (s' := exec switch_stack (call [0x100; mem spawned 0x104] 0xC0108000 spawned))
    as (_ & Hctx & Hst).
  - intros [|[|t]] ?; simpl; lia.
  - intros [|[|t]] [|[|u]] ???; simpl; lia.
  - intros [|[|t]] [|[|u]] ??; simpl; lia.
  - intros [|[|t]] [|[|u]] ???; simpl; lia.
  - lia.
  - vm_compute. split; discriminate.
  - apply rtc_once. eapply (step_spawn 2 two_threads 0xC0105000 (with_esp 0x1F00 idle_cpu) ∅ 0%nat 1%nat
      0x104 0xC0106000 42 0xC0107000); [lia|done|done|vm_compute; discriminate|reflexivity].
  - by rewrite lookup_singleton_eq.
  - vm_compute. discriminate.
  - reflexivity.
  - reflexivity.
  - split; [exact Hctx|]. rewrite Hst by (vm_compute; split; [discriminate|reflexivity]). reflexivity.
Defined.

Lemma userspace_entered_witness :
  let u := jump_to_userspace 0xBFFFF000 0x10000 0 (with_esp 0x1F00 idle_cpu) in
  ip u = 0x10000 ∧ gpr (interrupt_from_user 0xC0100000 u) ESP = 0x2000 - 20.
Proof.
  pose proof (userspace_entered 0x2000 (with_esp 0x1F00 idle_cpu) 0xBFFFF000 0x10000 0
    (jump_to_userspace 0xBFFFF000 0x10000 0 (with_esp 0x1F00 idle_cpu)) 0xC0100000
    eq_refl ltac:(vm_compute; discriminate) ltac:(vm_compute; discriminate)
    ltac:(vm_compute; split; [reflexivity|discriminate]) ltac:(vm_compute; reflexivity)
    ltac:(vm_compute; discriminate) eq_refl ltac:(vm_compute; reflexivity)) as ((H1 & _) & _ & H2 & _).
  exact (conj H1 H2).
Defined.
