(* ===== verification/Ahci.v ===== *)
(** * The AHCI driver

    Models [drivers/ahci.cc]: the layout of the memory given to the
    controller, the port registers the driver uses, and [read_blocking],
    which builds a command header, a scatter list and a command packet,
    issues the command and waits for it.  The controller acts on what is in
    the registers and in the memory shared with it: a write to [PxCI] starts
    the commands of the slots it names, whose headers are in the list at
    [PxCLB] and lead to the command tables ([issue_slots]).  What the disk
    does with a command is the interface [AhciDevice].

    The structures shared with the controller are records, found by their
    physical address, and [dram] is the memory around them; a command that
    writes over a structure destroys it.  [polls] are the values the
    driver's reads of the registers return while it waits. *)
From S2P Require Import Prelude Algorithm PageFrame MemoryMap Kmalloc Lru PageTable PageCache.

(** ** Structures *)
Definition RegisterH2D_type : Z := 0x27.
Definition ReadDMAExt : Z := 0x25.
Record RegisterH2D := Fis {
  fis_type : Z; f_c : Z; command : Z; lba0 : Z; lba1 : Z; lba2 : Z; device : Z;
  lba3 : Z; lba4 : Z; lba5 : Z; countl : Z; counth : Z }.
Record PRDTEntry := Prdt { dba : Z; dbau : Z; dbc : Z; prdt_i : Z }.
Record CommandHeader := CHdr { cfl : Z; h_w : Z; prdtl : Z; ctba : Z; ctbau : Z }.
Record PortRegisters := Port { clb : Z; clbu : Z; fb : Z; fbu : Z; p_is : Z; p_cmd : Z; p_sig : Z; ssts : Z; sact : Z; ci : Z }.

Definition sizeof_ReceivedFIS : Z := 0x100.
Definition sizeof_CommandHeader : Z := 0x20.
Definition sizeof_CommandTable : Z := 0x80.
Definition sizeof_PRDTEntry : Z := 0x10.
Definition sizeof_RegisterH2D : Z := 0x14.
Definition command_slots_per_port : Z := 32.
Definition prdtes_per_command : Z := 8.

Record ahci := Ahci {
  ports : list PortRegisters;
  headers : gmap Z CommandHeader;                       (** by physical address *)
  tables : gmap Z (RegisterH2D * list PRDTEntry);
  dram : bytes;
  ahci_virt_base : Z;
  ahci_phys_base : Z }.

Definition set_port (i : nat) (p : PortRegisters) (st : ahci) : ahci :=
  Ahci (<[i := p]> (ports st)) (headers st) (tables st) (dram st) (ahci_virt_base st) (ahci_phys_base st).
Definition set_header (a : Z) (h : CommandHeader) (st : ahci) : ahci :=
  Ahci (ports st) (<[a := h]> (headers st)) (tables st) (dram st) (ahci_virt_base st) (ahci_phys_base st).
Definition set_table (a : Z) (t : RegisterH2D * list PRDTEntry) (st : ahci) : ahci :=
  Ahci (ports st) (headers st) (<[a := t]> (tables st)) (dram st) (ahci_virt_base st) (ahci_phys_base st).
Definition set_dram (m : bytes) (st : ahci) : ahci :=
  Ahci (ports st) (headers st) (tables st) m (ahci_virt_base st) (ahci_phys_base st).

Definition set_virt_base (v : Z) (st : ahci) : ahci := Ahci (ports st) (headers st) (tables st) (dram st) v (ahci_phys_base st).
Definition set_phys_base (p : Z) (st : ahci) : ahci := Ahci (ports st) (headers st) (tables st) (dram st) (ahci_virt_base st) p.

Definition with_is (x : Z) (p : PortRegisters) : PortRegisters :=
  Port (clb p) (clbu p) (fb p) (fbu p) x (p_cmd p) (p_sig p) (ssts p) (sact p) (ci p).
Definition with_ci (x : Z) (p : PortRegisters) : PortRegisters :=
  Port (clb p) (clbu p) (fb p) (fbu p) (p_is p) (p_cmd p) (p_sig p) (ssts p) (sact p) x.

Definition with_cmd (x : Z) (p : PortRegisters) : PortRegisters :=
  Port (clb p) (clbu p) (fb p) (fbu p) (p_is p) x (p_sig p) (ssts p) (sact p) (ci p).
Definition with_bases (c f : Z) (p : PortRegisters) : PortRegisters :=
  Port c 0 f 0 (p_is p) (p_cmd p) (p_sig p) (ssts p) (sact p) (ci p).

Definition ahci_virt_to_phys (virt : Z) (st : ahci) : outcome Z :=
  _ ← assert_ (negb (ahci_phys_base st =? 0) && negb (ahci_virt_base st =? 0));
  Ret (u64 (ahci_phys_base st + (virt - ahci_virt_base st))).
Definition ahci_phys_to_virt (phys : Z) (st : ahci) : outcome Z :=
  _ ← assert_ (negb (ahci_phys_base st =? 0) && negb (ahci_virt_base st =? 0));
  Ret (u32 (ahci_virt_base st + (phys - ahci_phys_base st))).

(** ** Ports *)
Definition cmd_st_fre : Z := 0x11.
Definition cmd_cr : Z := 0x8000.
Definition cmd_fr_cr : Z := 0xC000.
(** The value [unpause_cmd_engine] and [pause_cmd_engine] write *)
Definition unpause_cmd (cmd : Z) : Z := Z.lor cmd cmd_st_fre.
Definition pause_cmd (cmd : Z) : Z := Z.land cmd (u32 (Z.lnot cmd_st_fre)).

(** [enumerate_ports]: [None] is the failed assertion. *)
Definition valid_signature (sig : Z) : bool :=
  bool_decide (sig ∈ [0x00000101; 0xEB140101; 0xC33C0101; 0x96690101]).
Definition port_present (p : PortRegisters) : bool :=
  (Z.land (ssts p) 0xF =? 0x03) && (Z.land (Z.shiftr (ssts p) 8) 0xF =? 0x01).
Fixpoint enumerate_loop (fuel : nat) (i : nat) (pi : Z) (ps : list PortRegisters) (n : Z) : outcome Z :=
  match fuel with
  | O => Ret n
  | S fuel =>
    if negb (Z.testbit pi (Z.of_nat i)) then enumerate_loop fuel (S i) pi ps n
    else
      p ← deref (ps !! i);
      _ ← assert_ (negb (port_present p) || valid_signature (p_sig p));
      enumerate_loop fuel (S i) pi ps (n + 1)
  end.
Definition enumerate_ports (pi : Z) (ps : list PortRegisters) : outcome Z := enumerate_loop 32 0 pi ps 0.

(** [32 - __builtin_clz(pi)] *)
Definition max_port_of (pi : Z) : Z := if pi =? 0 then 0 else Z.log2 pi + 1.

(** [None] is the return of -1. *)
Fixpoint cmdslot_loop (fuel : nat) (i : nat) (slots : Z) : option nat :=
  match fuel with
  | O => None
  | S fuel => if Z.land slots (Z.shiftl 1 (Z.of_nat i)) =? 0 then Some i else cmdslot_loop fuel (S i) slots
  end.
Definition find_free_cmdslot (p : PortRegisters) : option nat := cmdslot_loop 32 0 (Z.lor (sact p) (ci p)).

(** ** Memory of the ports *)
Definition req_sz_per_port : Z :=
  1024 + sizeof_ReceivedFIS + command_slots_per_port * (sizeof_CommandTable + prdtes_per_command * sizeof_PRDTEntry).
Definition alloc_sz (max_port : Z) : Z := u32 (ceil_pow2 PG_SZ (req_sz_per_port * max_port)).

Definition received_fis_base (base max_port : Z) : Z := base + Z.shiftl max_port 10.
Definition cmd_tbl_base (base max_port : Z) : Z := received_fis_base base max_port + max_port * sizeof_ReceivedFIS.
Definition cmd_tbl (base max_port cmd : Z) : Z :=
  cmd_tbl_base base max_port + cmd * (sizeof_CommandTable + prdtes_per_command * sizeof_PRDTEntry).

(** The [memset] of the region: every command header and command table in
    it reads as zero. *)
Definition zero_header : CommandHeader := CHdr 0 0 0 0 0.
Definition zero_fis : RegisterH2D := Fis 0 0 0 0 0 0 0 0 0 0 0 0.
Definition zero_prdt : list PRDTEntry := replicate (Z.to_nat prdtes_per_command) (Prdt 0 0 0 0).
Definition cleared_headers (phys_base max_port : Z) : gmap Z CommandHeader :=
  gset_to_gmap zero_header
    (list_to_set ((λ k, phys_base + k * sizeof_CommandHeader) <$> seqZ 0 (command_slots_per_port * max_port))).
Definition cleared_tables (phys_base max_port : Z) : gmap Z (RegisterH2D * list PRDTEntry) :=
  gset_to_gmap (zero_fis, zero_prdt)
    (list_to_set ((λ k, cmd_tbl phys_base max_port k) <$> seqZ 0 (command_slots_per_port * max_port))).

(** The loop over the command slots writes the header of index [i], the
    port, each time. *)
Fixpoint hdr_loop (fuel : nat) (i cmd max_port : Z) : M ahci unit :=
  match fuel with
  | O => mret tt
  | S fuel =>
    st ← getS;
    hdrs ← liftO (ahci_virt_to_phys (ahci_virt_base st + Z.shiftl i 10) st);
    tbl ← liftO (ahci_virt_to_phys (cmd_tbl (ahci_virt_base st) max_port cmd) st);
    let a := hdrs + i * sizeof_CommandHeader in
    h ← liftO (deref (headers st !! a));
    _ ← putS (set_header a (CHdr (cfl h) (h_w h) prdtes_per_command (u32 tbl) 0) st);
    hdr_loop fuel i (cmd + 1) max_port
  end.

(** What reads of [cmd] of a port return, by the number of reads, while the
    driver waits for the engine to stop and before it starts it again.  The
    waits have no limit: [efuel] reads that do not see the engine stop are
    reported as such. *)
Record engine := Engine { stop_at : Z → nat → Z; idle_at : Z → nat → Z }.
Fixpoint wait_clear (fuel n : nat) (mask : Z) (poll : nat → Z) : option Z :=
  match fuel with
  | O => None
  | S fuel => if Z.land (poll n) mask =? 0 then Some (poll n) else wait_clear fuel (S n) mask poll
  end.

Section engine.
Context (eng : engine) (efuel : nat).

Definition pause_cmd_engine (i : Z) : M ahci unit :=
  st ← getS;
  p ← liftO (deref (ports st !! Z.to_nat i));
  _ ← putS (set_port (Z.to_nat i) (with_cmd (pause_cmd (p_cmd p)) p) st);
  match wait_clear efuel 0 cmd_fr_cr (stop_at eng i) with
  | None => halt OutOfFuel
  | Some v => putS (set_port (Z.to_nat i) (with_cmd v p) st)
  end.
Definition unpause_cmd_engine (i : Z) : M ahci unit :=
  match wait_clear efuel 0 cmd_cr (idle_at eng i) with
  | None => halt OutOfFuel
  | Some v =>
    st ← getS;
    p ← liftO (deref (ports st !! Z.to_nat i));
    putS (set_port (Z.to_nat i) (with_cmd (unpause_cmd v) p) st)
  end.

(** One port: the engine is stopped, the addresses are written, the engine
    is started. *)
Definition rebase_port (i max_port : Z) : M ahci unit :=
  _ ← pause_cmd_engine i;
  st ← getS;
  p ← liftO (deref (ports st !! Z.to_nat i));
  f ← liftO (ahci_virt_to_phys (received_fis_base (ahci_virt_base st) max_port + i * sizeof_ReceivedFIS) st);
  c ← liftO (ahci_virt_to_phys (ahci_virt_base st + Z.shiftl i 10) st);
  _ ← putS (set_port (Z.to_nat i) (with_bases (u32 c) (u32 f) p) st);
  _ ← hdr_loop (Z.to_nat command_slots_per_port) i 0 max_port;
  unpause_cmd_engine i.
Fixpoint rebase_loop (fuel : nat) (i max_port : Z) : M ahci unit :=
  match fuel with
  | O => mret tt
  | S fuel => _ ← rebase_port i max_port; rebase_loop fuel (i + 1) max_port
  end.
(** [rebase_port_memory] after [io_alloc], [::operator new] and [ioremap]
    gave the two bases. *)
Definition rebase_port_memory (max_port virt_base phys_base : Z) : M ahci unit :=
  _ ← assertM (max_port <? 32);
  _ ← assertM (aligned_pow2 sizeof_CommandTable (prdtes_per_command * sizeof_PRDTEntry));
  st ← getS;
  _ ← putS (Ahci (ports st) (cleared_headers phys_base max_port) (cleared_tables phys_base max_port) (dram st) virt_base phys_base);
  rebase_loop (Z.to_nat max_port) 0 max_port.
End engine.

(** ** Reading *)
Fixpoint prdt_loop (fuel : nat) (dest count : Z) : list PRDTEntry * Z * Z :=
  match fuel with
  | O => ([], dest, count)
  | S fuel =>
    let '(l, dest', count') := prdt_loop fuel (u64 (dest + 4 * 1024)) (u32 (count - 16)) in
    (Prdt (u32 dest) (Z.shiftr dest 32) (8 * 1024 - 1) 1 :: l, dest', count')
  end.
(** The scatter list and what is left of [count] *)
Definition build_prdt (prdtl dest count : Z) : list PRDTEntry * Z :=
  let '(l, dest, count) := prdt_loop (Z.to_nat (prdtl - 1)) dest count in
  (l ++ [Prdt (u32 dest) (Z.shiftr dest 32) (wrap 22 (u32 (Z.shiftl count 9) - 1)) 1], count).

Definition build_fis (startl starth count : Z) : RegisterH2D :=
  Fis RegisterH2D_type 1 ReadDMAExt (wrap 8 startl) (wrap 8 (Z.shiftr startl 8)) (wrap 8 (Z.shiftr startl 16)) (Z.shiftl 1 6)
    (wrap 8 (Z.shiftr startl 24)) (wrap 8 starth) (wrap 8 (Z.shiftr starth 8)) (Z.land count 0xFF) (Z.land (Z.shiftr count 8) 0xFF).

(** What reads of [tfd], [ci] and [is] return, by the number of reads. *)
Record polls := Polls { tfd_at : nat → Z; ci_at : nat → Z; is_at : nat → Z }.
Definition tfd_busy : Z := 0x88.
Definition is_tfes : Z := 0x40000000.

(** The wait for an idle port gives up after a million reads. *)
Fixpoint wait_ready (fuel : nat) (n : nat) (pl : polls) : bool :=
  match fuel with
  | O => false
  | S fuel => if Z.land (tfd_at pl n) tfd_busy =? 0 then true else wait_ready fuel (S n) pl
  end.
(** The result and the number of the last read; [None] when [fuel] reads
    do not see the end of the command *)
Fixpoint wait_done (fuel : nat) (n : nat) (slot : Z) (pl : polls) : option (bool * nat) :=
  match fuel with
  | O => None
  | S fuel =>
    if Z.land (ci_at pl n) (Z.shiftl 1 slot) =? 0 then Some (Z.land (is_at pl n) is_tfes =? 0, n)
    else if negb (Z.land (is_at pl n) is_tfes =? 0) then Some (false, n)
    else wait_done fuel (S n) slot pl
  end.

(** ** The controller: a read command moves the sectors it names into the
    regions of its scatter list, one after the other. *)
Definition prdt_addr (e : PRDTEntry) : Z := dba e + 2 ^ 32 * dbau e.
Definition prdt_bytes (e : PRDTEntry) : Z := dbc e + 1.
Fixpoint scatter (l : list PRDTEntry) (src : bytes) (off : Z) (m : bytes) : bytes :=
  match l with
  | [] => m
  | e :: l => scatter l src (off + prdt_bytes e) (overwrite m (prdt_addr e) (prdt_bytes e) (λ i, src (off + i)))
  end.
Definition fis_lba (f : RegisterH2D) : Z :=
  lba0 f + 2 ^ 8 * lba1 f + 2 ^ 16 * lba2 f + 2 ^ 24 * lba3 f + 2 ^ 32 * lba4 f + 2 ^ 40 * lba5 f.
Definition fis_count (f : RegisterH2D) : Z := countl f + 2 ^ 8 * counth f.
Definition is_read (f : RegisterH2D) : Prop :=
  fis_type f = RegisterH2D_type ∧ f_c f = 1 ∧ command f = ReadDMAExt ∧ device f = 64.

(** The command header and the table as the AHCI specification defines
    them: a 5-dword command packet, no [w] bit for a read, and [prdtl]
    entries in the scatter list. *)
Class AhciDevice := {
  platter : bytes;
  execute : CommandHeader → RegisterH2D → list PRDTEntry → bytes → bytes;
  execute_read : ∀ h f l m, cfl h = 5 → h_w h = 0 → zlen l = prdtl h → is_read f → 0 < fis_count f →
    foldr (λ e n, prdt_bytes e + n) 0 l = 512 * fis_count f →
    ∀ a, execute h f l m a = scatter l (λ i, platter (512 * fis_lba f + i)) 0 m a }.

Section controller.
Context `{AhciDevice}.

Definition command_list (p : PortRegisters) : Z := clb p + 2 ^ 32 * clbu p.
Definition table_addr (h : CommandHeader) : Z := ctba h + 2 ^ 32 * ctbau h.
(** The structures of [len] bytes that no region of the scatter list
    touches *)
Definition hits (len : Z) (a : Z) (e : PRDTEntry) : bool := (a <? prdt_addr e + prdt_bytes e) && (prdt_addr e <? a + len).
Definition spared {A} (len : Z) (l : list PRDTEntry) (g : gmap Z A) : gmap Z A :=
  filter (λ x, existsb (hits len x.1) l = false) g.
Definition table_len : Z := 0x80 + 8 * 0x10.

(** The command in [slot]: its header is fetched from the command list,
    the packet and the scatter list from the table it leads to. *)
Definition run_slot (p : PortRegisters) (slot : nat) : M ahci unit :=
  st ← getS;
  h ← liftO (deref (headers st !! (command_list p + 0x20 * Z.of_nat slot)));
  t ← liftO (deref (tables st !! table_addr h));
  let l := take (Z.to_nat (prdtl h)) t.2 in
  putS (Ahci (ports st) (spared 0x20 l (headers st)) (spared table_len l (tables st)) (execute h t.1 l (dram st))
          (ahci_virt_base st) (ahci_phys_base st)).
(** The slots that [PxCI] names from [slot] on *)
Fixpoint run_slots (n slot : nat) (p : PortRegisters) : M ahci unit :=
  match n with
  | O => mret tt
  | S n => _ ← (if Z.testbit (ci p) (Z.of_nat slot) then run_slot p slot else mret tt); run_slots n (S slot) p
  end.
(** A port whose command engine is started runs the commands issued to it. *)
Definition issue_slots (port_idx : nat) : M ahci unit :=
  st ← getS;
  p ← liftO (deref (ports st !! port_idx));
  if Z.testbit (p_cmd p) 0 then run_slots 32 0 p else mret tt.
End controller.

Section read.
Context `{AhciDevice} (pl : polls) (fuel : nat).

(** Issue the command in [slot] and wait for its end. *)
Definition issue (port_idx : nat) (slot : nat) (p : PortRegisters) : M ahci bool :=
  if negb (wait_ready (Z.to_nat 1000000) 0 pl) then mret false
  else
    st ← getS;
    _ ← putS (set_port port_idx (with_ci (Z.shiftl 1 (Z.of_nat slot)) p) st);
    _ ← issue_slots port_idx;
    match wait_done fuel 0 (Z.of_nat slot) pl with
    | None => halt OutOfFuel
    | Some (b, n) => st ← getS; _ ← putS (set_port port_idx (with_ci (ci_at pl n) (with_is (is_at pl n) p)) st); mret b
    end.

(** [read_blocking]; [OutOfFuel] is a command that does not end, and
    [ports] is empty before [init] set [abar]. *)
Definition read_blocking_cmd (port_idx startl starth count dest_paddr : Z) : M ahci bool :=
  _ ← assertM (aligned_pow2 512 (u32 dest_paddr));
  st ← getS;
  _ ← assertM (negb (bool_decide (ports st = [])));
  p ← liftO (deref (ports st !! Z.to_nat port_idx));
  let p := with_is 0 p in                              (** every bit is cleared by writing 1 *)
  _ ← putS (set_port (Z.to_nat port_idx) p st);
  match find_free_cmdslot p with
  | None => mret false
  | Some slot =>
    st ← getS;
    _ ← liftO (ahci_phys_to_virt (clb p) st);
    let a := clb p + Z.of_nat slot * sizeof_CommandHeader in
    h ← liftO (deref (headers st !! a));
    let h := CHdr (sizeof_RegisterH2D / 4) 0 (prdtl h) (ctba h) (ctbau h) in
    _ ← putS (set_header a h st);
    let prdt_entries_count := u16 (Z.shiftr (u32 (count - 1)) 4) + 1 in
    if prdtes_per_command <? prdt_entries_count then mret false
    else
      st ← getS;
      t ← liftO (deref (tables st !! ctba h));
      let '(prdt, count) := build_prdt prdt_entries_count dest_paddr count in
      let fis := build_fis startl starth count in
      _ ← putS (set_table (ctba h) (fis, prdt ++ drop (length prdt) t.2)
                 (set_header a (CHdr (cfl h) (h_w h) prdt_entries_count (ctba h) (ctbau h)) st));
      issue (Z.to_nat port_idx) slot p
  end.
End read.

(** ** Slots and waiting *)
Lemma slot_bit slots i : (Z.land slots (Z.shiftl 1 (Z.of_nat i)) =? 0) = negb (Z.testbit slots (Z.of_nat i)).
Proof.
  assert (He : Z.land slots (Z.shiftl 1 (Z.of_nat i)) = if Z.testbit slots (Z.of_nat i) then 2 ^ Z.of_nat i else 0).
  { apply Z.bits_inj'. intros j Hj. rewrite Z.land_spec, Z.shiftl_spec by lia.
    destruct (Z.eq_dec j (Z.of_nat i)) as [->|Hne].
    - rewrite Z.sub_diag. simpl (Z.testbit 1 0). rewrite andb_true_r.
      destruct (Z.testbit slots (Z.of_nat i)); [by rewrite Z.pow2_bits_true by lia|by rewrite Z.bits_0].
    - replace (Z.testbit 1 (j - Z.of_nat i)) with false.
      + rewrite andb_false_r. destruct (Z.testbit slots (Z.of_nat i)); [by rewrite Z.pow2_bits_false by lia|by rewrite Z.bits_0].
      + symmetry. destruct (Z.lt_ge_cases j (Z.of_nat i)); [apply Z.testbit_neg_r; lia|].
        change 1 with (2 ^ 0). apply Z.pow2_bits_false. lia. }
  rewrite He. destruct (Z.testbit slots (Z.of_nat i)); simpl; [|done].
  apply Z.eqb_neq. pose proof (Z.pow_pos_nonneg 2 (Z.of_nat i)). lia.
Qed.
Lemma cmdslot_loop_spec fuel : ∀ i slots, match cmdslot_loop fuel i slots with
  | Some s => (i ≤ s < i + fuel)%nat ∧ Z.testbit slots (Z.of_nat s) = false ∧
      ∀ j, (i ≤ j < s)%nat → Z.testbit slots (Z.of_nat j) = true
  | None => ∀ j, (i ≤ j < i + fuel)%nat → Z.testbit slots (Z.of_nat j) = true
  end.
Proof.
  induction fuel as [|fuel IH]; intros i slots; simpl; [lia|]. rewrite slot_bit.
  destruct (Z.testbit slots (Z.of_nat i)) eqn:Hb; simpl.
  - specialize (IH (S i) slots). destruct (cmdslot_loop fuel (S i) slots) as [s|].
    + destruct IH as (? & ? & Hj). split; [lia|]. split; [done|]. intros j Hj'.
      destruct (decide (j = i)) as [->|]; [done|]. apply Hj. lia.
    + intros j Hj'. destruct (decide (j = i)) as [->|]; [done|]. apply IH. lia.
  - split; [lia|]. split; [done|]. lia.
Qed.

(** [find_free_cmdslot] gives the first slot that is neither active nor
    issued, and -1 exactly when there is none. *)
Lemma find_free_cmdslot_first p : match find_free_cmdslot p with
  | Some s => (s < 32)%nat ∧ Z.testbit (sact p) (Z.of_nat s) = false ∧ Z.testbit (ci p) (Z.of_nat s) = false ∧
      ∀ j, (j < s)%nat → Z.testbit (sact p) (Z.of_nat j) || Z.testbit (ci p) (Z.of_nat j) = true
  | None => ∀ j, (j < 32)%nat → Z.testbit (sact p) (Z.of_nat j) || Z.testbit (ci p) (Z.of_nat j) = true
  end.
Proof.
  unfold find_free_cmdslot. pose proof (cmdslot_loop_spec 32 0 (Z.lor (sact p) (ci p))) as Hs.
  destruct (cmdslot_loop _ _ _) as [s|].
  - destruct Hs as (? & Hb & Hj). rewrite Z.lor_spec in Hb. apply orb_false_iff in Hb as [? ?].
    split; [lia|]. split; [done|]. split; [done|]. intros j ?. rewrite <- Z.lor_spec. apply Hj. lia.
  - intros j ?. rewrite <- Z.lor_spec. apply Hs. lia.
Qed.

Lemma wait_ready_true pl n : ∀ fuel k, (k ≤ n < k + fuel)%nat → Z.land (tfd_at pl n) tfd_busy = 0 → wait_ready fuel k pl = true.
Proof.
  induction fuel as [|fuel IH]; intros k Hk Hn; [lia|]. simpl. destruct (Z.eqb_spec (Z.land (tfd_at pl k) tfd_busy) 0); [done|].
  apply IH; [|done]. assert (k ≠ n) by (intros ->; done). lia.
Qed.
Lemma wait_done_true pl slot n : ∀ fuel k, (k ≤ n < k + fuel)%nat → Z.land (ci_at pl n) (Z.shiftl 1 slot) = 0 →
  (∀ j, (j ≤ n)%nat → Z.land (is_at pl j) is_tfes = 0) → ∃ j, wait_done fuel k slot pl = Some (true, j).
Proof.
  induction fuel as [|fuel IH]; intros k Hk Hn Hj; [lia|]. simpl. rewrite (Hj k) by lia. simpl.
  destruct (Z.eqb_spec (Z.land (ci_at pl k) (Z.shiftl 1 slot)) 0); [by eexists|].
  apply IH; [|done|done]. assert (k ≠ n) by (intros ->; done). lia.
Qed.

(** ** The command *)
Lemma byte_of x k : 0 ≤ k → wrap 8 (Z.shiftr x (8 * k)) = x / 2 ^ (8 * k) mod 2 ^ 8.
Proof. intros Hk. unfold wrap. by rewrite Z.shiftr_div_pow2 by lia. Qed.

Lemma build_fis_lba startl starth count : 0 ≤ startl < 2 ^ 32 → 0 ≤ starth < 2 ^ 16 →
  fis_lba (build_fis startl starth count) = starth * 2 ^ 32 + startl.
Proof.
  intros Hl Hh. unfold fis_lba, build_fis, wrap. cbn [lba0 lba1 lba2 lba3 lba4 lba5]. rewrite !Z.shiftr_div_pow2 by lia.
  pose proof (Z.div_mod startl (2 ^ 8) ltac:(lia)). pose proof (Z.div_mod (startl / 2 ^ 8) (2 ^ 8) ltac:(lia)) as H1.
  pose proof (Z.div_mod (startl / 2 ^ 16) (2 ^ 8) ltac:(lia)) as H2. rewrite Z.div_div in H1, H2 by lia.
  change (2 ^ 8 * 2 ^ 8) with (2 ^ 16) in H1. change (2 ^ 16 * 2 ^ 8) with (2 ^ 24) in H2.
  pose proof (Z.div_mod starth (2 ^ 8) ltac:(lia)).
  rewrite (Z.mod_small (startl / 2 ^ 24)) by (split; [apply Z.div_pos; lia|apply Z.div_lt_upper_bound; lia]).
  rewrite (Z.mod_small (starth / 2 ^ 8)) by (split; [apply Z.div_pos; lia|apply Z.div_lt_upper_bound; lia]). lia.
Qed.
Lemma build_fis_count startl starth count : 0 ≤ count < 2 ^ 16 → fis_count (build_fis startl starth count) = count.
Proof.
  intros Hc. unfold fis_count, build_fis. cbn [countl counth]. change 0xFF with (Z.ones 8).
  rewrite !Z.land_ones, Z.shiftr_div_pow2 by lia.
  rewrite (Z.mod_small (count / 2 ^ 8)) by (split; [apply Z.div_pos; lia|apply Z.div_lt_upper_bound; lia]).
  pose proof (Z.div_mod count (2 ^ 8) ltac:(lia)). lia.
Qed.
Lemma build_prdt_one dest count : 0 ≤ dest < 2 ^ 64 → 1 ≤ count ≤ 16 →
  ∃ e, build_prdt 1 dest count = ([e], count) ∧ prdt_addr e = dest ∧ prdt_bytes e = 512 * count.
Proof.
  intros Hd Hc. eexists. split; [reflexivity|]. unfold prdt_addr, prdt_bytes. cbn [dba dbau dbc]. split.
  - unfold wrap. rewrite Z.shiftr_div_pow2 by lia. pose proof (Z.div_mod dest (2 ^ 32) ltac:(lia)). lia.
  - rewrite Z.shiftl_mul_pow2, (wrap_small 32), wrap_small by lia. lia.
Qed.

(** A port that is started and whose slot 0 is free and has a header that
    leads to a command table. *)
Definition port_ready (st : ahci) (idx : nat) : Prop :=
  ahci_phys_base st ≠ 0 ∧ ahci_virt_base st ≠ 0 ∧ ∃ p h, ports st !! idx = Some p ∧
    (Z.testbit (sact p) 0 = false ∧ Z.testbit (ci p) 0 = false ∧ Z.testbit (p_cmd p) 0 = true ∧ clbu p = 0) ∧
    headers st !! clb p = Some h ∧ ctbau h = 0 ∧ is_Some (tables st !! ctba h).
(** The port is seen idle within the reads the driver makes, and the command
    ends without an error within [fuel] reads. *)
Definition responds (pl : polls) (fuel : nat) : Prop :=
  (∃ n, (n < Z.to_nat 1000000)%nat ∧ Z.land (tfd_at pl n) tfd_busy = 0) ∧
  (∃ n, (n < fuel)%nat ∧ Z.testbit (ci_at pl n) 0 = false ∧ ∀ j, (j ≤ n)%nat → Z.land (is_at pl j) is_tfes = 0).

Lemma free_slot_0 p : Z.testbit (sact p) 0 = false → Z.testbit (ci p) 0 = false → find_free_cmdslot p = Some O.
Proof.
  intros Hs Hc. pose proof (find_free_cmdslot_first p) as Hf. destruct (find_free_cmdslot p) as [[|s]|]; [done|..].
  - destruct Hf as (_ & _ & _ & Hj). specialize (Hj O ltac:(lia)). change (Z.of_nat 0) with 0 in Hj. by rewrite Hs, Hc in Hj.
  - specialize (Hf O ltac:(lia)). change (Z.of_nat 0) with 0 in Hf. by rewrite Hs, Hc in Hf.
Qed.
Lemma wait_done_bit pl fuel : ∀ k slot b n, wait_done fuel k slot pl = Some (b, n) → b = true → Z.land (ci_at pl n) (Z.shiftl 1 slot) = 0.
Proof.
  induction fuel as [|fuel IH]; intros k slot b n; simpl; [done|].
  destruct (Z.eqb_spec (Z.land (ci_at pl k) (Z.shiftl 1 slot)) 0); [by intros [= <- <-]|].
  case_match; [by intros [= <- <-]|apply IH].
Qed.

Section reads.
Context `{AhciDevice} (pl : polls) (fuel : nat).

(** What a completed read leaves: the sectors in memory, the rest of the
    memory and of the driver's structures unchanged, the port ready. *)
Definition apart (a len dest n : Z) : Prop := a + len ≤ dest ∨ dest + n ≤ a.
Definition same_but {A} (g g' : gmap Z A) (b len dest n : Z) : Prop :=
  ∀ a, a ≠ b → (is_Some (g !! a) → apart a len dest n) → g' !! a = g !! a.
Definition sectors_read (st st' : ahci) (idx : nat) (b t : Z) (lba count dest : Z) : Prop :=
  (∀ a, dram st' a = overwrite (dram st) dest (512 * count) (λ i, platter (512 * lba + i)) a) ∧ port_ready st' idx ∧
  ahci_virt_base st' = ahci_virt_base st ∧ ahci_phys_base st' = ahci_phys_base st ∧
  length (ports st') = length (ports st) ∧ (∀ j, j ≠ idx → ports st' !! j = ports st !! j) ∧
  same_but (headers st) (headers st') b 0x20 dest (512 * count) ∧
  same_but (tables st) (tables st') t table_len dest (512 * count).

Lemma spared_lookup {A} len e (g : gmap Z A) a : (is_Some (g !! a) → apart a len (prdt_addr e) (prdt_bytes e)) →
  spared len [e] g !! a = g !! a.
Proof.
  intros Ha. unfold spared. destruct (g !! a) as [x|] eqn:Hx.
  - apply map_lookup_filter_Some. split; [done|]. cbn [fst existsb]. unfold hits. destruct (Ha ltac:(by eexists)) as [Ha'|Ha'].
    + rewrite (proj2 (Z.ltb_ge (prdt_addr e) (a + len))) by lia. by rewrite andb_false_r.
    + by rewrite (proj2 (Z.ltb_ge a _)) by lia.
  - apply map_lookup_filter_None. by left.
Qed.

(** Only the command of slot 0 is issued. *)
Lemma run_slots_0 p n : ∀ slot st, ci p = 1 → (0 < slot)%nat → run_slots n slot p st = Ret (tt, st).
Proof.
  induction n as [|n IH]; intros slot st Hc Hs; [done|]. cbn [run_slots]. rewrite Hc.
  replace (Z.testbit 1 (Z.of_nat slot)) with false by (symmetry; change 1 with (2 ^ 0); apply Z.pow2_bits_false; lia).
  munfold. apply IH; [done|lia].
Qed.
Lemma wp_issue_slots st idx p h t e l (Q : unit → ahci → Prop) : ports st !! idx = Some p → ci p = 1 → Z.testbit (p_cmd p) 0 = true → clbu p = 0 →
  headers st !! clb p = Some h → ctbau h = 0 → tables st !! ctba h = Some (t, e :: l) → prdtl h = 1 →
  Q tt (Ahci (ports st) (spared 0x20 [e] (headers st)) (spared table_len [e] (tables st)) (execute h t [e] (dram st))
          (ahci_virt_base st) (ahci_phys_base st)) →
  wp (issue_slots idx) Q st.
Proof.
  intros Hp Hc Hcmd Hcu Hh Htu Ht Hl HQ. unfold issue_slots. apply wp_bind, wp_get, wp_bind. eapply wp_deref; [done|].
  rewrite Hcmd. change (run_slots 32 0 p) with (_ ← (if Z.testbit (ci p) (Z.of_nat 0) then run_slot p 0 else mret tt); run_slots 31 1 p).
  rewrite Hc. change (Z.testbit 1 (Z.of_nat 0)) with true. cbn match. apply wp_bind. unfold run_slot, command_list. apply wp_bind, wp_get, wp_bind. rewrite Hcu.
  change (0x20 * Z.of_nat 0) with 0. rewrite Z.mul_0_r, !Z.add_0_r. eapply wp_deref; [done|].
  apply wp_bind. unfold table_addr. rewrite Htu, Z.mul_0_r, Z.add_0_r. eapply wp_deref; [done|].
  rewrite Hl. cbn [fst snd]. change (take (Z.to_nat 1) (e :: l)) with [e].
  apply wp_put. unfold wp. by rewrite (run_slots_0 p 31) by (done || lia).
Qed.

Lemma wp_issue st idx p h f e l (Q : bool → ahci → Prop) : responds pl fuel → ports st !! idx = Some p →
  Z.testbit (sact p) 0 = false → Z.testbit (p_cmd p) 0 = true → clbu p = 0 →
  headers st !! clb p = Some h → ctbau h = 0 → tables st !! ctba h = Some (f, e :: l) → prdtl h = 1 →
  (∀ p', clb p' = clb p → clbu p' = 0 → Z.testbit (sact p') 0 = false → Z.testbit (ci p') 0 = false → Z.testbit (p_cmd p') 0 = true →
    Q true (Ahci (<[idx := p']> (ports st)) (spared 0x20 [e] (headers st)) (spared table_len [e] (tables st))
              (execute h f [e] (dram st)) (ahci_virt_base st) (ahci_phys_base st))) →
  wp (issue pl fuel idx 0 p) Q st.
Proof.
  intros [(n1 & Hn1 & Hidle) (n2 & Hn2 & Hbit & Herr)] Hp Hsact Hcmd Hcu Hh Htu Ht Hl HQ. unfold issue.
  rewrite (wait_ready_true pl n1) by (lia || done). cbn [negb]. apply wp_bind, wp_get, wp_bind, wp_put, wp_bind.
  pose proof (lookup_lt_Some _ _ _ Hp) as Hlt.
  eapply (wp_issue_slots _ _ _ h f e l); [simpl; by apply list_lookup_insert_eq|done|done|done|done|done|done|done|].
  destruct (wait_done_true pl (Z.of_nat 0) n2 fuel 0) as [n Hw]; [lia| |done|].
  { apply Z.eqb_eq. rewrite slot_bit. change (Z.of_nat 0) with 0. by rewrite Hbit. }
  rewrite Hw. apply wp_bind, wp_get, wp_bind, wp_put, wp_ret.
  apply wait_done_bit in Hw; [|done]. apply Z.eqb_eq in Hw. rewrite slot_bit in Hw. apply negb_true_iff in Hw.
  unfold set_port. cbn [ports headers tables dram ahci_virt_base ahci_phys_base]. rewrite list_insert_insert_eq. by apply HQ.
Qed.

(** The destination is apart from the structures the command uses. *)
Lemma wp_read_blocking_cmd st idx p h startl starth count dest : responds pl fuel → port_ready st idx →
  ports st !! idx = Some p → headers st !! clb p = Some h →
  apart (clb p) 0x20 dest (512 * count) → apart (ctba h) table_len dest (512 * count) →
  0 ≤ startl < 2 ^ 32 → 0 ≤ starth < 2 ^ 16 → 1 ≤ count ≤ 16 → 0 ≤ dest < 2 ^ 64 → dest mod 512 = 0 →
  wp (read_blocking_cmd pl fuel (Z.of_nat idx) startl starth count dest)
    (λ b st', b = true ∧ sectors_read st st' idx (clb p) (ctba h) (starth * 2 ^ 32 + startl) count dest) st.
Proof.
  intros Hr (Hpb & Hvb & p' & h' & Hp' & (Hsact & Hci & Hcmd & Hcu) & Hh' & Htu & Ht) Hp Hh Hap1 Hap2 Hl Hhi Hc Hd Hal.
  assert (p' = p) as -> by congruence. assert (h' = h) as -> by congruence. unfold read_blocking_cmd.
  apply wp_bind, wp_assert.
  { change 512 with (2 ^ 9). apply (aligned_pow2_spec 9); [done|]. change (2 ^ 9) with 512. apply Z.mod_divide in Hal as [q ->]; [|done].
    unfold wrap. apply Z.mod_divide; [done|]. exists (q mod 2 ^ 23). change (2 ^ 32) with (2 ^ 23 * 512).
    by rewrite Z.mul_mod_distr_r by done. }
  apply wp_bind, wp_get, wp_bind, wp_assert; [by destruct (ports st)|]. rewrite Nat2Z.id.
  apply wp_bind. eapply wp_deref; [done|]. apply wp_bind, wp_put.
  rewrite (free_slot_0 (with_is 0 p)) by done. apply wp_bind, wp_get, wp_bind. unfold ahci_phys_to_virt.
  eapply wp_lift; [simpl; by rewrite (proj2 (Z.eqb_neq _ _) Hpb), (proj2 (Z.eqb_neq _ _) Hvb)|].
  apply wp_bind. change (Z.of_nat 0 * sizeof_CommandHeader) with 0. rewrite Z.add_0_r.
  eapply wp_deref; [done|]. apply wp_bind, wp_put.
  assert (Hcnt : u16 (Z.shiftr (u32 (count - 1)) 4) + 1 = 1).
  { rewrite (wrap_small 32), Z.shiftr_div_pow2, Z.div_small by lia. done. }
  rewrite Hcnt. cbn [Z.ltb Z.compare prdtes_per_command Pos.compare Pos.compare_cont].
  apply wp_bind, wp_get. cbn [ctba ctbau]. apply wp_bind. destruct Ht as [t Ht]. eapply wp_deref; [done|].
  destruct (build_prdt_one dest count) as (e & -> & Ha & Hb); [done..|]. apply wp_bind, wp_put. pose proof (lookup_lt_Some _ _ _ Hp) as Hlt.
  eapply (wp_issue _ _ _ _ (build_fis startl starth count) e (drop 1 t.2)); [done|simpl; by apply list_lookup_insert_eq|done|done|done| | | | |].
  - simpl. by rewrite lookup_insert_eq.
  - done.
  - simpl. by rewrite lookup_insert_eq.
  - done.
  - intros q Hq1 Hq2 Hq3 Hq4 Hq5. split; [done|]. rewrite <- Ha, <- Hb in Hap1, Hap2.
    split; [|split; [|split; [done|split; [done|split; [|split; [|split]]]]]].
    + intros a. cbn [dram set_table set_header set_port]. rewrite execute_read; [..|by rewrite build_fis_count by lia; lia|simpl; rewrite Hb, build_fis_count by lia; lia]; try done.
      simpl. rewrite Ha, Hb, build_fis_lba by done. done.
    + split; [done|]. split; [done|]. eexists q, _. cbn [set_table set_header set_port headers tables ports].
      rewrite list_lookup_insert_eq by (by rewrite length_insert). split; [done|]. split; [done|]. rewrite Hq1.
      split; [rewrite spared_lookup by done; by rewrite lookup_insert_eq|]. split; [done|]. cbn [ctba].
      rewrite spared_lookup by done. rewrite lookup_insert_eq. by eexists.
    + simpl. by rewrite !length_insert.
    + intros j Hj. simpl. by rewrite !list_lookup_insert_ne.
    + intros a Hne Ha'. cbn [set_table set_header set_port headers]. rewrite spared_lookup; rewrite !lookup_insert_ne by done; [done|].
      by rewrite Ha, Hb.
    + intros a Hne Ha'. cbn [set_table set_header set_port tables]. rewrite spared_lookup; rewrite !lookup_insert_ne by done; [done|].
      by rewrite Ha, Hb.
Qed.
End reads.

(** ** The memory of the ports *)
Lemma cleared_header phys mp k : 0 ≤ k < 32 * mp → cleared_headers phys mp !! (phys + k * 32) = Some zero_header.
Proof.
  intros Hk. apply lookup_gset_to_gmap_Some. split; [|done]. apply elem_of_list_to_set, list_elem_of_fmap.
  exists k. split; [done|]. apply elem_of_seqZ. unfold command_slots_per_port. lia.
Qed.
Lemma cleared_table phys mp k : 0 ≤ k < 32 * mp → cleared_tables phys mp !! cmd_tbl phys mp k = Some (zero_fis, zero_prdt).
Proof.
  intros Hk. apply lookup_gset_to_gmap_Some. split; [|done]. apply elem_of_list_to_set, list_elem_of_fmap.
  exists k. split; [done|]. apply elem_of_seqZ. unfold command_slots_per_port. lia.
Qed.
Lemma cmd_tbl_eq base mp k : cmd_tbl base mp k = base + 1280 * mp + 256 * k.
Proof.
  unfold cmd_tbl, cmd_tbl_base, received_fis_base, sizeof_ReceivedFIS, sizeof_CommandTable, prdtes_per_command, sizeof_PRDTEntry.
  rewrite Z.shiftl_mul_pow2 by done. lia.
Qed.

Lemma wait_clear_some mask poll n : ∀ fuel k, (k ≤ n < k + fuel)%nat → Z.land (poll n) mask = 0 → is_Some (wait_clear fuel k mask poll).
Proof.
  intros fuel. induction fuel as [|fuel IH]; intros k Hn Hz; [lia|]. simpl. destruct (Z.eqb_spec (Z.land (poll k) mask) 0); [by eexists|].
  apply IH; [|done]. assert (k ≠ n) by congruence. lia.
Qed.
(** The engine of every port below [mp] is seen stopped within [efuel] reads. *)
Definition engines_stop (eng : engine) (efuel : nat) (mp : Z) : Prop := ∀ i, 0 ≤ i < mp →
  (∃ n, (n < efuel)%nat ∧ Z.land (stop_at eng i n) cmd_fr_cr = 0) ∧ (∃ n, (n < efuel)%nat ∧ Z.land (idle_at eng i n) cmd_cr = 0).

Section rebase.
Context (eng : engine) (efuel : nat) (phys virt mp : Z).
Hypotheses (Hphys : 0 < phys) (Hvirt : virt ≠ 0) (Hmp : 0 ≤ mp < 32) (Hend : phys + 9472 * mp ≤ 2 ^ 32).
Hypothesis (Heng : engines_stop eng efuel mp).

(** What [unpause_cmd_engine] reads before it starts the engine *)
Definition idle_cmd (i : Z) : Z := default 0 (wait_clear efuel 0 cmd_cr (idle_at eng i)).
Lemma wp_pause_cmd_engine i st p (Q : unit → ahci → Prop) : 0 ≤ i < mp → ports st !! Z.to_nat i = Some p →
  (∀ v, Q tt (set_port (Z.to_nat i) (with_cmd v p) st)) → wp (pause_cmd_engine eng efuel i) Q st.
Proof.
  intros Hi Hp HQ. destruct (Heng i Hi) as [(n & Hn & Hz) _]. unfold pause_cmd_engine. apply wp_bind, wp_get, wp_bind.
  eapply wp_deref; [done|]. apply wp_bind, wp_put.
  destruct (wait_clear_some _ _ n efuel 0 ltac:(lia) Hz) as [v ->]. apply wp_put, HQ.
Qed.
Lemma wp_unpause_cmd_engine i st p (Q : unit → ahci → Prop) : 0 ≤ i < mp → ports st !! Z.to_nat i = Some p →
  Q tt (set_port (Z.to_nat i) (with_cmd (unpause_cmd (idle_cmd i)) p) st) → wp (unpause_cmd_engine eng efuel i) Q st.
Proof.
  intros Hi Hp HQ. destruct (Heng i Hi) as [_ (n & Hn & Hz)]. unfold unpause_cmd_engine, idle_cmd in *.
  destruct (wait_clear_some _ _ n efuel 0 ltac:(lia) Hz) as [v Hv]. rewrite Hv in *. apply wp_bind, wp_get, wp_bind.
  eapply wp_deref; [done|]. by apply wp_put.
Qed.

Definition based (st : ahci) : Prop := ahci_phys_base st = phys ∧ ahci_virt_base st = virt.
Lemma virt_to_phys_at st off : based st → 0 ≤ off < 9472 * mp → ahci_virt_to_phys (virt + off) st = Ret (phys + off).
Proof.
  intros [Hp Hv] Hoff. unfold ahci_virt_to_phys. rewrite Hp, Hv.
  replace (phys =? 0) with false by lia. replace (virt =? 0) with false by lia. simpl.
  munfold. rewrite wrap_small by lia. repeat f_equal. lia.
Qed.

Definition last_table : Z := phys + 1280 * mp + 256 * 31.
Definition list_header (i : Z) : Z := phys + 1024 * i + 32 * i.

Lemma wp_hdr_loop n : ∀ i cmd st h (Q : unit → ahci → Prop), based st → 0 ≤ i < mp → 0 ≤ cmd → cmd + Z.of_nat n = 31 →
  headers st !! list_header i = Some h →
  Q tt (set_header (list_header i) (CHdr (cfl h) (h_w h) 8 last_table 0) st) → wp (hdr_loop (S n) i cmd mp) Q st.
Proof.
  induction n as [|n IH]; intros i cmd st h Q Hst Hi Hc Hn Hh HQ.
  all: cbn [hdr_loop]; apply wp_bind, wp_get; pose proof Hst as [_ ->].
  all: apply wp_bind; eapply wp_lift; [rewrite Z.shiftl_mul_pow2 by done; apply virt_to_phys_at; [done|lia]|].
  all: apply wp_bind; eapply wp_lift; [rewrite cmd_tbl_eq, <- Z.add_assoc; apply virt_to_phys_at; [done|lia]|].
  all: replace (phys + i * 2 ^ 10 + i * sizeof_CommandHeader) with (list_header i) by (unfold list_header, sizeof_CommandHeader; lia).
  all: apply wp_bind; eapply wp_deref; [done|]; apply wp_bind, wp_put; rewrite wrap_small by lia.
  - apply wp_ret. unfold last_table in HQ. by replace (phys + (1280 * mp + 256 * cmd)) with (phys + 1280 * mp + 256 * 31) by lia.
  - eapply IH; [done|done|lia|lia|simpl; by rewrite lookup_insert_eq|].
    unfold set_header in *. cbn [headers ports tables dram ahci_virt_base ahci_phys_base cfl h_w]. by rewrite insert_insert_eq.
Qed.

Definition rebased (i : Z) (p : PortRegisters) : PortRegisters :=
  Port (phys + 1024 * i) 0 (phys + 1024 * mp + 256 * i) 0 (p_is p) (unpause_cmd (idle_cmd i)) (p_sig p) (ssts p) (sact p) (ci p).

(** Ports [i] and on have been given their memory. *)
Definition rebased_from (i : Z) (st st' : ahci) : Prop :=
  (∀ j, 0 ≤ j → ports st' !! Z.to_nat j = (if decide (i ≤ j < mp) then rebased j else id) <$> ports st !! Z.to_nat j) ∧
  (∀ j, i ≤ j < mp → headers st' !! list_header j = Some (CHdr 0 0 8 last_table 0)) ∧
  (∀ a, (∀ j, i ≤ j < mp → a ≠ list_header j) → headers st' !! a = headers st !! a) ∧
  tables st' = tables st ∧ dram st' = dram st ∧ based st'.

Lemma wp_rebase_loop n : ∀ i st, based st → 0 ≤ i → i + Z.of_nat n = mp → (Z.to_nat mp ≤ length (ports st))%nat →
  (∀ j, i ≤ j < mp → headers st !! list_header j = Some zero_header) →
  wp (rebase_loop eng efuel n i mp) (λ _ st', rebased_from i st st') st.
Proof.
  induction n as [|n IH]; intros i st Hst Hi Hn Hlen Hz; cbn [rebase_loop].
  { apply wp_ret. split_and!; [|lia|done|done|done|apply Hst..]. intros j Hj. rewrite decide_False by lia. by destruct (ports st !! Z.to_nat j). }
  unfold rebase_port. destruct (lookup_lt_is_Some_2 (ports st) (Z.to_nat i)) as [p Hp]; [lia|].
  assert (Hlt : (Z.to_nat i < length (ports st))%nat) by lia.
  apply wp_bind, wp_bind. eapply wp_pause_cmd_engine; [lia|done|]. intros v. apply wp_bind, wp_get, wp_bind.
  eapply wp_deref; [simpl; by rewrite list_lookup_insert_eq|]. assert (Hst1 : based (set_port (Z.to_nat i) (with_cmd v p) st)) by done.
  pose proof Hst1 as [_ ->]. unfold received_fis_base, sizeof_ReceivedFIS.
  rewrite !Z.shiftl_mul_pow2 by done. rewrite <- Z.add_assoc.
  apply wp_bind. eapply wp_lift; [apply virt_to_phys_at; [done|lia]|].
  apply wp_bind. eapply wp_lift; [apply virt_to_phys_at; [done|lia]|]. rewrite !wrap_small by lia.
  apply wp_bind, wp_put. change (Z.to_nat command_slots_per_port) with (S 31).
  apply wp_bind. eapply wp_hdr_loop; [done|lia|done|done|by apply Hz; lia|]. cbn [zero_header cfl h_w].
  eapply wp_unpause_cmd_engine; [lia|simpl; by rewrite list_lookup_insert_eq by (by rewrite length_insert)|].
  eapply wp_mono; [apply IH|].
  - done.
  - lia.
  - lia.
  - simpl. by rewrite !length_insert.
  - intros j Hj. simpl. rewrite lookup_insert_ne by (unfold list_header; lia). apply Hz. lia.
  - intros [] st' (H1 & H2 & H3 & H4 & H5 & H6). split; [|split; [|split; [|done]]].
    + intros j Hj. rewrite H1 by done. simpl. destruct (Z.eq_dec j i) as [->|Hne].
      * rewrite decide_False, decide_True by lia. rewrite list_lookup_insert_eq by (by rewrite !length_insert).
        rewrite Hp. simpl. unfold rebased, with_cmd, with_bases, id. simpl. do 2 f_equal; lia.
      * rewrite !list_lookup_insert_ne by lia. repeat case_decide; try done; lia.
    + intros j Hj. destruct (Z.eq_dec j i) as [->|Hne]; [|apply H2; lia].
      rewrite H3; [simpl; by rewrite lookup_insert_eq|]. intros j Hj'. unfold list_header. lia.
    + intros a Ha. rewrite H3; [|intros j Hj'; apply Ha; lia]. simpl. rewrite lookup_insert_ne; [done|]. symmetry. apply Ha. lia.
Qed.

Lemma wp_rebase_port_memory st : (Z.to_nat mp ≤ length (ports st))%nat →
  wp (rebase_port_memory eng efuel mp virt phys)
    (λ _ st', rebased_from 0 (Ahci (ports st) (cleared_headers phys mp) (cleared_tables phys mp) (dram st) virt phys) st') st.
Proof.
  intros Hlen. unfold rebase_port_memory. apply wp_bind, wp_assert; [lia|]. apply wp_bind, wp_assert; [done|].
  apply wp_bind, wp_get, wp_bind, wp_put. apply wp_rebase_loop; [done|done|lia|done|].
  intros j Hj. simpl. unfold list_header. replace (phys + 1024 * j + 32 * j) with (phys + (33 * j) * 32) by lia.
  apply cleared_header. lia.
Qed.

(** A port 0 that was idle is ready for a command. *)
Lemma rebased_ready st st' p : 0 < mp → ports st !! 0%nat = Some p → Z.testbit (sact p) 0 = false → Z.testbit (ci p) 0 = false →
  rebased_from 0 (Ahci (ports st) (cleared_headers phys mp) (cleared_tables phys mp) (dram st) virt phys) st' → port_ready st' 0.
Proof.
  intros Hpos Hp Hs Hc (H1 & H2 & _ & H4 & _ & Hpb & Hvb). split; [lia|]. split; [congruence|].
  specialize (H1 0 ltac:(lia)). cbn [ports] in H1. change (Z.to_nat 0) with O in H1. rewrite Hp, decide_True in H1 by lia.
  eexists _, (CHdr 0 0 8 last_table 0). split; [exact H1|].
  split; [split_and!; [done|done|cbn [rebased p_cmd]; unfold unpause_cmd; by rewrite Z.lor_spec, orb_true_r|done]|].
  split; [rewrite <- (H2 0) by lia; unfold list_header; cbn [rebased clb]; f_equal; lia|]. split; [done|].
  rewrite H4. cbn [tables ctba]. unfold last_table. rewrite <- cmd_tbl_eq, cleared_table by lia. done.
Qed.

(** The structures are in the block. *)
Lemma rebased_header st st' a : rebased_from 0 (Ahci (ports st) (cleared_headers phys mp) (cleared_tables phys mp) (dram st) virt phys) st' →
  is_Some (headers st' !! a) → phys ≤ a ∧ a + 0x20 ≤ phys + 1024 * mp.
Proof.
  intros (_ & _ & H3 & _) [h Ha].
  destruct (decide (0 ≤ (a - phys) / 1056 < mp ∧ a = list_header ((a - phys) / 1056))) as [[Hj ->]|Hno]; [unfold list_header in *; lia|].
  rewrite H3 in Ha; [cbn [headers] in Ha|].
  2:{ intros j Hj ->. apply Hno. replace ((list_header j - phys) / 1056) with j; [done|].
      replace (list_header j - phys) with (j * 1056) by (unfold list_header; lia). by rewrite Z.div_mul. }
  apply lookup_gset_to_gmap_Some in Ha as [Ha _]. apply elem_of_list_to_set, list_elem_of_fmap in Ha as (k & -> & Hk%elem_of_seqZ).
  unfold command_slots_per_port, sizeof_CommandHeader in *. lia.
Qed.
Lemma rebased_table st st' a : rebased_from 0 (Ahci (ports st) (cleared_headers phys mp) (cleared_tables phys mp) (dram st) virt phys) st' →
  is_Some (tables st' !! a) → phys ≤ a ∧ a + table_len ≤ phys + 9472 * mp.
Proof.
  intros (_ & _ & _ & H4 & _) [t Ha]. rewrite H4 in Ha. cbn [tables] in Ha.
  apply lookup_gset_to_gmap_Some in Ha as [Ha _]. apply elem_of_list_to_set, list_elem_of_fmap in Ha as (k & -> & Hk%elem_of_seqZ).
  rewrite cmd_tbl_eq. unfold command_slots_per_port, table_len in *. lia.
Qed.
End rebase.

Lemma alloc_sz_ge mp : 0 ≤ mp < 32 → 9472 * mp ≤ alloc_sz mp < 9472 * mp + PG_SZ ∧ alloc_sz mp mod PG_SZ = 0.
Proof.
  intros Hmp. unfold alloc_sz. change (req_sz_per_port * mp) with (9472 * mp). change PG_SZ with (2 ^ 12).
  rewrite (ceil_pow2_eq 12) by lia. pose proof (Z.div_mod (9472 * mp + 2 ^ 12 - 1) (2 ^ 12) ltac:(lia)).
  pose proof (Z.mod_pos_bound (9472 * mp + 2 ^ 12 - 1) (2 ^ 12) ltac:(lia)). rewrite wrap_small by lia.
  split; [lia|]. rewrite ?(Z.mul_comm (2 ^ 12)). by rewrite Z.mod_mul.
Qed.

(** C33: [rebase_port_memory] on a page-aligned block of [alloc_sz] bytes: the
    command list of port [i] is the [i]th kilobyte of the block and 1KB
    aligned, its received-FIS area the [i]th 256 bytes after the lists and
    256-byte aligned, so that the lists and the areas of the ports are
    disjoint, and the command engine is started.  Of the 32 headers of a list
    only the one whose index is the port's is set up; in every port it leads
    to the same command table, the 32nd of those behind the FIS areas, which
    is 128-byte aligned and inside the block; the other headers stay zero. *)
Theorem rebase_lays_out eng efuel st phys virt mp : engines_stop eng efuel mp → 0 < phys → phys mod PG_SZ = 0 → virt ≠ 0 → 0 < mp < 32 →
  phys + alloc_sz mp ≤ 2 ^ 32 → (Z.to_nat mp ≤ length (ports st))%nat →
  wp (rebase_port_memory eng efuel mp virt phys) (λ _ st', ∀ i, 0 ≤ i < mp →
    ∃ p h, ports st' !! Z.to_nat i = Some p ∧
      clb p = phys + 1024 * i ∧ clb p mod 1024 = 0 ∧ clb p + 1024 ≤ phys + 1024 * mp ∧
      fb p = phys + 1024 * mp + 256 * i ∧ fb p mod 256 = 0 ∧ fb p + 256 ≤ phys + 1280 * mp ∧
      Z.testbit (p_cmd p) 0 = true ∧ Z.testbit (p_cmd p) 4 = true ∧
      headers st' !! (clb p + i * sizeof_CommandHeader) = Some h ∧ ctba h = phys + 1280 * mp + 256 * 31 ∧
      phys + 1280 * mp ≤ ctba h ∧ ctba h mod 128 = 0 ∧
      ctba h + sizeof_CommandTable + prdtl h * sizeof_PRDTEntry ≤ phys + alloc_sz mp ∧ is_Some (tables st' !! ctba h) ∧
      ∀ k, 0 ≤ k < 32 → k ≠ i → headers st' !! (clb p + k * sizeof_CommandHeader) = Some zero_header) st.
Proof.
  intros Heng Hp Hal Hv Hmp Hend Hlen.
  pose proof (alloc_sz_ge mp ltac:(lia)) as [Hsz _].
  eapply wp_mono; [eapply wp_rebase_port_memory; [done|done|lia|lia|done|done]|].
  intros [] st' (H1 & H2 & H3 & H4 & _ & _) i Hi. destruct (lookup_lt_is_Some_2 (ports st) (Z.to_nat i)) as [p Hpi]; [lia|].
  exists (rebased eng efuel phys mp i p), (CHdr 0 0 8 (last_table phys mp) 0). rewrite H1 by lia. cbn [ports]. rewrite Hpi, decide_True by lia.
  apply Z.mod_divide in Hal as [q ->]; [|done]. change PG_SZ with 4096 in *. cbn [rebased clb fb p_cmd ctba prdtl].
  split; [done|]. split; [done|]. split; [apply Z.mod_divide; [done|exists (q * 4 + i); lia]|]. split; [lia|].
  split; [done|]. split; [apply Z.mod_divide; [done|exists (q * 16 + 4 * mp + i); lia]|]. split; [lia|].
  split; [unfold unpause_cmd; by rewrite Z.lor_spec, orb_true_r|]. split; [unfold unpause_cmd; by rewrite Z.lor_spec, orb_true_r|].
  unfold last_table, sizeof_CommandTable, sizeof_PRDTEntry, sizeof_CommandHeader.
  split; [pose proof (H2 i ltac:(lia)) as Hx; unfold last_table, list_header in Hx; rewrite <- Hx; f_equal; lia|].
  split; [reflexivity|]. split; [lia|]. split; [apply Z.mod_divide; [done|exists (q * 32 + 10 * mp + 62); lia]|]. split; [lia|]. split.
  { rewrite H4. cbn [tables]. rewrite <- cmd_tbl_eq, cleared_table by lia. done. }
  intros k Hk Hne. rewrite H3 by (intros j Hj; unfold list_header; lia). cbn [headers].
  replace (q * 4096 + 1024 * i + k * 32) with (q * 4096 + (32 * i + k) * 32) by lia. apply cleared_header. lia.
Qed.

(** C14: after [rebase_port_memory], with port 0 idle and the controller
    answering within the reads the driver allows, [read_blocking] of up to
    16 sectors through port 0 to a destination outside the ports' memory
    succeeds: the controller finds the command through [PxCI], the command
    list, the header and the table, the sectors at the 48-bit address arrive
    at the physical destination, and no other byte of memory outside the
    ports' memory, no other port, no other header and no other command
    table changes; the port is ready for the next command. *)
Theorem rebased_port_reads `{AhciDevice} eng efuel pl fuel st phys virt mp p startl starth count dest : engines_stop eng efuel mp →
  0 < phys → virt ≠ 0 → 0 < mp < 32 → phys + 9472 * mp ≤ 2 ^ 32 → (Z.to_nat mp ≤ length (ports st))%nat →
  ports st !! 0%nat = Some p → Z.testbit (sact p) 0 = false → Z.testbit (ci p) 0 = false → responds pl fuel →
  0 ≤ startl < 2 ^ 32 → 0 ≤ starth < 2 ^ 16 → 1 ≤ count ≤ 16 → 0 ≤ dest < 2 ^ 64 → dest mod 512 = 0 →
  dest + 512 * count ≤ phys ∨ phys + 9472 * mp ≤ dest →
  wp (rebase_port_memory eng efuel mp virt phys) (λ _ st1,
    wp (read_blocking_cmd pl fuel 0 startl starth count dest) (λ b st', b = true ∧ port_ready st' 0 ∧
      (∀ a, ¬ phys ≤ a < phys + 9472 * mp →
         dram st' a = if (dest <=? a) && (a <? dest + 512 * count)
                      then platter (512 * (starth * 2 ^ 32 + startl) + (a - dest)) else dram st a) ∧
      (∀ j, j ≠ 0%nat → ports st' !! j = ports st1 !! j) ∧
      (∀ a, a ≠ phys → headers st' !! a = headers st1 !! a) ∧
      (∀ a, a ≠ phys + 1280 * mp + 256 * 31 → tables st' !! a = tables st1 !! a)) st1) st.
Proof.
  intros Heng Hphys Hv Hmp Hend Hlen Hp Hs Hc Hr Hl Hh Hcnt Hd Hal Hout.
  eapply wp_mono; [eapply wp_rebase_port_memory; [done|done|lia|done|done|done]|].
  intros [] st1 Hrb. pose proof Hrb as (H1 & H2 & _ & _ & H5 & _).
  specialize (H1 0 ltac:(lia)). cbn [ports] in H1. change (Z.to_nat 0) with O in H1. rewrite Hp, decide_True in H1 by lia.
  pose proof (H2 0 ltac:(lia)) as Hhd.
  set (p1 := rebased eng efuel phys mp 0 p) in *. set (h1 := CHdr 0 0 8 (last_table phys mp) 0) in *.
  assert (Hb : clb p1 = phys) by (cbn; lia).
  replace (list_header phys 0) with (clb p1) in Hhd by (rewrite Hb; unfold list_header; lia).
  eapply wp_mono; [eapply (wp_read_blocking_cmd pl fuel st1 0 p1 h1); try done|].
  - apply (rebased_ready eng efuel phys virt mp Hphys Hv st st1 p ltac:(lia) Hp Hs Hc Hrb).
  - rewrite Hb. unfold apart. lia.
  - unfold h1, apart, table_len. cbn [ctba]. unfold last_table. lia.
  - intros b st' (-> & Hm & Hr' & _ & _ & _ & Hoth & Hhs & Hts). split; [done|]. split; [done|].
    split; [intros a _; by rewrite Hm, H5|]. split; [exact Hoth|]. split.
    + intros a Ha. apply Hhs; [by rewrite Hb|]. intros Hin. unfold apart.
      assert (phys ≤ a ∧ a + 0x20 ≤ phys + 1024 * mp) by (eapply rebased_header; [..|exact Hrb|exact Hin]; (done || lia)). lia.
    + intros a Ha. apply Hts; [done|]. intros Hin. unfold apart.
      assert (phys ≤ a ∧ a + table_len ≤ phys + 9472 * mp) by (eapply rebased_table; [..|exact Hrb|exact Hin]; (done || lia)). lia.
Qed.

(** ** The page cache's device *)
Section reader.
Context `{AhciDevice} (pl : polls) (fuel : nat) (st : ahci) (Hr : responds pl fuel) (Hst : port_ready st 0).

(** A page with a structure shared with the controller *)
Definition port_page (p : Z) : Prop := p mod PG_SZ = 0 ∧ ∃ a,
  (is_Some (headers st !! a) ∧ p < a + 0x20 ∧ a < p + PG_SZ) ∨ (is_Some (tables st !! a) ∧ p < a + table_len ∧ a < p + PG_SZ).

(** A read leaves the port ready, and the next one sets up its header and
    table anew: each starts from the ready port [st]. *)
Definition ahci_read_page (port_idx startl starth count dest : Z) (m : bytes) : option bytes :=
  match read_blocking_cmd pl fuel port_idx startl starth count dest (set_dram m st) with
  | Ret (true, st') => Some (dram st')
  | _ => None
  end.
(** The driver, with a port that is ready, is what the page cache reads
    through. *)
Definition ahci_block_reader : BlockReader.
Proof.
  refine {| disk := platter; read_blocking := ahci_read_page; reserved := port_page |}.
  intros startl starth p m Hl Hh Hal Hp Hfree. unfold ahci_read_page.
  pose proof Hst as (_ & _ & q & h & Hq & _ & Hhd & _ & Ht).
  assert (Hap : ∀ a len, (is_Some (headers st !! a) ∧ len = 0x20 ∨ is_Some (tables st !! a) ∧ len = table_len) → apart a len p (512 * 8)).
  { intros a len Ha. unfold apart. change PG_SZ with 4096 in *. destruct (decide (a + len ≤ p ∨ p + 512 * 8 ≤ a)); [done|].
    exfalso. apply Hfree. split; [done|]. exists a. destruct Ha as [[Ha ->]|[Ha ->]]; [left|right]; (split; [done|]; change PG_SZ with 4096; lia). }
  assert (Hwp := wp_read_blocking_cmd pl fuel (set_dram m st) 0 q h startl starth 8 p Hr Hst Hq Hhd (Hap _ _ (or_introl (conj (ex_intro _ h Hhd) eq_refl)))
    (Hap _ _ (or_intror (conj Ht eq_refl))) Hl Hh ltac:(lia) ltac:(lia) (mod_512 p Hal)).
  apply wp_run in Hwp as (b & st' & Heq & -> & Hm & _). change (Z.of_nat 0) with 0 in Heq. rewrite Heq.
  eexists. split; [done|]. intros a. rewrite Hm. unfold overwrite. simpl. change PG_SZ with 4096.
  change (512 * 8) with 4096. destruct (_ && _); [|done]. f_equal. lia.
Defined.
End reader.

(** The pages with structures are pages of the block. *)
Lemma port_page_in_block eng efuel phys virt mp (hba hba' : ahci) p : 0 < phys → 0 ≤ mp < 32 → phys mod PG_SZ = 0 →
  rebased_from eng efuel phys virt mp 0 (Ahci (ports hba) (cleared_headers phys mp) (cleared_tables phys mp) (dram hba) virt phys) hba' →
  port_page hba' p → ∃ i, 0 ≤ i * PG_SZ < alloc_sz mp ∧ p = phys + i * PG_SZ.
Proof.
  intros Hp Hmp Hal Hrb [Hpal (a & Ha)]. destruct (alloc_sz_ge mp Hmp) as [Hsz _].
  assert (Hin : phys < p + PG_SZ ∧ p < phys + 9472 * mp).
  { destruct Ha as [(Hs & H1 & H2)|(Hs & H1 & H2)].
    - assert (phys ≤ a ∧ a + 0x20 ≤ phys + 1024 * mp) by (eapply rebased_header; [..|exact Hrb|exact Hs]; done). lia.
    - assert (phys ≤ a ∧ a + table_len ≤ phys + 9472 * mp) by (eapply rebased_table; [..|exact Hrb|exact Hs]; done).
      unfold table_len in *. lia. }
  apply Z.mod_divide in Hal as [q ->]; [|done]. apply Z.mod_divide in Hpal as [q' ->]; [|done].
  change PG_SZ with 4096 in *. exists (q' - q). lia.
Qed.

(** ** A controller that answers at once, with two ports *)
#[export] Instance demo_controller : AhciDevice.
Proof.
  refine {| platter a := a mod 251;
            execute _ f l m := scatter l (λ i, (512 * fis_lba f + i) mod 251) 0 m |}.
  done.
Defined.
Definition demo_port : PortRegisters := Port 0 0 0 0 0 0 0x101 0x103 0 0.
Definition demo_ahci : ahci := Ahci [demo_port; demo_port] ∅ ∅ (λ _, 0) 0 0.
Definition demo_polls : polls := Polls (λ n, if (n <? 3)%nat then 0x80 else 0x50) (λ n, if (n <? 2)%nat then 1 else 0) (λ _, 0).
(** The engines stop after one read. *)
Definition demo_engine : engine := Engine (λ _ n, if (n =? 0)%nat then 0xC000 else 0) (λ _ n, if (n =? 0)%nat then 0x8006 else 6).
Lemma demo_engines_stop mp : engines_stop demo_engine 2 mp.
Proof. intros i _. by split; exists 1%nat; (split; [lia|]). Qed.
Lemma demo_responds : responds demo_polls 5.
Proof. split; [exists 3%nat; split; [lia|done]|]. exists 2%nat. split; [lia|]. split; [done|]. done. Qed.

Lemma rebase_lays_out_witness : ∃ st' p h, rebase_port_memory demo_engine 2 2 0xFF000000 0x5000 demo_ahci = Ret (tt, st') ∧
  ports st' !! 1%nat = Some p ∧ clb p = 0x5400 ∧ headers st' !! (0x5400 + 1 * sizeof_CommandHeader) = Some h ∧
  0x5000 + 1280 * 2 ≤ ctba h ∧ ctba h mod 128 = 0.
Proof.
  pose proof (rebase_lays_out demo_engine 2 demo_ahci 0x5000 0xFF000000 2 (demo_engines_stop 2) ltac:(lia) ltac:(done) ltac:(lia) ltac:(lia)
    ltac:(vm_compute; discriminate) ltac:(simpl; lia)) as Hw.
  destruct (proj1 (wp_run _ _ _) Hw) as ([] & st' & Heq & Hi).
  destruct (Hi 1 ltac:(lia)) as (p & h & Hp & Hclb & _ & _ & _ & _ & _ & _ & _ & Hh & _ & Hc1 & Hc2 & _).
  rewrite Hclb in Hh. exact (ex_intro _ st' (ex_intro _ p (ex_intro _ h (conj Heq (conj Hp (conj Hclb (conj Hh (conj Hc1 Hc2)))))))).
Defined.
Lemma rebased_port_reads_witness : ∃ st', (_ ← rebase_port_memory demo_engine 2 2 0xFF000000 0x5000;
    read_blocking_cmd demo_polls 5 0 3 0 2 0x10000) demo_ahci = Ret (true, st') ∧
  dram st' 0x10007 = (512 * 3 + 7) mod 251 ∧ dram st' 0x10400 = 0.
Proof.
  pose proof (rebased_port_reads demo_engine 2 demo_polls 5 demo_ahci 0x5000 0xFF000000 2 demo_port 3 0 2 0x10000 (demo_engines_stop 2) ltac:(lia) ltac:(lia)
    ltac:(lia) ltac:(lia) ltac:(simpl; lia) eq_refl eq_refl eq_refl demo_responds ltac:(lia) ltac:(lia) ltac:(lia)
    ltac:(lia) eq_refl ltac:(lia)) as Hw.
  destruct (proj1 (wp_run _ _ _) Hw) as ([] & st1 & Heq1 & Hw1).
  destruct (proj1 (wp_run _ _ _) Hw1) as (b & st' & Heq & -> & _ & Hm & _). exists st'.
  split; [munfold; rewrite Heq1; exact Heq|]. clear Heq Hw Heq1 Hw1. split; rewrite Hm by lia; vm_compute; reflexivity.
Defined.
(** A destination in the ports' memory: the command list is overwritten, and
    the next read finds no header. *)
Example reads_into_port_memory :
  (_ ← rebase_port_memory demo_engine 2 2 0xFF000000 0x5000; _ ← read_blocking_cmd demo_polls 5 0 3 0 2 0x5000;
   read_blocking_cmd demo_polls 5 0 3 0 2 0x10000) demo_ahci = Halt BadAccess.
Proof. vm_compute. reflexivity. Qed.

(** A read of 17 sectors: the second entry of the scatter list starts 4KB
    after the first, inside its 8KB, and the command asks for one sector. *)
Example second_entry_overlaps : ∃ prdt n, build_prdt 2 0x8000 17 = (prdt, n) ∧
  prdt_addr <$> prdt = [0x8000; 0x9000] ∧ prdt_bytes <$> prdt = [8192; 512] ∧ fis_count (build_fis 0 0 n) = 1.
Proof. eexists _, _. by repeat split. Qed.
(** [cmd_hdr[i]] where [cmd_hdr[cmd]] is meant: slot 0 of port 1 has no
    command table, and a read through it follows a null address. *)
Example port_1_unusable :
  (_ ← rebase_port_memory demo_engine 2 2 0xFF000000 0x5000; read_blocking_cmd demo_polls 5 1 3 0 2 0x8000) demo_ahci = Halt BadAccess.
Proof. vm_compute. reflexivity. Qed.
