(* ===== verification/Pci.v ===== *)
(** * PCI configuration space and enumeration

    Models [drivers/pci.{h,cc}]: registers are reached through the address
    port and the data port; [enumerate_functions] walks the buses from the
    host bridge, following PCI-to-PCI bridges, and keeps its result.  The
    configuration spaces are [config]; what a write does to them is the
    parameter [config_write].  A bus that a bridge leads to is enumerated
    by recursion, so [enumerate_bus] takes fuel: one unit a bus level. *)
From S2P Require Import Prelude.

Definition max_devices : Z := 32.
Definition max_functions : Z := 8.
Definition max_registers : Z := 256 / 4.
Definition max_enumerated_functions : Z := 256.
Definition config_addr_port : Z := 0x0CF8.
Definition config_data_port : Z := 0x0CFC.

Record FuncDescriptor := FD { fd_bus : Z; fd_device : Z; fd_function : Z; _class : Z; vendor_id : Z; device_id : Z }.

(** A register by bus, device, function and index *)
Abbreviation space := (Z → Z → Z → Z → Z).
Record pci := Pci { config_addr : Z; config : space; enumerated : list FuncDescriptor }.

Class PciHost := { config_write : space → Z → Z → Z → Z → Z → space }.

(** ** The two ports: the data port is the register the address names. *)
Definition addr_bus (a : Z) : Z := Z.land (Z.shiftr a 16) 0xFF.
Definition addr_device (a : Z) : Z := Z.land (Z.shiftr a 11) 0x1F.
Definition addr_function (a : Z) : Z := Z.land (Z.shiftr a 8) 0x7.
Definition addr_register (a : Z) : Z := Z.land (Z.shiftr a 2) 0x3F.

Section ops.
Context `{PciHost}.

Definition outl (port v : Z) : M pci unit :=
  st ← getS;
  if port =? config_addr_port then putS (Pci v (config st) (enumerated st))
  else if (port =? config_data_port) && Z.testbit (config_addr st) 31 then
    let a := config_addr st in
    putS (Pci a (config_write (config st) (addr_bus a) (addr_device a) (addr_function a) (addr_register a) v) (enumerated st))
  else mret tt.
Definition inl (port : Z) : M pci Z :=
  st ← getS;
  let a := config_addr st in
  mret (if (port =? config_data_port) && Z.testbit a 31
        then u32 (config st (addr_bus a) (addr_device a) (addr_function a) (addr_register a)) else 0xFFFFFFFF).

(** ** Configuration space *)
Definition config_address (bus device function reg : Z) : Z :=
  Z.lor (Z.lor (Z.lor (Z.lor 0x80000000 (Z.shiftl bus 16)) (Z.shiftl device 11)) (Z.shiftl function 8)) (Z.shiftl reg 2).
Definition read_config_register (bus device function reg : Z) : M pci Z :=
  _ ← assertM (device <? max_devices);
  _ ← assertM (function <? max_functions);
  _ ← assertM (reg <? max_registers);
  _ ← outl config_addr_port (config_address bus device function reg);
  inl config_data_port.
Definition read_config_word (bus device function offset : Z) : M pci Z :=
  _ ← assertM (Z.land offset 0x01 =? 0);
  reg ← read_config_register bus device function (Z.shiftr offset 2);
  mret (Z.land (Z.shiftr reg (Z.land offset 0x02 * 8)) 0xFFFF).
Definition read_config_byte (bus device function offset : Z) : M pci Z :=
  reg ← read_config_register bus device function (Z.shiftr offset 2);
  mret (Z.land (Z.shiftr reg (Z.land offset 0x03 * 8)) 0xFF).
Definition write_config_register (bus device function reg val : Z) : M pci unit :=
  _ ← assertM (device <? max_devices);
  _ ← assertM (function <? max_functions);
  _ ← assertM (reg <? max_registers);
  _ ← outl config_addr_port (config_address bus device function reg);
  outl config_data_port val.

Definition get_bar (bus device function bar_idx : Z) : M pci Z :=
  _ ← assertM (bar_idx <? 6);
  read_config_register bus device function (4 + bar_idx).
Definition get_vendor_id (bus device function : Z) : M pci Z := read_config_word bus device function 0x00.
Definition get_device_id (bus device function : Z) : M pci Z := read_config_word bus device function 0x02.
Definition get_class (bus device function : Z) : M pci Z := read_config_word bus device function 0x0A.
Definition get_header_type (bus device function : Z) : M pci Z := read_config_byte bus device function 0x0E.
Definition get_secondary_bus (bus device function : Z) : M pci Z := read_config_byte bus device function 0x19.

(** ** Enumeration *)
Definition add_function (d : FuncDescriptor) : M pci unit :=
  st ← getS; putS (Pci (config_addr st) (config st) (enumerated st ++ [d])).

(** The loop over the functions of a device; [go] enumerates a bus. *)
Fixpoint function_loop (go : Z → M pci unit) (n : nat) (bus device function : Z) : M pci unit :=
  match n with
  | O => mret tt
  | S n =>
    vendor ← get_vendor_id bus device function;
    if vendor =? 0xFFFF then
      if function =? 0 then mret tt else function_loop go n bus device (function + 1)
    else
      st ← getS;
      _ ← assertM (zlen (enumerated st) <? max_enumerated_functions);
      cls ← get_class bus device function;
      did ← get_device_id bus device function;
      _ ← add_function (FD bus device function cls vendor did);
      _ ← (if cls =? 0x0604 then
             ht ← get_header_type bus device function;
             _ ← assertM (Z.land ht 0x7F =? 0x1);
             sec ← get_secondary_bus bus device function;
             go sec
           else mret tt);
      ht ← get_header_type bus device function;
      if Z.land ht 0x80 =? 0 then mret tt else function_loop go n bus device (function + 1)
  end.
Definition enumerate_device (go : Z → M pci unit) (bus device : Z) : M pci unit :=
  _ ← assertM (device <? max_devices);
  function_loop go (Z.to_nat max_functions) bus device 0.
Fixpoint device_loop (go : Z → M pci unit) (n : nat) (bus device : Z) : M pci unit :=
  match n with
  | O => mret tt
  | S n => _ ← enumerate_device go bus device; device_loop go n bus (device + 1)
  end.
Fixpoint enumerate_bus (fuel : nat) (bus : Z) : M pci unit :=
  match fuel with
  | O => halt OutOfFuel
  | S fuel => device_loop (enumerate_bus fuel) (Z.to_nat max_devices) bus 0
  end.

Fixpoint host_loop (fuel n : nat) (multi_bus : bool) (function : Z) : M pci unit :=
  match n with
  | O => mret tt
  | S n =>
    vendor ← get_vendor_id 0 0 function;
    if vendor =? 0xFFFF then host_loop fuel n multi_bus (function + 1)
    else
      _ ← enumerate_bus fuel function;
      if negb multi_bus then mret tt else host_loop fuel n multi_bus (function + 1)
  end.
Definition enumerate_functions (fuel : nat) : M pci (list FuncDescriptor) :=
  st ← getS;
  if 0 <? zlen (enumerated st) then mret (enumerated st)
  else
    ht ← get_header_type 0 0 0;
    _ ← host_loop fuel (Z.to_nat max_functions) (negb (Z.land ht 0x80 =? 0)) 0;
    st ← getS;
    mret (enumerated st).
End ops.

(** ** Reading registers *)
Lemma lor_disjoint n a b : 0 ≤ n → a mod 2 ^ n = 0 → 0 ≤ b < 2 ^ n → Z.lor a b = a + b.
Proof.
  intros Hn Ha Hb. assert (Hl : Z.land a b = 0).
  { apply Z.bits_inj'. intros i Hi. rewrite Z.land_spec, Z.bits_0. destruct (Z.lt_ge_cases i n).
    - apply Z.mod_divide in Ha as [q ->]; [|lia]. by rewrite Z.mul_pow2_bits_low.
    - replace (Z.testbit b i) with false; [apply andb_false_r|]. symmetry. rewrite <- (Z.mod_small b (2 ^ n)) by done.
      by apply Z.mod_pow2_bits_high. }
  by rewrite Z.add_nocarry_lxor, Z.lxor_lor.
Qed.

Definition reg_ok (bus device function reg : Z) : Prop :=
  0 ≤ bus < 256 ∧ 0 ≤ device < 32 ∧ 0 ≤ function < 8 ∧ 0 ≤ reg < 64.
Lemma config_address_eq bus device function reg : reg_ok bus device function reg →
  config_address bus device function reg = 2 ^ 31 + bus * 2 ^ 16 + device * 2 ^ 11 + function * 2 ^ 8 + reg * 2 ^ 2.
Proof.
  intros (Hb & Hd & Hf & Hr). unfold config_address. rewrite !Z.shiftl_mul_pow2 by done. change 0x80000000 with (2 ^ 31).
  rewrite (lor_disjoint 31 (2 ^ 31)) by (done || lia).
  rewrite (lor_disjoint 16 (_ + bus * _)); [|done|apply Z.mod_divide; [done|exists (2 ^ 15 + bus); lia]|lia].
  rewrite (lor_disjoint 11 (_ + device * _)); [|done|apply Z.mod_divide; [done|exists (2 ^ 20 + bus * 2 ^ 5 + device); lia]|lia].
  rewrite (lor_disjoint 8 (_ + function * _)); [done|done| |lia].
  apply Z.mod_divide; [done|]. exists (2 ^ 23 + bus * 2 ^ 8 + device * 2 ^ 3 + function). lia.
Qed.
(** The address names the register it was built for. *)
Lemma config_address_decodes bus device function reg : reg_ok bus device function reg →
  let a := config_address bus device function reg in
  addr_bus a = bus ∧ addr_device a = device ∧ addr_function a = function ∧ addr_register a = reg ∧ Z.testbit a 31 = true.
Proof.
  intros Hok a0. unfold a0. clear a0. rewrite config_address_eq by done. destruct Hok as (Hb & Hd & Hf & Hr).
  unfold addr_bus, addr_device, addr_function, addr_register.
  change 0xFF with (Z.ones 8). change 0x7 with (Z.ones 3). change 0x3F with (Z.ones 6).
  rewrite (Z.land_ones _ 5 : _ → Z.land _ 0x1F = _), !Z.land_ones, !Z.shiftr_div_pow2 by done. rewrite Z.testbit_eqb by done.
  set (a := 2 ^ 31 + _ + _ + _ + _).
  assert (H16 : a / 2 ^ 16 = 2 ^ 15 + bus) by (symmetry; apply (Z.div_unique _ _ _ (device * 2 ^ 11 + function * 2 ^ 8 + reg * 2 ^ 2)); lia).
  assert (H11 : a / 2 ^ 11 = 2 ^ 20 + bus * 2 ^ 5 + device) by (symmetry; apply (Z.div_unique _ _ _ (function * 2 ^ 8 + reg * 2 ^ 2)); lia).
  assert (H8 : a / 2 ^ 8 = 2 ^ 23 + bus * 2 ^ 8 + device * 2 ^ 3 + function) by (symmetry; apply (Z.div_unique _ _ _ (reg * 2 ^ 2)); lia).
  assert (H2 : a / 2 ^ 2 = 2 ^ 29 + bus * 2 ^ 14 + device * 2 ^ 9 + function * 2 ^ 6 + reg) by (symmetry; apply (Z.div_unique _ _ _ 0); lia).
  assert (H31 : a / 2 ^ 31 = 1) by (symmetry; apply (Z.div_unique _ _ _ (bus * 2 ^ 16 + device * 2 ^ 11 + function * 2 ^ 8 + reg * 2 ^ 2)); lia).
  rewrite H16, H11, H8, H2, H31. split_and!; [..|done]; symmetry.
  - apply (Z.mod_unique _ _ (2 ^ 7)); lia.
  - apply (Z.mod_unique _ _ (2 ^ 15 + bus)); lia.
  - apply (Z.mod_unique _ _ (2 ^ 20 + bus * 2 ^ 5 + device)); lia.
  - apply (Z.mod_unique _ _ (2 ^ 23 + bus * 2 ^ 8 + device * 2 ^ 3 + function)); lia.
Qed.

(** ** What the configuration spaces say *)
Definition cfg_word (c : space) (b d f off : Z) : Z := Z.land (Z.shiftr (u32 (c b d f (off / 4))) (8 * (off mod 4))) 0xFFFF.
Definition cfg_byte (c : space) (b d f off : Z) : Z := Z.land (Z.shiftr (u32 (c b d f (off / 4))) (8 * (off mod 4))) 0xFF.
Definition vendor_of (c : space) (b d f : Z) : Z := cfg_word c b d f 0.
Definition class_of (c : space) (b d f : Z) : Z := cfg_word c b d f 0x0A.
Definition header_of (c : space) (b d f : Z) : Z := cfg_byte c b d f 0x0E.
Definition secondary_of (c : space) (b d f : Z) : Z := cfg_byte c b d f 0x19.
Definition exists_fn (c : space) (b d f : Z) : bool := negb (vendor_of c b d f =? 0xFFFF).
Definition multi_fn (c : space) (b d f : Z) : bool := negb (Z.land (header_of c b d f) 0x80 =? 0).
Definition is_bridge (c : space) (b d f : Z) : bool := class_of c b d f =? 0x0604.
Definition describe (c : space) (b d f : Z) : FuncDescriptor :=
  FD b d f (class_of c b d f) (vendor_of c b d f) (cfg_word c b d f 2).

(** The functions of a device as PCI defines them: none without function 0,
    and only function 0 unless its header says there are more. *)
Definition pci_fn (c : space) (b d f : Z) : Prop :=
  exists_fn c b d 0 = true ∧ exists_fn c b d f = true ∧ 0 ≤ f < 8 ∧ (multi_fn c b d 0 = true ∨ f = 0).
(** The ones the driver lists: every function below must have the
    multi-function bit too, which PCI asks of function 0 only. *)
Definition listed_fn (c : space) (b d f : Z) : Prop :=
  exists_fn c b d 0 = true ∧ exists_fn c b d f = true ∧ 0 ≤ f < 8 ∧
  ∀ g, 0 ≤ g < f → exists_fn c b d g = true → multi_fn c b d g = true.
(** The same as lists: the functions from [f] on, up to one that is present
    and does not have the bit *)
Fixpoint fns_from (c : space) (n : nat) (b d f : Z) : list Z :=
  match n with
  | O => []
  | S n => if exists_fn c b d f then f :: (if multi_fn c b d f then fns_from c n b d (f + 1) else [])
           else fns_from c n b d (f + 1)
  end.
Definition fns (c : space) (b d : Z) : list Z := if exists_fn c b d 0 then fns_from c 8 b d 0 else [].
(** The functions of the host bridge, a bus each *)
Definition host_fns (c : space) : list Z :=
  if exists_fn c 0 0 0 then filter (λ f, exists_fn c 0 0 f = true) (if multi_fn c 0 0 0 then seqZ 0 8 else [0]) else [].
(** The functions of a bus and of the buses behind its bridges, depth first *)
Fixpoint bus_functions (c : space) (n : nat) (b : Z) : list FuncDescriptor :=
  match n with
  | O => []
  | S n => seqZ 0 32 ≫= λ d, fns c b d ≫= λ f,
      describe c b d f :: (if is_bridge c b d f then bus_functions c n (secondary_of c b d f) else [])
  end.
Definition all_functions (c : space) : list FuncDescriptor := host_fns c ≫= bus_functions c 256.

(** A bridge has the header of a bridge and leads to a bus of a higher
    number. *)
Definition topology_ok (c : space) : Prop := ∀ b d f, 0 ≤ b < 256 → 0 ≤ d < 32 → 0 ≤ f < 8 → exists_fn c b d f = true →
  is_bridge c b d f = true → Z.land (header_of c b d f) 0x7F = 1 ∧ b < secondary_of c b d f.

(** The buses behind a bus, through the bridges that are listed *)
Inductive behind (c : space) : Z → Z → Prop :=
  | behind_self b : behind c b b
  | behind_bridge b d f b' : 0 ≤ d < 32 → listed_fn c b d f → is_bridge c b d f = true →
      behind c (secondary_of c b d f) b' → behind c b b'.

Lemma fns_from_spec c b d f n : ∀ g, f ∈ fns_from c n b d g ↔
  g ≤ f < g + Z.of_nat n ∧ exists_fn c b d f = true ∧ ∀ h, g ≤ h < f → exists_fn c b d h = true → multi_fn c b d h = true.
Proof.
  induction n as [|n IH]; intros g; cbn [fns_from]; [rewrite elem_of_nil; lia|].
  assert (Hsplit : ∀ P : Z → Prop, (∀ h, g ≤ h < f → P h) ↔ (g < f → P g) ∧ ∀ h, g + 1 ≤ h < f → P h).
  { intros P. split; [intros Hp; split; [intros ?; apply Hp; lia|intros h ?; apply Hp; lia]|].
    intros [Hg Hp] h ?. destruct (Z.eq_dec h g) as [->|]; [apply Hg; lia|apply Hp; lia]. }
  rewrite Hsplit. destruct (exists_fn c b d g) eqn:Hg; [rewrite elem_of_cons; destruct (multi_fn c b d g) eqn:Hm|].
  - rewrite IH. split.
    + intros [->|(Hf & Hex & Hall)]; [split; [lia|split; [done|split; [lia|intros h ?; lia]]]|]. split; [lia|done].
    + intros (Hf & Hex & _ & Hall). destruct (Z.eq_dec f g); [by left|right]. split; [lia|done].
  - rewrite elem_of_nil. split.
    + intros [->|[]]. split; [lia|split; [done|split; [lia|intros h ?; lia]]].
    + intros (Hf & Hex & Hlow & _). destruct (Z.eq_dec f g); [by left|]. by discriminate (Hlow ltac:(lia)).
  - rewrite IH. split.
    + intros (Hf & Hex & Hall). split; [lia|done].
    + intros (Hf & Hex & _ & Hall). assert (f ≠ g) by congruence. split; [lia|done].
Qed.
Lemma fns_spec c b d f : f ∈ fns c b d ↔ listed_fn c b d f.
Proof.
  unfold fns, listed_fn. destruct (exists_fn c b d 0); [|rewrite elem_of_nil; naive_solver]. rewrite fns_from_spec. naive_solver lia.
Qed.
(** Where the functions of a device agree on the bit, the driver lists what
    PCI defines. *)
Lemma listed_pci c b d f : (∀ g, 0 ≤ g < 8 → exists_fn c b d g = true → multi_fn c b d g = multi_fn c b d 0) →
  listed_fn c b d f ↔ pci_fn c b d f.
Proof.
  intros Heq. unfold listed_fn, pci_fn. split; intros (H0 & Hf & Hr & H); do 3 (split; [done|]).
  - destruct (Z.eq_dec f 0); [by right|left]. apply H; [lia|done].
  - intros g Hg Hex. rewrite (Heq g ltac:(lia) Hex). destruct H; [done|lia].
Qed.
Lemma host_fns_spec c f : f ∈ host_fns c ↔ pci_fn c 0 0 f.
Proof.
  unfold host_fns, pci_fn. destruct (exists_fn c 0 0 0); [|set_solver]. rewrite list_elem_of_filter.
  destruct (multi_fn c 0 0 0); [rewrite elem_of_seqZ|rewrite list_elem_of_singleton]; naive_solver lia.
Qed.
Lemma fn_0 c b d : exists_fn c b d 0 = true → listed_fn c b d 0.
Proof. intros Hex. split; [done|]. split; [done|]. split; [lia|]. intros g ?. lia. Qed.
Lemma host_fn_0 c : exists_fn c 0 0 0 = true → 0 ∈ host_fns c.
Proof. intros Hex. apply host_fns_spec. split; [done|]. split; [done|]. split; [lia|by right]. Qed.
Lemma cfg_byte_range c b d f off : 0 ≤ cfg_byte c b d f off < 256.
Proof. unfold cfg_byte. change 0xFF with (Z.ones 8). rewrite Z.land_ones by done. by apply Z.mod_pos_bound. Qed.

(** [bus_functions] lists functions of the buses behind the bus, and, with a
    level for every higher bus number, all of them. *)
Lemma bus_functions_sound c n : ∀ b x, x ∈ bus_functions c n b →
  ∃ b' d f, behind c b b' ∧ 0 ≤ d < 32 ∧ listed_fn c b' d f ∧ x = describe c b' d f.
Proof.
  induction n as [|n IH]; intros b x; cbn [bus_functions]; [by intros ?%not_elem_of_nil|].
  intros (d & (f & Hx & Hf%fns_spec)%list_elem_of_bind & Hd%elem_of_seqZ)%list_elem_of_bind.
  apply elem_of_cons in Hx as [->|Hx]; [exists b, d, f; split; [constructor|]; by split; [lia|]|].
  destruct (is_bridge c b d f) eqn:Hb; [|by apply not_elem_of_nil in Hx].
  destruct (IH _ _ Hx) as (b' & d' & f' & H1 & H2). exists b', d', f'. split; [|done].
  apply (behind_bridge c b d f); [lia|done..].
Qed.
Lemma bus_functions_complete c b b' : topology_ok c → behind c b b' → ∀ n d f, 0 ≤ b < 256 → 256 - b ≤ Z.of_nat n →
  0 ≤ d < 32 → listed_fn c b' d f → describe c b' d f ∈ bus_functions c n b.
Proof.
  intros Hok Hbeh. induction Hbeh as [b|b d0 f0 b' Hd0 Hf0 Hbr _ IH]; intros n d f Hb Hn Hd Hf.
  all: destruct n as [|n]; [lia|]; cbn [bus_functions]; apply list_elem_of_bind.
  - exists d. split; [|apply elem_of_seqZ; lia]. apply list_elem_of_bind. exists f. split; [left|by apply fns_spec].
  - exists d0. split; [|apply elem_of_seqZ; lia]. apply list_elem_of_bind. exists f0. split; [|by apply fns_spec].
    rewrite Hbr. right. pose proof Hf0 as (_ & Hex & Hr & _).
    destruct (Hok b d0 f0) as [_ Hlt]; [done..|].
    apply IH; [|lia|done|done]. pose proof (cfg_byte_range c b d0 f0 0x19). unfold secondary_of. lia.
Qed.

(** ** The operations read these *)
Section proof.
Context `{PciHost}.

Definition grown (l : list FuncDescriptor) (st st' : pci) : Prop :=
  config st' = config st ∧ enumerated st' = enumerated st ++ l.

Lemma grown_trans l1 l2 st0 st1 st2 : grown l1 st0 st1 → grown l2 st1 st2 → grown (l1 ++ l2) st0 st2.
Proof. intros [H1 H2] [H3 H4]. split; [congruence|]. by rewrite H4, H2, app_assoc. Qed.
Lemma grown_nil st : grown [] st st.
Proof. split; [done|]. by rewrite app_nil_r. Qed.

Lemma wp_read_config_register b d f r (Q : Z → pci → Prop) st : reg_ok b d f r →
  (∀ st', grown [] st st' → Q (u32 (config st b d f r)) st') → wp (read_config_register b d f r) Q st.
Proof.
  intros Hok HQ. pose proof Hok as (Hb & Hd & Hf & Hr). unfold read_config_register, max_devices, max_functions.
  change max_registers with 64. do 3 (apply wp_bind, wp_assert; [lia|]). unfold outl. rewrite Z.eqb_refl.
  apply wp_bind, wp_bind, wp_get, wp_put. unfold inl. apply wp_bind, wp_get. cbn [config_addr config].
  destruct (config_address_decodes b d f r Hok) as (-> & -> & -> & -> & ->). apply wp_ret, HQ. split; [done|].
  by rewrite app_nil_r.
Qed.
Lemma wp_write_config_register b d f r v (Q : unit → pci → Prop) st : reg_ok b d f r →
  Q tt (Pci (config_address b d f r) (config_write (config st) b d f r v) (enumerated st)) →
  wp (write_config_register b d f r v) Q st.
Proof.
  intros Hok HQ. pose proof Hok as (Hb & Hd & Hf & Hr). unfold write_config_register, max_devices, max_functions.
  change max_registers with 64. do 3 (apply wp_bind, wp_assert; [lia|]). unfold outl. rewrite Z.eqb_refl.
  apply wp_bind, wp_bind, wp_get, wp_put. apply wp_bind, wp_get. cbn [config_addr config enumerated].
  destruct (config_address_decodes b d f r Hok) as (-> & -> & -> & -> & ->). by apply wp_put.
Qed.
Lemma wp_read_config_word b d f off (Q : Z → pci → Prop) st : reg_ok b d f (off / 4) → off mod 2 = 0 →
  (∀ st', grown [] st st' → Q (cfg_word (config st) b d f off) st') → wp (read_config_word b d f off) Q st.
Proof.
  intros Hok Hal HQ. unfold read_config_word. apply wp_bind, wp_assert.
  { apply Z.eqb_eq. change 1 with (Z.ones 1). by rewrite Z.land_ones. }
  rewrite Z.shiftr_div_pow2 by done. apply wp_bind, wp_read_config_register; [done|]. intros st' Hg. apply wp_ret.
  replace (Z.land off 2 * 8) with (8 * (off mod 4)); [by apply HQ|].
  change (Z.land off 2) with (Z.land off (Z.land (Z.ones 2) 2)). rewrite Z.land_assoc, Z.land_ones by done. change (2 ^ 2) with 4.
  assert (off mod 4 = 0 ∨ off mod 4 = 2) as [-> | ->] by (Z.div_mod_to_equations; lia); done.
Qed.
Lemma wp_read_config_byte b d f off (Q : Z → pci → Prop) st : reg_ok b d f (off / 4) →
  (∀ st', grown [] st st' → Q (cfg_byte (config st) b d f off) st') → wp (read_config_byte b d f off) Q st.
Proof.
  intros Hok HQ. unfold read_config_byte. rewrite Z.shiftr_div_pow2 by done. apply wp_bind, wp_read_config_register; [done|].
  intros st' Hg. apply wp_ret. change 3 with (Z.ones 2). rewrite Z.land_ones, Z.mul_comm by done. by apply HQ.
Qed.

Lemma fn_reg_ok b d f off : 0 ≤ b < 256 → 0 ≤ d < 32 → 0 ≤ f < 8 → 0 ≤ off < 256 → reg_ok b d f (off / 4).
Proof. intros ????. unfold reg_ok. Z.div_mod_to_equations. lia. Qed.

(** The functions of the host bridge from [f] on *)
Definition host_from (c : space) (n : nat) (f : Z) : list Z :=
  if multi_fn c 0 0 0 then filter (λ f, exists_fn c 0 0 f = true) (seqZ f (Z.of_nat n)) else if f =? 0 then [0] else [].
Lemma host_from_skip c n f : 0 ≤ f → multi_fn c 0 0 0 = true → exists_fn c 0 0 f = false →
  host_from c (S n) f = host_from c n (f + 1).
Proof.
  intros Hf Hm Hex. unfold host_from. rewrite Hm, seqZ_cons by lia. rewrite filter_cons_False by (by rewrite Hex). do 2 f_equal; lia.
Qed.
Lemma host_from_keep c n f : 0 ≤ f → (f ≠ 0 → multi_fn c 0 0 0 = true) → exists_fn c 0 0 f = true →
  host_from c (S n) f = f :: if multi_fn c 0 0 0 then host_from c n (f + 1) else [].
Proof.
  intros Hf Hm Hex. unfold host_from. destruct (multi_fn c 0 0 0).
  - rewrite seqZ_cons by lia. rewrite filter_cons_True by done. do 3 f_equal; lia.
  - destruct (Z.eqb_spec f 0) as [->|Hf0]; [done|]. by specialize (Hm Hf0).
Qed.
Lemma host_from_all c : exists_fn c 0 0 0 = true → host_fns c = host_from c 8 0.
Proof.
  intros Hex. unfold host_fns, host_from. rewrite Hex. destruct (multi_fn c 0 0 0); [done|]. by rewrite filter_cons_True, filter_nil.
Qed.
Definition listing (c : space) (go : Z → list FuncDescriptor) (b d f : Z) : list FuncDescriptor :=
  describe c b d f :: (if is_bridge c b d f then go (secondary_of c b d f) else []).

Section loops.
Context (c : space) (go : Z → M pci unit) (ref : Z → list FuncDescriptor) (b : Z) (Hb : 0 ≤ b < 256) (Htop : topology_ok c).
(** [go] on the buses a bridge of this bus leads to *)
Hypothesis Hgo : ∀ b' st, b < b' < 256 → config st = c → (length (enumerated st) + length (ref b') ≤ 256)%nat →
  wp (go b') (λ _ st', grown (ref b') st st') st.

(** Recording a function and, for a bridge, the bus behind it *)
Lemma wp_record_function d f st (k : M pci unit) (Q : unit → pci → Prop) : 0 ≤ d < 32 → 0 ≤ f < 8 → config st = c → exists_fn c b d f = true →
  (length (enumerated st) + length (listing c ref b d f) ≤ 256)%nat →
  (∀ st', grown (listing c ref b d f) st st' → wp k Q st') →
  wp (cls ← get_class b d f; did ← get_device_id b d f; _ ← add_function (FD b d f cls (vendor_of c b d f) did);
      _ ← (if cls =? 0x0604 then
             ht ← get_header_type b d f; _ ← assertM (Z.land ht 0x7F =? 0x1); sec ← get_secondary_bus b d f; go sec
           else mret tt); k) Q st.
Proof.
  intros Hd Hf Hc Hex Hlen HQ. pose proof (Htop b d f Hb Hd Hf Hex) as Hbr. cbn [listing length] in Hlen.
  apply wp_bind, wp_read_config_word; [by apply fn_reg_ok|done|]. intros st1 Hg1. rewrite Hc. fold (class_of c b d f).
  apply wp_bind, wp_read_config_word; [by apply fn_reg_ok|done|]. intros st2 Hg2. pose proof Hg1 as [Hc1 _].
  pose proof (grown_trans _ _ _ _ _ Hg1 Hg2) as [Hc2 He2]. rewrite Hc1, Hc in *. rewrite app_nil_r in He2.
  apply wp_bind. unfold add_function. apply wp_bind, wp_get, wp_put. fold (describe c b d f).
  set (st3 := Pci _ _ _). assert (Hg3 : grown [describe c b d f] st st3) by (split; simpl; congruence).
  apply wp_bind. unfold listing, is_bridge in *. destruct (class_of c b d f =? 0x0604) eqn:Hcls; [|by apply wp_ret, HQ].
  destruct (Hbr eq_refl) as [Hht Hsec].
  apply wp_bind, wp_read_config_byte; [by apply fn_reg_ok|]. intros st4 Hg4. cbn [config st3]. rewrite Hc2. fold (header_of c b d f).
  apply wp_bind, wp_assert; [by rewrite Hht|].
  apply wp_bind, wp_read_config_byte; [by apply fn_reg_ok|]. intros st5 Hg5.
  pose proof (grown_trans _ _ _ _ _ Hg3 (grown_trans _ _ _ _ _ Hg4 Hg5)) as Hg35. pose proof Hg4 as [-> _]. cbn [config st3].
  rewrite Hc2. fold (secondary_of c b d f). pose proof (cfg_byte_range c b d f 0x19) as Hr. fold (secondary_of c b d f) in Hr.
  eapply wp_mono; [apply Hgo|].
  - lia.
  - by rewrite (proj1 Hg35).
  - rewrite (proj2 Hg35), length_app. simpl in *. lia.
  - intros [] st6 Hg6. apply HQ. apply (grown_trans _ _ _ _ _ Hg35 Hg6).
Qed.

Lemma wp_function_loop n : ∀ d f st, 0 ≤ d < 32 → 0 ≤ f → f + Z.of_nat n = 8 → config st = c → exists_fn c b d 0 = true →
  (length (enumerated st) + length (fns_from c n b d f ≫= listing c ref b d) ≤ 256)%nat →
  wp (function_loop go n b d f) (λ _ st', grown (fns_from c n b d f ≫= listing c ref b d) st st') st.
Proof.
  induction n as [|n IH]; intros d f st Hd Hf Hn Hc Hex0 Hlen; cbn [function_loop].
  { apply wp_ret, grown_nil. }
  apply wp_bind. unfold get_vendor_id. apply wp_read_config_word; [apply fn_reg_ok; lia|done|]. intros st1 Hg1. rewrite Hc.
  fold (vendor_of c b d f). cbn [fns_from] in *. destruct (Z.eqb_spec (vendor_of c b d f) 0xFFFF) as [Hv|Hv].
  - assert (Hex : exists_fn c b d f = false) by (unfold exists_fn; by rewrite Hv).
    destruct (Z.eqb_spec f 0) as [->|Hf0]; [congruence|].
    rewrite Hex in *. eapply wp_mono; [apply IH; [done|lia|lia| |done|]|].
    + by rewrite (proj1 Hg1).
    + by rewrite (proj2 Hg1), app_nil_r.
    + intros [] st2 Hg2. apply (grown_trans [] _ _ _ _ Hg1 Hg2).
  - assert (Hex : exists_fn c b d f = true) by (unfold exists_fn; by apply negb_true_iff, Z.eqb_neq).
    rewrite Hex in *. cbn [mbind list_bind] in *. rewrite length_app in Hlen.
    apply wp_bind, wp_get, wp_bind, wp_assert.
    { rewrite (proj2 Hg1), app_nil_r. unfold max_enumerated_functions. cbn [listing length] in Hlen. lia. }
    assert (Hc1 : config st1 = c) by (by rewrite (proj1 Hg1)).
    eapply wp_record_function; [exact Hd|lia|exact Hc1|exact Hex| |].
    { rewrite (proj2 Hg1), app_nil_r. lia. }
    intros st2 Hg2. apply wp_bind, wp_read_config_byte; [apply fn_reg_ok; lia|]. intros st3 Hg3. rewrite (proj1 Hg2), Hc1.
    fold (header_of c b d f).
    pose proof (grown_trans _ _ _ _ _ Hg1 (grown_trans _ _ _ _ _ Hg2 Hg3)) as Hg. rewrite app_nil_r in Hg. cbn [app] in Hg.
    unfold multi_fn in *. destruct (Z.land (header_of c b d f) 0x80 =? 0); cbn [negb] in *.
    { apply wp_ret. cbn [mbind list_bind]. by rewrite app_nil_r. }
    eapply wp_mono; [apply IH; [done|lia|lia| |done|]|].
    + by rewrite (proj1 Hg).
    + rewrite (proj2 Hg), length_app. lia.
    + intros [] st4 Hg4. apply (grown_trans _ _ _ _ _ Hg Hg4).
Qed.

Lemma wp_enumerate_device d st : 0 ≤ d < 32 → config st = c →
  (length (enumerated st) + length (fns c b d ≫= listing c ref b d) ≤ 256)%nat →
  wp (enumerate_device go b d) (λ _ st', grown (fns c b d ≫= listing c ref b d) st st') st.
Proof.
  intros Hd Hc Hlen. unfold enumerate_device. apply wp_bind, wp_assert; [unfold max_devices; lia|].
  change (Z.to_nat max_functions) with 8%nat. destruct (exists_fn c b d 0) eqn:Hex.
  - assert (Heq : fns c b d = fns_from c 8 b d 0) by (unfold fns; by rewrite Hex). rewrite Heq in *. by apply wp_function_loop.
  - cbn [function_loop]. apply wp_bind, wp_read_config_word; [by apply fn_reg_ok|done|]. intros st1 Hg1. rewrite Hc.
    unfold fns. rewrite Hex. unfold exists_fn, vendor_of in Hex. apply negb_false_iff in Hex. rewrite Hex. by apply wp_ret.
Qed.
Lemma wp_device_loop n : ∀ d st, 0 ≤ d → d + Z.of_nat n = 32 → config st = c →
  (length (enumerated st) + length (seqZ d (Z.of_nat n) ≫= λ d, fns c b d ≫= listing c ref b d) ≤ 256)%nat →
  wp (device_loop go n b d) (λ _ st', grown (seqZ d (Z.of_nat n) ≫= λ d, fns c b d ≫= listing c ref b d) st st') st.
Proof.
  induction n as [|n IH]; intros d st Hd Hn Hc Hlen; cbn [device_loop]; [by apply wp_ret, grown_nil|].
  rewrite seqZ_cons in * by lia. replace (Z.succ d) with (d + 1) in * by lia.
  replace (Z.pred (Z.of_nat (S n))) with (Z.of_nat n) in * by lia. cbn [mbind list_bind] in *. rewrite length_app in Hlen.
  apply wp_bind. eapply wp_mono; [apply wp_enumerate_device; [lia|done|lia]|]. intros [] st1 Hg1.
  eapply wp_mono; [apply IH; [lia|lia|by rewrite (proj1 Hg1)|rewrite (proj2 Hg1), length_app; lia]|].
  intros [] st2 Hg2. by eapply grown_trans.
Qed.
End loops.

Lemma wp_enumerate_bus c : topology_ok c → ∀ fuel b st, 0 ≤ b < 256 → 256 - b ≤ Z.of_nat fuel → config st = c →
  (length (enumerated st) + length (bus_functions c fuel b) ≤ 256)%nat →
  wp (enumerate_bus fuel b) (λ _ st', grown (bus_functions c fuel b) st st') st.
Proof.
  intros Htop. induction fuel as [|fuel IH]; intros b st Hb Hfuel Hc Hlen; [lia|]. cbn [enumerate_bus bus_functions] in *.
  apply (wp_device_loop c _ (bus_functions c fuel) b Hb Htop); [|done|done|done|done].
  intros b' st' Hb' Hc' Hlen'. apply IH; [lia|lia|done|done].
Qed.
Lemma wp_host_loop c fuel n : topology_ok c → (256 ≤ fuel)%nat → ∀ f st, 0 ≤ f → f + Z.of_nat n = 8 → config st = c →
  exists_fn c 0 0 0 = true → (f ≠ 0 → multi_fn c 0 0 0 = true) →
  (length (enumerated st) + length (host_from c n f ≫= bus_functions c fuel) ≤ 256)%nat →
  wp (host_loop fuel n (multi_fn c 0 0 0) f) (λ _ st', grown (host_from c n f ≫= bus_functions c fuel) st st') st.
Proof.
  intros Htop Hfuel. induction n as [|n IH]; intros f st Hf Hn Hc Hex0 Hm Hlen; cbn [host_loop].
  { apply wp_ret. unfold host_from. rewrite Hm by lia. apply grown_nil. }
  apply wp_bind. unfold get_vendor_id. apply wp_read_config_word; [apply fn_reg_ok; lia|done|]. intros st1 Hg1. rewrite Hc.
  fold (vendor_of c 0 0 f). destruct (vendor_of c 0 0 f =? 0xFFFF) eqn:Hv.
  - assert (Hex : exists_fn c 0 0 f = false) by (unfold exists_fn; by rewrite Hv).
    assert (Hf0 : f ≠ 0) by congruence.
    rewrite host_from_skip in * by auto. eapply wp_mono; [apply IH; [lia|lia| |done|by intros _; apply Hm|]|].
    + by rewrite (proj1 Hg1).
    + by rewrite (proj2 Hg1), app_nil_r.
    + intros [] st2 Hg2. apply (grown_trans [] _ _ _ _ Hg1 Hg2).
  - assert (Hex : exists_fn c 0 0 f = true) by (unfold exists_fn; by rewrite Hv).
    rewrite host_from_keep in * by done. cbn [mbind list_bind] in *. rewrite length_app in Hlen.
    apply wp_bind. eapply wp_mono; [apply (wp_enumerate_bus c Htop); [lia|lia|by rewrite (proj1 Hg1)|]|].
    { rewrite (proj2 Hg1), app_nil_r. lia. }
    intros [] st2 Hg2. pose proof (grown_trans _ _ _ _ _ Hg1 Hg2) as Hg. cbn [app] in Hg.
    destruct (multi_fn c 0 0 0); cbn [negb].
    + eapply wp_mono; [apply IH; [lia|lia|by rewrite (proj1 Hg)|done|done|rewrite (proj2 Hg), length_app; lia]|].
      intros [] st3 Hg3. by eapply grown_trans.
    + apply wp_ret. cbn [mbind list_bind]. by rewrite app_nil_r.
Qed.
End proof.

(** The functions in the order they are found. *)
Definition found_functions (c : space) : list FuncDescriptor := host_fns c ≫= bus_functions c 256.

Lemma wp_enumerate_functions `{PciHost} st (Q : list FuncDescriptor → pci → Prop) : let c := config st in
  enumerated st = [] → topology_ok c → exists_fn c 0 0 0 = true → (length (all_functions c) ≤ 256)%nat →
  (∀ st', config st' = c → enumerated st' = found_functions c → Q (found_functions c) st') →
  wp (enumerate_functions 256) Q st.
Proof.
  intros c He Htop Hex Hlen HQ. unfold enumerate_functions at 1. apply wp_bind, wp_get. rewrite He. cbn [length Z.of_nat Z.ltb Z.compare].
  apply wp_bind, wp_read_config_byte; [by apply fn_reg_ok|]. intros st1 Hg1. fold c.
  change (negb (Z.land (cfg_byte c 0 0 0 14) 128 =? 0)) with (multi_fn c 0 0 0).
  unfold all_functions in *. rewrite host_from_all in Hlen by done.
  apply wp_bind. eapply wp_mono; [eapply (wp_host_loop c 256 8); [done|done|done|done|by rewrite (proj1 Hg1)|done|done|]|].
  { rewrite (proj2 Hg1), He. done. }
  intros [] st2 Hg2. rewrite <- host_from_all in Hg2 by done. pose proof (grown_trans _ _ _ _ _ Hg1 Hg2) as [Hc2 He2].
  rewrite He in He2. cbn [app] in He2. apply wp_bind, wp_get, wp_ret. rewrite He2. by apply HQ.
Qed.

Lemma found_functions_iff (c : space) b d f : topology_ok c → describe c b d f ∈ found_functions c ↔
  (∃ r, pci_fn c 0 0 r ∧ behind c r b) ∧ 0 ≤ d < 32 ∧ listed_fn c b d f.
Proof.
  intros Htop. unfold found_functions. rewrite list_elem_of_bind. split.
  - intros (r & Hx & Hr%host_fns_spec). apply bus_functions_sound in Hx as (b' & d' & f' & Hb & Hd & Hf & Heq). injection Heq as -> -> -> _.
    split; [by exists r|done].
  - intros ((r & Hr & Hb) & Hd & Hf). exists r. split; [|by apply host_fns_spec]. pose proof Hr as (_ & _ & Hr8 & _).
    apply bus_functions_complete; [done|done|lia|lia|done|done].
Qed.
(** C19: on a machine whose bridges lead to buses of higher numbers (and with
    no more functions than the table holds), [enumerate_functions] ends and
    returns exactly the functions of the buses that are a function of the
    host bridge or behind one and that the driver lists, each with what its
    configuration space says.  The driver lists a function of a device when
    function 0 is present and every present function below it has the
    multi-function bit; on a device whose functions agree on the bit these
    are the functions PCI defines, where the bit of function 0 counts.  A
    second call returns the same list without reading anything. *)
Theorem enumerate_functions_complete `{PciHost} st : let c := config st in
  enumerated st = [] → topology_ok c → exists_fn c 0 0 0 = true → (length (all_functions c) ≤ 256)%nat →
  wp (enumerate_functions 256) (λ l st', config st' = c ∧
    (∀ x, x ∈ l → ∃ b d f, x = describe c b d f) ∧
    (∀ b d f, describe c b d f ∈ l ↔ (∃ r, pci_fn c 0 0 r ∧ behind c r b) ∧ 0 ≤ d < 32 ∧ listed_fn c b d f) ∧
    (∀ b d, (∀ g, 0 ≤ g < 8 → exists_fn c b d g = true → multi_fn c b d g = multi_fn c b d 0) →
       ∀ f, listed_fn c b d f ↔ pci_fn c b d f) ∧
    wp (enumerate_functions 0) (λ l' st'', l' = l ∧ st'' = st') st') st.
Proof.
  intros c He Htop Hex Hlen. apply wp_enumerate_functions; [done..|]. intros st2 Hc2 He2. split; [done|].
  split; [|split; [intros b d f; by apply found_functions_iff|split; [intros b d Heq f; by apply listed_pci|]]].
  - intros x (r & Hx & _)%list_elem_of_bind. apply bus_functions_sound in Hx as (b' & d' & f' & _ & _ & _ & ->). eauto.
  - unfold enumerate_functions. apply wp_bind, wp_get. fold c in He2. rewrite He2. destruct (found_functions c) as [|x l] eqn:Hl.
    + exfalso. eapply (not_elem_of_nil (describe c 0 0 0)). rewrite <- Hl. apply found_functions_iff; [done|].
      split; [exists 0; split; [by apply host_fns_spec, host_fn_0|constructor]|]. split; [lia|by apply fn_0].
    + by apply wp_ret.
Qed.

(** ** A machine with an AHCI controller behind a bridge *)
#[export] Instance demo_host : PciHost := {| config_write c b d f r v b' d' f' r' :=
  if bool_decide ((b', d', f', r') = (b, d, f, r)) then v else c b' d' f' r' |}.
Definition demo_space : space := λ b d f r,
  if bool_decide ((b, d, f) = (0, 0, 0)) then nth (Z.to_nat r) [0x12378086; 0; 0x06000002; 0] 0
  else if bool_decide ((b, d, f) = (0, 3, 0)) then nth (Z.to_nat r) [0x00011B36; 0; 0x06040000; 0x00010000; 0; 0; 0x00010100] 0
  else if bool_decide ((b, d, f) = (1, 2, 0)) then nth (Z.to_nat r) [0x29228086; 0; 0x01060102; 0] 0
  else 0xFFFFFFFF.
Definition demo_pci : pci := Pci 0 demo_space [].
Lemma demo_topology : topology_ok demo_space.
Proof.
  intros b d f _ _ _. unfold exists_fn, vendor_of, is_bridge, class_of, multi_fn, header_of, secondary_of, cfg_word, cfg_byte, demo_space.
  repeat case_bool_decide; simplify_eq; vm_compute; naive_solver.
Qed.
Lemma enumerate_functions_complete_witness : ∃ l st', enumerate_functions 256 demo_pci = Ret (l, st') ∧
  FD 1 2 0 0x0106 0x8086 0x2922 ∈ l.
Proof.
  assert (Hw := enumerate_functions_complete demo_pci eq_refl demo_topology eq_refl ltac:(vm_compute; lia)).
  destruct (proj1 (wp_run _ _ _) Hw) as (l & st' & Heq & _ & _ & Hiff & _). exists l, st'. split; [exact Heq|].
  apply (Hiff 1 2 0). clear. split; [exists 0; split; [by apply host_fns_spec, host_fn_0|]|split; [lia|by apply fn_0]].
  apply (behind_bridge _ 0 3 0); [lia|by apply fn_0|done|constructor].
Defined.

(** A device with functions 0, 1 and 2 and the multi-function bit on function
    0 only, as PCI allows: the driver stops after function 1. *)
Definition hidden_space : space := λ b d f r,
  if bool_decide (b = 0 ∧ d = 0 ∧ f < 3) then nth (Z.to_nat r) [0x12378086; 0; 0x06000002; if f =? 0 then 0x00800000 else 0] 0
  else 0xFFFFFFFF.
Example third_function_hidden : pci_fn hidden_space 0 0 2 ∧
  (fd_function <$> filter (λ x, fd_bus x = 0) (found_functions hidden_space)) = [0; 1].
Proof. split; [split_and!; try (vm_compute; reflexivity); try lia; left; vm_compute; reflexivity|vm_compute; reflexivity]. Qed.
