(* ===== verification/AhciInit.v ===== *)
(** * Bringing up the AHCI controller

    Models [drivers::ahci::init] and the allocations of
    [rebase_port_memory] ([drivers/ahci.cc]), which tie four components
    together: the function is found in the list of [Pci.v] and enabled in
    its command register; its registers and the memory shared with it are
    mapped in the IO window by [io_alloc] and [ioremap] of [PageTable.v];
    the memory comes from the kernel heap; and the ports are pointed to it
    as in [Ahci.v].

    The registers are reached through the page tables: an access to them
    ([reg_access]) is a bad access unless the function answers memory
    accesses and the page of [abar] is mapped to the frame of its base
    address register; the memory shared with the controller is reached in
    the same way. *)
From S2P Require Import Prelude Algorithm BootProtocol Bitfield PageFrame MemoryMap Kmalloc Lru PageTable PageCache Ahci Pci.

(** ** [::operator new] of whole pages *)
Class BlockAllocator (S : Type) `{PA : PageAllocator S} := {
  bla_new : Z → M S Z;
  bla_new_spec : ∀ s live n, 0 < n < 2 ^ 19 → pga_inv s live →
    ∃ p s', bla_new (n * PG_SZ) s = Ret (p, s') ∧
      ((p = 0 ∧ pga_inv s' live) ∨
       (p mod PG_SZ = 0 ∧ hhdm_start ≤ p ∧ p + n * PG_SZ ≤ hhdm_start + hhdm_len ∧
        (∀ q, q ∈ block_pages p n → q ∉ live) ∧ pga_inv s' (block_pages p n ++ live))) }.

Section kheap_blocks.
Context {S : Type} `{FA : FrameAllocator S} (Hlimit : fa_limit * PG_SZ ≤ hhdm_len).
Definition kheap_block_allocator : BlockAllocator (kheap S) (PA := kheap_page_allocator Hlimit) :=
  Build_BlockAllocator (kheap S) (kheap_page_allocator Hlimit) kmalloc (kmalloc_pages Hlimit).
End kheap_blocks.

(** ** The machine as [init] sees it *)
Record machine (S : Type) := Machine {
  m_pci : pci;
  m_vm : vmem S;
  m_hba : ahci;
  g_cap : Z; g_ghc : Z; g_pi : Z;      (** [GlobalRegisters] *)
  abar : Z }.
Arguments Machine {S} m_pci m_vm m_hba g_cap g_ghc g_pi abar.
Arguments m_pci {S} _.
Arguments m_vm {S} _.
Arguments m_hba {S} _.
Arguments g_cap {S} _.
Arguments g_ghc {S} _.
Arguments g_pi {S} _.
Arguments abar {S} _.

Definition sizeof_GlobalRegisters : Z := 0x100.
Definition sizeof_PortRegisters : Z := 0x80.
(** [&abar->ports[max_port] + sizeof(abar->ports[max_port]) - abar] *)
Definition abar_sz (max_port : Z) : Z := sizeof_GlobalRegisters + (max_port + 1) * sizeof_PortRegisters.

Definition enable_command (command_reg : Z) : Z :=
  Z.land (Z.lor (Z.lor command_reg 0x02) 0x04) (wrap 16 (Z.lnot 0x0400)).
Definition enable_ghc (ghc : Z) : Z := Z.lor (Z.lor ghc 0x80000000) 0x02.

Section init.
Context {S : Type} `{BA : BlockAllocator S} `{PciHost} (eng : engine) (efuel : nat).

Definition with_pci (p : pci) (st : machine S) : machine S :=
  Machine p (m_vm st) (m_hba st) (g_cap st) (g_ghc st) (g_pi st) (abar st).
Definition with_vm (v : vmem S) (st : machine S) : machine S :=
  Machine (m_pci st) v (m_hba st) (g_cap st) (g_ghc st) (g_pi st) (abar st).
Definition with_hba (h : ahci) (st : machine S) : machine S :=
  Machine (m_pci st) (m_vm st) h (g_cap st) (g_ghc st) (g_pi st) (abar st).
Definition with_abar (a : Z) (st : machine S) : machine S :=
  Machine (m_pci st) (m_vm st) (m_hba st) (g_cap st) (g_ghc st) (g_pi st) a.
Definition with_ghc (g : Z) (st : machine S) : machine S :=
  Machine (m_pci st) (m_vm st) (m_hba st) (g_cap st) g (g_pi st) (abar st).
Definition modS (f : machine S → machine S) : M (machine S) unit := st ← getS; putS (f st).
Definition on_pci {A} (m : M pci A) : M (machine S) A := on_part m_pci with_pci m.
Definition on_vm {A} (m : M (vmem S) A) : M (machine S) A := on_part m_vm with_vm m.
Definition on_hba {A} (m : M ahci A) : M (machine S) A := on_part m_hba with_hba m.

(** The page of [va] is mapped to the frame of [phys]. *)
Definition reaches (v : vmem S) (va phys : Z) : bool :=
  match walk (mem v) (cr3 v + hhdm_start) va with
  | Some l => leaf_phys l va =? phys
  | None => false
  end.
Definition reg_access (fn : FuncDescriptor) : M (machine S) unit :=
  st ← getS;
  let c := config (m_pci st) (fd_bus fn) (fd_device fn) (fd_function fn) in
  if Z.testbit (c 1) 1 && reaches (m_vm st) (abar st) (u32 (c 9)) then mret tt else halt BadAccess.
(** The pages of the block of [n] pages at [virt] *)
Definition block_access (virt phys n : Z) : M (machine S) unit :=
  st ← getS;
  if forallb (λ i, reaches (m_vm st) (virt + i * PG_SZ) (phys + i * PG_SZ)) (seqZ 0 n) then mret tt else halt BadAccess.

Definition operator_new_block (sz : Z) : M (vmem S) Z :=
  st ← getS; '(p, h) ← liftO (bla_new sz (heap_st st)); _ ← putS (with_heap h st); mret p.

(** [rebase_port_memory], with its allocations *)
Definition alloc_port_memory (fn : FuncDescriptor) (max_port : Z) : M (machine S) bool :=
  _ ← assertM (max_port <? 32);
  let pg := Z.shiftr (alloc_sz max_port) PG_SZ_BITS in
  virt ← on_vm (io_alloc pg);
  _ ← modS (λ st, with_hba (set_virt_base virt (m_hba st)) st);
  if virt =? 0 then mret false
  else
    frames ← on_vm (operator_new_block (alloc_sz max_port));
    if frames =? 0 then mret false
    else
      phys ← liftO (hhdm_to_direct frames);
      _ ← modS (λ st, with_hba (set_phys_base phys (m_hba st)) st);
      ok ← on_vm (ioremap phys virt pg);
      if negb ok then mret false
      else
        _ ← block_access virt phys pg;
        _ ← reg_access fn;
        _ ← on_hba (rebase_port_memory eng efuel max_port virt phys);
        mret true.

Definition find_ahci (fns : list FuncDescriptor) : option FuncDescriptor := List.find (λ d, _class d =? 0x0106) fns.

Definition ahci_init (fns : list FuncDescriptor) : M (machine S) bool :=
  match find_ahci fns with
  | None => mret false
  | Some fn =>
    let '(b, d, f) := (fd_bus fn, fd_device fn, fd_function fn) in
    command_reg ← on_pci (read_config_word b d f 0x04);
    _ ← on_pci (write_config_register b d f 0x01 (enable_command command_reg));
    abar_phys ← on_pci (get_bar b d f 5);
    a ← on_vm (io_alloc 1);
    _ ← modS (with_abar a);
    if a =? 0 then mret false
    else
      ok ← on_vm (ioremap abar_phys a 1);
      if negb ok then mret false
      else
        _ ← reg_access fn;
        st ← getS;
        _ ← putS (with_ghc (enable_ghc (g_ghc st)) st);
        let max_port := max_port_of (g_pi st) in
        _ ← assertM (abar_sz max_port <=? PG_SZ);
        let num_ports := Z.land (g_cap st) 0x1F + 1 in
        n ← liftO (enumerate_ports (g_pi st) (ports (m_hba st)));
        _ ← assertM (n =? num_ports);
        alloc_port_memory fn max_port
  end.
End init.

(** ** The IO window *)
Section window.
Context {S : Type} `{PA : PageAllocator S}.
Implicit Types (v : vmem S) (live : list Z).

(** What [io_alloc] has not handed out yet is not mapped. *)
Record vm_ready v live : Prop := {
  vr_wf : vm_wf v live;
  vr_off : 0 ≤ io_region_offset v ∧ io_region_offset v mod PG_SZ = 0;
  vr_free : ∀ x, io_map_start + io_region_offset v ≤ x < io_map_start + io_map_sz → vwalk v x = None }.

Definition io_word (phys : Z) : Z := pte_user phys false true true.
(** [n] pages of the window from [off] on are mapped to the frames from
    [phys] on, and nothing else changes. *)
Definition io_mapped v v' (off n phys : Z) : Prop := ∀ x, 0 ≤ x < 2 ^ 32 →
  vwalk v' x = let k := x / PG_SZ - (io_map_start + off) / PG_SZ in
    if decide (0 ≤ k < n) then Some (false, io_word (phys + k * PG_SZ)) else vwalk v x.

Lemma window_numbers : PG_SZ = 4096 ∧ io_map_sz = 0x400000 ∧ io_map_start = 0xFDC00000 ∧ hhdm_start = 0xC0000000 ∧ hhdm_len = 0x3DC00000.
Proof. done. Qed.

Lemma wp_io_alloc v pg (Q : Z → vmem S → Prop) : 0 ≤ io_region_offset v → 0 ≤ pg → io_region_offset v + pg * PG_SZ ≤ io_map_sz →
  Q (io_map_start + io_region_offset v) (VMem (heap_st v) (cr3 v) (mem v) (tlb v) (io_region_offset v + pg * PG_SZ)) →
  wp (io_alloc pg) Q v.
Proof.
  intros Ho Hpg Hle HQ. destruct window_numbers as (E1 & E2 & E3 & _). unfold io_alloc. apply wp_bind, wp_get.
  rewrite shiftl_pg, !(wrap_small 32 (pg * PG_SZ)), !(wrap_small 32 (_ + pg * _)) by lia.
  rewrite (proj2 (Z.ltb_ge _ _)) by lia. apply wp_bind, wp_put, wp_ret. by rewrite wrap_small by lia.
Qed.

Lemma io_mapped_of v v' off n phys : range_mapped v v' (io_map_start + off) (ioremap_words phys n) →
  io_mapped v v' off (Z.of_nat n) phys.
Proof.
  intros Hr x Hx. rewrite (Hr x Hx). cbv zeta. unfold ioremap_words. rewrite length_fmap, length_seq.
  case_decide as Hk; [|done]. rewrite list_lookup_fmap, lookup_seq_lt by lia.
  cbn [fmap option_fmap option_map mbind option_bind]. rewrite Nat.add_0_l, Z2Nat.id by lia. reflexivity.
Qed.

Lemma wp_io_map v live off phys n (Q : bool → vmem S → Prop) : vm_wf v live →
  0 ≤ off → off mod PG_SZ = 0 → 0 < n → io_region_offset v = off + n * PG_SZ → off + n * PG_SZ ≤ io_map_sz →
  0 ≤ phys → phys mod PG_SZ = 0 → phys + n * PG_SZ ≤ 2 ^ 32 →
  (∀ x, io_map_start + off ≤ x < io_map_start + io_map_sz → vwalk v x = None) →
  (∀ v' live', vm_ready v' live' → live ⊆ live' → io_region_offset v' = off + n * PG_SZ → io_mapped v v' off n phys →
     takes (Z.to_nat n) (heap_st v) (heap_st v') → Q true v') →
  (∀ v', ¬ serves (Z.to_nat n) (heap_st v) → Q false v') → wp (ioremap phys (io_map_start + off) n) Q v.
Proof.
  intros Hwf Ho Hom Hn Hoff Hend Hp Hpal Hpe Hfree Hok Hno. destruct window_numbers as (E1 & E2 & E3 & _).
  assert (Hal : (io_map_start + off) mod PG_SZ = 0).
  { rewrite Zplus_mod, Hom. change (io_map_start mod PG_SZ) with 0. done. }
  destruct (ioremap_maps v live phys (io_map_start + off) n Hwf ltac:(lia) ltac:(lia) Hal Hp Hpal ltac:(lia) ltac:(lia))
    as (b & v' & m & live' & Hrun & Hwf' & Hsub & (Hr1 & Hr2 & Hr3) & Hmap & Htk & Hres).
  { intros i Hi w. rewrite Hfree by lia. done. }
  apply wp_run. exists b, v'. split; [exact Hrun|]. apply io_mapped_of in Hmap. destruct b.
  - rewrite Hres in Hmap. apply (Hok v' live'); [|done|congruence|done|done]. split; [done|rewrite Hr3, Hoff, Z.mod_add by lia; lia|].
    intros x Hx. rewrite Hr3, Hoff in Hx. rewrite Hmap by lia. cbv zeta. rewrite decide_False; [apply Hfree; lia|].
    intros Hk. pose proof (Z.mod_pos_bound x PG_SZ ltac:(lia)). pose proof (Z.div_mod x PG_SZ ltac:(lia)).
    pose proof (Z.div_mod (io_map_start + off) PG_SZ ltac:(lia)). rewrite E1 in *. lia.
  - apply Hno. destruct Hres as [Hm [[l Hl]|H]]; [|done]. rewrite Hfree in Hl by lia. done.
Qed.

Lemma io_word_phys phys : 0 ≤ phys < 2 ^ 32 → phys mod PG_SZ = 0 → Z.shiftl (fget PTE.addr (io_word phys)) 12 = phys.
Proof.
  intros Hp Hal. destruct (pte_user_fields phys false true true) as (_ & _ & _ & _ & Ha). unfold io_word. rewrite Ha.
  change PG_SZ with (2 ^ 12) in Hal. rewrite Z.mod_small, Z.shiftl_mul_pow2 by (Z.div_mod_to_equations; lia).
  pose proof (Z.div_mod phys (2 ^ 12) ltac:(lia)). lia.
Qed.
Lemma reaches_word v va phys : vwalk v va = Some (false, io_word phys) → 0 ≤ phys < 2 ^ 32 → phys mod PG_SZ = 0 → va mod PG_SZ = 0 →
  reaches v va phys = true.
Proof.
  intros Hw Hp Hal Hv. unfold reaches. unfold vwalk, cur_dir in Hw. rewrite Hw. unfold leaf_phys. cbn [fst snd].
  rewrite io_word_phys by done. change (va mod 2 ^ 12) with (va mod PG_SZ). rewrite Hv. apply Z.eqb_eq. lia.
Qed.
Lemma io_mapped_page v v' off n phys i : io_mapped v v' off n phys → 0 ≤ off → off mod PG_SZ = 0 → off + n * PG_SZ ≤ io_map_sz →
  0 ≤ i < n → vwalk v' (io_map_start + off + i * PG_SZ) = Some (false, io_word (phys + i * PG_SZ)).
Proof.
  intros Hm Ho Hom Hend Hi. destruct window_numbers as (E1 & E2 & E3 & _). rewrite Hm by lia. cbv zeta.
  rewrite Z.div_add by lia. rewrite decide_True by lia.
  by replace ((io_map_start + off) / PG_SZ + i - (io_map_start + off) / PG_SZ) with i by lia.
Qed.
Lemma io_mapped_other v v' off n phys x : io_mapped v v' off n phys → 0 ≤ off ≤ io_map_sz → off mod PG_SZ = 0 →
  0 ≤ x < io_map_start + off → vwalk v' x = vwalk v x.
Proof.
  intros Hm Ho Hom Hx. destruct window_numbers as (E1 & E2 & E3 & _). rewrite Hm by lia. cbv zeta.
  rewrite decide_False; [done|]. intros [Hk _]. assert (x / PG_SZ < (io_map_start + off) / PG_SZ); [|lia].
  assert ((io_map_start + off) mod PG_SZ = 0) by (by rewrite Zplus_mod, Hom).
  apply Z.div_lt_upper_bound; [lia|]. rewrite <- (proj2 (Z.div_exact _ PG_SZ ltac:(lia))) by done. lia.
Qed.
End window.

Section bring_up.
Context {S : Type} `{BA : BlockAllocator S} `{PciHost} (eng : engine) (efuel : nat).
Implicit Types (st : machine S) (live : list Z).

(** From [h] on, the heap grants a block of [sz] bytes and then the page
    tables to map its pages, one each at most. *)
Definition block_granted (sz : Z) (h : S) : Prop := ∃ p h', bla_new sz h = Ret (p, h') ∧ p ≠ 0 ∧ serves (Z.to_nat (sz / PG_SZ)) h'.
(** [init] first maps the page of the registers, which takes one page table
    or none. *)
Definition memory_granted (sz : Z) (h : S) : Prop := serves 1 h ∧ ∀ h1, takes 1 h h1 → block_granted sz h1.

Lemma wp_operator_new_block v live n (Q : Z → vmem S → Prop) : vm_wf v live → 0 < n < 2 ^ 19 →
  (∀ h, bla_new (n * PG_SZ) (heap_st v) = Ret (0, h) → Q 0 (with_heap h v)) →
  (∀ d h, 0 ≤ d → d mod PG_SZ = 0 → d + n * PG_SZ ≤ hhdm_len → (∀ i, 0 ≤ i < n → d + hhdm_start + i * PG_SZ ∉ live) →
     vm_wf (with_heap h v) (block_pages (d + hhdm_start) n ++ live) →
     bla_new (n * PG_SZ) (heap_st v) = Ret (d + hhdm_start, h) → Q (d + hhdm_start) (with_heap h v)) →
  wp (operator_new_block (n * PG_SZ)) Q v.
Proof.
  intros Hwf Hn H0 H1. unfold operator_new_block. apply wp_bind, wp_get, wp_bind.
  destruct (bla_new_spec _ _ n Hn (proj1 Hwf)) as (p & h & Heq & Hp). eapply wp_lift; [exact Heq|].
  cbn match. apply wp_bind, wp_put, wp_ret. destruct window_numbers as (E1 & _ & _ & E4 & _).
  destruct Hp as [[-> Hh]|(Hal & Hlo & Hhi & Hfresh & Hh)]; [by apply H0|].
  replace p with ((p - hhdm_start) + hhdm_start) in Hfresh, Hh, Heq |- * by lia. apply H1; [lia| |lia| | |exact Heq].
  - rewrite Zminus_mod, Hal. change (hhdm_start mod PG_SZ) with 0. done.
  - intros i Hi. apply Hfresh. apply list_elem_of_fmap. exists i. split; [done|]. apply elem_of_seqZ. lia.
  - eapply vm_wf_heap; [done|exact Hh|]. intros a Ha. apply elem_of_app. by right.
Qed.

(** The registers are where [abar] says. *)
Record regs_mapped st (fn : FuncDescriptor) (bar : Z) : Prop := {
  rm_decode : Z.testbit (config (m_pci st) (fd_bus fn) (fd_device fn) (fd_function fn) 1) 1 = true;
  rm_bar : u32 (config (m_pci st) (fd_bus fn) (fd_device fn) (fd_function fn) 9) = bar ∧ 0 ≤ bar < 2 ^ 32 ∧ bar mod PG_SZ = 0;
  rm_page : abar st mod PG_SZ = 0 ∧ vwalk (m_vm st) (abar st) = Some (false, io_word bar) }.
Lemma wp_reg_access st fn bar (Q : unit → machine S → Prop) : regs_mapped st fn bar → Q tt st → wp (reg_access fn) Q st.
Proof.
  intros [Hd (Hb & Hr & Hal) [Ha Hw]] HQ. unfold reg_access. apply wp_bind, wp_get. rewrite Hd, Hb, (reaches_word _ _ bar) by done.
  by apply wp_ret.
Qed.
Lemma wp_block_access st v off n phys (Q : unit → machine S → Prop) : io_mapped v (m_vm st) off n phys → 0 ≤ off →
  off mod PG_SZ = 0 → off + n * PG_SZ ≤ io_map_sz → 0 ≤ phys → phys mod PG_SZ = 0 → phys + n * PG_SZ ≤ 2 ^ 32 →
  Q tt st → wp (block_access (io_map_start + off) phys n) Q st.
Proof.
  intros Hm Ho Hom Hend Hp Hal Hpe HQ. unfold block_access. apply wp_bind, wp_get.
  destruct (forallb _ _) eqn:Hf; [by apply wp_ret|]. exfalso. apply not_true_iff_false in Hf. apply Hf, forallb_forall.
  intros i Hi%list_elem_of_In%elem_of_seqZ. destruct window_numbers as (E1 & _).
  apply reaches_word; [apply (io_mapped_page v _ off n phys i Hm); (done || lia)|lia| |].
  - rewrite Z.mod_add by lia. done.
  - rewrite Z.mod_add by lia. rewrite Zplus_mod, Hom. done.
Qed.

(** The ports are given the block at [virt], made of frames that were free. *)
Definition memory_given (mp virt : Z) live st st' : Prop := ∃ phys,
  0 < phys ∧ phys mod PG_SZ = 0 ∧ phys + alloc_sz mp ≤ hhdm_len ∧
  (∀ i, 0 ≤ i * PG_SZ < alloc_sz mp →
    (phys + hhdm_start + i * PG_SZ ∉ live) ∧ vwalk (m_vm st') (virt + i * PG_SZ) = Some (false, io_word (phys + i * PG_SZ))) ∧
  rebased_from eng efuel phys virt mp 0
    (Ahci (ports (m_hba st)) (cleared_headers phys mp) (cleared_tables phys mp) (dram (m_hba st)) virt phys) (m_hba st').

(** The window is ready for the next caller, [n] bytes further; the memory
    of the ports is in use. *)
Definition vm_advanced live st st' (n : Z) : Prop :=
  io_region_offset (m_vm st') = io_region_offset (m_vm st) + n ∧
  ∃ live', vm_ready (m_vm st') live' ∧ live ⊆ live' ∧ ∀ p, port_page (m_hba st') p → p + hhdm_start ∈ live'.

Lemma wp_alloc_port_memory st live fn bar mp : vm_ready (m_vm st) live → hhdm_start ∈ live → 0 < mp < 32 →
  io_region_offset (m_vm st) + alloc_sz mp ≤ io_map_sz → regs_mapped st fn bar →
  0 ≤ abar st < io_map_start + io_region_offset (m_vm st) → (Z.to_nat mp ≤ length (ports (m_hba st)))%nat →
  engines_stop eng efuel mp →
  wp (alloc_port_memory eng efuel fn mp) (λ ok st', m_pci st' = m_pci st ∧ g_ghc st' = g_ghc st ∧ abar st' = abar st ∧
    if ok then regs_mapped st' fn bar ∧ memory_given mp (io_map_start + io_region_offset (m_vm st)) live st st' ∧
      vm_advanced live st st' (alloc_sz mp) else ¬ block_granted (alloc_sz mp) (heap_st (m_vm st))) st.
Proof.
  intros [Hwf [Ho Hom] Hfree] H0 Hmp Hend Hregs Hab Hlen Heng. destruct window_numbers as (E1 & E2 & E3 & E4 & E5).
  destruct (alloc_sz_ge mp ltac:(lia)) as [Hsz Hsm]. set (off := io_region_offset (m_vm st)) in *.
  unfold alloc_port_memory. apply wp_bind, wp_assert; [lia|].
  set (n := Z.shiftr (alloc_sz mp) PG_SZ_BITS). assert (Hn : alloc_sz mp = n * PG_SZ).
  { unfold n. rewrite Z.shiftr_div_pow2 by done. change (2 ^ PG_SZ_BITS) with PG_SZ.
    rewrite Z.mul_comm. apply Z.div_exact; [done|done]. }
  rewrite Hn in *. apply wp_bind, wp_on_part, wp_io_alloc; [done|lia|done|]. fold off.
  apply wp_bind, wp_bind, wp_get, wp_put. rewrite (proj2 (Z.eqb_neq _ _)) by lia.
  apply wp_bind, wp_on_part. eapply (wp_operator_new_block _ live n); [exact Hwf|lia| |].
  { intros h Hno. apply wp_ret. split_and!; [done..|]. intros (p & h' & Hp & Hp0 & _). cbn [m_vm with_hba with_vm heap_st] in Hno. congruence. }
  intros d h Hd Hdm Hde Hfr Hwf1 Hgot. rewrite (proj2 (Z.eqb_neq _ _)) by lia.
  assert (Hd0 : d ≠ 0). { intros ->. apply (Hfr 0 ltac:(lia)). by replace (0 + hhdm_start + 0 * PG_SZ) with hhdm_start by lia. }
  apply wp_bind. eapply wp_lift; [apply hhdm_to_direct_eq; lia|]. apply wp_bind, wp_bind, wp_get, wp_put.
  apply wp_bind, wp_on_part. cbn [m_vm with_hba with_vm].
  eapply (wp_io_map _ _ off d n); [exact Hwf1|done|done|lia|done|done|done|done|lia|exact Hfree| |].
  2:{ intros v' Hno. apply wp_ret. split_and!; [done..|]. intros (p & h' & Hp & _ & Hs). apply Hno.
      cbn [m_vm with_hba with_vm heap_st with_heap] in Hgot |- *. rewrite Z.div_mul in Hs by lia. congruence. }
  intros v' live' Hvr Hsub Hoff Hmap _. cbn [negb]. apply wp_bind. eapply (wp_block_access _ _ off n d); [exact Hmap|done|done|done|done|done|lia|].
  set (st1 := with_vm v' _).
  assert (Hregs1 : regs_mapped st1 fn bar).
  { destruct Hregs as [R1 R2 [R3 R4]]. split; [done|done|]. split; [done|].
    rewrite <- R4. apply (io_mapped_other _ _ _ _ _ _ Hmap); [lia|done|done]. }
  apply wp_bind. eapply wp_reg_access; [exact Hregs1|]. apply wp_bind, wp_on_part.
  eapply wp_mono; [apply (wp_rebase_port_memory eng efuel d (io_map_start + off) mp); [lia|lia|lia|lia|done|done]|].
  intros [] hba Hrb. apply wp_ret. do 3 (split; [done|]). split.
  - destruct Hregs1 as [R1 R2 R3]. by split.
  - split; [|split; [exact Hoff|exists live'; split; [exact Hvr|split; [intros a Ha; apply Hsub, elem_of_app; by right|]]]].
    2:{ intros q Hq. destruct (port_page_in_block eng efuel d (io_map_start + off) mp (m_hba st) hba q ltac:(lia) ltac:(lia) Hdm Hrb Hq) as (i & Hi & ->).
        apply Hsub, elem_of_app. left. apply list_elem_of_fmap. exists i. split; [lia|]. apply elem_of_seqZ. rewrite Hn in Hi. lia. }
    exists d. split; [lia|]. split; [done|]. split; [lia|]. split; [|exact Hrb]. intros i Hi.
    split; [apply Hfr; lia|]. apply (io_mapped_page _ _ _ _ _ _ Hmap); (done || lia).
Qed.

(** What the driver relies on of a write to the command register: the bits
    it sets and clears are read back, and the base address stays. *)
Definition command_writes (c : space) (fn : FuncDescriptor) : Prop := ∀ v,
  let c' := config_write c (fd_bus fn) (fd_device fn) (fd_function fn) 1 v (fd_bus fn) (fd_device fn) (fd_function fn) in
  (∀ k, k = 1 ∨ k = 2 ∨ k = 10 → Z.testbit (c' 1) k = Z.testbit v k) ∧
  c' 9 = c (fd_bus fn) (fd_device fn) (fd_function fn) 9.
Definition fn_ok (fn : FuncDescriptor) : Prop := 0 ≤ fd_bus fn < 256 ∧ 0 ≤ fd_device fn < 32 ∧ 0 ≤ fd_function fn < 8.
(** Memory accesses and bus mastering are on, interrupts are not masked. *)
Definition command_enabled (c : space) (fn : FuncDescriptor) : Prop :=
  let w := c (fd_bus fn) (fd_device fn) (fd_function fn) 1 in
  Z.testbit w 1 = true ∧ Z.testbit w 2 = true ∧ Z.testbit w 10 = false.

Lemma enable_command_bits r : Z.testbit (enable_command r) 1 = true ∧ Z.testbit (enable_command r) 2 = true ∧
  Z.testbit (enable_command r) 10 = false.
Proof. unfold enable_command. rewrite !Z.land_spec, !Z.lor_spec. simpl. rewrite ?orb_true_r, ?andb_false_r. done. Qed.

Lemma enable_ghc_bits g : Z.testbit (enable_ghc g) 31 = true ∧ Z.testbit (enable_ghc g) 1 = true.
Proof. unfold enable_ghc. rewrite !Z.lor_spec. simpl. by rewrite !orb_true_r. Qed.

Lemma wp_ahci_init st live fns fn p : find_ahci fns = Some fn → fn_ok fn → command_writes (config (m_pci st)) fn →
  let bar := u32 (config (m_pci st) (fd_bus fn) (fd_device fn) (fd_function fn) 9) in
  let mp := max_port_of (g_pi st) in
  let virt := io_map_start + io_region_offset (m_vm st) in
  bar mod PG_SZ = 0 → vm_ready (m_vm st) live → hhdm_start ∈ live →
  0 < mp ≤ 29 → io_region_offset (m_vm st) + PG_SZ + alloc_sz mp ≤ io_map_sz →
  enumerate_ports (g_pi st) (ports (m_hba st)) = Ret (Z.land (g_cap st) 0x1F + 1) → (Z.to_nat mp ≤ length (ports (m_hba st)))%nat →
  ports (m_hba st) !! 0%nat = Some p → Z.testbit (sact p) 0 = false → Z.testbit (ci p) 0 = false → engines_stop eng efuel mp →
  wp (ahci_init eng efuel fns) (λ ok st', command_enabled (config (m_pci st')) fn ∧
    if ok then
      abar st' = virt ∧ vwalk (m_vm st') virt = Some (false, io_word bar) ∧
      Z.testbit (g_ghc st') 31 = true ∧ Z.testbit (g_ghc st') 1 = true ∧
      memory_given mp (virt + PG_SZ) live st st' ∧ port_ready (m_hba st') 0 ∧
      vm_advanced live st st' (PG_SZ + alloc_sz mp)
    else ¬ memory_granted (alloc_sz mp) (heap_st (m_vm st))) st.
Proof.
  intros Hfn (Hb & Hd & Hf) Hcw bar mp virt Hbal Hvr H0 Hmp Hend Hen Hlen Hp Hs Hc Heng.
  destruct window_numbers as (E1 & E2 & E3 & E4 & E5). unfold ahci_init. rewrite Hfn.
  destruct (alloc_sz_ge mp ltac:(lia)) as [Hsz _]. pose proof Hvr as [Hwf [Ho Hom] Hfree]. set (off := io_region_offset (m_vm st)) in *.
  apply wp_bind, wp_on_part, wp_read_config_word; [by apply fn_reg_ok|done|]. intros p1 [Hc1 _]. cbn [m_pci with_pci].
  apply wp_bind, wp_on_part, wp_write_config_register; [done|]. cbn [m_pci with_pci config]. rewrite Hc1.
  set (cmd := enable_command _). destruct (Hcw cmd) as [Hbits Hbar].
  apply wp_bind, wp_on_part. unfold get_bar. apply wp_bind, wp_assert; [done|]. apply wp_read_config_register; [done|].
  intros p2 [Hc2 _]. cbn [m_pci with_pci config] in *. change (4 + 5) with 9. rewrite Hbar. fold bar.
  assert (Hce : command_enabled (config p2) fn).
  { rewrite Hc2. unfold command_enabled. cbv zeta. rewrite !Hbits by auto. apply enable_command_bits. }
  apply wp_bind, wp_on_part, wp_io_alloc; [done|lia|cbn [m_vm with_pci]; fold off; lia|]. fold off. cbn [m_vm with_pci with_vm].
  apply wp_bind, wp_bind, wp_get, wp_put. rewrite (proj2 (Z.eqb_neq _ _)) by lia.
  apply wp_bind, wp_on_part. cbn [m_vm with_abar with_vm with_pci].
  eapply (wp_io_map _ live off bar 1); [exact Hwf|done|done|lia|done|lia|apply Z.mod_pos_bound; lia|done| |exact Hfree| |].
  { pose proof (Z.mod_pos_bound (config (m_pci st) (fd_bus fn) (fd_device fn) (fd_function fn) 9) (2 ^ 32) ltac:(lia)) as Hr.
    change (_ mod _) with bar in Hr. pose proof (Z.div_mod bar PG_SZ ltac:(lia)). rewrite E1 in *. lia. }
  2:{ intros v' Hno. apply wp_ret. split; [exact Hce|]. intros [Hsv _]. exact (Hno Hsv). }
  intros v' live' Hvr' Hsub Hoff' Hmap Htk. cbn [negb].
  pose proof (io_mapped_page _ _ _ _ _ 0 Hmap Ho Hom ltac:(lia) ltac:(lia)) as Hw. rewrite Z.mul_0_l, !Z.add_0_r in Hw.
  set (st1 := with_vm v' _).
  assert (Hregs : regs_mapped st1 fn bar).
  { split; [simpl; by apply Hce|simpl; rewrite Hc2|]; cbn [config].
    - rewrite Hbar. split; [done|]. split; [apply Z.mod_pos_bound; lia|done].
    - unfold st1. cbn [abar m_vm with_vm with_abar]. fold off. split; [by rewrite Zplus_mod, Hom|exact Hw]. }
  apply wp_bind. eapply wp_reg_access; [exact Hregs|]. apply wp_bind, wp_get, wp_bind, wp_put.
  apply wp_bind, wp_assert; [apply Z.leb_le; unfold abar_sz, sizeof_GlobalRegisters, sizeof_PortRegisters; simpl; fold mp; lia|].
  apply wp_bind. eapply wp_lift; [exact Hen|]. apply wp_bind, wp_assert; [apply Z.eqb_refl|].
  set (st2 := with_ghc _ _).
  assert (Hregs2 : regs_mapped st2 fn bar) by (destruct Hregs; by split).
  eapply wp_mono; [eapply (wp_alloc_port_memory st2 live' fn bar mp); try done; [by apply Hsub|lia|simpl; lia|simpl; lia]|].
  intros ok st' (Hpci & Hghc & Habar & Hres). rewrite Hpci. split; [exact Hce|]. destruct ok; [|intros [_ Hg]; apply Hres; apply Hg; exact Htk].
  destruct Hres as ([_ _ [_ Hwalk]] & (phys & Hp0 & Hpal & Hpe & Hpg & Hrb) & Hadv & live2 & Hvr2 & Hsub2 & Hpp2). rewrite Habar in *. simpl in Hwalk, Hpg, Hrb, Hadv.
  rewrite Hghc. split; [done|]. split; [done|]. split; [exact (proj1 (enable_ghc_bits _))|].
  split; [exact (proj2 (enable_ghc_bits _))|].
  assert (Hvm : vm_advanced live st st' (PG_SZ + alloc_sz mp)).
  { split; [rewrite Hadv, Hoff'; fold off; lia|]. exists live2. split; [done|]. split; [by etransitivity|done]. }
  replace (io_map_start + io_region_offset v') with (virt + PG_SZ) in * by (unfold virt; lia). split; [|split; [|exact Hvm]].
  - exists phys. split; [done|]. split; [done|]. split; [done|]. split; [|exact Hrb]. intros i Hi. destruct (Hpg i Hi) as [Hnl Hwi].
    split; [|exact Hwi]. intros Hl. by apply Hnl, Hsub.
  - eapply (rebased_ready eng efuel phys (virt + PG_SZ) mp Hp0 ltac:(lia) (m_hba st)); [lia|exact Hp|done|done|exact Hrb].
Qed.

(** C13: on a machine whose AHCI function has a page-aligned base address
    and 1 to 29 ports, as many as its capabilities say, [ahci::init] leaves
    memory accesses, bus mastering and interrupts enabled in the command
    register.  It succeeds unless the heap, from the state [init] finds it
    in, refuses a page table for the registers, the block of the ports or a
    page table for each page of the block.  Then the registers are mapped
    uncacheable at the next page of the IO window, AHCI mode and interrupts
    are on, the ports have their memory in frames that were free, mapped
    uncacheable behind the registers, and an idle port 0 is ready for a
    command. *)
Theorem ahci_init_brings_up st live fns fn p : find_ahci fns = Some fn → fn_ok fn → command_writes (config (m_pci st)) fn →
  let bar := u32 (config (m_pci st) (fd_bus fn) (fd_device fn) (fd_function fn) 9) in
  let mp := max_port_of (g_pi st) in
  let virt := io_map_start + io_region_offset (m_vm st) in
  bar mod PG_SZ = 0 → vm_ready (m_vm st) live → hhdm_start ∈ live →
  0 < mp ≤ 29 → io_region_offset (m_vm st) + PG_SZ + alloc_sz mp ≤ io_map_sz →
  enumerate_ports (g_pi st) (ports (m_hba st)) = Ret (Z.land (g_cap st) 0x1F + 1) → (Z.to_nat mp ≤ length (ports (m_hba st)))%nat →
  ports (m_hba st) !! 0%nat = Some p → Z.testbit (sact p) 0 = false → Z.testbit (ci p) 0 = false → engines_stop eng efuel mp →
  wp (ahci_init eng efuel fns) (λ ok st', command_enabled (config (m_pci st')) fn ∧
    if ok then
      abar st' = virt ∧ vwalk (m_vm st') virt = Some (false, io_word bar) ∧
      Z.testbit (g_ghc st') 31 = true ∧ Z.testbit (g_ghc st') 1 = true ∧
      memory_given mp (virt + PG_SZ) live st st' ∧ port_ready (m_hba st') 0
    else ¬ memory_granted (alloc_sz mp) (heap_st (m_vm st))) st.
Proof.
  intros Hfn Hok Hcw bar mp virt Hbal Hvr H0 Hmp Hend Hen Hlen Hp Hs Hc Heng.
  eapply wp_mono; [by eapply (wp_ahci_init st live fns fn p)|]. intros ok st' [Hce Hres]. split; [exact Hce|].
  destruct ok; [|exact Hres]. destruct Hres as (? & ? & ? & ? & ? & ? & _). by split_and!.
Qed.
End bring_up.

(** ** A machine with one port, 16 frames, the first two in use *)
Definition init_pfa : SimplePFA := PFA (PFD true false :: PFD true false :: replicate 14 (PFD false false)) 0 0x10000 2 2.
Lemma init_pfa_inv : fa_inv (FrameAllocator := simple_pfa_allocator 16) init_pfa.
Proof. split; [unfold pfa_wf; split_and!; vm_compute; done|vm_compute; done]. Qed.
Lemma init_limit : fa_limit (FrameAllocator := simple_pfa_allocator 16) * PG_SZ ≤ hhdm_len.
Proof. vm_compute. done. Qed.
#[local] Instance init_pages : PageAllocator (kheap SimplePFA) := kheap_page_allocator (FA := simple_pfa_allocator 16) init_limit.
#[local] Instance init_blocks : BlockAllocator (kheap SimplePFA) := kheap_block_allocator (FA := simple_pfa_allocator 16) init_limit.

Definition init_vm : vmem (kheap SimplePFA) := VMem (KHeap 0 (Some init_pfa)) 0x1000 {[0xC0001000 := zero_page]} ∅ 0.
Definition init_live : list Z := [0xC0000000; 0xC0001000].
Lemma init_vm_wf : vm_wf init_vm init_live.
Proof.
  split; [|split; [|split; [vm_compute; done|exact demo_dir_wf]]].
  - exists [(0xC0000000, 2 * PG_SZ)]. split.
    + split; [apply init_pfa_inv|]. split; [|split; [repeat constructor|done]].
      apply Forall_singleton. split_and!; [vm_compute; done..|]. intros x Hx _ d Hd. simpl in Hx.
      change hhdm_start with 0xC0000000 in Hd. change PG_SZ with 4096 in *.
      assert ((x - 0xC0000000) / 4096 = 0 ∨ (x - 0xC0000000) / 4096 = 1) as [E|E] by (Z.div_mod_to_equations; lia);
        rewrite E in Hd; by injection Hd as <-.
    + intros p Hp. eexists. split; [left|]. cbn [fst snd]. change PG_SZ with 4096.
      apply elem_of_cons in Hp as [->|Hp]; [lia|]. apply list_elem_of_singleton in Hp as ->. lia.
  - intros a [t Ha]. change (mem init_vm) with ({[0xC0001000 := zero_page]} : gmap Z page) in Ha.
    apply lookup_singleton_Some in Ha as [<- _]. right. left.
Qed.
Lemma init_vm_ready : vm_ready init_vm init_live.
Proof.
  split; [exact init_vm_wf|by vm_compute|]. intros x Hx. apply demo_vwalk.
  change io_map_start with 0xFDC00000 in Hx. change io_map_sz with 0x400000 in Hx. simpl in Hx. lia.
Qed.

(** The function of [demo_space] with its registers at 0xFEBD5000 *)
Definition init_space : space := λ b d f r,
  if bool_decide ((b, d, f, r) = (1, 2, 0, 9)) then 0xFEBD5000 else demo_space b d f r.
Definition init_fn : FuncDescriptor := FD 1 2 0 0x0106 0x8086 0x2922.
Definition init_machine : machine (kheap SimplePFA) :=
  Machine (Pci 0 init_space []) init_vm (Ahci [demo_port] ∅ ∅ (λ _, 0) 0 0) 0 0 1 0.

(** The heap of this machine grants what [init] asks for. *)
Ltac granted := eexists _, _; split; [vm_compute; reflexivity|]; split; [discriminate|]; vm_compute; split_and!; (discriminate || exact I).
Example init_memory_granted : memory_granted (alloc_sz 1) (heap_st (m_vm init_machine)).
Proof.
  split; [vm_compute; split; [discriminate|exact I]|]. intros h1 [->|(p & s1 & Hn & [->|[]])]; [granted|].
  vm_compute in Hn. injection Hn as _ <-. granted.
Qed.

Lemma ahci_init_brings_up_witness : ∃ st', ahci_init demo_engine 2 [FD 0 0 0 0x0600 0x8086 0x1237; init_fn] init_machine = Ret (true, st') ∧
  vwalk (m_vm st') io_map_start = Some (false, io_word 0xFEBD5000) ∧ port_ready (m_hba st') 0.
Proof.
  assert (Hcw : command_writes (config (m_pci init_machine)) init_fn).
  { intros v. split; [|reflexivity]. intros k _. reflexivity. }
  assert (Hok : fn_ok init_fn) by (repeat split; simpl; lia).
  assert (Hlive : hhdm_start ∈ init_live) by left.
  assert (Hmp : 0 < max_port_of (g_pi init_machine) ≤ 29) by (vm_compute; split; [reflexivity|discriminate]).
  assert (Hend : io_region_offset (m_vm init_machine) + PG_SZ + alloc_sz (max_port_of (g_pi init_machine)) ≤ io_map_sz)
    by (vm_compute; discriminate).
  assert (Hlen : (Z.to_nat (max_port_of (g_pi init_machine)) ≤ length (ports (m_hba init_machine)))%nat) by (vm_compute; lia).
  assert (Hr : match ahci_init demo_engine 2 [FD 0 0 0 0x0600 0x8086 0x1237; init_fn] init_machine with Ret (ok, _) => ok | _ => false end = true)
    by (vm_compute; reflexivity).
  pose proof (ahci_init_brings_up demo_engine 2 init_machine init_live [FD 0 0 0 0x0600 0x8086 0x1237; init_fn] init_fn demo_port
    eq_refl Hok Hcw eq_refl init_vm_ready Hlive Hmp Hend eq_refl Hlen eq_refl eq_refl eq_refl (demo_engines_stop _)) as Hw.
  destruct (proj1 (wp_run _ _ _) Hw) as (ok & st' & Heq & _ & Hres). rewrite Heq in Hr. rewrite Hr in Heq, Hres.
  exists st'. split; [exact Heq|]. destruct Hres as (_ & Hwalk & _ & _ & _ & Hready). split; [exact Hwalk|exact Hready].
Defined.

(** The size that is compared with a page counts one port too many: a
    controller with 30 ports, whose registers fill the page, is refused. *)
Example abar_sz_30 : sizeof_GlobalRegisters + 30 * sizeof_PortRegisters = PG_SZ ∧ abar_sz 30 = PG_SZ + sizeof_PortRegisters.
Proof. by split. Qed.
