(* ===== verification/FatVfs.v ===== *)
(** * The FAT32 driver under the VFS

    The file system driver of [Fat32.v] implements the interface [FsDriver]
    of [Vfs.v], for a volume whose directories and files are described by
    their start cluster.  With it, the mount sequence of [entry.cc]
    ([find_boot_part], [from_partition], [fs::init]), path lookup and file
    reads are one program over the page cache. *)
From S2P Require Import Prelude Algorithm Bitfield BootPaging BootFat Libc PageFrame MemoryMap Kmalloc Lru PageTable PageCache Fat32 Vfs Ahci.

(** ** Volumes: the files and directories, by start cluster *)
Record vobj := VObj { vo_chain : list Z; vo_dir : bool; vo_size : Z }.
Abbreviation volume := (gmap Z vobj).

Section volume.
Context (disk : bytes) (fs : Filesystem) (V : volume).

(** What the directory entry of a name says, as FAT32 lays it out *)
Local Abbreviation dir_entry_of k o name :=
  (dir_search disk (convert_normal_to_8_3_filename name) (dir_entries fs (k :: vo_chain o))).
Definition entry_ok (r : option dirent) : Prop :=
  match r with
  | None => True
  | Some e => de_hi e = 0 ∧ ∃ o, V !! de_cluster e = Some o ∧ vo_dir o = de_subdir e ∧ vo_size o = de_size e
  end.
(** An object is a chain of clusters; a directory has an end marker and its
    entries lead to objects of the volume that start in the first 65536
    clusters, a file's chain holds its size. *)
Definition object_ok (fuel : nat) (k : Z) (o : vobj) : Prop :=
  linked disk fs (k :: vo_chain o) ∧ Forall (cluster_ok fs) (k :: vo_chain o) ∧ (length (vo_chain o) < fuel)%nat ∧
  0 ≤ vo_size o < 2 ^ 31 ∧
  if vo_dir o then ∀ name, ∃ r, dir_entry_of k o name = Some r ∧ entry_ok r
  else vo_size o ≤ Z.of_nat (S (length (vo_chain o))) * PG_SZ.
Definition volume_ok (fuel : nat) : Prop := fat_ok fs ∧ ∀ k o, V !! k = Some o → object_ok fuel k o.

Definition vol_child (k : Z) (name : list Z) : option Z :=
  match V !! k with
  | Some o => match dir_entry_of k o name with Some (Some e) => Some (de_cluster e) | _ => None end
  | None => None
  end.
(** The device pages with the volume's clusters and their FAT entries, and
    with what the mount reads *)
Definition volume_reads (reads : Z → Prop) : Prop := ∀ k o, V !! k = Some o →
  Forall (λ c, reads (cluster_addr fs c) ∧ reads (fat_page fs c)) (k :: vo_chain o).
Definition volume_pages (lba : Z) : gset (Z * Z) :=
  {[(k_dev fs, 0); (k_dev fs, lba / 8 * PG_SZ)]} ∪
  list_to_set (map_to_list V ≫= λ ko, (ko.1 :: vo_chain ko.2) ≫= λ c, [(k_dev fs, cluster_addr fs c); (k_dev fs, fat_page fs c)]).
Lemma volume_pages_read lba : volume_reads (λ off, (k_dev fs, off) ∈ volume_pages lba).
Proof using fs V.
  intros k o Hk. apply Forall_forall. intros c Hc.
  assert (Hin : ∀ x, x = (k_dev fs, cluster_addr fs c) ∨ x = (k_dev fs, fat_page fs c) → x ∈ volume_pages lba).
  { intros x Hx. apply elem_of_union_r, elem_of_list_to_set, list_elem_of_bind. exists (k, o). split; [|by apply elem_of_map_to_list].
    apply list_elem_of_bind. exists c. split; [|done]. destruct Hx as [->| ->]; [left|right; left]. }
  split; apply Hin; [by left|by right].
Qed.
Lemma mount_pages_read lba : (k_dev fs, 0) ∈ volume_pages lba ∧ (k_dev fs, lba / 8 * PG_SZ) ∈ volume_pages lba.
Proof using fs V. split; apply elem_of_union_l, elem_of_union; [left|right]; by apply elem_of_singleton. Qed.

Definition vol_isdir (k : Z) : bool := match V !! k with Some o => vo_dir o | None => false end.
Definition vol_size (k : Z) : Z := match V !! k with Some o => vo_size o | None => 0 end.
Definition vol_byte (k off : Z) : Z :=
  match V !! k with
  | Some o => match (k :: vo_chain o) !! Z.to_nat (off / PG_SZ) with
              | Some c => disk (cluster_addr fs c + off mod PG_SZ)
              | None => 0
              end
  | None => 0
  end.
End volume.

(** ** The driver *)
Section driver.
Context {S : Type} `{PS : PageSource S} (fs : Filesystem) (V : volume) (fuel : nat).
Context (Hvol : volume_ok ps_disk fs V fuel) (Hreads : volume_reads fs V (ps_reads (k_dev fs))).
Implicit Types st : fat_st S.

Definition inode_is_directory st (a : Z) : bool := match inodes st !! a with Some i => fi_is_directory i | None => false end.
Definition inode_size st (a : Z) : Z := match inodes st !! a with Some i => fi_size i | None => 0 end.
(** [VirtLease{inode, offset}] and a copy of the page *)
Definition inode_page (a off : Z) : M (fat_st S) bytes :=
  o ← get_dev_offset fs a off;
  on_src (with_lease (k_dev fs) o Ret).

Definition inode_obj st (a : Z) : option Z := fi_start_cluster <$> inodes st !! a.
Definition inodes_ok st : Prop := ∀ a i, inodes st !! a = Some i →
  ∃ o, V !! fi_start_cluster i = Some o ∧ fi_is_directory i = vo_dir o ∧ fi_size i = vo_size o.

Lemma inode_obj_inv st a k : inodes_ok st → inode_obj st a = Some k →
  ∃ i o, inodes st !! a = Some i ∧ fi_start_cluster i = k ∧ V !! k = Some o ∧ fi_is_directory i = vo_dir o ∧ fi_size i = vo_size o.
Proof.
  intros Hin. unfold inode_obj. intros (i & Hi & ->)%fmap_Some_1. destruct (Hin a i Hi) as (o & Ho & Hd & Hs). by exists i, o.
Qed.
Lemma cluster_addr_ok c : cluster_ok fs c → cluster_addr fs c mod PG_SZ = 0 ∧ 0 ≤ cluster_addr fs c < 2 ^ 57.
Proof.
  intros Hc. destruct Hvol as [Hfs _]. destruct (cluster_sector fs Hfs c Hc) as (_ & Hal & H0). split; [done|].
  destruct Hc as [_ Hlim]. change PG_SZ with 4096 in Hlim. lia.
Qed.

Lemma wpx_driver_lookup st a k name res : fat_inv st ∧ inodes_ok st → inode_obj st a = Some k → vol_isdir V k = true →
  wpx (λ f, f = AssertFail ∧ ps_oom) (lookup fs fuel a name res) (λ x st', (fat_inv st' ∧ inodes_ok st') ∧
    (∀ b, is_Some (inode_obj st b) → inode_obj st' b = inode_obj st b) ∧
    match vol_child ps_disk fs V k name with
    | None => x = (None, FileNotFound)
    | Some k' => ∃ b, x = (Some b, res) ∧ inode_obj st' b = Some k'
    end) st.
Proof.
  intros [Hinv Hin] Ha Hd. destruct (inode_obj_inv st a k Hin Ha) as (i & o & Hi & <- & Ho & Hid & _).
  destruct Hvol as [Hfs Hobj]. destruct (Hobj _ _ Ho) as (Hl & Hc & Hlen & _ & Hdir).
  unfold vol_isdir in Hd. rewrite Ho in Hd. rewrite Hd in *. destruct (Hdir name) as (r & Hr & Hrok).
  eapply wpx_mono; [exact (wpx_lookup fs st a i (vo_chain o) name res r fuel Hlen Hfs Hinv Hi Hid (Hreads _ _ Ho) Hl Hc Hr)|].
  intros [x res'] st' [Hinv' Hres]. cbn [fst snd] in Hres. unfold vol_child. rewrite Ho, Hr.
  clear Hl Hc Hr Hdir Hlen Hobj. destruct r as [e|].
  - destruct Hres as (b & j & -> & -> & Hj & Hjc & Hsame & Hnew). destruct Hrok as (Hhi & o' & Ho' & Hdo & Hso). rewrite (driver_cluster_low e Hhi) in Hjc.
    assert (Hin' : inodes_ok st').
    { intros b' j' Hj'. destruct (Hsame b') as [Heq|[-> Hnone]]; [rewrite Heq in Hj'; by apply (Hin b')|].
      assert (j' = j) as -> by congruence. destruct (Hnew Hnone) as (Hs1 & Hd1 & _). exists o'. by rewrite Hjc, Hs1, Hd1. }
    split; [done|]. split; [|exists b; split; [reflexivity|unfold inode_obj; rewrite Hj, <- Hjc; reflexivity]].
    intros b' [k' Hb']. unfold inode_obj in *. destruct (Hsame b') as [->|[-> Hnone]]; [done|]. by rewrite Hnone in Hb'.
  - destruct Hres as (-> & -> & Heq). unfold inodes_ok, inode_obj. rewrite Heq. done.
Qed.

Lemma lookup_in_file st a k name res : inodes_ok st → inode_obj st a = Some k → vol_isdir V k = false →
  lookup fs fuel a name res st = Halt AssertFail.
Proof.
  intros Hin Ha Hd. destruct (inode_obj_inv st a k Hin Ha) as (i & o & Hi & <- & Ho & Hid & _).
  unfold vol_isdir in Hd. rewrite Ho in Hd. unfold lookup, get_inode. munfold. rewrite Hi. simpl. by rewrite Hid, Hd.
Qed.

Lemma wpx_driver_page st a k off : fat_inv st ∧ inodes_ok st → inode_obj st a = Some k → vol_isdir V k = false →
  off mod PG_SZ = 0 → 0 ≤ off < vol_size V k →
  wpx (λ f, f = AssertFail ∧ ps_oom) (inode_page a off) (λ pg st', (fat_inv st' ∧ inodes_ok st') ∧
    (∀ b, inode_obj st' b = inode_obj st b) ∧ ∀ i, 0 ≤ i < PG_SZ → pg i = vol_byte ps_disk fs V k (off + i)) st.
Proof.
  intros [Hinv Hin] Ha Hd Hal Hoff. destruct (inode_obj_inv st a k Hin Ha) as (i & o & Hi & <- & Ho & Hid & Hsz).
  destruct Hvol as [Hfs Hobj]. destruct (Hobj _ _ Ho) as (Hl & Hc & _ & Hbnd & Hfile).
  unfold vol_isdir, vol_size in *. rewrite Ho in *. rewrite Hd in *. unfold inode_page. apply wpx_bind.
  eapply wpx_mono; [eapply (wpx_get_dev_offset fs st a i (vo_chain o) off); [exact Hfs|exact Hinv|exact Hi|lia|exact (Hreads _ _ Ho)|exact Hl|exact Hc|rewrite Hsz; exact Hfile]|].
  intros r st1 (Hinv1 & Heq & Hr). rewrite decide_True in Hr by (rewrite Hid, Hsz; split; [exact Hal|split; [reflexivity|lia]]). destruct Hr as (c & Hcl & ->).
  pose proof (proj1 (Forall_lookup _ _) Hc _ _ Hcl) as Hcok. destruct (cluster_addr_ok c Hcok) as [Hca Hcb].
  destruct Hinv1 as (Hs1 & Ht1 & Hb1). destruct (proj1 (Forall_lookup _ _) (Hreads _ _ Ho) _ _ Hcl) as [Hrd _]. apply wpx_on_part, wpx_with_lease; [done|done|done|done|]. intros m Hm. exists m. split; [done|].
  intros s' Hs'. split; [split; [split; [exact Hs'|split; [exact Ht1|exact Hb1]]|]|].
  { intros b j Hj. cbn [inodes] in Hj. rewrite Heq in Hj. by apply (Hin b). }
  split; [intros b; unfold inode_obj; cbn [inodes]; by rewrite Heq|]. intros j Hj. rewrite Hm by done. unfold vol_byte. rewrite Ho. change PG_SZ with 4096 in *.
  apply Z.mod_divide in Hal as [q ->]; [|done].
  rewrite (Z.div_add_l q 4096 j), (Z.div_small j), Z.add_0_r by lia. rewrite Z.div_mul in Hcl by done. rewrite Hcl.
  rewrite (Z.add_comm (q * 4096)), Z.mod_add, Z.mod_small by lia. done.
Qed.

Definition fat_driver : FsDriver (fat_st S).
Proof.
  refine {| fd_lookup := lookup fs fuel; fd_delete := delete_inode; fd_is_directory := inode_is_directory; fd_size := inode_size;
    fd_page := inode_page; fd_creat _ _ := mret Unsupported;
    fd_inv st := fat_inv st ∧ inodes_ok st; fd_id := inode_obj;
    child := vol_child ps_disk fs V; isdir := vol_isdir V; fsize := vol_size V; fbyte := vol_byte ps_disk fs V; fd_oom := ps_oom |}.
  - intros st a k [_ Hin] Ha. destruct (inode_obj_inv st a k Hin Ha) as (i & o & Hi & _ & Ho & Hd & _).
    unfold inode_is_directory, vol_isdir. by rewrite Hi, Ho.
  - intros st a k [_ Hin] Ha. destruct (inode_obj_inv st a k Hin Ha) as (i & o & Hi & _ & Ho & _ & Hs).
    unfold inode_size, vol_size. rewrite Hi, Ho. split; [done|]. destruct Hvol as [_ Hobj]. by destruct (Hobj _ _ Ho) as (_ & _ & _ & ? & _).
  - exact wpx_driver_lookup.
  - intros st a k name res [_ Hin]. by apply lookup_in_file.
  - intros st a k [Hinv Hin] Ha. destruct (inode_obj_inv st a k Hin Ha) as (i & o & Hi & _).
    eapply wp_mono; [by eapply wp_delete_inode|]. intros [] st' [Hinv' Heq]. unfold inodes_ok, inode_obj. rewrite Heq.
    split; [split; [done|]|split; [by rewrite lookup_delete_eq|]].
    + intros b j [_ Hj]%lookup_delete_Some. by apply (Hin b).
    + intros b Hb. by rewrite lookup_delete_ne.
  - exact wpx_driver_page.
Defined.
End driver.

(** ** Mounting, as [entry.cc] does *)
Section mount.
Context {S : Type} `{PS : PageSource S}.

Definition mount_boot (dev : Z) (s : S) : outcome (Filesystem * vfs (fat_st S)) :=
  '(boot_part_desc, s) ← find_boot_part dev s;
  _ ← assert_ (bool_decide (is_Some boot_part_desc));
  lba ← deref boot_part_desc;
  '(fs, s) ← from_partition dev lba s;
  '(i, f) ← root_inode fs (FatSt s 0 ∅ ∅ 1);
  v ← vfs_init f i;
  Ret (fs, v).

Lemma find_part_ext (m d : bytes) : (∀ i, 0 ≤ i < PG_SZ → m i = d i) → find_part 4 0x01BE m = find_part 4 0x01BE d.
Proof.
  intros Hm. change PG_SZ with 4096 in Hm. cbn [find_part]. unfold partition_type, first_sector_lba, BootFat.le32, le16.
  by rewrite !Hm by lia.
Qed.
Lemma Filesystem_ctor_ext dev (m d : bytes) off p lba : (∀ i, 0 ≤ i < PG_SZ → m i = d (off + i)) → 0 ≤ p → p + 64 ≤ PG_SZ →
  Filesystem_ctor dev m p lba = Filesystem_ctor dev d (off + p) lba.
Proof.
  intros Hm Hp Hlim. unfold Filesystem_ctor, vbr_bytes_per_sector, vbr_sectors_per_cluster, vbr_reserved_sectors, vbr_fats,
    vbr_sectors_per_fat2, vbr_root_dir_start_cluster, BootFat.le32, le16.
  rewrite !Hm by lia. by rewrite !Z.add_assoc.
Qed.
(** A sector as a page and an offset in it *)
Lemma sector_page f : 0 ≤ f < 2 ^ 23 →
  floor_pow2 PG_SZ (u32 (f * 512)) = f / 8 * PG_SZ ∧ f / 8 * PG_SZ + f mod (PG_SZ / 512) * 512 = f * 512.
Proof.
  intros Hf. change PG_SZ with (2 ^ 12). change (2 ^ 12 / 512) with 8. rewrite wrap_small by lia.
  pose proof (Z.div_mod f 8 ltac:(lia)). pose proof (Z.mod_pos_bound f 8 ltac:(lia)). split; [|lia].
  rewrite floor_pow2_eq by lia. replace (f * 512) with (f mod 8 * 512 + (f / 8) * 2 ^ 12) by lia.
  rewrite Z.mod_add, (Z.mod_small (f mod 8 * 512)) by lia. lia.
Qed.

Lemma wpx_find_boot_part dev lba s (Q : option Z → S → Prop) : ps_inv s → ps_reads dev 0 → find_part 4 0x01BE ps_disk = Some lba →
  (∀ s', ps_inv s' → Q (Some lba) s') → wpx src_oom (find_boot_part dev) Q s.
Proof.
  intros Hs Hrd Hp HQ. apply wpx_with_lease; [done|done|done|lia|]. intros m Hm. eexists. split; [reflexivity|].
  intros s' Hs'. rewrite (find_part_ext m ps_disk), Hp; [by apply HQ|]. intros i Hi. by rewrite Hm.
Qed.
Lemma wpx_from_partition dev lba s (Q : Filesystem → S → Prop) : ps_inv s → ps_reads dev (lba / 8 * PG_SZ) → 0 ≤ lba < 2 ^ 23 →
  (∀ s', ps_inv s' → Q (Filesystem_ctor dev ps_disk (lba * 512) lba) s') → wpx src_oom (from_partition dev lba) Q s.
Proof.
  intros Hs Hrd Hl HQ. unfold from_partition. destruct (sector_page lba Hl) as [-> Hsum].
  pose proof (Z.div_mod lba 8 ltac:(lia)). pose proof (Z.mod_pos_bound lba 8 ltac:(lia)). assert (0 ≤ lba / 8) by (apply Z.div_pos; lia). assert (HPG : PG_SZ = 4096) by done.
  apply wpx_with_lease; [done|done|by apply Z.mod_mul|rewrite HPG; lia|]. intros m Hm. eexists. split; [reflexivity|]. intros s' Hs'.
  rewrite (Filesystem_ctor_ext dev m ps_disk (lba / 8 * PG_SZ)), Hsum; [by apply HQ|exact Hm|..].
  all: change (PG_SZ / 512) with 8; pose proof (Z.mod_pos_bound lba 8 ltac:(lia)); lia.
Qed.
(** The name of the root is empty; its last byte is not written. *)
Definition root_name : list (option Z) := replicate 12 (Some 0) ++ [None].
Lemma root_inode_run fs (s : S) : root_inode fs (FatSt s 0 ∅ ∅ 1) =
  Ret (1, FatSt s 1 {[k_root_dir_start_cluster fs := 1]} {[1 := FInode 0 0 true (k_root_dir_start_cluster fs) root_name]} 2).
Proof. unfold root_inode, new_inode. munfold. cbn [start_cluster_to_inode]. rewrite bool_decide_true by apply lookup_empty. done. Qed.
Lemma fat_inv_root fs (s : S) : ps_inv s →
  fat_inv (FatSt s 1 {[k_root_dir_start_cluster fs := 1]} {[1 := FInode 0 0 true (k_root_dir_start_cluster fs) root_name]} 2).
Proof.
  intros Hs. split; [done|]. cbn [start_cluster_to_inode inodes ibrk]. split.
  - intros c a. rewrite lookup_singleton_Some. setoid_rewrite lookup_singleton_Some. naive_solver.
  - intros a. rewrite lookup_singleton_is_Some. intros <-. lia.
Qed.
End mount.

Section reading.
Context {F : Type} `{FD : FsDriver F}.

(** What [open] and [read] do with a path: the lookup, then the read of the
    inode it leads to. *)
Definition read_path (path : list Z) (off count : Z) : M (vfs F) (option (list Z) * Result) :=
  '(d, res) ← pathname_lookup path Ok;
  match d with
  | None => mret (None, res)
  | Some a => d ← get_dent a; inode_read (d_inode d) off count res
  end.

Lemma wpx_read_path kr ext (st : vfs F) path k ks off count : vfs_ok kr ext st → Forall (λ x, 0 < x < 256) path →
  resolve [kr] (components path) = Found (k :: ks) → 0 ≤ off < 2 ^ 64 → 0 ≤ count →
  wpx oom_only (read_path path off count) (λ r _, r = if isdir k then (None, IsDirectory)
    else (Some (file_slice k off (Z.min count (fsize k - off))), Ok)) st.
Proof.
  intros Hok Hp Hres Ho Hc. unfold read_path. apply wpx_bind.
  pose proof (wpx_pathname_lookup kr ext path st Hok Hp) as Hl. cbv zeta in Hl. rewrite Hres in Hl.
  eapply wpx_weaken; [exact Hl|intros f [-> [?|?]]; [by split|done]|].
  intros [d res] st1 (Hok1 & _ & a & [= -> ->] & Hden).
  destruct (denotes_live _ _ _ Hden) as (da & k0 & ks0 & Hda & [= <- <-] & Hk).
  apply wpx_bind, wpx_wp. eapply wp_get_dent; [done|]. eapply wpx_mono; [by eapply wpx_inode_read|]. by intros r st2 [_ ->].
Qed.
End reading.

Section boot.
Context {S : Type} `{PS : PageSource S}.

(** What the mount sequence leaves, for a volume whose root directory is
    the one of the boot record. *)
Lemma mount_boot_ok (V : volume) fuel dev lba s o :
  let fs := Filesystem_ctor dev ps_disk (lba * 512) lba in let kr := k_root_dir_start_cluster fs in
  ∀ (Hvol : volume_ok ps_disk fs V fuel) (Hreads : volume_reads fs V (ps_reads dev)),
  ps_inv s → ps_reads dev 0 → ps_reads dev (lba / 8 * PG_SZ) → find_part 4 0x01BE ps_disk = Some lba → 0 ≤ lba < 2 ^ 23 →
  V !! kr = Some o → vo_dir o = true → vo_size o = 0 →
  match mount_boot dev s with
  | Ret (fs', v) => fs' = fs ∧ vfs_ok (FD := fat_driver fs V fuel Hvol Hreads) kr (λ _, 0) v
  | Halt f => f = AssertFail ∧ ps_oom
  end.
Proof.
  intros fs kr Hvol Hreads Hs Hr0 Hr1 Hpart Hlba Ho Hod Hos. unfold mount_boot.
  pose proof (wpx_find_boot_part dev lba s (λ r s', r = Some lba ∧ ps_inv s') Hs Hr0 Hpart (λ s' H, conj eq_refl H)) as H1.
  unfold wpx in H1. unfold mbind, outcome_bind. destruct (find_boot_part dev s) as [[p s1]|f]; [|exact H1].
  destruct H1 as [-> Hs1]. cbn [assert_ bool_decide deref].
  rewrite bool_decide_true by (by eexists). cbn [assert_].
  pose proof (wpx_from_partition dev lba s1 (λ r s', r = fs ∧ ps_inv s') Hs1 Hr1 Hlba (λ s' H, conj eq_refl H)) as H2.
  unfold wpx in H2. destruct (from_partition dev lba s1) as [[fs1 s2]|f]; [|exact H2]. destruct H2 as [-> Hs2].
  rewrite root_inode_run. fold kr. rewrite vfs_init_run. split; [reflexivity|].
  pose proof (fat_inv_root fs s2 Hs2) as Hinv. fold kr in Hinv. set (f0 := FatSt s2 1 _ _ 2) in *.
  apply (vfs_init_ok (FD := fat_driver fs V fuel Hvol Hreads) kr f0 1); [split; [exact Hinv|]|reflexivity|by apply vfs_init_run].
  intros a i Hi. cbn [f0 inodes] in Hi. apply lookup_singleton_Some in Hi as [<- <-]. exists o. by rewrite Hod, Hos.
Qed.

Lemma mounted_source_reads (V : volume) fuel dev lba s o path k ks off count :
  let fs := Filesystem_ctor dev ps_disk (lba * 512) lba in let kr := k_root_dir_start_cluster fs in
  ∀ (Hvol : volume_ok ps_disk fs V fuel) (Hreads : volume_reads fs V (ps_reads dev)),
  ps_inv s → ps_reads dev 0 → ps_reads dev (lba / 8 * PG_SZ) → find_part 4 0x01BE ps_disk = Some lba → 0 ≤ lba < 2 ^ 23 →
  V !! kr = Some o → vo_dir o = true → vo_size o = 0 →
  Forall (λ x, 0 < x < 256) path → resolve (FD := fat_driver fs V fuel Hvol Hreads) [kr] (components path) = Found (k :: ks) →
  vol_isdir V k = false → 0 ≤ off < 2 ^ 64 → 0 ≤ count →
  match mount_boot dev s with
  | Ret (fs', v) => fs' = fs ∧
      match read_path (FD := fat_driver fs V fuel Hvol Hreads) path off count v with
      | Ret (r, _) => r = (Some ((λ i, vol_byte ps_disk fs V k (off + Z.of_nat i)) <$>
                                 seq 0 (Z.to_nat (Z.min count (vol_size V k - off)))), Ok)
      | Halt f => f = AssertFail ∧ ps_oom
      end
  | Halt f => f = AssertFail ∧ ps_oom
  end.
Proof.
  intros fs kr Hvol Hreads Hs Hr0 Hr1 Hpart Hlba Ho Hod Hos Hpath Hres Hfile Hoff Hcount.
  pose proof (mount_boot_ok V fuel dev lba s o Hvol Hreads Hs Hr0 Hr1 Hpart Hlba Ho Hod Hos) as Hm.
  destruct (mount_boot dev s) as [[fs' v]|f]; [|exact Hm]. destruct Hm as [-> Hok]. split; [reflexivity|].
  pose proof (wpx_read_path (FD := fat_driver fs V fuel Hvol Hreads) kr (λ _, 0) _ path k ks off count Hok Hpath Hres Hoff Hcount) as H3.
  unfold wpx in H3. destruct (read_path path off count _) as [[r st']|f]; [|exact H3]. rewrite H3.
  change (isdir k) with (vol_isdir V k). rewrite Hfile. reflexivity.
Qed.
End boot.

Section cached.
Context {S : Type} `{PA : PageAllocator S} `{BR : BlockReader}.

(** The page cache for the pages of a volume, with what the heap of [st]
    has: a page for each of them and one for the table of the buffer page *)
Definition volume_source (fs : Filesystem) (V : volume) (lba : Z) (st : pcache S) : PageSource (pcache S) :=
  page_cache_source (volume_pages fs V lba) (heap_st (vm st)) (1 + base.size (volume_pages fs V lba)).
Definition cached_driver (fs : Filesystem) (V : volume) (fuel : nat) (Hvol : volume_ok disk fs V fuel) (lba : Z) (st : pcache S) :
    FsDriver (fat_st (pcache S)) :=
  fat_driver (PS := volume_source fs V lba st) fs V fuel Hvol (volume_pages_read fs V lba).

End cached.

(** ** The whole stack on a small disk

    A partition at sector 8 with one directory, in cluster 2, that has a
    deleted entry and HELLO.TXT, 5000 bytes in clusters 3 and 4; read by the
    AHCI driver, through the page cache, from the kernel heap's pages. *)
Definition boot_disk (a : Z) : Z :=
  if a =? 0x1C2 then 0x0C else if a =? 0x1C6 then 8
  else if a =? 4096 + 12 then 2 else if a =? 4096 + 13 then 8 else if a =? 4096 + 14 then 24 else if a =? 4096 + 16 then 1
  else if a =? 4096 + 36 then 8 else if a =? 4096 + 44 then 2
  else if 24576 <=? a then a mod 251 else demo_fat a.
Definition boot_volume : volume := {[2 := VObj [] true 0; 3 := VObj [4] false 5000]}.
Definition boot_fs : Filesystem := Filesystem_ctor 7 boot_disk (8 * 512) 8.

Lemma boot_fs_eq : boot_fs = KFat 7 512 8 128 32 40 2.
Proof. vm_compute. reflexivity. Qed.
Lemma boot_root_search nm : ∃ r, dir_search boot_disk nm (dir_entries boot_fs [2]) = Some r ∧ entry_ok boot_volume r.
Proof.
  assert (He : dir_entries boot_fs [2] = 20480 :: 20512 :: 20544 :: drop 3 (dir_entries boot_fs [2])) by (vm_compute; reflexivity).
  rewrite He. generalize (drop 3 (dir_entries boot_fs [2])). clear He. intros l. cbn [dir_search].
  replace (boot_disk 20480 =? 0) with false by reflexivity. replace (boot_disk 20480 =? 0xE5) with true by reflexivity.
  replace (boot_disk 20512 =? 0) with false by reflexivity. replace (boot_disk 20512 =? 0xE5) with false by reflexivity.
  replace (boot_disk (20512 + 11) =? 0x0F) with false by reflexivity. replace (boot_disk 20544 =? 0) with true by reflexivity.
  cbn [orb]. destruct (view_eq nm (de_name (dirent_at boot_disk 20512))).
  - eexists. split; [reflexivity|]. split; [vm_compute; reflexivity|]. exists (VObj [4] false 5000).
    split; [vm_compute; reflexivity|]. split; vm_compute; reflexivity.
  - exists None. split; [reflexivity|exact I].
Qed.
Lemma boot_volume_ok : volume_ok boot_disk boot_fs boot_volume 2.
Proof.
  split; [rewrite boot_fs_eq; by split_and!|]. intros k o Hk.
  assert (Hc : ∀ c, c = 2 ∨ c = 3 ∨ c = 4 → cluster_ok boot_fs c).
  { intros c Hcs. rewrite boot_fs_eq. split; [lia|]. unfold cluster_addr. cbn [k_data_region_offset_lba]. change PG_SZ with 4096. lia. }
  unfold boot_volume in Hk. apply lookup_insert_Some in Hk as [[<- <-]|[_ [<- <-]%lookup_singleton_Some]].
  - split; [exact I|]. split; [constructor; [apply Hc; lia|constructor]|]. cbn [vo_chain vo_dir vo_size length].
    split; [lia|]. split; [lia|]. intros name. apply boot_root_search.
  - split; [split; [vm_compute; reflexivity|split; [vm_compute; reflexivity|exact I]]|].
    split; [constructor; [apply Hc; lia|constructor; [apply Hc; lia|constructor]]|].
    cbn [vo_chain vo_dir vo_size length]. change PG_SZ with 4096. lia.
Qed.

#[local] Instance boot_controller : AhciDevice.
Proof. refine {| platter := boot_disk; execute _ f l m := scatter l (λ i, boot_disk (512 * fis_lba f + i)) 0 m |}. done. Defined.
Definition boot_ahci : ahci :=
  match rebase_port_memory demo_engine 2 1 0xFF000000 0x2000 demo_ahci with Ret (_, st) => st | Halt _ => demo_ahci end.
Lemma boot_ahci_rebased : rebased_from demo_engine 2 0x2000 0xFF000000 1 0
  (Ahci (ports demo_ahci) (cleared_headers 0x2000 1) (cleared_tables 0x2000 1) (dram demo_ahci) 0xFF000000 0x2000) boot_ahci.
Proof.
  destruct (proj1 (wp_run _ _ _) (wp_rebase_port_memory demo_engine 2 0x2000 0xFF000000 1 ltac:(lia) ltac:(lia) ltac:(lia) ltac:(lia) (demo_engines_stop 1) demo_ahci ltac:(simpl; lia)))
    as ([] & st & Heq & Hrb).
  unfold boot_ahci. rewrite Heq. exact Hrb.
Qed.
Lemma boot_ahci_ready : port_ready boot_ahci 0.
Proof. by apply (rebased_ready demo_engine 2 0x2000 0xFF000000 1 ltac:(lia) ltac:(lia) demo_ahci boot_ahci demo_port ltac:(lia) eq_refl eq_refl eq_refl boot_ahci_rebased). Qed.
#[local] Instance boot_reader : BlockReader := ahci_block_reader demo_polls 5 boot_ahci demo_responds boot_ahci_ready.
(** Page 1 is the page directory, pages 2 to 4 are the memory of the port. *)
Definition boot_pfa : SimplePFA := PFA (PFD false false :: replicate 4 (PFD true false) ++ replicate 11 (PFD false false)) 0 0x10000 5 4.
Definition boot_live : list Z := [0xC0001000; 0xC0002000; 0xC0003000; 0xC0004000].
Lemma boot_pfa_inv : fa_inv (FrameAllocator := simple_pfa_allocator 16) boot_pfa.
Proof. split; [unfold pfa_wf; split_and!; vm_compute; done|vm_compute; done]. Qed.
Lemma boot_limit : fa_limit (FrameAllocator := simple_pfa_allocator 16) * PG_SZ ≤ hhdm_len.
Proof. vm_compute. done. Qed.
#[local] Instance boot_pages : PageAllocator (kheap SimplePFA) := kheap_page_allocator (FA := simple_pfa_allocator 16) boot_limit.
Definition boot_vm (offset : Z) : vmem (kheap SimplePFA) :=
  VMem (KHeap 0 (Some boot_pfa)) 0x1000 {[0xC0001000 := zero_page]} ∅ offset.
Lemma boot_vm_wf offset : vm_wf (boot_vm offset) boot_live.
Proof.
  split; [|split; [|split; [vm_compute; done|exact demo_dir_wf]]].
  - exists [(0xC0001000, 4 * PG_SZ)]. split.
    + split; [apply boot_pfa_inv|]. split; [|split; [repeat constructor|done]].
      apply Forall_singleton. split_and!; [vm_compute; done..|]. intros x Hx _ d Hd. simpl in Hx.
      change hhdm_start with 0xC0000000 in Hd. change PG_SZ with 4096 in *.
      assert ((x - 0xC0000000) / 4096 ∈ [1; 2; 3; 4]) as Hin.
      { rewrite !elem_of_cons. assert (1 ≤ (x - 0xC0000000) / 4096 < 5) by (Z.div_mod_to_equations; lia). lia. }
      rewrite !elem_of_cons, elem_of_nil in Hin. destruct Hin as [E|[E|[E|[E|[]]]]]; rewrite E in Hd; by injection Hd as <-.
    + intros p Hp. eexists. split; [left|]. cbn [fst snd]. change PG_SZ with 4096.
      unfold boot_live in Hp. rewrite !elem_of_cons, elem_of_nil in Hp. lia.
  - intros a [t Ha]. change (mem (boot_vm offset)) with ({[0xC0001000 := zero_page]} : gmap Z page) in Ha.
    apply lookup_singleton_Some in Ha as [<- _]. left.
Qed.
Definition boot_cache : pcache (kheap SimplePFA) := PCache lru_new (boot_vm 0x1000) (λ _, 0) io_map_start.
Lemma boot_reserved_live : reserved_live boot_live.
Proof.
  intros p Hp. destruct (port_page_in_block demo_engine 2 0x2000 0xFF000000 1 demo_ahci boot_ahci p
    ltac:(lia) ltac:(lia) ltac:(done) boot_ahci_rebased Hp) as (i & Hi & ->).
  change (alloc_sz 1) with 12288 in Hi. change PG_SZ with 4096 in *. change hhdm_start with 0xC0000000.
  unfold boot_live. rewrite !elem_of_cons. assert (i = 0 ∨ i = 1 ∨ i = 2) as [->|[->| ->]] by lia; auto.
Qed.
Lemma boot_cache_ok : pc_ok boot_cache boot_live ∅ false.
Proof.
  eapply (pc_ok_init (boot_vm 0)); [apply boot_vm_wf|vm_compute; reflexivity|apply boot_vm_wf|done|done| |exact boot_reserved_live].
  exact (demo_vwalk io_map_start ltac:(done)).
Qed.
Definition path_hello : list Z := [47; 72; 69; 76; 76; 79; 46; 84; 88; 84].

#[local] Instance boot_source : PageSource (pcache (kheap SimplePFA)) := volume_source (BR := boot_reader) boot_fs boot_volume 8 boot_cache.
#[local] Instance boot_driver : FsDriver (fat_st (pcache (kheap SimplePFA))) :=
  cached_driver (BR := boot_reader) boot_fs boot_volume 2 boot_volume_ok 8 boot_cache.
Lemma boot_partition : find_part 4 0x01BE (disk (BlockReader := boot_reader)) = Some 8.
Proof. vm_compute. reflexivity. Qed.
Lemma boot_root : boot_volume !! k_root_dir_start_cluster boot_fs = Some (VObj [] true 0).
Proof. vm_compute. reflexivity. Qed.
Lemma boot_resolves : resolve [k_root_dir_start_cluster boot_fs] (components path_hello) = Found [3; 2].
Proof. vm_compute. reflexivity. Qed.
Lemma path_hello_bytes : Forall (λ x, 0 < x < 256) path_hello.
Proof. repeat (constructor; [lia|]). constructor. Qed.
Lemma boot_mounts : match mount_boot 7 boot_cache with
  | Ret (_, v) => is_ret (read_path path_hello 4990 100 v)
  | Halt _ => false
  end = true.
Proof. vm_compute. reflexivity. Qed.

