(* ===== verification/Startup.v ===== *)
(** * The kernel's start

    Composes the stages of [entry] ([entry.cc]) over the machine the boot
    loader hands over: the memory map becomes the heap ([MemoryInit]), the
    PCI functions are enumerated and the AHCI controller brought up
    ([Pci], [AhciInit]), the page cache and the file system are set up on
    it ([PageCache], [FatVfs]), and the scheduler and the first process
    are created ([Scheduler], [Exec]).  The timer's handler ([isr_pit] of
    [arch/x86/isrs.cc]) and [do_schedule] are at the end. *)
From stdpp Require Import sorting.
From S2P Require Import Prelude Algorithm BootProtocol BootMem BootFat Bitfield PageFrame MemoryMap Kmalloc MemoryInit Scheduler Lru PageTable PageCache Fat32 Vfs Elf Process Loader Exec Interrupt Ahci Pci AhciInit FatVfs.

(** ** The page frames the kernel starts with *)
Lemma start_limit : fa_limit (FrameAllocator := boot_allocator) * PG_SZ ≤ hhdm_len.
Proof. vm_compute. done. Qed.
#[export] Instance start_pages : PageAllocator (kheap SimplePFA) :=
  kheap_page_allocator (FA := boot_allocator) start_limit.
#[export] Instance start_blocks : BlockAllocator (kheap SimplePFA) :=
  kheap_block_allocator (FA := boot_allocator) start_limit.

(** ** What the boot loader hands over *)
Record handover := Handover {
  ho_mem : MemoryMap.mmap;                       (** the memory map of the boot protocol *)
  ho_raw : nat → PageFrameDescriptor;  (** what memory holds where the table will be *)
  ho_cr3 : Z; ho_tables : gmap Z page; ho_tlb : gmap Z leaf;
  ho_pci : pci;
  ho_hba : ahci; ho_cap : Z; ho_ghc : Z; ho_pi : Z }.

Section startup.
Context (std_sort : MemoryMap.mmap → MemoryMap.mmap) `{PciHost} `{AhciDevice} (eng : engine) (efuel : nat).

(** From the memory map to a port that takes commands. *)
Definition start_devices (ho : handover) : outcome (machine (kheap SimplePFA)) :=
  '(_, h) ← boot_heap std_sort (ho_raw ho) (ho_mem ho);
  '(pci_fn_descs, p) ← enumerate_functions 256 (ho_pci ho);
  '(ok, st) ← ahci_init eng efuel pci_fn_descs
    (Machine p (VMem h (ho_cr3 ho) (ho_tables ho) (ho_tlb ho) 0) (ho_hba ho) (ho_cap ho) (ho_ghc ho) (ho_pi ho) 0);
  _ ← assert_ ok;
  Ret st.

(** The page cache and the boot partition. *)
Definition start_files `{BR : BlockReader} (dev : Z) (ram : bytes) (st : machine (kheap SimplePFA))
    : outcome (Filesystem * vfs (fat_st (pcache (kheap SimplePFA)))) :=
  c ← cache_init (m_vm st) ram;
  mount_boot (PS := any_page_source) dev c.

(** The scheduler, with the running code as its first thread, and the
    first process, [pid].  [Process::Process] creates its thread last; the
    thread's number does not depend on what comes before. *)
Definition start_init {F} `{FD : FsDriver F} (stale : Z → option bytes) (raw0 raw1 : Z * option Z) (pid stk : Z)
    (bin_path : list Z) (buf : bytes) (v : vfs F) : outcome (proc F * Scheduler) :=
  '(_, s) ← bootstrap raw0 Scheduler_ctor;
  '(new_tid, s) ← new_thread raw1 (Some pid) stk s;
  '(res, pr) ← Process_ctor stale bin_path buf new_tid Ok (Proc v [] [] ∅ 0 0 None);
  _ ← assert_ (bool_decide (res = Ok));
  Ret (pr, s).
End startup.

(** ** The tables of the boot loader are live pages *)
Lemma taken_pages_live {S} `{FA : FrameAllocator S} (Hlim : fa_limit * PG_SZ ≤ hhdm_len) (s : S) (pgs : list Z) :
  fa_inv s → NoDup pgs →
  (∀ p, p ∈ pgs → p mod PG_SZ = 0 ∧ hhdm_start ≤ p ∧ p + PG_SZ ≤ hhdm_start + hhdm_len ∧
                  fa_taken s ((p - hhdm_start) / PG_SZ)) →
  kheap_live (KHeap 0 (Some s)) pgs.
Proof.
  intros Hinv Hnd Hp. exists ((λ p, (p, PG_SZ)) <$> pgs). split.
  - split; [done|]. split; [|split; [|done]].
    + apply Forall_fmap, Forall_forall. intros p (Hal & Hlo & Hhi & Ht)%Hp. split_and!; simpl; [done|done|done|].
      intros x Hx. simpl in Hx. replace ((x - hhdm_start) / PG_SZ) with ((p - hhdm_start) / PG_SZ); [done|].
      apply Z.mod_divide in Hal as [q ->]; [|done]. change hhdm_start with (0xC0000 * PG_SZ) in *.
      rewrite <- Z.mul_sub_distr_r, Z.div_mul by done. apply Z.div_unique with (x - q * PG_SZ);
        change PG_SZ with 4096 in *; lia.
    + clear Hinv. induction Hnd as [|p pgs Hnin Hnd IH]; [constructor|]. apply forall_elem_cons in Hp as [Hp Hps].
      cbn. apply ForallOrdPairs_cons; [|by apply IH]. apply Forall_fmap, Forall_forall. intros q Hq.
      destruct (Hps q Hq) as (Hqal & _). destruct Hp as (Hpal & _). unfold block_disjoint. simpl.
      assert (p ≠ q) by congruence. apply Z.mod_divide in Hpal as [i ->], Hqal as [j ->]; [|done..].
      change PG_SZ with 4096 in *. lia.
  - intros p Hin. exists (p, PG_SZ). split; [apply list_elem_of_fmap; by exists p|]. simpl. lia.
Qed.

(** ** The scheduler at the start *)

(** The running thread belongs to process [pid]. *)
Definition runs_process (pid : Z) (s : Scheduler) : Prop :=
  ∃ r t, running s = Some r ∧ threads s !! r = Some t ∧ Scheduler.proc t = Some pid.

Lemma sched_start raw0 raw1 pid stk : ∃ s0 s,
  bootstrap raw0 Scheduler_ctor = Ret (0, s0) ∧ new_thread raw1 (Some pid) stk s0 = Ret (1, s) ∧
  ∀ t0 t1, wp (schedule t0 t1) (λ _, runs_process pid) s.
Proof.
  eexists _, _. split; [vm_compute; reflexivity|]. split; [vm_compute; reflexivity|]. intros t0 t1.
  eapply (wp_schedule t0 t1 _ 1 2 []); [reflexivity|reflexivity| |vm_compute; reflexivity|done| |done].
  - apply NoDup_cons. split; [by intros ?%list_elem_of_singleton|apply NoDup_singleton].
  - intros s' _ _ Hr _ _ (_ & Ht & _). exists 2. eexists. split; [exact Hr|]. rewrite Ht.
    split; [vm_compute; reflexivity|reflexivity].
Qed.

(** ** What is asked of the machine *)
Section ready.
Context `{PciHost} (eng : engine) (efuel : nat).

Record handover_ok (ho : handover) (ents : MemoryMap.mmap) (fn : FuncDescriptor) (p : PortRegisters) : Prop := {
  (** the memory map *)
  hk_map : ∃ k, ho_mem ho = ents ++ replicate (S k) e820_null;
  hk_boot : bootable ents;
  hk_present : Forall (λ e, e820_entry_present e = true) ents;
  hk_direct : ∀ e, e ∈ ents → ent_type e = E820_MM_TYPE_USABLE → ent_base e + ent_len e ≤ hhdm_len;
  (** the frame at 0 is not free: the driver takes a physical base of 0
      for none *)
  hk_frame0 : ¬ page_free ents 0;
  (** the page tables of the boot loader are not on free pages and leave
      the IO window unmapped *)
  hk_cr3 : 0 ≤ ho_cr3 ho < hhdm_len ∧ dir_wf (ho_tables ho) (ho_cr3 ho + hhdm_start);
  hk_tables : ∀ a, is_Some (ho_tables ho !! a) → a mod PG_SZ = 0 ∧ hhdm_start ≤ a ∧
    a + PG_SZ ≤ hhdm_start + hhdm_len ∧ ¬ page_free ents (a - hhdm_start);
  hk_window : ∀ x, io_map_start ≤ x < io_map_start + io_map_sz →
    walk (ho_tables ho) (ho_cr3 ho + hhdm_start) x = None;
  (** the PCI bus has an AHCI function [fn] *)
  hk_pci : enumerated (ho_pci ho) = [] ∧ topology_ok (config (ho_pci ho)) ∧
    exists_fn (config (ho_pci ho)) 0 0 0 = true ∧ (length (all_functions (config (ho_pci ho))) ≤ 256)%nat;
  hk_fn : find_ahci (found_functions (config (ho_pci ho))) = Some fn ∧ fn_ok fn ∧
    command_writes (config (ho_pci ho)) fn ∧
    u32 (config (ho_pci ho) (fd_bus fn) (fd_device fn) (fd_function fn) 9) mod PG_SZ = 0;
  (** with an idle port 0, [p] *)
  hk_ports : 0 < max_port_of (ho_pi ho) ≤ 29 ∧
    PG_SZ + alloc_sz (max_port_of (ho_pi ho)) + PG_SZ ≤ io_map_sz ∧
    enumerate_ports (ho_pi ho) (ports (ho_hba ho)) = Ret (Z.land (ho_cap ho) 0x1F + 1) ∧
    (Z.to_nat (max_port_of (ho_pi ho)) ≤ length (ports (ho_hba ho)))%nat ∧
    ports (ho_hba ho) !! 0%nat = Some p ∧ Z.testbit (sact p) 0 = false ∧ Z.testbit (ci p) 0 = false ∧
    engines_stop eng efuel (max_port_of (ho_pi ho)) }.
End ready.

Section proof.
Context (std_sort : MemoryMap.mmap → MemoryMap.mmap).
Hypothesis std_sort_perm : ∀ l, std_sort l ≡ₚ l.
Hypothesis std_sort_sorted : ∀ l, StronglySorted (λ e f, ent_base e ≤ ent_base f) (std_sort l).
Context `{PciHost} `{AhciDevice} (eng : engine) (efuel : nat).

(** The heap, with the tables of the boot loader as live pages. *)
Lemma boot_heap_live ho ents fn p : handover_ok eng efuel ho ents fn p →
  match boot_heap std_sort (ho_raw ho) (ho_mem ho) with
  | Ret (_, h) => ∃ live, hhdm_start ∈ live ∧
      vm_ready (VMem h (ho_cr3 ho) (ho_tables ho) (ho_tlb ho) 0) live
  | Halt f => f = AssertFail
  end.
Proof.
  intros Hk. destruct (hk_map _ _ _ _ _ _ Hk) as [k ->]. unfold boot_heap.
  destruct (scan_mem_map_spec ents k 0 (hk_present _ _ _ _ _ _ Hk)) as [u ->]. munfold.
  destruct (memory_init_run std_sort std_sort_perm std_sort_sorted (ho_raw ho) ents (hk_boot _ _ _ _ _ _ Hk))
    as (mm' & n & e & _ & _ & He & (x & Hx & Hxt & Hxe) & Hrun).
  destruct (memory_init std_sort (ho_raw ho) ents) as [[vb a]|f]; [|by destruct Hrun].
  destruct Hrun as (base & -> & Hwf & Hend & _ & _ & _ & _ & _ & Hfree).
  assert (Hinv : fa_inv (FrameAllocator := boot_allocator) a).
  { split; [done|]. rewrite Hend. pose proof (hk_direct _ _ _ _ _ _ Hk x Hx Hxt).
    change hhdm_len with 0x3DC00000 in *. change PG_SZ with 4096 in *.
    change (0x3DC00000 / 4096) with 0x3DC00. lia. }
  assert (Htk : ∀ q, q mod PG_SZ = 0 → ¬ page_free ents q → pfa_taken a (q / PG_SZ)).
  { intros q Hq Hnf Hq0 d Hd. destruct (usable d) eqn:Hu; [|done]. exfalso. apply Hnf.
    apply (Hfree q Hq). intros Ht. by rewrite (Ht Hq0 d Hd) in Hu. }
  set (live := elements ({[hhdm_start]} ∪ dom (ho_tables ho))).
  assert (Hlive : kheap_live (FA := boot_allocator) (KHeap 0 (Some a)) live).
  { apply (taken_pages_live (FA := boot_allocator) start_limit); [exact Hinv|apply NoDup_elements|].
    intros q Hq. apply elem_of_elements, elem_of_union in Hq as [->%elem_of_singleton|Hq%elem_of_dom].
    - split_and!; [done|done|vm_compute; discriminate|].
      replace (hhdm_start - hhdm_start) with 0 by lia. apply Htk; [done|]. apply (hk_frame0 _ _ _ _ _ _ Hk).
    - destruct (hk_tables _ _ _ _ _ _ Hk q Hq) as (Hal & Hlo & Hhi & Hnf). split_and!; [done..|].
      apply Htk; [|done]. rewrite Zminus_mod, Hal. done. }
  exists live. split; [apply elem_of_elements; set_solver|].
  destruct (hk_cr3 _ _ _ _ _ _ Hk) as [Hcr Hdir]. split; [|done|].
  - split; [exact Hlive|]. split; [|done]. intros q Hq. apply elem_of_elements, elem_of_union. right. by apply elem_of_dom.
  - intros y Hy. cbn [io_region_offset] in Hy. rewrite Z.add_0_r in Hy. by apply (hk_window _ _ _ _ _ _ Hk).
Qed.

(** The controller is ready and the window has room for the page cache. *)
Lemma start_devices_ready ho ents fn p : handover_ok eng efuel ho ents fn p →
  match start_devices std_sort eng efuel ho with
  | Ret st => port_ready (m_hba st) 0 ∧ (∃ live, vm_ready (m_vm st) live ∧ ∀ q, port_page (m_hba st) q → q + hhdm_start ∈ live) ∧
      io_region_offset (m_vm st) + PG_SZ ≤ io_map_sz
  | Halt f => f = AssertFail
  end.
Proof.
  intros Hk. unfold start_devices. pose proof (boot_heap_live ho ents fn p Hk) as Hheap.
  unfold mbind, outcome_bind. destruct (boot_heap _ _ _) as [[vb h]|f]; [|exact Hheap].
  destruct Hheap as (live & Hl0 & Hvr). destruct (hk_pci _ _ _ _ _ _ Hk) as (He & Htop & Hex & Hlen).
  assert (Hen : wp (enumerate_functions 256) (λ l p', l = found_functions (config (ho_pci ho)) ∧
    config p' = config (ho_pci ho)) (ho_pci ho)) by (by apply wp_enumerate_functions).
  apply wp_run in Hen as (l & pc & -> & -> & Hc). clear He Htop Hex Hlen.
  destruct (hk_fn _ _ _ _ _ _ Hk) as (Hfn & Hfok & Hcw & Hbar).
  destruct (hk_ports _ _ _ _ _ _ Hk) as (Hmp & Hroom & Hports & Hplen & Hp & Hs & Hci & Heng).
  set (m0 := Machine pc _ _ _ _ _ _).
  assert (Hini : wp (ahci_init eng efuel (found_functions (config (ho_pci ho))))
    (λ ok st, ok = true → port_ready (m_hba st) 0 ∧
       vm_advanced live m0 st (PG_SZ + alloc_sz (max_port_of (ho_pi ho)))) m0).
  { eapply wp_mono; [apply (wp_ahci_init eng efuel m0 live _ fn p); try (done || (cbn; rewrite Hc; done))|].
    - cbn [m0 m_vm io_region_offset g_pi]. change PG_SZ with 4096 in *. lia.
    - intros ok st' [_ Hres] ->. by destruct Hres as (_ & _ & _ & _ & _ & ? & ?). }
  apply wp_run in Hini as (ok & st & -> & Hres). destruct ok; [|done]. cbn [assert_].
  destruct (Hres eq_refl) as [Hready [Hoff (live' & Hvr' & _ & Hpp)]]. split; [done|]. split; [by exists live'|].
  rewrite Hoff. cbn [m0 m_vm io_region_offset]. lia.
Qed.

Lemma any_volume_reads fs (V : volume) : volume_reads fs V (λ _, True).
Proof. intros k o _. by apply Forall_true. Qed.

Lemma start_files_mounted `{BR : BlockReader} (V : volume) fuel dev lba o ram st live :
  let fs := Filesystem_ctor dev disk (lba * 512) lba in let kr := k_root_dir_start_cluster fs in
  ∀ (Hvol : volume_ok disk fs V fuel),
  vm_ready (m_vm st) live → reserved_live live → io_region_offset (m_vm st) + PG_SZ ≤ io_map_sz →
  find_part 4 0x01BE disk = Some lba → 0 ≤ lba < 2 ^ 23 →
  V !! kr = Some o → vo_dir o = true → vo_size o = 0 →
  match start_files dev ram st with
  | Ret (fs', v) => fs' = fs ∧
      vfs_ok (FD := fat_driver (PS := any_page_source (BR := BR)) fs V fuel Hvol (any_volume_reads fs V)) kr (λ _, 0) v
  | Halt f => f = AssertFail
  end.
Proof.
  intros fs kr Hvol [Hwf [Ho Hom] Hfree] Hrs Hroom Hpart Hlba Hro Hod Hos. unfold start_files, cache_init.
  destruct window_numbers as (E1 & E2 & E3 & _).
  assert (Hio : wp (io_alloc 1) (λ b v', b = io_map_start + io_region_offset (m_vm st) ∧
    v' = VMem (heap_st (m_vm st)) (cr3 (m_vm st)) (PageTable.mem (m_vm st)) (tlb (m_vm st))
           (io_region_offset (m_vm st) + 1 * PG_SZ)) (m_vm st)) by (apply wp_io_alloc; [done|lia|lia|done]).
  apply wp_run in Hio as (b & v' & Heq & Hb & Hv'). rewrite Heq. unfold mbind, outcome_bind.
  replace (b =? 0) with false by (symmetry; apply Z.eqb_neq; lia). cbn [negb assert_].
  assert (Hok : ps_inv (PageSource := any_page_source (BR := BR)) (PCache lru_new v' ram b)).
  { exists live. eapply (pc_ok_init (m_vm st)); [exact Hwf|exact Heq|by rewrite Hv'|lia| | |exact Hrs].
    - rewrite Hb, Zplus_mod, Hom. done.
    - rewrite Hv', Hb. apply Hfree. lia. }
  pose proof (mount_boot_ok (PS := any_page_source (BR := BR)) V fuel dev lba _ o Hvol (any_volume_reads fs V) Hok I I Hpart Hlba Hro Hod Hos) as Hm.
  destruct (mount_boot dev _) as [[fs' v]|f]; [exact Hm|by destruct Hm].
Qed.

(** The first process, on a mounted file system. *)
Lemma start_init_loads {F} `{FD : FsDriver F} stale kr k ks raw0 raw1 pid stk bin_path buf (v : vfs F) x phs :
  vfs_ok kr (λ _, 0) v → (∀ p, 0 ≤ p * PG_SZ < hhdm_start → is_Some (stale p)) →
  Forall (λ c, 0 < c < 256) bin_path → resolve [kr] (components bin_path) = Found (k :: ks) → isdir k = false →
  parse_executable (image_head k) = Ret (Ok, Some x) →
  program_headers (image_head k) (ph_table x) (Z.to_nat (ELFHeader.phnum (hdr x))) 0 = Some phs →
  image_ok k (loads phs) →
  match start_init stale raw0 raw1 pid stk bin_path buf v with
  | Ret (pr, s) => eip3 pr = ELFHeader.entry (hdr x) ∧ esp3 pr = hhdm_start ∧ Process.tid pr = Some 1 ∧
      (∀ ph y, ph ∈ loads phs → in_segment ph y → loaded_at k ph pr y) ∧
      ∀ t0 t1, wp (schedule t0 t1) (λ _, runs_process pid) s
  | Halt f => f = AssertFail
  end.
Proof.
  intros Hv Hstale Hpath Hres Hdir Hparse Hphs Himg. unfold start_init.
  destruct (sched_start raw0 raw1 pid stk) as (s0 & s & -> & Hnt & Hsched). unfold mbind, outcome_bind. rewrite Hnt.
  assert (Hfresh : fresh stale kr (Proc v [] [] ∅ 0 0 None)).
  { split; [|done|done]. split; [exact Hv|constructor|constructor|split; constructor]. }
  pose proof (wpx_Process_ctor stale kr k _ bin_path ks buf 1 x phs Hfresh Hpath Hres Hdir Hparse Hphs Himg) as Hw.
  unfold wpx in Hw. destruct (Process_ctor _ _ _ _ _ _) as [[r pr]|f]; [|by destruct Hw].
  destruct Hw as (-> & (He & Hsp & Ht) & _ & Hl & _). rewrite bool_decide_true by done. cbn [assert_].
  by split_and!.
Qed.

(** C1: the kernel starts: on a machine whose memory map, page tables,
    PCI bus and AHCI controller are as a boot loader leaves them and whose
    disk has an executable at the path, the stages of [entry] return one
    after the other: the heap is on free pages, the controller's port is
    ready, the partition is mounted through the page cache, and the first
    process has its segments in place and its thread queued, which the
    first call of the scheduler switches to.  The only way not to get there
    is a failed assertion. *)
Theorem startup_reaches_init ho ents fn p pl fuel (Hr : responds pl fuel) (V : volume) ffuel dev lba o ram
    stale raw0 raw1 pid stk bin_path buf :
  let fs := Filesystem_ctor dev platter (lba * 512) lba in let kr := k_root_dir_start_cluster fs in
  ∀ (Hvol : volume_ok platter fs V ffuel),
  handover_ok eng efuel ho ents fn p →
  find_part 4 0x01BE platter = Some lba → 0 ≤ lba < 2 ^ 23 →
  V !! kr = Some o → vo_dir o = true → vo_size o = 0 →
  (∀ p, 0 ≤ p * PG_SZ < hhdm_start → is_Some (stale p)) → Forall (λ c, 0 < c < 256) bin_path →
  match start_devices std_sort eng efuel ho with
  | Ret st => ∃ Hready : port_ready (m_hba st) 0,
      let BR := ahci_block_reader pl fuel (m_hba st) Hr Hready in
      let FD := fat_driver (PS := any_page_source (BR := BR)) fs V ffuel Hvol (any_volume_reads fs V) in
      match start_files (BR := BR) dev ram st with
      | Ret (fs', v) => fs' = fs ∧ ∀ k ks x phs,
          resolve (FD := FD) [kr] (components bin_path) = Found (k :: ks) → vol_isdir V k = false →
          parse_executable (image_head (FD := FD) k) = Ret (Ok, Some x) →
          program_headers (image_head (FD := FD) k) (ph_table x) (Z.to_nat (ELFHeader.phnum (hdr x))) 0 = Some phs →
          image_ok (FD := FD) k (loads phs) →
          match start_init (FD := FD) stale raw0 raw1 pid stk bin_path buf v with
          | Ret (pr, s) => eip3 pr = ELFHeader.entry (hdr x) ∧ esp3 pr = hhdm_start ∧ Process.tid pr = Some 1 ∧
              (∀ ph y, ph ∈ loads phs → in_segment ph y → loaded_at (FD := FD) k ph pr y) ∧
              ∀ t0 t1, wp (schedule t0 t1) (λ _, runs_process pid) s
          | Halt f => f = AssertFail
          end
      | Halt f => f = AssertFail
      end
  | Halt f => f = AssertFail
  end.
Proof.
  intros fs kr Hvol Hk Hpart Hlba Ho Hod Hos Hstale Hpath.
  pose proof (start_devices_ready ho ents fn p Hk) as Hdev.
  destruct (start_devices std_sort eng efuel ho) as [st|f]; [|exact Hdev].
  destruct Hdev as (Hready & (live & Hvr & Hpp) & Hroom). exists Hready. cbv zeta.
  set (BR := ahci_block_reader pl fuel (m_hba st) Hr Hready).
  pose proof (start_files_mounted (BR := BR) V ffuel dev lba o ram st live Hvol Hvr Hpp Hroom Hpart Hlba Ho Hod Hos) as Hm.
  destruct (start_files dev ram st) as [[fs' v]|f]; [|exact Hm]. destruct Hm as [-> Hv]. split; [reflexivity|].
  intros k ks x phs Hres Hdir Hparse Hphs Himg.
  exact (start_init_loads (FD := fat_driver (PS := any_page_source (BR := BR)) fs V ffuel Hvol (any_volume_reads fs V)) stale kr k ks raw0 raw1
    pid stk bin_path buf v x phs Hv Hstale Hpath Hres Hdir Hparse Hphs Himg).
Qed.
End proof.

(** ** The timer

    [scheduler] is whether the global pointer of that name is set; the log
    holds the port writes. *)
Record ticker := Ticker { tk_out : list (Z * Z); tk_sched : Scheduler }.
Definition do_schedule (scheduler : bool) (t0 t1 : Z) : M Scheduler unit :=
  if scheduler then schedule t0 t1 else mret tt.
Definition curr_proc_of (scheduler : bool) : M Scheduler (option Z) :=
  if scheduler then curr_proc else mret None.
Definition on_timer (scheduler : bool) (t0 t1 : Z) : M ticker unit :=
  k ← getS;
  _ ← putS (Ticker (tk_out k ++ pic_eoi 0) (tk_sched k));
  on_part tk_sched (λ s k, Ticker (tk_out k) s) (do_schedule scheduler t0 t1).

(** What a new thread does first, on its own stack ([ContextSwitch]). *)
Definition on_thread_start (thread : option Z) (now : Z) : M Scheduler unit :=
  _ ← assertM (bool_decide (is_Some thread));
  post_context_switch_bookkeeping now.

(** A tick ends the interrupt at the first controller only and moves the
    round robin one thread on; before the scheduler is there it changes
    nothing else, and there is no current process. *)
Lemma on_timer_ticks scheduler t0 t1 k :
  sched_ok (tk_sched k) → 0 ≤ context_switch_count (tk_sched k) < 2 ^ 32 - 1 →
  wp (on_timer scheduler t0 t1) (λ _ k', tk_out k' = tk_out k ++ [(0x20, 0x20)] ∧
    if scheduler then sched_ok (tk_sched k') ∧ queue (tk_sched k') = rotate1 (queue (tk_sched k))
    else tk_sched k' = tk_sched k ∧ wp (curr_proc_of scheduler) (λ p _, p = None) (tk_sched k')) k.
Proof.
  intros Hok Hn. unfold on_timer. apply wp_bind, wp_get, wp_bind, wp_put, wp_on_part. cbn [tk_sched tk_out].
  destruct scheduler; cbn [do_schedule].
  - eapply wp_mono; [by apply wp_schedule_ok|]. intros [] s' (? & ? & _). done.
  - apply wp_ret. done.
Qed.

(** ** A machine that starts

    512 KB of memory with the boot loader's tables at 4 KB; an AHCI
    controller behind a PCI bridge; a disk with a partition at sector 8
    whose root directory (cluster 2) has BIN (cluster 3), which has INIT,
    an executable of two clusters (4 and 5) with one segment. *)
Definition init_hdr : ELFHeader.Header :=
  ELFHeader.Hdr 0x464c457F 1 1 1 0 0 0 2 3 1 0x08049000 52 0 0 0x34 0x20 1 0x28 0 0.
Definition init_text : PHEntry.Entry := PHEntry.Ph 1 0x1000 0x08049000 0x08049000 0x200 0x200 5 0x1000.
Definition dirent_bin : list Z :=
  [66; 73; 78; 32; 32; 32; 32; 32; 32; 32; 32; 0x10] ++ replicate 14 0 ++ [3; 0; 0; 0; 0; 0].
Definition dirent_init : list Z :=
  [73; 78; 73; 84; 32; 32; 32; 32; 32; 32; 32; 0x20] ++ replicate 14 0 ++ [4; 0; 0; 0x12; 0; 0].
Definition start_extents : list (Z * list Z) :=
  [(0x1C2, [0x0C]); (0x1C6, [8]);
   (4096 + 12, [2; 8; 24; 0; 1]); (4096 + 36, [8]); (4096 + 44, [2]);
   (16400, [5; 0; 0; 0; 0xFF; 0xFF; 0xFF; 0x0F]);
   (20480, dirent_bin); (24576, dirent_init); (28672, encode_hdr init_hdr ++ encode_phs [init_text])].
Definition start_disk (a : Z) : Z :=
  match List.find (λ e, (e.1 <=? a) && (a <? e.1 + zlen e.2)) start_extents with
  | Some e => default 0 (e.2 !! Z.to_nat (a - e.1))
  | None => 0
  end.
Definition start_fs : Filesystem := Filesystem_ctor 7 start_disk (8 * 512) 8.
Definition start_volume : volume := {[2 := VObj [] true 0; 3 := VObj [] true 0; 4 := VObj [5] false 0x1200]}.
Definition path_init : list Z := [47; 66; 73; 78; 47; 73; 78; 73; 84].
#[local] Instance start_controller : AhciDevice.
Proof. refine {| platter := start_disk; execute _ f l m := scatter l (λ i, start_disk (512 * fis_lba f + i)) 0 m |}. done. Defined.

Definition start_ents : MemoryMap.mmap :=
  [E820 0x20000 0x60000 1 0; E820 0 0x1fc00 1 0; E820 0x1fc00 0x400 2 0;
   E820 0 0x3000 6 0; E820 0x7c00 0x7e00 7 0].
Definition start_handover : handover :=
  Handover (start_ents ++ replicate 2 e820_null) (λ _, PFD true true) 0x1000 {[0xC0001000 := zero_page]} ∅
    (Pci 0 init_space []) (Ahci [demo_port] ∅ ∅ (λ _, 0) 0 0) 0 0 1.

(** *** The volume *)
Lemma start_fs_eq : start_fs = KFat 7 512 8 128 32 40 2.
Proof. vm_compute. reflexivity. Qed.
(** A directory with one entry before the end marker *)
Lemma start_dir_ok k e l o nm :
  dir_entries start_fs [k] = e :: (e + 32) :: l →
  (start_disk e =? 0) = false → (start_disk e =? 0xE5) = false → (start_disk (e + 11) =? 0x0F) = false →
  (start_disk (e + 32) =? 0) = true → de_hi (dirent_at start_disk e) = 0 →
  start_volume !! de_cluster (dirent_at start_disk e) = Some o →
  vo_dir o = de_subdir (dirent_at start_disk e) → vo_size o = de_size (dirent_at start_disk e) →
  ∃ r, dir_search start_disk nm (dir_entries start_fs [k]) = Some r ∧ entry_ok start_volume r.
Proof.
  intros -> H1 H2 H3 H4 Hhi Ho Hd Hs. cbn [dir_search]. rewrite H1, H2, H3, H4. cbn [orb].
  destruct (view_eq _ _); eexists; (split; [reflexivity|]); [|done]. split; [done|]. by exists o.
Qed.
Lemma start_volume_ok : volume_ok start_disk start_fs start_volume 2.
Proof.
  split; [rewrite start_fs_eq; by split_and!|]. intros k o Hk.
  assert (Hc : ∀ c, 2 ≤ c ≤ 5 → cluster_ok start_fs c).
  { intros c Hcs. rewrite start_fs_eq. split; [lia|]. unfold cluster_addr. cbn [k_data_region_offset_lba]. change PG_SZ with 4096. lia. }
  unfold start_volume in Hk. apply lookup_insert_Some in Hk as [[<- <-]|[_ Hk]];
    [|apply lookup_insert_Some in Hk as [[<- <-]|[_ [<- <-]%lookup_singleton_Some]]].
  - split; [exact I|]. split; [constructor; [apply Hc; lia|constructor]|]. cbn [vo_chain vo_dir vo_size length].
    split; [lia|]. split; [lia|]. intros name.
    apply (start_dir_ok 2 20480 (drop 2 (dir_entries start_fs [2])) (VObj [] true 0)); vm_compute; reflexivity.
  - split; [exact I|]. split; [constructor; [apply Hc; lia|constructor]|]. cbn [vo_chain vo_dir vo_size length].
    split; [lia|]. split; [lia|]. intros name.
    apply (start_dir_ok 3 24576 (drop 2 (dir_entries start_fs [3])) (VObj [5] false 0x1200)); vm_compute; reflexivity.
  - split; [split; [vm_compute; reflexivity|split; [vm_compute; reflexivity|exact I]]|].
    split; [constructor; [apply Hc; lia|constructor; [apply Hc; lia|constructor]]|].
    cbn [vo_chain vo_dir vo_size length]. change PG_SZ with 4096. lia.
Qed.

(** *** The machine *)
Lemma start_ents_ok : mm_ok start_ents.
Proof.
  split; [repeat constructor; vm_compute; done|].
  intros i j e f Hij He Hf. unfold start_ents in *.
  destruct i as [|[|[|[|[|i]]]]]; [..|done]; destruct j as [|[|[|[|[|j]]]]]; try done;
    simplify_eq/=; mm_lia.
Qed.
Lemma start_not_free p : 0 ≤ p < 0x3000 → ¬ page_free start_ents p.
Proof.
  intros Hp [_ Hoff]. destruct (Hoff 3%nat _ eq_refl eq_refl) as [H1|H1]; cbn in H1; change PG_SZ with 4096 in *; lia.
Qed.
Lemma start_bootable : bootable start_ents.
Proof.
  split; [apply start_ents_ok|]. split; [vm_compute; lia|]. split.
  - unfold start_ents. intros e. rewrite !elem_of_cons, elem_of_nil.
    intros [->|[->|[->|[->|[->|[]]]]]]; vm_compute; done.
  - exists 0x3000. split; [done|]. split.
    + exists 1%nat. eexists. split; [reflexivity|]. vm_compute. done.
    + intros i e He Het. unfold start_ents in He.
      destruct i as [|[|[|[|[|i]]]]]; simplify_eq/=; try done. vm_compute. by left.
Qed.
Lemma start_topology : topology_ok init_space.
Proof.
  intros b d f _ _ _. unfold exists_fn, vendor_of, is_bridge, class_of, multi_fn, header_of, secondary_of, cfg_word, cfg_byte, init_space, demo_space.
  repeat case_bool_decide; simplify_eq; vm_compute; naive_solver.
Qed.
Lemma start_handover_ok : handover_ok demo_engine 2 start_handover start_ents init_fn demo_port.
Proof.
  split.
  - by exists 1%nat.
  - exact start_bootable.
  - repeat constructor.
  - unfold start_ents. intros x. rewrite !elem_of_cons, elem_of_nil.
    intros [->|[->|[->|[->|[->|[]]]]]]; vm_compute; done.
  - apply start_not_free. lia.
  - split; [vm_compute; split; [discriminate|reflexivity]|exact demo_dir_wf].
  - intros a [t Ha]. change (ho_tables start_handover) with ({[0xC0001000 := zero_page]} : gmap Z page) in Ha.
    apply lookup_singleton_Some in Ha as [<- _]. split_and!; [done|vm_compute; discriminate|vm_compute; discriminate|].
    apply start_not_free. vm_compute. split; [discriminate|reflexivity].
  - intros x Hx. apply demo_vwalk. change io_map_start with 0xFDC00000 in Hx. change io_map_sz with 0x400000 in Hx. lia.
  - split_and!; [done|exact start_topology|done|vm_compute; lia].
  - split; [vm_compute; reflexivity|]. split; [repeat split; simpl; lia|]. split; [|vm_compute; reflexivity].
    intros v. split; [|reflexivity]. intros k _. reflexivity.
  - split_and!; try (vm_compute; (reflexivity || discriminate || lia)). apply demo_engines_stop.
Qed.

(** *** The run *)
#[local] Abbreviation fs0 := (Filesystem_ctor 7 platter (8 * 512) 8).
#[local] Abbreviation reader hba Hready := (ahci_block_reader demo_polls 5 hba demo_responds Hready).
Lemma start_vol_ok : volume_ok platter fs0 start_volume 2.
Proof. exact start_volume_ok. Qed.
#[local] Abbreviation driver hba Hready :=
  (fat_driver (PS := any_page_source (BR := reader hba Hready)) fs0 start_volume 2 start_vol_ok (any_volume_reads fs0 start_volume)).
Definition start_run (hba : ahci) (Hready : port_ready hba 0) (st : machine (kheap SimplePFA))
    : outcome (proc (fat_st (pcache (kheap SimplePFA))) * Scheduler) :=
  '(_, v) ← start_files (BR := reader hba Hready) 7 (λ _, 0) st;
  start_init (FD := driver hba Hready) (λ _, Some (λ _, 0)) (0, None) (0, None) 1 0 path_init (λ _, 0) v.

Lemma start_resolves hba Hready :
  resolve (FD := driver hba Hready) [k_root_dir_start_cluster fs0] (components path_init) = Found [4; 3; 2].
Proof. vm_compute. reflexivity. Qed.
Lemma start_parses hba Hready :
  parse_executable (image_head (FD := driver hba Hready) 4) = Ret (Ok, Some (Exe init_hdr 52)).
Proof. vm_compute. reflexivity. Qed.
Lemma start_headers hba Hready : program_headers (image_head (FD := driver hba Hready) 4) (ph_table (Exe init_hdr 52))
  (Z.to_nat (ELFHeader.phnum (hdr (Exe init_hdr 52)))) 0 = Some [init_text].
Proof. vm_compute. reflexivity. Qed.
Lemma start_image_ok hba Hready : image_ok (FD := driver hba Hready) 4 (loads [init_text]).
Proof. change (loads [init_text]) with [init_text]. split; repeat constructor; vm_compute; congruence. Qed.

(** All of it returns. *)
Definition start_returns (o : outcome (machine (kheap SimplePFA))) : Prop :=
  match o with
  | Ret st => ∀ Hready, is_ret (start_run (m_hba st) Hready st) = true
  | Halt _ => False
  end.
Lemma start_returns_demo : start_returns (start_devices sort_by_base demo_engine 2 start_handover).
Proof. vm_compute. intros Hready. reflexivity. Qed.

Lemma start_partition : find_part 4 0x01BE platter = Some 8.
Proof. vm_compute. reflexivity. Qed.
Lemma start_root : start_volume !! k_root_dir_start_cluster fs0 = Some (VObj [] true 0).
Proof. vm_compute. reflexivity. Qed.
Lemma init_text_at : in_segment init_text 0x08049000.
Proof. vm_compute. split; [discriminate|reflexivity]. Qed.
Lemma init_text_loads : init_text ∈ loads [init_text].
Proof. left. Qed.
Lemma path_init_bytes : Forall (λ c, 0 < c < 256) path_init.
Proof. repeat (constructor; [lia|]). constructor. Qed.

Lemma startup_reaches_init_witness : ∃ st Hready pr s,
  start_devices sort_by_base demo_engine 2 start_handover = Ret st ∧
  start_run (m_hba st) Hready st = Ret (pr, s) ∧ eip3 pr = 0x08049000 ∧
  loaded_at (FD := driver (m_hba st) Hready) 4 init_text pr 0x08049000 ∧
  wp (schedule 1 2) (λ _, runs_process 1) s.
Proof.
  pose proof (startup_reaches_init sort_by_base sort_by_base_perm sort_by_base_sorted demo_engine 2 start_handover start_ents
    init_fn demo_port demo_polls 5 demo_responds start_volume 2 7 8 (VObj [] true 0) (λ _, 0) (λ _, Some (λ _, 0)) (0, None) (0, None)
    1 0 path_init (λ _, 0) start_vol_ok start_handover_ok start_partition ltac:(lia) start_root eq_refl eq_refl
    ltac:(by eexists) path_init_bytes) as H.
  pose proof start_returns_demo as Hr.
  destruct (start_devices sort_by_base demo_engine 2 start_handover) as [st|f]; [|destruct Hr]. cbn [start_returns] in Hr.
  destruct H as [Hready H]. specialize (Hr Hready). exists st, Hready. unfold start_run in *. unfold mbind, outcome_bind in *.
  cbv zeta in H.
  destruct (start_files 7 (λ _, 0) st) as [[fs' v]|f]; [|discriminate Hr]. destruct H as [_ H].
  specialize (H 4 [3; 2] (Exe init_hdr 52) [init_text] (start_resolves _ Hready) eq_refl (start_parses _ Hready)
    (start_headers _ Hready) (start_image_ok _ Hready)).
  destruct (start_init _ _ _ _ _ _ _ v) as [[pr s]|f]; [|discriminate Hr]. destruct H as (He & _ & _ & Hl & Hs).
  exists pr, s. split; [reflexivity|]. split; [reflexivity|]. split; [exact He|].
  exact (conj (Hl _ _ init_text_loads init_text_at) (Hs 1 2)).
Defined.
