(* ===== verification/Userspace.v ===== *)
(** * The programs of user mode ([userspace/])

    [init] sums its data and bss, and [josh], a shell in the making, cuts
    a command line into words.  Addresses into the command buffer are
    indices; the arrays have the sizes they have on the stack. *)
From S2P Require Import Prelude.

(** ** jlibc/ctype.cc *)
Definition isspace (c : Z) : bool :=
  (c =? 32) || (c =? 12) || (c =? 10) || (c =? 13) || (c =? 9) || (c =? 11).

(** ** josh *)
Definition MAX_CMD_LEN : Z := 4095.
Definition MAX_ARG_COUNT : Z := 1024.

(** The loop of [parse_cmd], [k] iterations left. *)
Fixpoint parse_loop (k : nat) (i : Z) (buf args : list Z) (argc : Z) : outcome (list Z * list Z * Z) :=
  match k with
  | O => Ret (buf, args, argc)
  | S k =>
    c ← aget buf i;
    buf ← (if isspace c then aset buf i 0 else Ret buf);
    start ← (if i =? 0 then Ret true
             else p ← aget buf (i - 1); c ← aget buf i; Ret ((p =? 0) && negb (isspace c)));
    if (start : bool) then
      args ← aset args argc i;
      parse_loop k (i + 1) buf args (argc + 1)
    else parse_loop k (i + 1) buf args argc
  end.
Definition parse_cmd (buf : list Z) (n : Z) (args : list Z) : outcome (list Z * list Z * Z) :=
  parse_loop (Z.to_nat n) 0 buf args 0.

(** ** init *)
Fixpoint sum_loop (cs : list Z) (rval : Z) : Z :=
  match cs with [] => rval | c :: cs => sum_loop cs (signed 32 (rval + signed 8 c)) end.
Definition init_start (data bss : list Z) : Z := sum_loop bss (sum_loop data 0).

(** ** What [parse_cmd] does *)

(** White space becomes NUL, and a word starts at the beginning and after
    every NUL. *)
Definition cut (c : Z) : Z := if isspace c then 0 else c.
Fixpoint starts (off : Z) (prev : bool) (cs : list Z) : list Z :=
  match cs with
  | [] => []
  | c :: cs => (if prev then [off] else []) ++ starts (off + 1) (cut c =? 0) cs
  end.

Lemma cut_not_space c : isspace (cut c) = false.
Proof. unfold cut. by destruct (isspace c) eqn:?. Qed.

(** One iteration at [c], after [done_]: what happens to the buffer, and
    whether a word starts. *)
Lemma cut_step done_ c cs rest :
  (if isspace c then aset ((cut <$> done_) ++ (c :: cs) ++ rest) (zlen done_) 0
   else Ret ((cut <$> done_) ++ (c :: cs) ++ rest)) = Ret ((cut <$> done_ ++ [c]) ++ cs ++ rest).
Proof.
  assert (Hd : length (cut <$> done_) = length done_) by apply length_fmap.
  rewrite fmap_app. cbn [fmap list_fmap app]. rewrite <- app_assoc.
  change (cut c) with (if isspace c then 0 else c). destruct (isspace c); [|done].
  rewrite aset_eq by (rewrite !length_app, Hd; simpl; lia).
  by rewrite insert_app_r_alt, Hd, Nat.sub_diag by lia.
Qed.

Definition starts_here (done_ : list Z) : bool := match last done_ with None => true | Some c => cut c =? 0 end.

Lemma start_step done_ c cs rest (buf := (cut <$> done_ ++ [c]) ++ cs ++ rest) :
  (if zlen done_ =? 0 then Ret true
   else p ← aget buf (zlen done_ - 1); c ← aget buf (zlen done_); Ret ((p =? 0) && negb (isspace c)))
    = Ret (starts_here done_).
Proof.
  assert (Hi : buf !! length done_ = Some (cut c)).
  { unfold buf. rewrite fmap_app, <- app_assoc, lookup_app_r by (rewrite length_fmap; lia).
    by rewrite length_fmap, Nat.sub_diag. }
  unfold starts_here. destruct (last done_) as [x|] eqn:Hl.
  - apply last_Some in Hl as [l ->]. rewrite length_app in *. simpl length in *.
    rewrite (proj2 (Z.eqb_neq _ 0)) by lia. replace (Z.of_nat (length l + 1) - 1) with (zlen l) by lia.
    rewrite (aget_Some _ (length l) (cut x)), (aget_Some _ _ _ Hi); munfold; [by rewrite cut_not_space, andb_true_r|].
    unfold buf. rewrite <- app_assoc, fmap_app, <- app_assoc, lookup_app_r by (rewrite length_fmap; lia).
    by rewrite length_fmap, Nat.sub_diag.
  - by apply last_None in Hl as ->.
Qed.

Lemma parse_loop_spec cs done_ rest pre slots :
  let ss := starts (zlen done_) (starts_here done_) cs in
  (length ss ≤ length slots)%nat →
  parse_loop (length cs) (zlen done_) ((cut <$> done_) ++ cs ++ rest) (pre ++ slots) (zlen pre) =
    Ret ((cut <$> done_ ++ cs) ++ rest, pre ++ ss ++ drop (length ss) slots, zlen pre + zlen ss).
Proof.
  cbv zeta. revert done_ pre slots. induction cs as [|c cs IH]; intros done_ pre slots Hlen; cbn [length parse_loop].
  { simpl. by rewrite app_nil_r, drop_0, Z.add_0_r. }
  rewrite (aget_Some _ (length done_) c).
  2:{ rewrite lookup_app_r by (rewrite length_fmap; lia). by rewrite length_fmap, Nat.sub_diag. }
  unfold mbind, outcome_bind. rewrite cut_step. pose proof (start_step done_ c cs rest) as Hstart.
  unfold mbind, outcome_bind in Hstart. rewrite Hstart. clear Hstart.
  assert (Hz : zlen done_ + 1 = zlen (done_ ++ [c])) by (rewrite length_app; simpl; lia).
  assert (Hp' : (cut c =? 0) = starts_here (done_ ++ [c])) by (unfold starts_here; by rewrite last_snoc).
  cbn [starts] in Hlen |- *. rewrite Hp' in *. rewrite Hz in *.
  rewrite (app_assoc done_ [c] cs : done_ ++ c :: cs = (done_ ++ [c]) ++ cs).
  destruct (starts_here done_); cbn [app length] in Hlen |- *; [|by apply IH].
  destruct slots as [|s slots]; [simpl in Hlen; lia|]. rewrite aset_eq by (rewrite length_app; simpl; lia).
  rewrite insert_app_r_alt, Nat.sub_diag by lia. cbn [insert list_insert].
  rewrite (app_assoc pre [zlen done_] slots : pre ++ zlen done_ :: slots = (pre ++ [zlen done_]) ++ slots).
  replace (zlen pre + 1) with (zlen (pre ++ [zlen done_])) by (rewrite length_app; simpl; lia).
  rewrite (IH (done_ ++ [c]) (pre ++ [zlen done_]) slots) by (simpl in Hlen; lia).
  rewrite <- (app_assoc pre), (length_app pre). cbn [app length drop]. do 2 f_equal. lia.
Qed.

(** [parse_cmd] replaces the white space of the line by NULs and returns
    the addresses of the characters that begin the line or follow a NUL,
    provided there is room for them. *)
Theorem parse_cmd_cuts cs rest args :
  (length (starts 0 true cs) ≤ length args)%nat →
  parse_cmd (cs ++ rest) (zlen cs) args =
    Ret ((cut <$> cs) ++ rest, starts 0 true cs ++ drop (length (starts 0 true cs)) args, zlen (starts 0 true cs)).
Proof.
  intros Hlen. unfold parse_cmd. rewrite Nat2Z.id.
  apply (parse_loop_spec cs [] rest [] args Hlen).
Qed.

(** ** Words *)
Definition word (w : list Z) : Prop := w ≠ [] ∧ Forall (λ c, isspace c = false ∧ c ≠ 0) w.
Fixpoint join (ws : list (list Z)) : list Z :=
  match ws with [] => [] | [w] => w | w :: ws => w ++ 32 :: join ws end.
(** The string at an address. *)
Fixpoint cstr_at (buf : list Z) : list Z :=
  match buf with [] => [] | c :: buf => if c =? 0 then [] else c :: cstr_at buf end.
Definition arg_str (buf : list Z) (a : Z) : list Z := cstr_at (drop (Z.to_nat a) buf).

Lemma word_cut w : word w → cut <$> w = w.
Proof.
  intros [_ Hw]. induction Hw as [|c w [Hc _] _ IH]; [done|]. cbn [fmap list_fmap]. f_equal; [|exact IH].
  unfold cut. by rewrite Hc.
Qed.
Lemma cstr_at_word w rest : word w → cstr_at (w ++ 0 :: rest) = w.
Proof.
  intros [_ Hw]. induction Hw as [|c w [_ Hc] _ IH]; [done|]. simpl.
  by rewrite (proj2 (Z.eqb_neq c 0)), IH by done.
Qed.
Lemma starts_inside off w rest : Forall (λ c, isspace c = false ∧ c ≠ 0) w →
  starts off false (w ++ rest) = starts (off + zlen w) false rest.
Proof.
  intros Hw. revert off. induction Hw as [|c w [Hc H0] _ IH]; intros off; cbn [app starts length].
  { by rewrite Z.add_0_r. }
  unfold cut. rewrite Hc, (proj2 (Z.eqb_neq c 0)) by done. rewrite IH. f_equal. lia.
Qed.
Lemma starts_word off w rest : word w → starts off true (w ++ rest) = off :: starts (off + zlen w) false rest.
Proof.
  intros [Hne Hw]. destruct w as [|c w]; [done|]. apply Forall_cons in Hw as [[Hc H0] Hw]. cbn [app starts length].
  unfold cut. rewrite Hc, (proj2 (Z.eqb_neq c 0)) by done. rewrite starts_inside by done. do 2 f_equal. lia.
Qed.

Lemma starts_join ws pre rest :
  Forall word ws →
  arg_str (pre ++ (cut <$> join ws) ++ 0 :: rest) <$> starts (zlen pre) true (join ws) = ws.
Proof.
  intros Hws. revert pre. induction Hws as [|w ws Hw Hws IH]; intros pre; [done|].
  assert (Hhere : ∀ tl, arg_str (pre ++ w ++ 0 :: tl) (zlen pre) = w).
  { intros tl. unfold arg_str. rewrite Nat2Z.id, drop_app_length. by apply cstr_at_word. }
  destruct ws as [|w' ws'].
  - cbn [join]. rewrite <- (app_nil_r w) at 2. rewrite starts_word by done. cbn [starts fmap list_fmap].
    by rewrite word_cut, Hhere.
  - change (join (w :: w' :: ws')) with (w ++ 32 :: join (w' :: ws')). rewrite starts_word by done.
    rewrite fmap_app, word_cut by done. cbn [starts fmap list_fmap]. change (cut 32) with 0. rewrite <- app_assoc. cbn [app].
    rewrite Hhere. f_equal. specialize (IH (pre ++ w ++ [0])). rewrite <- !app_assoc in IH. cbn [app] in IH.
    rewrite !length_app in IH. simpl length in IH. change (0 =? 0) with true.
    replace (zlen pre + zlen w + 1) with (Z.of_nat (length pre + (length w + 1))) by lia. exact IH.
Qed.

(** A line of words with one space between them comes back as its words. *)
Theorem parse_cmd_words ws rest args :
  Forall word ws → (length (starts 0 true (join ws)) ≤ length args)%nat →
  ∃ buf' args' argc, parse_cmd (join ws ++ 0 :: rest) (zlen (join ws)) args = Ret (buf', args', argc) ∧
    argc = zlen ws ∧ arg_str buf' <$> take (Z.to_nat argc) args' = ws.
Proof.
  intros Hws Hlen. pose proof (starts_join ws [] rest Hws) as Hs. change (zlen []) with 0 in Hs. cbn [app] in Hs.
  eexists _, _, _. split; [by apply parse_cmd_cuts|]. rewrite Nat2Z.id, take_app_length. split; [|exact Hs].
  rewrite <- Hs at 2. by rewrite length_fmap.
Qed.

(** Two spaces make an empty word, since the test for white space is made
    after it was overwritten; and so does one at the beginning. *)
Example two_spaces_empty_word :
  match parse_cmd [97; 32; 32; 98; 0] 4 (replicate 8 0) with
  | Ret (buf, args, argc) => argc = 3 ∧ arg_str buf <$> take 3 args = [[97]; []; [98]]
  | Halt _ => False
  end.
Proof. vm_compute. done. Qed.

(** The number of words is not checked against the array: a line of 2048
    characters overruns it. *)
Example parse_cmd_overruns :
  parse_cmd (replicate 2048 32) 2048 (replicate (Z.to_nat MAX_ARG_COUNT) 0) = Halt BadAccess.
Proof. vm_compute. done. Qed.

(** With a zeroed bss, [init] exits with 6. *)
Example init_exits_6 :
  init_start ([1; 2; 3] ++ replicate 5117 0) (replicate 8192 0) = 6.
Proof. vm_compute. done. Qed.
